(* ===== verification/_CoqProject ===== *)
-Q . S2P
Prelude.v
MhdStr.v
MemoryPool.v
HashStream.v
Md5.v
Sha256.v
Base64.v
ReasonPhrase.v
Internal.v
Headers.v
Connection.v
RequestBody.v
ChunkedBody.v
RequestHead.v
HeaderBlock.v
EventLoop.v
RequestLine.v
PostProcessor.v
PostForm.v
PostSafety.v
Response.v
Reply.v
ReplyHeader.v
ReplyBody.v
ReplyStream.v
ReplyChunked.v
ReplyParse.v
ErrorReply.v
Idle.v
IdleEnd.v
IdleHead.v
IdleWait.v
IdleTurns.v
IdleDeliver.v
IdleServe.v
SelectLoop.v
PollLoop.v
DigestAuth.v
NonceTable.v
AuthParams.v
AuthDigest.v
AuthArguments.v
AuthCheck.v
AuthChallenge.v
BasicAuth.v
TSearch.v
IpLimit.v
Dll.v
Daemon.v
DaemonSpec.v
DaemonLists.v
DaemonSteps.v
DaemonRun.v
DaemonLife.v
DaemonStop.v
DaemonTime.v
Forward.v
ForwardRun.v
