(* ===== verification/Prelude.v ===== *)
(** * The HTTP server library of the USB maker: a verification development

    The repository contains a USB image maker (C++, under src/src and
    src/gdisk) and the C library it embeds to talk HTTP, under
    src/libmicrohttpd.  This development models the library: the files
    src/microhttpd/*.c that turn the bytes of a socket into requests, run the
    application's callbacks and turn its responses into bytes.

    ** The program

    A connection (connection.c, internal.h) owns a memory pool (memorypool.c).
    The bytes read from its socket go to a read buffer at the front of the
    pool; [MHD_connection_handle_idle] is a loop over the states of the
    connection, which cuts lines out of that buffer, terminates them in place
    and links small records with pointers to them, carved from the end of the
    pool.  The request line is split and its arguments decoded in place
    (internal.c), with numbers and tokens read by mhd_str.c.  A body is handed
    to the application after its transfer encoding is taken off; the
    application may feed it to a post processor (postprocessor.c).  The
    application answers with a response object (response.c), which several
    connections may share; the idle function builds the header of the reply in
    the pool and sends header, body and footers in whatever parts the socket
    takes.  Then the pool is reset, keeping the bytes of the next request.
    Digest and basic authentication (digestauth.c, basicauth.c) read the
    authorization header with MD5, SHA-256 and base64.

    The daemon (daemon.c) keeps its connections on doubly linked lists whose
    links are members of the connections (internal.h): the active ones, the
    suspended ones and those to clean up, and, for the time-outs, one list in
    the order of the last activity and one of connections with a time-out of
    their own.  It limits their number, and the number for each address with
    counters in a search tree (tsearch.c).

    ** Conventions

    A byte is a [Z] in [0, 256), a string of C the list of bytes from the
    pointed-to byte to the end of its object ([cstr] appends the terminator).
    An access outside an object is the result [None] of the operation, so that
    a theorem with the result [Some] excludes it.  A pointer into the pool of
    a connection is an offset, and every operation passes the one memory of
    the pool on: aliasing of lines, names, values and buffers is that of the
    code.  Integers keep their width: [u8], [u32], [u64] wrap, and [usize]
    wraps at the width of the class [Platform] ([LP64], [ILP32]).  System
    calls, allocators, clocks and the callbacks of the application are
    arguments of the operations; where the code relies on a callback's
    contract it is a class ([UnescapeCallback]) with an instance for the
    library's own callback.  Locks are left out: each operation runs between
    taking and releasing the lock of the object it changes, and the theorems
    about shared responses let another connection change the object between
    two steps.

    ** The files

    - [Prelude]: integers of a width, objects ([mem_read], [mem_write],
      [memmove], [memset]), the string functions of C, positional notation
      and printing.
    - [MhdStr] (mhd_str.c): characters, caseless comparison, token search, the
      number parsers and their small-code replacement.
    - [MemoryPool] (memorypool.c): the arena and the ghost list of live blocks
      that states what it promises to its clients.
    - [HashStream]: block arithmetic and the interface [LawfulHash] of the
      digest algorithms; [Md5] (md5.c) and [Sha256] (sha256.c) discharge it
      against RFC 1321 and FIPS 180-4.
    - [Base64] (base64.c), [ReasonPhrase] (reason_phrase.c), [Internal]
      (internal.c: unescaping and argument parsing).
    - [Headers], [Connection], [RequestBody], [RequestHead] (connection.c, the
      receiving half): the values of a request, the connection record, the
      body decoder, and the head.  [ChunkedBody], [HeaderBlock] and
      [RequestLine] hold their specifications and theorems.  [EventLoop]: what
      a connection waits for.
    - [PostProcessor] (postprocessor.c) with [PostForm] and [PostSafety].
    - [Response] (response.c), [Reply] and [ReplyBody] (connection.c, the
      sending half), with the theorems in [ReplyHeader], [ReplyStream],
      [ReplyChunked] and [ReplyParse].
    - [ErrorReply] (connection.c): what the receiving half asked for when it
      met an error, made on the whole connection: a response of the text,
      queued, with its header built ([send_error_response], [settle]).
    - [Idle] (connection.c, daemon.c): the parts above in the one loop over the
      states of a connection, with the calls of the application, and the turn
      of the event loop that reads, writes and runs it.  [IdleEnd] (a measure
      for the loop and what is waited for behind it), [IdleHead] (a whole
      request head), [IdleWait] (where the loop stops), [IdleTurns] (one turn),
      [IdleDeliver] (the turns that send a reply) and [IdleServe] (from a
      request to its reply) hold the theorems.  [SelectLoop]
      (daemon.c, mhd_sockets.c) and [PollLoop] (daemon.c): the turns of all
      connections around the call of [select] and of [poll].
    - [DigestAuth] (digestauth.c) with [NonceTable] (the table of nonces
      against a specification with a set of counters), [AuthParams] (the
      parameters of the header), [AuthDigest] (the digests of RFC 2617, for
      any [LawfulHash]), [AuthArguments], [AuthCheck] and [AuthChallenge];
      [BasicAuth] (basicauth.c).
    - [TSearch] (tsearch.c) against a sorted list, for any order ([KeyOrder]);
      [IpLimit] (daemon.c: the counters of addresses), with the counters as
      objects that are allocated and freed.
    - [Dll] (internal.h: the list macros): a heap of links and what it means
      that it holds a list; several lists share the heap ([family]).  [Daemon]
      (daemon.c, connection.c, response.c): every function that moves a
      connection from list to list, accepts or frees one, and the time-outs.
      [DaemonSpec]: the same without pointers, and the events of a daemon as
      a step relation ([steps_to]) with the conditions under which they may
      happen ([allowed]).  [DaemonLists] (heap and lists), [DaemonSteps] and
      [DaemonRun] prove that the functions implement it;
      [DaemonLife], [DaemonStop] and [DaemonTime] hold the theorems.
    - [Forward] (daemon.c, response.c: an upgraded connection with TLS): the
      two buffers and the function that moves bytes between the TLS session
      and the socket pair; [ForwardRun] has the theorems.
    A field or a function keeps the name of the source.  A long function is
    split along its branches or its phases, and the definition with the name
    of the function composes the parts.

    ** The theorems

    Reading: [RequestLine.request_line_parsed], [HeaderBlock.header_block_read]
    and [ChunkedBody.chunked_body_delivered] say that a request is read as it
    was written, for every way of cutting it into segments, with the rest of
    the stream left in the buffer.  [EventLoop.waiting_connection_can_read]
    says that a connection that waits for input can take it, but for one with
    a full buffer of footers ([EventLoop.full_footer_buffer_stalls]).

    The state machine: [IdleEnd.handle_idle_loop_ends] says that its loop ends
    whatever the application does and whatever is answered with an error
    reply, [IdleWait.idle_waits_for_line] that it does
    not wait while it could go on reading, [IdleTurns.call_handlers_fits] that
    what the connection is watched for fits its state after every turn,
    [SelectLoop.no_connection_is_forgotten] that the event loop then watches
    it for that, [PollLoop.poll_all_is_select] that the loop with [poll] does
    the same, and
    [IdleHead.request_head_received] and [IdleServe.request_answered] follow a
    request from its bytes to the calls of the application and to the header
    of the reply; [IdleServe.request_served] puts the reading and the writing
    half together, from the bytes of a request to the last byte of its reply,
    in any turns of the event loop in which the socket gets on.

    Writing: [ReplyHeader.reply_header_exact] and [ReplyParse.reply_header_read_back] say that the header of a reply has
    the computed size, is what was intended and reads back as the headers
    the application added, and
    [ReplyStream.plain_reply_delivered] and
    [ReplyChunked.chunked_reply_decodes] follow a reply over the socket; the
    second is stated with the encoding the decoder of requests implements, so
    the two halves of the library are proved to agree.  The pool theorems make
    the memory of both disjoint.  Authentication:
    [AuthCheck.digest_auth_check_correct] says exactly which requests are
    authenticated, on top of the refinement of the table of nonces, the lookup
    of parameters and the hash functions, and
    [AuthChallenge.answered_challenge_is_authenticated] follows a challenge
    and its answer; [BasicAuth.basic_credentials_read] is the round trip of
    basic credentials.  The daemon: [DaemonLife.daemon_refines_lists] says
    that in every state that is reached no function meets a list it cannot
    handle, and that it does what it does to plain lists;
    [DaemonLife.daemon_invariant] is the type of a daemon (who is on which
    list, what is counted, what was announced),
    [DaemonStop.resumed_connections_are_woken] that no resumed connection is
    forgotten, [DaemonStop.stop_frees_everything] that stopping leaves
    nothing, and [DaemonTime.get_timeout_is_earliest] that a wait ends no
    later than the first deadline.  Forwarding:
    [ForwardRun.forwarding_relays_the_bytes] says that an upgraded connection
    passes on what it took, and [ForwardRun.forwarding_never_stalls] that none
    of its directions is forgotten.  Safety: the body decoder and the post
    processor never leave their objects and always return, for every input
    and application.  The remaining theorems are functional specifications of
    the components these rest on.

    ** Fuel and bounds

    Loops over a string or a buffer recurse on a number of bytes that is
    left, with the length of the object or an argument of the function as the
    bound; the theorems with a result [Some] show that it suffices.  The loop
    of the body decoder is bounded by the number of available bytes
    ([ChunkedBody.process_request_body_safe]): every round that asks for
    another one consumes one.  The loop of the multipart parser has a
    lexicographic measure of the bytes left and the progress of its state
    machine ([PostSafety.measure_lex]).  The search for a parameter of the
    authorization header passes an equals sign in every round and has the
    length of the header as fuel.  [find_write_buffer] halves a [size_t]
    and has fuel 64.  The loops over the lists of a daemon have the number of
    its connections as fuel; that it suffices is part of the theorems, as a
    list has no more elements.  The states of the idle function are one step each, and
    the theorems on a group of them are about sequences of steps; the whole
    loop ([Idle.idle_rounds]) is bounded by the number of its states and of
    the unread bytes ([Idle.idle_fuel]), since every round takes a line out of
    the buffer or moves on in an order of the states ([IdleEnd.measure]); an
    error reply moves on to the sending of its header.

    ** Not modelled

    Starting a daemon, its threads, the calls of [select] and [poll], the loop
    with epoll and the TLS of daemon.c, connection_https.c and the mhd_*.c
    wrappers (but for the sets of sockets): their behaviour is that of the
    system calls they make. Of an upgraded connection, [Forward] has the forwarding of bytes for
    all three ways to wait and the loop of its own thread; the list of ready
    handles of the epoll loop is left out, and its life as a connection is in
    [Daemon], for one without TLS. The model of a daemon is that of one
    without epoll, without TLS and without worker threads; a critical section
    is one step, and the two halves of accepting a connection, before and
    inside the mutex, are two functions ([DaemonLife.race_loses_a_connection]
    interleaves them). The record [Daemon.connection] has the members the
    lists depend on, and the [Connection.MHD_Connection] of the receiving half
    those of the request; the state machine of the one and the lists of the
    other meet only in [cleanup_connection], [close_connection] and the
    time-out.  [Idle] leaves out suspension.  One call of the system's
    [sendfile] (connection.c, sendfile_adapter) is an input of
    [MHD_connection_handle_write]. Log messages. src/lib is an unfinished second generation of the
    library that the build does not use. The C++ sources of the application
    and the partitioning tool. *)

From Stdlib Require Export ZArith Lia.
From stdpp Require Export base list numbers option strings relations.

(** ** Scopes and notations *)

Declare Scope mhd_scope.
Delimit Scope mhd_scope with mhd.
#[global] Open Scope Z_scope.

#[global] Arguments Z.eqb !_ !_ / : assert.
#[global] Arguments Z.leb !_ !_ / : assert.
#[global] Arguments Z.ltb !_ !_ / : assert.
#[global] Arguments Z.gtb !_ !_ / : assert.
#[global] Arguments Z.geb !_ !_ / : assert.
#[global] Arguments bool_decide _ {_} : simpl never, assert.

(** A [char] or [uint8_t] is the integer of its byte, 0 to 255; the objects
    of the C program are lists of such bytes. *)
Abbreviation bytes := (list Z).

Definition is_byte (c : Z) : Prop := 0 <= c < 256.

#[export] Instance is_byte_dec c : Decision (is_byte c).
Proof. unfold is_byte. apply _. Defined.

(** A string literal of the source, as bytes and without its terminator. *)
Fixpoint str (s : string) : bytes :=
  match s with
  | EmptyString => []
  | String a s' => Z.of_N (Ascii.N_of_ascii a) :: str s'
  end.

(** ** Machine integers *)

(** Reduction to an unsigned integer of [w] bits. *)
Definition wrap (w z : Z) : Z := z mod 2 ^ w.

Abbreviation u8 := (wrap 8).
Abbreviation u32 := (wrap 32).
Abbreviation u64 := (wrap 64).
Abbreviation UINT32_MAX := 4294967295.
Abbreviation UINT64_MAX := 18446744073709551615.

Lemma wrap_range w z : 0 <= w -> 0 <= wrap w z < 2 ^ w.
Proof. intros. apply Z.mod_pos_bound. lia. Qed.

Lemma wrap_small w z : 0 <= z < 2 ^ w -> wrap w z = z.
Proof. apply Z.mod_small. Qed.

Lemma u64_small z : 0 <= z <= UINT64_MAX -> u64 z = z.
Proof. intros. apply wrap_small. lia. Qed.

Lemma wrap_add_l w a b : wrap w (wrap w a + b) = wrap w (a + b).
Proof. apply Zplus_mod_idemp_l. Qed.

Lemma wrap_add_r w a b : wrap w (a + wrap w b) = wrap w (a + b).
Proof. apply Zplus_mod_idemp_r. Qed.

Lemma wrap_wrap w a : wrap w (wrap w a) = wrap w a.
Proof. apply Zmod_mod. Qed.

(** The data model of the target: 4-byte pointers and [size_t] on the 32-bit
    Windows builds, 8-byte ones on the 64-bit builds. *)
Class Platform := {
  sizeof_ptr : Z;
  sizeof_ptr_ok : sizeof_ptr = 4 \/ sizeof_ptr = 8
}.

Definition ILP32 : Platform := {| sizeof_ptr := 4; sizeof_ptr_ok := or_introl eq_refl |}.
Definition LP64 : Platform := {| sizeof_ptr := 8; sizeof_ptr_ok := or_intror eq_refl |}.

Definition SIZE_BITS `{Platform} : Z := 8 * sizeof_ptr.
Definition SIZE_MAX `{Platform} : Z := 2 ^ SIZE_BITS - 1.
Definition SSIZE_MAX `{Platform} : Z := SIZE_MAX / 2.
Definition usize `{Platform} (z : Z) : Z := wrap SIZE_BITS z.

Lemma usize_small `{Platform} z : 0 <= z <= SIZE_MAX -> usize z = z.
Proof. intros. unfold usize, SIZE_MAX in *. apply wrap_small. lia. Qed.

Lemma SSIZE_MAX_pos `{Platform} : 0 < SSIZE_MAX.
Proof. unfold SSIZE_MAX, SIZE_MAX, SIZE_BITS. by destruct sizeof_ptr_ok as [->| ->]. Qed.

(** ** Objects and C strings

    A pointer into an object is the list of the bytes from the pointed-to one
    to the end of the object: [*p] is the head, [p + 1] the tail.  A read
    outside the object is undefined behaviour, modelled by [None]; a function
    that dereferences returns an [option], and its safety theorem says that
    the option is [Some]. *)

Definition deref (p : bytes) : option Z := head p.

Definition deref_at (p : bytes) (i : nat) : option Z := p !! i.

(** Contents of a C string: no terminator inside. *)
Definition no_nul (s : bytes) : Prop := Forall (λ c, c ≠ 0) s.

(** [strlen]. *)
Fixpoint strlen (p : bytes) : option nat :=
  match p with
  | [] => None
  | c :: p' => if c =? 0 then Some 0%nat else n ← strlen p'; Some (S n)
  end.

(** [strchr (p, c)] as the offset of the first occurrence, [None] for the
    null pointer; the outer option is the out-of-object read. *)
Fixpoint strchr (p : bytes) (c : Z) : option (option nat) :=
  match p with
  | [] => None
  | x :: p' =>
      if x =? c then Some (Some 0%nat)
      else if x =? 0 then Some None
      else r ← strchr p' c; Some (option_map S r)
  end.

(** Number of bytes in front of the first one that satisfies [f]. *)
Fixpoint count_until (f : Z -> bool) (l : bytes) : nat :=
  match l with
  | [] => O
  | c :: l' => if f c then O else S (count_until f l')
  end.

(** The characters of the C string at [p]. *)
Definition cstring (p : bytes) : option bytes := n ← strlen p; Some (take n p).

(** [strstr (p, needle)] for a needle that is not empty. *)
Fixpoint starts_with (needle p : bytes) : bool :=
  match needle, p with
  | [], _ => true
  | x :: needle', c :: p' => (x =? c) && starts_with needle' p'
  | _ :: _, [] => false
  end.

Fixpoint strstr (p needle : bytes) : option (option nat) :=
  match p with
  | [] => None
  | c :: p' =>
      if starts_with needle p then Some (Some 0%nat)
      else if c =? 0 then Some None
      else r ← strstr p' needle; Some (option_map S r)
  end.

(** Access to [len] bytes at offset [off] of an object; [None] when the range
    is not inside it. *)
Definition in_object (m : bytes) (off len : Z) : bool :=
  (0 <=? off) && (0 <=? len) && (off + len <=? Z.of_nat (length m)).

Definition mem_read (m : bytes) (off len : Z) : option bytes :=
  if in_object m off len then Some (take (Z.to_nat len) (drop (Z.to_nat off) m)) else None.

Definition mem_write (m : bytes) (off : Z) (bs : bytes) : option bytes :=
  if in_object m off (Z.of_nat (length bs))
  then Some (take (Z.to_nat off) m ++ bs ++ drop (Z.to_nat off + length bs) m) else None.

(** [memset (&m[off], c, len)] and [memmove (&m[dst], &m[src], len)]. *)
Definition memset (m : bytes) (off c len : Z) : option bytes :=
  if in_object m off len then mem_write m off (replicate (Z.to_nat len) c) else None.

Definition memmove (m : bytes) (dst src len : Z) : option bytes :=
  bs ← mem_read m src len; mem_write m dst bs.

(** [0 == memcmp (a, b, n)]; both objects must have [n] bytes. *)
Definition memcmp_eq (a b : bytes) (n : Z) : option bool :=
  x ← mem_read a 0 n;
  y ← mem_read b 0 n;
  Some (bool_decide (x = y)).

(** [memchr (&m[off], c, n)] as the distance from [&m[off]], [None] for the
    null pointer. *)
Definition memchr (m : bytes) (off c n : Z) : option (option nat) :=
  bs ← mem_read m off n;
  let k := count_until (Z.eqb c) bs in
  Some (if (k <? length bs)%nat then Some k else None).

(** ** Tactics *)

(** Case analysis on the boolean comparisons of a goal, with their
    arithmetic reading in the context. *)
Ltac no_if t := lazymatch t with context [if _ then _ else _] => fail | _ => idtac end.

Ltac bdestruct_one :=
  match goal with
  | |- context [?a =? ?b] => no_if a; no_if b; destruct (Z.eqb_spec a b)
  | |- context [?a <=? ?b] => no_if a; no_if b; destruct (Z.leb_spec a b)
  | |- context [?a <? ?b] => no_if a; no_if b; destruct (Z.ltb_spec a b)
  | |- context [?a >? ?b] =>
      no_if a; no_if b; rewrite (Z.gtb_ltb a b); destruct (Z.ltb_spec b a)
  | |- context [?a >=? ?b] =>
      no_if a; no_if b; rewrite (Z.geb_leb a b); destruct (Z.leb_spec b a)
  end.

Ltac bcases := repeat (bdestruct_one; simpl); try lia.

(** Decompose a chain of [option] binds that is known to be [Some]. *)
Ltac inv_bind :=
  repeat match goal with
  | H : (_ ≫= _) = Some _ |- _ => apply bind_Some in H as (? & ? & ?)
  | H : Some _ = Some _ |- _ => injection H as H; try subst
  | H : (_, _) = (_, _) |- _ => injection H; clear H; intros; subst
  end.

(** ** Lists *)

Create HintDb mhd.

Lemma no_nul_cons c s : no_nul (c :: s) <-> c ≠ 0 /\ no_nul s.
Proof. unfold no_nul. by rewrite Forall_cons. Qed.

Lemma no_nul_app s t : no_nul (s ++ t) <-> no_nul s /\ no_nul t.
Proof. unfold no_nul. by rewrite Forall_app. Qed.

Lemma strlen_no_nul s r : no_nul s -> strlen (s ++ 0 :: r) = Some (length s).
Proof.
  induction s as [|c s IH]; intros Hs; [done|]. apply no_nul_cons in Hs as [Hc Hs].
  simpl. destruct (Z.eqb_spec c 0); [done|]. by rewrite IH.
Qed.

Lemma strchr_absent s r c :
  no_nul s -> c ∉ s -> c ≠ 0 -> strchr (s ++ 0 :: r) c = Some None.
Proof.
  induction s as [|x s IH]; intros Hs Hc H0; simpl.
  - destruct (Z.eqb_spec 0 c); [lia|done].
  - apply no_nul_cons in Hs as [Hx Hs]. apply not_elem_of_cons in Hc as [? ?].
    bcases. by rewrite IH.
Qed.

Lemma strchr_present s r c :
  no_nul s -> c ∉ s -> strchr (s ++ c :: r) c = Some (Some (length s)).
Proof.
  induction s as [|x s IH]; intros Hs Hc; simpl.
  - by rewrite Z.eqb_refl.
  - apply no_nul_cons in Hs as [Hx Hs]. apply not_elem_of_cons in Hc as [? ?].
    bcases. by rewrite IH.
Qed.

(** The search skips a part without the character. *)
Lemma strchr_skip s r c :
  no_nul s -> c ∉ s -> strchr (s ++ r) c = (o ← strchr r c; Some (option_map (Nat.add (length s)) o)).
Proof.
  induction s as [|x s IH]; intros Hs Hc; simpl.
  - by destruct (strchr r c) as [[]|].
  - apply no_nul_cons in Hs as [Hx Hs]. apply not_elem_of_cons in Hc as [? ?].
    bcases. rewrite IH by done. by destruct (strchr r c) as [[]|].
Qed.

Lemma strchr_total s r c : no_nul s -> c ≠ 0 -> ∃ o, strchr (s ++ 0 :: r) c = Some o.
Proof.
  induction s as [|x s IH]; intros Hs Hc; simpl.
  - bcases; eauto.
  - apply no_nul_cons in Hs as [Hx Hs]. bcases; eauto. destruct IH as [o ->]; [done..|]. simpl. eauto.
Qed.

Lemma strchr_bound p c k : strchr p c = Some (Some k) -> (k < length p)%nat.
Proof.
  revert k. induction p as [|x p IH]; intros k E; [done|]. simpl in E. revert E. bcases; intros E; simplify_eq; [simpl; lia|].
  destruct (strchr p c) as [[j|]|] eqn:Ej; simplify_eq/=. specialize (IH j eq_refl). lia.
Qed.

#[export] Hint Resolve strlen_no_nul strchr_absent strchr_present : mhd.

(** ** Ranges of an object *)

Lemma in_object_true m off len :
  in_object m off len = true <-> 0 <= off /\ 0 <= len /\ off + len <= Z.of_nat (length m).
Proof. unfold in_object. rewrite !andb_true_iff, !Z.leb_le. tauto. Qed.

Lemma mem_read_Some m off len :
  0 <= off -> 0 <= len -> off + len <= Z.of_nat (length m) ->
  ∃ bs, mem_read m off len = Some bs /\ Z.of_nat (length bs) = len.
Proof.
  intros. unfold mem_read. rewrite (proj2 (in_object_true m off len)) by done.
  eexists. split; [done|]. rewrite length_take, length_drop. lia.
Qed.

Lemma mem_write_Some m off bs :
  0 <= off -> off + Z.of_nat (length bs) <= Z.of_nat (length m) ->
  ∃ m', mem_write m off bs = Some m' /\ length m' = length m.
Proof.
  intros. unfold mem_write. rewrite (proj2 (in_object_true m off _)) by lia.
  eexists. split; [done|]. rewrite !length_app, length_take, length_drop. lia.
Qed.

(** A write is read back, and ranges away from it are not changed. *)
Lemma mem_write_read m off bs m' :
  mem_write m off bs = Some m' -> mem_read m' off (Z.of_nat (length bs)) = Some bs.
Proof.
  unfold mem_write. destruct (in_object m off _) eqn:E; [|done].
  apply in_object_true in E as (? & ? & ?). intros [= <-]. unfold mem_read.
  rewrite (proj2 (in_object_true _ _ _)).
  2:{ rewrite !length_app, length_take, length_drop. lia. }
  f_equal. rewrite drop_app_length'; [|rewrite length_take; lia].
  rewrite Nat2Z.id. by rewrite take_app_length.
Qed.

Lemma mem_write_other m off bs m' o l :
  mem_write m off bs = Some m' ->
  l = 0 \/ o + l <= off \/ off + Z.of_nat (length bs) <= o ->
  mem_read m' o l = mem_read m o l.
Proof.
  unfold mem_write. destruct (in_object m off _) eqn:E; [|done].
  apply in_object_true in E as (? & ? & ?). intros [= <-] Hd. unfold mem_read, in_object.
  rewrite !length_app, length_take, length_drop.
  replace (Z.of_nat (Z.to_nat off `min` length m + (length bs + (length m - (Z.to_nat off + length bs)))))
    with (Z.of_nat (length m)) by lia.
  destruct ((0 <=? o) && (0 <=? l) && (o + l <=? Z.of_nat (length m))) eqn:E2; [|done].
  rewrite !andb_true_iff, !Z.leb_le in E2. f_equal. destruct Hd as [->|Hd]; [done|].
  apply list_eq. intros i. destruct (decide (i < Z.to_nat l)%nat).
  2:{ rewrite !lookup_ge_None_2; [done|rewrite length_take; lia..]. }
  rewrite !lookup_take_lt, !lookup_drop by done. destruct Hd as [Hd|Hd].
  - rewrite lookup_app_l by (rewrite length_take; lia). by rewrite lookup_take_lt by lia.
  - rewrite lookup_app_r by (rewrite length_take; lia). rewrite length_take.
    rewrite lookup_app_r by lia. rewrite lookup_drop. f_equal. lia.
Qed.

Lemma memset_Some m off c len :
  0 <= off -> 0 <= len -> off + len <= Z.of_nat (length m) ->
  ∃ m', memset m off c len = Some m' /\ length m' = length m
    /\ forall o l, l = 0 \/ o + l <= off \/ off + len <= o -> mem_read m' o l = mem_read m o l.
Proof.
  intros. unfold memset. rewrite (proj2 (in_object_true m off len)) by done.
  destruct (mem_write_Some m off (replicate (Z.to_nat len) c)) as (m' & E & Hl);
    rewrite ?length_replicate; [lia..|].
  exists m'. split; [done|]. split; [done|]. intros o l Hd.
  apply (mem_write_other _ _ _ _ _ _ E). rewrite length_replicate. lia.
Qed.

Lemma memmove_Some m dst src len :
  0 <= src -> 0 <= dst -> 0 <= len ->
  src + len <= Z.of_nat (length m) -> dst + len <= Z.of_nat (length m) ->
  ∃ m', memmove m dst src len = Some m' /\ length m' = length m
    /\ mem_read m' dst len = mem_read m src len
    /\ forall o l, l = 0 \/ o + l <= dst \/ dst + len <= o -> mem_read m' o l = mem_read m o l.
Proof.
  intros. unfold memmove. destruct (mem_read_Some m src len) as (bs & Eb & Hb); [lia..|].
  rewrite Eb. simpl. destruct (mem_write_Some m dst bs) as (m' & E & Hl); [lia..|].
  exists m'. rewrite E. split_and!; [done|done|..].
  - rewrite <- Hb. by apply (mem_write_read m).
  - intros o l Hd. apply (mem_write_other _ _ _ _ _ _ E). lia.
Qed.

(** Ranges that agree have prefixes that agree. *)
Lemma mem_read_prefix m1 o1 m2 o2 l k :
  mem_read m1 o1 l = mem_read m2 o2 l -> is_Some (mem_read m1 o1 l) -> 0 <= k <= l ->
  mem_read m1 o1 k = mem_read m2 o2 k.
Proof.
  unfold mem_read. intros E [bs Hbs] Hk.
  destruct (in_object m1 o1 l) eqn:E1, (in_object m2 o2 l) eqn:E2; try done.
  apply in_object_true in E1, E2. rewrite !(proj2 (in_object_true _ _ _)) by lia.
  f_equal. injection E as E. apply (f_equal (take (Z.to_nat k))) in E.
  rewrite !take_take in E. by replace (Z.to_nat k `min` Z.to_nat l)%nat with (Z.to_nat k) in E by lia.
Qed.

Lemma mem_read_app (l r : bytes) : mem_read (l ++ r) 0 (Z.of_nat (length l)) = Some l.
Proof.
  unfold mem_read. rewrite (proj2 (in_object_true _ _ _)) by (rewrite length_app; lia).
  by rewrite Nat2Z.id, drop_0, take_app_length.
Qed.

Lemma mem_read_drop m o l bs n :
  mem_read m o l = Some bs -> (n <= length bs)%nat -> mem_read m (o + Z.of_nat n) (l - Z.of_nat n) = Some (drop n bs).
Proof.
  unfold mem_read. destruct (in_object m o l) eqn:E; [|done]. intros [= <-] Hn. apply in_object_true in E.
  rewrite length_take, length_drop in Hn. rewrite (proj2 (in_object_true _ _ _)) by lia.
  f_equal. rewrite skipn_firstn_comm, drop_drop. f_equal; [lia|]. f_equal. lia.
Qed.

Lemma mem_read_length m o l bs : mem_read m o l = Some bs -> Z.of_nat (length bs) = l.
Proof.
  unfold mem_read. destruct (in_object m o l) eqn:E; [|done]. intros [= <-]. apply in_object_true in E.
  rewrite length_take, length_drop. lia.
Qed.

(** Ranges one behind the other. *)
Lemma mem_read_append m o a b x y :
  mem_read m o a = Some x -> mem_read m (o + a) b = Some y -> mem_read m o (a + b) = Some (x ++ y).
Proof.
  unfold mem_read. destruct (in_object m o a) eqn:E1, (in_object m (o + a) b) eqn:E2; intros [= <-] [= <-].
  apply in_object_true in E1, E2. rewrite (proj2 (in_object_true _ _ _)) by lia. f_equal.
  rewrite !Z2Nat.inj_add, <- drop_drop by lia. by rewrite take_take_drop.
Qed.

(** Appending to a partly filled buffer. *)
Lemma mem_write_append (buf l : bytes) (h : nat) :
  (h + length l <= length buf)%nat ->
  ∃ buf', mem_write buf (Z.of_nat h) l = Some buf' /\ length buf' = length buf
    /\ take (h + length l) buf' = take h buf ++ l
    /\ drop (h + length l) buf' = drop (h + length l) buf.
Proof.
  intros Hl. unfold mem_write. rewrite (proj2 (in_object_true _ _ _)) by lia.
  rewrite Nat2Z.id. assert (length (take h buf ++ l) = (h + length l)%nat) as E
    by (rewrite length_app, length_take; lia).
  eexists. split; [done|]. rewrite app_assoc. split_and!.
  - rewrite length_app, E, length_drop. lia.
  - by rewrite take_app_length'.
  - by rewrite drop_app_length'.
Qed.

(** Writes in the middle of a buffer whose parts are known. *)
Lemma mem_write_mid (p x r y : bytes) off :
  off = Z.of_nat (length p) -> length x = length y ->
  mem_write (p ++ x ++ r) off y = Some (p ++ y ++ r).
Proof.
  intros -> Hl. unfold mem_write.
  rewrite (proj2 (in_object_true _ _ _)) by (rewrite !length_app; lia).
  rewrite Nat2Z.id, take_app_length. do 3 f_equal.
  rewrite <- drop_drop, drop_app_length, <- Hl. by rewrite drop_app_length.
Qed.

Lemma memset_mid (p x r : bytes) off c len :
  off = Z.of_nat (length p) -> len = Z.of_nat (length x) ->
  memset (p ++ x ++ r) off c len = Some (p ++ replicate (length x) c ++ r).
Proof.
  intros Ho Hl. unfold memset.
  rewrite (proj2 (in_object_true _ _ _)) by (rewrite !length_app; lia).
  subst len. rewrite Nat2Z.id. apply mem_write_mid; [done|]. by rewrite length_replicate.
Qed.

(** ** Positional notation, as printed by [%u] and [%X]

    The digits of a number, most significant first; the number of its bits
    bounds the number of digits. *)
Fixpoint print_loop (fuel : nat) (base n : Z) (acc : list Z) : list Z :=
  match fuel with
  | O => acc
  | S fuel' =>
      if n <? base then n :: acc
      else print_loop fuel' base (n / base) (n mod base :: acc)
  end.

Definition print_digits (base n : Z) : list Z :=
  print_loop (S (Z.to_nat (Z.log2 n))) base n [].

(** Decimal and upper case hexadecimal digits as characters. *)
Definition print_dec (n : Z) : bytes := (λ d, 48 + d) <$> print_digits 10 n.

Definition hex_upper (d : Z) : Z := if d <? 10 then 48 + d else 55 + d.

Definition print_hex (n : Z) : bytes := hex_upper <$> print_digits 16 n.

(** Value of a list of digits appended to the number [r]. *)
Definition value_from (base r : Z) (ds : list Z) : Z := foldl (λ r d, r * base + d) r ds.

Abbreviation value base ds := (value_from base 0 ds).

Definition in_base (base : Z) (ds : list Z) : Prop := Forall (λ d, 0 <= d < base) ds.

Lemma value_from_app base r ds1 ds2 :
  value_from base r (ds1 ++ ds2) = value_from base (value_from base r ds1) ds2.
Proof. apply foldl_app. Qed.

Lemma print_loop_spec fuel base n acc :
  1 < base -> 0 <= n < 2 ^ Z.of_nat fuel -> in_base base acc -> fuel ≠ 0%nat ->
  in_base base (print_loop fuel base n acc)
  /\ print_loop fuel base n acc ≠ []
  /\ value base (print_loop fuel base n acc) = value_from base n acc.
Proof.
  intros Hb. revert n acc. induction fuel as [|fuel IH]; intros n acc Hn Hacc Hf; [done|]. simpl.
  destruct (Z.ltb_spec n base).
  - split; [constructor; [lia|done]|]. done.
  - pose proof (Z.div_mod n base ltac:(lia)) as Hdm.
    pose proof (Z.mod_pos_bound n base ltac:(lia)).
    rewrite Nat2Z.inj_succ, Z.pow_succ_r in Hn by lia.
    assert (0 < n / base) by (apply Z.div_str_pos; lia).
    assert (n / base <= n / 2) by (apply Z.div_le_compat_l; lia).
    assert (n / 2 < 2 ^ Z.of_nat fuel) by (apply Z.div_lt_upper_bound; lia).
    destruct (IH (n / base) (n mod base :: acc)) as (P1 & P2 & P3).
    + lia.
    + by constructor.
    + intros ->. simpl in *. lia.
    + split; [done|]. split; [done|]. rewrite P3. simpl. f_equal. lia.
Qed.

(** The printed digits are digits of the base and denote the number. *)
Lemma print_digits_spec base n :
  1 < base -> 0 <= n ->
  in_base base (print_digits base n) /\ print_digits base n ≠ []
  /\ value base (print_digits base n) = n.
Proof.
  intros Hb Hn. apply (print_loop_spec _ base n []); [done| |by constructor|done].
  pose proof (Z.log2_nonneg n). rewrite Nat2Z.inj_succ, Z2Nat.id by done.
  destruct (decide (n = 0)) as [->|]; [done|]. pose proof (Z.log2_spec n). lia.
Qed.

(** A number below a power of the base has at most that many digits. *)
Lemma print_loop_length fuel base n acc k :
  1 < base -> 0 <= n < base ^ Z.of_nat (S k) -> (length (print_loop fuel base n acc) <= S k + length acc)%nat.
Proof.
  intros Hb. revert fuel n acc. induction k as [|k IH]; intros [|fuel] n acc Hn; cbn [print_loop]; try lia.
  - replace (base ^ Z.of_nat 1) with base in Hn by lia. destruct (Z.ltb_spec n base); cbn [length]; lia.
  - destruct (Z.ltb_spec n base); [cbn [length]; lia|].
    etransitivity; [apply IH|cbn [length]; lia]. split; [apply Z.div_pos; lia|].
    apply Z.div_lt_upper_bound; [lia|]. rewrite (Nat2Z.inj_succ (S k)), Z.pow_succ_r in Hn by lia. lia.
Qed.
