(* ===== verification/MhdStr.v ===== *)
(** * US-ASCII string routines (libmicrohttpd/src/microhttpd/mhd_str.c)

    Character classes, caseless comparison, the comma-separated token search
    and the six number parsers, with the generic parser that replaces them in
    the small-code build.  A [const char *] argument is the list of bytes from
    the pointed-to byte to the end of its object; [None] is a read outside of
    the object.  An output pointer is an [option Z]: [None] is the null
    pointer, [Some v] the current contents of the pointed-to variable. *)

From S2P Require Import Prelude.

(** ** Characters: the inline functions *)

Definition isasciiupper (c : Z) : bool := (c >=? 65) && (c <=? 90).

Definition isasciidigit (c : Z) : bool := (c >=? 48) && (c <=? 57).

Definition toasciilower (c : Z) : Z :=
  if isasciiupper c then c - 65 + 97 else c.

Definition todigitvalue (c : Z) : Z :=
  if isasciidigit c then u8 (c - 48) else -1.

Definition toxdigitvalue (c : Z) : Z :=
  if isasciidigit c then u8 (c - 48)
  else if (c >=? 65) && (c <=? 70) then u8 (c - 65 + 10)
  else if (c >=? 97) && (c <=? 102) then u8 (c - 97 + 10)
  else -1.

(** The macro forms used when [INLINE_FUNC] is not set. *)
Definition isasciiupper_macro (c : Z) : bool := (c >=? 65) && (c <=? 90).

Definition isasciidigit_macro (c : Z) : bool := (c >=? 48) && (c <=? 57).

Definition toasciilower_macro (c : Z) : Z :=
  if isasciiupper_macro c then c - 65 + 97 else c.

Definition todigitvalue_macro (c : Z) : Z :=
  if isasciidigit_macro c then c - 48 else -1.

Definition toxdigitvalue_macro (c : Z) : Z :=
  if isasciidigit_macro c then c - 48
  else if (c >=? 65) && (c <=? 70) then u8 c - 65 + 10
  else if (c >=? 97) && (c <=? 102) then u8 c - 97 + 10
  else -1.

(** ** Caseless comparison *)

(** The loop test shared by the comparison routines: the two characters
    differ, and still differ after conversion to lower case. *)
Definition chars_differ (c1 c2 : Z) : bool :=
  negb (c1 =? c2) && negb (toasciilower c1 =? toasciilower c2).

Fixpoint MHD_str_equal_caseless_ (str1 str2 : bytes) : option bool :=
  match str1 with
  | [] => None
  | c1 :: str1' =>
      if c1 =? 0 then c2 ← deref str2; Some (c2 =? 0)
      else match str2 with
      | [] => None
      | c2 :: str2' =>
          if chars_differ c1 c2 then Some false
          else MHD_str_equal_caseless_ str1' str2'
      end
  end.

(** [maxlen] counts down: it is [maxlen - i] of the loop. *)
Fixpoint MHD_str_equal_caseless_n_ (str1 str2 : bytes) (maxlen : nat) : option bool :=
  match maxlen with
  | O => Some true
  | S maxlen' =>
      c1 ← deref str1;
      c2 ← deref str2;
      if c2 =? 0 then Some (c1 =? 0)
      else if chars_differ c1 c2 then Some false
      else MHD_str_equal_caseless_n_ (tail str1) (tail str2) maxlen'
  end.

(** ** Token search *)

(** [while (' ' == *str || '\t' == *str || ',' == *str) str++]. *)
Fixpoint skip_ws_comma (s : bytes) : option bytes :=
  match s with
  | [] => None
  | c :: s' => if (c =? 32) || (c =? 9) || (c =? 44) then skip_ws_comma s' else Some s
  end.

(** [while (' ' == *str || '\t' == *str) str++]. *)
Fixpoint skip_ws (s : bytes) : option bytes :=
  match s with
  | [] => None
  | c :: s' => if (c =? 32) || (c =? 9) then skip_ws s' else Some s
  end.

(** [while (0 != *str && ',' != *str) str++]. *)
Fixpoint skip_to_comma (s : bytes) : option bytes :=
  match s with
  | [] => None
  | c :: s' => if negb (c =? 0) && negb (c =? 44) then skip_to_comma s' else Some s
  end.

(** How the inner [while (1)] is left: through one of its two [return]s, or
    through a [break] with the value of [str] there. *)
Inductive token_exit : Type :=
| TokenReturn (found : bool)
| TokenBreak (s : bytes).

(** The inner loop: [tok] is the token from index [i] on and [left] is
    [token_len - i]. *)
Fixpoint match_token (s tok : bytes) (left : nat) : option token_exit :=
  match s with
  | [] => None
  | sc :: s' =>
      tc ← deref tok;
      if sc =? 0 then Some (TokenReturn false)
      else if chars_differ sc tc then Some (TokenBreak s')
      else match left with
      | S (S _ as left') => match_token s' (tail tok) left'
      | _ =>
          s'' ← skip_ws s';
          c ← deref s'';
          if (c =? 0) || (c =? 44) then Some (TokenReturn true)
          else Some (TokenBreak s'')
      end
  end.

(** The outer loop; every iteration consumes at least one character, so the
    length of the string bounds the number of iterations. *)
Fixpoint has_token_loop (fuel : nat) (s token : bytes) (token_len : nat) : option bool :=
  match fuel with
  | O => None
  | S fuel' =>
      c ← deref s;
      if c =? 0 then Some false
      else
        s1 ← skip_ws_comma s;
        r ← match_token s1 token token_len;
        match r with
        | TokenReturn b => Some b
        | TokenBreak s2 => s3 ← skip_to_comma s2; has_token_loop fuel' s3 token token_len
        end
  end.

Definition MHD_str_has_token_caseless_ (s token : bytes) (token_len : nat) : option bool :=
  if (token_len =? 0)%nat then Some false
  else has_token_loop (S (length s)) s token token_len.

(** ** Number parsers

    Each loop returns the inner [None] for the overflow [return 0] and
    [Some (n, res)] after [n] accepted characters. *)

Fixpoint str_to_uint64_loop (s : bytes) (n : nat) (res : Z) : option (option (nat * Z)) :=
  match s with
  | [] => None
  | c :: s' =>
      let digit := c - 48 in
      if (res >? UINT64_MAX / 10)
         || ((res =? UINT64_MAX / 10) && (u64 digit >? UINT64_MAX mod 10))
      then Some None
      else
        let res := u64 (u64 (res * 10) + digit) in
        c' ← deref s';
        if isasciidigit c' then str_to_uint64_loop s' (S n) res
        else Some (Some (S n, res))
  end.

Definition MHD_str_to_uint64_ (s : option bytes) (out_val : option Z)
    : option (nat * option Z) :=
  match s, out_val with
  | Some s, Some v =>
      c ← deref s;
      if negb (isasciidigit c) then Some (0%nat, Some v)
      else
        r ← str_to_uint64_loop s 0 0;
        match r with
        | None => Some (0%nat, Some v)
        | Some (n, res) => Some (n, Some res)
        end
  | _, _ => Some (0%nat, out_val)
  end.

(** [left] is [maxlen - i] at the head of the [do] body, at least one. *)
Fixpoint str_to_uint64_n_loop (s : bytes) (left n : nat) (res : Z)
    : option (option (nat * Z)) :=
  match left with
  | O => None
  | S left' =>
      c ← deref s;
      let digit := c - 48 in
      if (res >? UINT64_MAX / 10)
         || ((res =? UINT64_MAX / 10) && (u64 digit >? UINT64_MAX mod 10))
      then Some None
      else
        let res := u64 (u64 (res * 10) + digit) in
        match left' with
        | O => Some (Some (S n, res))
        | S _ =>
            c' ← deref (tail s);
            if isasciidigit c' then str_to_uint64_n_loop (tail s) left' (S n) res
            else Some (Some (S n, res))
        end
  end.

Definition MHD_str_to_uint64_n_ (s : option bytes) (maxlen : nat) (out_val : option Z)
    : option (nat * option Z) :=
  match s, out_val with
  | Some s, Some v =>
      if (maxlen =? 0)%nat then Some (0%nat, Some v)
      else
        c ← deref s;
        if negb (isasciidigit c) then Some (0%nat, Some v)
        else
          r ← str_to_uint64_n_loop s maxlen 0 0;
          match r with
          | None => Some (0%nat, Some v)
          | Some (n, res) => Some (n, Some res)
          end
  | _, _ => Some (0%nat, out_val)
  end.

Fixpoint strx_to_uint32_loop (s : bytes) (n : nat) (res : Z) : option (option (nat * Z)) :=
  match s with
  | [] => None
  | c :: s' =>
      let digit := toxdigitvalue c in
      if digit >=? 0 then
        if (res <? UINT32_MAX / 16)
           || ((res =? UINT32_MAX / 16) && (u32 digit <=? UINT32_MAX mod 16))
        then strx_to_uint32_loop s' (S n) (u32 (u32 (res * 16) + digit))
        else Some None
      else Some (Some (n, res))
  end.

(** The common end of the hexadecimal parsers: the variable is written only
    when at least one digit was read. *)
Definition strx_finish (v : Z) (r : option (nat * Z)) : nat * option Z :=
  match r with
  | None => (0%nat, Some v)
  | Some (n, res) => (n, Some (if (0 <? n)%nat then res else v))
  end.

Definition MHD_strx_to_uint32_ (s : option bytes) (out_val : option Z)
    : option (nat * option Z) :=
  match s, out_val with
  | Some s, Some v => r ← strx_to_uint32_loop s 0 0; Some (strx_finish v r)
  | _, _ => Some (0%nat, out_val)
  end.

Fixpoint strx_to_uint32_n_loop (s : bytes) (left n : nat) (res : Z)
    : option (option (nat * Z)) :=
  match left with
  | O => Some (Some (n, res))
  | S left' =>
      c ← deref s;
      let digit := toxdigitvalue c in
      if digit >=? 0 then
        if (res >? UINT32_MAX / 16)
           || ((res =? UINT32_MAX / 16) && (u32 digit >? UINT32_MAX mod 16))
        then Some None
        else strx_to_uint32_n_loop (tail s) left' (S n) (u32 (u32 (res * 16) + digit))
      else Some (Some (n, res))
  end.

Definition MHD_strx_to_uint32_n_ (s : option bytes) (maxlen : nat) (out_val : option Z)
    : option (nat * option Z) :=
  match s, out_val with
  | Some s, Some v => r ← strx_to_uint32_n_loop s maxlen 0 0; Some (strx_finish v r)
  | _, _ => Some (0%nat, out_val)
  end.

Fixpoint strx_to_uint64_loop (s : bytes) (n : nat) (res : Z) : option (option (nat * Z)) :=
  match s with
  | [] => None
  | c :: s' =>
      let digit := toxdigitvalue c in
      if digit >=? 0 then
        if (res <? UINT64_MAX / 16)
           || ((res =? UINT64_MAX / 16) && (u64 digit <=? UINT64_MAX mod 16))
        then strx_to_uint64_loop s' (S n) (u64 (u64 (res * 16) + digit))
        else Some None
      else Some (Some (n, res))
  end.

Definition MHD_strx_to_uint64_ (s : option bytes) (out_val : option Z)
    : option (nat * option Z) :=
  match s, out_val with
  | Some s, Some v => r ← strx_to_uint64_loop s 0 0; Some (strx_finish v r)
  | _, _ => Some (0%nat, out_val)
  end.

Fixpoint strx_to_uint64_n_loop (s : bytes) (left n : nat) (res : Z)
    : option (option (nat * Z)) :=
  match left with
  | O => Some (Some (n, res))
  | S left' =>
      c ← deref s;
      let digit := toxdigitvalue c in
      if digit >=? 0 then
        if (res >? UINT64_MAX / 16)
           || ((res =? UINT64_MAX / 16) && (u64 digit >? UINT64_MAX mod 16))
        then Some None
        else strx_to_uint64_n_loop (tail s) left' (S n) (u64 (u64 (res * 16) + digit))
      else Some (Some (n, res))
  end.

Definition MHD_strx_to_uint64_n_ (s : option bytes) (maxlen : nat) (out_val : option Z)
    : option (nat * option Z) :=
  match s, out_val with
  | Some s, Some v => r ← strx_to_uint64_n_loop s maxlen 0 0; Some (strx_finish v r)
  | _, _ => Some (0%nat, out_val)
  end.

(** The generic parser of the small-code build.  [dfunc] is the selected
    digit function; [max_div] and [max_mod] are the two quotients computed at
    the top. *)
Fixpoint str_to_uvalue_loop (dfunc : Z -> Z) (base max_div max_mod : Z)
    (s : bytes) (left n : nat) (res : Z) : option (option (nat * Z)) :=
  match left with
  | O => Some (Some (n, res))
  | S left' =>
      c ← deref s;
      let digit := dfunc c in
      if 0 <=? digit then
        if (max_div <? res) || ((max_div =? res) && (max_mod <? u64 digit))
        then Some None
        else str_to_uvalue_loop dfunc base max_div max_mod (tail s) left' (S n)
               (u64 (u64 (res * base) + digit))
      else Some (Some (n, res))
  end.

Definition MHD_str_to_uvalue_n_ (s : option bytes) (maxlen : nat) (out_val : option Z)
    (val_size max_val base : Z) : option (nat * option Z) :=
  if base =? 0 then None
  else match s, out_val with
  | Some s, Some v =>
      if negb (base =? 16) && negb (base =? 10) then Some (0%nat, Some v)
      else
        let dfunc := if base =? 16 then toxdigitvalue else todigitvalue in
        r ← str_to_uvalue_loop dfunc base (max_val / base) (max_val mod base) s maxlen 0 0;
        match r with
        | None => Some (0%nat, Some v)
        | Some (n, res) =>
            if (0 <? n)%nat then
              if 8 =? val_size then Some (n, Some res)
              else if 4 =? val_size then Some (n, Some (u32 res))
              else Some (0%nat, Some v)
            else Some (n, Some v)
        end
  | _, _ => Some (0%nat, out_val)
  end.

(** ** Characters: the two builds agree *)

(** Lower case conversion is idempotent and only moves the 26 letters. *)
Lemma toasciilower_idem c : toasciilower (toasciilower c) = toasciilower c.
Proof. unfold toasciilower, isasciiupper. bcases. Qed.

Lemma toasciilower_0 c : toasciilower c = 0 -> c = 0.
Proof. unfold toasciilower, isasciiupper. bcases. Qed.

Lemma toxdigitvalue_range c : -1 <= toxdigitvalue c < 16.
Proof.
  unfold toxdigitvalue, isasciidigit, wrap. change (2 ^ 8) with 256.
  bcases; rewrite Z.mod_small; lia.
Qed.

Lemma todigitvalue_range c : -1 <= todigitvalue c < 10.
Proof.
  unfold todigitvalue, isasciidigit, wrap. change (2 ^ 8) with 256.
  bcases; rewrite Z.mod_small; lia.
Qed.

Lemma todigitvalue_digit c :
  todigitvalue c = if isasciidigit c then c - 48 else -1.
Proof.
  unfold todigitvalue, isasciidigit, wrap. change (2 ^ 8) with 256.
  bcases; rewrite Z.mod_small; lia.
Qed.

Lemma chars_differ_lower c1 c2 :
  chars_differ c1 c2 = negb (toasciilower c1 =? toasciilower c2).
Proof.
  unfold chars_differ. destruct (Z.eqb_spec c1 c2) as [->|]; [|done].
  by rewrite Z.eqb_refl.
Qed.

(** ** Caseless comparison against its specification *)

Definition lower_str (s : bytes) : bytes := toasciilower <$> s.

(** The relation the comparisons decide: equal up to the case of letters. *)
Definition caseless_eq (s1 s2 : bytes) : Prop := lower_str s1 = lower_str s2.

#[export] Instance caseless_eq_dec s1 s2 : Decision (caseless_eq s1 s2).
Proof. unfold caseless_eq. apply _. Defined.

#[export] Instance caseless_eq_equiv : Equivalence caseless_eq.
Proof.
  split.
  - intros x. exact eq_refl.
  - intros x y H. exact (eq_sym H).
  - intros x y z H1 H2. exact (eq_trans H1 H2).
Qed.

#[export] Instance caseless_eq_app : Proper (caseless_eq ==> caseless_eq ==> caseless_eq) app.
Proof. intros x y H x' y' H'. unfold caseless_eq, lower_str in *. by rewrite !fmap_app, H, H'. Qed.

Lemma caseless_eq_cons c1 s1 c2 s2 :
  caseless_eq (c1 :: s1) (c2 :: s2) <-> toasciilower c1 = toasciilower c2 /\ caseless_eq s1 s2.
Proof.
  unfold caseless_eq, lower_str. rewrite !fmap_cons. split; [by intros [= -> ->]|by intros [-> ->]].
Qed.

Lemma caseless_eq_length s1 s2 : caseless_eq s1 s2 -> length s1 = length s2.
Proof. intros H%(f_equal length). unfold lower_str in H. by rewrite !length_fmap in H. Qed.

(** On two C strings the loop stops inside both objects and decides caseless
    equality of the two contents. *)
Lemma str_equal_caseless_spec s1 s2 r1 r2 :
  no_nul s1 -> no_nul s2 ->
  MHD_str_equal_caseless_ (s1 ++ 0 :: r1) (s2 ++ 0 :: r2)
  = Some (bool_decide (caseless_eq s1 s2)).
Proof.
  revert s2. induction s1 as [|c1 s1 IH]; intros s2 H1 H2; simpl.
  - destruct s2 as [|c2 s2]; [done|]. apply no_nul_cons in H2 as [Hc _]. simpl.
    destruct (Z.eqb_spec c2 0); [done|]. by rewrite bool_decide_eq_false_2.
  - apply no_nul_cons in H1 as [Hc1 H1]. destruct (Z.eqb_spec c1 0); [done|].
    destruct s2 as [|c2 s2]; simpl; rewrite chars_differ_lower.
    + destruct (Z.eqb_spec (toasciilower c1) (toasciilower 0)) as [E|]; simpl.
      * change (toasciilower 0) with 0 in E. by apply toasciilower_0 in E.
      * by rewrite bool_decide_eq_false_2.
    + apply no_nul_cons in H2 as [_ H2].
      destruct (Z.eqb_spec (toasciilower c1) (toasciilower c2)); simpl.
      * rewrite IH by done. f_equal. apply bool_decide_ext. rewrite caseless_eq_cons. tauto.
      * rewrite bool_decide_eq_false_2; [done|]. rewrite caseless_eq_cons. tauto.
Qed.

(** The bounded comparison looks at the first [maxlen] characters of each. *)
Lemma str_equal_caseless_n_spec s1 s2 r1 r2 maxlen :
  no_nul s1 -> no_nul s2 ->
  MHD_str_equal_caseless_n_ (s1 ++ 0 :: r1) (s2 ++ 0 :: r2) maxlen
  = Some (bool_decide (caseless_eq (take maxlen s1) (take maxlen s2))).
Proof.
  revert s1 s2. induction maxlen as [|maxlen IH]; intros s1 s2 H1 H2; [done|].
  destruct s1 as [|c1 s1], s2 as [|c2 s2]; simpl.
  - done.
  - apply no_nul_cons in H2 as [Hc2 _]. destruct (Z.eqb_spec c2 0); [done|].
    rewrite chars_differ_lower, bool_decide_eq_false_2 by done.
    destruct (Z.eqb_spec (toasciilower 0) (toasciilower c2)) as [E|]; [|done].
    change (toasciilower 0) with 0 in E. symmetry in E. by apply toasciilower_0 in E.
  - apply no_nul_cons in H1 as [Hc1 _]. destruct (Z.eqb_spec c1 0); [done|].
    by rewrite bool_decide_eq_false_2.
  - apply no_nul_cons in H1 as [Hc1 H1]. apply no_nul_cons in H2 as [Hc2 H2].
    destruct (Z.eqb_spec c2 0); [done|]. rewrite chars_differ_lower.
    destruct (Z.eqb_spec (toasciilower c1) (toasciilower c2)); simpl.
    + rewrite IH by done. f_equal. apply bool_decide_ext. rewrite caseless_eq_cons. tauto.
    + rewrite bool_decide_eq_false_2; [done|]. rewrite caseless_eq_cons. tauto.
Qed.

(** ** Number parsers against positional notation *)

(** What every parser promises on a maximal run [ds] of digits: its length
    and value if there is a digit and the value fits, else a count of zero
    and an untouched variable. *)
Definition parse_spec (base max : Z) (ds : list Z) (v : Z) : nat * option Z :=
  if decide (ds ≠ [] /\ value base ds <= max)
  then (length ds, Some (value base ds)) else (0%nat, Some v).

Section overflow.
Context (base max : Z) (Hbase : 1 < base).

Lemma value_from_le r ds : 0 <= r -> in_base base ds -> r <= value_from base r ds.
Proof using Hbase.
  intros Hr Hds. revert r Hr. induction Hds as [|d ds Hd _ IH]; intros r Hr; simpl; [lia|].
  etrans; [|apply IH; nia]. nia.
Qed.

(** The division-based test of the parsers is exact. *)
Lemma overflow_check r d :
  0 <= d < base ->
  (r >? max / base) || ((r =? max / base) && (d >? max mod base)) = (r * base + d >? max).
Proof using Hbase.
  intros Hd. pose proof (Z.div_mod max base ltac:(lia)).
  pose proof (Z.mod_pos_bound max base ltac:(lia)). bcases; nia.
Qed.

Lemma overflow_check_lt r d :
  0 <= d < base ->
  (r <? max / base) || ((r =? max / base) && (d <=? max mod base)) = (r * base + d <=? max).
Proof using Hbase.
  intros Hd. pose proof (Z.div_mod max base ltac:(lia)).
  pose proof (Z.mod_pos_bound max base ltac:(lia)). bcases; nia.
Qed.

(** The accumulation does not wrap once the test has passed. *)
Lemma accumulate_nowrap w r d :
  max < 2 ^ w -> 0 <= r -> 0 <= d -> r * base + d <= max ->
  wrap w (wrap w (r * base) + d) = r * base + d.
Proof using Hbase. 
  intros. assert (0 <= r * base) by (apply Z.mul_nonneg_nonneg; lia).
  rewrite (wrap_small w (r * base)) by lia. apply wrap_small. lia.
Qed.

(** Once a prefix is too large, so is the whole number. *)
Lemma value_from_overflow r d ds :
  0 <= r -> 0 <= d -> in_base base ds -> max < r * base + d ->
  max < value_from base (r * base + d) ds.
Proof using Hbase. intros. pose proof (value_from_le (r * base + d) ds ltac:(nia) ltac:(done)). lia. Qed.
End overflow.

(** *** The loops

    [run f cs c] is a maximal run of digits [cs] of the digit function [f],
    ended by the non-digit [c]. *)
Definition digit_run (f : Z -> Z) (cs : bytes) : Prop := Forall (λ c, 0 <= f c) cs.

Lemma digit_run_in_base f base cs :
  (forall c, f c < base) -> digit_run f cs -> in_base base (f <$> cs).
Proof.
  intros Hf H. apply Forall_fmap. eapply Forall_impl; [exact H|].
  intros c Hc. unfold compose. simpl in Hc. specialize (Hf c). lia.
Qed.

Lemma isasciidigit_run c : 0 <= todigitvalue c <-> isasciidigit c = true.
Proof. rewrite todigitvalue_digit. unfold isasciidigit. bcases; split; lia || done. Qed.

Lemma isasciidigit_stop c : todigitvalue c < 0 <-> isasciidigit c = false.
Proof. rewrite todigitvalue_digit. unfold isasciidigit. bcases; split; lia || done. Qed.

(** The outcome of a checked accumulation loop entered with [n] characters
    accepted and the number [r]. *)
Definition acc_result (base max : Z) (n : nat) (r : Z) (ds : list Z) : option (nat * Z) :=
  if value_from base r ds <=? max
  then Some ((n + length ds)%nat, value_from base r ds) else None.

(** One step of every loop, after the overflow test. *)
Lemma acc_result_cons base max n r d ds :
  acc_result base max n r (d :: ds) = acc_result base max (S n) (r * base + d) ds.
Proof. unfold acc_result. simpl. by rewrite Nat.add_succ_r. Qed.

Lemma acc_result_overflow base max n r d ds :
  1 < base -> 0 <= r -> in_base base (d :: ds) -> max < r * base + d ->
  acc_result base max n r (d :: ds) = None.
Proof.
  intros Hb Hr Hds Hov. apply Forall_cons in Hds as [Hd Hds].
  pose proof (value_from_overflow base max Hb r d ds Hr ltac:(lia) Hds Hov).
  unfold acc_result. simpl. destruct (Z.leb_spec (value_from base (r * base + d) ds) max); [lia|done].
Qed.

Lemma acc_result_nil base max n r : r <= max -> acc_result base max n r [] = Some (n, r).
Proof.
  intros. unfold acc_result; simpl. destruct (Z.leb_spec r max); [|lia].
  by rewrite Nat.add_0_r.
Qed.

Lemma uvalue_loop_run f base max cs c r left n res :
  1 < base -> (forall c, f c < base) -> 0 <= max <= UINT64_MAX -> base <= 2 ^ 64 ->
  digit_run f cs -> f c < 0 \/ length cs = left -> (length cs <= left)%nat -> 0 <= res <= max ->
  str_to_uvalue_loop f base (max / base) (max mod base) (cs ++ c :: r) left n res
  = Some (acc_result base max n res (f <$> cs)).
Proof.
  intros Hb Hf Hmax Hb64 Hcs Hend. revert left n res Hend.
  induction Hcs as [|d cs Hd Hcs IH]; intros left n res Hend Hlen Hres.
  - destruct left as [|left]; simpl; rewrite acc_result_nil by lia; [done|].
    destruct Hend as [Hc|Hc]; [|simpl in Hc; lia].
    destruct (Z.leb_spec 0 (f c)); [lia|done].
  - destruct left as [|left]; [simpl in Hlen; lia|]. simpl in Hlen.
    pose proof (Hf d) as Hdb. simpl.
    destruct (Z.leb_spec 0 (f d)); [|lia]. rewrite (wrap_small 64 (f d)) by lia.
    rewrite <- (Z.gtb_ltb res), <- (Z.gtb_ltb (f d)), (Z.eqb_sym (max / base)).
    rewrite overflow_check by lia.
    destruct (Z.gtb_spec (res * base + f d) max).
    + rewrite acc_result_overflow; [done|lia..| |lia].
      apply (digit_run_in_base f base (d :: cs) Hf). by constructor.
    + rewrite acc_result_cons, (accumulate_nowrap base max) by lia. apply IH; [|lia|nia].
      destruct Hend as [?|Hc]; [by left|right]. simpl in Hc. lia.
Qed.

(** *** Every specialised loop is the generic one *)

Abbreviation uvalue_loop f base max :=
  (str_to_uvalue_loop f base (max / base) (max mod base)).

Lemma strx_to_uint64_n_loop_generic s left n res :
  strx_to_uint64_n_loop s left n res = uvalue_loop toxdigitvalue 16 UINT64_MAX s left n res.
Proof.
  revert s n res. induction left as [|left IH]; intros s n res; [done|].
  simpl. destruct s as [|c s]; [done|]. simpl.
  rewrite Z.geb_leb, !Z.gtb_ltb, (Z.eqb_sym res). by rewrite IH.
Qed.

Lemma strx_to_uint32_n_loop_generic s left n res :
  0 <= res <= UINT32_MAX ->
  strx_to_uint32_n_loop s left n res = uvalue_loop toxdigitvalue 16 UINT32_MAX s left n res.
Proof.
  revert s n res. induction left as [|left IH]; intros s n res Hres; [done|].
  destruct s as [|c s]; [done|]. simpl. pose proof (toxdigitvalue_range c).
  rewrite Z.geb_leb. destruct (Z.leb_spec 0 (toxdigitvalue c)); [|done].
  rewrite (wrap_small 32 (toxdigitvalue c)), (wrap_small 64 (toxdigitvalue c)) by lia.
  rewrite <- (Z.gtb_ltb res), <- (Z.gtb_ltb (toxdigitvalue c)), (Z.eqb_sym (UINT32_MAX / 16)).
  rewrite (overflow_check 16 UINT32_MAX) by lia.
  destruct (Z.gtb_spec (res * 16 + toxdigitvalue c) UINT32_MAX); [done|].
  rewrite (accumulate_nowrap 16 UINT32_MAX), (accumulate_nowrap 16 UINT32_MAX) by lia.
  apply IH. lia.
Qed.

Lemma check_variants a b c d :
  (a <? b) || ((a =? b) && (c <=? d)) = negb ((b <? a) || ((b =? a) && (d <? c))).
Proof. bcases. Qed.

Lemma strx_to_uint64_loop_generic s left n res :
  (length s < left)%nat ->
  strx_to_uint64_loop s n res = uvalue_loop toxdigitvalue 16 UINT64_MAX s left n res.
Proof.
  revert left n res. induction s as [|c s IH]; intros [|left] n res Hl; simpl in Hl; try lia; [done|].
  simpl. rewrite Z.geb_leb, check_variants, <- IH by lia. by destruct (_ || _).
Qed.

Lemma strx_to_uint32_loop_generic s left n res :
  (length s < left)%nat ->
  strx_to_uint32_loop s n res = strx_to_uint32_n_loop s left n res.
Proof.
  revert left n res. induction s as [|c s IH]; intros [|left] n res Hl; simpl in Hl; try lia; [done|].
  simpl. rewrite check_variants, !Z.gtb_ltb, (Z.eqb_sym res), <- IH by lia. by destruct (_ || _).
Qed.

Lemma str_to_uint64_loop_generic s left n res :
  (length s < left)%nat -> (forall c, head s = Some c -> isasciidigit c = true) ->
  str_to_uint64_loop s n res = uvalue_loop todigitvalue 10 UINT64_MAX s left n res.
Proof.
  revert left n res. induction s as [|c s IH]; intros [|left] n res Hl Hc; simpl in Hl; try lia; [done|].
  specialize (Hc c eq_refl). pose proof (proj2 (isasciidigit_run c) Hc) as H0.
  simpl. rewrite todigitvalue_digit in H0 |- *. rewrite Hc in H0 |- *.
  destruct (Z.leb_spec 0 (c - 48)); [|lia].
  rewrite !Z.gtb_ltb, (Z.eqb_sym res). destruct (_ || _); [done|].
  destruct left as [|left]; [lia|]. destruct s as [|c' s]; [done|].
  destruct (isasciidigit c') eqn:E; cbn [deref head mbind option_bind tail]; rewrite E.
  - rewrite <- IH; [done|simpl in *; lia|]. by intros ? [= <-].
  - apply isasciidigit_stop in E. simpl. by destruct (Z.leb_spec 0 (todigitvalue c')); [lia|].
Qed.

Lemma str_to_uint64_n_loop_generic s left n res :
  (forall c, head s = Some c -> isasciidigit c = true) -> (0 < left)%nat ->
  str_to_uint64_n_loop s left n res = uvalue_loop todigitvalue 10 UINT64_MAX s left n res.
Proof.
  revert s n res. induction left as [|left IH]; intros s n res Hc Hl; [lia|].
  destruct s as [|c s]; [done|].
  specialize (Hc c eq_refl). pose proof (proj2 (isasciidigit_run c) Hc) as H0.
  simpl. rewrite todigitvalue_digit in H0 |- *. rewrite Hc in H0 |- *.
  destruct (Z.leb_spec 0 (c - 48)); [|lia].
  rewrite !Z.gtb_ltb, (Z.eqb_sym res). destruct (_ || _); [done|].
  destruct left as [|left]; [done|]. destruct s as [|c' s]; [done|].
  destruct (isasciidigit c') eqn:E; cbn [deref head mbind option_bind tail]; rewrite E.
  - rewrite <- IH; [done| |lia]. by intros ? [= <-].
  - apply isasciidigit_stop in E. simpl. by destruct (Z.leb_spec 0 (todigitvalue c')); [lia|].
Qed.

(** ** Token search against the list of elements *)

Definition is_ws (c : Z) : Prop := c = 32 \/ c = 9.

#[export] Instance is_ws_dec c : Decision (is_ws c).
Proof. unfold is_ws. apply _. Defined.

(** A token as the callers pass it: a word without blanks or commas. *)
Definition token_char (c : Z) : Prop := c ≠ 0 /\ c ≠ 44 /\ ~ is_ws c.

(** The comma-separated elements of a string. *)
Fixpoint elements (s : bytes) : list bytes :=
  match s with
  | [] => [[]]
  | c :: s' =>
      if c =? 44 then [] :: elements s'
      else match elements s' with
      | e :: es => (c :: e) :: es
      | [] => [[c]]
      end
  end.

(** An element that is the token, up to case and surrounding blanks. *)
Definition element_matches (token e : bytes) : Prop :=
  ∃ w1 t w2, e = w1 ++ t ++ w2 /\ Forall is_ws w1 /\ Forall is_ws w2 /\ caseless_eq t token.

(** An element that, after leading blanks, is a proper non-empty prefix of
    the token up to case. *)
Definition element_truncates (token e : bytes) : Prop :=
  ∃ w1 t t', e = w1 ++ t /\ Forall is_ws w1 /\ t ≠ [] /\ t' ≠ [] /\ caseless_eq (t ++ t') token.

Fixpoint drop_ws (e : bytes) : bytes :=
  match e with
  | [] => []
  | c :: e' => if decide (is_ws c) then drop_ws e' else e
  end.

Inductive comparison_outcome := Full | Junk | Short.

Fixpoint compare_element (e tok : bytes) {struct tok} : comparison_outcome :=
  match tok, e with
  | [], _ => if decide (Forall is_ws e) then Full else Junk
  | _ :: _, [] => Short
  | t :: tok', c :: e' => if toasciilower c =? toasciilower t then compare_element e' tok' else Junk
  end.

(** What the nested loops compute, on elements.  A truncated token swallows
    the element behind it: the comma that ended it was already consumed. *)
Fixpoint scan_elements (fuel : nat) (es : list bytes) (token : bytes) : bool :=
  match fuel, es with
  | S fuel', e :: es' =>
      match drop_ws e with
      | [] => scan_elements fuel' es' token
      | e' =>
          match compare_element e' token with
          | Full => true
          | Junk => scan_elements fuel' es' token
          | Short => scan_elements fuel' (tail es') token
          end
      end
  | _, _ => false
  end.

Lemma scan_elements_fuel token f1 f2 es :
  (length es <= f1)%nat -> (length es <= f2)%nat ->
  scan_elements f1 es token = scan_elements f2 es token.
Proof.
  revert f2 es. induction f1 as [|f1 IH]; intros [|f2] [|e es] H1 H2; simpl in *; try lia; try done.
  destruct (drop_ws e) as [|c e']; [apply IH; lia|].
  destruct (compare_element (c :: e') token); [done|apply IH; lia|].
  apply IH; destruct es; simpl in *; lia.
Qed.

Definition scan (es : list bytes) (token : bytes) : bool := scan_elements (length es) es token.

Lemma scan_cons e es token :
  scan (e :: es) token =
  match drop_ws e with
  | [] => scan es token
  | e' => match compare_element e' token with
          | Full => true | Junk => scan es token | Short => scan (tail es) token end
  end.
Proof.
  unfold scan. cbn [scan_elements length]. destruct (drop_ws e) as [|c e']; [done|].
  destruct (compare_element (c :: e') token); [done..|]. apply scan_elements_fuel; destruct es; simpl; lia.
Qed.

Lemma elements_nonempty s : ∃ e es, elements s = e :: es.
Proof. destruct s as [|c s]; simpl; [eauto|]. destruct (c =? 44), (elements s); eauto. Qed.

Lemma elements_app_comma e p : 44 ∉ e -> elements (e ++ 44 :: p) = e :: elements p.
Proof.
  induction e as [|c e IH]; intros H; [done|]. apply not_elem_of_cons in H as [Hc He].
  simpl. destruct (Z.eqb_spec c 44); [lia|]. by rewrite IH.
Qed.

Lemma elements_no_comma e : 44 ∉ e -> elements e = [e].
Proof.
  induction e as [|c e IH]; intros H; [done|]. apply not_elem_of_cons in H as [Hc He].
  simpl. destruct (Z.eqb_spec c 44); [lia|]. by rewrite IH.
Qed.

(** Blanks and empty elements in front of a string do not change the scan. *)
Lemma skip_ws_comma_scan s r token :
  no_nul s ->
  ∃ s', skip_ws_comma (s ++ 0 :: r) = Some (s' ++ 0 :: r) /\ no_nul s'
    /\ (length s' <= length s)%nat
    /\ (forall c, head s' = Some c -> ~ is_ws c /\ c ≠ 44)
    /\ scan (elements s) token = scan (elements s') token.
Proof.
  induction s as [|c s IH]; intros Hs; simpl.
  - exists []. repeat split; simpl; (lia || done).
  - apply no_nul_cons in Hs as [Hc Hs]. destruct (IH Hs) as (s' & IH1 & IH2 & IH3 & IH4 & IH5).
    destruct (elements_nonempty s) as (e & es & E).
    destruct (Z.eqb_spec c 44) as [->|N44]; [|destruct (decide (is_ws c)) as [W|W]].
    + exists s'. rewrite IH1, <- IH5, scan_cons. split_and!; [done|done|lia|exact IH4|done].
    + exists s'. rewrite <- IH5, E, !scan_cons. simpl. rewrite decide_True by done.
      assert ((c =? 32) || (c =? 9) || false = true) as -> by (destruct W as [->| ->]; done).
      split_and!; [exact IH1|done|lia|exact IH4|done].
    + exists (c :: s). rewrite E. unfold is_ws in W.
      replace ((c =? 32) || (c =? 9) || false) with false by bcases.
      split; [done|]. split; [by apply no_nul_cons|]. split; [simpl; lia|].
      split; [by intros ? [= <-]|]. simpl. rewrite E. by destruct (Z.eqb_spec c 44).
Qed.

(** A string up to its first comma: the element and what follows it. *)
Lemma first_element s :
  ∃ e post, s = e ++ post /\ 44 ∉ e
    /\ (post = [] \/ (∃ p, post = 44 :: p))
    /\ elements s = e :: match post with [] => [] | _ :: p => elements p end.
Proof.
  induction s as [|c s (e & post & -> & He & Hp & E)].
  - exists [], []. split_and!; [done|by apply not_elem_of_nil|by left|done].
  - destruct (decide (c = 44)) as [->|Hc].
    + exists [], (44 :: e ++ post). split_and!; [done|by apply not_elem_of_nil|eauto|done].
    + exists (c :: e), post. split_and!; [done|by apply not_elem_of_cons|done|].
      simpl. rewrite E. by destruct (Z.eqb_spec c 44).
Qed.

Lemma skip_to_comma_element e post r :
  no_nul e -> 44 ∉ e -> post = [] \/ (∃ p, post = 44 :: p) ->
  skip_to_comma (e ++ post ++ 0 :: r) = Some (post ++ 0 :: r).
Proof.
  intros Hn Hc Hp. induction e as [|c e IH]; simpl.
  - by destruct Hp as [->|[p ->]].
  - apply no_nul_cons in Hn as [? Hn]. apply not_elem_of_cons in Hc as [? Hc].
    destruct (Z.eqb_spec c 0); [done|]. destruct (Z.eqb_spec c 44); [lia|]. by apply IH.
Qed.

Lemma skip_ws_drop e q : q ≠ [] -> (forall c, head q = Some c -> ~ is_ws c) ->
  skip_ws (e ++ q) = Some (drop_ws e ++ q).
Proof.
  intros Hq Hh. induction e as [|c e IH]; simpl.
  - destruct q as [|c q]; [done|]. specialize (Hh c eq_refl). unfold is_ws in Hh.
    simpl. replace ((c =? 32) || (c =? 9)) with false by bcases. done.
  - unfold is_ws. case_decide as W.
    + destruct W as [->| ->]; simpl; by apply IH.
    + replace ((c =? 32) || (c =? 9)) with false by bcases. done.
Qed.

Lemma drop_ws_nil e : drop_ws e = [] <-> Forall is_ws e.
Proof.
  induction e as [|c e IH]; simpl; [done|]. rewrite Forall_cons.
  case_decide; [rewrite IH; tauto|]. split; [done|tauto].
Qed.

Lemma drop_ws_sub P e : Forall P e -> Forall P (drop_ws e).
Proof. induction 1 as [|c e Hc He IH]; simpl; [done|]. case_decide; [done|by constructor]. Qed.

Lemma comma_not_token_char c : token_char c -> chars_differ 44 c = true.
Proof.
  intros (? & ? & ?). rewrite chars_differ_lower. unfold toasciilower, isasciiupper. simpl. bcases.
Qed.

(** The inner loop on the first element: the exits of the loop are the three
    outcomes of the comparison. *)
Lemma match_token_outcome e post r tok :
  no_nul e -> 44 ∉ e -> post = [] \/ (∃ p, post = 44 :: p) ->
  Forall token_char tok -> tok ≠ [] ->
  match compare_element e tok with
  | Full => match_token (e ++ post ++ 0 :: r) tok (length tok) = Some (TokenReturn true)
  | Junk => ∃ s2, match_token (e ++ post ++ 0 :: r) tok (length tok) = Some (TokenBreak s2)
                  /\ skip_to_comma s2 = Some (post ++ 0 :: r) /\ (length s2 <= length e + length post + S (length r))%nat
  | Short => match_token (e ++ post ++ 0 :: r) tok (length tok)
             = Some match post with [] => TokenReturn false | _ :: p => TokenBreak (p ++ 0 :: r) end
  end.
Proof.
  intros Hn Hc Hp Ht. revert e Hn Hc. induction Ht as [|t tok Htc Htok IH]; intros e Hn Hc Hne; [done|].
  destruct e as [|c e]; simpl.
  - destruct Hp as [->|[p ->]]; [done|]. simpl. by rewrite comma_not_token_char.
  - apply no_nul_cons in Hn as [Hc0 Hn]. apply not_elem_of_cons in Hc as [Hc44 Hc].
    destruct (Z.eqb_spec c 0); [done|]. rewrite chars_differ_lower.
    destruct (Z.eqb_spec (toasciilower c) (toasciilower t)); simpl.
    2:{ eexists. split; [done|]. split; [by apply skip_to_comma_element|].
        rewrite !length_app. simpl. lia. }
    destruct tok as [|t' tok]; simpl length; cbv iota.
    2:{ specialize (IH e Hn Hc ltac:(done)). simpl length in IH.
        destruct (compare_element e (t' :: tok)); [done| |done].
        destruct IH as (s2 & ? & ? & ?). exists s2. split_and!; [done|done|simpl; lia]. }
    assert (Hq : skip_ws (e ++ post ++ 0 :: r) = Some (drop_ws e ++ post ++ 0 :: r)).
    { apply skip_ws_drop; [by destruct post|].
      destruct Hp as [->|[p ->]]; simpl; intros ? [= <-]; unfold is_ws; lia. }
    rewrite Hq. simpl. case_decide as W.
    + apply drop_ws_nil in W. rewrite W. by destruct Hp as [->|[p ->]].
    + destruct (drop_ws e) as [|c' e'] eqn:E; [by apply drop_ws_nil in E|].
      pose proof (drop_ws_sub _ _ Hn) as Hn'. pose proof (drop_ws_sub (λ c, c ≠ 44) e) as Hc'.
      rewrite E in Hn', Hc'. specialize (Hc' ltac:(by apply Forall_forall; intros ? ? ->)).
      apply no_nul_cons in Hn' as [Hz Hn']. apply Forall_cons in Hc' as [Hz' Hc'].
      simpl. destruct (Z.eqb_spec c' 0); [done|]. destruct (Z.eqb_spec c' 44); [done|]. simpl.
      eexists. split; [done|]. split.
      * apply (skip_to_comma_element (c' :: e')); [by apply no_nul_cons| |done].
        apply not_elem_of_cons. split; [done|]. rewrite Forall_forall in Hc'. naive_solver.
      * assert (length (drop_ws e) <= length e)%nat as Hl.
        { clear. induction e; simpl; [lia|]. case_decide; simpl; lia. }
        rewrite E in Hl. simpl in *. rewrite !length_app. simpl. lia.
Qed.

(** The search refines the scan of the elements; in particular it stays inside
    the string and the token, and its fuel is enough. *)
Lemma has_token_loop_scan fuel s r token :
  no_nul s -> Forall token_char token -> token ≠ [] ->
  (length s + length r + 1 < fuel)%nat ->
  has_token_loop fuel (s ++ 0 :: r) token (length token) = Some (scan (elements s) token).
Proof.
  intros Hs Ht Hne. revert s Hs. induction fuel as [|fuel IH]; intros s Hs Hf; [lia|]. cbn [has_token_loop].
  destruct s as [|c0 s0] eqn:Es; [done|]. rewrite <- Es in *.
  assert (deref (s ++ 0 :: r) = Some c0) as -> by (by rewrite Es). cbn [mbind option_bind].
  assert (c0 ≠ 0) by (rewrite Es in Hs; by apply no_nul_cons in Hs as [? _]).
  destruct (Z.eqb_spec c0 0); [done|]. clear Es c0 s0 H n.
  destruct (skip_ws_comma_scan s r token Hs) as (s' & -> & Hs' & Hl & Hh & ->). cbn [mbind option_bind].
  destruct (first_element s') as (e & post & -> & He & Hp & ->).
  apply no_nul_app in Hs' as [Hne' Hnp]. rewrite <- app_assoc.
  pose proof (match_token_outcome e post r token Hne' He Hp Ht Hne) as Hm.
  rewrite length_app in Hl. rewrite scan_cons.
  destruct (drop_ws e) as [|c' e'] eqn:Ed.
  - assert (e = []) as ->.
    { destruct e as [|c e]; [done|]. apply drop_ws_nil in Ed. apply Forall_cons in Ed as [W _].
      by destruct (Hh c eq_refl). }
    destruct post as [|q p].
    + by destruct token.
    + destruct Hp as [|[p' [= -> ->]]]; [done|]. by destruct (Hh 44 eq_refl).
  - assert (c' :: e' = e) as ->.
    { destruct e as [|c e]; [done|]. simpl in Ed. destruct (Hh c eq_refl) as [W _].
      by rewrite decide_False in Ed by done. }
    destruct (compare_element e token).
    + by rewrite Hm.
    + destruct Hm as (s2 & -> & Hsk & _). cbn [mbind option_bind]. rewrite Hsk. cbn [mbind option_bind].
      destruct e as [|ce e]; [done|]. simpl in Hl.
      rewrite IH; [|done|lia]. destruct Hp as [->|[p ->]]; [done|]. simpl. by rewrite scan_cons.
    + rewrite Hm. cbn [mbind option_bind]. destruct post as [|q p]; [done|].
      destruct Hp as [|[p' [= -> ->]]]; [done|]. apply no_nul_cons in Hnp as [_ Hnp].
      destruct (first_element p') as (e2 & post2 & -> & He2 & Hp2 & ->). simpl.
      apply no_nul_app in Hnp as [Hn2 Hnp2]. rewrite <- app_assoc.
      rewrite skip_to_comma_element by done. cbn [mbind option_bind].
      destruct e as [|ce e]; [done|]. simpl in Hl. rewrite length_app in Hl.
      rewrite IH; [|done|lia]. destruct Hp2 as [->|[p ->]]; [done|]. simpl. by rewrite scan_cons.
Qed.

Lemma compare_element_full e tok :
  compare_element e tok = Full <-> ∃ t w2, e = t ++ w2 /\ Forall is_ws w2 /\ caseless_eq t tok.
Proof.
  revert e. induction tok as [|t tok IH]; intros e; simpl.
  - case_decide as W.
    + split; [|done]. intros _. by exists [], e.
    + split; [done|]. intros (t & w2 & -> & Hw & Ht).
      apply caseless_eq_length in Ht. by destruct t.
  - destruct e as [|c e].
    + split; [done|]. intros (t' & w2 & E & _ & Ht). apply caseless_eq_length in Ht.
      by destruct t'.
    + destruct (Z.eqb_spec (toasciilower c) (toasciilower t)) as [El|El].
      * rewrite IH. split; intros (t' & w2 & E & Hw & Ht).
        -- exists (c :: t'), w2. rewrite E. split_and!; [done..|]. by apply caseless_eq_cons.
        -- destruct t' as [|c' t']; [by apply caseless_eq_length in Ht|].
           injection E as -> ->. apply caseless_eq_cons in Ht as [_ Ht]. eauto.
      * split; [done|]. intros (t' & w2 & E & Hw & Ht).
        destruct t' as [|c' t']; [by apply caseless_eq_length in Ht|].
        injection E as -> ->. by apply caseless_eq_cons in Ht as [? _].
Qed.

Lemma compare_element_short e tok :
  compare_element e tok = Short -> ∃ t', t' ≠ [] /\ caseless_eq (e ++ t') tok.
Proof.
  revert e. induction tok as [|t tok IH]; intros e; simpl.
  - by case_decide.
  - destruct e as [|c e]; [by exists (t :: tok)|].
    destruct (Z.eqb_spec (toasciilower c) (toasciilower t)) as [El|El]; [|done].
    intros (t' & Hne & Ht)%IH. exists t'. split; [done|]. simpl. by apply caseless_eq_cons.
Qed.

Lemma drop_ws_split e : ∃ w, e = w ++ drop_ws e /\ Forall is_ws w.
Proof.
  induction e as [|c e (w & E & Hw)]; simpl; [by exists []|].
  case_decide; [|by exists []]. exists (c :: w). split; [by rewrite E at 1|by constructor].
Qed.

Lemma drop_ws_app w e : Forall is_ws w -> drop_ws (w ++ e) = drop_ws e.
Proof. induction 1; simpl; [done|]. by rewrite decide_True. Qed.

Lemma match_token_buffer s tok q :
  tok ≠ [] -> match_token s (tok ++ q) (length tok) = match_token s tok (length tok).
Proof.
  revert s. induction tok as [|t tok IH]; intros s Hne; [done|].
  destruct s as [|c s]; [done|]. simpl. destruct (c =? 0), (chars_differ c t); try done.
  destruct tok as [|t' tok]; [done|]. simpl length in *. by apply IH.
Qed.

Lemma has_token_loop_buffer fuel s tok q :
  tok ≠ [] -> has_token_loop fuel s (tok ++ q) (length tok) = has_token_loop fuel s tok (length tok).
Proof.
  intros Hne. revert s. induction fuel as [|fuel IH]; intros s; [done|]. simpl.
  destruct (deref s); [|done]. simpl. case_match; [done|].
  destruct (skip_ws_comma s); [|done]. simpl. rewrite match_token_buffer by done.
  destruct (match_token _ tok _) as [[|s2]|]; [done| |done]. simpl.
  destruct (skip_to_comma s2); [|done]. apply IH.
Qed.

Lemma has_token_scan s r token q :
  no_nul s -> Forall token_char token -> token ≠ [] ->
  MHD_str_has_token_caseless_ (s ++ 0 :: r) (token ++ q) (length token)
  = Some (scan (elements s) token).
Proof.
  intros Hs Ht Hne. unfold MHD_str_has_token_caseless_.
  destruct token as [|t tok] eqn:E; [done|]. rewrite <- E in *.
  replace (length token =? 0)%nat with false by (by rewrite E).
  rewrite has_token_loop_buffer by done. apply has_token_loop_scan; [done..|].
  rewrite length_app. simpl. lia.
Qed.

Lemma element_matches_compare token e :
  token ≠ [] -> Forall token_char token -> element_matches token e ->
  drop_ws e ≠ [] /\ compare_element (drop_ws e) token = Full.
Proof.
  intros Hne Ht (w1 & t & w2 & -> & H1 & H2 & Heq). rewrite drop_ws_app by done.
  destruct t as [|c t]; [apply caseless_eq_length in Heq; by destruct token|].
  destruct token as [|tc token]; [done|]. apply Forall_cons in Ht as [(_ & _ & W) _].
  pose proof Heq as Heq'. apply caseless_eq_cons in Heq' as [El _].
  assert (~ is_ws c).
  { intros Wc. apply W. unfold is_ws in *. revert El. unfold toasciilower, isasciiupper.
    destruct Wc as [->| ->]; simpl; bcases. }
  cbn [drop_ws app]. rewrite decide_False by done. split; [done|].
  apply compare_element_full. exists (c :: t), w2. done.
Qed.

Lemma scan_sound es token :
  scan es token = true -> ∃ e, e ∈ es /\ element_matches token e.
Proof.
  remember (length es) as n eqn:En. assert (length es <= n)%nat as Hn by lia. clear En.
  revert es Hn. induction n as [|n IH]; intros [|e es] Hn H; try (by cbv in H);
    simpl in Hn; try lia.
  rewrite scan_cons in H. destruct (drop_ws_split e) as (w & Ew & Hw).
  assert (forall es', (es' = es \/ es' = tail es) -> scan es' token = true ->
            ∃ e0, e0 ∈ e :: es /\ element_matches token e0) as Hrec.
  { intros es' Hes Hs. destruct (IH es') as (e0 & He0 & Hm); [destruct es, Hes as [->| ->]; simpl in *; lia|done|].
    exists e0. split; [|done]. apply list_elem_of_further.
    destruct Hes as [->| ->]; [done|]. destruct es; [done|by apply list_elem_of_further]. }
  destruct (drop_ws e) as [|c e'] eqn:Ed; [exact (Hrec es (or_introl eq_refl) H)|].
  destruct (compare_element (c :: e') token) eqn:Ec.
  - apply compare_element_full in Ec as (t & w2 & E & Hw2 & Ht).
    exists e. split; [by apply list_elem_of_here|]. exists w, t, w2. by rewrite Ew, E.
  - exact (Hrec es (or_introl eq_refl) H).
  - exact (Hrec (tail es) (or_intror eq_refl) H).
Qed.

Lemma scan_complete es token :
  token ≠ [] -> Forall token_char token ->
  (forall e, e ∈ es -> ~ element_truncates token e) ->
  (∃ e, e ∈ es /\ element_matches token e) -> scan es token = true.
Proof.
  intros Hne Ht. induction es as [|e es IH]; intros Hno (e0 & He0 & Hm); [by apply not_elem_of_nil in He0|].
  rewrite scan_cons. destruct (drop_ws_split e) as (w & Ew & Hw).
  destruct (decide (e0 = e)) as [->|Hd].
  - destruct (element_matches_compare token e) as [Hn Hc]; [done..|].
    destruct (drop_ws e); [done|]. by rewrite Hc.
  - assert (scan es token = true) as Hs.
    { apply IH; [intros; apply Hno; by apply list_elem_of_further|].
      exists e0. split; [|done]. apply elem_of_cons in He0 as [|]; done. }
    destruct (drop_ws e) as [|c e'] eqn:Ed; [done|].
    destruct (compare_element (c :: e') token) eqn:Ec; [done..|].
    apply compare_element_short in Ec as (t' & Hn & Heq). exfalso.
    apply (Hno e); [by apply list_elem_of_here|]. exists w, (c :: e'), t'. done.
Qed.

(** ** Theorems *)

(** Caseless comparison of two C strings reads only inside both objects
    and returns true exactly when the strings agree up to the case of
    US-ASCII letters. *)
Theorem MHD_str_equal_caseless_correct s1 s2 r1 r2 :
  no_nul s1 -> no_nul s2 ->
  MHD_str_equal_caseless_ (s1 ++ 0 :: r1) (s2 ++ 0 :: r2)
  = Some (bool_decide (caseless_eq s1 s2))
  /\ (forall maxlen, (length s1 < maxlen)%nat \/ (length s2 < maxlen)%nat ->
      MHD_str_equal_caseless_n_ (s1 ++ 0 :: r1) (s2 ++ 0 :: r2) maxlen
      = MHD_str_equal_caseless_ (s1 ++ 0 :: r1) (s2 ++ 0 :: r2)).
Proof.
  intros H1 H2. rewrite str_equal_caseless_spec by done. split; [done|].
  intros maxlen Hm. rewrite str_equal_caseless_n_spec by done. f_equal. apply bool_decide_ext.
  split; intros H; pose proof (caseless_eq_length _ _ H) as Hl; [|by rewrite !take_ge by lia].
  rewrite !length_take in Hl. by rewrite !take_ge in H by lia.
Qed.

Lemma MHD_str_equal_caseless_correct_witness :
  MHD_str_equal_caseless_ (str "Content-Length" ++ [0]) (str "content-LENGTH" ++ [0]) = Some true.
Proof.
  destruct (MHD_str_equal_caseless_correct (str "Content-Length") (str "content-LENGTH") [] [])
    as [-> _]; [by repeat constructor..|reflexivity].
Defined.

(** A successful token search is right: it reads only inside the string
    and the token, and some comma-separated element of the string is the
    token up to case and surrounding blanks. *)
Theorem MHD_str_has_token_sound s r token q :
  no_nul s -> Forall token_char token -> token ≠ [] ->
  ∃ b, MHD_str_has_token_caseless_ (s ++ 0 :: r) (token ++ q) (length token) = Some b
    /\ (b = true -> ∃ e, e ∈ elements s /\ element_matches token e).
Proof.
  intros Hs Ht Hne. exists (scan (elements s) token).
  split; [by apply has_token_scan|apply scan_sound].
Qed.

Lemma token_char_dec c : Decision (token_char c).
Proof. unfold token_char. apply _. Defined.
#[local] Existing Instance token_char_dec.

Lemma MHD_str_has_token_sound_witness :
  ∃ b, MHD_str_has_token_caseless_ (str "x, Close" ++ [0]) (str "close" ++ [0]) 5 = Some b
    /\ (b = true -> ∃ e, e ∈ elements (str "x, Close") /\ element_matches (str "close") e).
Proof.
  apply (MHD_str_has_token_sound (str "x, Close") [] (str "close") [0]).
  - by repeat constructor.
  - by apply (bool_decide_unpack _); vm_compute.
  - done.
Defined.

(** The token search finds a matching element whenever no element of the
    string is a truncated token. *)
Theorem MHD_str_has_token_complete s r token q :
  no_nul s -> Forall token_char token -> token ≠ [] ->
  (forall e, e ∈ elements s -> ~ element_truncates token e) ->
  (∃ e, e ∈ elements s /\ element_matches token e) ->
  MHD_str_has_token_caseless_ (s ++ 0 :: r) (token ++ q) (length token) = Some true.
Proof. intros Hs Ht Hne Hno Hex. rewrite has_token_scan by done. by rewrite scan_complete. Qed.

Lemma MHD_str_has_token_complete_witness :
  MHD_str_has_token_caseless_ (str " cLose " ++ [0]) (str "close" ++ [0]) 5 = Some true.
Proof.
  apply (MHD_str_has_token_complete (str " cLose ") [] (str "close") [0]).
  - by repeat constructor.
  - by apply (bool_decide_unpack _); vm_compute.
  - done.
  - intros e He (w1 & t & t' & E & Hw & Hne & Hne' & Hc).
    apply list_elem_of_singleton in He. apply caseless_eq_length in Hc. rewrite length_app in Hc.
    destruct t' as [|c' t']; [done|]. simpl in Hc. rewrite E in He.
    destruct w1 as [|a w1]; simpl in He.
    { apply (f_equal length) in He. simpl in He. lia. }
    destruct w1 as [|b w1]; simpl in He.
    { apply (f_equal length) in He. simpl in He. lia. }
    injection He as _ Hb _. apply Forall_cons in Hw as [_ Hw]. apply Forall_cons in Hw as [Hb' _].
    subst b. destruct Hb'; discriminate.
  - exists (str " cLose "). split; [by left|].
    exists [32], (str "cLose"), [32]. split_and!; [done|by repeat constructor..|done].
Defined.

(** The hypothesis of completeness is needed: in "clo,close" the comma
    that ends the truncated token is consumed by the comparison, the next
    element is skipped with it, and the search misses an element that is the
    token. *)
Theorem MHD_str_has_token_misses :
  MHD_str_has_token_caseless_ (str "clo,close" ++ [0]) (str "close" ++ [0]) 5 = Some false
  /\ str "close" ∈ elements (str "clo,close") /\ element_matches (str "close") (str "close").
Proof.
  split; [reflexivity|]. split; [right; by left|].
  exists [], (str "close"), []. split_and!; done || by constructor.
Qed.

(** The wrappers of the loops deliver [parse_spec]. *)
Lemma strx_finish_acc max v ds :
  0 <= max -> strx_finish v (acc_result 16 max 0 0 ds) = parse_spec 16 max ds v.
Proof.
  intros Hm. unfold strx_finish, acc_result, parse_spec.
  destruct (Z.leb_spec (value 16 ds) max); case_decide as Hd.
  - destruct ds; [tauto|done].
  - destruct ds; [done|]. destruct Hd. by split.
  - lia.
  - done.
Qed.

Lemma number_parsers_spec cs c r v :
  (digit_run todigitvalue cs -> todigitvalue c < 0 ->
   MHD_str_to_uint64_ (Some (cs ++ c :: r)) (Some v)
   = Some (parse_spec 10 UINT64_MAX (todigitvalue <$> cs) v))
  /\ (digit_run toxdigitvalue cs -> toxdigitvalue c < 0 ->
   MHD_strx_to_uint32_ (Some (cs ++ c :: r)) (Some v)
   = Some (parse_spec 16 UINT32_MAX (toxdigitvalue <$> cs) v)
   /\ MHD_strx_to_uint64_ (Some (cs ++ c :: r)) (Some v)
   = Some (parse_spec 16 UINT64_MAX (toxdigitvalue <$> cs) v)).
Proof.
  set (left := S (length (cs ++ c :: r))).
  assert (length (cs ++ c :: r) < left)%nat as Hl by lia.
  assert (length cs <= left)%nat as Hcl by (rewrite length_app in Hl; lia).
  assert (forall c, todigitvalue c < 10) by (intros; apply todigitvalue_range).
  assert (forall c, toxdigitvalue c < 16) by (intros; apply toxdigitvalue_range).
  split; intros Hcs Hc.
  - simpl. destruct cs as [|d cs].
    + simpl. by rewrite (proj1 (isasciidigit_stop c)).
    + simpl app. cbn [deref head mbind option_bind].
      assert (isasciidigit d = true) as Hd by (apply isasciidigit_run; by apply Forall_cons in Hcs as [? _]).
      rewrite Hd, (str_to_uint64_loop_generic _ left) by (try done; by intros ? [= <-]).
      change (d :: cs ++ c :: r) with ((d :: cs) ++ c :: r).
      rewrite (uvalue_loop_run todigitvalue 10 UINT64_MAX (d :: cs) c) by (auto; lia).
      unfold acc_result, parse_spec. cbn [mbind option_bind negb].
      destruct (Z.leb_spec (value 10 (todigitvalue <$> d :: cs)) UINT64_MAX); case_decide as E;
        [done|destruct E; by split|lia|done].
  - unfold MHD_strx_to_uint32_, MHD_strx_to_uint64_.
    rewrite (strx_to_uint32_loop_generic _ left), strx_to_uint32_n_loop_generic by (done || lia).
    rewrite (strx_to_uint64_loop_generic _ left) by done.
    rewrite !(uvalue_loop_run toxdigitvalue 16) by (auto; lia). simpl.
    by rewrite !strx_finish_acc by lia.
Qed.

(** On a string whose maximal run of digits is [cs], each unbounded parser
    reads only inside the object and returns the number of digits with their
    positional value, or zero with the variable untouched when there is no
    digit or the value exceeds the type; the accumulation never wraps. *)
Theorem number_parsers_correct cs c r v :
  (digit_run todigitvalue cs -> todigitvalue c < 0 ->
   MHD_str_to_uint64_ (Some (cs ++ c :: r)) (Some v)
   = Some (parse_spec 10 UINT64_MAX (todigitvalue <$> cs) v))
  /\ (digit_run toxdigitvalue cs -> toxdigitvalue c < 0 ->
   MHD_strx_to_uint32_ (Some (cs ++ c :: r)) (Some v)
   = Some (parse_spec 16 UINT32_MAX (toxdigitvalue <$> cs) v)
   /\ MHD_strx_to_uint64_ (Some (cs ++ c :: r)) (Some v)
   = Some (parse_spec 16 UINT64_MAX (toxdigitvalue <$> cs) v)).
Proof. exact (number_parsers_spec cs c r v). Qed.

Lemma number_parsers_correct_witness :
  MHD_str_to_uint64_ (Some (str "18446744073709551615;" ++ [0])) (Some 7)
  = Some (20%nat, Some UINT64_MAX)
  /\ MHD_strx_to_uint32_ (Some (str "100000000" ++ [0])) (Some 7) = Some (0%nat, Some 7).
Proof.
  split.
  - refine (proj1 (number_parsers_correct (str "18446744073709551615") 59 [0] 7) _ _).
    + by apply (bool_decide_unpack _); vm_compute.
    + reflexivity.
  - destruct (proj2 (number_parsers_correct (str "100000000") 0 [] 7)) as [E _].
    + by apply (bool_decide_unpack _); vm_compute.
    + reflexivity.
    + exact E.
Defined.

Lemma bounded_parsers_spec cs c r maxlen v :
  (length cs <= maxlen)%nat ->
  (digit_run todigitvalue cs -> todigitvalue c < 0 \/ length cs = maxlen ->
   MHD_str_to_uint64_n_ (Some (cs ++ c :: r)) maxlen (Some v)
   = Some (parse_spec 10 UINT64_MAX (todigitvalue <$> cs) v))
  /\ (digit_run toxdigitvalue cs -> toxdigitvalue c < 0 \/ length cs = maxlen ->
   MHD_strx_to_uint32_n_ (Some (cs ++ c :: r)) maxlen (Some v)
   = Some (parse_spec 16 UINT32_MAX (toxdigitvalue <$> cs) v)
   /\ MHD_strx_to_uint64_n_ (Some (cs ++ c :: r)) maxlen (Some v)
   = Some (parse_spec 16 UINT64_MAX (toxdigitvalue <$> cs) v)).
Proof.
  intros Hl.
  assert (forall c, todigitvalue c < 10) by (intros; apply todigitvalue_range).
  assert (forall c, toxdigitvalue c < 16) by (intros; apply toxdigitvalue_range).
  split; intros Hcs Hc.
  - simpl. destruct (Nat.eqb_spec maxlen 0) as [->|Hm]; [by destruct cs; simpl in *; [|lia]|].
    destruct cs as [|d cs].
    + simpl. destruct Hc as [Hc|Hc]; [|simpl in Hc; lia]. by rewrite (proj1 (isasciidigit_stop c)).
    + simpl app. cbn [deref head mbind option_bind].
      assert (isasciidigit d = true) as Hd by (apply isasciidigit_run; by apply Forall_cons in Hcs as [? _]).
      rewrite Hd, str_to_uint64_n_loop_generic by (lia || by intros ? [= <-]).
      change (d :: cs ++ c :: r) with ((d :: cs) ++ c :: r).
      rewrite (uvalue_loop_run todigitvalue 10 UINT64_MAX (d :: cs) c) by (auto; lia).
      unfold acc_result, parse_spec. cbn [mbind option_bind negb].
      destruct (Z.leb_spec (value 10 (todigitvalue <$> d :: cs)) UINT64_MAX); case_decide as E;
        [done|destruct E; by split|lia|done].
  - unfold MHD_strx_to_uint32_n_, MHD_strx_to_uint64_n_.
    rewrite strx_to_uint32_n_loop_generic by lia. rewrite strx_to_uint64_n_loop_generic.
    rewrite !(uvalue_loop_run toxdigitvalue 16) by (auto; lia). simpl.
    by rewrite !strx_finish_acc by lia.
Qed.

(** The bounded parsers treat at most [maxlen] characters: they deliver
    the same contract on the first [maxlen] digits and read no further. *)
Theorem bounded_parsers_correct cs c r maxlen v :
  (length cs <= maxlen)%nat ->
  (digit_run todigitvalue cs -> todigitvalue c < 0 \/ length cs = maxlen ->
   MHD_str_to_uint64_n_ (Some (cs ++ c :: r)) maxlen (Some v)
   = Some (parse_spec 10 UINT64_MAX (todigitvalue <$> cs) v))
  /\ (digit_run toxdigitvalue cs -> toxdigitvalue c < 0 \/ length cs = maxlen ->
   MHD_strx_to_uint32_n_ (Some (cs ++ c :: r)) maxlen (Some v)
   = Some (parse_spec 16 UINT32_MAX (toxdigitvalue <$> cs) v)
   /\ MHD_strx_to_uint64_n_ (Some (cs ++ c :: r)) maxlen (Some v)
   = Some (parse_spec 16 UINT64_MAX (toxdigitvalue <$> cs) v)).
Proof. apply bounded_parsers_spec. Qed.

Lemma bounded_parsers_correct_witness :
  MHD_strx_to_uint32_n_ (Some (str "41zz")) 2 (Some 7) = Some (2%nat, Some 65).
Proof.
  destruct (proj2 (bounded_parsers_correct (str "41") 122 (str "z") 2 7 ltac:(simpl; lia))) as [E _].
  - by apply (bool_decide_unpack _); vm_compute.
  - right. reflexivity.
  - exact E.
Defined.

Lemma uvalue_loop_bound f base max s left n res n' r :
  1 < base -> (forall c, f c < base) -> 0 <= max <= UINT64_MAX -> base <= 2 ^ 64 ->
  0 <= res <= max ->
  uvalue_loop f base max s left n res = Some (Some (n', r)) -> 0 <= r <= max.
Proof.
  intros Hb Hf Hmax Hb64. revert s n res. induction left as [|left IH]; intros s n res Hres; simpl.
  - by intros [= _ <-].
  - destruct s as [|c s]; [done|]. simpl. pose proof (Hf c).
    destruct (Z.leb_spec 0 (f c)); [|by intros [= _ <-]].
    rewrite (wrap_small 64 (f c)) by lia.
    rewrite <- (Z.gtb_ltb res), <- (Z.gtb_ltb (f c)), (Z.eqb_sym (max / base)), overflow_check by lia.
    destruct (Z.gtb_spec (res * base + f c) max); [done|].
    rewrite (accumulate_nowrap base max) by lia. apply IH. nia.
Qed.

(** The end of the generic parser for the two sizes it is used at. *)
Lemma uvalue_finish v r :
  match r with
  | None => Some (0%nat, Some v)
  | Some (n, res) => if (0 <? n)%nat then Some (n, Some res) else Some (n, Some v)
  end = Some (strx_finish v r).
Proof. by destruct r as [[[|n] res]|]. Qed.

Lemma uvalue_loop_count f base max s left n res n' r :
  uvalue_loop f base max s left n res = Some (Some (n', r)) -> (n <= n')%nat.
Proof.
  revert left n res. induction s as [|c s IH]; intros [|left] n res; simpl;
    try (intros [= <- _]; lia).
  destruct (0 <=? f c); [|intros [= <- _]; lia].
  destruct (_ || _); [done|]. intros Hs%IH. lia.
Qed.

Lemma uvalue_32 b maxlen v :
  MHD_str_to_uvalue_n_ (Some b) maxlen (Some v) 4 UINT32_MAX 16
  = (r ← uvalue_loop toxdigitvalue 16 UINT32_MAX b maxlen 0 0; Some (strx_finish v r)).
Proof.
  assert (forall c, toxdigitvalue c < 16) by (intros; apply toxdigitvalue_range).
  cbn [MHD_str_to_uvalue_n_ Z.eqb Pos.eqb negb andb].
  destruct (uvalue_loop _ _ _ b maxlen 0 0) as [[[n res]|]|] eqn:E; [|done..].
  cbn [mbind option_bind].
  apply uvalue_loop_bound in E; [|auto; lia..].
  rewrite wrap_small by lia. exact (uvalue_finish v (Some (n, res))).
Qed.

Lemma uvalue_64 b maxlen v :
  MHD_str_to_uvalue_n_ (Some b) maxlen (Some v) 8 UINT64_MAX 16
  = (r ← uvalue_loop toxdigitvalue 16 UINT64_MAX b maxlen 0 0; Some (strx_finish v r)).
Proof.
  cbn [MHD_str_to_uvalue_n_ Z.eqb Pos.eqb negb andb].
  destruct (uvalue_loop _ _ _ b maxlen 0 0); [apply uvalue_finish|done].
Qed.

(** The decimal parsers test the first character before their loop. *)
Lemma uvalue_decimal b maxlen v :
  MHD_str_to_uvalue_n_ (Some b) maxlen (Some v) 8 UINT64_MAX 10
  = if (maxlen =? 0)%nat then Some (0%nat, Some v)
    else c ← deref b;
         if negb (isasciidigit c) then Some (0%nat, Some v)
         else r ← uvalue_loop todigitvalue 10 UINT64_MAX b maxlen 0 0;
              match r with
              | None => Some (0%nat, Some v)
              | Some (n, res) => Some (n, Some res)
              end.
Proof.
  destruct maxlen as [|maxlen]; [done|]. destruct b as [|c b]; [done|].
  cbn [deref head mbind option_bind Nat.eqb]. destruct (isasciidigit c) eqn:E; simpl negb; cbv iota.
  - cbn [MHD_str_to_uvalue_n_ Z.eqb Pos.eqb negb andb].
    destruct (uvalue_loop todigitvalue 10 UINT64_MAX (c :: b) (S maxlen) 0 0)
      as [[[[|n] res]|]|] eqn:E2; try done.
    simpl in E2. apply isasciidigit_run in E. destruct (Z.leb_spec 0 (todigitvalue c)); [|lia].
    apply uvalue_loop_count in E2. lia.
  - apply isasciidigit_stop in E. unfold MHD_str_to_uvalue_n_. simpl.
    by destruct (Z.leb_spec 0 (todigitvalue c)); [lia|].
Qed.

(** The small-code build is equivalent: the generic parser, at the
    arguments the header macros pass, returns what each specialised parser
    returns, for every string, null pointers and reads outside of the object
    included.  The macros of the unbounded parsers pass [SIZE_MAX] for
    [maxlen]; any bound above the size of the object is the same. *)
Theorem small_code_parsers_agree s maxlen v :
  (forall b, s = Some b -> (length b < maxlen)%nat ->
     MHD_str_to_uvalue_n_ s maxlen v 8 UINT64_MAX 10 = MHD_str_to_uint64_ s v
     /\ MHD_str_to_uvalue_n_ s maxlen v 4 UINT32_MAX 16 = MHD_strx_to_uint32_ s v
     /\ MHD_str_to_uvalue_n_ s maxlen v 8 UINT64_MAX 16 = MHD_strx_to_uint64_ s v)
  /\ MHD_str_to_uvalue_n_ s maxlen v 8 UINT64_MAX 10 = MHD_str_to_uint64_n_ s maxlen v
  /\ MHD_str_to_uvalue_n_ s maxlen v 4 UINT32_MAX 16 = MHD_strx_to_uint32_n_ s maxlen v
  /\ MHD_str_to_uvalue_n_ s maxlen v 8 UINT64_MAX 16 = MHD_strx_to_uint64_n_ s maxlen v.
Proof.
  destruct s as [b|], v as [v|]; [|split_and!; (done || by intros ? [= <-])..].
  rewrite uvalue_32, uvalue_64, uvalue_decimal. split_and!.
  - intros b' [= <-] Hl. unfold MHD_str_to_uint64_, MHD_strx_to_uint32_, MHD_strx_to_uint64_.
    rewrite (strx_to_uint32_loop_generic _ maxlen), strx_to_uint32_n_loop_generic by (done || lia).
    rewrite (strx_to_uint64_loop_generic _ maxlen) by done. split_and!; [|done..].
    destruct maxlen as [|maxlen]; [lia|]. destruct b as [|c b]; [done|]. cbn [deref head mbind option_bind].
    destruct (isasciidigit c) eqn:E; [|done].
    by rewrite (str_to_uint64_loop_generic _ (S maxlen)) by (done || by intros ? [= <-]).
  - unfold MHD_str_to_uint64_n_. destruct maxlen as [|maxlen]; [done|].
    destruct b as [|c b]; [done|]. cbn [deref head mbind option_bind].
    destruct (isasciidigit c) eqn:E; [|done].
    by rewrite str_to_uint64_n_loop_generic by (lia || by intros ? [= <-]).
  - unfold MHD_strx_to_uint32_n_. by rewrite strx_to_uint32_n_loop_generic by lia.
  - unfold MHD_strx_to_uint64_n_. by rewrite strx_to_uint64_n_loop_generic.
Qed.

Lemma small_code_parsers_agree_witness :
  MHD_str_to_uvalue_n_ (Some (str "4294967295" ++ [0])) 1000 (Some 0) 8 UINT64_MAX 10
  = MHD_str_to_uint64_ (Some (str "4294967295" ++ [0])) (Some 0).
Proof.
  destruct (proj1 (small_code_parsers_agree (Some (str "4294967295" ++ [0])) 1000 (Some 0))
              _ eq_refl ltac:(simpl; lia)) as [E _].
  exact E.
Defined.

(** The macro forms of the character routines, used when inline functions
    are off, compute the same values on every [char]. *)
Theorem macro_chars_agree c :
  is_byte c ->
  toasciilower_macro c = toasciilower c
  /\ todigitvalue_macro c = todigitvalue c
  /\ toxdigitvalue_macro c = toxdigitvalue c.
Proof.
  intros Hc. unfold is_byte in Hc. split_and!; [done| |].
  - by rewrite todigitvalue_digit.
  - unfold toxdigitvalue_macro, toxdigitvalue, isasciidigit_macro, isasciidigit, wrap.
    change (2 ^ 8) with 256. bcases; rewrite ?Z.mod_small; lia.
Qed.

Lemma macro_chars_agree_witness :
  toxdigitvalue_macro 70 = 15 /\ toxdigitvalue 70 = 15.
Proof.
  destruct (macro_chars_agree 70 ltac:(unfold is_byte; lia)) as (_ & _ & <-).
  split; reflexivity.
Defined.

(** Printed digits parse back. *)
Lemma todigitvalue_print d : 0 <= d < 10 -> todigitvalue (48 + d) = d.
Proof. intros. rewrite todigitvalue_digit. unfold isasciidigit. bcases. Qed.

Lemma toxdigitvalue_print d : 0 <= d < 16 -> toxdigitvalue (hex_upper d) = d.
Proof.
  intros. unfold toxdigitvalue, isasciidigit, hex_upper, wrap. change (2 ^ 8) with 256.
  bcases; rewrite Z.mod_small; lia.
Qed.

Lemma map_print f g base ds :
  (forall d, 0 <= d < base -> f (g d) = d) -> in_base base ds ->
  f <$> (g <$> ds) = ds /\ digit_run f (g <$> ds).
Proof.
  intros Hfg Hds. induction Hds as [|d ds Hd Hds [IH1 IH2]]; simpl; [by split; [|constructor]|].
  rewrite Hfg by done. split; [by f_equal|]. constructor; [rewrite Hfg; lia|done].
Qed.

Lemma parse_spec_print base max n v :
  1 < base -> 0 <= n <= max ->
  parse_spec base max (print_digits base n) v = (length (print_digits base n), Some n).
Proof.
  intros Hb Hn. destruct (print_digits_spec base n Hb ltac:(lia)) as (_ & Hne & Hv).
  unfold parse_spec. rewrite Hv. rewrite decide_True by (split; [done|lia]). done.
Qed.

(** Parsing inverts printing: the decimal and hexadecimal parsers read
    back every number of their type from its printed form, whatever follows
    that is not a digit. *)
Theorem print_parse_roundtrip n c r v :
  0 <= n <= UINT64_MAX ->
  (todigitvalue c < 0 ->
   MHD_str_to_uint64_ (Some (print_dec n ++ c :: r)) (Some v)
   = Some (length (print_dec n), Some n))
  /\ (toxdigitvalue c < 0 ->
   MHD_strx_to_uint64_ (Some (print_hex n ++ c :: r)) (Some v)
   = Some (length (print_hex n), Some n)).
Proof.
  intros Hn. unfold print_dec, print_hex. rewrite !length_fmap.
  destruct (print_digits_spec 10 n ltac:(lia) ltac:(lia)) as (H10 & _).
  destruct (print_digits_spec 16 n ltac:(lia) ltac:(lia)) as (H16 & _).
  destruct (map_print todigitvalue (λ d, 48 + d) 10 _ todigitvalue_print H10) as [E1 R1].
  destruct (map_print toxdigitvalue hex_upper 16 _ toxdigitvalue_print H16) as [E2 R2].
  split; intros Hc.
  - rewrite (proj1 (number_parsers_spec _ c r v)) by done. by rewrite E1, parse_spec_print.
  - destruct (proj2 (number_parsers_spec (hex_upper <$> print_digits 16 n) c r v)) as [_ ->]; [done..|].
    by rewrite E2, parse_spec_print.
Qed.

Lemma print_parse_roundtrip_witness :
  MHD_str_to_uint64_ (Some (print_dec 65536 ++ [13; 10; 0])) (Some 0) = Some (5%nat, Some 65536).
Proof.
  exact (proj1 (print_parse_roundtrip 65536 13 [10; 0] 0 ltac:(lia)) ltac:(vm_compute; reflexivity)).
Defined.
