(* ===== verification/MemoryPool.v ===== *)
(** * Memory pools (libmicrohttpd/src/microhttpd/memorypool.c)

    The per-connection arena: a region that is carved from its front (request
    line, headers, read buffer) and from its end (small persistent records).
    A pointer into the pool is its offset in [memory]; [None] is the null
    pointer.  The outer option of an operation that moves bytes is undefined
    behaviour.  The ghost list of live blocks of section [Clients] states what
    a pool promises to the code that allocates from it. *)

From S2P Require Import Prelude.

Section Pool.
Context `{Platform}.

Definition ALIGN_SIZE : Z := 2 * sizeof_ptr.

Definition ROUND_TO_ALIGN (n : Z) : Z :=
  Z.land (usize (n + (ALIGN_SIZE - 1))) (usize (Z.lnot (ALIGN_SIZE - 1))).

Record MemoryPool := mkPool {
  memory : bytes;
  size : Z;
  pos : Z;
  end_ : Z;
  is_mmap : bool
}.

(** What the system returned: whether the control block was obtained, and the
    regions delivered by [mmap]/[VirtualAlloc] and by [malloc], [None] for a
    failure. *)
Record pool_env := { malloc_control : bool; mmap_ret : option bytes; malloc_ret : option bytes }.

Definition MHD_pool_create (env : pool_env) (max : Z) : option MemoryPool :=
  if negb (malloc_control env) then None
  else
    match (if max <=? 32 * 1024 then None else mmap_ret env) with
    | None =>
        match malloc_ret env with
        | None => None
        | Some m => Some (mkPool m max 0 max false)
        end
    | Some m => Some (mkPool m max 0 max true)
    end.

(** What destroying a pool gives back to the system, in order. *)
Inductive release := Free_memory | Unmap_memory (size : Z) | Free_control.

Definition MHD_pool_destroy (pool : option MemoryPool) : list release :=
  match pool with
  | None => []
  | Some p => [if is_mmap p then Unmap_memory (size p) else Free_memory; Free_control]
  end.

Definition MHD_pool_get_free (pool : MemoryPool) : Z := usize (end_ pool - pos pool).

Definition MHD_pool_allocate (pool : MemoryPool) (sz : Z) (from_end : bool)
    : option Z * MemoryPool :=
  let asize := ROUND_TO_ALIGN sz in
  if (0 =? asize) && negb (0 =? sz) then (None, pool)
  else if (usize (pos pool + asize) >? end_ pool) || (usize (pos pool + asize) <? pos pool)
  then (None, pool)
  else if from_end then
    (Some (end_ pool - asize),
     mkPool (memory pool) (size pool) (pos pool) (usize (end_ pool - asize)) (is_mmap pool))
  else
    (Some (pos pool),
     mkPool (memory pool) (size pool) (usize (pos pool + asize)) (end_ pool) (is_mmap pool)).

Definition with_memory (pool : MemoryPool) (m : bytes) : MemoryPool :=
  mkPool m (size pool) (pos pool) (end_ pool) (is_mmap pool).

Definition MHD_pool_reallocate (pool : MemoryPool) (old : option Z) (old_size new_size : Z)
    : option (option Z * MemoryPool) :=
  let asize := ROUND_TO_ALIGN new_size in
  if (0 =? asize) && negb (0 =? new_size) then Some (None, pool)
  else if (end_ pool <? old_size) || (end_ pool <? asize) then Some (None, pool)
  else if (pos pool >=? old_size) && bool_decide (Some (pos pool - old_size) = old) then
    if usize (usize (pos pool + asize) - old_size) <=? end_ pool then
      let pos' := usize (pos pool + usize (asize - old_size)) in
      m ← (if asize <? old_size then memset (memory pool) pos' 0 (old_size - asize)
           else Some (memory pool));
      Some (old, mkPool m (size pool) pos' (end_ pool) (is_mmap pool))
    else Some (None, pool)
  else if asize <=? old_size then Some (old, pool)
  else if (usize (pos pool + asize) >=? pos pool) && (usize (pos pool + asize) <=? end_ pool) then
    m ← (if negb (0 =? old_size)
         then src ← old; memmove (memory pool) (pos pool) src old_size
         else Some (memory pool));
    Some (Some (pos pool),
          mkPool m (size pool) (usize (pos pool + asize)) (end_ pool) (is_mmap pool))
  else Some (None, pool).

Definition MHD_pool_reset (pool : MemoryPool) (keep : option Z) (copy_bytes new_size : Z)
    : option (option Z * MemoryPool) :=
  m1 ← match keep with
       | Some k =>
           if negb (k =? 0) && negb (0 =? copy_bytes)
           then memmove (memory pool) 0 k copy_bytes else Some (memory pool)
       | None => Some (memory pool)
       end;
  let keep' := match keep with Some _ => Some 0 | None => None end in
  m2 ← (if size pool >? copy_bytes
        then memset m1 copy_bytes 0 (size pool - copy_bytes) else Some m1);
  Some (keep',
        mkPool m2 (size pool)
          (match keep' with Some _ => ROUND_TO_ALIGN new_size | None => pos pool end)
          (size pool) (is_mmap pool)).

(** ** Alignment arithmetic *)

Lemma platform_cases :
  (ALIGN_SIZE = 2 ^ 3 /\ SIZE_BITS = 32) \/ (ALIGN_SIZE = 2 ^ 4 /\ SIZE_BITS = 64).
Proof. unfold ALIGN_SIZE, SIZE_BITS. destruct sizeof_ptr_ok as [-> | ->]; [left|right]; done. Qed.

Lemma mask_round w k x :
  0 <= k <= w -> 0 <= x < 2 ^ w ->
  Z.land x (wrap w (Z.lnot (2 ^ k - 1))) = 2 ^ k * (x / 2 ^ k).
Proof.
  intros Hk Hx. unfold wrap. rewrite Z.mul_comm, <- Z.shiftl_mul_pow2, <- Z.shiftr_div_pow2 by lia.
  replace (2 ^ k - 1) with (Z.ones k) by (rewrite Z.ones_equiv; lia).
  rewrite <- Z.land_ones by lia. apply Z.bits_inj'. intros n Hn.
  rewrite !Z.land_spec, Z.lnot_spec, Z.shiftl_spec by done.
  rewrite (Z.testbit_ones_nonneg w), (Z.testbit_ones_nonneg k) by lia.
  destruct (Z.ltb_spec n k).
  - rewrite (Z.testbit_neg_r _ (n - k)) by lia. simpl. by rewrite andb_false_r.
  - rewrite Z.shiftr_spec by lia. replace (n - k + k) with n by lia. simpl.
    destruct (Z.ltb_spec n w); [by rewrite andb_true_r|].
    rewrite andb_false_r. symmetry. destruct (decide (x = 0)) as [->|]; [apply Z.bits_0|].
    apply Z.bits_above_log2; [lia|].
    apply Z.log2_lt_pow2; [lia|]. apply Z.lt_le_trans with (2 ^ w); [lia|].
    apply Z.pow_le_mono_r; lia.
Qed.

Lemma round_mask w k n :
  0 <= k < w -> 0 <= n < 2 ^ w ->
  Z.land (wrap w (n + (2 ^ k - 1))) (wrap w (Z.lnot (2 ^ k - 1)))
  = if n + (2 ^ k - 1) <? 2 ^ w then 2 ^ k * ((n + (2 ^ k - 1)) / 2 ^ k) else 0.
Proof.
  intros Hk Hn. assert (2 ^ k < 2 ^ w) by (apply Z.pow_lt_mono_r; lia).
  assert (0 < 2 ^ k) by lia. rewrite mask_round by (lia || apply wrap_range; lia).
  destruct (Z.ltb_spec (n + (2 ^ k - 1)) (2 ^ w)); [by rewrite wrap_small by lia|].
  unfold wrap. rewrite <- (Z_mod_plus_full _ (-1)), Z.mod_small by lia.
  rewrite Z.div_small by lia. lia.
Qed.

(** Rounding is the least multiple of the alignment that holds the size, and
    zero exactly for zero and for the sizes whose rounding leaves [size_t]. *)
Lemma ROUND_TO_ALIGN_spec n :
  0 <= n <= SIZE_MAX ->
  (n + (ALIGN_SIZE - 1) <= SIZE_MAX ->
   ROUND_TO_ALIGN n = ALIGN_SIZE * ((n + (ALIGN_SIZE - 1)) / ALIGN_SIZE))
  /\ (SIZE_MAX < n + (ALIGN_SIZE - 1) -> ROUND_TO_ALIGN n = 0).
Proof.
  intros Hn. unfold ROUND_TO_ALIGN, usize, SIZE_MAX in *.
  destruct platform_cases as [[-> E]|[-> E]]; rewrite E in *;
    rewrite round_mask by lia; split; intros Hs;
    match goal with |- context [?a <? ?b] => destruct (Z.ltb_spec a b) end; lia || done.
Qed.

Definition aligned (n : Z) : Prop := n mod ALIGN_SIZE = 0.

Lemma ALIGN_SIZE_pos : 8 <= ALIGN_SIZE.
Proof. destruct platform_cases as [[-> _]|[-> _]]; lia. Qed.

Lemma ROUND_TO_ALIGN_fits n :
  0 <= n <= SIZE_MAX -> (0 =? ROUND_TO_ALIGN n) && negb (0 =? n) = false ->
  n <= ROUND_TO_ALIGN n < n + ALIGN_SIZE /\ ROUND_TO_ALIGN n <= SIZE_MAX /\ aligned (ROUND_TO_ALIGN n).
Proof.
  intros Hn Hb. pose proof ALIGN_SIZE_pos. destruct (ROUND_TO_ALIGN_spec n Hn) as [H1 H2].
  destruct (Z_le_gt_dec (n + (ALIGN_SIZE - 1)) SIZE_MAX) as [Hc|Hc].
  - rewrite (H1 Hc). unfold aligned. rewrite Z.mul_comm, Z.mod_mul by lia.
    pose proof (Z.div_mod (n + (ALIGN_SIZE - 1)) ALIGN_SIZE).
    pose proof (Z.mod_pos_bound (n + (ALIGN_SIZE - 1)) ALIGN_SIZE). lia.
  - rewrite (H2 ltac:(lia)) in Hb. destruct (Z.eqb_spec 0 n); [|done]. subst n.
    unfold SIZE_MAX in Hc. destruct platform_cases as [[E1 E2]|[E1 E2]]; rewrite E1, E2 in Hc; lia.
Qed.

Lemma aligned_add a b : aligned a -> aligned b -> aligned (a + b).
Proof.
  unfold aligned. intros Ha Hb. pose proof ALIGN_SIZE_pos.
  by rewrite Z.add_mod, Ha, Hb by lia.
Qed.

Lemma aligned_0 : aligned 0.
Proof. done. Qed.

(** ** Invariant and clients *)

(** A region of at most half of the address space, split into the allocated
    front, the free middle and the allocated end. *)
Definition pool_inv (p : MemoryPool) : Prop :=
  Z.of_nat (length (memory p)) = size p
  /\ 0 <= pos p <= end_ p /\ end_ p <= size p /\ 2 * size p <= SIZE_MAX
  /\ aligned (pos p).

(** A block handed to the client: offset and length. *)
Definition block : Type := Z * Z.

Definition block_ok (p : MemoryPool) (b : block) : Prop :=
  0 <= b.1 /\ 0 <= b.2 /\ b.1 + b.2 <= size p
  /\ (b.2 = 0 \/ (aligned b.1 /\ b.1 + b.2 <= pos p) \/ end_ p <= b.1).

Definition disjoint_blocks (b1 b2 : block) : Prop :=
  b1.2 = 0 \/ b2.2 = 0 \/ b1.1 + b1.2 <= b2.1 \/ b2.1 + b2.2 <= b1.1.

Fixpoint separated (bs : list block) : Prop :=
  match bs with
  | [] => True
  | b :: bs' => Forall (disjoint_blocks b) bs' /\ separated bs'
  end.

(** The pool with the live blocks of its client. *)
Definition client : Type := MemoryPool * list block.

Definition client_inv (c : client) : Prop :=
  pool_inv c.1 /\ Forall (block_ok c.1) c.2 /\ separated c.2.

(** The block reallocated in place keeps its address; a moved block leaves
    its old range to nobody. *)
Inductive client_step : client -> client -> Prop :=
| step_allocate p bs sz fe o p' :
    0 <= sz <= SIZE_MAX ->
    MHD_pool_allocate p sz fe = (Some o, p') ->
    client_step (p, bs) (p', (o, sz) :: bs)
| step_reallocate p bs1 o l bs2 n o' p' :
    0 <= n <= SIZE_MAX ->
    MHD_pool_reallocate p (Some o) l n = Some (Some o', p') ->
    client_step (p, bs1 ++ (o, l) :: bs2) (p', (o', n) :: bs1 ++ bs2)
| step_reallocate_null p bs n o' p' :
    0 <= n <= SIZE_MAX ->
    MHD_pool_reallocate p None 0 n = Some (Some o', p') ->
    client_step (p, bs) (p', (o', n) :: bs)
| step_write p bs o l off data m' :
    (o, l) ∈ bs -> 0 <= off -> off + Z.of_nat (length data) <= l ->
    mem_write (memory p) (o + off) data = Some m' ->
    client_step (p, bs) (with_memory p m', bs)
| step_reset p bs o l copy n o' p' :
    (o, l) ∈ bs -> 0 <= copy <= l -> copy <= n -> ROUND_TO_ALIGN n <= size p -> 0 <= n <= SIZE_MAX ->
    (0 =? ROUND_TO_ALIGN n) && negb (0 =? n) = false ->
    MHD_pool_reset p (Some o) copy n = Some (Some o', p') ->
    client_step (p, bs) (p', [(o', n)]).

Lemma disjoint_blocks_sym b1 b2 : disjoint_blocks b1 b2 -> disjoint_blocks b2 b1.
Proof. unfold disjoint_blocks. tauto. Qed.

Lemma separated_middle bs1 b bs2 :
  separated (bs1 ++ b :: bs2) <-> Forall (disjoint_blocks b) (bs1 ++ bs2) /\ separated (bs1 ++ bs2).
Proof.
  induction bs1 as [|b1 bs1 IH]; simpl; [tauto|].
  rewrite IH, !Forall_app, !Forall_cons. rewrite !Forall_app.
  split; intros; destruct_and!; split_and!; auto using disjoint_blocks_sym.
Qed.

Lemma usize_range z : 0 <= usize z <= SIZE_MAX.
Proof.
  unfold usize, SIZE_MAX. assert (0 <= SIZE_BITS) by (destruct platform_cases as [[_ ->]|[_ ->]]; lia).
  pose proof (wrap_range SIZE_BITS z ltac:(done)). lia.
Qed.

Lemma usize_le z : 0 <= z -> usize z <= z.
Proof.
  intros. apply Z.mod_le; [done|]. unfold SIZE_BITS. destruct sizeof_ptr_ok as [-> | ->]; lia.
Qed.

(** Exactly when the pool has room: the rounded size is representable and
    fits between [pos] and [end]. *)
Definition fits (p : MemoryPool) (sz : Z) : Prop :=
  sz + (ALIGN_SIZE - 1) <= SIZE_MAX /\ ROUND_TO_ALIGN sz <= end_ p - pos p.

(** The two outcomes of an allocation. *)
Lemma allocate_cases p sz fe :
  pool_inv p -> 0 <= sz <= SIZE_MAX ->
  (fits p sz /\ MHD_pool_allocate p sz fe =
     let a := ROUND_TO_ALIGN sz in
     if fe then (Some (end_ p - a), mkPool (memory p) (size p) (pos p) (end_ p - a) (is_mmap p))
     else (Some (pos p), mkPool (memory p) (size p) (pos p + a) (end_ p) (is_mmap p)))
  \/ (~ fits p sz /\ MHD_pool_allocate p sz fe = (None, p)).
Proof.
  intros (Hlen & Hpos & Hend & Hsz & Hal) Hn. unfold MHD_pool_allocate, fits.
  destruct ((0 =? ROUND_TO_ALIGN sz) && negb (0 =? sz)) eqn:E.
  - right. split; [|done]. intros [Hf _]. destruct (ROUND_TO_ALIGN_spec sz Hn) as [H1 _].
    pose proof ALIGN_SIZE_pos. rewrite (H1 Hf) in E.
    apply andb_true_iff in E as [E1 E2]. apply Z.eqb_eq in E1. destruct (Z.eqb_spec 0 sz); [done|].
    assert (1 <= (sz + (ALIGN_SIZE - 1)) / ALIGN_SIZE) by (apply Z.div_le_lower_bound; lia). nia.
  - pose proof E as E'. apply ROUND_TO_ALIGN_fits in E as (Hr1 & Hr2 & Hr3); [|done].
    destruct (Z_le_gt_dec (ROUND_TO_ALIGN sz) (end_ p - pos p)).
    + left. assert (usize (pos p + ROUND_TO_ALIGN sz) = pos p + ROUND_TO_ALIGN sz) as ->
        by (apply usize_small; lia).
      rewrite (usize_small (end_ p - ROUND_TO_ALIGN sz)) by lia.
      split; [|by replace (_ || _) with false by bcases].
      split; [|done]. destruct (Z_le_gt_dec (sz + (ALIGN_SIZE - 1)) SIZE_MAX); [done|].
      destruct (ROUND_TO_ALIGN_spec sz Hn) as [_ H2]. specialize (H2 ltac:(lia)).
      rewrite H2 in E'. simpl in E'. destruct (Z.eqb_spec 0 sz); [|done]. subst sz.
      unfold SIZE_MAX in *. destruct platform_cases as [[E1 E2]|[E1 E2]]; rewrite E1, E2 in *; lia.
    + right. split; [lia|]. replace (_ || _) with true; [done|].
      destruct (Z_le_gt_dec (pos p + ROUND_TO_ALIGN sz) SIZE_MAX).
      * rewrite usize_small by lia. bcases.
      * unfold usize, wrap. unfold SIZE_MAX in *.
        rewrite <- (Z_mod_plus_full _ (-1)), Z.mod_small by lia. bcases.
Qed.

(** What a reallocation from [p] to [p'] owes to the other live blocks and to
    the contents of the block that moved from [(o, l)] to [(o', n)]. *)
Definition realloc_post (p p' : MemoryPool) (o l o' n : Z) : Prop :=
  pool_inv p' /\ block_ok p' (o', n)
  /\ mem_read (memory p') o' (Z.min l n) = mem_read (memory p) o (Z.min l n)
  /\ forall b, block_ok p b -> disjoint_blocks b (o, l) ->
       block_ok p' b /\ disjoint_blocks (o', n) b
       /\ mem_read (memory p') b.1 b.2 = mem_read (memory p) b.1 b.2.

Ltac unfold_blocks := unfold pool_inv, block_ok, disjoint_blocks in *; simpl in *.

(** The cases of a block other than the reallocated one; leaves the goals on
    contents. *)
Ltac block_cases b Hb Hd :=
  destruct b as [bo bl]; unfold_blocks;
  destruct Hb as (? & ? & ? & [?|[[? ?]|?]]); destruct Hd as [?|[?|[?|?]]];
  split_and!; try lia;
  try solve [left; lia | right; left; split; [done|lia] | right; right; lia].

Lemma realloc_in_place p o l n :
  pool_inv p -> block_ok p (o, l) -> 0 <= n -> n <= ROUND_TO_ALIGN n -> aligned (ROUND_TO_ALIGN n) ->
  o + l = pos p -> o + ROUND_TO_ALIGN n <= end_ p ->
  ∃ m, (if ROUND_TO_ALIGN n <? l then memset (memory p) (o + ROUND_TO_ALIGN n) 0 (l - ROUND_TO_ALIGN n)
        else Some (memory p)) = Some m
    /\ realloc_post p (mkPool m (size p) (o + ROUND_TO_ALIGN n) (end_ p) (is_mmap p)) o l o n.
Proof.
  intros Hinv Hb Hn Hr Hal Ho He. set (a := ROUND_TO_ALIGN n) in *.
  assert (exists m, (if a <? l then memset (memory p) (o + a) 0 (l - a) else Some (memory p)) = Some m
    /\ length m = length (memory p)
    /\ forall o' l', l' = 0 \/ o' + l' <= o + a \/ o + l <= o' ->
         mem_read m o' l' = mem_read (memory p) o' l') as (m & -> & Hlen & Hrd).
  { destruct (Z.ltb_spec a l); [|eauto].
    destruct (memset_Some (memory p) (o + a) 0 (l - a)) as (m & -> & ? & Hm); unfold_blocks; [lia..|].
    exists m. split_and!; [done|done|]. intros. apply Hm. lia. }
  exists m. split; [done|]. assert (aligned o).
  { unfold_blocks. destruct Hb as (? & ? & ? & [?|[[? _]|?]]); [|done|].
    - replace o with (pos p) by lia. tauto.
    - replace o with (pos p) by lia. tauto. }
  split; [|split; [|split]].
  - unfold_blocks. rewrite Hlen. split_and!; [lia..|]. apply aligned_add; tauto.
  - unfold_blocks. split_and!; [lia..|]. right; left. split; [done|lia].
  - simpl. apply Hrd. lia.
  - intros b Hbb Hd. block_cases b Hbb Hd; apply Hrd; lia.
Qed.

Lemma realloc_move p o l n :
  pool_inv p -> block_ok p (o, l) -> 0 <= n -> n <= ROUND_TO_ALIGN n -> aligned (ROUND_TO_ALIGN n) ->
  l < ROUND_TO_ALIGN n -> pos p + ROUND_TO_ALIGN n <= end_ p ->
  ∃ m, (if negb (0 =? l) then memmove (memory p) (pos p) o l else Some (memory p)) = Some m
    /\ realloc_post p (mkPool m (size p) (pos p + ROUND_TO_ALIGN n) (end_ p) (is_mmap p)) o l (pos p) n.
Proof.
  intros Hinv Hb Hn Hr Hal Hl He. set (a := ROUND_TO_ALIGN n) in *.
  assert (exists m, (if negb (0 =? l) then memmove (memory p) (pos p) o l else Some (memory p)) = Some m
    /\ length m = length (memory p)
    /\ mem_read m (pos p) (Z.min l n) = mem_read (memory p) o (Z.min l n)
    /\ forall o' l', l' = 0 \/ o' + l' <= pos p \/ end_ p <= o' ->
         mem_read m o' l' = mem_read (memory p) o' l') as (m & -> & Hlen & Hcp & Hrd).
  { destruct (Z.eqb_spec 0 l) as [<-|].
    - exists (memory p). split_and!; [done|done| |done]. rewrite Z.min_l by lia.
      unfold_blocks. unfold mem_read. rewrite !(proj2 (in_object_true _ _ _)) by lia. done.
    - destruct (memmove_Some (memory p) (pos p) o l) as (m & -> & ? & Hc & Hm); unfold_blocks; [lia..|].
      exists m. split_and!; [done|done| |intros; apply Hm; lia].
      apply (mem_read_prefix _ _ _ _ l); [done| |lia].
      destruct (mem_read_Some m (pos p) l) as (bs & -> & _); [lia..|done]. }
  exists m. split; [done|]. split; [|split; [|split]].
  - unfold_blocks. rewrite Hlen. split_and!; [lia..|]. apply aligned_add; tauto.
  - unfold_blocks. split_and!; [lia..|]. right; left. split; [tauto|lia].
  - done.
  - intros b Hbb Hd. block_cases b Hbb Hd; apply Hrd; lia.
Qed.

(** A reallocation of a live block is never undefined; it fails without any
    change, or delivers the block with its contents. *)
Lemma reallocate_live p o l n :
  pool_inv p -> block_ok p (o, l) -> 0 <= n <= SIZE_MAX ->
  ∃ r p', MHD_pool_reallocate p (Some o) l n = Some (r, p')
    /\ match r with
       | None => p' = p
       | Some o' => realloc_post p p' o l o' n
       end.
Proof.
  intros Hinv Hb Hn. unfold MHD_pool_reallocate.
  destruct ((0 =? ROUND_TO_ALIGN n) && negb (0 =? n)) eqn:E; [by eexists None, p|].
  apply ROUND_TO_ALIGN_fits in E as (Hr1 & Hr2 & Hr3); [|done].
  destruct (Z.ltb_spec (end_ p) l); [by eexists None, p|].
  destruct (Z.ltb_spec (end_ p) (ROUND_TO_ALIGN n)); [by eexists None, p|]. simpl.
  assert (Hinv' := Hinv). destruct Hinv' as (Hlen & Hpos & Hend & Hsz & Hal).
  pose proof (proj1 (proj2 Hb)) as Hl0. simpl in Hl0.
  rewrite !(usize_small (pos p + _)) by lia.
  destruct ((pos p >=? l) && bool_decide (Some (pos p - l) = Some o)) eqn:E.
  - apply andb_true_iff in E as [Eg Ee]. apply bool_decide_eq_true in Ee. injection Ee as Ee.
    rewrite Z.geb_leb, Z.leb_le in Eg. rewrite usize_small by lia.
    destruct (Z.leb_spec (pos p + ROUND_TO_ALIGN n - l) (end_ p)); [|by eexists None, p].
    unfold usize. rewrite wrap_add_r. fold (usize (pos p + (ROUND_TO_ALIGN n - l))).
    rewrite usize_small by lia. replace (pos p + (ROUND_TO_ALIGN n - l)) with (o + ROUND_TO_ALIGN n) by lia.
    destruct (realloc_in_place p o l n) as (m & -> & Hpost); [done|done|lia|lia|done|lia|lia|].
    simpl. by eexists (Some o), _.
  - destruct (Z.leb_spec (ROUND_TO_ALIGN n) l).
    + eexists (Some o), p. split; [done|]. split; [done|]. split; [|split].
      * unfold_blocks. split_and!; [lia..|].
        destruct Hb as (? & ? & ? & [?|[[? ?]|?]]); [left; lia|right; left; split; [done|lia]|lia].
      * done.
      * intros b Hbb Hd. by block_cases b Hbb Hd.
    + destruct (Z.leb_spec (pos p + ROUND_TO_ALIGN n) (end_ p)); [|rewrite andb_false_r; by eexists None, p].
      rewrite Z.geb_leb. rewrite (proj2 (Z.leb_le (pos p) _)) by lia. simpl.
      destruct (realloc_move p o l n) as (m & Em & Hpost); [done|done|lia|lia|done|lia|lia|].
      rewrite Em. simpl. by eexists (Some (pos p)), _.
Qed.

Lemma fits_round p sz :
  0 <= sz <= SIZE_MAX -> fits p sz ->
  sz <= ROUND_TO_ALIGN sz < sz + ALIGN_SIZE /\ aligned (ROUND_TO_ALIGN sz)
  /\ ROUND_TO_ALIGN sz <= end_ p - pos p
  /\ (0 =? ROUND_TO_ALIGN sz) && negb (0 =? sz) = false.
Proof.
  intros Hsz [Hf He]. pose proof ALIGN_SIZE_pos.
  assert ((0 =? ROUND_TO_ALIGN sz) && negb (0 =? sz) = false) as E.
  { rewrite (proj1 (ROUND_TO_ALIGN_spec sz Hsz) Hf).
    destruct (Z.eqb_spec 0 sz); [by rewrite andb_false_r|]. simpl.
    assert (1 <= (sz + (ALIGN_SIZE - 1)) / ALIGN_SIZE) by (apply Z.div_le_lower_bound; lia).
    destruct (Z.eqb_spec 0 (ALIGN_SIZE * ((sz + (ALIGN_SIZE - 1)) / ALIGN_SIZE))); [nia|done]. }
  destruct (ROUND_TO_ALIGN_fits sz Hsz E) as (? & ? & ?). done.
Qed.

(** A successful allocation delivers a fresh block; nothing else changes. *)
Lemma allocate_post p sz fe o p' :
  pool_inv p -> 0 <= sz <= SIZE_MAX -> MHD_pool_allocate p sz fe = (Some o, p') ->
  pool_inv p' /\ block_ok p' (o, sz) /\ memory p' = memory p /\ size p' = size p
  /\ (fe = false -> aligned o)
  /\ forall b, block_ok p b -> block_ok p' b /\ disjoint_blocks (o, sz) b.
Proof.
  intros Hinv Hsz Ha. destruct (allocate_cases p sz fe Hinv Hsz) as [[Hf E]|[_ E]];
    rewrite E in Ha; [|done].
  destruct (fits_round p sz Hsz Hf) as (Hr & Hal & He & _).
  assert (Hinv' := Hinv). destruct Hinv' as (Hlen & Hpos & Hend & Hs & Hpal).
  destruct fe; injection Ha as <- <-; split_and!; try done.
  - unfold_blocks. split_and!; lia || done.
  - unfold_blocks. lia.
  - intros [bo bl] (? & ? & ? & [?|[[? ?]|?]]); unfold_blocks; split_and!;
      try lia; solve [left; lia | right; left; split; [done|lia] | right; right; lia].
  - unfold_blocks. split_and!; [lia..|]. by apply aligned_add.
  - unfold_blocks. split_and!; [lia..|]. right; left. split; [done|lia].
  - intros [bo bl] (? & ? & ? & [?|[[? ?]|?]]); unfold_blocks; split_and!;
      try lia; solve [left; lia | right; left; split; [done|lia] | right; right; lia].
Qed.

(** Reallocating the null pointer is an allocation from the front. *)
Lemma reallocate_null p n :
  pool_inv p -> 0 <= n <= SIZE_MAX -> n ≠ 0 ->
  MHD_pool_reallocate p None 0 n = Some (MHD_pool_allocate p n false).
Proof.
  intros Hinv Hn Hn0. destruct (allocate_cases p n false Hinv Hn) as [[Hf ->]|[Hf ->]];
    unfold MHD_pool_reallocate; assert (Hinv' := Hinv);
    destruct Hinv' as (Hlen & Hpos & Hend & Hs & Hpal).
  - destruct (fits_round p n Hn Hf) as (Hr & Hal & He & ->).
    replace ((end_ p <? 0) || (end_ p <? ROUND_TO_ALIGN n)) with false by bcases.
    rewrite (bool_decide_eq_false_2 (Some _ = None)), andb_false_r by done.
    rewrite usize_small by lia. destruct (Z.leb_spec (ROUND_TO_ALIGN n) 0); [lia|].
    by replace ((pos p + ROUND_TO_ALIGN n >=? pos p) && (pos p + ROUND_TO_ALIGN n <=? end_ p))
      with true by bcases.
  - destruct ((0 =? ROUND_TO_ALIGN n) && negb (0 =? n)) eqn:E; [done|].
    destruct (ROUND_TO_ALIGN_fits n Hn E) as (? & ? & ?).
    destruct (_ || _) eqn:E2; [done|]. apply orb_false_iff in E2 as [_ E2]. rewrite Z.ltb_ge in E2.
    rewrite (bool_decide_eq_false_2 (Some _ = None)), andb_false_r by done.
    destruct (Z.leb_spec (ROUND_TO_ALIGN n) 0); [lia|].
    rewrite usize_small by lia.
    replace (pos p + ROUND_TO_ALIGN n <=? end_ p) with false; [by rewrite andb_false_r|].
    symmetry. apply Z.leb_gt. unfold fits in Hf.
    destruct (Z_le_gt_dec (n + (ALIGN_SIZE - 1)) SIZE_MAX); [lia|].
    rewrite (proj2 (ROUND_TO_ALIGN_spec n Hn)) in *; lia.
Qed.

Lemma ROUND_TO_ALIGN_0 : ROUND_TO_ALIGN 0 = 0.
Proof.
  unfold ROUND_TO_ALIGN, usize. destruct platform_cases as [[-> ->]|[-> ->]]; reflexivity.
Qed.

Lemma reallocate_null_0 p : pool_inv p -> MHD_pool_reallocate p None 0 0 = Some (None, p).
Proof.
  intros (_ & ? & _). unfold MHD_pool_reallocate. rewrite ROUND_TO_ALIGN_0. simpl.
  destruct (_ || _); [done|]. by rewrite bool_decide_eq_false_2, andb_false_r by done.
Qed.

(** Resetting to a live block. *)
Lemma reset_keep p o copy n :
  pool_inv p -> 0 <= copy -> 0 <= o -> o + copy <= size p ->
  ∃ p', MHD_pool_reset p (Some o) copy n = Some (Some 0, p')
    /\ pos p' = ROUND_TO_ALIGN n /\ end_ p' = size p /\ size p' = size p
    /\ Z.of_nat (length (memory p')) = size p
    /\ mem_read (memory p') 0 copy = mem_read (memory p) o copy
    /\ mem_read (memory p') copy (size p - copy)
       = Some (replicate (Z.to_nat (size p - copy)) 0).
Proof.
  intros (Hlen & Hpos & Hend & Hs & Hpal) Hc Ho Hoc. unfold MHD_pool_reset.
  assert (∃ m1, (if negb (o =? 0) && negb (0 =? copy) then memmove (memory p) 0 o copy else Some (memory p)) = Some m1
    /\ length m1 = length (memory p) /\ mem_read m1 0 copy = mem_read (memory p) o copy)
    as (m1 & -> & Hl1 & Hr1).
  { destruct (Z.eqb_spec o 0) as [->|]; [eauto|]. destruct (Z.eqb_spec 0 copy) as [<-|].
    - exists (memory p). split_and!; [done..|]. unfold mem_read.
      rewrite !(proj2 (in_object_true _ _ _)) by lia. done.
    - destruct (memmove_Some (memory p) 0 o copy) as (m1 & -> & ? & ? & _); [lia..|]. eauto. }
  cbn [mbind option_bind]. destruct (Z.gtb_spec (size p) copy).
  - destruct (memset_Some m1 copy 0 (size p - copy)) as (m2 & E2 & Hl2 & Hr2); [lia..|].
    rewrite E2. eexists. split; [done|]. simpl. split_and!; [done..|lia| |].
    + rewrite <- Hr1. apply Hr2. lia.
    + unfold memset in E2. rewrite (proj2 (in_object_true _ _ _)) in E2 by lia.
      apply mem_write_read in E2. rewrite length_replicate in E2. by rewrite Z2Nat.id in E2 by lia.
  - eexists. split; [done|]. simpl. split_and!; [done..|lia|done|].
    replace (size p - copy) with 0 by lia. unfold mem_read.
    by rewrite (proj2 (in_object_true _ _ _)) by lia.
Qed.

Lemma client_step_inv c c' : client_inv c -> client_step c c' -> client_inv c'.
Proof.
  intros (Hinv & Hbs & Hsep) Hst. unfold client_inv.
  destruct Hst as [p bs sz fe o p' Hsz Ha|p bs1 o l bs2 n o' p' Hn Ha|p bs n o' p' Hn Ha
    |p bs o l off data m' Hin Hoff Hlen Hw|p bs o l copy n o' p' Hin Hc Hcn Hr Hn Hz Ha]; simpl in *.
  - destruct (allocate_post p sz fe o p' Hinv Hsz Ha) as (? & ? & _ & _ & _ & Hb).
    split_and!; [done| |  |done].
    + constructor; [done|]. eapply Forall_impl; [exact Hbs|]. apply Hb.
    + eapply Forall_impl; [exact Hbs|]. apply Hb.
  - apply Forall_app in Hbs as [Hb1 Hb2]. apply Forall_cons in Hb2 as [Hb Hb2].
    apply separated_middle in Hsep as [Hd Hsep].
    destruct (reallocate_live p o l n Hinv Hb Hn) as (r & q & E & Hpost).
    rewrite E in Ha. injection Ha as -> ->. destruct Hpost as (Hi & Hbk & _ & Hoth).
    assert (Forall (λ b, block_ok p' b /\ disjoint_blocks (o', n) b) (bs1 ++ bs2)) as Hall.
    { apply Forall_forall. intros b Hb'. rewrite Forall_forall in Hd.
      destruct (Hoth b) as (? & ? & _); [|by apply disjoint_blocks_sym, Hd|done].
      apply elem_of_app in Hb' as [Hb'|Hb']; rewrite Forall_forall in Hb1, Hb2; auto. }
    split_and!; [done| | |done].
    + constructor; [done|]. eapply Forall_impl; [exact Hall|]. by intros ? [? _].
    + eapply Forall_impl; [exact Hall|]. by intros ? [_ ?].
  - destruct (decide (n = 0)) as [->|Hn0].
    { by rewrite reallocate_null_0 in Ha. }
    rewrite reallocate_null in Ha by done. injection Ha as Ha.
    destruct (allocate_post p n false o' p' Hinv Hn Ha) as (? & ? & _ & _ & _ & Hb).
    split_and!; [done| | |done].
    + constructor; [done|]. eapply Forall_impl; [exact Hbs|]. apply Hb.
    + eapply Forall_impl; [exact Hbs|]. apply Hb.
  - unfold mem_write in Hw. case_match; [|done]. injection Hw as <-.
    rewrite in_object_true in H0.
    split_and!; [|done|done]. destruct Hinv as (? & ?). split; [|done]. simpl.
    rewrite !length_app, length_take, length_drop. lia.
  - rewrite Forall_forall in Hbs. specialize (Hbs _ Hin) as (? & ? & ? & _). simpl in *.
    destruct (reset_keep p o copy n Hinv) as (q & E & Hp & He & Hs & Hl & _); [lia..|].
    rewrite E in Ha. injection Ha as <- ->.
    destruct (ROUND_TO_ALIGN_fits n Hn Hz) as (? & ? & ?).
    destruct Hinv as (? & ? & ? & ? & ?).
    split_and!; [|constructor; [|done]|done|done].
    + unfold pool_inv. rewrite Hp, He, Hs. split_and!; lia || done.
    + unfold block_ok. simpl. rewrite Hp, He, Hs. split_and!; [lia..|]. right; left. split; [done|lia].
Qed.

Definition client_reachable (env : pool_env) (max : Z) (c : client) : Prop :=
  ∃ p, MHD_pool_create env max = Some p /\ rtc client_step (p, []) c.

(** The system's promise on a region: it has the requested size. *)
Definition env_ok (env : pool_env) (max : Z) : Prop :=
  (forall m, mmap_ret env = Some m -> Z.of_nat (length m) = max)
  /\ (forall m, malloc_ret env = Some m -> Z.of_nat (length m) = max).

Lemma create_inv env max p :
  env_ok env max -> 0 <= max -> 2 * max <= SIZE_MAX ->
  MHD_pool_create env max = Some p -> client_inv (p, []).
Proof.
  intros [Hm1 Hm2] H0 H1 Hc. unfold MHD_pool_create in Hc.
  assert (∃ m b, p = mkPool m max 0 max b /\ Z.of_nat (length m) = max) as (m & b & -> & Hl).
  { repeat case_match; simplify_eq; eauto. }
  split; [|done]. unfold pool_inv. simpl. split_and!; try lia. apply aligned_0.
Qed.

(** C27: Memory safety of the pool's clients.  Whatever sequence of
    allocations, reallocations, writes inside live blocks and resets a
    connection performs on a pool it created, the pool's bookkeeping stays
    inside its region and aligned, every live block lies inside the region,
    and no two live blocks overlap. *)
Theorem pool_clients_never_overlap env max c :
  env_ok env max -> 0 <= max -> 2 * max <= SIZE_MAX ->
  client_reachable env max c -> client_inv c.
Proof.
  intros He H0 H1 (p & Hc & Hr). assert (client_inv (p, [])) as Hi by (eapply create_inv; eauto).
  clear Hc. remember (p, []) as c0. clear Heqc0. induction Hr as [|c1 c2 c3 Hs _ IH]; [done|].
  apply IH. by eapply client_step_inv.
Qed.

(** Allocation succeeds exactly when the rounded request is representable
    and fits into the free middle, and then takes exactly the rounded size
    from the chosen side; otherwise the pool is unchanged.  No sum wraps
    unnoticed, for requests up to [SIZE_MAX]. *)
Theorem pool_allocate_correct p sz fe :
  pool_inv p -> 0 <= sz <= SIZE_MAX ->
  (fits p sz ->
     sz <= ROUND_TO_ALIGN sz < sz + ALIGN_SIZE
     /\ MHD_pool_allocate p sz fe =
       (Some (if fe then end_ p - ROUND_TO_ALIGN sz else pos p),
        mkPool (memory p) (size p)
          (if fe then pos p else pos p + ROUND_TO_ALIGN sz)
          (if fe then end_ p - ROUND_TO_ALIGN sz else end_ p) (is_mmap p))
     /\ MHD_pool_get_free (MHD_pool_allocate p sz fe).2 = MHD_pool_get_free p - ROUND_TO_ALIGN sz)
  /\ (~ fits p sz -> MHD_pool_allocate p sz fe = (None, p)).
Proof.
  intros Hinv Hsz. assert (Hi := Hinv). destruct Hi as (? & ? & ? & ? & ?).
  destruct (allocate_cases p sz fe Hinv Hsz) as [[Hf E]|[Hf E]]; split; intros Hf'; try done.
  destruct (fits_round p sz Hsz Hf) as (? & ? & ? & _).
  split; [done|]. rewrite E. split; [by destruct fe|].
  unfold MHD_pool_get_free. destruct fe; simpl; rewrite !usize_small by lia; lia.
Qed.

(** Reallocating a live block is never undefined behaviour.  On failure
    the pool is unchanged; on success the block keeps the bytes that fit its
    new size, and every other live block keeps its place and contents and
    does not overlap it. *)
Theorem pool_reallocate_correct p o l n :
  pool_inv p -> block_ok p (o, l) -> 0 <= n <= SIZE_MAX ->
  ∃ r p', MHD_pool_reallocate p (Some o) l n = Some (r, p')
    /\ match r with None => p' = p | Some o' => realloc_post p p' o l o' n end.
Proof. apply reallocate_live. Qed.

(** Resetting the pool to a live block moves the kept bytes to the start
    of the region, clears everything behind them and makes the rest of the
    region available again. *)
Theorem pool_reset_correct p o copy n :
  pool_inv p -> 0 <= copy -> 0 <= o -> o + copy <= size p ->
  ∃ p', MHD_pool_reset p (Some o) copy n = Some (Some 0, p')
    /\ pos p' = ROUND_TO_ALIGN n /\ end_ p' = size p
    /\ mem_read (memory p') 0 copy = mem_read (memory p) o copy
    /\ mem_read (memory p') copy (size p - copy) = Some (replicate (Z.to_nat (size p - copy)) 0).
Proof.
  intros Hinv Hc Ho Hoc. destruct (reset_keep p o copy n Hinv Hc Ho Hoc)
    as (p' & E & H1 & H2 & _ & _ & H3 & H4). eauto 10.
Qed.

(** Resetting without a block to keep clears the bytes of the whole
    region but leaves [pos] where it was: the front of the region stays
    allocated, although no entry is kept. *)
Theorem pool_reset_null_keeps_pos p n :
  pool_inv p -> 0 < size p ->
  ∃ p', MHD_pool_reset p None 0 n = Some (None, p')
    /\ mem_read (memory p') 0 (size p) = Some (replicate (Z.to_nat (size p)) 0)
    /\ pos p' = pos p /\ MHD_pool_get_free p' = size p - pos p.
Proof.
  intros (Hlen & Hpos & Hend & Hs & Hpal) Hz. unfold MHD_pool_reset. cbn [mbind option_bind].
  destruct (Z.gtb_spec (size p) 0); [|lia]. rewrite Z.sub_0_r.
  destruct (memset_Some (memory p) 0 0 (size p)) as (m2 & E2 & _ & _); [lia..|].
  rewrite E2. eexists. split; [done|]. simpl. split_and!; [|done|].
  - unfold memset in E2. rewrite (proj2 (in_object_true _ _ _)) in E2 by lia.
    apply mem_write_read in E2. rewrite length_replicate in E2. by rewrite Z2Nat.id in E2 by lia.
  - unfold MHD_pool_get_free. simpl. apply usize_small. lia.
Qed.

(** A pool is destroyed by the operation that matches its creation. *)
Theorem pool_create_destroy env max p :
  MHD_pool_create env max = Some p ->
  (is_mmap p = true <-> 32 * 1024 < max /\ is_Some (mmap_ret env))
  /\ MHD_pool_destroy (Some p) =
     [if is_mmap p then Unmap_memory max else Free_memory; Free_control].
Proof.
  unfold MHD_pool_create, MHD_pool_destroy.
  destruct (malloc_control env); [|done]. cbn [negb]. destruct (Z.leb_spec max (32 * 1024)).
  - destruct (malloc_ret env); [|done]. intros [= <-]. simpl. split; [|done]. split; [done|lia].
  - destruct (mmap_ret env) as [m|]; [intros [= <-]; simpl; split; [|done]; split; eauto|].
    destruct (malloc_ret env); [|done]. intros [= <-]. simpl. split; [|done].
    split; [done|]. by intros [_ [? ?]].
Qed.
End Pool.

(** ** Witnesses on a small pool *)

Definition demo_env : pool_env :=
  {| malloc_control := true; mmap_ret := None; malloc_ret := Some (replicate 64 7) |}.

Definition demo_pool : MemoryPool := mkPool (replicate 64 7) 64 16 64 false.

Lemma demo_pool_inv : pool_inv (H := LP64) demo_pool.
Proof. unfold pool_inv. simpl. split_and!; lia || reflexivity || (vm_compute; discriminate). Defined.

Lemma pool_clients_never_overlap_witness :
  client_inv (H := LP64) (mkPool (replicate 64 7) 64 16 32 false, [(32, 20); (0, 10)]).
Proof.
  apply (pool_clients_never_overlap (H := LP64) demo_env 64).
  - split; intros m [= <-]. reflexivity.
  - lia.
  - vm_compute. discriminate.
  - eexists. split; [reflexivity|].
    eapply rtc_l; [eapply (step_allocate _ _ 10 false); [vm_compute; split; discriminate|reflexivity]|].
    eapply rtc_l; [eapply (step_allocate _ _ 20 true); [vm_compute; split; discriminate|reflexivity]|].
    apply rtc_refl.
Defined.

Lemma pool_allocate_correct_witness :
  MHD_pool_allocate (H := LP64) demo_pool 17 false
  = (Some 16, mkPool (replicate 64 7) 64 48 64 false).
Proof.
  destruct (pool_allocate_correct (H := LP64) demo_pool 17 false demo_pool_inv
              ltac:(vm_compute; split; discriminate)) as [E _].
  destruct E as (_ & E & _); [split; vm_compute; discriminate|]. exact E.
Defined.

Lemma pool_reallocate_correct_witness :
  ∃ r p', MHD_pool_reallocate (H := LP64) demo_pool (Some 0) 16 32 = Some (r, p')
    /\ match r with None => p' = demo_pool | Some o' => realloc_post (H := LP64) demo_pool p' 0 16 o' 32 end.
Proof.
  apply (pool_reallocate_correct (H := LP64) demo_pool 0 16 32 demo_pool_inv).
  - unfold block_ok. simpl. split_and!; [lia..|]. right; left. split; [reflexivity|lia].
  - vm_compute. split; discriminate.
Defined.

Lemma pool_reset_correct_witness :
  ∃ p', MHD_pool_reset (H := LP64) demo_pool (Some 16) 8 32 = Some (Some 0, p')
    /\ pos p' = ROUND_TO_ALIGN (H := LP64) 32 /\ end_ p' = 64
    /\ mem_read (memory p') 0 8 = mem_read (memory demo_pool) 16 8
    /\ mem_read (memory p') 8 (64 - 8) = Some (replicate (Z.to_nat (64 - 8)) 0).
Proof. apply (pool_reset_correct (H := LP64) demo_pool 16 8 32 demo_pool_inv); simpl; lia. Defined.

Lemma pool_reset_null_keeps_pos_witness :
  ∃ p', MHD_pool_reset (H := LP64) demo_pool None 0 0 = Some (None, p')
    /\ mem_read (memory p') 0 64 = Some (replicate (Z.to_nat 64) 0)
    /\ pos p' = 16 /\ MHD_pool_get_free (H := LP64) p' = 64 - 16.
Proof. apply (pool_reset_null_keeps_pos (H := LP64) demo_pool 0 demo_pool_inv). simpl. lia. Defined.

Lemma pool_create_destroy_witness :
  MHD_pool_destroy (MHD_pool_create demo_env 64) = [Free_memory; Free_control].
Proof. exact (proj2 (pool_create_destroy demo_env 64 _ eq_refl)). Defined.
