(* ===== verification/HashStream.v ===== *)
(** * Streaming hashes: the interface of the digest algorithms

    Both hash functions of the library cut their input into 64-byte blocks,
    fold a compression function over them and keep the incomplete last block
    in their context.  This file has the block arithmetic they share, and the
    interface through which digest authentication uses them: the function
    pointers of [struct DigestAlgorithm] with the law that a digest depends
    only on the concatenation of the updates. *)

From S2P Require Import Prelude.

(** ** Folding a compression function over the blocks of a message *)

Section Blocks.
Context {St : Type} (compress : St -> bytes -> St).

Fixpoint fold_blocks (n : nat) (s : St) (l : bytes) : St :=
  match n with
  | O => s
  | S n' => fold_blocks n' (compress s (take 64 l)) (drop 64 l)
  end.

(** The state after the complete blocks of [l], and the bytes left over. *)
Definition absorbed (s : St) (l : bytes) : St := fold_blocks (length l / 64) s l.

Definition pending (l : bytes) : bytes := drop (64 * (length l / 64)) l.

Lemma length_pending (l : bytes) : length (pending l) = (length l mod 64)%nat.
Proof. unfold pending. rewrite length_drop. pose proof (Nat.div_mod_eq (length l) 64). lia. Qed.

Lemma length_pending_lt (l : bytes) : (length (pending l) < 64)%nat.
Proof. rewrite length_pending. apply Nat.mod_upper_bound. lia. Qed.

Lemma absorbed_short s l : (length l < 64)%nat -> absorbed s l = s.
Proof. intros. unfold absorbed. by rewrite Nat.div_small. Qed.

Lemma pending_short (l : bytes) : (length l < 64)%nat -> pending l = l.
Proof. intros. unfold pending. by rewrite Nat.div_small. Qed.

Lemma div64_block (b l : bytes) : length b = 64%nat -> (length (b ++ l) / 64 = S (length l / 64))%nat.
Proof.
  intros Hb. rewrite length_app, Hb. change (64 + length l)%nat with (1 * 64 + length l)%nat.
  rewrite Nat.div_add_l by lia. lia.
Qed.

Lemma mod64_block n : ((64 + n) mod 64 = n mod 64)%nat.
Proof. replace (64 + n)%nat with (n + 1 * 64)%nat by lia. apply Nat.Div0.mod_add. Qed.

Lemma absorbed_block s b l : length b = 64%nat -> absorbed s (b ++ l) = absorbed (compress s b) l.
Proof.
  intros Hb. unfold absorbed. rewrite div64_block by done. simpl.
  by rewrite take_app_length', drop_app_length'.
Qed.

Lemma pending_block (b l : bytes) : length b = 64%nat -> pending (b ++ l) = pending l.
Proof.
  intros Hb. unfold pending. rewrite div64_block by done.
  replace (64 * S (length l / 64))%nat with (length b + 64 * (length l / 64))%nat by lia.
  by rewrite <- drop_drop, drop_app_length.
Qed.

(** Induction on a message, block by block. *)
Lemma blocks_ind (P : bytes -> Prop) :
  (forall l : bytes, (length l < 64)%nat -> P l) ->
  (forall b l : bytes, length b = 64%nat -> P l -> P (b ++ l)) -> forall l, P l.
Proof.
  intros H0 H1 l. remember (length l) as n eqn:En. revert l En.
  induction (lt_wf n) as [n _ IH]. intros l En. destruct (decide (n < 64)%nat); [apply H0; lia|].
  rewrite <- (take_drop 64 l). apply H1; [rewrite length_take; lia|].
  apply (IH (length (drop 64 l))); [rewrite length_drop; lia|done].
Qed.

(** What one update adds to the digested message [m]: it stays in the
    incomplete block, or completes it. *)
Lemma absorb_more_short s m l :
  (length m mod 64 + length l < 64)%nat ->
  absorbed s (m ++ l) = absorbed s m /\ pending (m ++ l) = pending m ++ l.
Proof.
  revert s. induction m as [m Hm|b m Hb IH] using blocks_ind; intros s Hl.
  - rewrite Nat.mod_small in Hl by done.
    rewrite !absorbed_short, !pending_short; rewrite ?length_app; lia || done.
  - rewrite length_app, Hb in Hl. rewrite <- app_assoc, !(absorbed_block s b), !(pending_block b) by done.
    apply IH. by rewrite mod64_block in Hl.
Qed.

Lemma absorb_more_block s m l :
  (64 <= length m mod 64 + length l)%nat ->
  let need := (64 - length m mod 64)%nat in
  absorbed s (m ++ l) = absorbed (compress (absorbed s m) (pending m ++ take need l)) (drop need l)
  /\ pending (m ++ l) = pending (drop need l)
  /\ length (pending m ++ take need l) = 64%nat.
Proof.
  intros Hl need. revert s Hl. subst need. induction m as [m Hm|b m Hb IH] using blocks_ind; intros s Hl.
  - rewrite Nat.mod_small in * by done. rewrite (absorbed_short s m), (pending_short m) by done.
    assert (length (m ++ take (64 - length m) l) = 64%nat) as Hb
      by (rewrite length_app, length_take; lia).
    split_and!; [| |done].
    + rewrite <- (absorbed_block s _ (drop (64 - length m) l) Hb). by rewrite <- app_assoc, take_drop.
    + rewrite <- (pending_block _ (drop (64 - length m) l) Hb). by rewrite <- app_assoc, take_drop.
  - assert (length (b ++ m) mod 64 = length m mod 64)%nat as Em.
    { rewrite length_app, Hb. apply mod64_block. }
    rewrite Em in *. rewrite <- app_assoc, !(absorbed_block s b), !(pending_block b) by done. by apply IH.
Qed.

Lemma absorb_aligned s m l :
  (length m mod 64 = 0)%nat ->
  absorbed s (m ++ l) = absorbed (absorbed s m) l /\ pending (m ++ l) = pending l.
Proof.
  revert s. induction m as [m Hm|b m Hb IH] using blocks_ind; intros s Hl.
  - rewrite Nat.mod_small in Hl by done. destruct m; [done|]. simpl in Hl. lia.
  - rewrite length_app, Hb, mod64_block in Hl.
    rewrite <- app_assoc, !(absorbed_block s b), !(pending_block b) by done. by apply IH.
Qed.
End Blocks.

(** ** The interface *)

(** [struct DigestAlgorithm]: the operations on a context.  [None] is
    undefined behaviour inside the implementation. *)
Record hash_ops (ctx : Type) := {
  digest_size : nat;
  hash_init : ctx -> ctx;
  hash_update : ctx -> bytes -> option ctx;
  hash_digest : ctx -> option (bytes * ctx)
}.
Arguments digest_size {ctx} _.
Arguments hash_init {ctx} _ _.
Arguments hash_update {ctx} _ _ _.
Arguments hash_digest {ctx} _ _.

(** A sequence of updates. *)
Fixpoint hash_updates {ctx} (ops : hash_ops ctx) (c : ctx) (chunks : list bytes) : option ctx :=
  match chunks with
  | [] => Some c
  | l :: chunks' => c' ← hash_update ops c l; hash_updates ops c' chunks'
  end.

(** What an algorithm promises: some function [hash_of] of messages such that
    initialising, updating with any chunks and finishing delivers it, without
    undefined behaviour and whatever the context held before. *)
Class LawfulHash {ctx} (ops : hash_ops ctx) (valid : ctx -> Prop) := {
  hash_of : bytes -> bytes;
  hash_of_length : forall m, length (hash_of m) = digest_size ops;
  hash_of_bytes : forall m, Forall is_byte (hash_of m);
  hash_stream : forall c chunks, valid c -> Forall (Forall is_byte) chunks ->
    ∃ c' c'', hash_updates ops (hash_init ops c) chunks = Some c'
      /\ hash_digest ops c' = Some (hash_of (concat chunks), c'') /\ valid c''
}.
