(* ===== verification/Md5.v ===== *)
(** * MD5 (libmicrohttpd/src/microhttpd/md5.c, md5.h)

    The context with its bit count and buffer, the transformation of a block
    as the straight-line program of the source, padding and output; and the
    algorithm of RFC 1321 it implements.  The context argument of the
    operations is the object the callers pass by address; their checks for a
    null context return without any effect. *)

From S2P Require Import Prelude HashStream.

(** ** The transformation *)

(** The [uint32_t] variables [a], [b], [c], [d], also the words of
    [state[4]]. *)
Record md5_regs := mkRegs { va : Z; vb : Z; vc : Z; vd : Z }.

Inductive md5_reg := Ra | Rb | Rc | Rd.

Definition get_reg (r : md5_regs) (x : md5_reg) : Z :=
  match x with Ra => va r | Rb => vb r | Rc => vc r | Rd => vd r end.

Definition set_reg (r : md5_regs) (x : md5_reg) (v : Z) : md5_regs :=
  match x with
  | Ra => mkRegs v (vb r) (vc r) (vd r)
  | Rb => mkRegs (va r) v (vc r) (vd r)
  | Rc => mkRegs (va r) (vb r) v (vd r)
  | Rd => mkRegs (va r) (vb r) (vc r) v
  end.

(** The four core functions. *)
Inductive md5_fun := F1 | F2 | F3 | F4.

Definition F1_ (x y z : Z) : Z := Z.lxor z (Z.land x (Z.lxor y z)).

Definition md5_f (f : md5_fun) (x y z : Z) : Z :=
  match f with
  | F1 => F1_ x y z
  | F2 => F1_ z x y
  | F3 => Z.lxor (Z.lxor x y) z
  | F4 => Z.lxor y (Z.lor x (u32 (Z.lnot z)))
  end.

(** One line of the transformation:
    [MD5STEP (f, w, x, y, z, in[i] + k, s)]. *)
Inductive md5_instr := MD5STEP (f : md5_fun) (w x y z : md5_reg) (i : nat) (k s : Z).

Definition exec_step (inp : list Z) (r : md5_regs) (c : md5_instr) : md5_regs :=
  match c with
  | MD5STEP f w x y z i k s =>
      let data := u32 (nth i inp 0 + k) in
      let v := u32 (get_reg r w + u32 (md5_f f (get_reg r x) (get_reg r y) (get_reg r z) + data)) in
      let v := Z.lor (u32 (Z.shiftl v s)) (Z.shiftr v (32 - s)) in
      set_reg r w (u32 (v + get_reg r x))
  end.

(** The 64 lines, in order. *)
Definition md5_program : list md5_instr :=
  [MD5STEP F1 Ra Rb Rc Rd 0 3614090360 7;
   MD5STEP F1 Rd Ra Rb Rc 1 3905402710 12;
   MD5STEP F1 Rc Rd Ra Rb 2 606105819 17;
   MD5STEP F1 Rb Rc Rd Ra 3 3250441966 22;
   MD5STEP F1 Ra Rb Rc Rd 4 4118548399 7;
   MD5STEP F1 Rd Ra Rb Rc 5 1200080426 12;
   MD5STEP F1 Rc Rd Ra Rb 6 2821735955 17;
   MD5STEP F1 Rb Rc Rd Ra 7 4249261313 22;
   MD5STEP F1 Ra Rb Rc Rd 8 1770035416 7;
   MD5STEP F1 Rd Ra Rb Rc 9 2336552879 12;
   MD5STEP F1 Rc Rd Ra Rb 10 4294925233 17;
   MD5STEP F1 Rb Rc Rd Ra 11 2304563134 22;
   MD5STEP F1 Ra Rb Rc Rd 12 1804603682 7;
   MD5STEP F1 Rd Ra Rb Rc 13 4254626195 12;
   MD5STEP F1 Rc Rd Ra Rb 14 2792965006 17;
   MD5STEP F1 Rb Rc Rd Ra 15 1236535329 22;
   MD5STEP F2 Ra Rb Rc Rd 1 4129170786 5;
   MD5STEP F2 Rd Ra Rb Rc 6 3225465664 9;
   MD5STEP F2 Rc Rd Ra Rb 11 643717713 14;
   MD5STEP F2 Rb Rc Rd Ra 0 3921069994 20;
   MD5STEP F2 Ra Rb Rc Rd 5 3593408605 5;
   MD5STEP F2 Rd Ra Rb Rc 10 38016083 9;
   MD5STEP F2 Rc Rd Ra Rb 15 3634488961 14;
   MD5STEP F2 Rb Rc Rd Ra 4 3889429448 20;
   MD5STEP F2 Ra Rb Rc Rd 9 568446438 5;
   MD5STEP F2 Rd Ra Rb Rc 14 3275163606 9;
   MD5STEP F2 Rc Rd Ra Rb 3 4107603335 14;
   MD5STEP F2 Rb Rc Rd Ra 8 1163531501 20;
   MD5STEP F2 Ra Rb Rc Rd 13 2850285829 5;
   MD5STEP F2 Rd Ra Rb Rc 2 4243563512 9;
   MD5STEP F2 Rc Rd Ra Rb 7 1735328473 14;
   MD5STEP F2 Rb Rc Rd Ra 12 2368359562 20;
   MD5STEP F3 Ra Rb Rc Rd 5 4294588738 4;
   MD5STEP F3 Rd Ra Rb Rc 8 2272392833 11;
   MD5STEP F3 Rc Rd Ra Rb 11 1839030562 16;
   MD5STEP F3 Rb Rc Rd Ra 14 4259657740 23;
   MD5STEP F3 Ra Rb Rc Rd 1 2763975236 4;
   MD5STEP F3 Rd Ra Rb Rc 4 1272893353 11;
   MD5STEP F3 Rc Rd Ra Rb 7 4139469664 16;
   MD5STEP F3 Rb Rc Rd Ra 10 3200236656 23;
   MD5STEP F3 Ra Rb Rc Rd 13 681279174 4;
   MD5STEP F3 Rd Ra Rb Rc 0 3936430074 11;
   MD5STEP F3 Rc Rd Ra Rb 3 3572445317 16;
   MD5STEP F3 Rb Rc Rd Ra 6 76029189 23;
   MD5STEP F3 Ra Rb Rc Rd 9 3654602809 4;
   MD5STEP F3 Rd Ra Rb Rc 12 3873151461 11;
   MD5STEP F3 Rc Rd Ra Rb 15 530742520 16;
   MD5STEP F3 Rb Rc Rd Ra 2 3299628645 23;
   MD5STEP F4 Ra Rb Rc Rd 0 4096336452 6;
   MD5STEP F4 Rd Ra Rb Rc 7 1126891415 10;
   MD5STEP F4 Rc Rd Ra Rb 14 2878612391 15;
   MD5STEP F4 Rb Rc Rd Ra 5 4237533241 21;
   MD5STEP F4 Ra Rb Rc Rd 12 1700485571 6;
   MD5STEP F4 Rd Ra Rb Rc 3 2399980690 10;
   MD5STEP F4 Rc Rd Ra Rb 10 4293915773 15;
   MD5STEP F4 Rb Rc Rd Ra 1 2240044497 21;
   MD5STEP F4 Ra Rb Rc Rd 8 1873313359 6;
   MD5STEP F4 Rd Ra Rb Rc 15 4264355552 10;
   MD5STEP F4 Rc Rd Ra Rb 6 2734768916 15;
   MD5STEP F4 Rb Rc Rd Ra 13 1309151649 21;
   MD5STEP F4 Ra Rb Rc Rd 4 4149444226 6;
   MD5STEP F4 Rd Ra Rb Rc 11 3174756917 10;
   MD5STEP F4 Rc Rd Ra Rb 2 718787259 15;
   MD5STEP F4 Rb Rc Rd Ra 9 3951481745 21].

(** Little-endian words of a block. *)
Definition le32 (b0 b1 b2 b3 : Z) : Z :=
  Z.lor (Z.lor (Z.lor b0 (Z.shiftl b1 8)) (Z.shiftl b2 16)) (Z.shiftl b3 24).

Fixpoint le_words (block : bytes) : list Z :=
  match block with
  | b0 :: b1 :: b2 :: b3 :: rest => le32 b0 b1 b2 b3 :: le_words rest
  | _ => []
  end.

Definition MD5Transform (state : md5_regs) (block : bytes) : md5_regs :=
  let inp := le_words block in
  let r := fold_left (exec_step inp) md5_program state in
  mkRegs (u32 (va state + va r)) (u32 (vb state + vb r))
         (u32 (vc state + vc r)) (u32 (vd state + vd r)).

#[global] Arguments MD5Transform : simpl never.

(** ** The context *)

Record MD5Context := mkMD5 { md5_state : md5_regs; md5_count : Z; md5_buffer : bytes }.

Definition PUT_64BIT_LE (v : Z) : bytes :=
  [u8 v; u8 (Z.shiftr v 8); u8 (Z.shiftr v 16); u8 (Z.shiftr v 24);
   u8 (Z.shiftr v 32); u8 (Z.shiftr v 40); u8 (Z.shiftr v 48); u8 (Z.shiftr v 56)].

Definition PUT_32BIT_LE (v : Z) : bytes :=
  [u8 v; u8 (Z.shiftr v 8); u8 (Z.shiftr v 16); u8 (Z.shiftr v 24)].

Definition MD5_PADDING : bytes := 128 :: replicate 63 0.

Definition MD5Init (ctx : MD5Context) : MD5Context :=
  mkMD5 (mkRegs 1732584193 4023233417 2562383102 271733878) 0 (md5_buffer ctx).

(** [while (len >= MD5_BLOCK_SIZE)]; [len] bounds the number of rounds. *)
Fixpoint md5_blocks (fuel : nat) (state : md5_regs) (input : bytes) (len : Z)
    : option (md5_regs * bytes * Z) :=
  if len >=? 64 then
    match fuel with
    | O => None
    | S fuel' =>
        block ← mem_read input 0 64;
        md5_blocks fuel' (MD5Transform state block) (drop 64 input) (len - 64)
    end
  else Some (state, input, len).

Definition MD5Update (ctx : MD5Context) (input : option bytes) (len : Z) : option MD5Context :=
  match input with
  | None => Some ctx
  | Some input =>
      let have := Z.land (Z.shiftr (md5_count ctx) 3) (64 - 1) in
      let need := 64 - have in
      let count := u64 (md5_count ctx + u64 (Z.shiftl len 3)) in
      '(state, buffer, input, len, have) ←
        (if len >=? need then
           '(state, buffer, input, len, have) ←
             (if negb (have =? 0) then
                bs ← mem_read input 0 need;
                buffer ← mem_write (md5_buffer ctx) have bs;
                Some (MD5Transform (md5_state ctx) buffer, buffer,
                      drop (Z.to_nat need) input, len - need, 0)
              else Some (md5_state ctx, md5_buffer ctx, input, len, have));
           '(state, input, len) ← md5_blocks (Z.to_nat len) state input len;
           Some (state, buffer, input, len, have)
         else Some (md5_state ctx, md5_buffer ctx, input, len, have));
      buffer ← (if negb (0 =? len)
                then bs ← mem_read input 0 len; mem_write buffer have bs
                else Some buffer);
      Some (mkMD5 state count buffer)
  end.

Definition MD5Pad (ctx : MD5Context) : option MD5Context :=
  let count := PUT_64BIT_LE (md5_count ctx) in
  let padlen := 64 - Z.land (Z.shiftr (md5_count ctx) 3) (64 - 1) in
  let padlen := if padlen <? 1 + 8 then padlen + 64 else padlen in
  ctx ← MD5Update ctx (Some MD5_PADDING) (padlen - 8);
  MD5Update ctx (Some count) 8.

(** The digest, and the context zeroed behind it. *)
Definition MD5Final (ctx : MD5Context) : option (bytes * MD5Context) :=
  ctx ← MD5Pad ctx;
  let st := md5_state ctx in
  Some (PUT_32BIT_LE (va st) ++ PUT_32BIT_LE (vb st) ++ PUT_32BIT_LE (vc st) ++ PUT_32BIT_LE (vd st),
        mkMD5 (mkRegs 0 0 0 0) 0 (replicate 64 0)).

(** ** RFC 1321 *)

Module RFC1321.

(** The table of step 4: the integer part of [2^32 * abs (sin (i + 1))]. *)
Definition T : list Z :=
  [3614090360; 3905402710; 606105819; 3250441966;
   4118548399; 1200080426; 2821735955; 4249261313;
   1770035416; 2336552879; 4294925233; 2304563134;
   1804603682; 4254626195; 2792965006; 1236535329;
   4129170786; 3225465664; 643717713; 3921069994;
   3593408605; 38016083; 3634488961; 3889429448;
   568446438; 3275163606; 4107603335; 1163531501;
   2850285829; 4243563512; 1735328473; 2368359562;
   4294588738; 2272392833; 1839030562; 4259657740;
   2763975236; 1272893353; 4139469664; 3200236656;
   681279174; 3936430074; 3572445317; 76029189;
   3654602809; 3873151461; 530742520; 3299628645;
   4096336452; 1126891415; 2878612391; 4237533241;
   1700485571; 2399980690; 4293915773; 2240044497;
   1873313359; 4264355552; 2734768916; 1309151649;
   4149444226; 3174756917; 718787259; 3951481745].

Definition rot_left (x s : Z) : Z := Z.lor (u32 (Z.shiftl x s)) (Z.shiftr x (32 - s)).

Definition aux (i : nat) (x y z : Z) : Z :=
  if (i <? 16)%nat then Z.lor (Z.land x y) (Z.land (Z.lnot x) z)
  else if (i <? 32)%nat then Z.lor (Z.land x z) (Z.land y (Z.lnot z))
  else if (i <? 48)%nat then Z.lxor x (Z.lxor y z)
  else Z.lxor y (Z.lor x (u32 (Z.lnot z))).

(** Index of the message word used in step [i]. *)
Definition word_of (i : nat) : nat :=
  ((if (i <? 16)%nat then i
    else if (i <? 32)%nat then 5 * i + 1
    else if (i <? 48)%nat then 3 * i + 5
    else 7 * i) mod 16)%nat.

Definition shift_of (i : nat) : Z :=
  nth (i mod 4) (nth (i / 16) [[7; 12; 17; 22]; [5; 9; 14; 20]; [4; 11; 16; 23]; [6; 10; 15; 21]] []) 0.

(** One step on the rotating words [A, B, C, D]. *)
Definition step (x : list Z) (abcd : Z * Z * Z * Z) (i : nat) : Z * Z * Z * Z :=
  let '(a, b, c, d) := abcd in
  (d, u32 (b + rot_left (u32 (a + aux i b c d + nth (word_of i) x 0 + nth i T 0)) (shift_of i)), b, c).

Definition add_words (s t : Z * Z * Z * Z) : Z * Z * Z * Z :=
  let '(a, b, c, d) := s in let '(a', b', c', d') := t in
  (u32 (a + a'), u32 (b + b'), u32 (c + c'), u32 (d + d')).

Definition compress (s : Z * Z * Z * Z) (block : bytes) : Z * Z * Z * Z :=
  add_words s (fold_left (step (le_words block)) (seq 0 64) s).

Definition init : Z * Z * Z * Z := (1732584193, 4023233417, 2562383102, 271733878).

(** Bytes of a number, low-order first. *)
Fixpoint le_bytes (n : nat) (v : Z) : bytes :=
  match n with O => [] | S n' => v mod 256 :: le_bytes n' (v / 256) end.

(** A single one bit, zeros up to 56 modulo 64, and the length in bits
    modulo 2^64. *)
Definition padding (len : nat) : bytes :=
  128 :: replicate ((119 - len mod 64) mod 64) 0 ++ le_bytes 8 (u64 (8 * Z.of_nat len)).

Definition md5 (m : bytes) : bytes :=
  let '(a, b, c, d) := absorbed compress init (m ++ padding (length m)) in
  le_bytes 4 a ++ le_bytes 4 b ++ le_bytes 4 c ++ le_bytes 4 d.

End RFC1321.

(** ** The transformation is the RFC's *)

(** The registers in the order of the rotating words before step [i]. *)
Definition view (i : nat) (r : md5_regs) : Z * Z * Z * Z :=
  match (i mod 4)%nat with
  | 0%nat => (va r, vb r, vc r, vd r)
  | 1%nat => (vd r, va r, vb r, vc r)
  | 2%nat => (vc r, vd r, va r, vb r)
  | _ => (vb r, vc r, vd r, va r)
  end.

Definition fun_of (i : nat) : md5_fun :=
  match (i / 16)%nat with 0%nat => F1 | 1%nat => F2 | 2%nat => F3 | _ => F4 end.

Definition instr_of (i : nat) : md5_instr :=
  let m := MD5STEP (fun_of i) in
  match (i mod 4)%nat with
  | 0%nat => m Ra Rb Rc Rd | 1%nat => m Rd Ra Rb Rc
  | 2%nat => m Rc Rd Ra Rb | _ => m Rb Rc Rd Ra
  end (RFC1321.word_of i) (nth i RFC1321.T 0) (RFC1321.shift_of i).

(** Every line of the program carries the parameters of its step. *)
Lemma md5_program_instrs : md5_program = instr_of <$> seq 0 64.
Proof. reflexivity. Qed.

Lemma F1_choice x y z : F1_ x y z = Z.lor (Z.land x y) (Z.land (Z.lnot x) z).
Proof.
  unfold F1_. apply Z.bits_inj'. intros n Hn.
  rewrite Z.lor_spec, Z.lxor_spec, !Z.land_spec, Z.lxor_spec, Z.lnot_spec by done.
  by destruct (Z.testbit x n), (Z.testbit y n), (Z.testbit z n).
Qed.

Lemma md5_f_aux i x y z : (i < 64)%nat -> md5_f (fun_of i) x y z = RFC1321.aux i x y z.
Proof.
  intros Hi. unfold fun_of, RFC1321.aux.
  pose proof (Nat.div_mod_eq i 16). pose proof (Nat.mod_upper_bound i 16 ltac:(lia)).
  destruct (i / 16)%nat as [|[|[|[|n]]]] eqn:E; [..|lia];
    repeat match goal with |- context [(?a <? ?b)%nat] => destruct (Nat.ltb_spec a b); try lia end; simpl.
  - apply F1_choice.
  - rewrite F1_choice, (Z.land_comm z x), (Z.land_comm (Z.lnot z)). done.
  - by rewrite Z.lxor_assoc.
  - done.
Qed.

Lemma step_value w f m k x s :
  let v := u32 (w + u32 (f + u32 (m + k))) in
  u32 (Z.lor (u32 (Z.shiftl v s)) (Z.shiftr v (32 - s)) + x)
  = u32 (x + RFC1321.rot_left (u32 (w + f + m + k)) s).
Proof.
  intros v. assert (v = u32 (w + f + m + k)) as ->.
  { subst v. rewrite (wrap_add_r 32 f), wrap_add_r. f_equal. lia. }
  unfold RFC1321.rot_left. f_equal. lia.
Qed.

Lemma exec_step_view inp r i :
  (i < 64)%nat ->
  view (S i) (exec_step inp r (instr_of i)) = RFC1321.step inp (view i r) i.
Proof.
  intros Hi. unfold view, instr_of. pose proof (Nat.div_mod_eq i 4).
  pose proof (Nat.mod_upper_bound i 4 ltac:(lia)).
  assert (S i mod 4 = S (i mod 4) mod 4)%nat as ->.
  { rewrite <- Nat.add_1_r, <- (Nat.add_1_r (i mod 4)), Nat.Div0.add_mod. by rewrite (Nat.mod_small 1) by lia. }
  destruct (i mod 4)%nat as [|[|[|[|n]]]] eqn:E; [..|lia]; simpl;
    unfold exec_step, RFC1321.step; simpl; by rewrite step_value, md5_f_aux.
Qed.

Definition words (r : md5_regs) : Z * Z * Z * Z := (va r, vb r, vc r, vd r).

Lemma exec_program_view inp n len r :
  (n + len <= 64)%nat ->
  view (n + len) (fold_left (exec_step inp) (instr_of <$> seq n len) r)
  = fold_left (RFC1321.step inp) (seq n len) (view n r).
Proof.
  revert n r. induction len as [|len IH]; intros n r Hl; simpl; [by rewrite Nat.add_0_r|].
  rewrite <- Nat.add_succ_comm, IH by lia. f_equal. apply exec_step_view. lia.
Qed.

Lemma MD5Transform_compress s b : words (MD5Transform s b) = RFC1321.compress (words s) b.
Proof.
  unfold MD5Transform, RFC1321.compress. rewrite md5_program_instrs.
  pose proof (exec_program_view (le_words b) 0 64 s ltac:(lia)) as E.
  set (F := fold_left (exec_step (le_words b)) (instr_of <$> seq 0 64) s) in *. clearbody F.
  set (G := fold_left (RFC1321.step (le_words b)) (seq 0 64)) in *. clearbody G.
  change (view 0 s) with (words s) in E. rewrite <- E. done.
Qed.

Lemma absorbed_words s m :
  words (absorbed MD5Transform s m) = absorbed RFC1321.compress (words s) m.
Proof.
  unfold absorbed. generalize (length m / 64)%nat. intros n. revert s m.
  induction n as [|n IH]; intros s m; cbn [fold_blocks]; [done|].
  by rewrite IH, MD5Transform_compress.
Qed.

(** ** The context represents the message digested so far *)

Definition md5_init_state : md5_regs := mkRegs 1732584193 4023233417 2562383102 271733878.

Definition md5_repr (c : MD5Context) (m : bytes) : Prop :=
  md5_state c = absorbed MD5Transform md5_init_state m
  /\ md5_count c = u64 (8 * Z.of_nat (length m))
  /\ length (md5_buffer c) = 64%nat
  /\ take (length m mod 64) (md5_buffer c) = pending m.

Lemma count_have (n : nat) :
  Z.land (Z.shiftr (u64 (8 * Z.of_nat n)) 3) (64 - 1) = Z.of_nat (n mod 64)%nat.
Proof.
  change (64 - 1) with (Z.ones 6). rewrite Z.land_ones, Z.shiftr_div_pow2 by lia.
  unfold wrap. rewrite Nat2Z.inj_mod. change (Z.of_nat 64) with 64.
  change (2 ^ 64) with (8 * 2305843009213693952). rewrite Z.mul_mod_distr_l by lia.
  change (2 ^ 3) with 8. rewrite (Z.mul_comm 8), Z.div_mul by lia. change (2 ^ 6) with 64.
  change 2305843009213693952 with (64 * 36028797018963968). rewrite Z.rem_mul_r by lia.
  rewrite Z.add_mod, (Z.mul_comm 64), Z.mod_mul, Z.add_0_r, !Z.mod_mod by lia. done.
Qed.

Lemma md5_blocks_absorbed fuel st l r :
  (length l <= fuel)%nat ->
  md5_blocks fuel st (l ++ r) (Z.of_nat (length l))
  = Some (absorbed MD5Transform st l, pending l ++ r, Z.of_nat (length (pending l))).
Proof.
  revert fuel st. induction l as [l Hl|b l Hb IH] using blocks_ind; intros fuel st Hf.
  - rewrite absorbed_short, pending_short by done.
    destruct fuel; cbn [md5_blocks]; destruct (Z.geb_spec (Z.of_nat (length l)) 64); (lia || done).
  - rewrite absorbed_block, pending_block by done. rewrite length_app, Hb in *.
    destruct fuel as [|fuel]; [lia|]. cbn [md5_blocks]. destruct (Z.geb_spec (Z.of_nat (64 + length l)) 64); [|lia].
    rewrite <- app_assoc. replace 64 with (Z.of_nat (length b)) at 1 by lia. rewrite mem_read_app. cbn [mbind option_bind].
    rewrite drop_app_length' by done. replace (Z.of_nat (64 + length l) - 64) with (Z.of_nat (length l)) by lia.
    apply IH. lia.
Qed.

Lemma u64_count (n : nat) (l : nat) :
  u64 (u64 (8 * Z.of_nat n) + u64 (Z.shiftl (Z.of_nat l) 3)) = u64 (8 * Z.of_nat (n + l)%nat).
Proof.
  rewrite wrap_add_l, wrap_add_r, Z.shiftl_mul_pow2 by lia. f_equal. change (2 ^ 3) with 8. lia.
Qed.

(** The last [if] of the update. *)
Lemma md5_tail (buf l r : bytes) (h : nat) :
  (h + length l <= length buf)%nat ->
  ∃ buf', (if negb (0 =? Z.of_nat (length l))
           then bs ← mem_read (l ++ r) 0 (Z.of_nat (length l)); mem_write buf (Z.of_nat h) bs
           else Some buf) = Some buf'
    /\ length buf' = length buf /\ take (h + length l) buf' = take h buf ++ l.
Proof.
  intros Hl. destruct (Z.eqb_spec 0 (Z.of_nat (length l))) as [E|E]; cbn [negb].
  - destruct l; [|simpl in E; lia]. exists buf. simpl. rewrite Nat.add_0_r, app_nil_r. done.
  - rewrite mem_read_app. cbn [mbind option_bind].
    destruct (mem_write_append buf l h Hl) as (buf' & ? & ? & ? & _). eauto.
Qed.

Lemma MD5Update_repr c m l r :
  md5_repr c m ->
  ∃ c', MD5Update c (Some (l ++ r)) (Z.of_nat (length l)) = Some c' /\ md5_repr c' (m ++ l).
Proof.
  intros (Hst & Hct & Hbl & Hbuf). unfold MD5Update, md5_repr. rewrite Hct, count_have, u64_count.
  rewrite length_app. set (h := (length m mod 64)%nat) in *.
  assert (h < 64)%nat as Hh by (apply Nat.mod_upper_bound; lia).
  assert ((length m + length l) mod 64 = (h + length l) mod 64)%nat as Hmod
    by (subst h; by rewrite Nat.Div0.add_mod_idemp_l).
  destruct (Z.geb_spec (Z.of_nat (length l)) (64 - Z.of_nat h)) as [Hge|Hlt].
  2:{ destruct (absorb_more_short MD5Transform md5_init_state m l) as [E1 E2]; [lia|].
      cbn [mbind option_bind]. destruct (md5_tail (md5_buffer c) l r h) as (buf' & -> & Hl' & Ht); [lia|].
      eexists. split; [done|]. cbn [md5_state md5_count md5_buffer].
      rewrite E1, E2, Hst, Hl', Hmod, Nat.mod_small, Ht, Hbuf by lia. done. }
  destruct (Z.eqb_spec (Z.of_nat h) 0) as [H0|H0]; cbn [negb mbind option_bind].
  - destruct (absorb_aligned MD5Transform md5_init_state m l) as [E1 E2]; [lia|].
    rewrite md5_blocks_absorbed by lia. cbn [mbind option_bind].
    assert (h = 0%nat) as Eh by lia. rewrite Eh in *. rewrite Nat.add_0_l in Hmod.
    destruct (md5_tail (md5_buffer c) (pending l) r 0) as (buf' & -> & Hl' & Ht);
      [pose proof (length_pending_lt l); lia|].
    eexists. split; [done|]. cbn [md5_state md5_count md5_buffer]. rewrite E1, E2, Hst, Hl', Hmod, <- length_pending.
    split_and!; [done..|]. by rewrite Nat.add_0_l in Ht.
  - destruct (absorb_more_block MD5Transform md5_init_state m l) as (E1 & E2 & E3); [lia|].
    set (need := (64 - h)%nat) in *. set (l1 := take need l) in *. set (l2 := drop need l) in *.
    assert (length l1 = need) as Hl1 by (subst l1; rewrite length_take; lia).
    assert (length l2 = length l - need)%nat as Hl2 by (subst l2; by rewrite length_drop).
    replace (l ++ r) with (l1 ++ (l2 ++ r)) by (by rewrite app_assoc; subst l1 l2; rewrite take_drop).
    replace (64 - Z.of_nat h) with (Z.of_nat (length l1)) by lia. rewrite mem_read_app.
    cbn [mbind option_bind]. rewrite Hl1.
    destruct (mem_write_append (md5_buffer c) l1 h) as (buf1 & -> & Hb1 & Ht1 & _); [lia|].
    cbn [mbind option_bind]. rewrite Nat2Z.id, (drop_app_length' l1) by done.
    assert (buf1 = pending m ++ l1) as ->.
    { rewrite <- Hbuf, <- Ht1. symmetry. apply take_ge. lia. }
    replace (Z.of_nat (length l) - Z.of_nat need) with (Z.of_nat (length l2)) by lia.
    rewrite md5_blocks_absorbed by lia. cbn [mbind option_bind].
    destruct (md5_tail (pending m ++ l1) (pending l2) r 0) as (buf' & E & Hl' & Ht);
      [pose proof (length_pending_lt l2); lia|].
    change (Z.of_nat 0) with 0 in E. rewrite E. eexists. split; [done|]. cbn [md5_state md5_count md5_buffer].
    rewrite E1, E2, <- Hst, Hl', Hmod. split_and!; [done|done|lia|].
    replace ((h + length l) mod 64)%nat with (length (pending l2)).
    + by rewrite Nat.add_0_l in Ht.
    + rewrite length_pending, Hl2. replace (h + length l)%nat with (64 + (length l - need))%nat by lia.
      by rewrite mod64_block.
Qed.

Lemma MD5Init_repr c : length (md5_buffer c) = 64%nat -> md5_repr (MD5Init c) [].
Proof. intros H. by split_and!. Qed.

Lemma PUT_32BIT_LE_bytes v : PUT_32BIT_LE v = RFC1321.le_bytes 4 v.
Proof.
  unfold PUT_32BIT_LE, wrap. change (2 ^ 8) with 256. simpl.
  rewrite !Z.shiftr_div_pow2, !Z.div_div by lia. done.
Qed.

Lemma PUT_64BIT_LE_bytes v : PUT_64BIT_LE v = RFC1321.le_bytes 8 v.
Proof.
  unfold PUT_64BIT_LE, wrap. change (2 ^ 8) with 256. simpl.
  rewrite !Z.shiftr_div_pow2, !Z.div_div by lia. done.
Qed.

Lemma MD5Pad_repr c m :
  md5_repr c m ->
  ∃ c', MD5Pad c = Some c' /\ md5_repr c' (m ++ RFC1321.padding (length m)).
Proof.
  intros Hc. unfold MD5Pad. destruct (Hc) as (_ & Hct & _ & _). rewrite Hct, count_have.
  set (h := (length m mod 64)%nat).
  assert (h < 64)%nat as Hh by (apply Nat.mod_upper_bound; lia).
  set (z := ((119 - h) mod 64)%nat).
  assert (h < 56 /\ z = 55 - h \/ 56 <= h /\ z = 119 - h)%nat as Hz.
  { subst z. destruct (Nat.ltb_spec h 56); [left|right; by rewrite Nat.mod_small by lia].
    replace (119 - h)%nat with (64 + (55 - h))%nat by lia. rewrite mod64_block, Nat.mod_small; lia. }
  assert (Hpl : (if 64 - Z.of_nat h <? 1 + 8 then 64 - Z.of_nat h + 64 else 64 - Z.of_nat h) - 8
                = Z.of_nat (length (128 :: replicate z 0))).
  { simpl length. rewrite length_replicate.
    destruct (Z.ltb_spec (64 - Z.of_nat h) (1 + 8)); lia. }
  rewrite Hpl.
  assert (MD5_PADDING = (128 :: replicate z 0) ++ replicate (63 - z) 0) as ->.
  { unfold MD5_PADDING. rewrite <- app_comm_cons. f_equal. rewrite <- replicate_add. f_equal. lia. }
  destruct (MD5Update_repr c m (128 :: replicate z 0) (replicate (63 - z) 0) Hc) as (c1 & -> & Hc1).
  cbn [mbind option_bind]. rewrite PUT_64BIT_LE_bytes.
  destruct (MD5Update_repr c1 _ (RFC1321.le_bytes 8 (u64 (8 * Z.of_nat (length m)))) [] Hc1)
    as (c2 & E2 & Hc2).
  rewrite app_nil_r in E2. change 8 with (Z.of_nat 8) at 2. eexists. split; [exact E2|].
  by rewrite <- app_assoc in Hc2.
Qed.

Lemma length_le_bytes n v : length (RFC1321.le_bytes n v) = n.
Proof. revert v. induction n; intros; simpl; auto. Qed.

(** The padded message is a whole number of blocks. *)
Lemma padding_whole n : ((n + length (RFC1321.padding n)) mod 64 = 0)%nat.
Proof.
  unfold RFC1321.padding. cbn [length]. rewrite length_app, length_replicate, length_le_bytes.
  pose proof (Nat.div_mod_eq n 64). pose proof (Nat.mod_upper_bound n 64 ltac:(lia)).
  set (h := (n mod 64)%nat) in *. set (q := (n / 64)%nat) in *.
  assert (∃ k, (n + S ((119 - h) mod 64 + 8)) = k * 64)%nat as [k ->].
  { destruct (decide (h < 56)%nat).
    - replace (119 - h)%nat with (64 + (55 - h))%nat by lia. rewrite mod64_block, Nat.mod_small by lia.
      exists (S q). lia.
    - rewrite Nat.mod_small by lia. exists (S (S q)). lia. }
  apply Nat.Div0.mod_mul.
Qed.

Lemma MD5Final_repr c m :
  md5_repr c m ->
  MD5Final c = Some (RFC1321.md5 m, mkMD5 (mkRegs 0 0 0 0) 0 (replicate 64 0)).
Proof.
  intros Hc. unfold MD5Final. destruct (MD5Pad_repr c m Hc) as (c' & -> & (Hst & _)).
  cbn [mbind option_bind]. unfold RFC1321.md5.
  change RFC1321.init with (words md5_init_state). rewrite <- absorbed_words, <- Hst.
  unfold words. by rewrite !PUT_32BIT_LE_bytes.
Qed.

(** ** The algorithm behind the digest interface *)

Definition md5_ops : hash_ops MD5Context := {|
  digest_size := 16;
  hash_init := MD5Init;
  hash_update c l := MD5Update c (Some l) (Z.of_nat (length l));
  hash_digest := MD5Final
|}.

Lemma md5_updates c m chunks :
  md5_repr c m ->
  ∃ c', hash_updates md5_ops c chunks = Some c' /\ md5_repr c' (m ++ concat chunks).
Proof.
  revert c m. induction chunks as [|l chunks IH]; intros c m Hc;
    cbn [hash_updates concat hash_update md5_ops].
  - exists c. by rewrite app_nil_r.
  - destruct (MD5Update_repr c m l [] Hc) as (c1 & E & Hc1). rewrite app_nil_r in E.
    rewrite E. cbn [mbind option_bind].
    destruct (IH c1 _ Hc1) as (c2 & ? & ?). exists c2. by rewrite app_assoc.
Qed.

Definition md5_valid (c : MD5Context) : Prop := length (md5_buffer c) = 64%nat.

Lemma length_md5 m : length (RFC1321.md5 m) = 16%nat.
Proof.
  unfold RFC1321.md5. destruct (absorbed _ _ _) as [[[a b] c] d].
  by rewrite !length_app, !length_le_bytes.
Qed.

Lemma le_bytes_bytes n v : Forall is_byte (RFC1321.le_bytes n v).
Proof. revert v. induction n as [|n IH]; intros v; constructor; [apply Z.mod_pos_bound; lia|apply IH]. Qed.

Lemma md5_bytes m : Forall is_byte (RFC1321.md5 m).
Proof.
  unfold RFC1321.md5. destruct (absorbed _ _ _) as [[[a b] c] d].
  rewrite !Forall_app. split_and!; apply le_bytes_bytes.
Qed.

Lemma md5_stream c chunks :
  md5_valid c ->
  ∃ c', hash_updates md5_ops (MD5Init c) chunks = Some c'
    /\ MD5Final c' = Some (RFC1321.md5 (concat chunks), mkMD5 (mkRegs 0 0 0 0) 0 (replicate 64 0)).
Proof.
  intros Hc. destruct (md5_updates (MD5Init c) [] chunks) as (c' & ? & Hc'); [by apply MD5Init_repr|].
  exists c'. split; [done|]. by apply MD5Final_repr.
Qed.

Lemma md5_law c chunks :
  md5_valid c -> Forall (Forall is_byte) chunks ->
  ∃ c' c'', hash_updates md5_ops (hash_init md5_ops c) chunks = Some c'
    /\ hash_digest md5_ops c' = Some (RFC1321.md5 (concat chunks), c'') /\ md5_valid c''.
Proof. intros Hc _. destruct (md5_stream c chunks Hc) as (c' & ? & ?). by exists c', (mkMD5 (mkRegs 0 0 0 0) 0 (replicate 64 0)). Qed.

#[export] Instance md5_lawful : LawfulHash md5_ops md5_valid := {
  hash_of := RFC1321.md5;
  hash_of_length := length_md5;
  hash_of_bytes := md5_bytes;
  hash_stream := md5_law
}.

(** ** Theorems *)

(** The straight-line transformation of the source, with its optimised
    choice function and renamed registers, is the compression function of
    RFC 1321 on every state and block. *)
Theorem MD5Transform_is_rfc1321 s b :
  words (MD5Transform s b) = RFC1321.compress (words s) b.
Proof. apply MD5Transform_compress. Qed.

(** C30: MD5 streaming is correct: starting from any context object, feeding a
    message in any chunks and finishing delivers the RFC 1321 digest of the
    whole message, stays inside the buffers, and leaves the context zeroed. *)
Theorem MD5_streaming_correct c chunks :
  md5_valid c ->
  ∃ c', hash_updates md5_ops (MD5Init c) chunks = Some c'
    /\ MD5Final c' = Some (RFC1321.md5 (concat chunks), mkMD5 (mkRegs 0 0 0 0) 0 (replicate 64 0)).
Proof. apply md5_stream. Qed.

Lemma MD5_streaming_correct_witness :
  ∃ c', hash_updates md5_ops (MD5Init (mkMD5 (mkRegs 1 2 3 4) 9 (replicate 64 5)))
          [str "a"; str "bc"] = Some c'
    /\ MD5Final c' = Some ([144; 1; 80; 152; 60; 210; 79; 176; 214; 150; 63; 125; 40; 225; 127; 114],
                           mkMD5 (mkRegs 0 0 0 0) 0 (replicate 64 0)).
Proof.
  destruct (MD5_streaming_correct (mkMD5 (mkRegs 1 2 3 4) 9 (replicate 64 5)) [str "a"; str "bc"] eq_refl)
    as (c' & E1 & E2).
  exists c'. split; [exact E1|]. rewrite E2. vm_compute. reflexivity.
Defined.
