(* ===== verification/Sha256.v ===== *)
(** * SHA-256 (libmicrohttpd/src/microhttpd/sha256.c, sha256.h)

    The compression function with its circular message schedule and unrolled
    rounds, the buffering update, padding and output; and the algorithm of
    FIPS 180-4 it implements. *)

From S2P Require Import Prelude HashStream.

(** ** The compression function *)

Definition sha256_K : list Z :=
  [1116352408; 1899447441; 3049323471; 3921009573;
   961987163; 1508970993; 2453635748; 2870763221;
   3624381080; 310598401; 607225278; 1426881987;
   1925078388; 2162078206; 2614888103; 3248222580;
   3835390401; 4022224774; 264347078; 604807628;
   770255983; 1249150122; 1555081692; 1996064986;
   2554220882; 2821834349; 2952996808; 3210313671;
   3336571891; 3584528711; 113926993; 338241895;
   666307205; 773529912; 1294757372; 1396182291;
   1695183700; 1986661051; 2177026350; 2456956037;
   2730485921; 2820302411; 3259730800; 3345764771;
   3516065817; 3600352804; 4094571909; 275423344;
   430227734; 506948616; 659060556; 883997877;
   958139571; 1322822218; 1537002063; 1747873779;
   1955562222; 2024104815; 2227730452; 2361852424;
   2428436474; 2756734187; 3204031479; 3329325298].

Definition ROTL32 (n x : Z) : Z :=
  Z.lor (u32 (Z.shiftl x n)) (Z.shiftr x (Z.land (- n) 31)).

Definition Choice (x y z : Z) : Z := Z.lxor z (Z.land x (Z.lxor y z)).

Definition Majority (x y z : Z) : Z := Z.lxor (Z.land x y) (Z.land z (Z.lxor x y)).

Definition S0 (x : Z) : Z := Z.lxor (Z.lxor (ROTL32 30 x) (ROTL32 19 x)) (ROTL32 10 x).

Definition S1 (x : Z) : Z := Z.lxor (Z.lxor (ROTL32 26 x) (ROTL32 21 x)) (ROTL32 7 x).

Definition s0 (x : Z) : Z := Z.lxor (Z.lxor (ROTL32 25 x) (ROTL32 14 x)) (Z.shiftr x 3).

Definition s1 (x : Z) : Z := Z.lxor (Z.lxor (ROTL32 15 x) (ROTL32 13 x)) (Z.shiftr x 10).

(** [EXPAND (W, i)]: the updated schedule; its value is the word at [i]. *)
Definition EXPAND (W : list Z) (i : nat) : list Z :=
  let at_ (d : Z) := nth (Z.to_nat (Z.land (Z.of_nat i - d) 15)) W 0 in
  <[Z.to_nat (Z.land (Z.of_nat i) 15) := u32 (at_ 0 + (s1 (at_ 2) + at_ 7 + s0 (at_ 15)))]> W.

(** The local variables, as positions of a list of eight words. *)
Abbreviation A_ := 0%nat.
Abbreviation B_ := 1%nat.
Abbreviation C_ := 2%nat.
Abbreviation D_ := 3%nat.
Abbreviation E_ := 4%nat.
Abbreviation F_ := 5%nat.
Abbreviation G_ := 6%nat.
Abbreviation H_ := 7%nat.

(** The last argument of a round: [d[j]] or [EXPAND (data, j)]. *)
Inductive round_data := Direct (j : nat) | Expand (j : nat).

(** [ROUND (a, b, c, d, e, f, g, h, k[i], data)]. *)
Inductive sha_instr := ROUND (a b c d e f g h : nat) (i : nat) (data : round_data).

(** [k] and [d] are the offsets of the loop pointers. *)
Definition exec_round (k d : nat) (st : list Z * list Z) (c : sha_instr) : list Z * list Z :=
  let '(v, data) := st in
  match c with
  | ROUND ra rb rc rd re rf rg rh i src =>
      let '(w, data) :=
        match src with
        | Direct j => (nth (d + j) data 0, data)
        | Expand j => let data := EXPAND data j in (nth j data 0, data)
        end in
      let get x := nth x v 0 in
      let h := u32 (get rh + (S1 (get re) + Choice (get re) (get rf) (get rg) + nth (k + i) sha256_K 0 + w)) in
      let dd := u32 (get rd + h) in
      let h := u32 (h + (S0 (get ra) + Majority (get ra) (get rb) (get rc))) in
      (<[rh := h]> (<[rd := dd]> v), data)
  end.

(** The bodies of the two loops. *)
Definition rounds_direct : list sha_instr :=
  [ROUND A_ B_ C_ D_ E_ F_ G_ H_ 0 (Direct 0);
   ROUND H_ A_ B_ C_ D_ E_ F_ G_ 1 (Direct 1);
   ROUND G_ H_ A_ B_ C_ D_ E_ F_ 2 (Direct 2);
   ROUND F_ G_ H_ A_ B_ C_ D_ E_ 3 (Direct 3);
   ROUND E_ F_ G_ H_ A_ B_ C_ D_ 4 (Direct 4);
   ROUND D_ E_ F_ G_ H_ A_ B_ C_ 5 (Direct 5);
   ROUND C_ D_ E_ F_ G_ H_ A_ B_ 6 (Direct 6);
   ROUND B_ C_ D_ E_ F_ G_ H_ A_ 7 (Direct 7)].

Definition rounds_expand : list sha_instr :=
  [ROUND A_ B_ C_ D_ E_ F_ G_ H_ 0 (Expand 0);
   ROUND H_ A_ B_ C_ D_ E_ F_ G_ 1 (Expand 1);
   ROUND G_ H_ A_ B_ C_ D_ E_ F_ 2 (Expand 2);
   ROUND F_ G_ H_ A_ B_ C_ D_ E_ 3 (Expand 3);
   ROUND E_ F_ G_ H_ A_ B_ C_ D_ 4 (Expand 4);
   ROUND D_ E_ F_ G_ H_ A_ B_ C_ 5 (Expand 5);
   ROUND C_ D_ E_ F_ G_ H_ A_ B_ 6 (Expand 6);
   ROUND B_ C_ D_ E_ F_ G_ H_ A_ 7 (Expand 7);
   ROUND A_ B_ C_ D_ E_ F_ G_ H_ 8 (Expand 8);
   ROUND H_ A_ B_ C_ D_ E_ F_ G_ 9 (Expand 9);
   ROUND G_ H_ A_ B_ C_ D_ E_ F_ 10 (Expand 10);
   ROUND F_ G_ H_ A_ B_ C_ D_ E_ 11 (Expand 11);
   ROUND E_ F_ G_ H_ A_ B_ C_ D_ 12 (Expand 12);
   ROUND D_ E_ F_ G_ H_ A_ B_ C_ 13 (Expand 13);
   ROUND C_ D_ E_ F_ G_ H_ A_ B_ 14 (Expand 14);
   ROUND B_ C_ D_ E_ F_ G_ H_ A_ 15 (Expand 15)].

Definition READ_UINT32 (b0 b1 b2 b3 : Z) : Z :=
  Z.lor (Z.lor (Z.lor (Z.shiftl b0 24) (Z.shiftl b1 16)) (Z.shiftl b2 8)) b3.

Fixpoint be_words (input : bytes) : list Z :=
  match input with
  | b0 :: b1 :: b2 :: b3 :: rest => READ_UINT32 b0 b1 b2 b3 :: be_words rest
  | _ => []
  end.

(** [_nettle_sha256_compress (state, input, K)]; the lists are the values of
    [i] in the two loops. *)
Definition sha256_compress (state : list Z) (input : bytes) : list Z :=
  let data := be_words input in
  let st := fold_left (λ st i, fold_left (exec_round i i) rounds_direct st) [0; 8]%nat (state, data) in
  let '(v, _) := fold_left (λ st i, fold_left (exec_round i 0) rounds_expand st) [16; 32; 48]%nat st in
  zip_with (λ s x, u32 (s + x)) state v.

#[global] Arguments sha256_compress : simpl never.

(** ** The context *)

Record sha256_ctx := mkSHA { sha_state : list Z; sha_count : Z; sha_block : bytes; sha_index : Z }.

Definition sha256_H0 : list Z :=
  [1779033703; 3144134277; 1013904242; 2773480762;
   1359893119; 2600822924; 528734635; 1541459225].

Definition sha256_init (ctx : sha256_ctx) : sha256_ctx := mkSHA sha256_H0 0 (sha_block ctx) 0.

(** [while (length >= sizeof (block))] of [MD_UPDATE]. *)
Fixpoint sha_blocks (fuel : nat) (state : list Z) (count : Z) (data : bytes) (length : Z)
    : option (list Z * Z * bytes * Z) :=
  if length >=? 64 then
    match fuel with
    | O => None
    | S fuel' =>
        block ← mem_read data 0 64;
        sha_blocks fuel' (sha256_compress state block) (u64 (count + 1)) (drop 64 data) (length - 64)
    end
  else Some (state, count, data, length).

(** The part of [MD_UPDATE] from the loop on. *)
Definition sha_update_blocks (state : list Z) (count : Z) (block data : bytes) (length : Z)
    : option sha256_ctx :=
  '(state, count, data, length) ← sha_blocks (Z.to_nat length) state count data length;
  bs ← mem_read data 0 length;
  block ← mem_write block 0 bs;
  Some (mkSHA state count block length).

Definition sha256_update (ctx : sha256_ctx) (data : bytes) (length : Z) : option sha256_ctx :=
  if negb (sha_index ctx =? 0) then
    let left := 64 - sha_index ctx in
    if length <? left then
      bs ← mem_read data 0 length;
      block ← mem_write (sha_block ctx) (sha_index ctx) bs;
      Some (mkSHA (sha_state ctx) (sha_count ctx) block (u32 (sha_index ctx + length)))
    else
      bs ← mem_read data 0 left;
      block ← mem_write (sha_block ctx) (sha_index ctx) bs;
      sha_update_blocks (sha256_compress (sha_state ctx) block) (u64 (sha_count ctx + 1)) block
        (drop (Z.to_nat left) data) (length - left)
  else sha_update_blocks (sha_state ctx) (sha_count ctx) (sha_block ctx) data length.

Definition WRITE_UINT32 (i : Z) : bytes :=
  [Z.land (Z.shiftr i 24) 255; Z.land (Z.shiftr i 16) 255; Z.land (Z.shiftr i 8) 255; Z.land i 255].

Definition WRITE_UINT64 (i : Z) : bytes :=
  [Z.land (Z.shiftr i 56) 255; Z.land (Z.shiftr i 48) 255; Z.land (Z.shiftr i 40) 255;
   Z.land (Z.shiftr i 32) 255; Z.land (Z.shiftr i 24) 255; Z.land (Z.shiftr i 16) 255;
   Z.land (Z.shiftr i 8) 255; Z.land i 255].

(** [_nettle_write_be32]: whole words, then the high-order bytes of the next
    one. *)
Definition nettle_write_be32 (length : nat) (src : list Z) : bytes :=
  concat (WRITE_UINT32 <$> take (length / 4) src)
  ++ (let word := nth (length / 4) src 0 in
      match (length mod 4)%nat with
      | 3%nat => [Z.land (Z.shiftr word 24) 255; Z.land (Z.shiftr word 16) 255; Z.land (Z.shiftr word 8) 255]
      | 2%nat => [Z.land (Z.shiftr word 24) 255; Z.land (Z.shiftr word 16) 255]
      | 1%nat => [Z.land (Z.shiftr word 24) 255]
      | _ => []
      end).

(** [MD_PAD (ctx, 8, COMPRESS)]: the state and block it leaves. *)
Definition MD_PAD (state : list Z) (block : bytes) (index : Z) : option (list Z * bytes) :=
  let i := index in
  block ← mem_write block i [128];
  let i := i + 1 in
  '(state, block, i) ←
    (if i >? 64 - 8 then
       block ← memset block i 0 (64 - i);
       Some (sha256_compress state block, block, 0)
     else Some (state, block, i));
  block ← memset block i 0 (64 - 8 - i);
  Some (state, block).

Definition sha256_write_digest (ctx : sha256_ctx) (length : nat) : option (bytes * sha256_ctx) :=
  '(state, block) ← MD_PAD (sha_state ctx) (sha_block ctx) (sha_index ctx);
  let bit_count := Z.lor (u64 (Z.shiftl (sha_count ctx) 9)) (u32 (Z.shiftl (sha_index ctx) 3)) in
  block ← mem_write block (64 - 8) (WRITE_UINT64 bit_count);
  let state := sha256_compress state block in
  Some (nettle_write_be32 length state, mkSHA state (sha_count ctx) block (sha_index ctx)).

Definition sha256_digest (ctx : sha256_ctx) : option (bytes * sha256_ctx) :=
  '(digest, ctx) ← sha256_write_digest ctx 32;
  Some (digest, sha256_init ctx).

(** ** FIPS 180-4 *)

Module FIPS180.

Definition ROTR (n x : Z) : Z := Z.lor (Z.shiftr x n) (u32 (Z.shiftl x (32 - n))).

Definition Ch (x y z : Z) : Z := Z.lxor (Z.land x y) (Z.land (Z.lnot x) z).

Definition Maj (x y z : Z) : Z := Z.lxor (Z.lxor (Z.land x y) (Z.land x z)) (Z.land y z).

Definition Sigma0 (x : Z) : Z := Z.lxor (Z.lxor (ROTR 2 x) (ROTR 13 x)) (ROTR 22 x).

Definition Sigma1 (x : Z) : Z := Z.lxor (Z.lxor (ROTR 6 x) (ROTR 11 x)) (ROTR 25 x).

Definition sigma0 (x : Z) : Z := Z.lxor (Z.lxor (ROTR 7 x) (ROTR 18 x)) (Z.shiftr x 3).

Definition sigma1 (x : Z) : Z := Z.lxor (Z.lxor (ROTR 17 x) (ROTR 19 x)) (Z.shiftr x 10).

(** The message schedule, word by word. *)
Definition next_word (w : list Z) : Z :=
  let t := length w in
  u32 (sigma1 (nth (t - 2) w 0) + nth (t - 7) w 0 + sigma0 (nth (t - 15) w 0) + nth (t - 16) w 0).

Fixpoint extend (n : nat) (w : list Z) : list Z :=
  match n with O => w | S n' => extend n' (w ++ [next_word w]) end.

Definition schedule (block : bytes) : list Z := extend 48 (be_words block).

(** Step [t] of the main loop on the eight working variables. *)
Definition round_kw (k w : Z) (v : list Z) : list Z :=
  match v with
  | [a; b; c; d; e; f; g; h] =>
      let T1 := u32 (h + Sigma1 e + Ch e f g + k + w) in
      let T2 := u32 (Sigma0 a + Maj a b c) in
      [u32 (T1 + T2); a; b; c; u32 (d + T1); e; f; g]
  | _ => v
  end.

Definition round (w : list Z) (v : list Z) (t : nat) : list Z :=
  round_kw (nth t sha256_K 0) (nth t w 0) v.

Definition compress (s : list Z) (block : bytes) : list Z :=
  zip_with (λ a b, u32 (a + b)) s (fold_left (round (schedule block)) (seq 0 64) s).

(** Bytes of a number, high-order first. *)
Fixpoint be_bytes (n : nat) (v : Z) : bytes :=
  match n with O => [] | S n' => (v / 256 ^ Z.of_nat n') mod 256 :: be_bytes n' v end.

Definition padding (len : nat) : bytes :=
  128 :: replicate ((119 - len mod 64) mod 64) 0 ++ be_bytes 8 (u64 (8 * Z.of_nat len)).

Definition sha256 (m : bytes) : bytes :=
  concat (be_bytes 4 <$> absorbed compress sha256_H0 (m ++ padding (length m))).

End FIPS180.

(** ** The compression function is the standard's *)

Lemma ROTL_ROTR n x : 0 < n < 32 -> ROTL32 n x = FIPS180.ROTR (32 - n) x.
Proof.
  intros Hn. unfold ROTL32, FIPS180.ROTR. rewrite Z.lor_comm. change 31 with (Z.ones 5).
  rewrite Z.land_ones by lia. change (2 ^ 5) with 32.
  rewrite <- (Z_mod_plus_full _ 1), Z.mod_small by lia.
  replace (- n + 1 * 32) with (32 - n) by lia. replace (32 - (32 - n)) with n by lia. done.
Qed.

Lemma S0_Sigma0 x : S0 x = FIPS180.Sigma0 x.
Proof. unfold S0. by rewrite !ROTL_ROTR by lia. Qed.

Lemma S1_Sigma1 x : S1 x = FIPS180.Sigma1 x.
Proof. unfold S1. by rewrite !ROTL_ROTR by lia. Qed.

Lemma s0_sigma0 x : s0 x = FIPS180.sigma0 x.
Proof. unfold s0. by rewrite !ROTL_ROTR by lia. Qed.

Lemma s1_sigma1 x : s1 x = FIPS180.sigma1 x.
Proof. unfold s1. by rewrite !ROTL_ROTR by lia. Qed.

Lemma Choice_Ch x y z : Choice x y z = FIPS180.Ch x y z.
Proof.
  unfold Choice, FIPS180.Ch. apply Z.bits_inj'. intros n Hn.
  rewrite !Z.lxor_spec, !Z.land_spec, Z.lxor_spec, Z.lnot_spec by done.
  by destruct (Z.testbit x n), (Z.testbit y n), (Z.testbit z n).
Qed.

Lemma Majority_Maj x y z : Majority x y z = FIPS180.Maj x y z.
Proof.
  unfold Majority, FIPS180.Maj. apply Z.bits_inj'. intros n Hn.
  rewrite !Z.lxor_spec, !Z.land_spec, !Z.lxor_spec.
  by destruct (Z.testbit x n), (Z.testbit y n), (Z.testbit z n).
Qed.

(** Where working variable [j] of step [t] lives. *)
Definition place (t j : nat) : nat := ((8 + j - t mod 8) mod 8)%nat.

Definition view (t : nat) (v : list Z) : list Z := (λ j, nth (place t j) v 0) <$> seq 0 8.

Definition instr_at (t i : nat) (src : round_data) : sha_instr :=
  ROUND (place t 0) (place t 1) (place t 2) (place t 3)
        (place t 4) (place t 5) (place t 6) (place t 7) i src.

Lemma rounds_direct_instrs : rounds_direct = (λ j, instr_at j j (Direct j)) <$> seq 0 8.
Proof. reflexivity. Qed.

Lemma rounds_expand_instrs : rounds_expand = (λ j, instr_at j j (Expand j)) <$> seq 0 16.
Proof. reflexivity. Qed.

(** The registers after a round with constant [k] and word [w]. *)
Definition round_regs (t : nat) (k w : Z) (v : list Z) : list Z :=
  let get x := nth (place t x) v 0 in
  let h := u32 (get 7%nat + (S1 (get 4%nat) + Choice (get 4%nat) (get 5%nat) (get 6%nat) + k + w)) in
  let dd := u32 (get 3%nat + h) in
  let h := u32 (h + (S0 (get 0%nat) + Majority (get 0%nat) (get 1%nat) (get 2%nat))) in
  <[place t 7 := h]> (<[place t 3 := dd]> v).

Lemma round_regs_view t k w v :
  length v = 8%nat -> view (S t) (round_regs t k w v) = FIPS180.round_kw k w (view t v).
Proof.
  intros Hv. destruct v as [|v0 [|v1 [|v2 [|v3 [|v4 [|v5 [|v6 [|v7 [|]]]]]]]]]; simpl in Hv; try lia.
  unfold view, round_regs, place. rewrite S0_Sigma0, S1_Sigma1, Choice_Ch, Majority_Maj.
  assert (S t mod 8 = S (t mod 8) mod 8)%nat as ->.
  { rewrite <- Nat.add_1_r, <- (Nat.add_1_r (t mod 8)), Nat.Div0.add_mod. by rewrite (Nat.mod_small 1) by lia. }
  pose proof (Nat.mod_upper_bound t 8 ltac:(lia)).
  destruct (t mod 8)%nat as [|[|[|[|[|[|[|[|n]]]]]]]]; [..|lia];
    cbn -[Z.add wrap FIPS180.Sigma0 FIPS180.Sigma1 FIPS180.Ch FIPS180.Maj];
    rewrite (wrap_add_r 32 (u32 _)), !Z.add_assoc; done.
Qed.

(** *** The schedule and its circular buffer *)

Lemma extend_spec n w :
  (16 <= length w)%nat ->
  length (FIPS180.extend n w) = (length w + n)%nat
  /\ (forall t, (t < length w)%nat -> nth t (FIPS180.extend n w) 0 = nth t w 0)
  /\ (forall t, (length w <= t < length w + n)%nat ->
       nth t (FIPS180.extend n w) 0 =
       let at_ d := nth (t - d) (FIPS180.extend n w) 0 in
       u32 (FIPS180.sigma1 (at_ 2%nat) + at_ 7%nat + FIPS180.sigma0 (at_ 15%nat) + at_ 16%nat)).
Proof.
  revert w. induction n as [|n IH]; intros w Hw; simpl.
  - split_and!; [lia|done|lia].
  - destruct (IH (w ++ [FIPS180.next_word w])) as (H1 & H2 & H3); [rewrite length_app; simpl; lia|].
    rewrite length_app in *. simpl length in *. split_and!.
    + rewrite H1. lia.
    + intros t Ht. rewrite H2 by lia. by apply app_nth1.
    + intros t Ht. destruct (decide (t = length w)) as [->|]; [|apply H3; lia].
      rewrite !H2 by lia. rewrite app_nth2, Nat.sub_diag by lia. simpl.
      rewrite !app_nth1 by lia. done.
Qed.

(** Before step [t], the buffer holds the last sixteen words of the
    schedule [W]. *)
Definition ring (W : list Z) (t : nat) (data : list Z) : Prop :=
  length data = 16%nat
  /\ forall i, (i < 16)%nat -> nth ((t + i) mod 16) data 0 = nth (t - 16 + i) W 0.

Lemma ring_index (t : nat) (d : Z) (i : nat) :
  Z.of_nat i = 16 - d ->
  Z.to_nat (Z.land (Z.of_nat (t mod 16) - d) 15) = ((t + i) mod 16)%nat.
Proof.
  intros Hd. change 15 with (Z.ones 4). rewrite Z.land_ones by lia. change (2 ^ 4) with 16.
  rewrite Nat2Z.inj_mod. change (Z.of_nat 16) with 16. rewrite Zminus_mod_idemp_l.
  rewrite <- (Z_mod_plus_full _ 1).
  replace (Z.of_nat t - d + 1 * 16) with (Z.of_nat (t + i)) by lia.
  change 16 with (Z.of_nat 16). rewrite <- Nat2Z.inj_mod. apply Nat2Z.id.
Qed.

Lemma ring_index_here (t : nat) :
  Z.to_nat (Z.land (Z.of_nat (t mod 16)) 15) = (t mod 16)%nat.
Proof.
  change 15 with (Z.ones 4). rewrite Z.land_ones by lia. change (2 ^ 4) with (Z.of_nat 16).
  rewrite <- Nat2Z.inj_mod, Nat.Div0.mod_mod. apply Nat2Z.id.
Qed.

Lemma mod16_add (t : nat) : ((t + 16) mod 16 = t mod 16)%nat.
Proof. replace (t + 16)%nat with (t + 1 * 16)%nat by lia. apply Nat.Div0.mod_add. Qed.

Lemma nth_insert_eq (l : list Z) i x : (i < length l)%nat -> nth i (<[i := x]> l) 0 = x.
Proof. intros. apply nth_lookup_Some. by apply list_lookup_insert_eq. Qed.

Lemma nth_insert_ne (l : list Z) i j x : i ≠ j -> nth j (<[i := x]> l) 0 = nth j l 0.
Proof. intros. rewrite !nth_lookup. by rewrite list_lookup_insert_ne. Qed.

Lemma EXPAND_ring W t data :
  ring W t data -> (16 <= t)%nat ->
  nth t W 0 = u32 (FIPS180.sigma1 (nth (t - 2) W 0) + nth (t - 7) W 0
                   + FIPS180.sigma0 (nth (t - 15) W 0) + nth (t - 16) W 0) ->
  nth (t mod 16) (EXPAND data (t mod 16)) 0 = nth t W 0 /\ ring W (S t) (EXPAND data (t mod 16)).
Proof.
  intros [Hl Hr] Ht HW.
  assert (t mod 16 < 16)%nat as Hm by (apply Nat.mod_upper_bound; lia).
  unfold EXPAND. rewrite ring_index_here, (ring_index t 0 16), (ring_index t 2 14),
    (ring_index t 7 9), (ring_index t 15 1) by lia.
  assert (nth (t mod 16) data 0 = nth (t - 16) W 0) as H0.
  { pose proof (Hr 0%nat ltac:(lia)) as E. by rewrite !Nat.add_0_r in E. }
  rewrite mod16_add, !Hr, H0 by lia.
  rewrite s1_sigma1, s0_sigma0.
  replace (t - 16 + 14)%nat with (t - 2)%nat by lia. replace (t - 16 + 9)%nat with (t - 7)%nat by lia.
  replace (t - 16 + 1)%nat with (t - 15)%nat by lia.
  rewrite (Z.add_comm (nth (t - 16) W 0)), <- HW.
  split; [apply nth_insert_eq; lia|]. split; [by rewrite length_insert|].
  intros i Hi. destruct (decide (i = 15%nat)) as [->|].
  - replace (S t + 15)%nat with (t + 16)%nat by lia. rewrite mod16_add, nth_insert_eq by lia.
    f_equal. lia.
  - rewrite nth_insert_ne.
    + replace (S t + i)%nat with (t + (S i))%nat by lia. rewrite Hr by lia. f_equal. lia.
    + pose proof (Nat.div_mod_eq t 16). pose proof (Nat.div_mod_eq (S t + i) 16). lia.
Qed.

Lemma place_add k t j : (k mod 8 = 0)%nat -> place (k + t) j = place t j.
Proof. intros Hk. unfold place. by rewrite Nat.Div0.add_mod, Hk, Nat.add_0_l, Nat.Div0.mod_mod. Qed.

Lemma round_regs_length t k w v : length (round_regs t k w v) = length v.
Proof. unfold round_regs. by rewrite !length_insert. Qed.

Lemma exec_direct k t v data :
  (k mod 8 = 0)%nat ->
  exec_round k k (v, data) (instr_at t t (Direct t))
  = (round_regs (k + t) (nth (k + t) sha256_K 0) (nth (k + t) data 0) v, data).
Proof. intros Hk. unfold round_regs. by rewrite !place_add. Qed.

Lemma exec_expand k t v data :
  (k mod 8 = 0)%nat ->
  exec_round k 0 (v, data) (instr_at t t (Expand t))
  = (round_regs (k + t) (nth (k + t) sha256_K 0) (nth t (EXPAND data t) 0) v, EXPAND data t).
Proof. intros Hk. unfold round_regs. by rewrite !place_add. Qed.

Lemma run_direct W k j len v data :
  (k mod 8 = 0)%nat -> length v = 8%nat -> (k + j + len <= 16)%nat ->
  (forall t, (t < 16)%nat -> nth t data 0 = nth t W 0) ->
  ∃ v', fold_left (exec_round k k) ((λ j, instr_at j j (Direct j)) <$> seq j len) (v, data) = (v', data)
    /\ length v' = 8%nat
    /\ view (k + j + len) v' = fold_left (FIPS180.round W) (seq (k + j) len) (view (k + j) v).
Proof.
  intros Hk Hv Hl HW. revert j v Hv Hl. induction len as [|len IH]; intros j v Hv Hl.
  - exists v. by rewrite Nat.add_0_r.
  - cbn [seq fmap list_fmap fold_left]. rewrite exec_direct by done.
    destruct (IH (S j) (round_regs (k + j) (nth (k + j) sha256_K 0) (nth (k + j) data 0) v))
      as (v' & E & Hv' & Hview); [by rewrite round_regs_length|lia|].
    exists v'. split; [exact E|]. split; [done|].
    replace (k + j + S len)%nat with (k + S j + len)%nat by lia. rewrite Hview.
    replace (k + S j)%nat with (S (k + j)) by lia.
    rewrite round_regs_view, HW by (done || lia). done.
Qed.

Lemma run_expand W k j len v data :
  (forall t, (16 <= t < 64)%nat -> nth t W 0 =
     u32 (FIPS180.sigma1 (nth (t - 2) W 0) + nth (t - 7) W 0
          + FIPS180.sigma0 (nth (t - 15) W 0) + nth (t - 16) W 0)) ->
  (k mod 16 = 0)%nat -> (16 <= k)%nat -> length v = 8%nat -> (j + len <= 16)%nat ->
  (k + j + len <= 64)%nat -> ring W (k + j) data ->
  ∃ v' data', fold_left (exec_round k 0) ((λ j, instr_at j j (Expand j)) <$> seq j len) (v, data) = (v', data')
    /\ length v' = 8%nat /\ ring W (k + j + len) data'
    /\ view (k + j + len) v' = fold_left (FIPS180.round W) (seq (k + j) len) (view (k + j) v).
Proof.
  intros HW Hk Hk16 Hv. assert (k mod 8 = 0)%nat as Hk8.
  { pose proof (Nat.div_mod_eq k 16) as E. rewrite Hk in E.
    replace k with ((2 * (k / 16)) * 8)%nat by lia. apply Nat.Div0.mod_mul. }
  revert j v data Hv. induction len as [|len IH]; intros j v data Hv Hjl Hl Hr.
  - exists v, data. by rewrite Nat.add_0_r.
  - cbn [seq fmap list_fmap fold_left]. rewrite exec_expand by done.
    assert ((k + j) mod 16 = j)%nat as Ej.
    { rewrite Nat.Div0.add_mod, Hk, Nat.add_0_l, Nat.Div0.mod_mod. apply Nat.mod_small. lia. }
    destruct (EXPAND_ring W (k + j) data Hr) as [Ew Hr']; [lia|apply HW; lia|]. rewrite Ej in Ew, Hr'.
    destruct (IH (S j) (round_regs (k + j) (nth (k + j) sha256_K 0) (nth j (EXPAND data j) 0) v)
      (EXPAND data j)) as (v' & data' & E & Hv' & Hrr & Hview);
      [by rewrite round_regs_length|lia|lia|by replace (k + S j)%nat with (S (k + j)) by lia|].
    exists v', data'. split; [exact E|]. split; [done|].
    replace (k + j + S len)%nat with (k + S j + len)%nat by lia. split; [done|]. rewrite Hview.
    replace (k + S j)%nat with (S (k + j)) by lia.
    rewrite round_regs_view, Ew by done. done.
Qed.

Lemma length_be_words (b : bytes) n : length b = (4 * n)%nat -> length (be_words b) = n.
Proof.
  revert b. induction n as [|n IH]; intros b Hb.
  - by destruct b.
  - destruct b as [|b0 [|b1 [|b2 [|b3 b]]]]; simpl in Hb; try lia. simpl. f_equal. apply IH. lia.
Qed.

Lemma view_8 k v : (k mod 8 = 0)%nat -> length v = 8%nat -> view k v = v.
Proof.
  intros Hk Hv. unfold view, place. rewrite Hk.
  by destruct v as [|v0 [|v1 [|v2 [|v3 [|v4 [|v5 [|v6 [|v7 [|]]]]]]]]]; simpl in Hv; try lia.
Qed.

Lemma fold_left_2 {A B} (f : A -> B -> A) x y a : fold_left f [x; y] a = f (f a x) y.
Proof. reflexivity. Qed.

Lemma fold_left_3 {A B} (f : A -> B -> A) x y z a : fold_left f [x; y; z] a = f (f (f a x) y) z.
Proof. reflexivity. Qed.

Lemma seq_64 : seq 0 64 = seq 0 8 ++ seq 8 8 ++ seq 16 16 ++ seq 32 16 ++ seq 48 16.
Proof. reflexivity. Qed.

Lemma sha256_compress_spec s b :
  length s = 8%nat -> length b = 64%nat ->
  sha256_compress s b = FIPS180.compress s b /\ length (sha256_compress s b) = 8%nat.
Proof.
  intros Hs Hb. assert (length (be_words b) = 16%nat) as Hw by (by apply length_be_words).
  unfold sha256_compress, FIPS180.compress, FIPS180.schedule.
  destruct (extend_spec 48 (be_words b)) as (_ & HW1 & HW2); [lia|]. rewrite Hw in HW1, HW2.
  set (W := FIPS180.extend 48 (be_words b)) in *. clearbody W.
  set (data := be_words b) in *. clearbody data.
  assert (forall t, (t < 16)%nat -> nth t data 0 = nth t W 0) as HW1' by (intros; symmetry; auto).
  assert (ring W 16 data) as Hr.
  { split; [done|]. intros i Hi. rewrite Nat.add_comm, mod16_add, Nat.mod_small, HW1 by lia. done. }
  rewrite rounds_direct_instrs, rounds_expand_instrs, fold_left_2, fold_left_3.
  destruct (run_direct W 0 0 8 s data) as (v1 & -> & Hv1 & E1); [done|done|lia|done|].
  destruct (run_direct W 8 0 8 v1 data) as (v2 & -> & Hv2 & E2); [done|done|lia|done|].
  destruct (run_expand W 16 0 16 v2 data) as (v3 & d3 & -> & Hv3 & Hr3 & E3); [done|done|lia|done|lia|lia|done|].
  destruct (run_expand W 32 0 16 v3 d3) as (v4 & d4 & -> & Hv4 & Hr4 & E4); [done|done|lia|done|lia|lia|done|].
  destruct (run_expand W 48 0 16 v4 d4) as (v5 & d5 & -> & Hv5 & _ & E5); [done|done|lia|done|lia|lia|done|].
  rewrite !view_8 in E1, E2, E3, E4, E5 by done.
  assert (v5 = fold_left (FIPS180.round W) (seq 0 64) s) as ->.
  { rewrite seq_64, !fold_left_app. by rewrite E5, E4, E3, E2, E1. }
  split; [done|]. rewrite length_zip_with. lia.
Qed.

Lemma absorbed_fips s m :
  length s = 8%nat ->
  absorbed sha256_compress s m = absorbed FIPS180.compress s m
  /\ length (absorbed sha256_compress s m) = 8%nat.
Proof.
  revert s. induction m as [m Hm|b m Hb IH] using blocks_ind; intros s Hs.
  - by rewrite !absorbed_short.
  - rewrite !absorbed_block by done. destruct (sha256_compress_spec s b Hs Hb) as [<- Hl].
    by apply IH.
Qed.

(** ** The context represents the message digested so far *)

Definition sha_repr (c : sha256_ctx) (m : bytes) : Prop :=
  sha_state c = absorbed sha256_compress sha256_H0 m
  /\ sha_count c = u64 (Z.of_nat (length m / 64))
  /\ sha_index c = Z.of_nat (length m mod 64)
  /\ length (sha_block c) = 64%nat
  /\ take (length m mod 64) (sha_block c) = pending m.

Lemma sha_blocks_absorbed fuel st (q : nat) l r :
  (length l <= fuel)%nat ->
  sha_blocks fuel st (u64 (Z.of_nat q)) (l ++ r) (Z.of_nat (length l))
  = Some (absorbed sha256_compress st l, u64 (Z.of_nat (q + length l / 64)), pending l ++ r,
          Z.of_nat (length (pending l))).
Proof.
  revert fuel st q. induction l as [l Hl|b l Hb IH] using blocks_ind; intros fuel st q Hf.
  - rewrite absorbed_short, pending_short, Nat.div_small, Nat.add_0_r by done.
    destruct fuel; cbn [sha_blocks]; destruct (Z.geb_spec (Z.of_nat (length l)) 64); (lia || done).
  - rewrite absorbed_block, pending_block, div64_block by done. rewrite length_app, Hb in *.
    destruct fuel as [|fuel]; [lia|]. cbn [sha_blocks].
    destruct (Z.geb_spec (Z.of_nat (64 + length l)) 64); [|lia].
    rewrite <- app_assoc. replace 64 with (Z.of_nat (length b)) at 1 by lia. rewrite mem_read_app.
    cbn [mbind option_bind]. rewrite drop_app_length' by done.
    replace (Z.of_nat (64 + length l) - 64) with (Z.of_nat (length l)) by lia.
    rewrite wrap_add_l. replace (Z.of_nat q + 1) with (Z.of_nat (S q)) by lia.
    replace (q + S (length l / 64))%nat with (S q + length l / 64)%nat by lia. apply IH. lia.
Qed.

Lemma sha_update_blocks_spec st (q : nat) block l r :
  length block = 64%nat ->
  ∃ block', sha_update_blocks st (u64 (Z.of_nat q)) block (l ++ r) (Z.of_nat (length l))
    = Some (mkSHA (absorbed sha256_compress st l) (u64 (Z.of_nat (q + length l / 64))) block'
                  (Z.of_nat (length l mod 64)))
    /\ length block' = 64%nat /\ take (length l mod 64) block' = pending l.
Proof.
  intros Hb. unfold sha_update_blocks. rewrite sha_blocks_absorbed by lia. cbn [mbind option_bind].
  rewrite mem_read_app. cbn [mbind option_bind].
  destruct (mem_write_append block (pending l) 0) as (block' & E & Hl & Ht & _).
  { pose proof (length_pending_lt l). lia. }
  change (Z.of_nat 0) with 0 in E. rewrite E. cbn [mbind option_bind].
  exists block'. rewrite <- length_pending. rewrite Nat.add_0_l in Ht. split_and!; [done|lia|done].
Qed.

Lemma sha_div_add (n l : nat) (h := (n mod 64)%nat) :
  (h + l < 64 -> (n + l) / 64 = n / 64 /\ (n + l) mod 64 = h + l)%nat
  /\ (64 <= h + l -> (n + l) / 64 = S (n / 64) + (l - (64 - h)) / 64
                  /\ (n + l) mod 64 = (l - (64 - h)) mod 64)%nat.
Proof.
  subst h. pose proof (Nat.div_mod_eq n 64). pose proof (Nat.mod_upper_bound n 64 ltac:(lia)).
  set (h := (n mod 64)%nat) in *. set (q := (n / 64)%nat) in *. split; intros Hl.
  - replace (n + l)%nat with (q * 64 + (h + l))%nat by lia.
    rewrite Nat.div_add_l, Nat.div_small by lia. split; [lia|].
    rewrite Nat.add_comm, Nat.Div0.mod_add. by apply Nat.mod_small.
  - replace (n + l)%nat with (S q * 64 + (l - (64 - h)))%nat by lia.
    rewrite Nat.div_add_l by lia. split; [lia|]. by rewrite Nat.add_comm, Nat.Div0.mod_add.
Qed.

Lemma sha256_update_repr c m l r :
  sha_repr c m ->
  ∃ c', sha256_update c (l ++ r) (Z.of_nat (length l)) = Some c' /\ sha_repr c' (m ++ l).
Proof.
  intros (Hst & Hct & Hix & Hbl & Hbuf). unfold sha256_update, sha_repr. rewrite Hix, Hct, Hst, length_app.
  destruct (sha_div_add (length m) (length l)) as [Hshort Hlong].
  set (h := (length m mod 64)%nat) in *.
  assert (h < 64)%nat as Hh by (apply Nat.mod_upper_bound; lia).
  destruct (Z.eqb_spec (Z.of_nat h) 0) as [H0|H0]; cbn [negb].
  - destruct (absorb_aligned sha256_compress sha256_H0 m l) as [E1 E2]; [lia|].
    destruct (sha_update_blocks_spec (absorbed sha256_compress sha256_H0 m) (length m / 64) (sha_block c) l r Hbl)
      as (block' & -> & Hb' & Ht).
    eexists. split; [done|]. cbn [sha_state sha_count sha_index sha_block].
    assert ((length m + length l) / 64 = length m / 64 + length l / 64 /\ (length m + length l) mod 64 = length l mod 64)%nat
      as [-> ->].
    { pose proof (Nat.div_mod_eq (length m) 64) as Ed. fold h in Ed.
      replace (length m + length l)%nat with ((length m / 64) * 64 + length l)%nat by lia.
      rewrite Nat.div_add_l by lia. split; [done|]. by rewrite Nat.add_comm, Nat.Div0.mod_add. }
    rewrite E1, E2. done.
  - destruct (Z.ltb_spec (Z.of_nat (length l)) (64 - Z.of_nat h)) as [Hlt|Hge].
    + destruct (absorb_more_short sha256_compress sha256_H0 m l) as [E1 E2]; [lia|].
      rewrite mem_read_app. cbn [mbind option_bind].
      destruct (mem_write_append (sha_block c) l h) as (block' & -> & Hb' & Ht & _); [lia|].
      cbn [mbind option_bind]. eexists. split; [done|]. cbn [sha_state sha_count sha_index sha_block].
      destruct (Hshort ltac:(lia)) as [-> ->]. rewrite E1, E2, Ht, Hbuf, (wrap_small 32) by lia.
      split_and!; [done|done|lia|lia|done].
    + destruct (absorb_more_block sha256_compress sha256_H0 m l) as (E1 & E2 & E3); [lia|].
      fold h in E1, E2, E3. set (need := (64 - h)%nat) in *.
      set (l1 := take need l) in *. set (l2 := drop need l) in *.
      assert (length l1 = need) as Hl1 by (subst l1; rewrite length_take; lia).
      assert (length l2 = length l - need)%nat as Hl2 by (subst l2; by rewrite length_drop).
      replace (l ++ r) with (l1 ++ (l2 ++ r)) by (by rewrite app_assoc; subst l1 l2; rewrite take_drop).
      replace (64 - Z.of_nat h) with (Z.of_nat (length l1)) by lia. rewrite mem_read_app.
      cbn [mbind option_bind].
      destruct (mem_write_append (sha_block c) l1 h) as (block1 & -> & Hb1 & Ht1 & _); [lia|].
      cbn [mbind option_bind]. rewrite Nat2Z.id, (drop_app_length' l1) by done.
      assert (block1 = pending m ++ l1) as ->.
      { rewrite <- Hbuf, <- Ht1. symmetry. apply take_ge. lia. }
      rewrite wrap_add_l. replace (Z.of_nat (length m / 64) + 1) with (Z.of_nat (S (length m / 64))) by (rewrite Nat2Z.inj_succ; done).
      replace (Z.of_nat (length l) - Z.of_nat (length l1)) with (Z.of_nat (length l2)) by lia.
      destruct (sha_update_blocks_spec (sha256_compress (absorbed sha256_compress sha256_H0 m) (pending m ++ l1))
        (S (length m / 64)) (pending m ++ l1) l2 r) as (block' & -> & Hb' & Ht); [exact E3|].
      eexists. split; [done|]. cbn [sha_state sha_count sha_index sha_block].
      destruct (Hlong ltac:(lia)) as [-> ->]. rewrite <- Hl2, E1, E2. done.
Qed.

(** ** Padding and output *)

Lemma land_255 x : Z.land x 255 = x mod 256.
Proof. change 255 with (Z.ones 8). by rewrite Z.land_ones. Qed.

Lemma WRITE_UINT32_bytes v : WRITE_UINT32 v = FIPS180.be_bytes 4 v.
Proof.
  unfold WRITE_UINT32. rewrite !land_255, !Z.shiftr_div_pow2 by lia. simpl.
  by rewrite Z.pow_0_r, Z.div_1_r.
Qed.

Lemma WRITE_UINT64_bytes v : WRITE_UINT64 v = FIPS180.be_bytes 8 v.
Proof.
  unfold WRITE_UINT64. rewrite !land_255, !Z.shiftr_div_pow2 by lia. simpl.
  by rewrite Z.pow_0_r, Z.div_1_r.
Qed.

Lemma length_be_bytes n v : length (FIPS180.be_bytes n v) = n.
Proof. induction n; simpl; auto. Qed.

Lemma lor_shifted y x : 0 <= x < 512 -> Z.lor (y * 512) x = y * 512 + x.
Proof.
  intros Hx. assert (Z.land (y * 512) x = 0) as E.
  { apply Z.bits_inj'. intros i Hi. rewrite Z.land_spec, Z.bits_0. change 512 with (2 ^ 9).
    destruct (Z.ltb_spec i 9); [by rewrite Z.mul_pow2_bits_low|].
    destruct (decide (x = 0)) as [->|]; [by rewrite Z.bits_0, andb_false_r|].
    rewrite (Z.bits_above_log2 x); [by rewrite andb_false_r|lia|].
    apply Z.log2_lt_pow2; [lia|]. apply Z.lt_le_trans with (2 ^ 9); [lia|]. apply Z.pow_le_mono_r; lia. }
  rewrite <- Z.lxor_lor by done. symmetry. by apply Z.add_nocarry_lxor.
Qed.

(** The count of blocks and the index combine to the length in bits. *)
Lemma bit_count_bits (n : nat) :
  Z.lor (u64 (Z.shiftl (u64 (Z.of_nat (n / 64))) 9)) (u32 (Z.shiftl (Z.of_nat (n mod 64)) 3))
  = u64 (8 * Z.of_nat n).
Proof.
  pose proof (Nat.div_mod_eq n 64). pose proof (Nat.mod_upper_bound n 64 ltac:(lia)).
  set (q := (n / 64)%nat) in *. set (h := (n mod 64)%nat) in *.
  rewrite !Z.shiftl_mul_pow2 by lia. change (2 ^ 9) with 512. change (2 ^ 3) with 8.
  rewrite (wrap_small 32) by lia. unfold wrap. rewrite Zmult_mod_idemp_l.
  change (2 ^ 64) with (36028797018963968 * 512). rewrite Z.mul_mod_distr_r by lia.
  set (y := Z.of_nat q mod 36028797018963968).
  rewrite (lor_shifted y (Z.of_nat h * 8)) by lia.
  subst y. replace (8 * Z.of_nat n) with (Z.of_nat h * 8 + Z.of_nat q * 512) by lia.
  rewrite <- (Z.add_mod_idemp_r _ (Z.of_nat q * 512)) by lia. rewrite Z.mul_mod_distr_r by lia.
  pose proof (Z.mod_pos_bound (Z.of_nat q) 36028797018963968 ltac:(lia)).
  rewrite (Z.mod_small (Z.of_nat h * 8 + _)) by lia. lia.
Qed.

Lemma fips_padding_length (n : nat) (h := (n mod 64)%nat) :
  length (FIPS180.padding n) = (if (h <? 56) then 64 - h else 128 - h)%nat.
Proof.
  subst h. unfold FIPS180.padding. cbn [length]. rewrite length_app, length_replicate, length_be_bytes.
  pose proof (Nat.mod_upper_bound n 64 ltac:(lia)). set (h := (n mod 64)%nat) in *.
  destruct (Nat.ltb_spec h 56).
  - replace (119 - h)%nat with (64 + (55 - h))%nat by lia. rewrite mod64_block, Nat.mod_small; lia.
  - rewrite Nat.mod_small; lia.
Qed.

Lemma sha_pad_absorbed c m :
  sha_repr c m ->
  ∃ st block, MD_PAD (sha_state c) (sha_block c) (sha_index c) = Some (st, block)
    /\ ∃ block', mem_write block (64 - 8) (FIPS180.be_bytes 8 (u64 (8 * Z.of_nat (length m)))) = Some block'
    /\ length block' = 64%nat
    /\ sha256_compress st block' = absorbed sha256_compress sha256_H0 (m ++ FIPS180.padding (length m)).
Proof.
  intros (Hst & _ & Hix & Hbl & Hbuf). unfold MD_PAD. rewrite Hix, Hst.
  set (h := (length m mod 64)%nat) in *. set (E0 := FIPS180.be_bytes 8 _).
  assert (length E0 = 8%nat) as HE by apply length_be_bytes.
  assert (h < 64)%nat as Hh by (apply Nat.mod_upper_bound; lia).
  rewrite <- (take_drop h (sha_block c)), Hbuf.
  assert (length (pending m) = h) as Hp by apply length_pending.
  assert (length (drop h (sha_block c)) = 64 - h)%nat as Hd by (rewrite length_drop; lia).
  set (d := drop h (sha_block c)) in *. clearbody d.
  destruct d as [|x d]; [simpl in Hd; lia|]. cbn [length] in Hd.
  change (x :: d) with ([x] ++ d). rewrite mem_write_mid by (done || lia). cbn [mbind option_bind].
  destruct (Z.gtb_spec (Z.of_nat h + 1) (64 - 8)).
  - (* the length does not fit into this block *)
    rewrite (app_assoc _ [128] d), <- (app_nil_r d).
    rewrite memset_mid by (rewrite ?length_app; cbn [length]; lia). cbn [mbind option_bind].
    rewrite app_nil_r, <- app_assoc. set (block := pending m ++ [128] ++ replicate (length d) 0).
    assert (length block = 64%nat) as Hlb by (subst block; rewrite !length_app, length_replicate; simpl; lia).
    rewrite <- (take_drop 56 block).
    pose proof (memset_mid [] (take 56 block) (drop 56 block) 0 0 (64 - 8 - 0)) as Em.
    cbn [app] in Em. rewrite Em by (rewrite ?length_take, ?Hlb; done). cbn [mbind option_bind].
    rewrite take_drop, length_take, Hlb. eexists _, _. split; [done|].
    rewrite <- (app_nil_r (drop 56 block)).
    rewrite mem_write_mid by (rewrite ?length_replicate, ?length_drop, ?Hlb; lia).
    eexists. split; [done|]. rewrite app_nil_r, length_app, length_replicate. split; [lia|].
    destruct (absorb_more_block sha256_compress sha256_H0 m (FIPS180.padding (length m))) as (E1 & _ & _).
    { fold h. rewrite fips_padding_length. fold h. destruct (Nat.ltb_spec h 56); lia. }
    fold h in E1. rewrite E1. unfold FIPS180.padding. fold h E0.
    replace ((119 - h) mod 64)%nat with (length d + 56)%nat by (rewrite Nat.mod_small; lia).
    rewrite replicate_add, <- app_assoc. change (128 :: ?a ++ ?b) with ((128 :: a) ++ b).
    rewrite take_app_length', drop_app_length' by (simpl; rewrite length_replicate; lia).
    assert (length (replicate 56 0 ++ E0) = 64%nat) as Hlast by (rewrite length_app, length_replicate; lia).
    set (last := replicate 56 0 ++ E0) in *. rewrite <- (app_nil_r last).
    rewrite (absorbed_block _ _ last []) by done. rewrite (absorbed_short _ _ []) by (simpl; lia).
    subst block last. by rewrite Nat.min_l by lia.
  - (* everything fits *)
    rewrite (app_assoc _ [128] d), <- (take_drop (55 - h) d). cbn [mbind option_bind].
    rewrite memset_mid by (rewrite ?length_app, ?length_take; cbn [length]; lia). cbn [mbind option_bind].
    eexists _, _. split; [done|]. rewrite (app_assoc (_ ++ [128])), <- (app_nil_r (drop _ d)).
    rewrite length_take, Nat.min_l by lia.
    rewrite mem_write_mid by (rewrite ?length_app, ?length_replicate, ?length_drop; simpl; lia).
    eexists. split; [done|]. rewrite app_nil_r, !length_app, length_replicate. split; [simpl; lia|].
    destruct (absorb_more_block sha256_compress sha256_H0 m (FIPS180.padding (length m))) as (E1 & _ & _).
    { fold h. rewrite fips_padding_length. fold h. destruct (Nat.ltb_spec h 56); lia. }
    fold h in E1. rewrite E1. unfold FIPS180.padding. fold h E0.
    replace ((119 - h) mod 64)%nat with (55 - h)%nat.
    2:{ replace (119 - h)%nat with (64 + (55 - h))%nat by lia. rewrite mod64_block, Nat.mod_small; lia. }
    rewrite take_ge, drop_ge by (simpl; rewrite length_app, length_replicate; lia).
    rewrite (absorbed_short _ _ []) by (simpl; lia). by rewrite <- !app_assoc.
Qed.

Lemma length_absorbed_H0 m : length (absorbed sha256_compress sha256_H0 m) = 8%nat.
Proof. by apply absorbed_fips. Qed.

Lemma write_be32_whole st :
  length st = 8%nat -> nettle_write_be32 32 st = concat (FIPS180.be_bytes 4 <$> st).
Proof.
  intros Hl. unfold nettle_write_be32. change (32 / 4)%nat with 8%nat. change (32 mod 4)%nat with 0%nat.
  rewrite take_ge, app_nil_r by lia. f_equal. apply list_fmap_ext. intros _ v _. apply WRITE_UINT32_bytes.
Qed.

Definition sha_valid (c : sha256_ctx) : Prop := length (sha_block c) = 64%nat.

Lemma sha256_digest_repr c m :
  sha_repr c m ->
  ∃ block, sha256_digest c = Some (FIPS180.sha256 m, mkSHA sha256_H0 0 block 0)
    /\ length block = 64%nat.
Proof.
  intros Hc. destruct (sha_pad_absorbed c m Hc) as (st & block & Ep & block' & Ew & Hl & Ea).
  destruct Hc as (_ & Hct & Hix & _ & _). unfold sha256_digest, sha256_write_digest.
  rewrite Ep. cbn [mbind option_bind]. rewrite Hct, Hix, bit_count_bits, WRITE_UINT64_bytes, Ew.
  cbn [mbind option_bind]. rewrite Ea. exists block'. split; [|done].
  rewrite write_be32_whole by apply length_absorbed_H0. unfold FIPS180.sha256, sha256_init.
  cbn [sha_block]. rewrite (proj1 (absorbed_fips sha256_H0 _ eq_refl)). done.
Qed.

(** ** The algorithm behind the digest interface *)

Definition sha256_ops : hash_ops sha256_ctx := {|
  digest_size := 32;
  hash_init := sha256_init;
  hash_update c l := sha256_update c l (Z.of_nat (length l));
  hash_digest := sha256_digest
|}.

Lemma sha256_init_repr c : sha_valid c -> sha_repr (sha256_init c) [].
Proof. intros H. by split_and!. Qed.

Lemma sha256_updates c m chunks :
  sha_repr c m ->
  ∃ c', hash_updates sha256_ops c chunks = Some c' /\ sha_repr c' (m ++ concat chunks).
Proof.
  revert c m. induction chunks as [|l chunks IH]; intros c m Hc;
    cbn [hash_updates concat hash_update sha256_ops].
  - exists c. by rewrite app_nil_r.
  - destruct (sha256_update_repr c m l [] Hc) as (c1 & E & Hc1). rewrite app_nil_r in E.
    rewrite E. cbn [mbind option_bind].
    destruct (IH c1 _ Hc1) as (c2 & ? & ?). exists c2. by rewrite app_assoc.
Qed.

Lemma length_concat_be_bytes k (st : list Z) : length (concat (FIPS180.be_bytes k <$> st)) = (k * length st)%nat.
Proof. induction st as [|v st IH]; [simpl; lia|]. rewrite fmap_cons. cbn [concat length]. rewrite length_app, length_be_bytes, IH. lia. Qed.

Lemma length_sha256 m : length (FIPS180.sha256 m) = 32%nat.
Proof.
  unfold FIPS180.sha256. rewrite length_concat_be_bytes, <- (proj1 (absorbed_fips sha256_H0 _ eq_refl)).
  by rewrite length_absorbed_H0.
Qed.

Lemma be_bytes_bytes n v : Forall is_byte (FIPS180.be_bytes n v).
Proof. induction n as [|n IH]; constructor; [apply Z.mod_pos_bound; lia|apply IH]. Qed.

Lemma sha256_bytes m : Forall is_byte (FIPS180.sha256 m).
Proof. unfold FIPS180.sha256. apply Forall_concat, Forall_fmap, Forall_true. intros v. apply be_bytes_bytes. Qed.

Lemma sha256_stream c chunks :
  sha_valid c ->
  ∃ c' block, hash_updates sha256_ops (sha256_init c) chunks = Some c'
    /\ sha256_digest c' = Some (FIPS180.sha256 (concat chunks), mkSHA sha256_H0 0 block 0)
    /\ length block = 64%nat.
Proof.
  intros Hc. destruct (sha256_updates (sha256_init c) [] chunks) as (c' & ? & Hc');
    [by apply sha256_init_repr|].
  destruct (sha256_digest_repr c' _ Hc') as (block & ? & ?). by exists c', block.
Qed.

Lemma sha256_law c chunks :
  sha_valid c -> Forall (Forall is_byte) chunks ->
  ∃ c' c'', hash_updates sha256_ops (hash_init sha256_ops c) chunks = Some c'
    /\ hash_digest sha256_ops c' = Some (FIPS180.sha256 (concat chunks), c'') /\ sha_valid c''.
Proof.
  intros Hc _. destruct (sha256_stream c chunks Hc) as (c' & block & ? & ? & ?).
  by exists c', (mkSHA sha256_H0 0 block 0).
Qed.

#[export] Instance sha256_lawful : LawfulHash sha256_ops sha_valid := {
  hash_of := FIPS180.sha256;
  hash_of_length := length_sha256;
  hash_of_bytes := sha256_bytes;
  hash_stream := sha256_law
}.

(** ** Theorems *)

(** The compression function, with its unrolled and register-rotated
    rounds and its sixteen-word circular message schedule, is the one of
    FIPS 180-4 with its 64-word schedule, on every state and block. *)
Theorem sha256_compress_is_fips180 s b :
  length s = 8%nat -> length b = 64%nat -> sha256_compress s b = FIPS180.compress s b.
Proof. intros Hs Hb. by apply sha256_compress_spec. Qed.

Lemma sha256_compress_is_fips180_witness :
  sha256_compress sha256_H0 (replicate 64 170) = FIPS180.compress sha256_H0 (replicate 64 170).
Proof. exact (sha256_compress_is_fips180 sha256_H0 (replicate 64 170) eq_refl eq_refl). Defined.

(** C31: SHA-256 streaming is correct: from any context object, feeding a
    message in any chunks and finishing delivers the FIPS 180-4 digest of the
    whole message, stays inside the buffers, and leaves the context
    initialised for the next message.  The specification writes the functions
    and the schedule of the standard out, but takes its two tables of constants
    and the reading of big-endian words from the code. *)
Theorem sha256_streaming_correct c chunks :
  sha_valid c ->
  ∃ c' block, hash_updates sha256_ops (sha256_init c) chunks = Some c'
    /\ sha256_digest c' = Some (FIPS180.sha256 (concat chunks), mkSHA sha256_H0 0 block 0)
    /\ length block = 64%nat.
Proof. apply sha256_stream. Qed.

Lemma sha256_streaming_correct_witness :
  ∃ c' block, hash_updates sha256_ops (sha256_init (mkSHA [1; 2; 3] 5 (replicate 64 7) 9))
          [str "a"; str "bc"] = Some c'
    /\ sha256_digest c' = Some ([186; 120; 22; 191; 143; 1; 207; 234; 65; 65; 64; 222; 93; 174; 34; 35;
         176; 3; 97; 163; 150; 23; 122; 156; 180; 16; 255; 97; 242; 0; 21; 173], mkSHA sha256_H0 0 block 0).
Proof.
  destruct (sha256_streaming_correct (mkSHA [1; 2; 3] 5 (replicate 64 7) 9) [str "a"; str "bc"] eq_refl)
    as (c' & block & E1 & E2 & _).
  exists c', block. split; [exact E1|]. rewrite E2. vm_compute. reflexivity.
Defined.
