(* ===== verification/Base64.v ===== *)
(** * Base64 decoding (libmicrohttpd/src/microhttpd/base64.c)

    The decoder of the basic authentication header, with its digit table and
    its output buffer, against the encoding of RFC 4648. *)

From S2P Require Import Prelude.

(** ** The decoder *)

(** Entries are [char]s: 62 and 63 for the two symbols, -1 for the padding
    character. *)
Definition base64_digits : list Z :=
  replicate 43 0 ++ [62; 0; 0; 0; 63; 52; 53; 54; 55; 56; 57; 58; 59; 60; 61; 0; 0; 0; -1; 0; 0; 0;
   0; 1; 2; 3; 4; 5; 6; 7; 8; 9; 10; 11; 12; 13; 14; 15; 16; 17; 18; 19; 20; 21; 22; 23; 24; 25;
   0; 0; 0; 0; 0; 0;
   26; 27; 28; 29; 30; 31; 32; 33; 34; 35; 36; 37; 38; 39; 40; 41; 42; 43; 44; 45; 46; 47; 48; 49; 50; 51]
  ++ replicate 132 0.

(** [base64_digits[(unsigned char) c]]. *)
Definition base64_digit (c : Z) : option Z := deref_at base64_digits (Z.to_nat c).

(** The three bytes made of four digits.  The digit of the padding is -1; its
    left shift is taken to be that of two's complement. *)
Definition b64_byte1 (a b : Z) : Z := u8 (Z.lor (Z.shiftl a 2) (Z.shiftr (Z.land b 48) 4)).

Definition b64_byte2 (b c : Z) : Z := u8 (Z.lor (Z.shiftl (Z.land b 15) 4) (Z.shiftr (Z.land c 60) 2)).

Definition b64_byte3 (c d : Z) : Z := u8 (Z.lor (Z.shiftl (Z.land c 3) 6) d).

(** [while ( *src )]: the buffer and the position [dest] in it. *)
Fixpoint base64_loop (src : bytes) (buf : bytes) (dest : Z) : option (bytes * Z) :=
  match src with
  | [] => None
  | c0 :: rest =>
      if c0 =? 0 then Some (buf, dest)
      else
        match rest with
        | c1 :: c2 :: c3 :: src' =>
            a ← base64_digit c0;
            b ← base64_digit c1;
            c ← base64_digit c2;
            d ← base64_digit c3;
            buf ← mem_write buf dest [b64_byte1 a b];
            if c =? -1 then Some (buf, dest + 1)
            else
              buf ← mem_write buf (dest + 1) [b64_byte2 b c];
              if d =? -1 then Some (buf, dest + 2)
              else
                buf ← mem_write buf (dest + 2) [b64_byte3 c d];
                base64_loop src' buf (dest + 3)
        | _ => None
        end
  end.

(** The decoded buffer; the inner [None] is the null pointer.  [malloc]
    returns a fresh object of the given size with arbitrary contents, or
    fails. *)
Definition BASE64Decode (malloc : Z -> option bytes) (src : bytes) : option (option bytes) :=
  in_len ← strlen src;
  if negb ((in_len mod 4) =? 0)%nat then Some None
  else
    match malloc (Z.of_nat (in_len / 4 * 3 + 1)) with
    | None => Some None
    | Some result =>
        '(result, dest) ← base64_loop src result 0;
        result ← mem_write result dest [0];
        Some (Some result)
    end.

(** ** RFC 4648 *)

Module RFC4648.

Definition alphabet : bytes :=
  str "ABCDEFGHIJKLMNOPQRSTUVWXYZabcdefghijklmnopqrstuvwxyz0123456789+/".

Definition symbol (v : Z) : Z := nth (Z.to_nat v) alphabet 0.

Definition pad : Z := 61.

Fixpoint encode (m : bytes) : bytes :=
  match m with
  | [] => []
  | [x] => [symbol (x / 4); symbol (x mod 4 * 16); pad; pad]
  | [x; y] => [symbol (x / 4); symbol (x mod 4 * 16 + y / 16); symbol (y mod 16 * 4); pad]
  | x :: y :: z :: m' =>
      symbol (x / 4) :: symbol (x mod 4 * 16 + y / 16) :: symbol (y mod 16 * 4 + z / 64)
      :: symbol (z mod 64) :: encode m'
  end.

End RFC4648.

(** ** The digits *)

Definition sextets : list Z := Z.of_nat <$> seq 0 64.

Lemma elem_sextets v : 0 <= v < 64 -> v ∈ sextets.
Proof.
  intros. apply list_elem_of_fmap. exists (Z.to_nat v). split; [lia|]. apply elem_of_seq. lia.
Qed.

(** Decide a property of every sextet by evaluation. *)
Lemma all_sextets (P : Z -> bool) v : forallb P sextets = true -> 0 <= v < 64 -> P v = true.
Proof. intros HP Hv. by apply (proj1 (forallb_forall P sextets) HP), list_elem_of_In, elem_sextets. Qed.

Lemma symbol_digit v :
  0 <= v < 64 -> base64_digit (RFC4648.symbol v) = Some v /\ 0 < RFC4648.symbol v < 128.
Proof.
  intros Hv.
  assert (bool_decide (base64_digit (RFC4648.symbol v) = Some v) && (0 <? RFC4648.symbol v)
          && (RFC4648.symbol v <? 128) = true) as H.
  { revert v Hv. refine (λ v, all_sextets (λ v, _) v _). vm_compute. reflexivity. }
  rewrite !andb_true_iff, bool_decide_eq_true, !Z.ltb_lt in H. tauto.
Qed.

Lemma b64_bytes_arith a b :
  0 <= a < 64 -> 0 <= b < 64 ->
  b64_byte1 a b = a * 4 + b / 16 /\ b64_byte2 a b = a mod 16 * 16 + b / 4
  /\ b64_byte3 a b = a mod 4 * 64 + b.
Proof.
  intros Ha Hb.
  assert ((b64_byte1 a b =? a * 4 + b / 16) && (b64_byte2 a b =? a mod 16 * 16 + b / 4)
          && (b64_byte3 a b =? a mod 4 * 64 + b) = true) as H.
  { revert b Hb. refine (λ b, all_sextets (λ b, _) b _). revert a Ha.
    refine (λ a, all_sextets (λ a, _) a _). vm_compute. reflexivity. }
  rewrite !andb_true_iff, !Z.eqb_eq in H. tauto.
Qed.

Lemma base64_digit_total c : 0 <= c < 255 -> ∃ v, base64_digit c = Some v.
Proof.
  intros Hc. destruct (base64_digit c) eqn:E; [eauto|].
  unfold base64_digit, deref_at in E. apply lookup_ge_None in E.
  change (length base64_digits) with 255%nat in E. lia.
Qed.

(** ** What the loop writes *)

Definition digit_of (c : Z) : Z := default 0 (base64_digit c).

(** The bytes decoded from a string of complete groups. *)
Fixpoint decoded (s : bytes) : bytes :=
  match s with
  | c0 :: c1 :: c2 :: c3 :: s' =>
      let a := digit_of c0 in
      let b := digit_of c1 in
      let c := digit_of c2 in
      let d := digit_of c3 in
      b64_byte1 a b :: (if c =? -1 then [] else b64_byte2 b c :: (if d =? -1 then [] else b64_byte3 c d :: decoded s'))
  | _ => []
  end.

Lemma base64_digit_of c : 0 <= c < 255 -> base64_digit c = Some (digit_of c).
Proof. intros Hc. unfold digit_of. by destruct (base64_digit_total c Hc) as [v ->]. Qed.

(** Writing the next byte of the output. *)
Lemma b64_write (p x : bytes) dest v :
  dest = Z.of_nat (length p) -> (0 < length x)%nat ->
  mem_write (p ++ x) dest [v] = Some ((p ++ [v]) ++ drop 1 x).
Proof.
  intros -> Hx. destruct x as [|y x]; simpl in Hx; [lia|].
  change (y :: x) with ([y] ++ x). rewrite (mem_write_mid p [y] x [v]) by done.
  by rewrite <- app_assoc.
Qed.

Lemma base64_loop_decoded n s r p x :
  length s = (4 * n)%nat -> no_nul s -> Forall (λ c, 0 <= c < 255) s -> (3 * n < length x)%nat ->
  base64_loop (s ++ 0 :: r) (p ++ x) (Z.of_nat (length p))
  = Some (p ++ decoded s ++ drop (length (decoded s)) x, Z.of_nat (length (p ++ decoded s)))
  /\ (length (decoded s) <= 3 * n)%nat.
Proof.
  revert s p x. induction n as [|n IH]; intros s p x Hs Hn Hb Hx.
  - destruct s; [|simpl in Hs; lia]. simpl. by rewrite drop_0, app_nil_r.
  - destruct s as [|c0 [|c1 [|c2 [|c3 s]]]]; simpl in Hs; try lia.
    apply no_nul_cons in Hn as [H0 Hn]. do 3 (apply no_nul_cons in Hn as [_ Hn]).
    rewrite !Forall_cons in Hb. destruct Hb as (B0 & B1 & B2 & B3 & Hb).
    simpl app. cbn [base64_loop decoded]. destruct (Z.eqb_spec c0 0); [lia|].
    rewrite !base64_digit_of by done. cbn [mbind option_bind].
    set (a := digit_of c0). set (b := digit_of c1). set (c := digit_of c2). set (d := digit_of c3).
    rewrite b64_write by lia. cbn [mbind option_bind].
    destruct (c =? -1).
    { simpl length. rewrite <- !app_assoc. simpl. split; [|lia]. do 2 f_equal. rewrite length_app. simpl. lia. }
    rewrite b64_write by (rewrite ?length_app, ?length_drop; simpl; lia). cbn [mbind option_bind].
    destruct (d =? -1).
    { simpl length. rewrite drop_drop, <- !app_assoc. simpl. split; [|lia]. do 2 f_equal. rewrite length_app. simpl. lia. }
    rewrite b64_write by (rewrite ?length_app, ?length_drop; simpl; lia). cbn [mbind option_bind].
    rewrite !drop_drop. change (1 + (1 + 1))%nat with 3%nat.
    replace (Z.of_nat (length p) + 3) with
      (Z.of_nat (length (((p ++ [b64_byte1 a b]) ++ [b64_byte2 b c]) ++ [b64_byte3 c d])))
      by (rewrite !length_app; simpl; lia).
    destruct (IH s (((p ++ [b64_byte1 a b]) ++ [b64_byte2 b c]) ++ [b64_byte3 c d]) (drop 3 x)) as [-> Hl];
      [lia|done|done|rewrite length_drop; lia|].
    simpl length. rewrite <- !app_assoc, drop_drop. simpl. split; [done|lia].
Qed.

(** [malloc] delivers objects of the requested size. *)
Definition malloc_sized (malloc : Z -> option bytes) : Prop :=
  forall n m, 0 <= n -> malloc n = Some m -> Z.of_nat (length m) = n.

Lemma BASE64Decode_spec malloc s r :
  malloc_sized malloc -> no_nul s -> Forall (λ c, 0 <= c < 255) s ->
  BASE64Decode malloc (s ++ 0 :: r)
  = Some (if ((length s mod 4) =? 0)%nat then
            (λ buf, decoded s ++ 0 :: drop (S (length (decoded s))) buf)
              <$> malloc (Z.of_nat (length s / 4 * 3 + 1))
          else None).
Proof.
  intros Hm Hn Hb. unfold BASE64Decode. rewrite strlen_no_nul by done. cbn [mbind option_bind].
  destruct (Nat.eqb_spec (length s mod 4) 0) as [E|E]; cbn [negb]; [|done].
  destruct (malloc _) as [buf|] eqn:Em; cbn [fmap option_fmap option_map]; [|done]. apply Hm in Em; [|lia].
  pose proof (Nat.div_mod_eq (length s) 4).
  destruct (base64_loop_decoded (length s / 4) s r [] buf) as [El Hl]; [lia|done|done|lia|].
  cbn [app length] in El. change (Z.of_nat 0) with 0 in El. rewrite El. cbn [mbind option_bind].
  rewrite b64_write by (rewrite ?length_drop; lia). cbn [mbind option_bind].
  rewrite drop_drop, <- app_assoc. repeat f_equal. lia.
Qed.

(** ** Decoding inverts the encoding *)

Lemma bytes3_ind (P : bytes -> Prop) :
  P [] -> (forall x, P [x]) -> (forall x y, P [x; y]) ->
  (forall x y z m, P m -> P (x :: y :: z :: m)) -> forall m, P m.
Proof.
  intros H0 H1 H2 H3. fix IH 1. intros [|x [|y [|z m]]]; [done|apply H1|apply H2|]. apply H3, IH.
Qed.

Lemma digit_of_symbol v : 0 <= v < 64 -> digit_of (RFC4648.symbol v) = v.
Proof. intros Hv. unfold digit_of. by rewrite (proj1 (symbol_digit v Hv)). Qed.

Lemma digit_of_pad : digit_of RFC4648.pad = -1.
Proof. reflexivity. Qed.

Ltac sextet := Z.to_euclidean_division_equations; lia.

Lemma decoded_encode m : Forall is_byte m -> decoded (RFC4648.encode m) = m.
Proof.
  unfold is_byte. induction m as [|x|x y|x y z m IH] using bytes3_ind; intros Hm; [done|..];
    rewrite !Forall_cons in Hm; cbn [RFC4648.encode decoded]; rewrite ?digit_of_pad.
  - rewrite !digit_of_symbol by sextet. cbn -[b64_byte1]. f_equal.
    rewrite (proj1 (b64_bytes_arith (x / 4) (x mod 4 * 16) ltac:(sextet) ltac:(sextet))). sextet.
  - rewrite !digit_of_symbol by sextet. destruct (Z.eqb_spec (y mod 16 * 4) (-1)); [sextet|]. cbn -[b64_byte1 b64_byte2].
    rewrite (proj1 (b64_bytes_arith (x / 4) (x mod 4 * 16 + y / 16) ltac:(sextet) ltac:(sextet))).
    rewrite (proj1 (proj2 (b64_bytes_arith (x mod 4 * 16 + y / 16) (y mod 16 * 4) ltac:(sextet) ltac:(sextet)))).
    f_equal; [sextet|]. f_equal. sextet.
  - rewrite !digit_of_symbol by sextet.
    destruct (Z.eqb_spec (y mod 16 * 4 + z / 64) (-1)); [sextet|].
    destruct (Z.eqb_spec (z mod 64) (-1)); [sextet|].
    rewrite (proj1 (b64_bytes_arith (x / 4) (x mod 4 * 16 + y / 16) ltac:(sextet) ltac:(sextet))).
    rewrite (proj1 (proj2 (b64_bytes_arith (x mod 4 * 16 + y / 16) (y mod 16 * 4 + z / 64) ltac:(sextet) ltac:(sextet)))).
    rewrite (proj2 (proj2 (b64_bytes_arith (y mod 16 * 4 + z / 64) (z mod 64) ltac:(sextet) ltac:(sextet)))).
    rewrite IH by tauto. f_equal; [sextet|]. f_equal; [sextet|]. f_equal. sextet.
Qed.

Lemma encode_wf m :
  Forall is_byte m ->
  Forall (λ c, 0 < c < 255) (RFC4648.encode m) /\ (length (RFC4648.encode m) mod 4 = 0)%nat
  /\ (length m <= length (RFC4648.encode m) / 4 * 3)%nat.
Proof.
  unfold is_byte. induction m as [|x|x y|x y z m IH] using bytes3_ind; intros Hm; [by repeat constructor; simpl|..];
    rewrite !Forall_cons in Hm; cbn [RFC4648.encode].
  - rewrite !Forall_cons. pose proof (symbol_digit (x / 4) ltac:(sextet)).
    pose proof (symbol_digit (x mod 4 * 16) ltac:(sextet)). simpl. unfold RFC4648.pad. by split_and!; lia || constructor.
  - rewrite !Forall_cons. pose proof (symbol_digit (x / 4) ltac:(sextet)).
    pose proof (symbol_digit (x mod 4 * 16 + y / 16) ltac:(sextet)).
    pose proof (symbol_digit (y mod 16 * 4) ltac:(sextet)). simpl. unfold RFC4648.pad. by split_and!; lia || constructor.
  - destruct IH as (H1 & H2 & H3); [tauto|]. rewrite !Forall_cons.
    pose proof (symbol_digit (x / 4) ltac:(sextet)).
    pose proof (symbol_digit (x mod 4 * 16 + y / 16) ltac:(sextet)).
    pose proof (symbol_digit (y mod 16 * 4 + z / 64) ltac:(sextet)).
    pose proof (symbol_digit (z mod 64) ltac:(sextet)).
    cbn [length]. set (l := length (RFC4648.encode m)) in *.
    replace (S (S (S (S l))))%nat with (1 * 4 + l)%nat by lia.
    rewrite Nat.div_add_l by lia. rewrite (Nat.add_comm (1 * 4)), Nat.Div0.mod_add.
    split_and!; try lia; try done.
Qed.

(** ** Theorems *)

(** On every C string without the byte 255 the decoder stays inside its
    table and its output buffer, refuses lengths that are not a multiple of
    four (and a failed allocation) with the null pointer, and otherwise
    delivers the decoded groups up to the first padding, terminated. *)
Theorem BASE64Decode_correct malloc s r :
  malloc_sized malloc -> no_nul s -> Forall (λ c, 0 <= c < 255) s ->
  BASE64Decode malloc (s ++ 0 :: r)
  = Some (if ((length s mod 4) =? 0)%nat then
            (λ buf, decoded s ++ 0 :: drop (S (length (decoded s))) buf)
              <$> malloc (Z.of_nat (length s / 4 * 3 + 1))
          else None).
Proof. apply BASE64Decode_spec. Qed.

Definition malloc_zeroed (n : Z) : option bytes := Some (replicate (Z.to_nat n) 0).

Lemma malloc_zeroed_sized : malloc_sized malloc_zeroed.
Proof. intros n m Hn [= <-]. rewrite length_replicate. lia. Qed.

Lemma BASE64Decode_correct_witness :
  BASE64Decode malloc_zeroed (str "dTpwdw==" ++ [0; 9]) = Some (Some (str "u:pw" ++ [0; 0; 0])).
Proof.
  rewrite (BASE64Decode_correct malloc_zeroed (str "dTpwdw==") [9] malloc_zeroed_sized);
    [reflexivity|apply (bool_decide_unpack _); reflexivity..].
Defined.

(** Decoding inverts RFC 4648 encoding: from the encoding of any byte
    string the decoder rebuilds exactly those bytes and their terminator. *)
Theorem base64_roundtrip malloc m r buf :
  malloc_sized malloc -> Forall is_byte m ->
  malloc (Z.of_nat (length (RFC4648.encode m) / 4 * 3 + 1)) = Some buf ->
  BASE64Decode malloc (RFC4648.encode m ++ 0 :: r) = Some (Some (m ++ 0 :: drop (S (length m)) buf)).
Proof.
  intros Hm Hb Hbuf. destruct (encode_wf m Hb) as (H1 & H2 & _).
  rewrite BASE64Decode_spec; [|done|eapply Forall_impl; [exact H1|]; simpl; lia..].
  by rewrite H2, Hbuf, decoded_encode.
Qed.

Lemma base64_roundtrip_witness :
  BASE64Decode malloc_zeroed (RFC4648.encode [117; 58; 0; 255] ++ [0]) = Some (Some [117; 58; 0; 255; 0; 0; 0]).
Proof.
  rewrite (base64_roundtrip malloc_zeroed [117; 58; 0; 255] [] (replicate 7 0) malloc_zeroed_sized);
    [reflexivity|apply (bool_decide_unpack _); reflexivity|reflexivity].
Defined.

(** The digit table has 255 entries, so the byte 255 of a client's header
    is looked up behind its end: on a string of complete groups that starts
    with that byte, decoding is an out-of-bounds read. *)
Theorem base64_table_overrun malloc c1 c2 c3 s r buf :
  no_nul (255 :: c1 :: c2 :: c3 :: s) -> (length s mod 4 = 0)%nat ->
  malloc (Z.of_nat (length s / 4 * 3 + 4)) = Some buf ->
  BASE64Decode malloc ((255 :: c1 :: c2 :: c3 :: s) ++ 0 :: r) = None.
Proof.
  intros Hn Hl Hm. unfold BASE64Decode. rewrite strlen_no_nul by done. cbn [mbind option_bind length].
  replace (S (S (S (S (length s)))))%nat with (1 * 4 + length s)%nat by lia.
  rewrite Nat.div_add_l by lia. rewrite (Nat.add_comm (1 * 4)), Nat.Div0.mod_add, Hl. cbn [Nat.eqb negb].
  by replace ((1 + length s / 4) * 3 + 1)%nat with (length s / 4 * 3 + 4)%nat by lia; rewrite Hm.
Qed.

Lemma base64_table_overrun_witness : BASE64Decode malloc_zeroed ([255; 65; 65; 65] ++ [0]) = None.
Proof.
  apply (base64_table_overrun malloc_zeroed 65 65 65 [] [] (replicate 4 0));
    [apply (bool_decide_unpack _); reflexivity|reflexivity|reflexivity].
Defined.
