(* ===== verification/ReasonPhrase.v ===== *)
(** * Reason phrases (libmicrohttpd/src/microhttpd/reason_phrase.c)

    The table from status codes to the phrases of the status line, and the
    bounds of its lookup. *)

From S2P Require Import Prelude.

(** ** The tables *)

Definition invalid_hundred : list (option string) :=
  [None]%string.

Definition one_hundred : list (option string) :=
  [Some "Continue"; Some "Switching Protocols"; Some "Processing"]%string.

Definition two_hundred : list (option string) :=
  [Some "OK"; Some "Created"; Some "Accepted"; Some "Non-Authoritative Information";
   Some "No Content"; Some "Reset Content"; Some "Partial Content"; Some "Multi-Status";
   Some "Already Reported"; Some "Unknown"; Some "Unknown"; Some "Unknown"; Some "Unknown";
   Some "Unknown"; Some "Unknown"; Some "Unknown"; Some "Unknown"; Some "Unknown";
   Some "Unknown"; Some "Unknown"; Some "Unknown"; Some "Unknown"; Some "Unknown";
   Some "Unknown"; Some "Unknown"; Some "Unknown"; Some "IM Used"]%string.

Definition three_hundred : list (option string) :=
  [Some "Multiple Choices"; Some "Moved Permanently"; Some "Found"; Some "See Other";
   Some "Not Modified"; Some "Use Proxy"; Some "Switch Proxy"; Some "Temporary Redirect";
   Some "Permanent Redirect"]%string.

Definition four_hundred : list (option string) :=
  [Some "Bad Request"; Some "Unauthorized"; Some "Payment Required"; Some "Forbidden";
   Some "Not Found"; Some "Method Not Allowed"; Some "Not Acceptable";
   Some "Proxy Authentication Required"; Some "Request Timeout"; Some "Conflict"; Some "Gone";
   Some "Length Required"; Some "Precondition Failed"; Some "Payload Too Large";
   Some "URI Too Long"; Some "Unsupported Media Type"; Some "Range Not Satisfiable";
   Some "Expectation Failed"; Some "Unknown"; Some "Unknown"; Some "Unknown";
   Some "Misdirected Request"; Some "Unprocessable Entity"; Some "Locked";
   Some "Failed Dependency"; Some "Unordered Collection"; Some "Upgrade Required";
   Some "Unknown"; Some "Precondition Required"; Some "Too Many Requests"; Some "Unknown";
   Some "Request Header Fields Too Large"; Some "Unknown"; Some "Unknown"; Some "Unknown";
   Some "Unknown"; Some "Unknown"; Some "Unknown"; Some "Unknown"; Some "Unknown";
   Some "Unknown"; Some "Unknown"; Some "Unknown"; Some "Unknown"; Some "No Response";
   Some "Unknown"; Some "Unknown"; Some "Unknown"; Some "Unknown"; Some "Retry With";
   Some "Blocked by Windows Parental Controls"; Some "Unavailable For Legal Reasons"]%string.

Definition five_hundred : list (option string) :=
  [Some "Internal Server Error"; Some "Not Implemented"; Some "Bad Gateway";
   Some "Service Unavailable"; Some "Gateway Timeout"; Some "HTTP Version Not Supported";
   Some "Variant Also Negotiates"; Some "Insufficient Storage"; Some "Loop Detected";
   Some "Bandwidth Limit Exceeded"; Some "Not Extended"; Some "Network Authentication Required"]%string.

(** [reasons]: the size and the phrases of each block. *)
Definition BLOCK (m : list (option string)) : Z * list (option string) := (Z.of_nat (length m), m).

Definition reasons : list (Z * list (option string)) :=
  [BLOCK invalid_hundred; BLOCK one_hundred; BLOCK two_hundred; BLOCK three_hundred;
   BLOCK four_hundred; BLOCK five_hundred].

(** The outer option is a read outside the tables, the inner one the null
    pointer; [code] is an [unsigned int]. *)
Definition MHD_get_reason_phrase_for (code : Z) : option (option string) :=
  if (code >=? 100) && (code <? 600) then
    '(max, data) ← reasons !! Z.to_nat (code / 100);
    if max >? code mod 100 then data !! Z.to_nat (code mod 100)
    else Some (Some "Unknown"%string)
  else Some (Some "Unknown"%string).

(** ** The status codes with a phrase *)

(** The constants [MHD_HTTP_*] of [microhttpd.h], with the phrase each is
    sent with. *)
Definition status_phrases : list (Z * string) :=
  [(100, "Continue"); (101, "Switching Protocols"); (102, "Processing"); (200, "OK");
   (201, "Created"); (202, "Accepted"); (203, "Non-Authoritative Information");
   (204, "No Content"); (205, "Reset Content"); (206, "Partial Content");
   (207, "Multi-Status"); (208, "Already Reported"); (226, "IM Used");
   (300, "Multiple Choices"); (301, "Moved Permanently"); (302, "Found"); (303, "See Other");
   (304, "Not Modified"); (305, "Use Proxy"); (306, "Switch Proxy");
   (307, "Temporary Redirect"); (308, "Permanent Redirect"); (400, "Bad Request");
   (401, "Unauthorized"); (402, "Payment Required"); (403, "Forbidden"); (404, "Not Found");
   (405, "Method Not Allowed"); (406, "Not Acceptable");
   (407, "Proxy Authentication Required"); (408, "Request Timeout"); (409, "Conflict");
   (410, "Gone"); (411, "Length Required"); (412, "Precondition Failed");
   (413, "Payload Too Large"); (414, "URI Too Long"); (415, "Unsupported Media Type");
   (416, "Range Not Satisfiable"); (417, "Expectation Failed"); (421, "Misdirected Request");
   (422, "Unprocessable Entity"); (423, "Locked"); (424, "Failed Dependency");
   (425, "Unordered Collection"); (426, "Upgrade Required"); (428, "Precondition Required");
   (429, "Too Many Requests"); (431, "Request Header Fields Too Large"); (444, "No Response");
   (449, "Retry With"); (450, "Blocked by Windows Parental Controls");
   (451, "Unavailable For Legal Reasons"); (500, "Internal Server Error");
   (501, "Not Implemented"); (502, "Bad Gateway"); (503, "Service Unavailable");
   (504, "Gateway Timeout"); (505, "HTTP Version Not Supported");
   (506, "Variant Also Negotiates"); (507, "Insufficient Storage"); (508, "Loop Detected");
   (509, "Bandwidth Limit Exceeded"); (510, "Not Extended");
   (511, "Network Authentication Required")]%string.

Definition phrase_spec (code : Z) : string :=
  match find (λ p, p.1 =? code) status_phrases with
  | Some (_, s) => s
  | None => "Unknown"%string
  end.

Lemma status_phrases_range code : ~ (100 <= code < 600) -> phrase_spec code = "Unknown"%string.
Proof.
  intros Hc. unfold phrase_spec.
  assert (Forall (λ p : Z * string, 100 <= p.1 < 600) status_phrases) as H
    by (apply (bool_decide_unpack _); vm_compute; reflexivity).
  induction status_phrases as [|[c s] l IH]; [done|]. apply Forall_cons in H as [H1 H2]. simpl in *.
  destruct (Z.eqb_spec c code); [lia|]. by apply IH.
Qed.

Lemma get_reason_phrase_for_spec code :
  MHD_get_reason_phrase_for code = Some (Some (phrase_spec code)).
Proof.
  destruct (decide (100 <= code < 600)) as [Hc|Hc].
  - assert (forallb (λ n, bool_decide (MHD_get_reason_phrase_for (Z.of_nat n)
        = Some (Some (phrase_spec (Z.of_nat n))))) (seq 100 500) = true) as H by (vm_compute; reflexivity).
    rewrite forallb_forall in H. specialize (H (Z.to_nat code)).
    rewrite <- list_elem_of_In, elem_of_seq, bool_decide_eq_true, Z2Nat.id in H by lia. apply H. lia.
  - rewrite status_phrases_range by done. unfold MHD_get_reason_phrase_for. rewrite Z.geb_leb.
    destruct (Z.leb_spec 100 code), (Z.ltb_spec code 600); simpl; (done || lia).
Qed.

(** ** Theorem *)

(** For every status code, also ones the application invents, the lookup
    stays inside its tables and returns a phrase, never the null pointer: the
    phrase of the status code when the library has one, and "Unknown" for all
    others. *)
Theorem MHD_get_reason_phrase_for_correct code :
  MHD_get_reason_phrase_for code = Some (Some (phrase_spec code)).
Proof. apply get_reason_phrase_for_spec. Qed.
