(* ===== verification/Internal.v ===== *)
(** * Unescaping and URI arguments (libmicrohttpd/src/microhttpd/internal.c)

    The in-place decoding of '+' and '%HH', and the splitting of the query
    part of a URI into key-value pairs.  All of it happens inside the buffer
    the request was received into: the strings handed to the callback are
    pointers (offsets) into that buffer, and stay valid while later arguments
    are decoded. *)

From S2P Require Import Prelude MhdStr.

(** ** Decoding in place *)

(** [for (p = strchr (arg, '+'); NULL != p; p = strchr (p + 1, '+')) *p = ' ']. *)
Fixpoint unescape_plus_loop (fuel : nat) (m : bytes) (p : nat) : option bytes :=
  r ← strchr (drop p m) 43;
  match r, fuel with
  | None, _ => Some m
  | Some k, O => None
  | Some k, S fuel' =>
      m ← mem_write m (Z.of_nat (p + k)) [32];
      unescape_plus_loop fuel' m (p + k + 1)
  end.

Definition MHD_unescape_plus (m : bytes) (arg : nat) : option bytes :=
  unescape_plus_loop (length m) m arg.

Fixpoint http_unescape_loop (fuel : nat) (m : bytes) (rpos wpos : nat) : option (bytes * nat) :=
  c ← deref_at m rpos;
  if c =? 0 then
    m ← mem_write m (Z.of_nat wpos) [0];
    Some (m, wpos)
  else
    match fuel with
    | O => None
    | S fuel' =>
        let copy :=
          m ← mem_write m (Z.of_nat wpos) [c];
          http_unescape_loop fuel' m (S rpos) (S wpos) in
        if c =? 37 then
          '(n, num) ← MHD_strx_to_uint32_n_ (Some (drop (S rpos) m)) 2 (Some 0);
          if (n =? 2)%nat then
            num ← num;
            m ← mem_write m (Z.of_nat wpos) [u8 num];
            http_unescape_loop fuel' m (rpos + 3) (S wpos)
          else copy
        else copy
    end.

(** The changed buffer and the returned length. *)
Definition MHD_http_unescape (m : bytes) (val : nat) : option (bytes * nat) :=
  '(m, wpos) ← http_unescape_loop (length m) m val val;
  Some (m, (wpos - val)%nat).

(** ** Splitting the arguments *)

Section Arguments.
(** [daemon->unescape_callback], and the callback that stores an argument:
    it gets the buffer and the pointers to key and value. *)
Context (unescape_callback : bytes -> nat -> option (bytes * nat)).
Context {St : Type} (cb : St -> bytes -> nat -> option nat -> St * bool).

(** [MHD_unescape_plus (s); daemon->unescape_callback (.., s);] *)
Definition unescape_string (m : bytes) (s : nat) : option bytes :=
  m ← MHD_unescape_plus m s;
  '(m, _) ← unescape_callback m s;
  Some m.

(** The result is the buffer, the state of the callback, [*num_headers] and
    whether [MHD_YES] is returned. *)
Fixpoint parse_arguments_loop (fuel : nat) (m : bytes) (args : nat) (st : St) (num : Z)
    : option (bytes * St * Z * bool) :=
  c ← deref_at m args;
  if c =? 0 then Some (m, st, num, true)
  else
    equals ← strchr (drop args m) 61;
    amper ← strchr (drop args m) 38;
    match amper with
    | None =>
        match equals with
        | None =>
            m ← unescape_string m args;
            let '(st, ok) := cb st m args None in
            if ok then Some (m, st, u32 (num + 1), true) else Some (m, st, num, false)
        | Some e =>
            let equals := (args + e)%nat in
            m ← mem_write m (Z.of_nat equals) [0];
            m ← unescape_string m args;
            m ← unescape_string m (S equals);
            let '(st, ok) := cb st m args (Some (S equals)) in
            if ok then Some (m, st, u32 (num + 1), true) else Some (m, st, num, false)
        end
    | Some a =>
        let amper := S (args + a) in
        m ← mem_write m (Z.of_nat (args + a)) [0];
        match fuel with
        | O => None
        | S fuel' =>
            let no_value :=
              m ← unescape_string m args;
              let '(st, ok) := cb st m args None in
              if ok then parse_arguments_loop fuel' m amper st (u32 (num + 1))
              else Some (m, st, num, false) in
            match equals with
            | None => no_value
            | Some e =>
                let equals := (args + e)%nat in
                if (amper <=? equals)%nat then no_value
                else
                  m ← mem_write m (Z.of_nat equals) [0];
                  m ← unescape_string m args;
                  m ← unescape_string m (S equals);
                  let '(st, ok) := cb st m args (Some (S equals)) in
                  if ok then parse_arguments_loop fuel' m amper st (u32 (num + 1))
                  else Some (m, st, num, false)
            end
        end
    end.

Definition MHD_parse_arguments_ (m : bytes) (args : option nat) (st : St)
    : option (bytes * St * Z * bool) :=
  match args with
  | None => Some (m, st, 0, true)
  | Some args => parse_arguments_loop (length m) m args st 0
  end.
End Arguments.

(** ** What decoding means *)

Definition plus_char (c : Z) : Z := if c =? 43 then 32 else c.

Definition is_hex (c : Z) : bool := 0 <=? toxdigitvalue c.

(** Percent decoding; a '%' without two hexadecimal digits stands for itself. *)
Fixpoint percent_decode (s : bytes) : bytes :=
  match s with
  | [] => []
  | c :: s' =>
      match s' with
      | h :: l :: s'' =>
          if (c =? 37) && is_hex h && is_hex l
          then toxdigitvalue h * 16 + toxdigitvalue l :: percent_decode s''
          else c :: percent_decode s'
      | _ => c :: percent_decode s'
      end
  end.

(** ** Correctness of the in-place loops *)

Lemma drop_app_at {A} (p l : list A) n : n = length p -> drop n (p ++ l) = l.
Proof. intros ->. apply drop_app_length. Qed.

Lemma deref_at_app (p : bytes) c l n : n = length p -> deref_at (p ++ c :: l) n = Some c.
Proof. intros ->. unfold deref_at. by apply list_lookup_middle. Qed.

Lemma plus_no_nul (s : bytes) : no_nul s -> no_nul (plus_char <$> s).
Proof. intros Hs. apply Forall_fmap. eapply Forall_impl; [exact Hs|]. intros c Hc. unfold plus_char. simpl. by bcases. Qed.

Lemma plus_none (s : bytes) : 43 ∉ s -> plus_char <$> s = s.
Proof.
  induction s as [|c s IH]; [done|]. intros [? ?]%not_elem_of_cons. rewrite fmap_cons, IH by done.
  unfold plus_char. by bcases.
Qed.

(** A string either lacks a character or has a first occurrence of it. *)
Lemma first_occurrence (c : Z) (s : bytes) : c ∉ s \/ ∃ a b, s = a ++ c :: b /\ c ∉ a.
Proof.
  destruct (decide (c ∈ s)) as [H|H]; [right|by left].
  apply list_elem_of_split_l in H as (a & b & -> & ?). eauto.
Qed.

Lemma unescape_plus_loop_spec fuel p s r :
  no_nul s -> (length s <= fuel)%nat ->
  unescape_plus_loop fuel (p ++ s ++ 0 :: r) (length p) = Some (p ++ (plus_char <$> s) ++ 0 :: r).
Proof.
  revert p s. induction fuel as [|fuel IH]; intros p s Hs Hf.
  - destruct s; [|simpl in Hf; lia]. cbn [unescape_plus_loop]. by rewrite drop_app_at.
  - cbn [unescape_plus_loop]. rewrite drop_app_at by done.
    destruct (first_occurrence 43 s) as [Hn|(a & b & -> & Ha)].
    + rewrite strchr_absent by done. cbn [mbind option_bind]. by rewrite plus_none.
    + apply no_nul_app in Hs as [Hsa [_ Hsb]%no_nul_cons].
      rewrite <- app_assoc, <- app_comm_cons, strchr_present by done. cbn [mbind option_bind].
      change (43 :: b ++ 0 :: r) with ([43] ++ (b ++ 0 :: r)). rewrite (app_assoc p a).
      rewrite mem_write_mid by (rewrite ?length_app; done || lia). cbn [mbind option_bind].
      rewrite (app_assoc _ [32]), <- (length_app p a), <- (length_app _ [32]).
      rewrite length_app in Hf. simpl in Hf. rewrite IH by (done || lia).
      rewrite fmap_app, fmap_cons, (plus_none a), <- !app_assoc by done. done.
Qed.

Lemma MHD_unescape_plus_spec p s r :
  no_nul s ->
  MHD_unescape_plus (p ++ s ++ 0 :: r) (length p) = Some (p ++ (plus_char <$> s) ++ 0 :: r).
Proof. intros Hs. apply unescape_plus_loop_spec; [done|]. rewrite !length_app. lia. Qed.

(** The conversion of the two characters after '%'. *)
Lemma hex_pair (s r : bytes) :
  no_nul s ->
  ∃ n num, MHD_strx_to_uint32_n_ (Some (s ++ 0 :: r)) 2 (Some 0) = Some (n, num)
    /\ match s with
       | h :: l :: _ =>
           if is_hex h && is_hex l
           then n = 2%nat /\ num = Some (toxdigitvalue h * 16 + toxdigitvalue l)
           else n ≠ 2%nat
       | _ => n ≠ 2%nat
       end.
Proof.
  intros _. unfold is_hex. change (0 :: r) with ([0] ++ r).
  destruct s as [|h [|l s]]; cbn -[Z.mul toxdigitvalue wrap Z.add Z.div Z.leb Z.ltb Z.geb Z.gtb Z.eqb].
  - change (toxdigitvalue 0) with (-1). simpl. eexists _, _. split; [done|lia].
  - pose proof (toxdigitvalue_range h). destruct (Z.geb_spec (toxdigitvalue h) 0); simpl.
    + change (toxdigitvalue 0) with (-1). simpl. eexists _, _. split; [done|]. simpl. lia.
    + eexists _, _. split; [done|lia].
  - pose proof (toxdigitvalue_range h). pose proof (toxdigitvalue_range l).
    rewrite !Z.geb_leb. destruct (Z.leb_spec 0 (toxdigitvalue h)).
    2:{ eexists _, _. split; [done|]. simpl. lia. }
    change (0 >? UINT32_MAX / 16) with false. change (0 =? UINT32_MAX / 16) with false.
    rewrite Z.mul_0_l, wrap_add_l, Z.add_0_l. rewrite (wrap_small 32 (toxdigitvalue h)) by lia.
    cbn [orb andb mbind option_bind deref head tail]. destruct (Z.leb_spec 0 (toxdigitvalue l)).
    2:{ eexists _, _. split; [done|]. simpl. lia. }
    change (UINT32_MAX / 16) with 268435455.
    destruct (Z.gtb_spec (toxdigitvalue h) 268435455); [lia|].
    destruct (Z.eqb_spec (toxdigitvalue h) 268435455); [lia|]. cbn [orb andb mbind option_bind strx_finish].
    rewrite !(wrap_small 32) by (rewrite ?(wrap_small 32); lia).
    eexists _, _. split; [done|]. done.
Qed.

Lemma tail_length (l : bytes) : length (tail l) = pred (length l).
Proof. by destruct l. Qed.

(** Writing the next output byte over the first byte of the gap [k]. *)
Lemma gap_write (w k rest : bytes) v n :
  n = length w -> (0 < length k)%nat ->
  mem_write (w ++ k ++ rest) (Z.of_nat n) [v] = Some ((w ++ [v]) ++ tail k ++ rest).
Proof.
  intros -> Hk. destruct k as [|x k]; [simpl in Hk; lia|]. simpl app. simpl tail.
  change (x :: k ++ rest) with ([x] ++ k ++ rest). rewrite mem_write_mid by done. by rewrite <- app_assoc.
Qed.

Lemma percent_decode_plain c s :
  (∀ h l s', s = h :: l :: s' -> (c =? 37) && is_hex h && is_hex l = false) ->
  percent_decode (c :: s) = c :: percent_decode s.
Proof. intros H. destruct s as [|h [|l s]]; [done|done|]. cbn [percent_decode]. by rewrite (H h l s eq_refl). Qed.

(** The buffer is the output [w], the gap [g] left by shortened escapes, the
    input [s] and its terminator; the loop turns it into the output, the
    terminator and a gap of the remaining length. *)
Definition unescapes (fuel : nat) (w g s r : bytes) : Prop :=
  ∃ g', http_unescape_loop fuel (w ++ g ++ s ++ 0 :: r) (length w + length g) (length w)
        = Some (w ++ percent_decode s ++ 0 :: g' ++ r, (length w + length (percent_decode s))%nat)
    /\ (length (percent_decode s) + length g' = length g + length s)%nat.

Lemma unescapes_nil fuel w g r : unescapes fuel w g [] r.
Proof.
  unfold unescapes. exists (tail (g ++ [0])). rewrite app_nil_l, tail_length, length_app.
  cbn [percent_decode length]. split; [|lia].
  destruct fuel; cbn [http_unescape_loop]; rewrite (app_assoc w g), deref_at_app by (by rewrite length_app);
    cbn [mbind option_bind Z.eqb]; rewrite <- app_assoc, (app_assoc g [0] r : g ++ 0 :: r = _);
    rewrite gap_write by (done || (rewrite length_app; simpl; lia)); cbn [mbind option_bind];
    rewrite <- app_assoc, Nat.add_0_r; done.
Qed.

(** One round: [k] is consumed and [v] written. *)
Lemma unescapes_step fuel w g k v s r out :
  (forall w g, unescapes fuel w g s r) -> (0 < length k)%nat -> out = v :: percent_decode s ->
  ∃ g', (m ← mem_write (w ++ g ++ k ++ s ++ 0 :: r) (Z.of_nat (length w)) [v];
         http_unescape_loop fuel m (length w + length g + length k) (S (length w)))
        = Some (w ++ out ++ 0 :: g' ++ r, (length w + length out)%nat)
    /\ (length out + length g' = length g + length (k ++ s))%nat.
Proof.
  intros IH Hk ->. rewrite (app_assoc g k).
  rewrite gap_write by (done || (rewrite length_app; lia)). cbn [mbind option_bind].
  destruct (IH (w ++ [v]) (tail (g ++ k))) as (g' & Eg & Hg').
  assert (length (tail (g ++ k)) = length g + length k - 1)%nat as Ht by (rewrite tail_length, length_app; lia).
  assert (length (w ++ [v]) = S (length w)) as Hw by (rewrite length_app; simpl; lia).
  rewrite Ht, Hw in Eg. rewrite Ht in Hg'.
  replace (S (length w) + (length g + length k - 1))%nat with (length w + length g + length k)%nat in Eg by lia.
  exists g'. rewrite Eg, length_app, <- app_assoc. cbn [length app]. split; [|lia].
  by rewrite <- Nat.add_succ_comm.
Qed.

Lemma http_unescape_loop_spec fuel w g s r :
  no_nul s -> (length s <= fuel)%nat -> unescapes fuel w g s r.
Proof.
  revert w g s. induction fuel as [|fuel IH]; intros w g [|c s] Hs Hf; try apply unescapes_nil;
    [simpl in Hf; lia|].
  apply no_nul_cons in Hs as [Hc Hs]. simpl in Hf. unfold unescapes. cbn [http_unescape_loop].
  rewrite <- app_comm_cons, (app_assoc w g), deref_at_app by (by rewrite length_app).
  cbn [mbind option_bind]. destruct (Z.eqb_spec c 0); [done|]. rewrite <- app_assoc.
  pose proof (unescapes_step fuel w g [c] c s r (percent_decode (c :: s))
    (λ w g, IH w g s Hs ltac:(lia)) ltac:(simpl; lia)) as Hcopy.
  cbn [length] in Hcopy. rewrite Nat.add_1_r in Hcopy.
  destruct (Z.eqb_spec c 37) as [->|Hc37].
  2:{ apply Hcopy, percent_decode_plain. intros. by destruct (Z.eqb_spec c 37). }
  assert (drop (S (length w + length g)) (w ++ g ++ 37 :: s ++ 0 :: r) = s ++ 0 :: r) as ->.
  { rewrite (app_assoc w g), (app_assoc _ [37] (s ++ 0 :: r) : (w ++ g) ++ 37 :: s ++ 0 :: r = _).
    apply drop_app_at. rewrite !length_app. simpl. lia. }
  destruct (hex_pair s r Hs) as (n' & num & -> & Hn). cbn [mbind option_bind].
  destruct (Nat.eqb_spec n' 2) as [->|Hn2].
  2:{ apply Hcopy, percent_decode_plain. intros h l s' ->.
      destruct (is_hex h) eqn:Eh, (is_hex l) eqn:El; try done. exfalso. simpl in Hn. tauto. }
  destruct s as [|h [|l s]]; [done|done|]. destruct (is_hex h && is_hex l) eqn:Ehl; [|done].
  destruct Hn as [_ ->]. cbn [mbind option_bind]. apply no_nul_cons in Hs as [_ [_ Hs]%no_nul_cons].
  rewrite wrap_small.
  2:{ unfold is_hex in Ehl. rewrite andb_true_iff, !Z.leb_le in Ehl.
      pose proof (toxdigitvalue_range h). pose proof (toxdigitvalue_range l). lia. }
  apply (unescapes_step fuel w g [37; h; l] (toxdigitvalue h * 16 + toxdigitvalue l) s r).
  - intros. apply IH; [done|]. simpl in Hf. lia.
  - simpl. lia.
  - cbn [percent_decode]. change (37 =? 37) with true. cbn [andb]. by rewrite Ehl.
Qed.

Lemma MHD_http_unescape_spec p s r :
  no_nul s ->
  ∃ g, MHD_http_unescape (p ++ s ++ 0 :: r) (length p)
       = Some (p ++ percent_decode s ++ 0 :: g ++ r, length (percent_decode s))
    /\ (length (percent_decode s) + length g = length s)%nat.
Proof.
  intros Hs. destruct (http_unescape_loop_spec (length (p ++ s ++ 0 :: r)) p [] s r Hs) as (g & E & Hg).
  { rewrite !length_app. lia. }
  simpl in E, Hg. rewrite Nat.add_0_r in E. exists g. split; [|done].
  unfold MHD_http_unescape. rewrite E. cbn [mbind option_bind]. repeat f_equal. lia.
Qed.

(** ** The unescape callback and its default *)

(** What the documentation of [MHD_OPTION_UNESCAPE_CALLBACK] asks of a
    callback: it decodes the string in place, does not make it longer, keeps
    it terminated and touches nothing else. *)
Class UnescapeCallback (unescape_callback : bytes -> nat -> option (bytes * nat)) := {
  decode : bytes -> bytes;
  unescape_in_place : forall p s r, no_nul s ->
    ∃ g n, unescape_callback (p ++ s ++ 0 :: r) (length p) = Some (p ++ decode s ++ 0 :: g ++ r, n)
      /\ (length (decode s) + length g = length s)%nat
}.
#[global] Hint Mode UnescapeCallback ! : typeclass_instances.
Arguments decode _ {_} _.
Arguments unescape_in_place _ {_} p s r _.

(** [unescape_wrapper] of daemon.c, the callback of a daemon without the
    option. *)
Definition unescape_wrapper (m : bytes) (val : nat) : option (bytes * nat) := MHD_http_unescape m val.

Lemma unescape_wrapper_in_place p s r :
  no_nul s ->
  ∃ g n, unescape_wrapper (p ++ s ++ 0 :: r) (length p) = Some (p ++ percent_decode s ++ 0 :: g ++ r, n)
    /\ (length (percent_decode s) + length g = length s)%nat.
Proof. intros Hs. destruct (MHD_http_unescape_spec p s r Hs) as (g & ? & ?). eauto. Qed.

#[export] Instance unescape_wrapper_callback : UnescapeCallback unescape_wrapper := {
  decode := percent_decode;
  unescape_in_place := unescape_wrapper_in_place
}.

(** ** The arguments of a query string *)

(** The part before the first [c], and the part behind it. *)
Fixpoint span (c : Z) (s : bytes) : bytes * option bytes :=
  match s with
  | [] => ([], None)
  | x :: s' => if x =? c then ([], Some s') else let '(a, b) := span c s' in (x :: a, b)
  end.

(** The pieces between ampersands; there is no piece behind a final one. *)
Fixpoint pieces (cur s : bytes) : list bytes :=
  match s with
  | [] => match cur with [] => [] | _ => [cur] end
  | c :: s' => if c =? 38 then cur :: pieces [] s' else pieces (cur ++ [c]) s'
  end.

Section ArgumentsSpec.
Context (unescape_callback : bytes -> nat -> option (bytes * nat)).
Context `{!UnescapeCallback unescape_callback}.

Definition meaning (s : bytes) : bytes := decode unescape_callback (plus_char <$> s).

Definition argument (piece : bytes) : bytes * option bytes :=
  let '(k, v) := span 61 piece in (meaning k, meaning <$> v).

Definition arguments (s : bytes) : list (bytes * option bytes) := argument <$> pieces [] s.
End ArgumentsSpec.
Arguments meaning _ {_} _.
Arguments argument _ {_} _.
Arguments arguments _ {_} _.

(** A callback that appends the pointers to a list, as the header list of a
    connection does, and may refuse (when the memory pool is exhausted). *)
Definition record (accept : nat -> bool) (st : list (nat * option nat)) (_ : bytes) (k : nat) (v : option nat)
    : list (nat * option nat) * bool :=
  if accept (length st) then (st ++ [(k, v)], true) else (st, false).

(** How many of the next [n] arguments the callback takes, after [i]. *)
Fixpoint accepted (accept : nat -> bool) (i n : nat) : nat :=
  match n with
  | O => O
  | S n' => if accept i then S (accepted accept (S i) n') else O
  end.

(** The object has string [s] and its terminator at offset [k]. *)
Definition has_string (m : bytes) (k : nat) (s : bytes) : Prop :=
  (k <= length m)%nat /\ ∃ t, drop k m = s ++ 0 :: t.

Definition entry_ok (m : bytes) (e : nat * option nat) (a : bytes * option bytes) : Prop :=
  has_string m e.1 a.1
  /\ match e.2, a.2 with
     | None, None => True
     | Some v, Some s => has_string m v s
     | _, _ => False
     end.

Lemma has_string_app m x k s : has_string m k s -> has_string (m ++ x) k s.
Proof.
  intros [Hk [t E]]. split; [rewrite length_app; lia|]. exists (t ++ x).
  rewrite drop_app_le, E by done. by rewrite <- app_assoc.
Qed.

Lemma has_string_at p s t : has_string (p ++ s ++ 0 :: t) (length p) s.
Proof. split; [rewrite length_app; lia|]. exists t. by apply drop_app_at. Qed.

Lemma entry_ok_app m x e a : entry_ok m e a -> entry_ok (m ++ x) e a.
Proof.
  intros [H1 H2]. split; [by apply has_string_app|].
  destruct (e.2), (a.2); try done. by apply has_string_app.
Qed.

Lemma entries_ok_app m x es l : Forall2 (entry_ok m) es l -> Forall2 (entry_ok (m ++ x)) es l.
Proof. intros H. eapply Forall2_impl; [exact H|]. intros. by apply entry_ok_app. Qed.

Lemma span_absent c s : c ∉ s -> span c s = (s, None).
Proof.
  induction s as [|x s IH]; [done|]. intros [? ?]%not_elem_of_cons. simpl.
  destruct (Z.eqb_spec x c); [done|]. by rewrite IH.
Qed.

Lemma span_present c a b : c ∉ a -> span c (a ++ c :: b) = (a, Some b).
Proof.
  induction a as [|x a IH]; simpl; [by rewrite Z.eqb_refl|]. intros [? ?]%not_elem_of_cons.
  destruct (Z.eqb_spec x c); [done|]. by rewrite IH.
Qed.

Lemma pieces_last cur a : 38 ∉ a -> cur ++ a ≠ [] -> pieces cur a = [cur ++ a].
Proof.
  revert cur. induction a as [|x a IH]; intros cur Ha Hne.
  - rewrite app_nil_r in *. by destruct cur.
  - apply not_elem_of_cons in Ha as [? ?]. simpl. destruct (Z.eqb_spec x 38); [done|].
    rewrite IH; [by rewrite <- app_assoc|done|by destruct cur].
Qed.

Lemma pieces_amper cur a b : 38 ∉ a -> pieces cur (a ++ 38 :: b) = (cur ++ a) :: pieces [] b.
Proof.
  revert cur. induction a as [|x a IH]; intros cur Ha; simpl.
  - by rewrite app_nil_r.
  - apply not_elem_of_cons in Ha as [? ?]. destruct (Z.eqb_spec x 38); [done|].
    rewrite IH by done. by rewrite <- app_assoc.
Qed.

(** ** Correctness of the splitting *)

Section ArgumentsProof.
Context (unescape_callback : bytes -> nat -> option (bytes * nat)).
Context `{!UnescapeCallback unescape_callback}.
#[local] Abbreviation unescape_string := (unescape_string unescape_callback).
#[local] Abbreviation meaning := (meaning unescape_callback).
#[local] Abbreviation argument := (argument unescape_callback).
#[local] Abbreviation arguments := (arguments unescape_callback).

Lemma unescape_string_spec p s r :
  no_nul s ->
  ∃ g, unescape_string (p ++ s ++ 0 :: r) (length p) = Some (p ++ meaning s ++ 0 :: g ++ r)
    /\ (length (meaning s) + length g = length s)%nat.
Proof.
  intros Hs. unfold Internal.unescape_string. rewrite MHD_unescape_plus_spec by done. cbn [mbind option_bind].
  destruct (unescape_in_place unescape_callback p (plus_char <$> s) r (plus_no_nul s Hs)) as (g & n & -> & Hg).
  cbn [mbind option_bind]. exists g. split; [done|]. by rewrite length_fmap in Hg.
Qed.

(** Decoding one piece of the string in place, without and with a value. *)
Lemma piece_no_value p s r :
  no_nul s -> 61 ∉ s ->
  ∃ d, unescape_string (p ++ s ++ 0 :: r) (length p) = Some (p ++ d ++ r)
    /\ length d = S (length s) /\ entry_ok (p ++ d) (length p, None) (argument s).
Proof.
  intros Hs He. destruct (unescape_string_spec p s r Hs) as (g & -> & Hg).
  exists (meaning s ++ 0 :: g). rewrite <- app_assoc. split; [done|].
  rewrite length_app. cbn [length]. split; [lia|]. unfold Internal.argument. rewrite span_absent by done.
  split; [apply has_string_at|done].
Qed.

Lemma piece_value p k v r :
  no_nul k -> no_nul v -> 61 ∉ k ->
  ∃ m1 m2 d, mem_write (p ++ (k ++ 61 :: v) ++ 0 :: r) (Z.of_nat (length p + length k)) [0] = Some m1
    /\ unescape_string m1 (length p) = Some m2
    /\ unescape_string m2 (S (length p + length k)) = Some (p ++ d ++ r)
    /\ length d = S (length (k ++ 61 :: v))
    /\ entry_ok (p ++ d) (length p, Some (S (length p + length k))) (argument (k ++ 61 :: v)).
Proof.
  intros Hk Hv He. destruct (unescape_string_spec p k (v ++ 0 :: r) Hk) as (g1 & E1 & H1).
  set (q := p ++ meaning k ++ 0 :: g1).
  destruct (unescape_string_spec q v r Hv) as (g2 & E2 & H2).
  assert (length q = S (length p + length k)) as Hq by (subst q; rewrite !length_app; cbn [length]; lia).
  exists (p ++ k ++ 0 :: v ++ 0 :: r), (q ++ v ++ 0 :: r), ((meaning k ++ 0 :: g1) ++ meaning v ++ 0 :: g2).
  split_and!.
  - rewrite <- app_assoc, (app_assoc p k). rewrite <- app_comm_cons.
    change (61 :: v ++ 0 :: r) with ([61] ++ (v ++ 0 :: r)).
    rewrite mem_write_mid by (rewrite ?length_app; done || lia). by rewrite <- app_assoc.
  - rewrite E1. subst q. by rewrite <- !app_assoc.
  - rewrite <- Hq, E2. subst q. by rewrite <- !app_assoc.
  - rewrite !length_app in *. cbn [length]. lia.
  - unfold Internal.argument. rewrite span_present by done. split; cbn [fst snd].
    + rewrite <- app_assoc. apply has_string_at.
    + rewrite app_assoc. fold q. rewrite <- Hq. apply has_string_at.
Qed.

Lemma arguments_cons s : arguments s = argument <$> pieces [] s.
Proof. reflexivity. Qed.

(** A callback whose answer depends only on the arguments: [ok acc a] says
    whether it takes the argument [a] after the arguments [acc], and [Inv]
    relates its state to the arguments it took, which lie in a growing part of
    the buffer. *)
Context {St : Type} (cb : St -> bytes -> nat -> option nat -> St * bool).
Context (ok : list (bytes * option bytes) -> bytes * option bytes -> bool).
Context (Inv : bytes -> St -> list (bytes * option bytes) -> Prop).
Context (Hgrow : forall p x st acc, Inv p st acc -> Inv (p ++ x) st acc).
Context (Hcb : forall p d rest st acc k v a, Inv p st acc -> entry_ok (p ++ d) (k, v) a ->
  ∃ st', cb st (p ++ d ++ rest) k v = (st', ok acc a) /\ Inv (p ++ d) st' (if ok acc a then acc ++ [a] else acc)).
#[local] Abbreviation parse_loop := (parse_arguments_loop unescape_callback cb).

(** How many of the arguments are taken after [acc]. *)
Fixpoint taken (acc args : list (bytes * option bytes)) : nat :=
  match args with
  | [] => O
  | a :: args' => if ok acc a then S (taken (acc ++ [a]) args') else O
  end.

(** What one run of the loop delivers, from a buffer [p ++ s ++ 0 :: r]. *)
Definition parsed (p s r : bytes) (acc : list (bytes * option bytes)) (j : Z)
    (res : option (bytes * St * Z * bool)) : Prop :=
  let n := taken acc (arguments s) in
  ∃ x st', res = Some (p ++ x ++ r, st', u32 (j + Z.of_nat n), bool_decide (n = length (arguments s)))
    /\ length x = S (length s) /\ Inv (p ++ x) st' (acc ++ take n (arguments s)).

(** The outcome of the callback on the piece [a], decoded to [d]: the parsing
    ends, or goes on behind the piece. *)
Lemma parsed_last p a d r acc j st' :
  a ≠ [] -> 38 ∉ a -> length d = S (length a) ->
  Inv (p ++ d) st' (if ok acc (argument a) then acc ++ [argument a] else acc) ->
  parsed p a r acc j
    (if ok acc (argument a) then Some (p ++ d ++ r, st', u32 (u32 j + 1), true)
     else Some (p ++ d ++ r, st', u32 j, false)).
Proof using.
  intros Hne Ha Hd Hst. unfold parsed. rewrite arguments_cons, pieces_last by done.
  cbn [app fmap list_fmap length taken].
  destruct (ok acc (argument a)); exists d, st'.
  - rewrite wrap_add_l. split_and!; done.
  - rewrite Z.add_0_r, app_nil_r. split_and!; done.
Qed.

Lemma parsed_next p a b d r acc j st' res :
  38 ∉ a -> length d = S (length a) ->
  Inv (p ++ d) st' (if ok acc (argument a) then acc ++ [argument a] else acc) ->
  (ok acc (argument a) = true -> parsed (p ++ d) b r (acc ++ [argument a]) (j + 1) res) ->
  parsed p (a ++ 38 :: b) r acc j
    (if ok acc (argument a) then res else Some (p ++ d ++ b ++ 0 :: r, st', u32 j, false)).
Proof using Hgrow.
  intros Ha Hd Hst Hres. unfold parsed in *. rewrite arguments_cons, pieces_amper by done.
  cbn [app fmap list_fmap length taken]. fold (arguments b).
  destruct (ok acc (argument a)).
  - destruct (Hres eq_refl) as (x & st2 & -> & Hx & Hf).
    exists (d ++ x), st2. rewrite <- !app_assoc, !length_app. cbn [length]. split_and!; [|lia|].
    + f_equal. f_equal; [f_equal; f_equal; lia|]. apply bool_decide_ext. lia.
    + rewrite <- app_assoc in Hf. cbn [firstn take]. by rewrite <- app_assoc in Hf.
  - exists (d ++ b ++ [0]), st'. rewrite Z.add_0_r, app_nil_r, !length_app. cbn [length].
    rewrite <- !app_assoc. split_and!; [done|lia|]. rewrite app_assoc. by apply Hgrow.
Qed.

(** No piece, the last piece, and a piece followed by others. *)
Lemma parse_loop_nil fuel p r st acc j :
  Inv p st acc -> parsed p [] r acc j (parse_loop fuel (p ++ [] ++ 0 :: r) (length p) st (u32 j)).
Proof using Hgrow.
  intros Hst. assert (parse_loop fuel (p ++ [] ++ 0 :: r) (length p) st (u32 j)
    = Some (p ++ [0] ++ r, st, u32 j, true)) as ->.
  { destruct fuel; cbn [parse_arguments_loop app]; rewrite deref_at_app by done; done. }
  exists [0], st. cbn [length taken Internal.arguments pieces fmap list_fmap take].
  rewrite Z.add_0_r, app_nil_r. split_and!; [done..|by apply Hgrow].
Qed.

Lemma parse_loop_last fuel p a r st acc j :
  no_nul a -> a ≠ [] -> 38 ∉ a -> Inv p st acc ->
  parsed p a r acc j (parse_loop fuel (p ++ a ++ 0 :: r) (length p) st (u32 j)).
Proof using Hcb.
  intros Hs Hne Ha Hst.
  assert (∃ c a', a = c :: a' /\ c ≠ 0) as (c & a' & E & Hc).
  { destruct a; [done|]. apply no_nul_cons in Hs as [? _]. eauto. }
  assert (deref_at (p ++ a ++ 0 :: r) (length p) = Some c) as Ed by (subst a; by apply deref_at_app).
  assert (parse_loop fuel (p ++ a ++ 0 :: r) (length p) st (u32 j) = parse_loop 0 (p ++ a ++ 0 :: r) (length p) st (u32 j)) as ->.
  { destruct fuel; cbn [parse_arguments_loop]; [done|]. rewrite Ed. cbn [mbind option_bind].
    destruct (Z.eqb_spec c 0); [done|]. rewrite drop_app_at, (strchr_absent a r 38) by done. done. }
  cbn [parse_arguments_loop]. rewrite Ed. cbn [mbind option_bind]. destruct (Z.eqb_spec c 0); [done|].
  rewrite drop_app_at, (strchr_absent a r 38) by done.
  destruct (first_occurrence 61 a) as [He|(k & v & -> & He)].
  - rewrite strchr_absent by done. cbn [mbind option_bind].
    destruct (piece_no_value p a r Hs He) as (d & -> & Hd & Hok). cbn [mbind option_bind].
    destruct (Hcb p d r st acc _ _ _ Hst Hok) as (st' & -> & Hst'). by apply parsed_last.
  - apply no_nul_app in Hs as [Hk [_ Hv]%no_nul_cons]. rewrite <- app_assoc, <- app_comm_cons.
    rewrite strchr_present by done. cbn [mbind option_bind].
    destruct (piece_value p k v r Hk Hv He) as (m1 & m2 & d & E1 & E2 & E3 & Hd & Hok).
    rewrite <- app_assoc in E1. rewrite <- app_comm_cons in E1.
    rewrite E1. cbn [mbind option_bind]. rewrite E2. cbn [mbind option_bind]. rewrite E3. cbn [mbind option_bind].
    destruct (Hcb p d r st acc _ _ _ Hst Hok) as (st' & -> & Hst'). by apply parsed_last.
Qed.

Lemma parse_loop_next fuel p a b r st acc j :
  no_nul a -> no_nul b -> 38 ∉ a -> Inv p st acc ->
  (forall p st acc j, Inv p st acc ->
     parsed p b r acc j (parse_loop fuel (p ++ b ++ 0 :: r) (length p) st (u32 j))) ->
  parsed p (a ++ 38 :: b) r acc j
    (parse_loop (S fuel) (p ++ (a ++ 38 :: b) ++ 0 :: r) (length p) st (u32 j)).
Proof using Hgrow Hcb.
  intros Hs Hb Ha Hst IH. cbn [parse_arguments_loop].
  assert (∃ c, deref_at (p ++ (a ++ 38 :: b) ++ 0 :: r) (length p) = Some c /\ c ≠ 0) as (c & -> & Hc).
  { destruct a as [|c a]; [exists 38; split; [by apply deref_at_app|done]|].
    exists c. split; [by apply deref_at_app|]. by apply no_nul_cons in Hs as [? _]. }
  cbn [mbind option_bind]. destruct (Z.eqb_spec c 0); [done|]. rewrite !drop_app_at by done.
  rewrite <- app_assoc, <- app_comm_cons. rewrite (strchr_present a _ 38) by done.
  assert (mem_write (p ++ a ++ 38 :: b ++ 0 :: r) (Z.of_nat (length p + length a)) [0]
          = Some (p ++ a ++ 0 :: b ++ 0 :: r)) as Ew.
  { rewrite (app_assoc p a). change (38 :: b ++ 0 :: r) with ([38] ++ b ++ 0 :: r).
    rewrite mem_write_mid by (rewrite ?length_app; done || lia). by rewrite <- app_assoc. }
  assert (Hnext : forall d k v, length d = S (length a) -> entry_ok (p ++ d) (k, v) (argument a) ->
    parsed p (a ++ 38 :: b) r acc j
      (let '(st, ok) := cb st (p ++ d ++ b ++ 0 :: r) k v in
       if ok then parse_loop fuel (p ++ d ++ b ++ 0 :: r) (S (length p + length a)) st (u32 (u32 j + 1))
       else Some (p ++ d ++ b ++ 0 :: r, st, u32 j, false))).
  { intros d k v Hd Hok. destruct (Hcb p d (b ++ 0 :: r) st acc k v _ Hst Hok) as (st' & -> & Hst').
    apply parsed_next; [done..|]. intros E. rewrite E in Hst'. rewrite wrap_add_l.
    replace (S (length p + length a)) with (length (p ++ d)) by (rewrite length_app; lia).
    rewrite (app_assoc p d). by apply IH. }
  assert (Hno : 61 ∉ a -> parsed p (a ++ 38 :: b) r acc j
    (m ← unescape_string (p ++ a ++ 0 :: b ++ 0 :: r) (length p);
     let '(st, ok) := cb st m (length p) None in
     if ok then parse_loop fuel m (S (length p + length a)) st (u32 (u32 j + 1))
     else Some (m, st, u32 j, false))).
  { intros He. destruct (piece_no_value p a (b ++ 0 :: r) Hs He) as (d & -> & Hd & Hok). cbn [mbind option_bind].
    by apply Hnext. }
  destruct (first_occurrence 61 a) as [He|(k & v & -> & He)].
  - destruct (strchr_total b r 61 Hb ltac:(done)) as [o Eo].
    rewrite (strchr_skip a (38 :: b ++ 0 :: r) 61) by done. cbn [strchr]. change (38 =? 61) with false.
    change (38 =? 0) with false. cbv iota. rewrite Eo. cbn [mbind option_bind]. rewrite Ew. cbn [mbind option_bind].
    destruct o as [e|]; cbn [option_map fmap option_fmap]; [|by apply Hno].
    destruct (Nat.leb_spec (S (length p + length a)) (length p + (length a + S e))); [by apply Hno|lia].
  - apply no_nul_app in Hs as [Hk [_ Hv]%no_nul_cons].
    assert (strchr ((k ++ 61 :: v) ++ 38 :: b ++ 0 :: r) 61 = Some (Some (length k))) as ->.
    { rewrite <- app_assoc, <- app_comm_cons. by apply strchr_present. }
    cbn [mbind option_bind]. rewrite Ew. cbn [mbind option_bind].
    destruct (Nat.leb_spec (S (length p + length (k ++ 61 :: v))) (length p + length k)) as [Hle|_];
      [rewrite length_app in Hle; lia|].
    destruct (piece_value p k v (b ++ 0 :: r) Hk Hv He) as (m1 & m2 & d & -> & E2 & E3 & Hd & Hok).
    cbn [mbind option_bind]. rewrite E2. cbn [mbind option_bind]. rewrite E3. cbn [mbind option_bind].
    by apply Hnext.
Qed.

Lemma parse_loop_any fuel p s r st acc j :
  no_nul s -> (length s <= fuel)%nat -> Inv p st acc ->
  parsed p s r acc j (parse_loop fuel (p ++ s ++ 0 :: r) (length p) st (u32 j)).
Proof using Hgrow Hcb.
  revert p s st acc j. induction fuel as [|fuel IH]; intros p s st acc j Hs Hf Hst;
    (destruct (decide (s = [])) as [->|Hne]; [apply parse_loop_nil; done|]).
  { destruct s; [done|simpl in Hf; lia]. }
  destruct (first_occurrence 38 s) as [Ha|(a & b & -> & Ha)]; [by apply parse_loop_last|].
  apply no_nul_app in Hs as [Hs [_ Hb]%no_nul_cons]. rewrite length_app in Hf. simpl in Hf.
  apply parse_loop_next; [done..|]. intros. apply IH; [done|lia|done].
Qed.
End ArgumentsProof.

(** ** The callback that stores pointers *)

Section Recorded.
Context (unescape_callback : bytes -> nat -> option (bytes * nat)).
Context `{!UnescapeCallback unescape_callback} (accept : nat -> bool).

Definition recorded (acc : list (bytes * option bytes)) (_ : bytes * option bytes) : bool := accept (length acc).

Lemma record_step p d rest st acc k v a :
  Forall2 (entry_ok p) st acc -> entry_ok (p ++ d) (k, v) a ->
  ∃ st', record accept st (p ++ d ++ rest) k v = (st', recorded acc a)
    /\ Forall2 (entry_ok (p ++ d)) st' (if recorded acc a then acc ++ [a] else acc).
Proof.
  intros Hst Ha. unfold record, recorded. rewrite <- (Forall2_length _ _ _ Hst). destruct (accept (length st)).
  - eexists. split; [done|]. apply Forall2_app; [by apply entries_ok_app|by constructor].
  - eexists. split; [done|]. by apply entries_ok_app.
Qed.

Lemma taken_accepted acc args : taken recorded acc args = accepted accept (length acc) (length args).
Proof.
  revert acc. induction args as [|a args IH]; intros acc; [done|]. cbn [taken length accepted]. unfold recorded at 1.
  destruct (accept (length acc)); [|done]. rewrite IH, length_app. cbn [length]. by rewrite Nat.add_1_r.
Qed.

Lemma parse_loop_spec fuel p s r st acc j :
  no_nul s -> (length s <= fuel)%nat -> Forall2 (entry_ok p) st acc ->
  let args := arguments unescape_callback s in
  let n := accepted accept (length st) (length args) in
  ∃ x st', parse_arguments_loop unescape_callback (record accept) fuel (p ++ s ++ 0 :: r) (length p) st (u32 j)
    = Some (p ++ x ++ r, st', u32 (j + Z.of_nat n), bool_decide (n = length args))
    /\ length x = S (length s) /\ length st' = (length st + n)%nat
    /\ Forall2 (entry_ok (p ++ x)) st' (acc ++ take n args).
Proof.
  intros Hs Hf Hst args n.
  destruct (parse_loop_any unescape_callback (record accept) recorded (λ p st acc, Forall2 (entry_ok p) st acc)
    (λ p x st acc H, entries_ok_app p x st acc H) record_step fuel p s r st acc j Hs Hf Hst) as (x & st' & E & Hx & Hf').
  rewrite taken_accepted, <- (Forall2_length _ _ _ Hst) in *. exists x, st'. split; [exact E|]. split; [done|]. split; [|done].
  fold args n in Hf'. rewrite (Forall2_length _ _ _ Hf'), length_app, length_take, <- (Forall2_length _ _ _ Hst).
  assert (forall i m, (accepted accept i m <= m)%nat) as Hle.
  { intros i m. revert i. induction m as [|m IH]; intros i; cbn [accepted]; [lia|]. destruct (accept i); [|lia].
    specialize (IH (S i)). lia. }
  specialize (Hle (length st) (length args)). subst n. lia.
Qed.
End Recorded.

(** ** Decoding inverts percent encoding *)

(** The escape of a byte, and an encoder that escapes the bytes it chooses. *)
Definition escape (c : Z) : bytes := [37; hex_upper (c / 16); hex_upper (c mod 16)].

Definition percent_encode (chosen : Z -> bool) (s : bytes) : bytes :=
  concat ((λ c, if chosen c then escape c else [c]) <$> s).

Lemma hex_upper_value d : 0 <= d < 16 -> toxdigitvalue (hex_upper d) = d /\ is_hex (hex_upper d) = true.
Proof.
  intros Hd. assert (d ∈ Z.of_nat <$> seq 0 16) as H.
  { apply list_elem_of_fmap. exists (Z.to_nat d). rewrite elem_of_seq. lia. }
  assert (forallb (λ d, (toxdigitvalue (hex_upper d) =? d) && is_hex (hex_upper d)) (Z.of_nat <$> seq 0 16) = true)
    as Hall by reflexivity.
  rewrite forallb_forall in Hall. apply list_elem_of_In, Hall in H.
  by apply andb_true_iff in H as [?%Z.eqb_eq ?].
Qed.

Lemma percent_decode_escape c s : is_byte c -> percent_decode (escape c ++ s) = c :: percent_decode s.
Proof.
  intros Hc. unfold escape, is_byte in *. cbn [app percent_decode].
  destruct (hex_upper_value (c / 16)) as [E1 H1]; [Z.to_euclidean_division_equations; lia|].
  destruct (hex_upper_value (c mod 16)) as [E2 H2]; [Z.to_euclidean_division_equations; lia|].
  rewrite H1, H2, E1, E2. cbn [andb Z.eqb]. f_equal. Z.to_euclidean_division_equations; lia.
Qed.

Lemma percent_decode_encode chosen s :
  chosen 37 = true -> Forall is_byte s -> percent_decode (percent_encode chosen s) = s.
Proof.
  intros H37 Hs. unfold percent_encode. induction Hs as [|c s Hc Hs IH]; [done|].
  rewrite fmap_cons. cbn [concat]. destruct (chosen c) eqn:E.
  - rewrite percent_decode_escape by done. by rewrite IH.
  - cbn [app]. rewrite percent_decode_plain, IH; [done|]. intros h l t _.
    destruct (Z.eqb_spec c 37) as [->|]; [congruence|done].
Qed.

(** ** Theorems *)

(** Unescaping in place is correct on every C string of the buffer: the
    string is replaced by its percent-decoding and a terminator, nothing in
    front of it or behind its old terminator changes, the text never grows,
    and the returned value is the length of the decoding. *)
Theorem MHD_http_unescape_correct p s r :
  no_nul s ->
  ∃ g, MHD_http_unescape (p ++ s ++ 0 :: r) (length p)
       = Some (p ++ percent_decode s ++ 0 :: g ++ r, length (percent_decode s))
    /\ (length (percent_decode s) + length g = length s)%nat.
Proof. apply MHD_http_unescape_spec. Qed.

Lemma MHD_http_unescape_correct_witness :
  ∃ g, MHD_http_unescape (str "GET " ++ str "a%20b%4" ++ 0 :: str "rest") 4
       = Some (str "GET " ++ str "a b%4" ++ 0 :: g ++ str "rest", 5%nat) /\ length g = 2%nat.
Proof.
  destruct (MHD_http_unescape_correct (str "GET ") (str "a%20b%4") (str "rest")) as (g & E & Hg);
    [apply (bool_decide_unpack _); reflexivity|].
  exists g. split; [exact E|]. change (5 + length g = 7)%nat in Hg. lia.
Defined.

(** Unescaping is the inverse of percent encoding: whichever bytes a
    client chooses to escape, as long as '%' is one of them, the server gets
    the original bytes back, with their number as result. *)
Theorem unescape_percent_encode chosen p s r :
  chosen 37 = true -> chosen 0 = true -> Forall is_byte s ->
  ∃ g, MHD_http_unescape (p ++ percent_encode chosen s ++ 0 :: r) (length p)
       = Some (p ++ s ++ 0 :: g ++ r, length s).
Proof.
  intros H37 H0 Hs. destruct (MHD_http_unescape_spec p (percent_encode chosen s) r) as (g & E & _).
  { unfold no_nul, percent_encode. apply Forall_concat, Forall_fmap. eapply Forall_impl; [exact Hs|].
    intros c Hc. unfold is_byte in Hc. cbn. destruct (chosen c) eqn:Ec.
    - assert (forall d, 0 <= d < 16 -> hex_upper d ≠ 0) as Hh.
      { intros d Hd E0. destruct (hex_upper_value d Hd) as [_ Hx]. by rewrite E0 in Hx. }
      unfold escape. rewrite !Forall_cons. split_and!; [done|apply Hh; Z.to_euclidean_division_equations; lia..|constructor].
    - constructor; [|constructor]. intros ->. congruence. }
  exists g. by rewrite percent_decode_encode in E.
Qed.

Lemma unescape_percent_encode_witness :
  ∃ g, MHD_http_unescape ([] ++ percent_encode (λ c, c <? 65) (str "50% & A") ++ [0]) 0
       = Some ([] ++ str "50% & A" ++ 0 :: g ++ [], 7%nat).
Proof.
  apply (unescape_percent_encode (λ c, c <? 65) [] (str "50% & A") []);
    [reflexivity|reflexivity|apply (bool_decide_unpack _); reflexivity].
Defined.

(** The result of unescaping is not always the length of the resulting C
    string: for a string with the escape of a zero byte it is larger. *)
Theorem unescape_length_is_not_strlen :
  MHD_http_unescape (str "a%00b" ++ [0]) 0 = Some ([97; 0; 98; 0; 98; 0], 3%nat)
  /\ strlen [97; 0; 98; 0; 98; 0] = Some 1%nat.
Proof. split; reflexivity. Qed.

(** The arguments of a URI are parsed correctly: in a buffer with the
    query string [s] at [p], and for every unescape callback that keeps its
    contract, the parser stays inside the string, hands the callback one
    argument per piece between ampersands in order until one is refused,
    counts the accepted ones and returns whether all were taken; and in the
    final buffer every stored pointer still leads to the decoded key or
    value, with the bytes around the string unchanged. *)
Theorem MHD_parse_arguments_correct unescape_callback `{!UnescapeCallback unescape_callback}
    accept p s r :
  no_nul s ->
  let args := arguments unescape_callback s in
  let n := accepted accept 0 (length args) in
  ∃ x st, MHD_parse_arguments_ unescape_callback (record accept) (p ++ s ++ 0 :: r) (Some (length p)) []
          = Some (p ++ x ++ r, st, u32 (Z.of_nat n), bool_decide (n = length args))
    /\ length x = S (length s) /\ length st = n
    /\ Forall2 (entry_ok (p ++ x)) st (take n args).
Proof.
  intros Hs args n.
  apply (parse_loop_spec unescape_callback accept (length (p ++ s ++ 0 :: r)) p s r [] [] 0 Hs);
    [rewrite !length_app; lia|constructor].
Qed.

Lemma MHD_parse_arguments_correct_witness :
  arguments unescape_wrapper (str "k=1+2&flag&x=%26") =
    [(str "k", Some (str "1 2")); (str "flag", None); (str "x", Some (str "&"))]
  /\ ∃ x st, MHD_parse_arguments_ unescape_wrapper (record (λ _, true)) (str "k=1+2&flag&x=%26" ++ [0]) (Some 0%nat) []
       = Some (x ++ [], st, 3, true)
     /\ Forall2 (entry_ok x) st (arguments unescape_wrapper (str "k=1+2&flag&x=%26")).
Proof.
  split; [reflexivity|].
  destruct (MHD_parse_arguments_correct unescape_wrapper (λ _, true) [] (str "k=1+2&flag&x=%26") [])
    as (x & st & E & _ & _ & Hf); [apply (bool_decide_unpack _); reflexivity|].
  exists x, st. split; [exact E|exact Hf].
Defined.
