(* ===== verification/Headers.v ===== *)
(** * The values of a request (libmicrohttpd/src/microhttpd/connection.c)

    The list of headers, cookies, arguments and footers a connection keeps:
    iteration, insertion with its allocation from the memory pool, lookup by
    caseless name, and the search for a token in all headers of a name.  A
    [char *] of an entry is modelled by its characters without the terminator;
    [None] is the null pointer. *)

From S2P Require Import Prelude MhdStr MemoryPool.

(** ** Data *)

Abbreviation MHD_RESPONSE_HEADER_KIND := 0.
Abbreviation MHD_HEADER_KIND := 1.
Abbreviation MHD_COOKIE_KIND := 2.
Abbreviation MHD_POSTDATA_KIND := 4.
Abbreviation MHD_GET_ARGUMENT_KIND := 8.
Abbreviation MHD_FOOTER_KIND := 16.

(** [struct MHD_HTTP_Header]; [next] is the list structure. *)
Record MHD_HTTP_Header := mkHeader { header : option bytes; header_value : option bytes; kind : Z }.

(** A pointer to a string constant or to a stored string. *)
Definition cstr (s : bytes) : bytes := s ++ [0].

Definition has_kind (h : MHD_HTTP_Header) (k : Z) : bool := negb (Z.land (kind h) k =? 0).

(** ** Operations *)

(** The loop over the list; [iterator] is [None] for the null pointer, and
    says with [false] that the iteration is to stop. *)
Fixpoint get_values_loop {St} (pos : list MHD_HTTP_Header) (k : Z)
    (iterator : option (St -> MHD_HTTP_Header -> St * bool)) (st : St) (ret : Z) : St * Z :=
  match pos with
  | [] => (st, ret)
  | h :: next =>
      if has_kind h k then
        match iterator with
        | None => get_values_loop next k iterator st (ret + 1)
        | Some f =>
            let '(st, go_on) := f st h in
            if go_on then get_values_loop next k iterator st (ret + 1) else (st, ret + 1)
        end
      else get_values_loop next k iterator st ret
  end.

Definition MHD_get_connection_values {St} (headers_received : option (list MHD_HTTP_Header)) (k : Z)
    (iterator : option (St -> MHD_HTTP_Header -> St * bool)) (st : St) : St * Z :=
  match headers_received with
  | None => (st, -1)
  | Some l => get_values_loop l k iterator st 0
  end.

Section Set_value.
Context `{Platform}.

(** [sizeof (struct MHD_HTTP_Header)]: three pointers and an enumeration,
    padded to a pointer. *)
Definition sizeof_header : Z := 4 * sizeof_ptr.

Definition MHD_set_connection_value (pool : MemoryPool) (headers_received : list MHD_HTTP_Header)
    (k : Z) (key val : option bytes) : bool * MemoryPool * list MHD_HTTP_Header :=
  match MHD_pool_allocate pool sizeof_header true with
  | (None, pool) => (false, pool, headers_received)
  | (Some _, pool) => (true, pool, headers_received ++ [mkHeader key val k])
  end.
End Set_value.

(** [(key == pos->header) || ((NULL != pos->header) && (NULL != key) &&
    MHD_str_equal_caseless_ (key, pos->header))]. *)
Definition header_matches (key hdr : option bytes) : option bool :=
  match key, hdr with
  | None, None => Some true
  | Some a, Some b => MHD_str_equal_caseless_ (cstr a) (cstr b)
  | _, _ => Some false
  end.

(** The value of the entry found, [None] for the null pointer; the outer
    option is undefined behaviour. *)
Fixpoint lookup_loop (pos : list MHD_HTTP_Header) (k : Z) (key : option bytes) : option (option bytes) :=
  match pos with
  | [] => Some None
  | h :: next =>
      if has_kind h k then
        m ← header_matches key (header h);
        if (m : bool) then Some (header_value h) else lookup_loop next k key
      else lookup_loop next k key
  end.

Definition MHD_lookup_connection_value (headers_received : option (list MHD_HTTP_Header)) (k : Z)
    (key : option bytes) : option (option bytes) :=
  match headers_received with
  | None => Some None
  | Some l => lookup_loop l k key
  end.

(** The entries are compared without a check for null pointers. *)
Fixpoint lookup_token_loop (pos : list MHD_HTTP_Header) (hdr token : bytes) (token_len : nat) : option bool :=
  match pos with
  | [] => Some false
  | h :: next =>
      if has_kind h MHD_HEADER_KIND then
        name ← header h;
        m ← MHD_str_equal_caseless_ (cstr hdr) (cstr name);
        if (m : bool) then
          v ← header_value h;
          t ← MHD_str_has_token_caseless_ (cstr v) (cstr token) token_len;
          if (t : bool) then Some true else lookup_token_loop next hdr token token_len
        else lookup_token_loop next hdr token token_len
      else lookup_token_loop next hdr token token_len
  end.

Definition MHD_lookup_header_token_ci (headers_received : option (list MHD_HTTP_Header))
    (hdr token : option bytes) (token_len : nat) : option bool :=
  match headers_received, hdr, token with
  | Some l, Some ((_ :: _) as h), Some ((_ :: _) as t) => lookup_token_loop l h t token_len
  | _, _, _ => Some false
  end.

(** ** Specification *)

(** Entries are C strings. *)
Definition header_wf (h : MHD_HTTP_Header) : Prop :=
  (forall s, header h = Some s -> no_nul s) /\ (forall s, header_value h = Some s -> no_nul s).

Definition same_name (key hdr : option bytes) : Prop :=
  match key, hdr with
  | None, None => True
  | Some a, Some b => caseless_eq a b
  | _, _ => False
  end.

#[export] Instance same_name_dec key hdr : Decision (same_name key hdr).
Proof. destruct key, hdr; simpl; apply _. Defined.

(** The entries of the given kinds with the given name, in order. *)
Definition named (k : Z) (key : option bytes) (l : list MHD_HTTP_Header) : list MHD_HTTP_Header :=
  filter (λ h, has_kind h k = true /\ same_name key (header h)) l.

Lemma header_matches_spec key hdr :
  (forall s, key = Some s -> no_nul s) -> (forall s, hdr = Some s -> no_nul s) ->
  header_matches key hdr = Some (bool_decide (same_name key hdr)).
Proof.
  intros Hk Hh. destruct key as [a|], hdr as [b|]; simpl; try done.
  unfold cstr. rewrite str_equal_caseless_spec by auto. done.
Qed.

Lemma lookup_loop_spec l k key :
  (forall s, key = Some s -> no_nul s) -> Forall header_wf l ->
  lookup_loop l k key = Some (h ← head (named k key l); header_value h).
Proof.
  intros Hk Hl. unfold named. induction Hl as [|h l [Hn _] Hl IH]; [done|]. cbn [lookup_loop]. rewrite filter_cons.
  destruct (has_kind h k) eqn:E.
  - rewrite header_matches_spec by done. cbn [mbind option_bind]. case_bool_decide as Hm.
    + rewrite decide_True by done. done.
    + rewrite decide_False by tauto. done.
  - rewrite decide_False by (intros [? _]; done). done.
Qed.

(** A value that is found is a C string. *)
Lemma lookup_value_wf l k key v :
  (forall s, key = Some s -> no_nul s) -> Forall header_wf l -> lookup_loop l k key = Some (Some v) -> no_nul v.
Proof.
  intros Hk Hl E. rewrite lookup_loop_spec in E by done. injection E as E. apply bind_Some in E as (h & Hh & Hv).
  assert (h ∈ named k key l) as Hin by (destruct (named k key l); simplify_eq/=; left).
  apply list_elem_of_filter in Hin as [_ Hin]. rewrite Forall_forall in Hl. by apply (Hl h Hin).
Qed.

Lemma get_values_count {St} l k (st : St) ret :
  get_values_loop l k None st ret = (st, ret + Z.of_nat (length (filter (λ h, has_kind h k = true) l))).
Proof.
  revert ret. induction l as [|h l IH]; intros ret; cbn [get_values_loop]; [f_equal; simpl; lia|].
  rewrite filter_cons. destruct (has_kind h k) eqn:E.
  - rewrite decide_True by done. rewrite IH. f_equal. cbn [length]. lia.
  - rewrite decide_False by done. apply IH.
Qed.

(** An iterator that collects entries and stops after [n] of them. *)
Definition collect (n : nat) (st : list MHD_HTTP_Header) (h : MHD_HTTP_Header) : list MHD_HTTP_Header * bool :=
  (st ++ [h], (S (length st) <? n)%nat).

Lemma get_values_collect l k n st :
  (length st < n)%nat ->
  let found := take (n - length st) (filter (λ h, has_kind h k = true) l) in
  get_values_loop l k (Some (collect n)) st (Z.of_nat (length st)) = (st ++ found, Z.of_nat (length st + length found)).
Proof.
  revert st. induction l as [|h l IH]; intros st Hn; cbn [get_values_loop].
  - by rewrite filter_nil, take_nil, app_nil_r, Nat.add_0_r.
  - rewrite filter_cons. destruct (has_kind h k) eqn:E.
    + rewrite decide_True by done. unfold collect at 1. destruct (n - length st)%nat as [|m] eqn:En; [lia|].
      cbn [take length]. destruct (Nat.ltb_spec (S (length st)) n).
      * replace (Z.of_nat (length st) + 1) with (Z.of_nat (length (st ++ [h]))) by (rewrite length_app; simpl; lia).
        rewrite IH by (rewrite length_app; simpl; lia). rewrite length_app. cbn [length].
        replace (n - (length st + 1))%nat with m by lia. rewrite <- app_assoc. f_equal. lia.
      * replace m with 0%nat by lia. rewrite take_0. cbn [length]. f_equal. lia.
    + rewrite decide_False by done. apply IH. done.
Qed.

(** ** Theorems *)

Section Theorems.
Context `{Platform}.

(** Looking up a value returns the value of the first entry of the wanted
    kinds whose name is equal up to case, and the null pointer when there is
    none; a stored value is found under its name until then unused, and never
    hides an earlier entry; and a failed allocation changes nothing. *)
Theorem MHD_lookup_connection_value_correct pool l k key v :
  (forall s, key = Some s -> no_nul s) -> (forall s, v = Some s -> no_nul s) -> Forall header_wf l ->
  MHD_lookup_connection_value (Some l) k key = Some (h ← head (named k key l); header_value h)
  /\ match MHD_set_connection_value pool l k key v with
     | (true, _, l') =>
         Forall header_wf l' /\ named k key l' = named k key l ++ (if k =? 0 then [] else [mkHeader key v k])
         /\ MHD_lookup_connection_value (Some l') k key
            = Some (match named k key l with h :: _ => header_value h | [] => if k =? 0 then None else v end)
     | (false, pool', l') => pool' = pool /\ l' = l
     end.
Proof.
  intros Hk Hv Hl. split; [by apply lookup_loop_spec|]. unfold MHD_set_connection_value.
  destruct (MHD_pool_allocate pool sizeof_header true) as [[o|] pool'] eqn:Ea.
  2:{ split; [|done]. unfold MHD_pool_allocate in Ea. revert Ea. bcases; congruence. }
  assert (Forall header_wf (l ++ [mkHeader key v k])) as Hl'.
  { apply Forall_app. split; [done|]. by repeat constructor. }
  assert (named k key (l ++ [mkHeader key v k]) = named k key l ++ (if k =? 0 then [] else [mkHeader key v k])) as En.
  { unfold named. rewrite filter_app. f_equal. rewrite filter_cons, filter_nil.
    assert (has_kind (mkHeader key v k) k = negb (k =? 0)) as Ek by (unfold has_kind; cbn [kind]; by rewrite Z.land_diag).
    assert (same_name key key) as Hs by (destruct key; simpl; reflexivity). rewrite Ek. destruct (k =? 0).
    - by rewrite decide_False by (intros [? _]; done).
    - by rewrite decide_True. }
  split; [done|]. split; [done|]. cbn [MHD_lookup_connection_value]. rewrite lookup_loop_spec by done.
  rewrite En. destruct (named k key l); [|done]. by destruct (k =? 0).
Qed.

(** Iterating over the values of a request visits the entries of the
    wanted kinds in the order of the list, stops at the entry for which the
    iterator says so, and returns how many it visited; without an iterator it
    counts them, and for the null connection it returns -1. *)
Theorem MHD_get_connection_values_correct l k n :
  (0 < n)%nat ->
  let wanted := filter (λ h, has_kind h k = true) l in
  MHD_get_connection_values (Some l) k (Some (collect n)) [] = (take n wanted, Z.of_nat (length (take n wanted)))
  /\ MHD_get_connection_values (Some l) k None tt = (tt, Z.of_nat (length wanted))
  /\ MHD_get_connection_values None k (Some (collect n)) [] = ([], -1).
Proof.
  intros Hn wanted. split_and!; [|apply get_values_count|done].
  pose proof (get_values_collect l k n [] ltac:(simpl; lia)) as E. cbn [length] in E.
  by rewrite Nat.sub_0_r in E.
Qed.
End Theorems.

Definition demo_headers : list MHD_HTTP_Header :=
  [mkHeader (Some (str "Host")) (Some (str "example")) MHD_HEADER_KIND;
   mkHeader (Some (str "sid")) (Some (str "7")) MHD_COOKIE_KIND;
   mkHeader None (Some (str "tail")) MHD_FOOTER_KIND].

Lemma demo_headers_wf : Forall header_wf demo_headers.
Proof.
  assert (forall a b k, no_nul a -> no_nul b -> header_wf (mkHeader (Some a) (Some b) k)) as H.
  { intros a b k Ha Hb. split; intros s [= <-]; done. }
  repeat constructor; try (intros s [= <-]); try done; apply (bool_decide_unpack _); reflexivity.
Qed.

Lemma MHD_lookup_connection_value_correct_witness :
  MHD_lookup_connection_value (Some demo_headers) MHD_HEADER_KIND (Some (str "HOST")) = Some (Some (str "example")).
Proof.
  destruct (MHD_lookup_connection_value_correct (H := LP64) (mkPool (replicate 64 0) 64 0 64 false)
    demo_headers MHD_HEADER_KIND (Some (str "HOST")) None) as [E _];
    [intros s [= <-]; apply (bool_decide_unpack _); reflexivity|done|exact demo_headers_wf|].
  rewrite E. vm_compute. reflexivity.
Defined.

Lemma MHD_get_connection_values_correct_witness :
  MHD_get_connection_values (Some demo_headers) 3 (Some (collect 5)) [] = (take 2 demo_headers, 2).
Proof. exact (proj1 (MHD_get_connection_values_correct demo_headers 3 5 ltac:(lia))). Defined.
