(* ===== verification/Connection.v ===== *)
(** * The connection record (libmicrohttpd/src/microhttpd/connection.c, internal.h)

    The fields of [struct MHD_Connection] that the receiving half of the
    state machine uses, their assignments, and the operations every later
    stage shares: closing with a notification, growing the read buffer,
    cutting the next line out of it, and storing a header.

    A [char *] into the memory pool is its offset there, so that two pointers
    to the same bytes see each other's writes; a string constant of the
    program is [Static]. *)

From S2P Require Import Prelude MhdStr MemoryPool Headers.

(** [enum MHD_CONNECTION_STATE]. *)
Inductive conn_state :=
| MHD_CONNECTION_INIT | MHD_CONNECTION_URL_RECEIVED | MHD_CONNECTION_HEADER_PART_RECEIVED
| MHD_CONNECTION_HEADERS_RECEIVED | MHD_CONNECTION_HEADERS_PROCESSED
| MHD_CONNECTION_CONTINUE_SENDING | MHD_CONNECTION_CONTINUE_SENT
| MHD_CONNECTION_BODY_RECEIVED | MHD_CONNECTION_FOOTER_PART_RECEIVED
| MHD_CONNECTION_FOOTERS_RECEIVED | MHD_CONNECTION_HEADERS_SENDING
| MHD_CONNECTION_HEADERS_SENT | MHD_CONNECTION_NORMAL_BODY_READY
| MHD_CONNECTION_NORMAL_BODY_UNREADY | MHD_CONNECTION_CHUNKED_BODY_READY
| MHD_CONNECTION_CHUNKED_BODY_UNREADY | MHD_CONNECTION_BODY_SENT
| MHD_CONNECTION_FOOTERS_SENDING | MHD_CONNECTION_FOOTERS_SENT | MHD_CONNECTION_CLOSED.

#[export] Instance conn_state_eq_dec : EqDecision conn_state.
Proof. solve_decision. Defined.

(** A [char *]. *)
Inductive char_ptr := Pool (off : Z) | Static (s : bytes).

#[export] Instance char_ptr_eq_dec : EqDecision char_ptr.
Proof. solve_decision. Defined.

(** [struct MHD_HTTP_Header] as the parser builds it. *)
Record header_ref := mkRef { ref_key : char_ptr; ref_value : option char_ptr; ref_kind : Z }.

(** [enum MHD_RequestTerminationCode]. *)
Inductive termination :=
| MHD_REQUEST_TERMINATED_COMPLETED_OK | MHD_REQUEST_TERMINATED_WITH_ERROR
| MHD_REQUEST_TERMINATED_TIMEOUT_REACHED | MHD_REQUEST_TERMINATED_DAEMON_SHUTDOWN
| MHD_REQUEST_TERMINATED_READ_ERROR | MHD_REQUEST_TERMINATED_CLIENT_ABORT.

(** How much of the request body is still to come. *)
Record upload := mkUpload {
  have_chunked_upload : bool;
  remaining_upload_size : Z;
  current_chunk_size : Z;
  current_chunk_offset : Z
}.

Abbreviation MHD_SIZE_UNKNOWN := UINT64_MAX.

(** What the parser learns from the head of the request. *)
Record request := mkRequest {
  method : option char_ptr;
  url : option char_ptr;
  version : option char_ptr;
  last : option Z;
  colon : option Z;
  headers_received : list header_ref
}.

Section Conn.
Context `{Platform}.

(** [error_response] is the status code of the error reply that was queued;
    [completed] are the calls of [notify_completed] so far. *)
Record MHD_Connection := mkConn {
  pool : MemoryPool;
  read_buffer : option Z;
  read_buffer_size : Z;
  read_buffer_offset : Z;
  state : conn_state;
  read_closed : bool;
  response : option Z;
  client_aware : bool;
  up : upload;
  req : request;
  completed : list termination
}.

(** ** Assignments *)

Definition set_pool (c : MHD_Connection) p :=
  mkConn p (read_buffer c) (read_buffer_size c) (read_buffer_offset c) (state c) (read_closed c)
    (response c) (client_aware c) (up c) (req c) (completed c).

Definition set_read (c : MHD_Connection) rb size off :=
  mkConn (pool c) rb size off (state c) (read_closed c) (response c) (client_aware c) (up c) (req c) (completed c).

Definition set_state (c : MHD_Connection) s :=
  mkConn (pool c) (read_buffer c) (read_buffer_size c) (read_buffer_offset c) s (read_closed c)
    (response c) (client_aware c) (up c) (req c) (completed c).

Definition set_up (c : MHD_Connection) u :=
  mkConn (pool c) (read_buffer c) (read_buffer_size c) (read_buffer_offset c) (state c) (read_closed c)
    (response c) (client_aware c) u (req c) (completed c).

Definition set_req (c : MHD_Connection) r :=
  mkConn (pool c) (read_buffer c) (read_buffer_size c) (read_buffer_offset c) (state c) (read_closed c)
    (response c) (client_aware c) (up c) r (completed c).

Definition set_read_closed (c : MHD_Connection) b :=
  mkConn (pool c) (read_buffer c) (read_buffer_size c) (read_buffer_offset c) (state c) b
    (response c) (client_aware c) (up c) (req c) (completed c).

Definition set_aware (c : MHD_Connection) b :=
  mkConn (pool c) (read_buffer c) (read_buffer_size c) (read_buffer_offset c) (state c) (read_closed c)
    (response c) b (up c) (req c) (completed c).

(** ** Closing *)

Definition MHD_connection_mark_closed_ (c : MHD_Connection) : MHD_Connection := set_state c MHD_CONNECTION_CLOSED.

(** [notify] says whether the daemon has a [notify_completed] callback. *)
Definition MHD_connection_close_ (notify : bool) (c : MHD_Connection) (code : termination) : MHD_Connection :=
  let c := MHD_connection_mark_closed_ c in
  mkConn (pool c) (read_buffer c) (read_buffer_size c) (read_buffer_offset c) (state c) (read_closed c)
    None false (up c) (req c) (completed c ++ (if notify && client_aware c then [code] else [])).

Definition connection_close_error (notify : bool) (c : MHD_Connection) : MHD_Connection :=
  MHD_connection_close_ notify c MHD_REQUEST_TERMINATED_WITH_ERROR.

(** ** The read buffer *)

Abbreviation MHD_BUF_INC_SIZE := 1024.

Definition try_grow_read_buffer (pool_size : Z) (c : MHD_Connection) : option (bool * MHD_Connection) :=
  let new_size := if 0 =? read_buffer_size c then pool_size / 2
                  else usize (read_buffer_size c + MHD_BUF_INC_SIZE) in
  '(buf, p) ← MHD_pool_reallocate (pool c) (read_buffer c) (read_buffer_size c) new_size;
  match buf with
  | None => Some (false, set_pool c p)
  | Some b => Some (true, set_read (set_pool c p) (Some b) new_size (read_buffer_offset c))
  end.

(** What the socket delivers: some bytes, nothing yet, a reset or another
    error, or the end of the stream. *)
Inductive recv_result := Received (bs : bytes) | Again | Conn_reset | Recv_error | Peer_closed.

(** The states in which more of the request is expected. *)
Definition expects_input (s : conn_state) : bool :=
  match s with
  | MHD_CONNECTION_INIT | MHD_CONNECTION_URL_RECEIVED | MHD_CONNECTION_HEADER_PART_RECEIVED
  | MHD_CONNECTION_HEADERS_RECEIVED | MHD_CONNECTION_HEADERS_PROCESSED
  | MHD_CONNECTION_CONTINUE_SENDING | MHD_CONNECTION_CONTINUE_SENT
  | MHD_CONNECTION_BODY_RECEIVED | MHD_CONNECTION_FOOTER_PART_RECEIVED => true
  | _ => false
  end.

(** After [bytes_read] > 0. *)
Definition after_read (notify : bool) (c : MHD_Connection) : option MHD_Connection :=
  if expects_input (state c) then
    Some (if read_closed c then MHD_connection_close_ notify c MHD_REQUEST_TERMINATED_READ_ERROR else c)
  else if bool_decide (state c = MHD_CONNECTION_CLOSED) then Some c
  else
    '(_, p) ← MHD_pool_reallocate (pool c) (read_buffer c) (usize (read_buffer_size c + 1)) (read_buffer_offset c);
    Some (set_pool c p).

(** [recv_cls] is asked for at most the room that is left; it is given the
    number of bytes asked for. *)
Definition MHD_connection_handle_read (notify : bool) (pool_size pool_increment : Z) (c : MHD_Connection)
    (recv_cls : Z -> recv_result) : option MHD_Connection :=
  if bool_decide (state c = MHD_CONNECTION_CLOSED) then Some c
  else
    c ← (if usize (read_buffer_offset c + pool_increment) >? read_buffer_size c
         then r ← try_grow_read_buffer pool_size c; Some (snd r) else Some c);
    if read_buffer_size c =? read_buffer_offset c then Some c
    else
      match recv_cls (read_buffer_size c - read_buffer_offset c) with
      | Again => Some c
      | Conn_reset | Recv_error => Some (connection_close_error notify c)
      | Peer_closed =>
          Some (MHD_connection_close_ notify (set_read_closed c true) MHD_REQUEST_TERMINATED_CLIENT_ABORT)
      | Received bs =>
          rb ← read_buffer c;
          m ← mem_write (memory (pool c)) (rb + read_buffer_offset c) bs;
          let c := set_pool c (with_memory (pool c) m) in
          after_read notify
            (set_read c (Some rb) (read_buffer_size c) (read_buffer_offset c + Z.of_nat (length bs)))
      end.
End Conn.

(** The unprocessed bytes are [b], inside a buffer that is not the very end
    of the pool. *)
Definition buffered (c : MHD_Connection) (b : bytes) : Prop :=
  ∃ pre post, memory (pool c) = pre ++ b ++ post /\ read_buffer c = Some (Z.of_nat (length pre))
    /\ read_buffer_offset c = Z.of_nat (length b) /\ read_buffer_offset c <= read_buffer_size c
    /\ Z.of_nat (length pre) + read_buffer_size c < Z.of_nat (length (memory (pool c))).
