(* ===== verification/RequestBody.v ===== *)
(** * The request body (libmicrohttpd/src/microhttpd/connection.c)

    [process_request_body]: the bytes in the read buffer are given to the
    application, after the chunked transfer encoding has been taken off when
    the request uses it; what the application or the decoder cannot use yet
    stays at the front of the buffer.  The loop is split along its branches;
    [body_iteration] composes them into one round of the [do] loop.

    [buffer_head] is the suffix of the pool's memory that starts at the
    pointer.  The bound of the loop is the number of available bytes: every
    round that asks for another one consumes at least one byte. *)

From S2P Require Import Prelude MhdStr MemoryPool Headers Connection.

(** ** Chunk framing *)

Definition is_newline (c : Z) : bool := (c =? 13) || (c =? 10).

Definition with_chunk (u : upload) (size offset : Z) : upload :=
  mkUpload (have_chunked_upload u) (remaining_upload_size u) size offset.

Definition with_remaining (u : upload) (r : Z) : upload :=
  mkUpload (have_chunked_upload u) r (current_chunk_size u) (current_chunk_offset u).

(** The new line at the end of a chunk; the inner [None] is a malformed one. *)
Definition skip_chunk_end (u : upload) (buffer_head : bytes) (available : nat)
    : option (option (upload * bytes * nat)) :=
  if (current_chunk_offset u =? current_chunk_size u) && negb (0 =? current_chunk_offset u)
     && (2 <=? available)%nat
  then
    c0 ← deref_at buffer_head 0;
    let i := if is_newline c0 then 1%nat else 0%nat in
    c1 ← deref_at buffer_head i;
    let i := if is_newline c1 then S i else i in
    if (i =? 0)%nat then Some None
    else Some (Some (with_chunk u 0 0, drop i buffer_head, (available - i)%nat))
  else Some (Some (u, buffer_head, available)).

(** The scan for the end of the size; [left] is what is left of the 16
    characters that are looked at. *)
Fixpoint scan_size (left : nat) (buffer_head : bytes) (available i : nat) : option nat :=
  match left with
  | O => Some i
  | S left' =>
      if (i <? available)%nat then
        c ← deref_at buffer_head i;
        if is_newline c || (c =? 59) then Some i else scan_size left' buffer_head available (S i)
      else Some i
  end.

(** The scan over a chunk extension; [left] is [available - i]. *)
Fixpoint skip_extension (left : nat) (buffer_head : bytes) (i : nat) : option nat :=
  match left with
  | O => Some i
  | S left' =>
      c ← deref_at buffer_head i;
      if is_newline c then Some i else skip_extension left' buffer_head (S i)
  end.

(** The end of the size and the beginning of the new line. *)
Definition line_end (buffer_head : bytes) (available : nat) : option (nat * nat) :=
  end_size ← scan_size 16 buffer_head available 0;
  c ← deref_at buffer_head end_size;
  i ← (if c =? 59 then skip_extension (available - end_size) buffer_head end_size else Some end_size);
  Some (end_size, i).

Inductive size_line := Need_more | Malformed (u : upload) | Sized (u : upload) (buffer_head : bytes) (available : nat).

(** The line in front of a chunk. *)
Definition read_size_line (u : upload) (buffer_head : bytes) (available : nat) : option size_line :=
  '(end_size, i) ← line_end buffer_head available;
  more ← (if (available <=? i + 1)%nat then
            if (i =? 1)%nat && (available =? 2)%nat then c0 ← deref_at buffer_head 0; Some (negb (c0 =? 48))
            else Some true
          else Some false);
  if (more : bool) then Some Need_more
  else
    let i := S i in
    if (16 <=? end_size)%nat then Some (Malformed u)
    else
      '(num_dig, size) ← MHD_strx_to_uint64_n_ (Some buffer_head) end_size (Some (current_chunk_size u));
      size ← size;
      if negb (end_size =? num_dig)%nat then Some (Malformed (with_chunk u size (current_chunk_offset u)))
      else
        i ← (if (i <? available)%nat then c ← deref_at buffer_head i; Some (if is_newline c then S i else i)
             else Some i);
        Some (Sized (with_chunk u size 0) (drop i buffer_head) (available - i)).

(** ** The loop *)

(** What a round does next: give [to_be_processed] bytes to the application,
    leave the loop, go round again without the application, or close. *)
Inductive round :=
| Deliver (to_be_processed : nat) (instant_retry : bool) (u : upload) (buffer_head : bytes) (available : nat)
| Leave (u : upload) (buffer_head : bytes) (available : nat)
| Go_on (instant_retry : bool) (u : upload) (buffer_head : bytes) (available : nat)
| Bad_encoding (u : upload).

Definition chunked_round (u : upload) (buffer_head : bytes) (available : nat) : option round :=
  r ← skip_chunk_end u buffer_head available;
  match r with
  | None => Some (Bad_encoding u)
  | Some (u, buffer_head, available) =>
      if current_chunk_offset u <? current_chunk_size u then
        let cur_chunk_left := u64 (current_chunk_size u - current_chunk_offset u) in
        if cur_chunk_left >? Z.of_nat available
        then Some (Deliver available false u buffer_head available)
        else
          let to_be_processed := Z.to_nat cur_chunk_left in
          Some (Deliver to_be_processed (to_be_processed <? available)%nat u buffer_head available)
      else
        l ← read_size_line u buffer_head available;
        match l with
        | Need_more => Some (Leave u buffer_head available)
        | Malformed u => Some (Bad_encoding u)
        | Sized u buffer_head available =>
            if current_chunk_size u =? 0 then Some (Leave (with_remaining u 0) buffer_head available)
            else Some (Go_on (0 <? available)%nat u buffer_head available)
        end
  end.

Definition plain_round (u : upload) (buffer_head : bytes) (available : nat) : round :=
  let r := remaining_upload_size u in
  if negb (r =? 0) && negb (r =? MHD_SIZE_UNKNOWN) && (r <? Z.of_nat available)
  then Deliver (Z.to_nat r) false u buffer_head available
  else Deliver available false u buffer_head available.

Definition next_round (u : upload) (buffer_head : bytes) (available : nat) : option round :=
  if have_chunked_upload u && (remaining_upload_size u =? MHD_SIZE_UNKNOWN)
  then chunked_round u buffer_head available
  else Some (plain_round u buffer_head available).

Section Body.
Context {App : Type}.

(** The application: its state, the bytes it is given, and what it answers:
    its new state, [MHD_YES] or [MHD_NO], and how many bytes it left. *)
Context (default_handler : App -> bytes -> App * bool * nat).

(** After a round: leave the loop, go round again, close the connection, or
    abort because the application claims to have left more than it got. *)
Inductive step_result :=
| Finish (u : upload) (buffer_head : bytes) (available : nat)
| Retry (u : upload) (buffer_head : bytes) (available : nat)
| Close (u : upload)
| Panic.

(** The bookkeeping after the application has used [processed_size] bytes. *)
Definition account (u : upload) (processed_size : nat) : upload :=
  let u := if have_chunked_upload u
           then with_chunk u (current_chunk_size u) (u64 (current_chunk_offset u + Z.of_nat processed_size)) else u in
  if remaining_upload_size u =? MHD_SIZE_UNKNOWN then u
  else with_remaining u (u64 (remaining_upload_size u - Z.of_nat processed_size)).

(** One round, with [client_aware] and the state of the application. *)
Definition body_iteration (u : upload) (aware : bool) (app : App) (buffer_head : bytes) (available : nat)
    : option (step_result * bool * App) :=
  r ← next_round u buffer_head available;
  match r with
  | Bad_encoding u => Some (Close u, aware, app)
  | Leave u buffer_head available => Some (Finish u buffer_head available, aware, app)
  | Go_on retry u buffer_head available =>
      Some ((if (retry : bool) then Retry else Finish) u buffer_head available, aware, app)
  | Deliver to_be_processed retry u buffer_head available =>
      data ← mem_read buffer_head 0 (Z.of_nat to_be_processed);
      let '(app, ok, left_unprocessed) := default_handler app data in
      if negb ok then Some (Close u, true, app)
      else if (to_be_processed <? left_unprocessed)%nat then Some (Panic, true, app)
      else
        let retry := if negb (left_unprocessed =? 0)%nat then false else (retry : bool) in
        let processed_size := (to_be_processed - left_unprocessed)%nat in
        Some ((if retry then Retry else Finish) (account u processed_size) (drop processed_size buffer_head)
                (available - processed_size)%nat, true, app)
  end.

Fixpoint body_loop (fuel : nat) (u : upload) (aware : bool) (app : App) (buffer_head : bytes) (available : nat)
    : option (step_result * bool * App) :=
  match fuel with
  | O => None
  | S fuel' =>
      '(r, aware, app) ← body_iteration u aware app buffer_head available;
      match r with
      | Retry u buffer_head available => body_loop fuel' u aware app buffer_head available
      | _ => Some (r, aware, app)
      end
  end.

(** How the call ends. *)
Inductive body_result := Returned (c : MHD_Connection) | Panicked.

Definition process_request_body (notify : bool) (c : MHD_Connection) (app : App)
    : option (body_result * App) :=
  match response c with
  | Some _ => Some (Returned c, app)
  | None =>
      rb ← read_buffer c;
      let buffer_head := drop (Z.to_nat rb) (memory (pool c)) in
      let available := Z.to_nat (read_buffer_offset c) in
      '(r, aware, app) ← body_loop (S available) (up c) (client_aware c) app buffer_head available;
      let c := set_aware c aware in
      match r with
      | Panic => Some (Panicked, app)
      | Close u => Some (Returned (connection_close_error notify (set_up c u)), app)
      | Finish u buffer_head available | Retry u buffer_head available =>
          rest ← mem_read buffer_head 0 (Z.of_nat available);
          m ← (if (0 <? available)%nat then mem_write (memory (pool c)) rb rest else Some (memory (pool c)));
          let c := set_up (set_pool c (with_memory (pool c) m)) u in
          Some (Returned (set_read c (Some rb) (read_buffer_size c) (Z.of_nat available)), app)
      end
  end.

(** The case [MHD_CONNECTION_CONTINUE_SENT] of [MHD_connection_handle_idle]:
    the connection and whether the loop over the states goes on. *)
Definition idle_continue_sent (notify : bool) (c : MHD_Connection) (app : App)
    : option (body_result * App) :=
  '(r, app) ← (if read_buffer_offset c =? 0 then Some (Returned c, app) else process_request_body notify c app);
  match r with
  | Panicked => Some (Panicked, app)
  | Returned c =>
      if bool_decide (state c = MHD_CONNECTION_CLOSED) then Some (Returned c, app)
      else
        let rest := remaining_upload_size (up c) in
        if (rest =? 0) || ((rest =? MHD_SIZE_UNKNOWN) && (read_buffer_offset c =? 0) && read_closed c) then
          Some (Returned (set_state c (if have_chunked_upload (up c) && negb (read_closed c)
                                       then MHD_CONNECTION_BODY_RECEIVED else MHD_CONNECTION_FOOTERS_RECEIVED)), app)
        else Some (Returned c, app)
  end.

(** The body arrives in segments: each is read into the buffer and handled,
    until the state changes; what was not read is returned. *)
Fixpoint receive_body `{Platform} (notify : bool) (pool_size pool_increment : Z)
    (c : MHD_Connection) (app : App) (segments : list bytes) : option (body_result * App * list bytes) :=
  match segments with
  | [] => Some (Returned c, app, [])
  | s :: rest =>
      c ← MHD_connection_handle_read notify pool_size pool_increment c (λ _, Received s);
      '(r, app) ← idle_continue_sent notify c app;
      match r with
      | Returned c =>
          if bool_decide (state c = MHD_CONNECTION_CONTINUE_SENT)
          then receive_body notify pool_size pool_increment c app rest else Some (Returned c, app, rest)
      | Panicked => Some (Panicked, app, rest)
      end
  end.
End Body.
