(* ===== verification/ChunkedBody.v ===== *)
(** * Correctness of the request body decoder

    The chunked transfer encoding as a specification ([encoding]), what the
    decoder waits for between two bytes ([awaiting]), and the theorems on
    [RequestBody]: the application receives exactly the body, however the
    stream was cut into segments and whatever part of the bytes the
    application takes at a time; a body of known size ends at its last byte;
    and no input makes the decoder read outside the pool or loop. *)

From S2P Require Import Prelude MhdStr MemoryPool Headers Connection RequestBody.

(** ** The encoding *)

Abbreviation CRLF := [13; 10].

Record chunk := mkChunk { digits : bytes; extension : bytes; data : bytes }.

(** One to fifteen hexadecimal digits. *)
Definition size_digits (ds : bytes) : Prop := digit_run toxdigitvalue ds /\ (0 < length ds < 16)%nat.

(** Nothing, or a semicolon and any characters of the same line. *)
Definition extension_ok (e : bytes) : Prop :=
  Forall (λ c, is_newline c = false) e /\ match e with [] => True | c :: _ => c = 59 end.

Definition size_of (c : chunk) : Z := value 16 (toxdigitvalue <$> digits c).

Definition chunk_line (c : chunk) : bytes := digits c ++ extension c ++ CRLF.

Definition chunk_ok (c : chunk) : Prop :=
  size_digits (digits c) /\ extension_ok (extension c) /\ size_of c = Z.of_nat (length (data c)).

(** A body: chunks that are not empty, then a line of size zero, and what
    follows it in the stream. *)
Definition encoding (cs : list chunk) (end_line : chunk) (trailer : bytes) : bytes :=
  concat ((λ c, chunk_line c ++ data c ++ CRLF) <$> cs) ++ chunk_line end_line ++ trailer.

Definition body_of (cs : list chunk) : bytes := concat (data <$> cs).

(** ** Scanning a size line *)

Definition ends_size (c : Z) : bool := is_newline c || (c =? 59).

Lemma digit_not_end ds : digit_run toxdigitvalue ds -> Forall (λ c, ends_size c = false) ds.
Proof.
  intros H. eapply Forall_impl; [exact H|]. intros c Hc. unfold ends_size, is_newline. revert Hc.
  destruct (Z.eqb_spec c 13) as [->|]; [done|]. destruct (Z.eqb_spec c 10) as [->|]; [done|].
  destruct (Z.eqb_spec c 59) as [->|]; [done|]. done.
Qed.

Lemma scan_size_run left p ds r available :
  Forall (λ c, ends_size c = false) ds -> (length ds < left)%nat -> (length p <= available)%nat ->
  ((length p + length ds < available)%nat -> ∃ c, head r = Some c /\ ends_size c = true) ->
  scan_size left (p ++ ds ++ r) available (length p) = Some (available `min` (length p + length ds))%nat.
Proof.
  intros Hds. revert left p. induction Hds as [|c ds Hc Hds IH]; intros left p Hl Hp Hr;
    (destruct left as [|left]; [simpl in Hl; lia|]); cbn [scan_size length] in *;
    destruct (Nat.ltb_spec (length p) available); try (f_equal; lia).
  - destruct (Hr ltac:(lia)) as (c & Hh & Hc). unfold deref_at. simpl.
    destruct r as [|c' r]; simplify_eq/=. rewrite list_lookup_middle by done. simpl. unfold ends_size in Hc.
    rewrite Hc. f_equal. lia.
  - unfold deref_at. simpl. rewrite list_lookup_middle by done. simpl. unfold ends_size in Hc. rewrite Hc.
    replace (p ++ c :: ds ++ r) with ((p ++ [c]) ++ ds ++ r) by (by rewrite <- app_assoc).
    replace (S (length p)) with (length (p ++ [c])) by (rewrite length_app; simpl; lia).
    rewrite IH; rewrite ?length_app; cbn [length]; [f_equal; lia|lia|lia|]. intros. apply Hr. lia.
Qed.

Lemma skip_extension_run left p ds r :
  Forall (λ c, is_newline c = false) ds ->
  ((length ds < left)%nat -> ∃ c, head r = Some c /\ is_newline c = true) ->
  skip_extension left (p ++ ds ++ r) (length p) = Some (length p + left `min` length ds)%nat.
Proof.
  intros Hds. revert left p. induction Hds as [|c ds Hc Hds IH]; intros left p Hr;
    (destruct left as [|left]; [simpl; f_equal; lia|]); cbn [skip_extension length] in *; unfold deref_at; simpl.
  - destruct (Hr ltac:(lia)) as (c & Hh & Hc). destruct r as [|c' r]; simplify_eq/=.
    rewrite list_lookup_middle by done. simpl. rewrite Hc. f_equal. lia.
  - rewrite list_lookup_middle by done. simpl. rewrite Hc.
    replace (p ++ c :: ds ++ r) with ((p ++ [c]) ++ ds ++ r) by (by rewrite <- app_assoc).
    replace (S (length p)) with (length (p ++ [c])) by (rewrite length_app; simpl; lia).
    rewrite IH; rewrite ?length_app; cbn [length]; [f_equal; lia|]. intros. apply Hr. lia.
Qed.

(** The position the two scans reach, when the line is complete and when
    the buffer ends inside it. *)
Lemma line_end_complete ds e n r available :
  size_digits ds -> extension_ok e -> is_newline n = true -> (length (ds ++ e) < available)%nat ->
  line_end (ds ++ e ++ n :: r) available = Some (length ds, length (ds ++ e)).
Proof.
  intros [Hds Hl] [He Hh] Hn Ha. rewrite length_app in *. unfold line_end.
  assert (ends_size n = true) as Hn' by (unfold ends_size; by rewrite Hn).
  pose proof (scan_size_run 16 [] ds (e ++ n :: r) available (digit_not_end _ Hds)) as E. cbn [app length Nat.add] in E.
  rewrite E; [|lia|lia|].
  2:{ intros _. destruct e as [|c e]; [by exists n|]. subst c. by exists 59. }
  cbn [mbind option_bind]. rewrite Nat.min_r by lia. unfold deref_at. destruct e as [|c e].
  - simpl. rewrite list_lookup_middle by done. cbn [mbind option_bind length].
    destruct (Z.eqb_spec n 59) as [->|]; [done|]. cbn [mbind option_bind]. do 2 f_equal. lia.
  - subst c. simpl. rewrite list_lookup_middle by done. simpl.
    pose proof (skip_extension_run (available - length ds) ds (59 :: e) (n :: r) He) as E2. cbn [app length Nat.add] in E2.
    rewrite E2; [|by exists n]. cbn [mbind option_bind length] in *. do 2 f_equal. lia.
Qed.

Lemma line_end_digits b j junk :
  digit_run toxdigitvalue b -> (length b < 16)%nat ->
  line_end (b ++ j :: junk) (length b) = Some (length b, length b).
Proof.
  intros Hb Hl. unfold line_end.
  pose proof (scan_size_run 16 [] b (j :: junk) (length b) (digit_not_end _ Hb)) as E. cbn [app length Nat.add] in E.
  rewrite E by lia. rewrite Nat.min_id. cbn [mbind option_bind]. unfold deref_at.
  rewrite list_lookup_middle by done. cbn [mbind option_bind].
  rewrite Nat.sub_diag. by destruct (j =? 59).
Qed.

Lemma line_end_extension ds e j junk :
  size_digits ds -> extension_ok e -> e ≠ [] ->
  line_end ((ds ++ e) ++ j :: junk) (length (ds ++ e)) = Some (length ds, length (ds ++ e)).
Proof.
  intros [Hds Hl] [He Hh] Hne. rewrite <- app_assoc. unfold line_end. rewrite length_app.
  pose proof (scan_size_run 16 [] ds (e ++ j :: junk) (length ds + length e) (digit_not_end _ Hds)) as E. cbn [app length Nat.add] in E.
  destruct e as [|c e]; [done|]. subst c. rewrite E; [|lia|lia|by exists 59].
  rewrite Nat.min_r by lia. cbn [mbind option_bind]. unfold deref_at. simpl. rewrite list_lookup_middle by done. simpl.
  pose proof (skip_extension_run (length ds + S (length e) - length ds) ds (59 :: e) (j :: junk) He) as E2. cbn [app length Nat.add] in E2.
  rewrite E2; [|lia]. cbn [mbind option_bind length] in *. do 2 f_equal. lia.
Qed.

Lemma value_from_upper base r ds :
  1 < base -> 0 <= r -> in_base base ds -> 0 <= value_from base r ds < (r + 1) * base ^ Z.of_nat (length ds).
Proof.
  intros Hb Hr Hds. revert r Hr. induction Hds as [|d ds Hd Hds IH]; intros r Hr; [simpl; lia|].
  cbn [value_from foldl length]. change (foldl _ _ ds) with (value_from base (r * base + d) ds).
  rewrite Nat2Z.inj_succ, Z.pow_succ_r by lia. specialize (IH (r * base + d) ltac:(nia)).
  assert (0 < base ^ Z.of_nat (length ds)) by (apply Z.pow_pos_nonneg; lia). nia.
Qed.

(** Fifteen digits never overflow. *)
Lemma size_digits_value ds : size_digits ds -> 0 <= value 16 (toxdigitvalue <$> ds) < 16 ^ 15.
Proof.
  intros [Hd Hl]. assert (in_base 16 (toxdigitvalue <$> ds)) as Hb
    by (apply digit_run_in_base; [intros; apply toxdigitvalue_range|done]).
  pose proof (value_from_upper 16 0 _ ltac:(lia) ltac:(lia) Hb) as E. rewrite length_fmap in E.
  assert (16 ^ Z.of_nat (length ds) <= 16 ^ 15) by (apply Z.pow_le_mono_r; lia). lia.
Qed.

Lemma parse_size ds c r v :
  size_digits ds ->
  MHD_strx_to_uint64_n_ (Some (ds ++ c :: r)) (length ds) (Some v)
  = Some (length ds, Some (value 16 (toxdigitvalue <$> ds))).
Proof.
  intros Hds. pose proof (size_digits_value _ Hds). destruct Hds as [Hd Hl].
  unfold MHD_strx_to_uint64_n_. rewrite strx_to_uint64_n_loop_generic.
  rewrite (uvalue_loop_run toxdigitvalue 16) by (auto; try lia; intros; apply toxdigitvalue_range).
  cbn [mbind option_bind]. rewrite strx_finish_acc by lia. unfold parse_spec.
  rewrite decide_True, length_fmap; [done|]. split; [|lia]. destruct ds; [simpl in Hl; lia|done].
Qed.

Section Line.
Context (u : upload) (c : chunk) (j : Z) (junk : bytes).
Context (Hds : size_digits (digits c)) (He : extension_ok (extension c)).

Lemma size_line_complete r :
  read_size_line u (chunk_line c ++ r ++ j :: junk) (length (chunk_line c ++ r))
  = Some (Sized (with_chunk u (size_of c) 0) (r ++ j :: junk) (length r)).
Proof using Hds He.
  unfold chunk_line, read_size_line. rewrite <- !app_assoc. cbn [app].
  assert (Hl : length (digits c ++ extension c ++ 13 :: 10 :: r) = (length (digits c ++ extension c) + 2 + length r)%nat)
    by (rewrite !length_app; cbn [length]; lia). rewrite Hl.
  rewrite line_end_complete by (done || lia). cbn [mbind option_bind].
  destruct (Nat.leb_spec (length (digits c ++ extension c) + 2 + length r) (length (digits c ++ extension c) + 1)); [lia|].
  cbn [mbind option_bind]. destruct (Nat.leb_spec 16 (length (digits c))); [destruct Hds; lia|].
  assert (∃ d t, digits c ++ extension c ++ 13 :: 10 :: r ++ j :: junk = digits c ++ d :: t) as (d & t & E)
    by (destruct (extension c); eauto). rewrite E at 1. rewrite parse_size by done. cbn [mbind option_bind].
  rewrite Nat.eqb_refl. cbn [negb]. destruct (Nat.ltb_spec (S (length (digits c ++ extension c))) (length (digits c ++ extension c) + 2 + length r)); [|lia].
  rewrite app_assoc. unfold deref_at. rewrite lookup_app_r by lia.
  replace (S (length (digits c ++ extension c)) - length (digits c ++ extension c))%nat with 1%nat by lia.
  cbn [lookup list_lookup mbind option_bind is_newline]. change (is_newline 10) with true. cbn match.
  do 2 f_equal; [|lia]. rewrite drop_app_ge by lia.
  by replace (S (S (length (digits c ++ extension c))) - length (digits c ++ extension c))%nat with 2%nat by lia.
Qed.

Lemma need_more_at i es b :
  line_end (b ++ j :: junk) (length b) = Some (es, i) -> length b = i ->
  read_size_line u (b ++ j :: junk) (length b) = Some Need_more.
Proof.
  intros E Hi. unfold read_size_line. rewrite E. cbn [mbind option_bind].
  destruct (Nat.leb_spec (length b) (i + 1)); [|lia].
  destruct (Nat.eqb_spec i 1), (Nat.eqb_spec (length b) 2); [lia|done..].
Qed.

Lemma need_more_digits b x :
  digits c = b ++ x -> read_size_line u (b ++ j :: junk) (length b) = Some Need_more.
Proof using Hds.
  intros E. destruct Hds as [Hd Hl]. rewrite E in Hd, Hl. rewrite length_app in Hl.
  apply Forall_app in Hd as [Hd _]. apply (need_more_at (length b) (length b)); [|done].
  apply line_end_digits; [done|lia].
Qed.

Lemma need_more_extension y x :
  extension c = y ++ x ->
  read_size_line u ((digits c ++ y) ++ j :: junk) (length (digits c ++ y)) = Some Need_more.
Proof using Hds He.
  intros E. destruct (decide (y = [])) as [->|Hy]; [rewrite app_nil_r; apply (need_more_digits _ []); by rewrite app_nil_r|].
  eapply need_more_at; [apply line_end_extension; [done| |done]|done].
  destruct He as [Hn Hh]. rewrite E in Hn, Hh. apply Forall_app in Hn as [Hn _]. by destruct y.
Qed.

(** The end of the buffer is inside the line: nothing happens, except that
    a zero and the first half of its new line are enough. *)
Lemma size_line_incomplete b k :
  chunk_line c = b ++ k -> k ≠ [] ->
  read_size_line u (b ++ j :: junk) (length b) = Some Need_more
  \/ (b = [48; 13] /\ k = [10] /\ digits c = [48] /\ extension c = []
      /\ read_size_line u (b ++ j :: junk) (length b) = Some (Sized (with_chunk u 0 0) (j :: junk) 0)).
Proof using Hds He.
  intros E Hk. unfold chunk_line in E.
  apply app_eq_inv in E as [(x & E & _)|(y & -> & E)]; [left; by apply (need_more_digits b x)|].
  apply app_eq_inv in E as [(x & E & _)|(z & -> & E)]; [left; by apply (need_more_extension y x)|].
  destruct z as [|z1 [|z2 z]]; simplify_eq/=.
  - left. rewrite app_nil_r. apply (need_more_extension _ []). by rewrite app_nil_r.
  - assert (length (digits c ++ extension c ++ [13]) = (length (digits c ++ extension c) + 1)%nat) as El
      by (rewrite !length_app; cbn [length]; lia).
    unfold read_size_line. rewrite El, <- !app_assoc. cbn [app]. rewrite line_end_complete by (done || lia).
    cbn [mbind option_bind]. clear El.
    destruct (Nat.leb_spec (length (digits c ++ extension c) + 1) (length (digits c ++ extension c) + 1)); [|lia].
    destruct (Nat.eqb_spec (length (digits c ++ extension c)) 1) as [El|]; [|by left].
    rewrite El. cbn [andb Nat.eqb Nat.add].
    rewrite length_app in El. pose proof Hds as [_ Hl].
    destruct (digits c) as [|d [|d2 ds]] eqn:Ed; cbn [length] in *; [lia| |lia].
    destruct (extension c) eqn:Ee; cbn [length] in *; [|lia]. cbn [app deref_at lookup list_lookup mbind option_bind].
    destruct (Z.eqb_spec d 48) as [->|]; [right|by left]. split_and!; try done.
  - by destruct z.
Qed.
End Line.

(** The three outcomes of reading the line of [c] when the stream goes on
    with [t]. *)
Lemma size_line_cases u c j junk b f t :
  size_digits (digits c) -> extension_ok (extension c) -> b ++ f = chunk_line c ++ t ->
  (∃ r, b = chunk_line c ++ r /\ t = r ++ f
     /\ read_size_line u (b ++ j :: junk) (length b) = Some (Sized (with_chunk u (size_of c) 0) (r ++ j :: junk) (length r)))
  \/ (f ≠ [] /\ (length b < length (chunk_line c))%nat /\ read_size_line u (b ++ j :: junk) (length b) = Some Need_more)
  \/ (b = [48; 13] /\ f = 10 :: t /\ size_of c = 0
      /\ read_size_line u (b ++ j :: junk) (length b) = Some (Sized (with_chunk u 0 0) (j :: junk) 0)).
Proof.
  intros Hds He E. apply app_eq_inv in E as [(r & -> & ->)|(k & Ek & ->)].
  - left. exists r. split_and!; [done..|]. rewrite <- app_assoc. by apply size_line_complete.
  - destruct (decide (k = [])) as [->|Hk].
    + left. exists []. rewrite app_nil_r in *. subst b. split_and!; [done..|].
      pose proof (size_line_complete u c j junk Hds He []) as E. by rewrite app_nil_r in E.
    + right. destruct (size_line_incomplete u c j junk Hds He b k Ek Hk) as [E|(-> & -> & Ed & Ee & E)].
      * left. split_and!; [by destruct k|rewrite Ek, length_app; destruct k; [done|cbn [length]; lia]|done].
      * right. split_and!; try done. unfold size_of. by rewrite Ed.
Qed.

(** ** The decoder between two rounds *)

Definition chunked (u : upload) : Prop :=
  have_chunked_upload u = true /\ remaining_upload_size u = MHD_SIZE_UNKNOWN.

Section Stream.
Context (end_line : chunk) (trailer : bytes) (longest : nat).

Definition good (c : chunk) : Prop := chunk_ok c /\ (length (chunk_line c) <= longest)%nat.

Abbreviation enc cs := (encoding cs end_line trailer).

(** The decoder expects the stream, and still owes the application the given
    part of the body: at the beginning of a size line, inside a chunk, or
    behind the data of a chunk. *)
Inductive awaiting (u : upload) : bytes -> bytes -> Prop :=
| at_size cs :
    current_chunk_offset u = 0 -> current_chunk_size u = 0 -> Forall (λ c, good c /\ data c ≠ []) cs ->
    awaiting u (enc cs) (body_of cs)
| in_chunk d cs :
    0 <= current_chunk_offset u -> current_chunk_offset u + Z.of_nat (length d) = current_chunk_size u ->
    current_chunk_size u <= UINT64_MAX -> d ≠ [] -> Forall (λ c, good c /\ data c ≠ []) cs ->
    awaiting u (d ++ CRLF ++ enc cs) (d ++ body_of cs)
| after_chunk cs :
    0 < current_chunk_offset u -> current_chunk_offset u = current_chunk_size u ->
    current_chunk_size u <= UINT64_MAX -> Forall (λ c, good c /\ data c ≠ []) cs ->
    awaiting u (CRLF ++ enc cs) (body_of cs).

(** The end line has been read; the second half of its new line may still be
    in the stream. *)
Definition finished (u : upload) (stream : bytes) : Prop :=
  have_chunked_upload u = true /\ remaining_upload_size u = 0 /\ (stream = trailer \/ stream = 10 :: trailer).

Context (Hend : good end_line) (Hempty : data end_line = []) (Hlong : (2 <= longest)%nat).

Definition round_post (b f body junk : bytes) (r : round) : Prop :=
  match r with
  | Bad_encoding _ => False
  | Leave u hb available =>
      ∃ b', hb = b' ++ junk /\ available = length b' /\ (length b' <= length b)%nat
        /\ ((finished u (b' ++ f) /\ body = [])
            \/ (chunked u /\ awaiting u (b' ++ f) body /\ f ≠ [] /\ (length b' < longest)%nat))
  | Go_on retry u hb available =>
      ∃ b', hb = b' ++ junk /\ available = length b' /\ (length b' < length b)%nat /\ retry = (0 <? length b')%nat
        /\ chunked u /\ awaiting u (b' ++ f) body
  | Deliver n retry u hb available =>
      ∃ b' d cs, hb = b' ++ junk /\ available = length b' /\ (length b' <= length b)%nat
        /\ b' ++ f = d ++ CRLF ++ enc cs /\ body = d ++ body_of cs /\ Forall (λ c, good c /\ data c ≠ []) cs
        /\ 0 <= current_chunk_offset u /\ current_chunk_offset u + Z.of_nat (length d) = current_chunk_size u
        /\ current_chunk_size u <= UINT64_MAX /\ chunked u /\ d ≠ []
        /\ n = (length d `min` length b')%nat /\ retry = (n <? length b')%nat
  end.

Lemma encoding_cons c cs : enc (c :: cs) = chunk_line c ++ data c ++ CRLF ++ enc cs.
Proof. unfold encoding. cbn [fmap list_fmap concat]. by rewrite <- !app_assoc. Qed.

(** The round from the beginning of a size line, after a possible new line. *)
Definition size_round (u : upload) (hb : bytes) (available : nat) : option round :=
  l ← read_size_line u hb available;
  match l with
  | Need_more => Some (Leave u hb available)
  | Malformed u => Some (Bad_encoding u)
  | Sized u hb available =>
      if current_chunk_size u =? 0 then Some (Leave (with_remaining u 0) hb available)
      else Some (Go_on (0 <? available)%nat u hb available)
  end.

Lemma size_round_ok u b f cs j junk :
  chunked u -> current_chunk_offset u = 0 -> current_chunk_size u = 0 ->
  Forall (λ c, good c /\ data c ≠ []) cs -> b ++ f = enc cs ->
  ∃ r, size_round u (b ++ j :: junk) (length b) = Some r /\ round_post b f (body_of cs) (j :: junk) r.
Proof using Hend Hempty Hlong.
  intros Hu Ho Hs Hcs E. unfold size_round. destruct Hu as [Hu1 Hu2]. destruct cs as [|c cs].
  - unfold encoding in E. cbn [fmap list_fmap concat app] in E. destruct Hend as [(Hds & He & Hv) Hl].
    rewrite Hempty in Hv.
    destruct (size_line_cases u end_line j junk b f _ Hds He E) as [(r & -> & -> & ->)|[(Hf & Hb & ->)|(-> & -> & _ & ->)]];
      cbn [mbind option_bind].
    + rewrite Hv. cbn. eexists. split; [done|]. exists r. split; [done|]. split; [done|].
      split; [rewrite length_app; lia|]. left. split; [|done]. by split_and!; [..|left].
    + eexists. split; [done|]. exists b. split; [done|]. split; [done|]. split; [lia|]. right. split; [by split|]. split; [|by split; [|lia]].
      rewrite E. by apply (at_size u []).
    + cbn. eexists. split; [done|]. exists []. split; [done|]. split; [done|]. split; [cbn; lia|]. left. split; [|done]. by split_and!; [..|right].
  - rewrite encoding_cons in E. apply Forall_cons in Hcs as [[[(Hds & He & Hv) Hl] Hd] Hcs].
    destruct (size_line_cases u c j junk b f _ Hds He E) as [(r & -> & Et & ->)|[(Hf & Hb & ->)|(_ & _ & Hz & _)]];
      cbn [mbind option_bind].
    + cbn [with_chunk current_chunk_size]. destruct (Z.eqb_spec (size_of c) 0); [destruct (data c); [done|cbn [length] in Hv; lia]|].
      eexists. split; [done|]. exists r. split; [done|]. split; [done|]. split.
      { rewrite length_app. unfold chunk_line. rewrite !length_app. cbn [length]. lia. }
      split; [done|]. split; [by split|]. rewrite <- Et.
      pose proof (size_digits_value _ Hds). unfold size_of in *.
      apply in_chunk; cbn [with_chunk current_chunk_size current_chunk_offset]; done || lia.
    + eexists. split; [done|]. exists b. split; [done|]. split; [done|]. split; [lia|]. right. split; [by split|]. split; [|by split; [|lia]].
      rewrite E, <- encoding_cons. apply at_size; [done..|]. by constructor.
    + destruct (data c); [done|cbn [length] in Hv; lia].
Qed.

Lemma awaiting_nonempty u body : ~ awaiting u [] body.
Proof using Type.
  clear Hend Hempty Hlong. intros Hw. inversion Hw as [cs Ho Hs Hcs E|d cs Ho Hs Hm Hd Hcs E|]; [|by destruct d].
  assert (length (enc cs) ≠ 0)%nat as Hl; [|by rewrite E in Hl].
  unfold encoding, chunk_line. rewrite !length_app. cbn [length]. lia.
Qed.

Lemma chunked_round_size u hb available :
  (current_chunk_offset u <? current_chunk_size u) = false ->
  skip_chunk_end u hb available = Some (Some (u, hb, available)) ->
  chunked_round u hb available = size_round u hb available.
Proof. intros Hl E. unfold chunked_round. rewrite E. cbn [mbind option_bind]. by rewrite Hl. Qed.

(** The new line behind the data of a chunk, when less than all of it is
    there and when it is complete. *)
Lemma after_chunk_short u b f cs j junk :
  chunked u -> 0 < current_chunk_offset u -> current_chunk_offset u = current_chunk_size u ->
  current_chunk_size u <= UINT64_MAX -> Forall (λ c, good c /\ data c ≠ []) cs ->
  b ++ f = CRLF ++ enc cs -> (length b < 2)%nat ->
  ∃ r, chunked_round u (b ++ j :: junk) (length b) = Some r /\ round_post b f (body_of cs) (j :: junk) r.
Proof using Hlong.
  intros Hu Ho Hs Hm Hcs E Hb. rewrite chunked_round_size.
  - unfold size_round. assert (read_size_line u (b ++ j :: junk) (length b) = Some Need_more /\ f ≠ []) as [-> Hf].
    { destruct b as [|b1 [|b2 b]]; simplify_eq/=; [..|lia].
      - split; [|done]. by apply (need_more_at u j junk 0 0 []); [apply (line_end_digits []); [constructor|cbn; lia]|].
      - done. }
    cbn [mbind option_bind]. eexists. split; [done|]. exists b. split; [done|]. split; [done|]. split; [lia|]. right.
    split; [done|]. split; [|by split; [|lia]]. rewrite E. by apply after_chunk.
  - rewrite Hs. bcases.
  - unfold skip_chunk_end. destruct (Nat.leb_spec 2 (length b)); [lia|]. by rewrite andb_false_r.
Qed.

Lemma after_chunk_full u b f cs j junk :
  chunked u -> 0 < current_chunk_offset u -> current_chunk_offset u = current_chunk_size u ->
  Forall (λ c, good c /\ data c ≠ []) cs -> b ++ f = enc cs ->
  ∃ r, chunked_round u (13 :: 10 :: b ++ j :: junk) (S (S (length b))) = Some r
    /\ round_post (13 :: 10 :: b) f (body_of cs) (j :: junk) r.
Proof using Hend Hempty Hlong.
  intros [Hu1 Hu2] Ho Hs Hcs E.
  assert (chunked_round u (13 :: 10 :: b ++ j :: junk) (S (S (length b)))
          = size_round (with_chunk u 0 0) (b ++ j :: junk) (length b)) as ->.
  { unfold chunked_round, skip_chunk_end. rewrite Hs, Z.eqb_refl. destruct (Z.eqb_spec 0 (current_chunk_size u)); [lia|].
    cbn. by rewrite Nat.sub_0_r. }
  destruct (size_round_ok (with_chunk u 0 0) b f cs j junk) as (r & -> & Hr); [by split|done..|].
  exists r. split; [done|]. destruct r; cbn [round_post length] in *; [..|done].
  - destruct Hr as (b' & d & cs' & ? & ? & ? & Hr). exists b', d, cs'. split_and!; try done; [lia|tauto..].
  - destruct Hr as (b' & ? & ? & ? & Hr). exists b'. split; [done|]. split; [done|]. split; [lia|done].
  - destruct Hr as (b' & ? & ? & ? & Hr). exists b'. split; [done|]. split; [done|]. split; [lia|done].
Qed.

(** One round of the chunked decoder. *)
Lemma chunked_round_ok u b f body j junk :
  chunked u -> awaiting u (b ++ f) body ->
  ∃ r, chunked_round u (b ++ j :: junk) (length b) = Some r /\ round_post b f body (j :: junk) r.
Proof using Hend Hempty Hlong.
  intros Hu Hw. inversion Hw as [cs Ho Hs Hcs E|d cs Ho Hs Hm Hd Hcs E|cs Ho Hs Hm Hcs E]; subst body.
  - rewrite chunked_round_size; [by apply size_round_ok|rewrite Ho, Hs; done|].
    unfold skip_chunk_end. by rewrite Ho, andb_false_r.
  - assert (0 < length d)%nat by (destruct d; cbn [length]; [done|lia]).
    assert (skip_chunk_end u (b ++ j :: junk) (length b) = Some (Some (u, b ++ j :: junk, length b))) as Ek.
    { unfold skip_chunk_end. destruct (Z.eqb_spec (current_chunk_offset u) (current_chunk_size u)); [lia|done]. }
    unfold chunked_round. rewrite Ek. cbn [mbind option_bind].
    destruct (Z.ltb_spec (current_chunk_offset u) (current_chunk_size u)); [|lia].
    rewrite wrap_small by lia. replace (current_chunk_size u - current_chunk_offset u) with (Z.of_nat (length d)) by lia.
    destruct (Z.gtb_spec (Z.of_nat (length d)) (Z.of_nat (length b))); (eexists; split; [done|]); exists b, d, cs.
    + split_and!; try done; try apply Hu; try lia. destruct (Nat.ltb_spec (length b) (length b)); [lia|done].
    + split_and!; try done; try apply Hu; lia.
  - destruct (decide (length b < 2)%nat) as [Hb|Hb]; [by apply after_chunk_short|].
    destruct b as [|b1 [|b2 b]]; cbn [length] in Hb; [lia|lia|]. simplify_eq/=. by apply after_chunk_full.
Qed.

(** ** The loop and the application *)

Lemma account_chunked u p : chunked u -> chunked (account u p).
Proof. intros [H1 H2]. unfold account. rewrite H1. cbn. by rewrite H2. Qed.

Lemma account_awaiting u d cs b f p :
  chunked u -> 0 <= current_chunk_offset u -> current_chunk_offset u + Z.of_nat (length d) = current_chunk_size u ->
  current_chunk_size u <= UINT64_MAX -> d ≠ [] -> Forall (λ c, good c /\ data c ≠ []) cs ->
  b ++ f = d ++ CRLF ++ enc cs -> (p <= length d `min` length b)%nat ->
  awaiting (account u p) (drop p b ++ f) (drop p d ++ body_of cs) /\ take p b = take p d.
Proof.
  intros [H1 H2] Ho Hs Hm Hd Hcs E Hp.
  assert (0 < length d)%nat by (destruct d; [done|cbn [length]; lia]).
  assert (drop p b ++ f = drop p d ++ CRLF ++ enc cs) as E1
    by (rewrite <- !drop_app_le by lia; by rewrite E).
  assert (account u p = with_chunk u (current_chunk_size u) (current_chunk_offset u + Z.of_nat p)) as Ea.
  { unfold account. rewrite H1. cbn. rewrite H2. by rewrite wrap_small by lia. }
  split.
  - rewrite E1, Ea. destruct (decide (p = length d)) as [->|Hne].
    + rewrite drop_all. apply after_chunk; cbn; done || lia.
    + apply in_chunk; cbn [with_chunk current_chunk_size current_chunk_offset]; rewrite ?length_drop; try done; try lia.
      intros En. apply (f_equal length) in En. rewrite length_drop in En. cbn [length] in En. lia.
  - rewrite <- (take_app_le b f), <- (take_app_le d (CRLF ++ enc cs)) by lia. by rewrite E.
Qed.

Section Application.
Context {App : Type} (default_handler : App -> bytes -> App * bool * nat).

(** The application never fails and never claims to have left more than it
    was given; an eager one takes everything. *)
Definition willing : Prop :=
  forall app d, (default_handler app d).1.2 = true /\ ((default_handler app d).2 <= length d)%nat.

Definition eager : Prop := forall app d, (default_handler app d).2 = 0%nat.

(** The calls of the application, by the bytes it takes. *)
Inductive takes : App -> list bytes -> App -> Prop :=
| takes_nil app : takes app [] app
| takes_cons app d pieces app' :
    takes (default_handler app d).1.1 pieces app' ->
    takes app (take (length d - (default_handler app d).2) d :: pieces) app'.

(** What a call of the loop leaves behind. *)
Definition loop_post (app app' : App) (b f body : bytes) (u : upload) (b' : bytes) : Prop :=
  (length b' <= length b)%nat /\
  ∃ pieces body', takes app pieces app' /\ body = concat pieces ++ body'
    /\ ((finished u (b' ++ f) /\ body' = [])
        \/ (chunked u /\ awaiting u (b' ++ f) body' /\ (eager -> f ≠ [] /\ (length b' < longest)%nat))).

Lemma loop_post_none app b f body u b' :
  (length b' <= length b)%nat -> 
  ((finished u (b' ++ f) /\ body = [])
   \/ (chunked u /\ awaiting u (b' ++ f) body /\ (eager -> f ≠ [] /\ (length b' < longest)%nat))) ->
  loop_post app app b f body u b'.
Proof. intros Hl H. split; [done|]. exists [], body. split_and!; [constructor|done|done]. Qed.

Lemma loop_post_more app app' b1 b f body rest d u b' :
  (length b1 <= length b)%nat -> body = take (length d - (default_handler app d).2) d ++ rest ->
  loop_post (default_handler app d).1.1 app' b1 f rest u b' -> loop_post app app' b f body u b'.
Proof.
  intros Hl -> (Hl' & pieces & body' & Ht & -> & H). split; [lia|].
  exists (take (length d - (default_handler app d).2) d :: pieces), body'.
  split_and!; [by constructor|cbn [concat]; by rewrite app_assoc|done].
Qed.

(** What a round with the application leaves behind: it either ends the call
    or goes round again with fewer bytes. *)
Lemma deliver_ok u app b f body j junk n retry hb available :
  willing -> round_post b f body (j :: junk) (Deliver n retry u hb available) ->
  let data := take n hb in
  let taken := (n - (default_handler app data).2)%nat in
  let retry := if negb ((default_handler app data).2 =? 0)%nat then false else retry in
  mem_read hb 0 (Z.of_nat n) = Some data /\ length data = n /\
  ∃ b' rest, drop taken hb = b' ++ j :: junk /\ (available - taken)%nat = length b'
    /\ (length b' <= length b)%nat /\ body = take taken data ++ rest
    /\ chunked (account u taken) /\ awaiting (account u taken) (b' ++ f) rest
    /\ if retry then (length b' < length b)%nat else eager -> f ≠ [] /\ b' = [].
Proof.
  intros Hw (b' & d & cs & -> & -> & Hl & E & -> & Hcs & Ho & Hs & Hm & Hu & Hd & Hn & ->) data taken retry'.
  assert (n <= length b' /\ n <= length d /\ taken <= n)%nat as (Hnb & Hnd & Hp) by (unfold taken; lia).
  assert (data = take n b') as Ed by (unfold data; by rewrite take_app_le by lia).
  assert (length data = n) as Eln by (rewrite Ed, length_take; lia).
  assert (0 < length d)%nat by (destruct d; [done|cbn [length]; lia]).
  destruct (account_awaiting u d cs b' f taken) as [Ha Ht]; [done..|lia|].
  split; [|split; [done|]].
  { rewrite <- Eln at 1. unfold data. rewrite <- (take_drop n (b' ++ j :: junk)) at 1. apply mem_read_app. }
  exists (drop taken b'), (drop taken d ++ body_of cs). split; [by rewrite drop_app_le by lia|].
  split; [by rewrite length_drop|]. split; [rewrite length_drop; lia|].
  split; [rewrite Ed, take_take, Nat.min_l, Ht, app_assoc, take_drop by lia; done|].
  split; [by apply account_chunked|]. split; [done|]. unfold retry'.
  pose proof (proj2 (Hw app data)) as Hleft. rewrite Eln in Hleft. rewrite length_drop. fold data.
  destruct (Nat.eqb_spec (default_handler app data).2 0) as [E0|E0]; cbn [negb]; unfold taken in *; rewrite ?E0 in *.
  - destruct (Nat.ltb_spec n (length b')); [lia|]. intros _. assert (drop (n - 0) b' = []) as En by (apply drop_ge; lia).
    rewrite En in *. split; [|done]. intros ->. by apply awaiting_nonempty in Ha.
  - intros He. by rewrite He in E0.
Qed.

Lemma body_loop_ok fuel u aware app b f body j junk :
  willing -> chunked u -> awaiting u (b ++ f) body -> (length b < fuel)%nat ->
  ∃ u' b' aware' app',
    body_loop default_handler fuel u aware app (b ++ j :: junk) (length b)
    = Some (Finish u' (b' ++ j :: junk) (length b'), aware', app')
    /\ loop_post app app' b f body u' b'.
Proof using Hend Hempty Hlong.
  intros Hw. revert u aware app b body. induction fuel as [|fuel IH]; intros u aware app b body Hu Ha Hf; [lia|].
  cbn [body_loop]. unfold body_iteration, next_round. rewrite (proj1 Hu), (proj2 Hu), Z.eqb_refl. cbn [andb].
  destruct (chunked_round_ok u b f body j junk Hu Ha) as (r & -> & Hr). cbn [mbind option_bind].
  destruct r as [n retry u1 hb av|u1 hb av|retry u1 hb av|]; [..|done].
  - destruct (deliver_ok u1 app b f body j junk n retry hb av Hw Hr)
      as (-> & Hlen & b' & rest & Eb & Eav & Hl & Ebody & Hc & Hw' & Hretry). cbn [mbind option_bind].
    set (d := take n hb) in *. pose proof (Hw app d) as [Hok Hleft]. pose proof (loop_post_more app) as Hmore.
    specialize (λ app' b1, Hmore app' b1 b f body rest d).
    destruct (default_handler app d) as [[app1 ok] left_]. cbn [fst snd] in *. subst ok. cbn [negb].
    destruct (Nat.ltb_spec n left_); [lia|]. rewrite Hlen in Hmore. rewrite Eb, Eav.
    destruct (if negb (left_ =? 0)%nat then false else retry); cbn [mbind option_bind].
    + destruct (IH (account u1 (n - left_)) true app1 b' rest) as (u' & b'' & aw & app' & -> & Hp); [done..|lia|].
      exists u', b'', aw, app'. split; [done|]. by apply (Hmore app' b').
    + exists (account u1 (n - left_)), b', true, app1. split; [done|]. apply (Hmore app1 b'); [done..|].
      apply loop_post_none; [lia|]. right. split; [done|]. split; [done|].
      intros He. destruct (Hretry He) as [? ->]. split; [done|cbn [length]; lia].
  - destruct Hr as (b' & -> & -> & Hl & H). exists u1, b', aware, app. split; [done|].
    apply loop_post_none; [done|]. destruct H as [?|(? & ? & ? & ?)]; [by left|right]. by split_and!.
  - destruct Hr as (b' & -> & -> & Hl & -> & Hc & Hw'). destruct (Nat.ltb_spec 0 (length b')); cbn [mbind option_bind].
    + destruct (IH u1 aware app b' body) as (u' & b'' & aw & app' & -> & Hp & H'); [done..|lia|].
      exists u', b'', aw, app'. split; [done|]. by split; [lia|].
    + destruct b'; [|cbn [length] in *; lia]. exists u1, [], aware, app. split; [done|].
      apply loop_post_none; [lia|]. right. split; [done|]. split; [done|]. intros _.
      split; [|cbn [length]; lia]. intros ->. by apply awaiting_nonempty in Hw'.
Qed.
End Application.
End Stream.

(** ** Receiving a body segment by segment

    What the decoder promises to the connection, for bodies of both kinds:
    [wait u stream body] when the stream is expected and [body] is still owed
    to the application, [fin] when the body is complete. *)
Class BodyDecoder {App} (default_handler : App -> bytes -> App * bool * nat) (longest : nat)
    (wait : upload -> bytes -> bytes -> Prop) (fin : upload -> bytes -> Prop) := {
  decoder_loop fuel u aware app b f body j junk :
    wait u (b ++ f) body -> b ≠ [] -> (length b < fuel)%nat ->
    ∃ u' b' aware' app' pieces body',
      body_loop default_handler fuel u aware app (b ++ j :: junk) (length b)
      = Some (Finish u' (b' ++ j :: junk) (length b'), aware', app')
      /\ (length b' <= length b)%nat /\ takes default_handler app pieces app' /\ body = concat pieces ++ body'
      /\ ((fin u' (b' ++ f) /\ body' = []) \/ (wait u' (b' ++ f) body' /\ f ≠ [] /\ (length b' < longest)%nat));
  decoder_fin u s : fin u s -> remaining_upload_size u = 0;
  decoder_wait u s body : wait u s body -> remaining_upload_size u ≠ 0 /\ s ≠ []
}.

Section Receive.
Context `{Platform}.

(** A connection in the middle of its request. *)
Definition receiving (c : MHD_Connection) : Prop :=
  state c = MHD_CONNECTION_CONTINUE_SENT /\ read_closed c = false /\ response c = None.

(** The number of unprocessed bytes stays small enough for a segment of the
    given size and for the increment of the pool. *)
Context (pool_size pool_increment : Z) (notify : bool).

Lemma handle_read_append c b s :
  receiving c -> buffered c b -> s ≠ [] -> 0 <= pool_increment -> read_buffer_size c <= SIZE_MAX ->
  Z.of_nat (length b + length s) <= read_buffer_size c -> Z.of_nat (length b) + pool_increment <= read_buffer_size c ->
  ∃ c', MHD_connection_handle_read notify pool_size pool_increment c (λ _, Received s) = Some c'
    /\ receiving c' /\ buffered c' (b ++ s) /\ up c' = up c /\ read_buffer_size c' = read_buffer_size c.
Proof.
  intros (Hst & Hcl & Hr) (pre & post & Em & Eb & Eo & Hle & Hend) Hs Hinc Hmax Hfit Hgrow.
  assert (0 < length s)%nat by (destruct s; [done|cbn [length]; lia]).
  unfold MHD_connection_handle_read. rewrite Hst, bool_decide_eq_false_2 by done.
  rewrite Eo, usize_small by lia.
  destruct (Z.gtb_spec (Z.of_nat (length b) + pool_increment) (read_buffer_size c)); [lia|].
  cbn [mbind option_bind]. rewrite Eo. destruct (Z.eqb_spec (read_buffer_size c) (Z.of_nat (length b))); [lia|].
  rewrite Eb. cbn [mbind option_bind]. rewrite Em, !length_app in Hend.
  assert (mem_write (memory (pool c)) (Z.of_nat (length pre) + Z.of_nat (length b)) s
          = Some ((pre ++ b) ++ s ++ drop (length s) post)) as ->.
  { rewrite Em, app_assoc, <- (take_drop (length s) post) at 1. apply mem_write_mid; [rewrite length_app; lia|].
    rewrite length_take. lia. }
  cbn [mbind option_bind]. unfold after_read. cbn [set_read set_pool state read_closed with_memory]. rewrite Hst, Hcl.
  cbn [expects_input]. eexists. split; [done|]. split_and!; [done..| |done|done].
  exists pre, (drop (length s) post). cbn. rewrite !length_app, length_drop, <- !app_assoc. split_and!; try done; lia.
Qed.

(** The unprocessed bytes are moved to the front of the buffer. *)
Lemma write_back (pre b post b' : bytes) :
  (length b' <= length b)%nat ->
  ∃ post', (if (0 <? length b')%nat then mem_write (pre ++ b ++ post) (Z.of_nat (length pre)) b'
            else Some (pre ++ b ++ post)) = Some (pre ++ b' ++ post')
    /\ length (b' ++ post') = length (b ++ post).
Proof.
  intros Hl. destruct (Nat.ltb_spec 0 (length b')).
  - exists (drop (length b') (b ++ post)). split.
    + rewrite <- (take_drop (length b') (b ++ post)) at 1. apply mem_write_mid; [done|].
      rewrite length_take, length_app. lia.
    + rewrite !length_app, length_drop, length_app. lia.
  - destruct b'; [|cbn [length] in *; lia]. by exists (b ++ post).
Qed.

(** A call that leaves the loop, on the whole connection. *)
Lemma process_request_body_finish {App} (default_handler : App -> bytes -> App * bool * nat) c b app :
  receiving c -> buffered c b ->
  (forall j junk, ∃ u' b' aware' app',
     body_loop default_handler (S (length b)) (up c) (client_aware c) app (b ++ j :: junk) (length b)
     = Some (Finish u' (b' ++ j :: junk) (length b'), aware', app') /\ (length b' <= length b)%nat) ->
  ∃ c' app' u' b' aware' j junk,
    process_request_body default_handler notify c app = Some (Returned c', app')
    /\ receiving c' /\ buffered c' b' /\ up c' = u' /\ read_buffer_size c' = read_buffer_size c
    /\ body_loop default_handler (S (length b)) (up c) (client_aware c) app (b ++ j :: junk) (length b)
       = Some (Finish u' (b' ++ j :: junk) (length b'), aware', app').
Proof.
  intros (Hst & Hcl & Hr) (pre & post & Em & Eb & Eo & Hle & Hend) Hloop.
  rewrite Em, !length_app in Hend. destruct post as [|j junk]; [cbn [length] in Hend; lia|].
  destruct (Hloop j junk) as (u' & b' & aw & app' & El & Hb'). unfold process_request_body.
  rewrite Hr, Eb. cbn [mbind option_bind]. cbv zeta. rewrite Em, Eo, !Nat2Z.id, drop_app_length, El.
  cbn [mbind option_bind]. rewrite mem_read_app. cbn [mbind option_bind set_aware pool].
  rewrite Em. destruct (write_back pre b (j :: junk) b' Hb') as (post' & -> & Hlen).
  cbn [mbind option_bind]. eexists _, app', u', b', aw, j, junk. split; [done|]. split; [by split_and!|].
  split; [|by split_and!]. exists pre, post'. cbn. rewrite Eo in Hle. rewrite !length_app in *. split_and!; try done; lia.
Qed.

Section Decoder.
Context {App : Type} {default_handler : App -> bytes -> App * bool * nat} {longest : nat}.
Context {wait : upload -> bytes -> bytes -> Prop} {fin : upload -> bytes -> Prop}.
Context {HD : BodyDecoder default_handler longest wait fin}.

(** One segment in the buffer: the body is complete, or more is needed. *)
Lemma idle_continue_sent_ok c app b f body :
  receiving c -> buffered c b -> b ≠ [] -> wait (up c) (b ++ f) body ->
  ∃ c' app' b' pieces body',
    idle_continue_sent default_handler notify c app = Some (Returned c', app')
    /\ buffered c' b' /\ takes default_handler app pieces app' /\ body = concat pieces ++ body'
    /\ read_buffer_size c' = read_buffer_size c
    /\ ((fin (up c') (b' ++ f) /\ body' = []
         /\ state c' = if have_chunked_upload (up c') then MHD_CONNECTION_BODY_RECEIVED
                       else MHD_CONNECTION_FOOTERS_RECEIVED)
        \/ (receiving c' /\ wait (up c') (b' ++ f) body' /\ f ≠ [] /\ (length b' < longest)%nat)).
Proof using HD.
  intros Hc Hb Hne Hw.
  destruct (process_request_body_finish default_handler c b app Hc Hb) as (c' & app' & u' & b' & aw & j & junk & Ep & Hc' & Hb' & Eu & Es & El).
  { intros j junk. destruct (decoder_loop (S (length b)) (up c) (client_aware c) app b f body j junk)
      as (u' & b' & aw & app' & ? & ? & ? & ? & _); [done..|lia|]. by exists u', b', aw, app'. }
  destruct (decoder_loop (S (length b)) (up c) (client_aware c) app b f body j junk)
    as (u1 & b1 & aw1 & app1 & pieces & body' & El1 & Hl & Ht & Ebody & Hpost); [done..|lia|].
  rewrite El in El1. injection El1 as E1 E2 E3 E4 E5. subst u1 app1. apply app_inv_tail in E2. subst b1.
  unfold idle_continue_sent. destruct Hb as (? & ? & ? & ? & Eo & ?).
  destruct (Z.eqb_spec (read_buffer_offset c) 0); [destruct b; [done|cbn [length] in Eo; lia]|].
  rewrite Ep. cbn [mbind option_bind]. destruct Hc' as (Hst & Hcl & Hr).
  rewrite Hst, bool_decide_eq_false_2, Hcl by done. rewrite Eu.
  destruct Hpost as [[Hf Hbd]|(Hw' & Hf & Hlen)].
  - rewrite (decoder_fin _ _ Hf). cbn [orb Z.eqb]. rewrite andb_true_r.
    eexists _, app', b', pieces, body'. split; [done|]. split_and!; try done. left. cbn. rewrite Eu. by split_and!.
  - destruct (decoder_wait _ _ _ Hw') as [Hrem _]. destruct (Z.eqb_spec (remaining_upload_size u') 0); [done|].
    rewrite andb_false_r. cbn [orb]. exists c', app', b', pieces, body'. rewrite Eu.
    split; [done|]. split_and!; try done. right. by split_and!.
Qed.

Lemma takes_app app p1 app1 p2 app2 :
  takes default_handler app p1 app1 -> takes default_handler app1 p2 app2 -> takes default_handler app (p1 ++ p2) app2.
Proof. induction 1; intros; [done|]. rewrite <- app_comm_cons. constructor. auto. Qed.

(** The whole body, in segments. *)
Lemma receive_body_ok segments c app b body :
  receiving c -> buffered c b -> wait (up c) (b ++ concat segments) body -> concat segments ≠ [] ->
  (length b < longest)%nat -> 0 <= pool_increment -> read_buffer_size c <= SIZE_MAX ->
  Z.of_nat longest + pool_increment <= read_buffer_size c ->
  Forall (λ s, s ≠ [] /\ Z.of_nat (longest + length s) <= read_buffer_size c) segments ->
  ∃ c' app' rest left pieces,
    receive_body default_handler notify pool_size pool_increment c app segments = Some (Returned c', app', rest)
    /\ takes default_handler app pieces app' /\ concat pieces = body
    /\ buffered c' left /\ fin (up c') (left ++ concat rest)
    /\ state c' = if have_chunked_upload (up c') then MHD_CONNECTION_BODY_RECEIVED
                  else MHD_CONNECTION_FOOTERS_RECEIVED.
Proof using HD.
  revert c app b body. induction segments as [|s segments IH]; intros c app b body Hc Hb Hw Hne Hl Hinc Hmax Hroom Hseg; [done|].
  apply Forall_cons in Hseg as [[Hs Hsl] Hseg]. cbn [receive_body].
  destruct (handle_read_append c b s) as (c1 & -> & Hc1 & Hb1 & Eu1 & Es1); [done..|lia|lia|].
  cbn [mbind option_bind]. cbn [concat] in Hw. rewrite app_assoc, <- Eu1 in Hw.
  destruct (idle_continue_sent_ok c1 app (b ++ s) (concat segments) body)
    as (c2 & app2 & b2 & pieces & body2 & -> & Hb2 & Ht & -> & Es2 & Hpost); [done..|by destruct b|done|].
  cbn [mbind option_bind]. destruct Hpost as [(Hf & -> & Est)|(Hc2 & Hw2 & Hf & Hl2)].
  - rewrite bool_decide_eq_false_2 by (rewrite Est; by case_match).
    exists c2, app2, segments, b2, pieces. rewrite app_nil_r. by split_and!.
  - rewrite bool_decide_eq_true_2 by apply Hc2. rewrite Es1 in Es2.
    destruct (IH c2 app2 b2 body2) as (c' & app' & rest & left & p2 & -> & Ht2 & <- & H'); rewrite ?Es2; [done..|].
    exists c', app', rest, left, (pieces ++ p2). split; [done|]. rewrite concat_app.
    split; [by eapply takes_app|]. done.
Qed.
End Decoder.
End Receive.

(** ** The two kinds of bodies *)

Lemma chunked_decoder {App} (default_handler : App -> bytes -> App * bool * nat) end_line trailer longest :
  willing default_handler -> eager default_handler ->
  good longest end_line -> data end_line = [] -> (2 <= longest)%nat ->
  BodyDecoder default_handler longest (λ u s body, chunked u /\ awaiting end_line trailer longest u s body)
    (finished trailer).
Proof.
  intros Hw He Hend Hempty Hlong. split.
  - intros fuel u aware app b f body j junk [Hu Ha] _ Hf.
    destruct (body_loop_ok end_line trailer longest Hend Hempty Hlong default_handler fuel u aware app b f body j junk Hw Hu Ha Hf)
      as (u' & b' & aw & app' & E & Hl & pieces & body' & Ht & Eb & Hpost).
    exists u', b', aw, app', pieces, body'. split_and!; try done.
    destruct Hpost as [?|(? & ? & Hf')]; [by left|right]. split; [done|by apply Hf'].
  - by intros u s (_ & ? & _).
  - intros u s body [[_ Hr] Ha]. rewrite Hr. split; [done|]. intros ->. by apply awaiting_nonempty in Ha.
Qed.

(** A body of known size, and what follows it in the stream. *)
Definition sized_wait (extra : bytes) (u : upload) (s body : bytes) : Prop :=
  have_chunked_upload u = false /\ remaining_upload_size u = Z.of_nat (length body)
  /\ 0 < Z.of_nat (length body) < UINT64_MAX /\ s = body ++ extra.

Definition sized_fin (extra : bytes) (u : upload) (s : bytes) : Prop :=
  have_chunked_upload u = false /\ remaining_upload_size u = 0 /\ s = extra.

Lemma plain_round_sized u b hb r :
  have_chunked_upload u = false -> remaining_upload_size u = Z.of_nat r -> 0 < Z.of_nat r < UINT64_MAX ->
  next_round u hb b = Some (Deliver (r `min` b)%nat false u hb b).
Proof.
  intros Hc Hr Hb. unfold next_round, plain_round. rewrite Hc, Hr. cbn [andb].
  destruct (Z.eqb_spec (Z.of_nat r) 0); [lia|]. destruct (Z.eqb_spec (Z.of_nat r) MHD_SIZE_UNKNOWN); [lia|].
  cbn [negb andb]. destruct (Z.ltb_spec (Z.of_nat r) (Z.of_nat b)); do 2 f_equal; lia.
Qed.

Lemma sized_decoder {App} (default_handler : App -> bytes -> App * bool * nat) extra :
  willing default_handler -> eager default_handler ->
  BodyDecoder default_handler 1 (sized_wait extra) (sized_fin extra).
Proof.
  intros Hw He. split.
  - intros fuel u aware app b f body j junk (Hc & Hr & Hb & E) Hne Hf. destruct fuel as [|fuel]; [lia|].
    cbn [body_loop]. unfold body_iteration. rewrite (plain_round_sized _ _ _ _ Hc Hr Hb). cbn [mbind option_bind].
    set (n := (length body `min` length b)%nat).
    assert (length (take n b) = n) as Hn by (rewrite length_take; lia).
    assert (mem_read (b ++ j :: junk) 0 (Z.of_nat n) = Some (take n b)) as ->.
    { pose proof (mem_read_app (take n b) (drop n b ++ j :: junk)) as Em. by rewrite app_assoc, take_drop, Hn in Em. }
    cbn [mbind option_bind]. pose proof (Hw app (take n b)) as [Hok _]. pose proof (He app (take n b)) as H0.
    pose proof (takes_cons default_handler app (take n b) [] _ (takes_nil _ _)) as Ht. rewrite H0, Nat.sub_0_r, Hn in Ht.
    destruct (default_handler app (take n b)) as [[app1 ok] left_]. cbn [fst snd] in *. subst ok left_.
    cbn [negb Nat.ltb Nat.leb Nat.eqb mbind option_bind]. rewrite Nat.sub_0_r.
    rewrite drop_app_le by lia. replace (length b - n)%nat with (length (drop n b)) by (by rewrite length_drop).
    assert (drop n b ++ f = drop n body ++ extra /\ take n b = take n body) as [Ed Et].
    { split; [rewrite <- !drop_app_le by lia; by rewrite E|].
      rewrite <- (take_app_le b f), <- (take_app_le body extra) by lia. by rewrite E. }
    assert (account u n = with_remaining u (Z.of_nat (length body - n))) as Ea.
    { unfold account. rewrite Hc, Hr. destruct (Z.eqb_spec (Z.of_nat (length body)) MHD_SIZE_UNKNOWN); [lia|].
      f_equal. rewrite wrap_small by lia. lia. }
    exists (account u n), (drop n b), true, app1, [take n b], (drop n body).
    split; [done|]. split; [rewrite length_drop; lia|]. split; [by rewrite take_take, Nat.min_id in Ht|].
    split; [cbn [concat]; by rewrite app_nil_r, Et, take_drop|]. rewrite Ea.
    destruct (decide (length body <= length b)%nat) as [Hle|Hgt].
    + left. assert (drop n body = []) as E0 by (apply drop_ge; lia). rewrite E0 in *. split; [|done].
      split_and!; [done| |done]. cbn. lia.
    + right. assert (drop n b = []) as E0 by (apply drop_ge; lia). rewrite E0 in *. split; [|split; [|cbn [length]; lia]].
      * split; [done|]. cbn. rewrite length_drop. split_and!; try done; lia.
      * intros ->. apply (f_equal length) in Ed. rewrite !length_app, length_drop in Ed. cbn [length] in Ed. lia.
  - by intros u s (_ & ? & _).
  - intros u s body (_ & -> & Hb & ->). split; [lia|]. intros E. apply (f_equal length) in E. rewrite length_app in E. cbn [length] in E. lia.
Qed.

(** ** Arbitrary input *)

Lemma scan_size_total left hb available i :
  (i <= available < length hb)%nat ->
  ∃ k, scan_size left hb available i = Some k /\ (i <= k <= available)%nat /\ (k <= i + left)%nat.
Proof.
  revert i. induction left as [|left IH]; intros i Hi; cbn [scan_size]; [exists i; split_and!; [done|lia..]|].
  destruct (Nat.ltb_spec i available); [|exists i; split_and!; [done|lia..]].
  unfold deref_at. destruct (lookup_lt_is_Some_2 hb i ltac:(lia)) as [c ->]. cbn [mbind option_bind].
  destruct (is_newline c || (c =? 59)); [exists i; split_and!; [done|lia..]|].
  destruct (IH (S i) ltac:(lia)) as (k & -> & ? & ?). exists k. split_and!; [done|lia..].
Qed.

Lemma skip_extension_total left hb i :
  (i + left < length hb)%nat -> ∃ k, skip_extension left hb i = Some k /\ (i <= k <= i + left)%nat.
Proof.
  revert i. induction left as [|left IH]; intros i Hi; cbn [skip_extension]; [exists i; split; [done|lia]|].
  unfold deref_at. destruct (lookup_lt_is_Some_2 hb i ltac:(lia)) as [c ->]. cbn [mbind option_bind].
  destruct (is_newline c); [exists i; split; [done|lia]|].
  destruct (IH (S i) ltac:(lia)) as (k & -> & ?). exists k. split; [done|lia].
Qed.

Lemma line_end_total hb available :
  (available < length hb)%nat ->
  ∃ es i, line_end hb available = Some (es, i) /\ (es <= i <= available)%nat.
Proof.
  intros Ha. unfold line_end. destruct (scan_size_total 16 hb available 0 ltac:(lia)) as (es & -> & ? & _).
  cbn [mbind option_bind]. unfold deref_at. destruct (lookup_lt_is_Some_2 hb es ltac:(lia)) as [c ->].
  cbn [mbind option_bind]. destruct (c =? 59).
  - destruct (skip_extension_total (available - es) hb es ltac:(lia)) as (k & -> & ?).
    exists es, k. split; [done|lia].
  - exists es, es. split; [done|lia].
Qed.

Lemma parse_size_total hb n v :
  (n <= length hb)%nat -> 0 <= v <= UINT64_MAX ->
  ∃ d size, MHD_strx_to_uint64_n_ (Some hb) n (Some v) = Some (d, Some size) /\ 0 <= size <= UINT64_MAX.
Proof.
  intros Hn Hv. unfold MHD_strx_to_uint64_n_.
  assert (forall left s k res, (left <= length s)%nat -> is_Some (strx_to_uint64_n_loop s left k res)) as Htot.
  { intros left. induction left as [|left IH]; intros s k res Hl; [done|]. cbn [strx_to_uint64_n_loop].
    destruct s as [|c s]; cbn [length] in Hl; [lia|]. cbn [deref head mbind option_bind tail]. repeat case_match; try done; apply IH; lia. }
  destruct (Htot n hb 0%nat 0 Hn) as [r E]. rewrite E. cbn [mbind option_bind].
  destruct r as [[d size]|]; unfold strx_finish; [|by exists 0%nat, v].
  eexists _, _. split; [done|]. case_match; [|done]. rewrite strx_to_uint64_n_loop_generic in E.
  apply (uvalue_loop_bound toxdigitvalue 16 UINT64_MAX) in E; [done|lia|intros; apply toxdigitvalue_range|lia|lia|lia].
Qed.

(** The counters of an upload stay in their range. *)
Definition upload_inv (u : upload) : Prop :=
  0 <= current_chunk_offset u <= UINT64_MAX /\ 0 <= current_chunk_size u <= UINT64_MAX
  /\ 0 <= remaining_upload_size u <= UINT64_MAX.

(** A round moves forward inside the buffer, keeps the counters in range, and
    gives the application only bytes of the buffer. *)
Definition round_safe (hb : bytes) (available : nat) (r : round) : Prop :=
  match r with
  | Deliver n retry u hb' av' =>
      ∃ k, hb' = drop k hb /\ av' = (available - k)%nat /\ (k <= available)%nat /\ (n <= av')%nat /\ upload_inv u
        /\ (retry = true -> 0 < n)%nat
  | Leave u hb' av' | Go_on false u hb' av' =>
      ∃ k, hb' = drop k hb /\ av' = (available - k)%nat /\ (k <= available)%nat /\ upload_inv u
  | Go_on true u hb' av' =>
      ∃ k, hb' = drop k hb /\ av' = (available - k)%nat /\ (0 < k <= available)%nat /\ upload_inv u
  | Bad_encoding u => True
  end.

Lemma read_size_line_total u hb available :
  upload_inv u -> (available < length hb)%nat ->
  ∃ l, read_size_line u hb available = Some l
    /\ match l with
       | Sized u' hb' av' =>
           ∃ k, hb' = drop k hb /\ av' = (available - k)%nat /\ (0 < k <= available)%nat
             /\ current_chunk_offset u' = 0 /\ 0 <= current_chunk_size u' <= UINT64_MAX
             /\ remaining_upload_size u' = remaining_upload_size u
       | _ => True
       end.
Proof.
  intros (Ho & Hs & Hr) Ha. unfold read_size_line. destruct (line_end_total hb available Ha) as (es & i & -> & Hes & Hi).
  cbn [mbind option_bind].
  assert (∃ more, (if (available <=? i + 1)%nat then
            if (i =? 1)%nat && (available =? 2)%nat then c0 ← deref_at hb 0; Some (negb (c0 =? 48))
            else Some true else Some false) = Some more /\ (more = false -> S i <= available)%nat) as (more & -> & Hm).
  { destruct (Nat.leb_spec available (i + 1)); [|exists false; split; [done|lia]].
    destruct (Nat.eqb_spec i 1), (Nat.eqb_spec available 2); cbn [andb]; try (exists true; split; [done|lia]).
    unfold deref_at. destruct (lookup_lt_is_Some_2 hb 0 ltac:(lia)) as [c ->]. cbn [mbind option_bind].
    eexists. split; [done|lia]. }
  cbn [mbind option_bind]. destruct more; [by eexists|]. specialize (Hm eq_refl).
  destruct (16 <=? es)%nat; [by eexists|].
  destruct (parse_size_total hb es (current_chunk_size u) ltac:(lia) ltac:(lia)) as (d & size & -> & Hsize).
  cbn [mbind option_bind]. destruct (negb (es =? d)%nat); [by eexists|].
  assert (∃ k, (if (S i <? available)%nat then c ← deref_at hb (S i); Some (if is_newline c then S (S i) else S i)
                else Some (S i)) = Some k /\ (0 < k <= available)%nat) as (k & -> & Hk).
  { destruct (Nat.ltb_spec (S i) available); [|exists (S i); split; [done|lia]].
    unfold deref_at. destruct (lookup_lt_is_Some_2 hb (S i) ltac:(lia)) as [c ->]. cbn [mbind option_bind].
    eexists. split; [done|]. destruct (is_newline c); lia. }
  cbn [mbind option_bind]. eexists. split; [done|]. by exists k.
Qed.

Lemma skip_chunk_end_total u hb available :
  upload_inv u -> (available < length hb)%nat ->
  skip_chunk_end u hb available = Some None
  \/ ∃ u' k, skip_chunk_end u hb available = Some (Some (u', drop k hb, (available - k)%nat))
       /\ (k <= available)%nat /\ upload_inv u'.
Proof.
  intros Hu Ha. unfold skip_chunk_end. destruct (_ && _) eqn:E.
  - apply andb_true_iff in E as [_ E]. apply Nat.leb_le in E. unfold deref_at.
    destruct (lookup_lt_is_Some_2 hb 0 ltac:(lia)) as [c0 ->]. cbn [mbind option_bind].
    destruct (lookup_lt_is_Some_2 hb (if is_newline c0 then 1 else 0)%nat) as [c1 ->]; [case_match; lia|].
    cbn [mbind option_bind]. case_match eqn:Ek; [by left|]. right. eexists _, _. split; [done|].
    split; [destruct (is_newline c0), (is_newline c1); lia|]. destruct Hu as (? & ? & ?). unfold upload_inv. cbn. lia.
  - right. exists u, 0%nat. rewrite drop_0, Nat.sub_0_r. split; [done|]. split; [lia|done].
Qed.

Lemma next_round_safe u hb available :
  upload_inv u -> (available < length hb)%nat ->
  ∃ r, next_round u hb available = Some r /\ round_safe hb available r.
Proof.
  intros Hu Ha. unfold next_round. case_match.
  - unfold chunked_round. destruct (skip_chunk_end_total u hb available Hu Ha) as [->|(u1 & k & -> & Hk & Hu1)];
      cbn [mbind option_bind]; [by eexists|].
    destruct (Z.ltb_spec (current_chunk_offset u1) (current_chunk_size u1)) as [Hlt|].
    + destruct Hu1 as (? & ? & ?). rewrite wrap_small by lia. case_match eqn:Eg; (eexists; split; [done|]); exists k.
      * split_and!; try done; lia.
      * rewrite Z.gtb_ltb in Eg. apply Z.ltb_ge in Eg. split_and!; try done; lia.
    + destruct (read_size_line_total u1 (drop k hb) (available - k) Hu1) as (l & -> & Hl); [rewrite length_drop; lia|].
      cbn [mbind option_bind]. destruct l as [| |u2 hb2 av2]; [| by eexists|].
      * eexists. split; [done|]. by exists k.
      * destruct Hl as (k2 & -> & -> & Hk2 & Ho2 & Hs2 & Hr2). destruct Hu1 as (_ & _ & ?).
        assert (upload_inv u2 /\ upload_inv (with_remaining u2 0)) as [? ?] by (unfold upload_inv; cbn; lia).
        rewrite drop_drop. case_match; [|destruct (0 <? available - k - k2)%nat]; (eexists; split; [done|]);
          exists (k + k2)%nat; split_and!; done || lia || auto.
  - unfold plain_round. case_match eqn:Eg; (eexists; split; [done|]); exists 0%nat; rewrite drop_0, Nat.sub_0_r.
    + rewrite !andb_true_iff in Eg. destruct Eg as [_ Eg]. apply Z.ltb_lt in Eg. destruct Hu as (? & ? & ?).
      split_and!; done || lia.
    + destruct Hu as (? & ? & ?). split_and!; done || lia.
Qed.

Lemma account_inv u n : upload_inv u -> upload_inv (account u n).
Proof.
  intros (? & ? & ?). unfold account. pose proof (wrap_range 64 (current_chunk_offset u + Z.of_nat n)).
  pose proof (wrap_range 64 (remaining_upload_size u - Z.of_nat n)). unfold upload_inv.
  destruct (have_chunked_upload u); cbn; case_match; cbn; lia.
Qed.

Section Safety.
Context {App : Type} (default_handler : App -> bytes -> App * bool * nat).

Lemma body_iteration_safe u aware app hb available :
  upload_inv u -> (available < length hb)%nat ->
  ∃ r aware' app', body_iteration default_handler u aware app hb available = Some (r, aware', app')
    /\ match r with
       | Finish u' hb' av' => ∃ k, hb' = drop k hb /\ av' = (available - k)%nat /\ (k <= available)%nat /\ upload_inv u'
       | Retry u' hb' av' => ∃ k, hb' = drop k hb /\ av' = (available - k)%nat /\ (0 < k <= available)%nat /\ upload_inv u'
       | Close _ | Panic => True
       end.
Proof.
  intros Hu Ha. unfold body_iteration. destruct (next_round_safe u hb available Hu Ha) as (r & -> & Hr).
  cbn [mbind option_bind]. destruct r as [n retry u1 hb1 av1|u1 hb1 av1|[] u1 hb1 av1|u1].
  - destruct Hr as (k & -> & -> & Hk & Hn & Hu1 & Hret).
    destruct (mem_read_Some (drop k hb) 0 (Z.of_nat n)) as (d & -> & Hd); [lia|lia|rewrite length_drop; lia|].
    cbn [mbind option_bind]. destruct (default_handler app d) as [[app1 ok] left_].
    destruct ok; cbn [negb]; [|by eexists _, _, _].
    destruct (Nat.ltb_spec n left_); [by eexists _, _, _|]. rewrite drop_drop.
    pose proof (account_inv u1 (n - left_) Hu1).
    destruct (Nat.eqb_spec left_ 0) as [->|]; cbn [negb]; [destruct retry|];
      (eexists _, _, _; split; [done|]); exists (k + (n - left_))%nat || exists (k + (n - 0))%nat; split_and!; try done; try lia.
  - by eexists _, _, _.
  - by eexists _, _, _.
  - by eexists _, _, _.
  - by eexists _, _, _.
Qed.

Lemma body_loop_safe fuel u aware app hb available :
  upload_inv u -> (available < length hb)%nat -> (available < fuel)%nat ->
  ∃ r aware' app', body_loop default_handler fuel u aware app hb available = Some (r, aware', app')
    /\ match r with
       | Finish u' hb' av' => ∃ k, hb' = drop k hb /\ av' = (available - k)%nat /\ (k <= available)%nat /\ upload_inv u'
       | Retry _ _ _ => False
       | Close _ | Panic => True
       end.
Proof.
  revert u aware app hb available. induction fuel as [|fuel IH]; intros u aware app hb available Hu Ha Hf; [lia|].
  cbn [body_loop]. destruct (body_iteration_safe u aware app hb available Hu Ha) as (r & aw & app1 & -> & Hr).
  cbn [mbind option_bind]. destruct r as [| u1 hb1 av1| |]; try (by eexists _, _, _).
  destruct Hr as (k & -> & -> & Hk & Hu1).
  destruct (IH u1 aw app1 (drop k hb) (available - k)%nat) as (r & aw2 & app2 & -> & Hr);
    [done|rewrite length_drop; lia|lia|].
  eexists _, _, _. split; [done|]. destruct r; try done. destruct Hr as (k2 & -> & -> & ? & ?).
  exists (k + k2)%nat. rewrite drop_drop. split_and!; try done; lia.
Qed.
End Safety.

(** ** Theorems *)

Section Theorems.
Context `{Platform}.

(** C3: A chunked body is decoded exactly: for every division of the stream
    into segments that fit the read buffer, an application that takes what it
    is given receives the data of the chunks, in order and nothing else; the
    decoder stops at the end line, switches to the state that reads the
    footers, and leaves the stream behind the end line unread, except that
    the second half of the new line of the end line may be left with it. *)
Theorem chunked_body_delivered {App} (default_handler : App -> bytes -> App * bool * nat)
    (notify : bool) pool_size pool_increment longest cs end_line trailer segments c app :
  willing default_handler -> eager default_handler ->
  Forall (λ ch, good longest ch /\ data ch ≠ []) cs -> good longest end_line -> data end_line = [] ->
  concat segments = encoding cs end_line trailer ->
  receiving c -> buffered c [] -> up c = mkUpload true MHD_SIZE_UNKNOWN 0 0 ->
  0 <= pool_increment -> read_buffer_size c <= SIZE_MAX -> Z.of_nat longest + pool_increment <= read_buffer_size c ->
  Forall (λ s, s ≠ [] /\ Z.of_nat (longest + length s) <= read_buffer_size c) segments ->
  ∃ c' app' rest left pieces,
    receive_body default_handler notify pool_size pool_increment c app segments = Some (Returned c', app', rest)
    /\ takes default_handler app pieces app' /\ concat pieces = body_of cs
    /\ state c' = MHD_CONNECTION_BODY_RECEIVED /\ remaining_upload_size (up c') = 0
    /\ buffered c' left /\ (left ++ concat rest = trailer \/ left ++ concat rest = 10 :: trailer).
Proof.
  intros Hw He Hcs Hend Hempty Es Hc Hb Eu Hinc Hmax Hroom Hseg.
  assert (2 < longest)%nat as Hl.
  { destruct Hend as [([_ Hd] & _) Hl]. unfold chunk_line in Hl. rewrite !length_app in Hl. cbn [length] in Hl. lia. }
  pose proof (chunked_decoder default_handler end_line trailer longest Hw He Hend Hempty ltac:(lia)) as HD.
  assert (chunked (up c) /\ awaiting end_line trailer longest (up c) ([] ++ concat segments) (body_of cs)) as Hwait.
  { rewrite Eu, Es. split; [done|]. by apply at_size. }
  destruct (receive_body_ok pool_size pool_increment notify (HD := HD) segments c app [] (body_of cs))
    as (c' & app' & rest & left & pieces & E & Ht & Ep & Hb' & (Hch & Hrem & Hst) & Hs); try done; [|cbn [length]; lia|].
  { intros En. rewrite En in Hwait. by destruct Hwait as [_ Hwait%awaiting_nonempty]. }
  exists c', app', rest, left, pieces. rewrite Hch in Hs. by split_and!.
Qed.

(** C36: A body with a content length ends at its last byte: for every
    division of the stream into segments that fit the read buffer, an
    application that takes what it is given receives exactly that many bytes,
    the connection goes on to the response, and the bytes of the next request
    stay unread. *)
Theorem sized_body_delivered {App} (default_handler : App -> bytes -> App * bool * nat)
    (notify : bool) pool_size pool_increment body extra segments c app size offset :
  willing default_handler -> eager default_handler -> 0 < Z.of_nat (length body) < UINT64_MAX ->
  concat segments = body ++ extra ->
  receiving c -> buffered c [] -> up c = mkUpload false (Z.of_nat (length body)) size offset ->
  0 <= pool_increment -> read_buffer_size c <= SIZE_MAX -> 1 + pool_increment <= read_buffer_size c ->
  Forall (λ s, s ≠ [] /\ Z.of_nat (1 + length s) <= read_buffer_size c) segments ->
  ∃ c' app' rest left pieces,
    receive_body default_handler notify pool_size pool_increment c app segments = Some (Returned c', app', rest)
    /\ takes default_handler app pieces app' /\ concat pieces = body
    /\ state c' = MHD_CONNECTION_FOOTERS_RECEIVED /\ remaining_upload_size (up c') = 0
    /\ buffered c' left /\ left ++ concat rest = extra.
Proof.
  intros Hw He Hbody Es Hc Hb Eu Hinc Hmax Hroom Hseg.
  pose proof (sized_decoder default_handler extra Hw He) as HD.
  destruct (receive_body_ok pool_size pool_increment notify (HD := HD) segments c app [] body)
    as (c' & app' & rest & left & pieces & E & Ht & Ep & Hb' & (Hch & Hrem & Hst) & Hs); [done|done| | |cbn [length]; lia|done..|].
  - rewrite Eu, Es. split; [done|]. split; [done|]. by split.
  - intros En. rewrite En in Es. apply (f_equal length) in Es. rewrite length_app in Es. cbn [length] in Es. lia.
  - exists c', app', rest, left, pieces. rewrite Hch in Hs. by split_and!.
Qed.

(** C35: An application that takes only part of what it is given loses
    nothing: after each call for a part [b] of a chunked stream [b ++ f], the
    bytes it took followed by what the decoder still owes it are the body,
    and the decoder expects the rest of the stream behind the bytes it
    keeps. *)
Theorem partial_processing_keeps_the_body {App} (default_handler : App -> bytes -> App * bool * nat)
    (notify : bool) longest end_line trailer c app b f body :
  willing default_handler -> good longest end_line -> data end_line = [] ->
  receiving c -> buffered c b -> chunked (up c) -> awaiting end_line trailer longest (up c) (b ++ f) body ->
  ∃ c' app' b' pieces body',
    process_request_body default_handler notify c app = Some (Returned c', app')
    /\ receiving c' /\ buffered c' b' /\ takes default_handler app pieces app' /\ body = concat pieces ++ body'
    /\ ((finished trailer (up c') (b' ++ f) /\ body' = [])
        \/ (chunked (up c') /\ awaiting end_line trailer longest (up c') (b' ++ f) body')).
Proof.
  intros Hw Hend Hempty Hc Hb Hu Ha.
  assert (2 < longest)%nat as Hl.
  { destruct Hend as [([_ Hd] & _) Hl]. unfold chunk_line in Hl. rewrite !length_app in Hl. cbn [length] in Hl. lia. }
  pose proof (body_loop_ok end_line trailer longest Hend Hempty ltac:(lia) default_handler (S (length b)) (up c)
    (client_aware c) app b f body) as Hloop.
  destruct (process_request_body_finish notify default_handler c b app Hc Hb)
    as (c' & app' & u' & b' & aw & j & junk & Ep & Hc' & Hb' & <- & _ & El).
  { intros j junk. destruct (Hloop j junk) as (u' & b' & aw & app' & ? & ? & _); [done..|lia|]. by exists u', b', aw, app'. }
  destruct (Hloop j junk) as (u1 & b1 & aw1 & app1 & El1 & _ & pieces & body' & Ht & Ebody & Hpost); [done..|lia|].
  rewrite El in El1. injection El1 as E1 E2 E3 E4 E5. subst u1 app1. apply app_inv_tail in E2. subst b1.
  exists c', app', b', pieces, body'. split_and!; try done. destruct Hpost as [?|(? & ? & _)]; [by left|by right].
Qed.

(** C29: No input and no application make the body decoder read outside the
    pool or loop: every call returns, closes the connection or reports the
    application's violation of the interface; when it returns, the buffer is
    at the same place, holds at most as many bytes as before, and the
    counters are in their range. *)
Theorem process_request_body_safe {App} (default_handler : App -> bytes -> App * bool * nat)
    (notify : bool) c app b :
  response c = None -> buffered c b -> upload_inv (up c) ->
  ∃ r app', process_request_body default_handler notify c app = Some (r, app')
    /\ match r with
       | Panicked => True
       | Returned c' =>
           state c' = MHD_CONNECTION_CLOSED
           \/ (state c' = state c /\ upload_inv (up c') /\ ∃ b', buffered c' b' /\ (length b' <= length b)%nat
               /\ ∃ k, b' = drop k b)
       end.
Proof.
  intros Hr (pre & post & Em & Eb & Eo & Hle & Hend) Hu. unfold process_request_body.
  rewrite Hr, Eb. cbn [mbind option_bind]. cbv zeta. rewrite Em, Eo, !Nat2Z.id, drop_app_length.
  rewrite Em, !length_app in Hend.
  destruct (body_loop_safe default_handler (S (length b)) (up c) (client_aware c) app (b ++ post) (length b))
    as (r & aw & app' & -> & Hpost); [done|rewrite length_app; lia|lia|]. cbn [mbind option_bind].
  destruct r as [u' hb' av'| |u'|]; [|done|..]; [|by eexists _, _; split; [done|left]|by eexists _, _].
  destruct Hpost as (k & -> & -> & Hk & Hu'). rewrite drop_app_le by lia.
  rewrite <- (length_drop b k). rewrite mem_read_app. cbn [mbind option_bind set_aware pool].
  rewrite Em. destruct (write_back pre b post (drop k b)) as (post' & -> & Hlen); [rewrite length_drop; lia|].
  cbn [mbind option_bind]. eexists _, _. split; [done|]. right. split; [done|]. split; [done|].
  exists (drop k b). split; [|split; [rewrite length_drop; lia|by exists k]].
  exists pre, post'. cbn. rewrite Eo in Hle. rewrite !length_app, ?length_drop in *. split_and!; try done; lia.
Qed.
End Theorems.

(** ** Concrete runs *)

(** An application that records its calls. *)
Definition recorder (app : list bytes) (d : bytes) : list bytes * bool * nat := (app ++ [d], true, 0%nat).

(** One that takes all but the last byte of what it is given. *)
Definition reluctant (app : list bytes) (d : bytes) : list bytes * bool * nat :=
  (app ++ [d], true, (length d - (length d - 1))%nat).

Lemma recorder_willing : willing recorder.
Proof. intros app d. split; [done|]. cbn. lia. Qed.

Lemma reluctant_willing : willing reluctant.
Proof. intros app d. split; [done|]. cbn. lia. Qed.

(** A connection with an empty read buffer of 40 bytes in a pool of 64. *)
Definition demo_connection (u : upload) : MHD_Connection :=
  mkConn (mkPool (replicate 64 120) 64 48 64 false) (Some 8) 40 0 MHD_CONNECTION_CONTINUE_SENT
    false None false u (mkRequest None None None None None []) [].

Lemma demo_connection_buffered u : buffered (demo_connection u) [].
Proof. exists (replicate 8 120), (replicate 56 120). by split_and!. Qed.

Definition demo_chunks : list chunk :=
  [mkChunk (str "5") (str ";x=y") (str "hello"); mkChunk (str "02") [] (str ", ")].

Definition demo_end : chunk := mkChunk (str "0") [] [].

Definition demo_trailer : bytes := str "T: y" ++ CRLF ++ CRLF.

Lemma demo_chunks_good : Forall (λ ch, good 9 ch /\ data ch ≠ []) demo_chunks /\ good 9 demo_end.
Proof.
  split; [apply Forall_cons; split; [|apply Forall_cons; split; [|constructor]]; (split; [|done])|];
    split; try (cbn; lia); split_and!; try done; try (cbn; lia);
    try (apply (bool_decide_unpack _); vm_compute; reflexivity).
Qed.

Definition demo_segments : list bytes :=
  [str "5;x="; str "y" ++ [13]; [10] ++ str "he"; str "llo" ++ CRLF ++ str "02" ++ CRLF ++ str ", " ++ [13];
   [10] ++ str "0" ++ [13]; [10] ++ demo_trailer].

Lemma chunked_body_delivered_witness :
  ∃ c' app' rest left pieces,
    receive_body (H := LP64) recorder true 64 4 (demo_connection (mkUpload true MHD_SIZE_UNKNOWN 0 0)) [] demo_segments
    = Some (Returned c', app', rest)
    /\ takes recorder [] pieces app' /\ concat pieces = body_of demo_chunks
    /\ state c' = MHD_CONNECTION_BODY_RECEIVED /\ remaining_upload_size (up c') = 0
    /\ buffered c' left /\ (left ++ concat rest = demo_trailer \/ left ++ concat rest = 10 :: demo_trailer).
Proof.
  apply (chunked_body_delivered (H := LP64) recorder true 64 4 9 demo_chunks demo_end demo_trailer);
    [exact recorder_willing|done|apply demo_chunks_good|apply demo_chunks_good|done|reflexivity|done
    |apply demo_connection_buffered|done|done|done|done|].
  apply (bool_decide_unpack _). vm_compute. reflexivity.
Defined.

Lemma sized_body_delivered_witness :
  ∃ c' app' rest left pieces,
    receive_body (H := LP64) recorder true 64 4 (demo_connection (mkUpload false 5 0 0)) [] [str "he"; str "lloGET"; str " /"]
    = Some (Returned c', app', rest)
    /\ takes recorder [] pieces app' /\ concat pieces = str "hello"
    /\ state c' = MHD_CONNECTION_FOOTERS_RECEIVED /\ remaining_upload_size (up c') = 0
    /\ buffered c' left /\ left ++ concat rest = str "GET /".
Proof.
  apply (sized_body_delivered (H := LP64) recorder true 64 4 (str "hello") (str "GET /") _ _ _ 0 0);
    [exact recorder_willing|done|done|reflexivity|done|apply demo_connection_buffered|done|done|done|done|].
  apply (bool_decide_unpack _). vm_compute. reflexivity.
Defined.

Definition demo_midway : MHD_Connection :=
  mkConn (mkPool (replicate 8 120 ++ str "llo" ++ replicate 53 120) 64 48 64 false) (Some 8) 40 3
    MHD_CONNECTION_CONTINUE_SENT false None true (mkUpload true MHD_SIZE_UNKNOWN 5 2)
    (mkRequest None None None None None []) [].

Lemma demo_midway_buffered : buffered demo_midway (str "llo").
Proof. exists (replicate 8 120), (replicate 53 120). by split_and!. Qed.

Lemma partial_processing_keeps_the_body_witness :
  ∃ c' app' b' pieces body',
    process_request_body reluctant true demo_midway [] = Some (Returned c', app')
    /\ receiving c' /\ buffered c' b' /\ takes reluctant [] pieces app' /\ str "llo" = concat pieces ++ body'
    /\ ((finished demo_trailer (up c') (b' ++ CRLF ++ str "0" ++ CRLF ++ demo_trailer) /\ body' = [])
        \/ (chunked (up c')
            /\ awaiting demo_end demo_trailer 9 (up c') (b' ++ CRLF ++ str "0" ++ CRLF ++ demo_trailer) body')).
Proof.
  apply (partial_processing_keeps_the_body reluctant true 9 demo_end demo_trailer demo_midway [] (str "llo"));
    [exact reluctant_willing|apply demo_chunks_good|done|done|exact demo_midway_buffered|done|].
  apply (in_chunk demo_end demo_trailer 9 (up demo_midway) (str "llo") []); done.
Defined.

Lemma process_request_body_safe_witness :
  ∃ r app', process_request_body recorder true demo_midway [] = Some (r, app')
    /\ match r with
       | Panicked => True
       | Returned c' =>
           state c' = MHD_CONNECTION_CLOSED
           \/ (state c' = MHD_CONNECTION_CONTINUE_SENT /\ upload_inv (up c')
               /\ ∃ b', buffered c' b' /\ (length b' <= 3)%nat /\ ∃ k, b' = drop k (str "llo"))
       end.
Proof.
  apply (process_request_body_safe recorder true demo_midway [] (str "llo")); [done|exact demo_midway_buffered|].
  unfold upload_inv. cbn. lia.
Defined.

(** What a run leaves behind: the state, the unread bytes, and the calls. *)
Definition observed (r : option (body_result * list bytes * list bytes)) : option (conn_state * bytes * list bytes) :=
  match r with
  | Some (Returned c, app, rest) =>
      rb ← read_buffer c;
      left ← mem_read (memory (pool c)) rb (read_buffer_offset c);
      Some (state c, left ++ concat rest, app)
  | _ => None
  end.

(** The end of the body depends on how the stream was cut: when a
    segment ends between the two characters of the new line of the end line
    [0], the line feed is left for the footers, where it is an empty line and
    ends them; the same bytes in one segment leave exactly the footers. *)
Theorem split_end_line_leaves_line_feed :
  observed (receive_body (H := LP64) recorder true 64 4 (demo_connection (mkUpload true MHD_SIZE_UNKNOWN 0 0)) []
              [str "1" ++ CRLF ++ str "a" ++ CRLF ++ str "0" ++ CRLF ++ demo_trailer])
  = Some (MHD_CONNECTION_BODY_RECEIVED, demo_trailer, [str "a"])
  /\ observed (receive_body (H := LP64) recorder true 64 4 (demo_connection (mkUpload true MHD_SIZE_UNKNOWN 0 0)) []
                 [str "1" ++ CRLF ++ str "a" ++ CRLF; str "0" ++ [13]; [10] ++ demo_trailer])
     = Some (MHD_CONNECTION_BODY_RECEIVED, 10 :: demo_trailer, [str "a"]).
Proof. split; vm_compute; reflexivity. Qed.

(** A size line without digits is not refused as malformed: it keeps the
    chunk size at zero and so ends the body, and the bytes behind it are read
    as footers although the client never sent an end line. *)
Theorem empty_size_line_ends_the_body :
  observed (receive_body (H := LP64) recorder true 64 4 (demo_connection (mkUpload true MHD_SIZE_UNKNOWN 0 0)) []
              [str "1" ++ CRLF ++ str "a" ++ CRLF; CRLF ++ str "4" ++ CRLF ++ str "data" ++ CRLF])
  = Some (MHD_CONNECTION_BODY_RECEIVED, str "4" ++ CRLF ++ str "data" ++ CRLF, [str "a"]).
Proof. vm_compute. reflexivity. Qed.
