(* ===== verification/RequestHead.v ===== *)
(** * The head of a request (libmicrohttpd/src/microhttpd/connection.c)

    Cutting lines out of the read buffer, the request line, the header lines
    with their continuation, the cookies, and what the headers say about the
    body.  All of it happens in the memory of the pool: lines are terminated
    in place, and names, values and arguments are pointers into it, so that
    the model keeps the one memory and passes offsets.

    The outer option of an operation is undefined behaviour: an access
    outside the pool. *)

From S2P Require Import Prelude MhdStr MemoryPool Internal Headers Connection.

(** ** Access to the memory of the pool *)

Definition byte_at (m : bytes) (p : Z) : option Z := if p <? 0 then None else m !! Z.to_nat p.

(** A [char *] argument at offset [p]. *)
Definition ptr (m : bytes) (p : Z) : bytes := drop (Z.to_nat p) m.

(** The characters a [char *] leads to. *)
Definition chars (m : bytes) (s : char_ptr) : option bytes :=
  match s with
  | Pool p => cstring (ptr m p)
  | Static s => Some s
  end.

(** The entry a header record stands for in the memory [m]. *)
Definition resolve (m : bytes) (r : header_ref) : option MHD_HTTP_Header :=
  k ← chars m (ref_key r);
  v ← (match ref_value r with None => Some None | Some v => s ← chars m v; Some (Some s) end);
  Some (mkHeader (Some k) v (ref_kind r)).

Definition resolve_all (m : bytes) (l : list header_ref) : option (list MHD_HTTP_Header) := mapM (resolve m) l.

(** ** Scans *)

Definition is_eol (c : Z) : bool := (c =? 13) || (c =? 10).

Definition is_blank (c : Z) : bool := (c =? 32) || (c =? 9).

(** Number of bytes in front of the first one that satisfies [f], at most
    [left]. *)
Fixpoint scan (f : Z -> bool) (left : nat) (p : bytes) : option nat :=
  match left with
  | O => Some O
  | S left' => c ← deref p; if (f c : bool) then Some O else n ← scan f left' (tail p); Some (S n)
  end.

(** The same in a string, with no bound but the end of the object. *)
Definition scan_string (f : Z -> bool) (p : bytes) : option nat :=
  n ← scan f (length p) p; if (n <? length p)%nat then Some n else None.

Section Head.
Context `{Platform}.

(** Of the daemon: whether it has a [notify_completed] callback, the size of
    the pools, [strict_for_client], whether it has a [uri_log_callback], and
    its unescape callback. *)
Record daemon_config := {
  notify : bool;
  pool_size : Z;
  strict_for_client : Z;
  has_uri_log : bool;
  unescape_callback : bytes -> nat -> option (bytes * nat)
}.

(** How the attempt to reply with an error fares: whether the response is
    created and queued, and whether its header is built. *)
Record reply_env := { response_created : bool; response_queued : bool; header_built : bool }.

Context (d : daemon_config) (env : reply_env).

Definition set_response (c : MHD_Connection) (r : option Z) : MHD_Connection :=
  mkConn (pool c) (read_buffer c) (read_buffer_size c) (read_buffer_offset c) (state c) (read_closed c)
    r (client_aware c) (up c) (req c) (completed c).

Definition set_version (c : MHD_Connection) (v : option char_ptr) : MHD_Connection :=
  let r := req c in
  set_req c (mkRequest (method r) (url r) v (last r) (colon r) (headers_received r)).

Definition transmit_error_response (c : MHD_Connection) (status_code : Z) : MHD_Connection :=
  let c := match version (req c) with None => set_version c (Some (Static (str "HTTP/1.0"))) | Some _ => c end in
  let c := set_read_closed (set_state c MHD_CONNECTION_FOOTERS_RECEIVED) true in
  let c := set_response c None in
  if negb (response_created env) then set_state c MHD_CONNECTION_CLOSED
  else if negb (response_queued env) then connection_close_error (notify d) c
  else
    let c := set_response c (Some status_code) in
    if negb (header_built env) then connection_close_error (notify d) c
    else set_state c MHD_CONNECTION_HEADERS_SENDING.

(** ** Lines *)

Definition get_next_header_line (c : MHD_Connection) : option (option Z * Z * MHD_Connection) :=
  if read_buffer_offset c =? 0 then Some (None, 0, c)
  else
    rbuf ← read_buffer c;
    let m := memory (pool c) in
    pos ← scan is_eol (Z.to_nat (read_buffer_offset c - 1)) (ptr m rbuf);
    let pos := Z.of_nat pos in
    ch ← byte_at m (rbuf + pos);
    if (pos =? read_buffer_offset c - 1) && negb (ch =? 10) then
      c ← (if read_buffer_offset c =? read_buffer_size c then
             '(ok, c) ← try_grow_read_buffer (pool_size d) c;
             Some (if (ok : bool) then c
                   else transmit_error_response c (match url (req c) with Some _ => 431 | None => 414 end))
           else Some c);
      Some (None, 0, c)
    else
      crlf ← (if ch =? 13 then n ← byte_at m (rbuf + pos + 1); Some (n =? 10) else Some false);
      let line_len := pos in
      m ← (if (crlf : bool) then mem_write m (rbuf + pos) [0] else Some m);
      let pos := if (crlf : bool) then pos + 1 else pos in
      m ← mem_write m (rbuf + pos) [0];
      let pos := pos + 1 in
      Some (Some rbuf, line_len,
            set_read (set_pool c (with_memory (pool c) m)) (Some (rbuf + pos))
              (read_buffer_size c - pos) (read_buffer_offset c - pos)).

(** ** Storing a header *)

Definition add_header (c : MHD_Connection) (h : header_ref) : MHD_Connection :=
  let r := req c in
  set_req c (mkRequest (method r) (url r) (version r) (last r) (colon r) (headers_received r ++ [h])).

Definition connection_add_header (c : MHD_Connection) (key : char_ptr) (val : option char_ptr) (k : Z)
    : bool * MHD_Connection :=
  match MHD_pool_allocate (pool c) sizeof_header true with
  | (None, p) => (false, transmit_error_response (set_pool c p) 431)
  | (Some _, p) => (true, add_header (set_pool c p) (mkRef key val k))
  end.

(** ** Header lines *)

Definition set_last_colon (c : MHD_Connection) (l k : Z) : MHD_Connection :=
  let r := req c in
  set_req c (mkRequest (method r) (url r) (version r) (Some l) (Some k) (headers_received r)).

(** Whether a blank comes before the colon at [k]. *)
Definition blank_before (m : bytes) (line : Z) (k : nat) (c : Z) : option bool :=
  white ← strchr (ptr m line) c;
  Some (match white with Some w => (w <? k)%nat | None => false end).

Definition process_header_line (c : MHD_Connection) (line : Z) : option (bool * MHD_Connection) :=
  let m := memory (pool c) in
  col ← strchr (ptr m line) 58;
  match col with
  | None => Some (false, connection_close_error (notify d) c)
  | Some k =>
      refused ← (if strict_for_client d <=? -1 then
                   sp ← blank_before m line k 32;
                   if (sp : bool) then Some true else blank_before m line k 9
                 else Some false);
      if (refused : bool) then Some (false, c)
      else
        let col := line + Z.of_nat k in
        m ← mem_write m col [0];
        skip ← scan_string (λ ch, negb (is_blank ch)) (ptr m (col + 1));
        Some (true, set_last_colon (set_pool c (with_memory (pool c) m)) line (col + 1 + Z.of_nat skip))
  end.

Definition set_last (c : MHD_Connection) (l : Z) : MHD_Connection :=
  let r := req c in
  set_req c (mkRequest (method r) (url r) (version r) (Some l) (colon r) (headers_received r)).

(** The continuation of a value. *)
Definition continue_line (c : MHD_Connection) (lst line : Z) : option (bool * MHD_Connection) :=
  let m := memory (pool c) in
  last_len ← strlen (ptr m lst);
  skip ← scan_string (λ ch, negb (is_blank ch)) (ptr m line);
  let tmp := line + Z.of_nat skip in
  tmp_len ← strlen (ptr m tmp);
  '(l, p) ← MHD_pool_reallocate (pool c) (Some lst) (Z.of_nat last_len + 1) (Z.of_nat last_len + Z.of_nat tmp_len + 1);
  let c := set_pool c p in
  match l with
  | None => Some (false, transmit_error_response c 431)
  | Some l =>
      m ← memmove (memory p) (l + Z.of_nat last_len) tmp (Z.of_nat tmp_len + 1);
      Some (true, set_last (set_pool c (with_memory p m)) l)
  end.

Definition process_broken_line (c : MHD_Connection) (line : Z) (k : Z) : option (bool * MHD_Connection) :=
  lst ← last (req c);
  ch ← byte_at (memory (pool c)) line;
  if is_blank ch then continue_line c lst line
  else
    col ← colon (req c);
    let '(ok, c) := connection_add_header c (Pool lst) (Some (Pool col)) k in
    if negb ok then Some (false, transmit_error_response c 431)
    else if ch =? 0 then Some (true, c)
    else
      '(ok, c) ← process_header_line c line;
      if (ok : bool) then Some (true, c) else Some (false, transmit_error_response c 400).

(** ** Cookies *)

(** Blanks at the end of a key, backwards from [ekill]; the bound is the
    distance to [pos]. *)
Fixpoint kill_spaces (fuel : nat) (m : bytes) (ekill pos : Z) : option bytes :=
  ch ← byte_at m ekill;
  if (ch =? 32) && (pos <=? ekill) then
    match fuel with
    | O => None
    | S fuel' => m ← mem_write m ekill [0]; kill_spaces fuel' m (ekill - 1) pos
    end
  else Some m.

(** The end of a value: a separator outside quotes, or the terminator. *)
Fixpoint scan_value (quotes : bool) (p : bytes) : option nat :=
  match p with
  | [] => None
  | ch :: p' =>
      if negb (ch =? 0) && (quotes || negb ((ch =? 59) || (ch =? 44)))
      then n ← scan_value (if ch =? 34 then negb quotes else quotes) p'; Some (S n)
      else Some O
  end.

(** A value in quotes loses them. *)
Definition remove_quotes (m : bytes) (equals : Z) : option (bytes * Z) :=
  ch ← byte_at m equals;
  if ch =? 34 then
    n ← strlen (ptr m equals);
    l ← byte_at m (equals + Z.of_nat n - 1);
    if l =? 34 then m ← mem_write m (equals + Z.of_nat n - 1) [0]; Some (m, equals + 1)
    else Some (m, equals)
  else Some (m, equals).

Definition ends_key (ch : Z) : bool := (ch =? 0) || (ch =? 44) || (ch =? 59) || (ch =? 61).

Definition with_mem (c : MHD_Connection) (m : bytes) : MHD_Connection := set_pool c (with_memory (pool c) m).

(** One cookie at [pos]: the connection after it was stored and the place of
    the next one, [None] when this was the last; the first component is false
    when the record could not be stored. *)
Definition parse_cookie (c : MHD_Connection) (pos : Z) : option (bool * MHD_Connection * option Z) :=
  let m := memory (pool c) in
  sp ← scan_string (λ ch, negb (ch =? 32)) (ptr m pos);
  let pos := pos + Z.of_nat sp in
  k ← scan_string ends_key (ptr m pos);
  let sce := pos + Z.of_nat k in
  m ← kill_spaces k m (sce - 1) pos;
  old ← byte_at m sce;
  m ← mem_write m sce [0];
  if negb (old =? 61) then
    let '(ok, c) := connection_add_header (with_mem c m) (Pool pos) (Some (Static [])) MHD_COOKIE_KIND in
    Some (ok, c, if old =? 0 then None else Some (sce + 1))
  else
    let equals := sce + 1 in
    n ← scan_value false (ptr m equals);
    let semicolon := equals + Z.of_nat n in
    s ← byte_at m semicolon;
    m ← (if s =? 0 then Some m else mem_write m semicolon [0]);
    '(m, equals) ← remove_quotes m equals;
    let '(ok, c) := connection_add_header (with_mem c m) (Pool pos) (Some (Pool equals)) MHD_COOKIE_KIND in
    Some (ok, c, if s =? 0 then None else Some (semicolon + 1)).

Fixpoint cookie_loop (fuel : nat) (c : MHD_Connection) (pos : Z) : option (bool * MHD_Connection) :=
  match fuel with
  | O => None
  | S fuel' =>
      '(ok, c, next) ← parse_cookie c pos;
      if negb ok then Some (false, c)
      else match next with Some pos => cookie_loop fuel' c pos | None => Some (true, c) end
  end.

Definition parse_cookie_header (c : MHD_Connection) : option (bool * MHD_Connection) :=
  l ← resolve_all (memory (pool c)) (headers_received (req c));
  hdr ← MHD_lookup_connection_value (Some l) MHD_HEADER_KIND (Some (str "Cookie"));
  match hdr with
  | None => Some (true, c)
  | Some hdr =>
      match MHD_pool_allocate (pool c) (Z.of_nat (length hdr) + 1) true with
      | (None, p) => Some (false, transmit_error_response (set_pool c p) 431)
      | (Some cpy, p) =>
          m ← mem_write (memory p) cpy (hdr ++ [0]);
          cookie_loop (S (length hdr)) (set_pool c (with_memory p m)) cpy
      end
  end.

(** ** The request line *)

(** [while ((' ' == p[0]) == blank && (p > low)) p--;] *)
Fixpoint back_while (blank : bool) (fuel : nat) (m : bytes) (p low : Z) : option Z :=
  ch ← byte_at m p;
  if Bool.eqb (ch =? 32) blank && (low <? p) then
    match fuel with
    | O => None
    | S fuel' => back_while blank fuel' m (p - 1) low
    end
  else Some p.

(** [while ((' ' == uri[0]) && ((size_t)(uri - line) < line_len)) uri++;] *)
Fixpoint skip_to_uri (left : nat) (m : bytes) (uri : Z) : option Z :=
  ch ← byte_at m uri;
  match left with
  | O => Some uri
  | S left' => if ch =? 32 then skip_to_uri left' m (uri + 1) else Some uri
  end.

(** The version, the length of the URI, and the terminator in front of the
    version. *)
Definition split_version (m : bytes) (line uri line_len : Z) : option (bytes * char_ptr * Z) :=
  let fuel := Z.to_nat line_len in
  hv ← back_while true fuel m (line + line_len - 1) uri;
  hv ← back_while false fuel m hv uri;
  if uri <? hv then m ← mem_write m hv [0]; Some (m, Pool (hv + 1), hv - uri)
  else Some (m, Static [], line_len - (uri - line)).

Definition set_url (c : MHD_Connection) (u : char_ptr) : MHD_Connection :=
  let r := req c in
  set_req c (mkRequest (method r) (Some u) (version r) (last r) (colon r) (headers_received r)).

Definition set_method (c : MHD_Connection) (mth : char_ptr) : MHD_Connection :=
  let r := req c in
  set_req c (mkRequest (Some mth) (url r) (version r) (last r) (colon r) (headers_received r)).

(** Arguments and URI, after the line has been cut. *)
Definition finish_line (c : MHD_Connection) (uri : Z) (args : option Z) : option MHD_Connection :=
  let m := memory (pool c) in
  '(m, c) ← match args with
            | None => Some (m, c)
            | Some a =>
                m ← mem_write m a [0];
                '(m, c, _, _) ← MHD_parse_arguments_ (unescape_callback d)
                  (λ c _ k v, let '(ok, c) := connection_add_header c (Pool (Z.of_nat k))
                                                ((λ v, Pool (Z.of_nat v)) <$> v) MHD_GET_ARGUMENT_KIND in (c, ok))
                  m (Some (Z.to_nat (a + 1))) c;
                Some (m, c)
            end;
  '(m, _) ← unescape_callback d m (Z.to_nat uri);
  Some (with_mem c m).

Definition parse_initial_message_line (c : MHD_Connection) (line line_len : Z) : option (bool * MHD_Connection) :=
  let m := memory (pool c) in
  sp ← memchr m line 32 line_len;
  match sp with
  | None => Some (false, c)
  | Some sp =>
      m ← mem_write m (line + Z.of_nat sp) [0];
      let c := set_method (with_mem c m) (Pool line) in
      let uri := line + Z.of_nat sp + 1 in
      uri ← skip_to_uri (Z.to_nat (line_len - (uri - line))) m uri;
      let logged c := if has_uri_log d then set_aware c true else c in
      if uri - line =? line_len then
        Some (true, set_url (logged (set_version c (Some (Static [])))) (Static []))
      else
        '(m, ver, uri_len) ← split_version m line uri line_len;
        let c := set_version (with_mem c m) (Some ver) in
        space ← (if 1 <=? strict_for_client d then memchr m uri 32 uri_len else Some None);
        match space with
        | Some _ => Some (false, c)
        | None =>
            args ← memchr m uri 63 uri_len;
            c ← finish_line (logged c) uri ((λ a, uri + Z.of_nat a) <$> args);
            Some (true, set_url c (Pool uri))
        end
  end.

(** ** What the headers say *)

Definition header_value_of (c : MHD_Connection) (name : bytes) : option (option bytes) :=
  l ← resolve_all (memory (pool c)) (headers_received (req c));
  MHD_lookup_connection_value (Some l) MHD_HEADER_KIND (Some name).

Definition version_is (c : MHD_Connection) (v : bytes) : option bool :=
  match version (req c) with
  | None => Some false
  | Some p => s ← chars (memory (pool c)) p; MHD_str_equal_caseless_ (cstr v) (cstr s)
  end.

(** A request for HTTP/1.1 that names no host, at a strict daemon. *)
Definition lacks_host (c : MHD_Connection) : option bool :=
  if 1 <=? strict_for_client d then
    v ← version_is c (str "HTTP/1.1");
    if (v : bool) then h ← header_value_of c (str "Host"); Some (match h with None => true | Some _ => false end)
    else Some false
  else Some false.

Definition refuse_without_host (c : MHD_Connection) : MHD_Connection :=
  let c := set_read_closed (set_state c MHD_CONNECTION_FOOTERS_RECEIVED) true in
  if negb (response_created env) then connection_close_error (notify d) c
  else if negb (response_queued env) then connection_close_error (notify d) c
  else set_response c (Some 400).

Definition set_remaining (c : MHD_Connection) (chunked_ : bool) (n : Z) : MHD_Connection :=
  set_up c (mkUpload (chunked_ || have_chunked_upload (up c)) n (current_chunk_size (up c)) (current_chunk_offset (up c))).

Definition body_size (c : MHD_Connection) : option MHD_Connection :=
  let c := set_remaining c false 0 in
  enc ← header_value_of c (str "Transfer-Encoding");
  match enc with
  | Some enc =>
      ch ← MHD_str_equal_caseless_ (cstr enc) (cstr (str "chunked"));
      Some (set_remaining c ch MHD_SIZE_UNKNOWN)
  | None =>
      clen ← header_value_of c (str "Content-Length");
      match clen with
      | None => Some c
      | Some clen =>
          '(n, v) ← MHD_str_to_uint64_ (Some (cstr clen)) (Some 0);
          v ← v;
          e ← deref_at (cstr clen) n;
          if (n =? 0)%nat || negb (e =? 0) then Some (connection_close_error (notify d) (set_remaining c false 0))
          else Some (set_remaining c false v)
      end
  end.

Definition parse_connection_headers (c : MHD_Connection) : option MHD_Connection :=
  '(_, c) ← parse_cookie_header c;
  no_host ← lacks_host c;
  if (no_host : bool) then Some (refuse_without_host c) else body_size c.

(** [written] is [continue_message_write_offset]; the message has 25
    characters. *)
Definition need_100_continue (c : MHD_Connection) (written : Z) : option bool :=
  match response c with
  | Some _ => Some false
  | None =>
      v ← version_is c (str "HTTP/1.1");
      if (v : bool) then
        e ← header_value_of c (str "Expect");
        match e with
        | None => Some false
        | Some e =>
            eq ← MHD_str_equal_caseless_ (cstr e) (cstr (str "100-continue"));
            Some ((eq : bool) && (written <? 25))
        end
      else Some false
  end.

(** ** The states that read the head

    Each case of [MHD_connection_handle_idle] yields the connection and
    whether the loop over the states goes on. *)

(** No line: closed in the meantime, closed by the peer, or incomplete. *)
Definition no_line (c : MHD_Connection) (expected : conn_state) : bool * MHD_Connection :=
  if negb (bool_decide (state c = expected)) then (true, c)
  else if read_closed c then (true, connection_close_error (notify d) c)
  else (false, c).

Definition idle_init (c : MHD_Connection) : option (bool * MHD_Connection) :=
  '(line, line_len, c) ← get_next_header_line c;
  match line with
  | None => Some (no_line c MHD_CONNECTION_INIT)
  | Some line =>
      ch ← byte_at (memory (pool c)) line;
      if ch =? 0 then Some (no_line c MHD_CONNECTION_INIT)
      else
        '(ok, c) ← parse_initial_message_line c line line_len;
        Some (true, if (ok : bool) then set_state c MHD_CONNECTION_URL_RECEIVED
                    else connection_close_error (notify d) c)
  end.

(** The first line of the headers ([MHD_CONNECTION_URL_RECEIVED]) or of the
    footers ([MHD_CONNECTION_BODY_RECEIVED]). *)
Definition idle_first_line (here part done_ : conn_state) (c : MHD_Connection) : option (bool * MHD_Connection) :=
  '(line, _, c) ← get_next_header_line c;
  match line with
  | None => Some (no_line c here)
  | Some line =>
      ch ← byte_at (memory (pool c)) line;
      if ch =? 0 then Some (true, set_state c done_)
      else
        '(ok, c) ← process_header_line c line;
        if (ok : bool) then Some (true, set_state c part)
        else Some (false, transmit_error_response c 400)
  end.

(** The lines after the first. *)
Definition idle_next_line (here done_ : conn_state) (k : Z) (c : MHD_Connection) : option (bool * MHD_Connection) :=
  '(line, _, c) ← get_next_header_line c;
  match line with
  | None => Some (no_line c here)
  | Some line =>
      '(ok, c) ← process_broken_line c line k;
      if negb ok then Some (true, c)
      else
        ch ← byte_at (memory (pool c)) line;
        Some (true, if ch =? 0 then set_state c done_ else c)
  end.

Definition idle_url_received := idle_first_line MHD_CONNECTION_URL_RECEIVED MHD_CONNECTION_HEADER_PART_RECEIVED
  MHD_CONNECTION_HEADERS_RECEIVED.

Definition idle_header_part := idle_next_line MHD_CONNECTION_HEADER_PART_RECEIVED MHD_CONNECTION_HEADERS_RECEIVED
  MHD_HEADER_KIND.

Definition idle_body_received := idle_first_line MHD_CONNECTION_BODY_RECEIVED MHD_CONNECTION_FOOTER_PART_RECEIVED
  MHD_CONNECTION_FOOTERS_RECEIVED.

Definition idle_footer_part := idle_next_line MHD_CONNECTION_FOOTER_PART_RECEIVED MHD_CONNECTION_FOOTERS_RECEIVED
  MHD_FOOTER_KIND.

Definition idle_headers_received (c : MHD_Connection) : option (bool * MHD_Connection) :=
  c ← parse_connection_headers c;
  Some (true, if bool_decide (state c = MHD_CONNECTION_CLOSED) then c
              else set_state c MHD_CONNECTION_HEADERS_PROCESSED).

(** One round of the loop over the states, as far as the head and the footers
    of a request go. *)
Definition idle_step (c : MHD_Connection) : option (bool * MHD_Connection) :=
  match state c with
  | MHD_CONNECTION_INIT => idle_init c
  | MHD_CONNECTION_URL_RECEIVED => idle_url_received c
  | MHD_CONNECTION_HEADER_PART_RECEIVED => idle_header_part c
  | MHD_CONNECTION_HEADERS_RECEIVED => idle_headers_received c
  | MHD_CONNECTION_BODY_RECEIVED => idle_body_received c
  | MHD_CONNECTION_FOOTER_PART_RECEIVED => idle_footer_part c
  | _ => Some (false, c)
  end.

Fixpoint idle_loop (fuel : nat) (c : MHD_Connection) : option MHD_Connection :=
  match fuel with
  | O => None
  | S fuel' => '(go_on, c) ← idle_step c; if (go_on : bool) then idle_loop fuel' c else Some c
  end.
End Head.
