(* ===== verification/HeaderBlock.v ===== *)
(** * Correctness of the request head

    Specifications of [RequestHead]: a line is cut out of the buffer at its
    end and terminated in place; a block of header lines becomes the list of
    its names and values; the headers determine the size of the body. *)

From S2P Require Import Prelude MhdStr MemoryPool Internal Headers Connection RequestHead.

(** ** Cutting a line *)

Lemma scan_run f left l c r :
  Forall (λ c, f c = false) l -> (length l <= left)%nat -> f c = true \/ length l = left ->
  scan f left (l ++ c :: r) = Some (length l).
Proof.
  intros Hl. revert left. induction Hl as [|x l Hx Hl IH]; intros left Hle Hc; cbn [length] in *.
  - destruct left as [|left]; [done|]. destruct Hc as [Hc|Hc]; [|lia]. cbn. by rewrite Hc.
  - destruct left as [|left]; [lia|]. cbn. rewrite Hx. rewrite IH; [done|lia|]. destruct Hc; [by left|right; lia].
Qed.

Lemma byte_at_app (p : bytes) c r k : k = Z.of_nat (length p) -> byte_at (p ++ c :: r) k = Some c.
Proof.
  intros ->. unfold byte_at. destruct (Z.ltb_spec (Z.of_nat (length p)) 0); [lia|].
  by rewrite Nat2Z.id, list_lookup_middle.
Qed.

Lemma byte_at_app2 (p : bytes) a c r k : k = Z.of_nat (length p) + 1 -> byte_at (p ++ a :: c :: r) k = Some c.
Proof.
  intros ->. replace (p ++ a :: c :: r) with ((p ++ [a]) ++ c :: r) by (by rewrite <- app_assoc).
  apply byte_at_app. rewrite length_app. cbn [length]. lia.
Qed.

Lemma write_at (p : bytes) x r y k : k = Z.of_nat (length p) -> mem_write (p ++ x :: r) k [y] = Some (p ++ y :: r).
Proof. intros. by apply (mem_write_mid p [x] r [y]). Qed.

Lemma write_at2 (p : bytes) a x r y k :
  k = Z.of_nat (length p) + 1 -> mem_write (p ++ a :: x :: r) k [y] = Some (p ++ a :: y :: r).
Proof.
  intros ->. replace (p ++ a :: x :: r) with ((p ++ [a]) ++ x :: r) by (by rewrite <- app_assoc).
  rewrite write_at by (rewrite length_app; cbn [length]; lia). by rewrite <- app_assoc.
Qed.

Lemma ptr_app (p r : bytes) k : k = Z.of_nat (length p) -> ptr (p ++ r) k = r.
Proof. intros ->. unfold ptr. by rewrite Nat2Z.id, drop_app_length. Qed.

(** The ends of a line: CR LF, LF, or a CR that is followed by another
    character. *)
Definition eol_ok (eol rest : bytes) : Prop :=
  eol = [13; 10] \/ eol = [10] \/ (eol = [13] /\ match rest with [] => False | c :: _ => c ≠ 10 end).

Definition no_eol (l : bytes) : Prop := Forall (λ c, is_eol c = false) l.

(** The connection after [n] bytes at the front of its buffer were used and
    its memory changed to [m]. *)
Definition advanced (c : MHD_Connection) (m : bytes) (base n : nat) : MHD_Connection :=
  set_read (set_pool c (with_memory (pool c) m)) (Some (Z.of_nat base + Z.of_nat n))
    (read_buffer_size c - Z.of_nat n) (read_buffer_offset c - Z.of_nat n).

Section Lines.
Context `{Platform} (d : daemon_config) (env : reply_env).

Lemma line_cut c pre l eol rest post :
  memory (pool c) = pre ++ (l ++ eol ++ rest) ++ post -> read_buffer c = Some (Z.of_nat (length pre)) ->
  read_buffer_offset c = Z.of_nat (length (l ++ eol ++ rest)) -> no_eol l -> eol_ok eol rest ->
  get_next_header_line d env c
  = Some (Some (Z.of_nat (length pre)), Z.of_nat (length l),
      advanced c (pre ++ l ++ replicate (length eol) 0 ++ rest ++ post) (length pre) (length l + length eol)).
Proof.
  intros Em Eb Eo Hl He. unfold get_next_header_line. rewrite !length_app in Eo.
  assert (0 < length eol)%nat as Hn by (destruct He as [->|[->|[-> _]]]; cbn; lia).
  destruct (Z.eqb_spec (read_buffer_offset c) 0); [lia|]. rewrite Eb. cbn [mbind option_bind].
  rewrite Em, <- !app_assoc, ptr_app by done. rewrite Eo.
  assert (∃ ch t, eol ++ rest ++ post = ch :: t /\ is_eol ch = true) as (ch & t & Et & Hch)
    by (destruct He as [->|[->|[-> _]]]; cbn; eauto).
  rewrite Et, scan_run by (done || lia || by left). cbn [mbind option_bind]. rewrite <- Et.
  rewrite !(app_assoc pre l). set (q := pre ++ l).
  assert (Z.of_nat (length pre) + Z.of_nat (length l) = Z.of_nat (length q)) as Eq
    by (unfold q; rewrite length_app; lia). rewrite Eq.
  assert (forall k, Z.of_nat (length pre) + (Z.of_nat (length l) + k) = Z.of_nat (length q) + k) as Eq' by lia.
  unfold advanced. destruct He as [->|[->|[-> Hr]]]; cbn [app]; cbn [length] in Eo;
    rewrite (byte_at_app q _ _ (Z.of_nat (length q))) by done; cbn [mbind option_bind length];
    rewrite ?andb_false_r, ?andb_true_r.
  - destruct (Z.eqb_spec (Z.of_nat (length l)) (Z.of_nat (length l + (2 + length rest)) - 1)); [lia|]. cbn [andb].
    rewrite byte_at_app2 by done. cbn [mbind option_bind]. change (13 =? 13) with true. change (10 =? 10) with true. cbn match.
    rewrite write_at by done. cbn [mbind option_bind]. rewrite Eq', write_at2 by done. cbn [mbind option_bind replicate app].
    do 2 f_equal; repeat (f_equal; try lia).
  - change (10 =? 13) with false. change (10 =? 10) with true. cbn [negb]. rewrite ?andb_false_r. cbn [mbind option_bind].
    rewrite Eq, write_at by done. cbn [mbind option_bind replicate app].
    do 2 f_equal; repeat (f_equal; try lia).
  - destruct rest as [|c2 rest]; [done|]. cbn [app length] in *.
    destruct (Z.eqb_spec (Z.of_nat (length l)) (Z.of_nat (length l + (1 + S (length rest))) - 1)); [lia|]. cbn [andb].
    rewrite byte_at_app2 by done. cbn [mbind option_bind]. change (13 =? 13) with true.
    destruct (Z.eqb_spec c2 10); [done|]. cbn [mbind option_bind]. rewrite Eq, write_at by done.
    cbn [mbind option_bind replicate app]. do 2 f_equal; repeat (f_equal; try lia).
Qed.

(** Without the end of the line nothing happens while the buffer has room. *)
Lemma line_incomplete c pre l cr post :
  memory (pool c) = pre ++ (l ++ cr) ++ post -> read_buffer c = Some (Z.of_nat (length pre)) ->
  read_buffer_offset c = Z.of_nat (length (l ++ cr)) -> no_eol l -> cr = [] \/ cr = [13] -> l ++ cr ≠ [] ->
  read_buffer_offset c < read_buffer_size c ->
  get_next_header_line d env c = Some (None, 0, c).
Proof.
  intros Em Eb Eo Hl Hcr Hne Hroom. unfold get_next_header_line.
  assert (∃ b ch, l ++ cr = b ++ [ch] /\ no_eol b /\ ch ≠ 10) as (b & ch & E & Hb & Hch).
  { destruct Hcr as [-> | ->]; [|by exists l, 13]. rewrite app_nil_r in *. destruct (exists_last Hne) as (b & ch & ->).
    apply Forall_app in Hl as [Hb Hch]. apply Forall_cons in Hch as [Hch _]. exists b, ch. split_and!; [done..|].
    intros ->. by cbn in Hch. }
  rewrite E in *. rewrite length_app in Eo. cbn [length] in Eo. rewrite Eo in Hroom |- *.
  destruct (Z.eqb_spec (Z.of_nat (length b + 1)) 0); [lia|]. rewrite Eb. cbn [mbind option_bind].
  rewrite Em, <- !app_assoc, ptr_app by done. cbn [app].
  rewrite scan_run by (done || lia || (right; lia)). cbn [mbind option_bind].
  rewrite (app_assoc pre b), (byte_at_app (pre ++ b) _ _ (Z.of_nat (length pre) + Z.of_nat (length b)))
    by (rewrite length_app; lia). cbn [mbind option_bind].
  destruct (Z.eqb_spec (Z.of_nat (length b)) (Z.of_nat (length b + 1) - 1)); [|lia].
  destruct (Z.eqb_spec ch 10); [done|]. cbn [negb andb].
  destruct (Z.eqb_spec (Z.of_nat (length b + 1)) (read_buffer_size c)); [lia|done].
Qed.

(** ** One header line *)

Lemma scan_string_run f l c r :
  Forall (λ c, f c = false) l -> f c = true -> scan_string f (l ++ c :: r) = Some (length l).
Proof.
  intros Hl Hc. unfold scan_string. rewrite scan_run; [|done|rewrite length_app; lia|by left].
  cbn [mbind option_bind]. destruct (Nat.ltb_spec (length l) (length (l ++ c :: r))) as [|Hlt]; [done|].
  rewrite length_app in Hlt. cbn [length] in Hlt. lia.
Qed.

(** A name without blanks, a value that does not begin with one, and the end
    of the line. *)
Definition newline (eol : bytes) : Prop := eol = [13; 10] \/ eol = [10].

Record field := mkField { f_name : bytes; f_blank : bytes; f_value : bytes; f_eol : bytes }.

Definition field_ok (f : field) : Prop :=
  f_name f ≠ [] /\ no_nul (f_name f) /\ no_eol (f_name f)
  /\ 58 ∉ f_name f /\ Forall (λ c, is_blank c = false) (f_name f)
  /\ Forall (λ c, is_blank c = true) (f_blank f)
  /\ no_nul (f_value f) /\ no_eol (f_value f) /\ match f_value f with [] => True | c :: _ => is_blank c = false end
  /\ newline (f_eol f).

Definition field_text (f : field) : bytes := f_name f ++ 58 :: f_blank f ++ f_value f.

Lemma blank_before_no pre f r c :
  field_ok f -> is_blank c = true ->
  blank_before (pre ++ f_name f ++ 58 :: f_blank f ++ f_value f ++ 0 :: r) (Z.of_nat (length pre)) (length (f_name f)) c
  = Some false.
Proof.
  intros (_ & Hn & _ & _ & Hb & Hbl & Hv & _) Hc. unfold blank_before. rewrite ptr_app by done.
  assert (c ∉ f_name f) as Hnc by (intros Hin; rewrite Forall_forall in Hb; specialize (Hb c Hin); congruence).
  assert (no_nul (58 :: f_blank f ++ f_value f)) as Hnn.
  { apply no_nul_cons. split; [done|]. apply Forall_app. split; [|done]. eapply Forall_impl; [exact Hbl|].
    intros x Hx ->. done. }
  rewrite strchr_skip by done.
  assert (c ≠ 0) as H0 by (by intros ->).
  destruct (strchr_total (58 :: f_blank f ++ f_value f) r c Hnn H0) as [o Eo].
  rewrite <- !app_comm_cons, <- app_assoc in Eo. rewrite Eo. cbn [mbind option_bind].
  destruct o as [k|]; [|done]. cbn [option_map].
  destruct (Nat.ltb_spec (length (f_name f) + k) (length (f_name f))); [lia|done].
Qed.

Lemma process_header_line_ok c pre f r :
  memory (pool c) = pre ++ field_text f ++ 0 :: r -> field_ok f ->
  process_header_line d c (Z.of_nat (length pre))
  = Some (true, set_last_colon (set_pool c (with_memory (pool c) (pre ++ f_name f ++ 0 :: f_blank f ++ f_value f ++ 0 :: r)))
                  (Z.of_nat (length pre)) (Z.of_nat (length pre + length (f_name f) + 1 + length (f_blank f)))).
Proof.
  intros Em Hf. pose proof Hf as (_ & Hn & _ & Hc & _ & Hbl & Hv & _ & Hv0 & _). unfold process_header_line.
  assert (field_text f ++ 0 :: r = f_name f ++ 58 :: f_blank f ++ f_value f ++ 0 :: r) as Et
    by (unfold field_text; by rewrite <- app_assoc, <- app_comm_cons, <- app_assoc).
  rewrite Em, Et, ptr_app by done. rewrite strchr_present by done. cbn [mbind option_bind].
  assert ((if strict_for_client d <=? -1 then
             sp ← blank_before (pre ++ f_name f ++ 58 :: f_blank f ++ f_value f ++ 0 :: r) (Z.of_nat (length pre)) (length (f_name f)) 32;
             if (sp : bool) then Some true
             else blank_before (pre ++ f_name f ++ 58 :: f_blank f ++ f_value f ++ 0 :: r) (Z.of_nat (length pre)) (length (f_name f)) 9
           else Some false) = Some false) as ->.
  { rewrite !blank_before_no by done. by destruct (strict_for_client d <=? -1). }
  cbn [mbind option_bind]. rewrite (app_assoc pre), write_at by (rewrite length_app; lia). cbn [mbind option_bind].
  rewrite <- (app_assoc pre).
  assert (ptr (pre ++ f_name f ++ 0 :: f_blank f ++ f_value f ++ 0 :: r)
              (Z.of_nat (length pre) + Z.of_nat (length (f_name f)) + 1) = f_blank f ++ f_value f ++ 0 :: r) as ->.
  { replace (pre ++ f_name f ++ 0 :: f_blank f ++ f_value f ++ 0 :: r)
      with ((pre ++ f_name f ++ [0]) ++ f_blank f ++ f_value f ++ 0 :: r) by (by rewrite <- !app_assoc).
    apply ptr_app. rewrite !length_app. cbn [length]. lia. }
  assert (∃ ch t, f_value f ++ 0 :: r = ch :: t /\ is_blank ch = false) as (ch & t & Ev & Hch)
    by (destruct (f_value f); cbn; eauto).
  rewrite Ev, scan_string_run; [|eapply Forall_impl; [exact Hbl|]; intros x Hx; by rewrite Hx|by rewrite Hch].
  cbn [mbind option_bind]. rewrite <- Ev. do 3 f_equal. lia.
Qed.

(** ** A block of header lines *)

(** The record [r] leads to the given name and value in [m]. *)
Definition record_ok (m : bytes) (r : header_ref) (e : bytes * option bytes * Z) : Prop :=
  ∃ (i : nat) (j : option nat),
    r = mkRef (Pool (Z.of_nat i)) ((λ v, Pool (Z.of_nat v)) <$> j) e.2 /\ entry_ok m (i, j) e.1.

Lemma record_ok_app m x r e : record_ok m r e -> record_ok (m ++ x) r e.
Proof. intros (i & j & -> & He). exists i, j. split; [done|]. by apply entry_ok_app. Qed.

(** The buffer holds [b] at the end of the used part [pre] of the pool. *)
Definition at_buffer (c : MHD_Connection) (pre b post : bytes) : Prop :=
  memory (pool c) = pre ++ b ++ post /\ read_buffer c = Some (Z.of_nat (length pre))
  /\ read_buffer_offset c = Z.of_nat (length b) /\ pool_inv (pool c).

(** Room for [n] header records. *)
Definition room (p : MemoryPool) (n : nat) : Prop := Z.of_nat n * sizeof_header <= end_ p - pos p.

Lemma add_header_ok c key val k n :
  pool_inv (pool c) -> room (pool c) (S n) ->
  ∃ p, connection_add_header d env c key val k = (true, add_header (set_pool c p) (mkRef key val k))
    /\ pool_inv p /\ memory p = memory (pool c) /\ room p n /\ pos p = pos (pool c) /\ size p = size (pool c).
Proof.
  intros Hp Hr. unfold connection_add_header. pose proof Hp as (Hlen & Hpos & Hend & Hsz & Hal).
  assert (ROUND_TO_ALIGN sizeof_header = sizeof_header /\ 0 < sizeof_header <= 32 /\ 64 + ALIGN_SIZE <= SIZE_MAX) as (Er & Hs & Hm).
  { unfold ROUND_TO_ALIGN, sizeof_header, ALIGN_SIZE, SIZE_MAX, usize, SIZE_BITS.
    destruct sizeof_ptr_ok as [-> | ->]; by vm_compute. }
  pose proof ALIGN_SIZE_pos.
  assert (fits (pool c) sizeof_header) as Hf by (unfold fits, room in *; rewrite Er; nia).
  destruct (allocate_cases (pool c) sizeof_header true Hp) as [[_ ->]|[? _]]; [lia| |done].
  rewrite Er. eexists. split; [done|]. unfold room in *. split_and!; cbn [memory end_ pos size]; try done; try nia.
  split_and!; cbn [memory end_ pos size]; done || nia.
Qed.

Lemma pool_inv_memory p m : pool_inv p -> length m = length (memory p) -> pool_inv (with_memory p m).
Proof. intros (Hlen & H1) Hm. split; [cbn; by rewrite Hm|done]. Qed.

(** What reading header lines leaves as it is: the request line, and
    everything that is neither a part of the request nor of the buffer; header
    records come from the end of the pool. *)
Definition keeps (c c' : MHD_Connection) : Prop :=
  method (req c') = method (req c) /\ url (req c') = url (req c) /\ version (req c') = version (req c)
  /\ response c' = response c /\ read_closed c' = read_closed c /\ up c' = up c /\ completed c' = completed c
  /\ pos (pool c') = pos (pool c) /\ size (pool c') = size (pool c).

#[export] Instance keeps_preorder : PreOrder keeps.
Proof.
  split; [by intros c|]. intros c1 c2 c3 (? & ? & ? & ? & ? & ? & ? & ? & ?) (? & ? & ? & ? & ? & ? & ? & ? & ?). split_and!; congruence.
Qed.

(** Cutting off a line and looking at its first character. *)
Lemma cut_line c pre l eol b post :
  at_buffer c pre (l ++ eol ++ b) post -> no_eol l -> newline eol ->
  ∃ c', get_next_header_line d env c = Some (Some (Z.of_nat (length pre)), Z.of_nat (length l), c')
    /\ at_buffer c' (pre ++ l ++ replicate (length eol) 0) b post
    /\ state c' = state c /\ req c' = req c /\ keeps c c' /\ (forall n, room (pool c) n -> room (pool c') n).
Proof.
  intros (Em & Eb & Eo & Hp) Hl He.
  rewrite (line_cut c pre l eol b post) by (done || (destruct He; [by left|by right; left])).
  eexists. split; [done|]. split; [|done]. unfold advanced. split_and!; cbn.
  - by rewrite <- !app_assoc.
  - f_equal. rewrite !length_app, length_replicate. lia.
  - rewrite Eo, !length_app. lia.
  - apply pool_inv_memory; [done|]. rewrite Em, !length_app, length_replicate. lia.
Qed.

(** The connection knows the line of [f] but has not stored it yet. *)
Definition pending (c : MHD_Connection) (pre : bytes) (f : field) : Prop :=
  ∃ i j : nat, last (req c) = Some (Z.of_nat i) /\ colon (req c) = Some (Z.of_nat j)
    /\ has_string pre i (f_name f) /\ has_string pre j (f_value f).

Definition pre_after (pre : bytes) (f : field) : bytes :=
  pre ++ f_name f ++ 0 :: f_blank f ++ f_value f ++ replicate (length (f_eol f)) 0.

Lemma newline_nonempty eol : newline eol -> ∃ n, length eol = S n.
Proof. by intros [-> | ->]; eexists. Qed.

(** Splitting the line in front of the buffer. *)
Lemma split_line c pre f b post :
  at_buffer c (pre ++ field_text f ++ replicate (length (f_eol f)) 0) b post -> field_ok f ->
  ∃ c', process_header_line d c (Z.of_nat (length pre)) = Some (true, c')
    /\ at_buffer c' (pre_after pre f) b post /\ pending c' (pre_after pre f) f
    /\ state c' = state c /\ headers_received (req c') = headers_received (req c)
    /\ (forall n, room (pool c) n -> room (pool c') n) /\ keeps c c'.
Proof.
  intros (Em & Eb & Eo & Hp) Hf. pose proof Hf as (_ & _ & _ & _ & _ & _ & _ & _ & _ & [n En]%newline_nonempty).
  rewrite (process_header_line_ok c pre f (replicate n 0 ++ b ++ post)).
  2:{ rewrite Em, En. cbn [replicate]. by rewrite <- !app_assoc. }
  2:{ done. }
  eexists. split; [done|]. unfold pre_after. rewrite En. cbn [replicate].
  assert (length (pre ++ f_name f ++ 0 :: f_blank f ++ f_value f ++ 0 :: replicate n 0)
          = length (pre ++ field_text f ++ replicate (length (f_eol f)) 0)) as El.
  { unfold field_text. rewrite En, !length_app. cbn [length]. rewrite !length_app. cbn [length replicate]. lia. }
  split; [split_and!; cbn|].
  - rewrite <- !app_assoc, <- !app_comm_cons, <- !app_assoc. do 4 f_equal.
  - by rewrite Eb, El.
  - done.
  - apply pool_inv_memory; [done|]. rewrite Em, (length_app (pre ++ _ ++ _)), <- El.
    rewrite !length_app. cbn [length]. rewrite !length_app. cbn [length]. rewrite !length_app. lia.
  - split; [|done]. exists (length pre), (length pre + length (f_name f) + 1 + length (f_blank f))%nat. cbn.
    split_and!; [done|done|apply has_string_at|].
    replace (pre ++ f_name f ++ 0 :: f_blank f ++ f_value f ++ 0 :: replicate n 0)
      with ((pre ++ f_name f ++ 0 :: f_blank f) ++ f_value f ++ 0 :: replicate n 0)
      by (by rewrite <- !app_assoc, <- !app_comm_cons).
    replace (length pre + length (f_name f) + 1 + length (f_blank f))%nat
      with (length (pre ++ f_name f ++ 0 :: f_blank f)) by (rewrite !length_app; cbn [length]; lia).
    apply has_string_at.
Qed.

Lemma field_first f : field_ok f -> ∃ ch t, field_text f = ch :: t /\ ch ≠ 0 /\ is_blank ch = false /\ no_eol (field_text f).
Proof.
  intros (Hne & Hn & He & _ & Hb & Hbl & _ & Hev & _). unfold field_text.
  destruct (f_name f) as [|ch t]; [done|]. apply no_nul_cons in Hn as [? _]. exists ch.
  eexists. split; [done|]. split; [done|]. split; [by apply Forall_cons in Hb as [? _]|].
  apply Forall_app. split; [done|]. apply Forall_cons. split; [done|]. apply Forall_app. split; [|done].
  eapply Forall_impl; [exact Hbl|]. intros x Hx. unfold is_blank in Hx. unfold is_eol. revert Hx. bcases; done.
Qed.

Lemma first_byte c pre l b post ch t :
  at_buffer c (pre ++ l) b post -> l = ch :: t -> byte_at (memory (pool c)) (Z.of_nat (length pre)) = Some ch.
Proof. intros (-> & _) ->. rewrite <- app_assoc. by apply byte_at_app. Qed.

(** Storing the pending line. *)
Lemma store_pending c pre q b post f hs k n :
  at_buffer c pre b post -> pending c q f -> Forall2 (record_ok q) (headers_received (req c)) hs ->
  room (pool c) (S n) ->
  ∃ i j c', last (req c) = Some i /\ colon (req c) = Some j
    /\ connection_add_header d env c (Pool i) (Some (Pool j)) k = (true, c')
    /\ at_buffer c' pre b post /\ Forall2 (record_ok q) (headers_received (req c')) (hs ++ [(f_name f, Some (f_value f), k)])
    /\ state c' = state c /\ room (pool c') n /\ keeps c c'.
Proof.
  intros (Em & Eb & Eo & Hp) (i & j & Ei & Ej & Hi & Hj) Hhs Hr. exists (Z.of_nat i), (Z.of_nat j).
  destruct (add_header_ok c (Pool (Z.of_nat i)) (Some (Pool (Z.of_nat j))) k n Hp Hr) as (p & -> & Hp' & Em' & Hr' & Epos & Esz).
  eexists. split; [done|]. split; [done|]. split; [done|]. split; [|split; [cbn|done]].
  { split_and!; try done. cbn. by rewrite Em'. }
  apply Forall2_app; [done|]. constructor; [|constructor]. by exists i, (Some j).
Qed.

(** The state in which a line is pending, and the lines that end it. *)
Section Part.
Context (here done_ : conn_state) (k : Z).

Lemma next_field part c pre f g b post hs n :
  at_buffer c pre (field_text g ++ f_eol g ++ b) post -> field_ok g -> pending c pre f ->
  Forall2 (record_ok pre) (headers_received (req c)) hs -> room (pool c) (S n) ->
  ∃ c', idle_next_line d env part done_ k c = Some (true, c')
    /\ at_buffer c' (pre_after pre g) b post /\ pending c' (pre_after pre g) g
    /\ Forall2 (record_ok (pre_after pre g)) (headers_received (req c')) (hs ++ [(f_name f, Some (f_value f), k)])
    /\ state c' = state c /\ room (pool c') n /\ keeps c c'.
Proof.
  intros Hb Hg Hpe Hhs Hr. destruct (field_first g Hg) as (ch & t & Et & Hch & Hbl & Hne).
  unfold idle_next_line.
  destruct (cut_line c pre (field_text g) (f_eol g) b post Hb Hne) as (c1 & -> & Hb1 & Hst1 & Er1 & Hl1 & Hr1); [apply Hg|].
  cbn [mbind option_bind]. unfold process_broken_line.
  pose proof (first_byte c1 pre (field_text g ++ replicate (length (f_eol g)) 0) b post ch
    (t ++ replicate (length (f_eol g)) 0) Hb1 ltac:(by rewrite Et)) as Efb.
  destruct (store_pending c1 (pre ++ field_text g ++ replicate (length (f_eol g)) 0) pre b post f hs k n)
    as (i & j & c2 & -> & Ej & Eadd & Hb2 & Hhs2 & Hst2 & Hr2 & Hl2); [done| |by rewrite Er1|by apply Hr1|].
  { unfold pending. by rewrite Er1. }
  cbn [mbind option_bind]. rewrite Efb. cbn [mbind option_bind]. rewrite Hbl, Ej. cbn [mbind option_bind].
  rewrite Eadd. cbn [negb]. destruct (Z.eqb_spec ch 0); [done|].
  destruct (split_line c2 pre g b post Hb2 Hg) as (c3 & -> & Hb3 & Hpe3 & Hst3 & Eh3 & Hr3 & Hl3). cbn [mbind option_bind negb].
  assert (byte_at (memory (pool c3)) (Z.of_nat (length pre)) = Some ch) as ->.
  { destruct Hb3 as (-> & _). unfold pre_after. rewrite <- !app_assoc. destruct (f_name g) as [|ch' t'] eqn:En;
      [by destruct Hg|]. unfold field_text in Et. rewrite En in Et. injection Et as -> _. by apply byte_at_app. }
  cbn [mbind option_bind]. destruct (Z.eqb_spec ch 0); [done|]. exists c3. split; [done|]. split; [done|]. split; [done|].
  split; [|split_and!; [by rewrite Hst3, Hst2, Hst1|by apply Hr3|by do 2 (etrans; [done|])]]. rewrite Eh3.
  eapply Forall2_impl; [exact Hhs2|]. intros. by apply record_ok_app.
Qed.

Lemma next_empty part c pre f eol b post hs n :
  at_buffer c pre (eol ++ b) post -> newline eol -> pending c pre f ->
  Forall2 (record_ok pre) (headers_received (req c)) hs -> room (pool c) (S n) ->
  ∃ c', idle_next_line d env part done_ k c = Some (true, c') /\ state c' = done_
    /\ at_buffer c' (pre ++ replicate (length eol) 0) b post
    /\ Forall2 (record_ok (pre ++ replicate (length eol) 0)) (headers_received (req c')) (hs ++ [(f_name f, Some (f_value f), k)])
    /\ keeps c c'.
Proof.
  intros Hb He Hpe Hhs Hr. destruct (newline_nonempty eol He) as [m Em]. unfold idle_next_line.
  destruct (cut_line c pre [] eol b post Hb) as (c1 & -> & Hb1 & Hst1 & Er1 & Hl1 & Hr1); [constructor|done|].
  cbn [mbind option_bind]. unfold process_broken_line. change ([] ++ replicate (length eol) 0) with (replicate (length eol) 0) in Hb1.
  pose proof (first_byte c1 pre _ b post 0 (replicate m 0) Hb1 ltac:(by rewrite Em)) as Efb.
  destruct (store_pending c1 (pre ++ replicate (length eol) 0) pre b post f hs k n)
    as (i & j & c2 & -> & Ej & Eadd & Hb2 & Hhs2 & Hst2 & Hr2 & Hl2); [done| |by rewrite Er1|by apply Hr1|].
  { unfold pending. by rewrite Er1. }
  cbn [mbind option_bind]. rewrite Efb. cbn [mbind option_bind]. change (is_blank 0) with false. rewrite Ej. cbn [mbind option_bind].
  rewrite Eadd. cbn [negb]. change (0 =? 0) with true. cbn [mbind option_bind].
  pose proof (first_byte c2 pre _ b post 0 (replicate m 0) Hb2 ltac:(by rewrite Em)) as ->. cbn [mbind option_bind].
  change (0 =? 0) with true. eexists. split; [done|]. split; [done|]. split; [exact Hb2|].
  split; [|by etrans]. eapply Forall2_impl; [exact Hhs2|]. intros. by apply record_ok_app.
Qed.

Lemma first_field part c pre g b post hs :
  at_buffer c pre (field_text g ++ f_eol g ++ b) post -> field_ok g ->
  Forall2 (record_ok pre) (headers_received (req c)) hs ->
  ∃ c', idle_first_line d env here part done_ c = Some (true, c')
    /\ at_buffer c' (pre_after pre g) b post /\ pending c' (pre_after pre g) g
    /\ Forall2 (record_ok (pre_after pre g)) (headers_received (req c')) hs
    /\ state c' = part /\ (forall n, room (pool c) n -> room (pool c') n) /\ keeps c c'.
Proof.
  intros Hb Hg Hhs. destruct (field_first g Hg) as (ch & t & Et & Hch & Hbl & Hne).
  unfold idle_first_line.
  destruct (cut_line c pre (field_text g) (f_eol g) b post Hb Hne) as (c1 & -> & Hb1 & Hst1 & Er1 & Hl1 & Hr1); [apply Hg|].
  cbn [mbind option_bind].
  pose proof (first_byte c1 pre (field_text g ++ replicate (length (f_eol g)) 0) b post ch
    (t ++ replicate (length (f_eol g)) 0) Hb1 ltac:(by rewrite Et)) as ->.
  cbn [mbind option_bind]. destruct (Z.eqb_spec ch 0); [done|].
  destruct (split_line c1 pre g b post Hb1 Hg) as (c3 & -> & Hb3 & Hpe3 & Hst3 & Eh3 & Hr3 & Hl3). cbn [mbind option_bind].
  eexists. split; [done|]. split; [exact Hb3|]. split; [exact Hpe3|]. split; [|split_and!; [done|intros; by apply Hr3, Hr1|by etrans]].
  cbn. rewrite Eh3, Er1. eapply Forall2_impl; [exact Hhs|]. intros. by apply record_ok_app.
Qed.

Lemma first_empty part c pre eol b post hs :
  at_buffer c pre (eol ++ b) post -> newline eol -> Forall2 (record_ok pre) (headers_received (req c)) hs ->
  ∃ c', idle_first_line d env here part done_ c = Some (true, c') /\ state c' = done_
    /\ at_buffer c' (pre ++ replicate (length eol) 0) b post
    /\ Forall2 (record_ok (pre ++ replicate (length eol) 0)) (headers_received (req c')) hs /\ keeps c c'.
Proof.
  intros Hb He Hhs. destruct (newline_nonempty eol He) as [m Em]. unfold idle_first_line.
  destruct (cut_line c pre [] eol b post Hb) as (c1 & -> & Hb1 & Hst1 & Er1 & Hl1 & Hr1); [constructor|done|].
  cbn [mbind option_bind]. change ([] ++ replicate (length eol) 0) with (replicate (length eol) 0) in Hb1.
  pose proof (first_byte c1 pre _ b post 0 (replicate m 0) Hb1 ltac:(by rewrite Em)) as ->. cbn [mbind option_bind].
  change (0 =? 0) with true. eexists. split; [done|]. split; [done|]. split; [exact Hb1|].
  cbn. rewrite Er1. split; [|done]. eapply Forall2_impl; [exact Hhs|]. intros. by apply record_ok_app.
Qed.

(** The names and values of a block, and its text. *)
Definition entries (fs : list field) : list (bytes * option bytes * Z) := (λ f, (f_name f, Some (f_value f), k)) <$> fs.

Definition block (fs : list field) (eol : bytes) : bytes := concat ((λ f, field_text f ++ f_eol f) <$> fs) ++ eol.

Lemma block_cons f fs eol rest : block (f :: fs) eol ++ rest = field_text f ++ f_eol f ++ block fs eol ++ rest.
Proof. unfold block. cbn [fmap list_fmap concat]. by rewrite <- !app_assoc. Qed.

(** What has been read so far is followed by the rounds that read the rest. *)
Context (part : conn_state).
Context (Hfirst : forall c, state c = here -> idle_step d env c = idle_first_line d env here part done_ c).
Context (Hnext : forall c, state c = part -> idle_step d env c = idle_next_line d env part done_ k c).

Definition round_of (c c' : MHD_Connection) : Prop := idle_step d env c = Some (true, c') /\ keeps c c'.

(** The block has been read. *)
Definition block_read (c0 c : MHD_Connection) (pre rest post : bytes) (l : list (bytes * option bytes * Z)) : Prop :=
  state c = done_ /\ keeps c0 c
  /\ ∃ x, at_buffer c (pre ++ x) rest post /\ Forall2 (record_ok (pre ++ x)) (headers_received (req c)) l.

Lemma block_read_after c0 c1 c pre g rest post l :
  keeps c0 c1 -> block_read c1 c (pre_after pre g) rest post l -> block_read c0 c pre rest post l.
Proof using Type.
  intros Hl (Hst & Hl' & x & Hb & Hf). split; [done|]. split; [by etrans|]. unfold pre_after in *. rewrite <- app_assoc in Hb, Hf.
  by eexists.
Qed.

Lemma block_rest fs f c pre eol rest post hs :
  state c = part -> at_buffer c pre (block fs eol ++ rest) post -> Forall field_ok fs -> newline eol ->
  pending c pre f -> Forall2 (record_ok pre) (headers_received (req c)) hs -> room (pool c) (S (length fs)) ->
  ∃ c', rtc round_of c c' /\ block_read c c' pre rest post (hs ++ entries (f :: fs)).
Proof using Hnext.
  revert f c pre hs. induction fs as [|g fs IH]; intros f c pre hs Hst Hb Hfs He Hpe Hhs Hr.
  - destruct (next_empty part c pre f eol rest post hs 0) as (c' & E & Hst' & Hb' & Hhs' & Hl'); [done..|].
    exists c'. split; [|split_and!; [done..|by exists (replicate (length eol) 0)]].
    apply rtc_once. split; [by rewrite Hnext|done].
  - apply Forall_cons in Hfs as [Hg Hfs]. rewrite block_cons in Hb.
    destruct (next_field part c pre f g (block fs eol ++ rest) post hs (S (length fs)))
      as (c1 & E & Hb1 & Hpe1 & Hhs1 & Hst1 & Hr1 & Hl1); [done..|].
    destruct (IH g c1 (pre_after pre g) (hs ++ [(f_name f, Some (f_value f), k)])) as (c' & Hrtc & Hd); try done; [congruence|].
    exists c'. split; [|rewrite <- app_assoc in Hd; by eapply block_read_after].
    eapply rtc_l; [|done]. split; [by rewrite Hnext|done].
Qed.

Lemma block_ok fs c pre eol rest post hs :
  state c = here -> at_buffer c pre (block fs eol ++ rest) post -> Forall field_ok fs -> newline eol ->
  Forall2 (record_ok pre) (headers_received (req c)) hs -> room (pool c) (length fs) ->
  ∃ c', rtc round_of c c' /\ block_read c c' pre rest post (hs ++ entries fs).
Proof using Hfirst Hnext.
  intros Hst Hb Hfs He Hhs Hr. destruct fs as [|f fs].
  - destruct (first_empty part c pre eol rest post hs) as (c' & E & Hst' & Hb' & Hhs' & Hl'); [done..|].
    exists c'. rewrite app_nil_r. split; [|split_and!; [done..|by exists (replicate (length eol) 0)]].
    apply rtc_once. split; [by rewrite Hfirst|done].
  - apply Forall_cons in Hfs as [Hf Hfs]. rewrite block_cons in Hb.
    destruct (first_field part c pre f (block fs eol ++ rest) post hs) as (c1 & E & Hb1 & Hpe1 & Hhs1 & Hst1 & Hr1 & Hl1); [done..|].
    destruct (block_rest fs f c1 (pre_after pre f) eol rest post hs) as (c' & Hrtc & Hd); try done; [by apply Hr1|].
    exists c'. split; [|by eapply block_read_after]. eapply rtc_l; [|done]. split; [by rewrite Hfirst|done].
Qed.
End Part.
End Lines.

(** ** What the records resolve to *)

Lemma chars_has_string m k s : has_string m k s -> no_nul s -> chars m (Pool (Z.of_nat k)) = Some s.
Proof.
  intros [_ [t E]] Hs. unfold chars, ptr, cstring. rewrite Nat2Z.id, E, strlen_no_nul by done.
  cbn [mbind option_bind]. by rewrite take_app_length.
Qed.

Definition header_of (e : bytes * option bytes * Z) : MHD_HTTP_Header := mkHeader (Some e.1.1) e.1.2 e.2.

Definition entry_wf (e : bytes * option bytes * Z) : Prop := no_nul e.1.1 /\ forall v, e.1.2 = Some v -> no_nul v.

Lemma resolve_all_ok m x rs es :
  Forall2 (record_ok m) rs es -> Forall entry_wf es -> resolve_all (m ++ x) rs = Some (header_of <$> es).
Proof.
  intros Hr Hwf. apply mapM_Some. induction Hr as [|r e rs es (i & j & -> & Hi & Hj) Hr IH]; [constructor|].
  apply Forall_cons in Hwf as [[Hn Hv] Hwf]. constructor; [|by apply IH].
  unfold resolve. cbn [ref_key ref_value ref_kind].
  rewrite (chars_has_string _ i e.1.1) by (done || by apply has_string_app). cbn [mbind option_bind].
  destruct e as [[n [v|]] kd], j as [j|]; try done. cbn [fmap option_fmap option_map fst snd] in *.
  by rewrite (chars_has_string _ j v) by (by apply has_string_app || by apply Hv).
Qed.

(** ** Theorems *)

Section Theorems.
Context `{Platform} (d : daemon_config) (env : reply_env).

(** The whole block, with the records resolved. *)
Lemma header_block_spec (footers : bool) fs c pre eol rest post hs :
  let first := if footers then MHD_CONNECTION_BODY_RECEIVED else MHD_CONNECTION_URL_RECEIVED in
  let after := if footers then MHD_CONNECTION_FOOTERS_RECEIVED else MHD_CONNECTION_HEADERS_RECEIVED in
  let k := if footers then MHD_FOOTER_KIND else MHD_HEADER_KIND in
  state c = first -> at_buffer c pre (block fs eol ++ rest) post -> Forall field_ok fs -> newline eol ->
  Forall2 (record_ok pre) (headers_received (req c)) hs -> Forall entry_wf hs -> room (pool c) (length fs) ->
  ∃ c' x, rtc (round_of d env) c c' /\ state c' = after
    /\ resolve_all (memory (pool c')) (headers_received (req c')) = Some (header_of <$> hs ++ entries k fs)
    /\ at_buffer c' (pre ++ x) rest post /\ keeps c c'.
Proof.
  intros first after k Hst Hb Hfs He Hhs Hwf Hr.
  destruct (block_ok d env first after k
    (if footers then MHD_CONNECTION_FOOTER_PART_RECEIVED else MHD_CONNECTION_HEADER_PART_RECEIVED)) with fs c pre eol rest post hs
    as (c' & Hrtc & Hst' & Hl' & x & Hb' & Hhs'); try done.
  - intros c0 E. unfold idle_step. rewrite E. by destruct footers.
  - intros c0 E. unfold idle_step. rewrite E. by destruct footers.
  - exists c', x. split_and!; try done. destruct Hb' as (-> & _). apply resolve_all_ok; [done|].
    apply Forall_app. split; [done|]. apply Forall_fmap. eapply Forall_impl; [exact Hfs|].
    intros f (_ & ? & _ & _ & _ & _ & ? & _). split; [done|]. by intros v [= <-].
Qed.

Lemma rounds_are_steps c c' : rtc (round_of d env) c c' -> rtc (λ a b, idle_step d env a = Some (true, b)) c c'.
Proof using Type. intros Hr. eapply rtc_congruence with (f := id); [|exact Hr]. by intros ? ? [? _]. Qed.

(** C28: A block of header lines is read correctly: from the state after the
    request line (or, for footers, after the body), with the whole block in
    the buffer and room for its records, the rounds of the state machine end
    in the state that follows the block, the records stored by then lead to
    the earlier entries followed by the names and values of the lines in
    order, under the right kind, and exactly the bytes behind the block are
    left in the buffer.  No line overwrites a name or a value of another. *)
Theorem header_block_read (footers : bool) fs c pre eol rest post hs :
  let first := if footers then MHD_CONNECTION_BODY_RECEIVED else MHD_CONNECTION_URL_RECEIVED in
  let after := if footers then MHD_CONNECTION_FOOTERS_RECEIVED else MHD_CONNECTION_HEADERS_RECEIVED in
  let k := if footers then MHD_FOOTER_KIND else MHD_HEADER_KIND in
  state c = first -> at_buffer c pre (block fs eol ++ rest) post -> Forall field_ok fs -> newline eol ->
  Forall2 (record_ok pre) (headers_received (req c)) hs -> Forall entry_wf hs -> room (pool c) (length fs) ->
  ∃ c' pre', rtc (λ a b, idle_step d env a = Some (true, b)) c c' /\ state c' = after
    /\ resolve_all (memory (pool c')) (headers_received (req c')) = Some (header_of <$> hs ++ entries k fs)
    /\ at_buffer c' pre' rest post.
Proof.
  intros. destruct (header_block_spec footers fs c pre eol rest post hs) as (c' & x & Hrtc & Hst & El & Hb & _); try done.
  exists c', (pre ++ x). split_and!; [by apply rounds_are_steps|done..].
Qed.

Lemma header_value_of_spec c l name :
  resolve_all (memory (pool c)) (headers_received (req c)) = Some l -> Forall header_wf l -> no_nul name ->
  header_value_of c name = Some (h ← head (named MHD_HEADER_KIND (Some name) l); header_value h)
  /\ forall v, (h ← head (named MHD_HEADER_KIND (Some name) l); header_value h) = Some v -> no_nul v.
Proof.
  intros E Hl Hn. unfold header_value_of. rewrite E. cbn [mbind option_bind MHD_lookup_connection_value].
  assert (forall s, Some name = Some s -> no_nul s) as Hk by (by intros s [= <-]).
  rewrite lookup_loop_spec by done. split; [done|]. intros v Hv.
  eapply (lookup_value_wf l MHD_HEADER_KIND (Some name)); [done..|]. rewrite lookup_loop_spec by done. by rewrite Hv.
Qed.

(** The text of a length that is accepted: digits only, within 64 bits. *)
Definition length_text (s : bytes) : Prop :=
  s ≠ [] /\ digit_run todigitvalue s /\ value 10 (todigitvalue <$> s) <= UINT64_MAX.

#[export] Instance length_text_dec s : Decision (length_text s).
Proof. unfold length_text, digit_run. apply _. Defined.

Lemma parse_length s :
  no_nul s ->
  ∃ n v e, MHD_str_to_uint64_ (Some (cstr s)) (Some 0) = Some (n, Some v) /\ deref_at (cstr s) n = Some e
    /\ (n =? 0)%nat || negb (e =? 0) = negb (bool_decide (length_text s))
    /\ (length_text s -> v = value 10 (todigitvalue <$> s)).
Proof.
  intros Hs. unfold cstr.
  assert (∃ ds c r, s ++ [0] = ds ++ c :: r /\ digit_run todigitvalue ds /\ todigitvalue c < 0) as (ds & c & r & E & Hd & Hc).
  { clear Hs. induction s as [|x s (ds & c & r & E & Hd & Hc)]; [exists [], 0, []; split_and!; [done|constructor|done]|].
    destruct (Z_lt_le_dec (todigitvalue x) 0); [exists [], x, (s ++ [0]); split_and!; [done|constructor|done]|].
    exists (x :: ds), c, r. split; [cbn; by rewrite E|]. split; [by constructor|done]. }
  rewrite E. rewrite (proj1 (number_parsers_spec ds c r 0) Hd Hc). unfold parse_spec.
  assert (length_text s <-> ds ≠ [] /\ c = 0 /\ value 10 (todigitvalue <$> ds) <= UINT64_MAX /\ ds = s) as Hiff.
  { split.
    - intros (Hne & Hrun & Hv). assert (ds = s /\ c = 0) as [-> ->]; [|done].
      apply app_eq_inv in E as [(k & -> & E)|(k & -> & E)].
      + destruct k as [|x k]; simplify_eq/=; [by rewrite app_nil_r|].
        exfalso. apply Forall_app in Hrun as [_ Hrun]. apply Forall_cons in Hrun as [? _]. lia.
      + destruct k as [|x k]; simplify_eq/=; [by rewrite app_nil_r|]. by destruct k.
    - intros (? & ? & ? & <-). done. }
  case_decide as Hcond.
  - exists (length (todigitvalue <$> ds)), (value 10 (todigitvalue <$> ds)), c. rewrite length_fmap. unfold deref_at.
    rewrite list_lookup_middle by done. split_and!; [done..| |by intros (_ & _ & _ & <-)%Hiff].
    destruct Hcond as [Hne Hv]. destruct ds as [|d0 ds]; [done|]. cbn [length Nat.eqb orb].
    destruct (Z.eqb_spec c 0) as [->|Hc0]; cbn [negb].
    + rewrite bool_decide_eq_true_2; [done|]. apply Hiff. split_and!; try done.
      apply app_eq_inv in E as [(k & -> & E)|(k & E1 & E)].
      * destruct k as [|x k]; simplify_eq/=; [by rewrite app_nil_r|]. exfalso. apply no_nul_cons in Hs as [_ Hs].
        apply Forall_app in Hs as [_ Hs]. by apply Forall_cons in Hs as [? _].
      * destruct k as [|x k]; simplify_eq/=; [by rewrite app_nil_r in E1|]. by destruct k.
    + rewrite bool_decide_eq_false_2; [done|]. by intros (_ & ? & _)%Hiff.
  - assert (~ length_text s) as Hnl.
    { intros Ht. pose proof Ht as (_ & _ & Hv). apply Hiff in Ht as (Hne & _ & _ & ->). apply Hcond. split; [|done]. by destruct s. }
    exists 0%nat, 0. assert (∃ e, deref_at (ds ++ c :: r) 0 = Some e) as [e Ee] by (destruct ds; by eexists).
    exists e. rewrite Ee, bool_decide_eq_false_2 by done. by split_and!.
Qed.

(** The first value of a header of the request. *)
Definition first_value (l : list MHD_HTTP_Header) (name : bytes) : option bytes :=
  h ← head (named MHD_HEADER_KIND (Some name) l); header_value h.

Lemma body_size_spec c l :
  resolve_all (memory (pool c)) (headers_received (req c)) = Some l -> Forall header_wf l ->
  body_size d c = Some
    match first_value l (str "Transfer-Encoding"), first_value l (str "Content-Length") with
    | Some enc, _ => set_remaining c (bool_decide (caseless_eq enc (str "chunked"))) MHD_SIZE_UNKNOWN
    | None, None => set_remaining c false 0
    | None, Some n =>
        if decide (length_text n) then set_remaining c false (value 10 (todigitvalue <$> n))
        else connection_close_error (notify d) (set_remaining c false 0)
    end.
Proof.
  intros El Hl. unfold body_size, first_value. set (c0 := set_remaining c false 0).
  assert (forall b n, set_remaining c0 b n = set_remaining c b n) as Ec by done.
  destruct (header_value_of_spec c0 l (str "Transfer-Encoding") El Hl) as [-> Hte]; [apply (bool_decide_unpack _); reflexivity|].
  cbn [mbind option_bind]. fold (first_value l (str "Transfer-Encoding")) in *.
  destruct (first_value l (str "Transfer-Encoding")) as [enc|].
  - unfold cstr. rewrite str_equal_caseless_spec by (auto; apply (bool_decide_unpack _); reflexivity). done.
  - destruct (header_value_of_spec c0 l (str "Content-Length") El Hl) as [-> Hcl]; [apply (bool_decide_unpack _); reflexivity|].
    cbn [mbind option_bind]. fold (first_value l (str "Content-Length")) in *.
    destruct (first_value l (str "Content-Length")) as [n|]; [|done].
    destruct (parse_length n (Hcl n eq_refl)) as (k & v & e & -> & Ee & Eb & Hv). cbn [mbind option_bind].
    rewrite Ee. cbn [mbind option_bind]. rewrite Eb. case_decide as Ht.
    + rewrite bool_decide_eq_true_2 by done. cbn [negb]. by rewrite Hv.
    + rewrite bool_decide_eq_false_2 by done. done.
Qed.

(** C40: The headers determine the size of the body: with a transfer encoding
    it is unknown, and the upload is chunked exactly when the encoding is
    "chunked" up to case; else a content length of digits only whose value
    fits in 64 bits is the size, any other content length closes the
    connection, and without one there is no body. *)
Theorem body_size_correct c l :
  resolve_all (memory (pool c)) (headers_received (req c)) = Some l -> Forall header_wf l ->
  body_size d c = Some
    match first_value l (str "Transfer-Encoding"), first_value l (str "Content-Length") with
    | Some enc, _ => set_remaining c (bool_decide (caseless_eq enc (str "chunked"))) MHD_SIZE_UNKNOWN
    | None, None => set_remaining c false 0
    | None, Some n =>
        if decide (length_text n) then set_remaining c false (value 10 (todigitvalue <$> n))
        else connection_close_error (notify d) (set_remaining c false 0)
    end.
Proof. apply body_size_spec. Qed.
End Theorems.

(** ** Concrete runs *)

Definition demo_daemon : daemon_config := Build_daemon_config true 512 0 false unescape_wrapper.

Definition demo_env : reply_env := Build_reply_env true true true.

(** A connection whose buffer holds [s] at the beginning of a pool of 512
    bytes, in the given state. *)
Definition demo_request (st : conn_state) (s : bytes) : MHD_Connection :=
  mkConn (mkPool (s ++ replicate (512 - length s) 0) 512 256 512 false) (Some 0) 256 (Z.of_nat (length s)) st
    false None false (mkUpload false 0 0 0) (mkRequest None None None None None []) [].

(** The entries of the request after the loop over the states. *)
Definition parsed_request (st : conn_state) (s : bytes) : option (conn_state * list MHD_HTTP_Header) :=
  c ← idle_loop (H := LP64) demo_daemon demo_env 20 (demo_request st s);
  l ← resolve_all (memory (pool c)) (headers_received (req c));
  Some (state c, l).

Definition demo_fields : list field :=
  [mkField (str "Host") (str " ") (str "example") [13; 10]; mkField (str "Accept") [] [] [10]].

Lemma demo_fields_ok : Forall field_ok demo_fields.
Proof. apply Forall_cons; split; [|apply Forall_cons; split; [|constructor]]; split_and!; try done;
  try (apply (bool_decide_unpack _); vm_compute; reflexivity); by (left + right). Qed.

Lemma header_block_read_witness :
  ∃ c' pre', rtc (λ a b, idle_step (H := LP64) demo_daemon demo_env a = Some (true, b))
               (demo_request MHD_CONNECTION_URL_RECEIVED (block demo_fields [13; 10] ++ str "body")) c'
    /\ state c' = MHD_CONNECTION_HEADERS_RECEIVED
    /\ resolve_all (memory (pool c')) (headers_received (req c'))
       = Some (header_of <$> [] ++ entries MHD_HEADER_KIND demo_fields)
    /\ at_buffer (H := LP64) c' pre' (str "body") (replicate 483 0).
Proof.
  apply (header_block_read (H := LP64) demo_daemon demo_env false demo_fields _ [] [13; 10] (str "body") (replicate 483 0) []);
    [done| |exact demo_fields_ok|by left|constructor|constructor|done].
  split_and!; try done; vm_compute; done.
Defined.

Lemma body_size_correct_witness :
  (up <$> body_size demo_daemon (set_req (demo_request MHD_CONNECTION_HEADERS_RECEIVED [])
     (mkRequest None None None None None
        [mkRef (Static (str "content-length")) (Some (Static (str "42"))) MHD_HEADER_KIND])))
  = Some (mkUpload false 42 0 0).
Proof.
  rewrite (body_size_correct demo_daemon _ [mkHeader (Some (str "content-length")) (Some (str "42")) MHD_HEADER_KIND]);
    [reflexivity|reflexivity|].
  apply Forall_singleton. split; intros s [= <-]; apply (bool_decide_unpack _); reflexivity.
Defined.

(** A header value that is continued on a second line is stored wrongly:
    the continuation is appended to the name of the header instead of its
    value, because the length that is extended is the one of the string that
    ends at the colon.  The client sends the header X-A with the value "one
    two"; the application sees the header X-Atwo with the value "one". *)
Theorem continuation_extends_the_name :
  parsed_request MHD_CONNECTION_URL_RECEIVED
    (str "X-A: one" ++ [13; 10] ++ str " two" ++ [13; 10] ++ [13; 10])
  = Some (MHD_CONNECTION_HEADERS_PROCESSED, [mkHeader (Some (str "X-Atwo")) (Some (str "one")) MHD_HEADER_KIND]).
Proof. vm_compute. reflexivity. Qed.

(** The check for blanks in front of the colon is made by the most
    tolerant daemon and by no other: the line "X : y" is refused with the
    option at -1 ("as tolerant as possible") and stored, with the blank in the
    name, at 0 and at 1 ("strict about the protocol"). *)
Theorem blank_before_colon_refused_when_tolerant :
  let line s := c ← snd <$> process_header_line (Build_daemon_config true 512 s false unescape_wrapper)
                   (demo_request MHD_CONNECTION_URL_RECEIVED (str "X : y" ++ [0])) 0;
                l ← last (req c); chars (memory (pool c)) (Pool l) in
  line (-1) = None /\ line 0 = Some (str "X ") /\ line 1 = Some (str "X ").
Proof. vm_compute. done. Qed.
