(* ===== verification/EventLoop.v ===== *)
(** * What a connection waits for (libmicrohttpd/src/microhttpd/connection.c, internal.h)

    [MHD_connection_update_event_loop_info], which every run of
    [MHD_connection_handle_idle] ends with: from the state of the connection it
    decides what the event loop watches the socket for, and makes room in the
    read buffer or gives up.  The theorems connect it with
    [MHD_connection_handle_read]: a connection that waits for reading can
    read, and the states in which that is not so.

    A connection without TLS is modelled. *)

From S2P Require Import Prelude MhdStr MemoryPool Internal Headers Connection RequestHead HeaderBlock.

(** [enum MHD_ConnectionEventLoopInfo]. *)
Inductive MHD_ConnectionEventLoopInfo :=
| MHD_EVENT_LOOP_INFO_READ | MHD_EVENT_LOOP_INFO_WRITE | MHD_EVENT_LOOP_INFO_BLOCK | MHD_EVENT_LOOP_INFO_CLEANUP.

#[export] Instance event_loop_info_eq_dec : EqDecision MHD_ConnectionEventLoopInfo.
Proof. solve_decision. Defined.

Section Info.
Context `{Platform} (d : daemon_config) (env : reply_env).

(** One round of the loop; [internal_polling] is the option
    [MHD_USE_INTERNAL_POLLING_THREAD].  The flag of the result says that the
    loop goes on; a state the code asserts not to meet leaves the member
    [info] as it is. *)
Definition info_round (internal_polling : bool) (c : MHD_Connection) (info : MHD_ConnectionEventLoopInfo)
    : option (bool * MHD_Connection * MHD_ConnectionEventLoopInfo) :=
  let waits i := Some (false, c, i) in
  match state c with
  | MHD_CONNECTION_INIT | MHD_CONNECTION_URL_RECEIVED | MHD_CONNECTION_HEADER_PART_RECEIVED =>
      '(ok, c) ← (if read_buffer_offset c =? read_buffer_size c then try_grow_read_buffer (pool_size d) c else Some (true, c));
      if negb ok then Some (true, transmit_error_response d env c (match url (req c) with Some _ => 431 | None => 414 end), info)
      else Some (false, c, if negb (read_closed c) then MHD_EVENT_LOOP_INFO_READ else MHD_EVENT_LOOP_INFO_BLOCK)
  | MHD_CONNECTION_CONTINUE_SENDING => waits MHD_EVENT_LOOP_INFO_WRITE
  | MHD_CONNECTION_CONTINUE_SENT =>
      '(ok, c) ← (if read_buffer_offset c =? read_buffer_size c then try_grow_read_buffer (pool_size d) c else Some (true, c));
      if negb ok && internal_polling then Some (true, transmit_error_response d env c 500, info)
      else Some (false, c, if (read_buffer_offset c <? read_buffer_size c) && negb (read_closed c)
                           then MHD_EVENT_LOOP_INFO_READ else MHD_EVENT_LOOP_INFO_BLOCK)
  | MHD_CONNECTION_BODY_RECEIVED | MHD_CONNECTION_FOOTER_PART_RECEIVED =>
      if read_closed c then Some (true, connection_close_error (notify d) c, info) else waits MHD_EVENT_LOOP_INFO_READ
  | MHD_CONNECTION_FOOTERS_RECEIVED => waits MHD_EVENT_LOOP_INFO_BLOCK
  | MHD_CONNECTION_HEADERS_SENDING => waits MHD_EVENT_LOOP_INFO_WRITE
  | MHD_CONNECTION_NORMAL_BODY_READY => waits MHD_EVENT_LOOP_INFO_WRITE
  | MHD_CONNECTION_NORMAL_BODY_UNREADY => waits MHD_EVENT_LOOP_INFO_BLOCK
  | MHD_CONNECTION_CHUNKED_BODY_READY => waits MHD_EVENT_LOOP_INFO_WRITE
  | MHD_CONNECTION_CHUNKED_BODY_UNREADY => waits MHD_EVENT_LOOP_INFO_BLOCK
  | MHD_CONNECTION_FOOTERS_SENDING => waits MHD_EVENT_LOOP_INFO_WRITE
  | MHD_CONNECTION_CLOSED => waits MHD_EVENT_LOOP_INFO_CLEANUP
  | MHD_CONNECTION_HEADERS_RECEIVED | MHD_CONNECTION_HEADERS_PROCESSED | MHD_CONNECTION_HEADERS_SENT
  | MHD_CONNECTION_BODY_SENT | MHD_CONNECTION_FOOTERS_SENT => waits info
  end.

Fixpoint info_loop (fuel : nat) (internal_polling : bool) (c : MHD_Connection) (info : MHD_ConnectionEventLoopInfo)
    : option (MHD_Connection * MHD_ConnectionEventLoopInfo) :=
  match fuel with
  | O => None
  | S fuel =>
      '(go_on, c, info) ← info_round internal_polling c info;
      if (go_on : bool) then info_loop fuel internal_polling c info else Some (c, info)
  end.

(** After an error reply or a close the second round ends. *)
Definition MHD_connection_update_event_loop_info (internal_polling suspended : bool) (c : MHD_Connection)
    (info : MHD_ConnectionEventLoopInfo) : option (MHD_Connection * MHD_ConnectionEventLoopInfo) :=
  if suspended then Some (c, info) else info_loop 2 internal_polling c info.
End Info.

(** ** Growing the read buffer *)

Section Buffer.
Context `{Platform}.

(** The read buffer is a part of the front of the pool, which need not be
    aligned, as lines are cut from it; its first bytes are unread. *)
Definition reader (c : MHD_Connection) (b : bytes) : Prop :=
  ∃ rb, read_buffer c = Some rb /\ 0 <= rb /\ 0 <= read_buffer_offset c <= read_buffer_size c
    /\ rb + read_buffer_size c <= pos (pool c) /\ pos (pool c) <= end_ (pool c) <= Z.of_nat (length (memory (pool c)))
    /\ 4 * Z.of_nat (length (memory (pool c))) <= SIZE_MAX
    /\ mem_read (memory (pool c)) rb (read_buffer_offset c) = Some b.

(** Enlarging such a block fails without any change or keeps its contents. *)
Lemma enlarge_block p o l n :
  0 <= o -> 0 <= l -> o + l <= pos p -> pos p <= end_ p <= Z.of_nat (length (memory p)) ->
  4 * Z.of_nat (length (memory p)) <= SIZE_MAX -> l < n <= SIZE_MAX ->
  ∃ r p', MHD_pool_reallocate p (Some o) l n = Some (r, p')
    /\ match r with
       | None => p' = p
       | Some o' => 0 <= o' /\ o' + n <= pos p' /\ pos p' <= end_ p' <= Z.of_nat (length (memory p'))
           /\ length (memory p') = length (memory p)
           /\ forall k, 0 <= k <= l -> mem_read (memory p') o' k = mem_read (memory p) o k
       end.
Proof.
  intros Ho Hl Hp He Hm Hn. unfold MHD_pool_reallocate.
  destruct ((0 =? ROUND_TO_ALIGN n) && negb (0 =? n)) eqn:Ez; [by eexists _, _|].
  apply ROUND_TO_ALIGN_fits in Ez as (Hr & _ & _); [|lia]. set (a := ROUND_TO_ALIGN n) in *.
  destruct (Z.ltb_spec (end_ p) l); [lia|]. destruct (Z.ltb_spec (end_ p) a); simpl; [by eexists _, _|].
  rewrite (usize_small (pos p + a)) by lia. rewrite Z.geb_leb. destruct (Z.leb_spec l (pos p)); [|lia]. simpl.
  case_bool_decide as Eo.
  - rewrite (usize_small (pos p + a - l)) by lia. destruct (Z.leb_spec (pos p + a - l) (end_ p)); [|by eexists _, _].
    rewrite (usize_small (a - l)) by lia. rewrite usize_small by lia.
    destruct (Z.ltb_spec a l); [lia|]. eexists _, _. split; [done|]. simpl. injection Eo as Eo. split_and!; try lia; done.
  - destruct (Z.leb_spec a l); [lia|]. rewrite Z.geb_leb. destruct (Z.leb_spec (pos p) (pos p + a)); [|lia].
    destruct (Z.leb_spec (pos p + a) (end_ p)); simpl; [|by eexists _, _].
    destruct (Z.eqb_spec 0 l) as [<-|]; simpl.
    + eexists _, _. split; [done|]. simpl. split_and!; try lia; try done. intros k Hk. replace k with 0 by lia.
      unfold mem_read. by rewrite !(proj2 (in_object_true _ _ _)) by lia.
    + destruct (memmove_Some (memory p) (pos p) o l) as (m & Em & Lm & Rm & _); [lia..|]. rewrite Em. simpl.
      eexists _, _. split; [done|]. simpl. split_and!; try lia. intros k Hk.
      apply (mem_read_prefix _ _ _ _ l); [done| |done].
      destruct (mem_read_Some m (pos p) l) as (bs & -> & _); [lia..|done].
Qed.

(** Nothing but the buffer and the pool. *)
Definition same_but_buffer (c c' : MHD_Connection) : Prop :=
  state c' = state c /\ read_closed c' = read_closed c /\ req c' = req c /\ up c' = up c /\ completed c' = completed c.

Lemma try_grow_read_buffer_ok size c b :
  reader c b -> 2 <= size <= SIZE_MAX ->
  ∃ ok c', try_grow_read_buffer size c = Some (ok, c') /\ reader c' b /\ same_but_buffer c c'
    /\ read_buffer_offset c' = read_buffer_offset c
    /\ (if (ok : bool) then read_buffer_size c < read_buffer_size c' else c' = c).
Proof.
  intros (rb & Eb & Hrb & Ho & Hp & He & Hm & Hu) Hs. unfold try_grow_read_buffer.
  set (n := if 0 =? read_buffer_size c then _ else _).
  assert (read_buffer_size c < n <= SIZE_MAX) as Hn.
  { unfold n. destruct (Z.eqb_spec 0 (read_buffer_size c)) as [<-|].
    - pose proof (Z.div_mod size 2 ltac:(lia)). pose proof (Z.mod_pos_bound size 2 ltac:(lia)). lia.
    - assert (read_buffer_size c + 1024 <= SIZE_MAX).
      { unfold SIZE_MAX, SIZE_BITS in *. destruct sizeof_ptr_ok as [E|E]; rewrite E in *; lia. }
      rewrite usize_small by lia. lia. }
  rewrite Eb. destruct (enlarge_block (pool c) rb (read_buffer_size c) n) as (r & p & -> & Hr); [lia..|].
  cbn [mbind option_bind]. destruct r as [o|].
  - destruct Hr as (H1 & H2 & H3 & H4 & H5). eexists true, _. split; [done|]. split_and!; [|done..|simpl; lia].
    exists o. simpl. rewrite H4 in *. split_and!; try lia; [done|]. rewrite H5 by lia. done.
  - subst p. assert (set_pool c (pool c) = c) as -> by (by destruct c). exists false, c. split; [done|].
    split_and!; [|done..]. exists rb. split_and!; try lia; done.
Qed.
End Buffer.

(** ** What the result means *)

Section Meaning.
Context `{Platform} (d : daemon_config) (env : reply_env) (internal_polling : bool).

Definition reads_head (s : conn_state) : bool :=
  match s with
  | MHD_CONNECTION_INIT | MHD_CONNECTION_URL_RECEIVED | MHD_CONNECTION_HEADER_PART_RECEIVED => true
  | _ => false
  end.

Definition reads_footers (s : conn_state) : bool :=
  match s with MHD_CONNECTION_BODY_RECEIVED | MHD_CONNECTION_FOOTER_PART_RECEIVED => true | _ => false end.

(** An error reply is sent or the connection is closed. *)
Lemma transmit_error_response_state c code :
  let c' := transmit_error_response d env c code in
  state c' = MHD_CONNECTION_HEADERS_SENDING \/ state c' = MHD_CONNECTION_CLOSED.
Proof using Type.
  unfold transmit_error_response. destruct (version (req c)), (response_created env), (response_queued env), (header_built env);
    simpl; tauto.
Qed.

Lemma info_after_error c code info :
  let c' := transmit_error_response d env c code in
  ∃ i, info_loop d env 1 internal_polling c' info = Some (c', i)
    /\ (i = MHD_EVENT_LOOP_INFO_WRITE /\ state c' = MHD_CONNECTION_HEADERS_SENDING
        \/ i = MHD_EVENT_LOOP_INFO_CLEANUP /\ state c' = MHD_CONNECTION_CLOSED).
Proof using Type.
  intros c'. unfold info_loop, info_round.
  destruct (transmit_error_response_state c code) as [E|E]; fold c' in E; rewrite E; simpl; eexists; (split; [done|]); tauto.
Qed.

(** A buffer that is full can grow. *)
Definition grows (c : MHD_Connection) : Prop := ∃ c', try_grow_read_buffer (pool_size d) c = Some (true, c').

(** With room in its buffer, or when it makes room, a connection takes what
    the socket delivers. *)
Lemma handle_read_takes increment c b recv_cls :
  reader c b -> expects_input (state c) = true -> read_closed c = false ->
  read_buffer_offset c < read_buffer_size c \/ grows c /\ 0 < increment /\ read_buffer_offset c + increment <= SIZE_MAX ->
  2 <= pool_size d <= SIZE_MAX ->
  (forall n bs, 0 < n -> recv_cls n = Received bs -> 0 < Z.of_nat (length bs) <= n) ->
  ∃ n c', 0 < n /\ MHD_connection_handle_read (notify d) (pool_size d) increment c recv_cls = Some c'
    /\ forall bs, recv_cls n = Received bs -> reader c' (b ++ bs) /\ state c' = state c /\ bs ≠ [].
Proof using Type.
  intros Hr Hex Hcl Hroom Hs Hrecv. unfold MHD_connection_handle_read.
  rewrite bool_decide_eq_false_2 by (intros E; by rewrite E in Hex).
  assert (∃ c1, (if usize (read_buffer_offset c + increment) >? read_buffer_size c
     then r ← try_grow_read_buffer (pool_size d) c; Some (snd r) else Some c) = Some c1
     /\ reader c1 b /\ state c1 = state c /\ read_closed c1 = false /\ read_buffer_offset c1 < read_buffer_size c1)
    as (c1 & -> & Hr1 & Es & Ecl & Hroom1).
  { pose proof Hr as (? & _ & _ & Ho & _). rewrite Z.gtb_ltb. destruct (Z.ltb_spec (read_buffer_size c) (usize (read_buffer_offset c + increment))) as [|Hge].
    2:{ exists c. split_and!; try done. destruct Hroom as [?|(_ & ? & ?)]; [done|]. rewrite usize_small in Hge by lia. lia. }
    destruct (try_grow_read_buffer_ok (pool_size d) c b Hr Hs) as (ok & c1 & Eg & Hr1 & (E1 & E2 & _) & Eo & Hok).
    rewrite Eg. exists c1. simpl. split_and!; [done..|congruence|]. destruct ok; [lia|]. subst.
    destruct Hroom as [?|([c2 Eg2] & _)]; [done|congruence]. }
  cbn [mbind option_bind]. destruct (Z.eqb_spec (read_buffer_size c1) (read_buffer_offset c1)); [lia|].
  exists (read_buffer_size c1 - read_buffer_offset c1).
  destruct (recv_cls _) as [bs| | | |] eqn:Er; try (by eexists; split_and!; [lia|done|]).
  apply Hrecv in Er as Hbs; [|lia]. destruct Hr1 as (rb & Eb & Hrb & Ho & Hp & He & Hm & Hu). rewrite Eb. cbn [mbind option_bind].
  destruct (mem_write_Some (memory (pool c1)) (rb + read_buffer_offset c1) bs) as (m & Ew & Lm); [lia..|].
  rewrite Ew. cbn [mbind option_bind]. unfold after_read. simpl. rewrite Es, Hex, Ecl. eexists. split_and!; [lia|done|].
  intros bs' [= <-]. split_and!; [|done|intros ->; simpl in Hbs; lia].
  exists rb. simpl. rewrite Lm. split_and!; try lia; [done|].
  apply mem_read_append; [|by apply (mem_write_read _ _ _ _ Ew)].
  by rewrite (mem_write_other _ _ _ _ _ _ Ew) by lia.
Qed.

Lemma head_info c b info :
  reader c b -> reads_head (state c) = true -> 2 <= pool_size d <= SIZE_MAX ->
  ∃ (go : bool) c', info_round d env internal_polling c info = Some (go, c',
      if go then info else if read_closed c then MHD_EVENT_LOOP_INFO_BLOCK else MHD_EVENT_LOOP_INFO_READ)
    /\ (go = true -> ∃ code, c' = transmit_error_response d env c code)
    /\ (go = false -> reader c' b /\ same_but_buffer c c' /\ read_buffer_offset c' < read_buffer_size c').
Proof using Type.
  intros Hr Hh Hs. unfold info_round.
  assert (∃ ok c', (if read_buffer_offset c =? read_buffer_size c then try_grow_read_buffer (pool_size d) c else Some (true, c)) = Some (ok, c')
    /\ (ok = false -> c' = c) /\ (ok = true -> reader c' b /\ same_but_buffer c c' /\ read_buffer_offset c' < read_buffer_size c'))
    as (ok & c' & E & Hf & Ht).
  { pose proof Hr as (? & _ & _ & Ho & _). destruct (Z.eqb_spec (read_buffer_offset c) (read_buffer_size c)).
    - destruct (try_grow_read_buffer_ok (pool_size d) c b Hr Hs) as (ok & c1 & -> & Hr1 & Hsame & Eo & Hok).
      exists ok, c1. split_and!; [done|by intros ->|]. intros ->. split_and!; [done..|lia].
    - exists true, c. split_and!; [done..|]. intros _. split_and!; [done..|lia]. }
  destruct (state c) eqn:Es; try done; rewrite E; cbn [mbind option_bind]; (destruct ok; simpl;
    [eexists false, c'; split; [|by split; [|auto]]; destruct (Ht eq_refl) as (_ & (_ & -> & _) & _); by destruct (read_closed c)
    |rewrite (Hf eq_refl); eexists true, _; split; [done|]; split; [by eexists|done]]).
Qed.

(** The contract of the receive function. *)
Definition recv_contract (recv_cls : Z -> recv_result) : Prop :=
  forall n bs, 0 < n -> recv_cls n = Received bs -> 0 < Z.of_nat (length bs) <= n.

(** A connection that reads the socket gets what is there: always with room in
    its buffer, and in a full one when it asks for room. *)
Definition can_read (c : MHD_Connection) (b : bytes) : Prop :=
  reader c b /\ read_closed c = false
  /\ forall increment recv_cls, recv_contract recv_cls ->
     read_buffer_offset c < read_buffer_size c \/ 0 < increment /\ read_buffer_offset c + increment <= SIZE_MAX ->
     ∃ n c', 0 < n /\ MHD_connection_handle_read (notify d) (pool_size d) increment c recv_cls = Some c'
       /\ forall bs, recv_cls n = Received bs -> reader c' (b ++ bs) /\ state c' = state c /\ bs ≠ [].

(** Reading takes nothing, whatever the socket has. *)
Definition stalled (c : MHD_Connection) : Prop :=
  read_buffer_offset c = read_buffer_size c /\ ~ grows c
  /\ forall increment recv_cls, MHD_connection_handle_read (notify d) (pool_size d) increment c recv_cls = Some c.

Lemma can_read_ok c b :
  reader c b -> expects_input (state c) = true -> read_closed c = false -> read_buffer_offset c < read_buffer_size c \/ grows c ->
  2 <= pool_size d <= SIZE_MAX -> can_read c b.
Proof using Type.
  intros Hr He Hc Hg Hs. split_and!; [done..|]. intros increment recv_cls Hrecv Hi. apply handle_read_takes; try done.
  destruct Hg as [?|?]; [by left|]. destruct Hi; [by left|by right].
Qed.

Lemma stalled_ok c b :
  reader c b -> expects_input (state c) = true -> read_buffer_offset c = read_buffer_size c -> ~ grows c ->
  2 <= pool_size d <= SIZE_MAX -> stalled c.
Proof using Type.
  intros Hr He Hf Hg Hs. split; [done|]. split; [done|]. intros increment recv_cls. unfold MHD_connection_handle_read.
  rewrite bool_decide_eq_false_2 by (intros E; by rewrite E in He).
  destruct (try_grow_read_buffer_ok (pool_size d) c b Hr Hs) as (ok & c1 & Eg & _ & _ & _ & Hok).
  destruct ok; [by destruct Hg; exists c1|]. subst c1. rewrite Eg.
  assert (read_buffer_size c =? read_buffer_offset c = true) as Eb by lia.
  destruct (_ >? _); cbn [mbind option_bind snd]; by rewrite Eb.
Qed.

(** What the decision promises in a state in which a request is read, for a
    connection that was [c]. *)
Definition info_promise (c : MHD_Connection) (b : bytes) (c' : MHD_Connection) (i : MHD_ConnectionEventLoopInfo) : Prop :=
  match i with
  | MHD_EVENT_LOOP_INFO_READ =>
      state c' = state c
      /\ (can_read c' b /\ (reads_footers (state c) = false -> read_buffer_offset c' < read_buffer_size c')
          \/ reads_footers (state c) = true /\ stalled c')
  | MHD_EVENT_LOOP_INFO_WRITE => state c' = MHD_CONNECTION_HEADERS_SENDING
  | MHD_EVENT_LOOP_INFO_BLOCK =>
      state c' = state c /\ reader c' b
      /\ (read_closed c = true
          \/ state c = MHD_CONNECTION_CONTINUE_SENT /\ internal_polling = false /\ read_buffer_offset c = read_buffer_size c)
  | MHD_EVENT_LOOP_INFO_CLEANUP => state c' = MHD_CONNECTION_CLOSED
  end.

Lemma error_promise c b code info :
  ∃ c' i, info_loop d env 1 internal_polling (transmit_error_response d env c code) info = Some (c', i)
    /\ info_promise c b c' i.
Proof using Type.
  destruct (info_after_error c code info) as (i & E & Hi). eexists _, i. split; [done|]. by destruct Hi as [[-> ?]|[-> ?]].
Qed.

Lemma head_promise c b info :
  reader c b -> reads_head (state c) = true -> 2 <= pool_size d <= SIZE_MAX ->
  ∃ c' i, info_loop d env 2 internal_polling c info = Some (c', i) /\ info_promise c b c' i.
Proof using Type.
  intros Hr Hh Hs. cbn [info_loop]. destruct (head_info c b info Hr Hh Hs) as (go & c' & -> & Ht & Hf). cbn [mbind option_bind].
  destruct go; [destruct (Ht eq_refl) as [code ->]; apply error_promise|].
  destruct (Hf eq_refl) as (Hr' & (Es & Ecl & _) & Hroom). eexists _, _. split; [done|].
  destruct (read_closed c) eqn:Ec; [split_and!; [done..|by left]|]. split; [done|]. left. split; [|done].
  apply can_read_ok; [done|rewrite Es; by destruct (state c)|done|by left|done].
Qed.

Lemma body_promise c b info :
  reader c b -> state c = MHD_CONNECTION_CONTINUE_SENT -> 2 <= pool_size d <= SIZE_MAX ->
  ∃ c' i, info_loop d env 2 internal_polling c info = Some (c', i) /\ info_promise c b c' i.
Proof using Type.
  intros Hr Hst Hs. cbn [info_loop]. unfold info_round. rewrite Hst.
  assert (forall c', reader c' b -> same_but_buffer c c' -> read_buffer_offset c' < read_buffer_size c' ->
    info_promise c b c' (if (read_buffer_offset c' <? read_buffer_size c') && negb (read_closed c')
                         then MHD_EVENT_LOOP_INFO_READ else MHD_EVENT_LOOP_INFO_BLOCK)) as Hroom.
  { intros c' Hr' (Es & Ecl & _) Hlt. destruct (Z.ltb_spec (read_buffer_offset c') (read_buffer_size c')); [|lia].
    destruct (read_closed c') eqn:Ec; simpl; [split_and!; [done..|by left; rewrite <- Ecl]|]. split; [done|].
    left. split; [|done]. apply can_read_ok; [done|by rewrite Es, Hst|done|by left|done]. }
  pose proof Hr as (? & _ & _ & Ho & _). destruct (Z.eqb_spec (read_buffer_offset c) (read_buffer_size c)) as [Efull|].
  - destruct (try_grow_read_buffer_ok (pool_size d) c b Hr Hs) as (ok & c1 & -> & Hr1 & Hsame & Eo & Hok).
    cbn [mbind option_bind]. destruct ok; simpl.
    + eexists _, _. split; [done|]. apply Hroom; [done..|lia].
    + subst c1. destruct internal_polling eqn:Ep; simpl.
      * destruct (error_promise c b 500 info) as (c' & i & E & Hi). rewrite Ep in E. exists c', i. split; [exact E|done].
      * eexists _, _. split; [done|]. destruct (Z.ltb_spec (read_buffer_offset c) (read_buffer_size c)); [lia|]. simpl.
        split_and!; [done..|]. right. by split_and!.
  - cbn [mbind option_bind negb andb]. eexists _, _. split; [done|]. apply Hroom; [done|by split_and!|lia].
Qed.

Lemma footer_promise c b info :
  reader c b -> reads_footers (state c) = true -> 2 <= pool_size d <= SIZE_MAX ->
  ∃ c' i, info_loop d env 2 internal_polling c info = Some (c', i) /\ info_promise c b c' i.
Proof using Type.
  intros Hr Hf Hs. destruct (read_closed c) eqn:Ec.
  - exists (connection_close_error (notify d) c), MHD_EVENT_LOOP_INFO_CLEANUP. split; [|done]. cbn [info_loop]. unfold info_round.
    destruct (state c); try done; rewrite Ec; done.
  - exists c, MHD_EVENT_LOOP_INFO_READ. split; [cbn [info_loop]; unfold info_round; destruct (state c); try done; by rewrite Ec|].
    split; [done|]. assert (expects_input (state c) = true) as He by (by destruct (state c)).
    pose proof Hr as (? & _ & _ & Ho & _).
    destruct (try_grow_read_buffer_ok (pool_size d) c b Hr Hs) as (ok & c1 & Eg & _ & _ & _ & _).
    destruct (decide (read_buffer_offset c < read_buffer_size c)) as [?|?].
    + left. split; [apply can_read_ok; auto|done].
    + destruct ok.
      * left. split; [apply can_read_ok; try done; right; by exists c1|by rewrite Hf].
      * right. split; [done|]. apply (stalled_ok c b); try done; [lia|]. intros [c2 E2]. congruence.
Qed.

(** C25: While the head, the body or the footers of a request are read, the
    decision what to wait for ends, and it is right: a connection that waits
    for reading can read, so that reading takes the bytes the socket has and
    puts them behind the unread ones; in the head and the body it has room for
    that in its buffer.  It waits for writing when an error reply was
    prepared; and it is blocked only after the client has closed its side, or,
    with an external event loop, while the application leaves a buffer full
    that cannot grow.  There is one exception, in the footers alone: when the
    buffer is full and cannot grow the connection waits for reading all the
    same, and reading takes nothing ([full_footer_buffer_stalls] reaches this
    state). *)
Theorem waiting_connection_can_read c b info :
  reader c b -> reads_head (state c) = true \/ state c = MHD_CONNECTION_CONTINUE_SENT \/ reads_footers (state c) = true ->
  2 <= pool_size d <= SIZE_MAX ->
  ∃ c' i, MHD_connection_update_event_loop_info d env internal_polling false c info = Some (c', i)
    /\ info_promise c b c' i.
Proof using Type. intros Hr [Hh|[Hst|Hf]] Hs; [by apply head_promise|by apply body_promise|by apply footer_promise]. Qed.
End Meaning.

(** ** Instances *)

Lemma waiting_connection_can_read_witness :
  let c := demo_request MHD_CONNECTION_URL_RECEIVED (str "Host: ex") in
  ∃ c', MHD_connection_update_event_loop_info (H := LP64) demo_daemon demo_env true false c MHD_EVENT_LOOP_INFO_WRITE
        = Some (c', MHD_EVENT_LOOP_INFO_READ)
    /\ can_read (H := LP64) demo_daemon c' (str "Host: ex").
Proof.
  intros c.
  destruct (waiting_connection_can_read (H := LP64) demo_daemon demo_env true c (str "Host: ex") MHD_EVENT_LOOP_INFO_WRITE)
    as (c' & i & E & Hi).
  - exists 0. split_and!; [reflexivity|by vm_compute..].
  - by left.
  - by vm_compute.
  - vm_compute in E. assert (i = MHD_EVENT_LOOP_INFO_READ) as -> by (by injection E as _ <-).
    exists c'. split; [exact E|]. destruct Hi as [_ [[Hi _]|[Hf _]]]; [exact Hi|]. exfalso. vm_compute in Hf. discriminate Hf.
Defined.

(** Footers that fill the read buffer to its last byte: the buffer that is
    left has no room, growing it asks for half of the pool, of which the
    records of the headers already took a part, and nobody notices.  The
    connection waits for reading, reading takes nothing, whatever the socket
    has, and the loop over the states does nothing. *)
Definition filling_footers : bytes :=
  str "A: 1" ++ [13; 10] ++ str "B: " ++ replicate 245 50 ++ [13; 10].

Theorem full_footer_buffer_stalls :
  ∃ c, idle_loop (H := LP64) demo_daemon demo_env 20 (demo_request MHD_CONNECTION_BODY_RECEIVED filling_footers) = Some c
    /\ state c = MHD_CONNECTION_FOOTER_PART_RECEIVED
    /\ MHD_connection_update_event_loop_info (H := LP64) demo_daemon demo_env true false c MHD_EVENT_LOOP_INFO_BLOCK
       = Some (c, MHD_EVENT_LOOP_INFO_READ)
    /\ (forall recv_cls, MHD_connection_handle_read (H := LP64) (notify demo_daemon) (pool_size demo_daemon) 64 c recv_cls = Some c)
    /\ idle_loop (H := LP64) demo_daemon demo_env 1 c = Some c.
Proof.
  eexists. split; [vm_compute; reflexivity|]. split; [reflexivity|]. split; [vm_compute; reflexivity|].
  split; [intros recv_cls; vm_compute; reflexivity|vm_compute; reflexivity].
Qed.
