(* ===== verification/RequestLine.v ===== *)
(** * Correctness of the request line

    [parse_initial_message_line] on a line with method, URI and version: the
    three parts and the arguments of the URI are found, decoded in place, and
    none of them disturbs another. *)

From S2P Require Import Prelude MhdStr MemoryPool Internal Headers Connection RequestHead HeaderBlock.

(** ** Searching in a part of the memory *)

Lemma count_until_first c a b : c ∉ a -> count_until (Z.eqb c) (a ++ c :: b) = length a.
Proof.
  induction a as [|x a IH]; intros Ha; cbn [app count_until length]; [by rewrite Z.eqb_refl|].
  apply not_elem_of_cons in Ha as [? ?]. destruct (Z.eqb_spec c x); [done|]. by rewrite IH.
Qed.

Lemma count_until_none c a : c ∉ a -> count_until (Z.eqb c) a = length a.
Proof.
  induction a as [|x a IH]; intros Ha; cbn [count_until length]; [done|].
  apply not_elem_of_cons in Ha as [? ?]. destruct (Z.eqb_spec c x); [done|]. by rewrite IH.
Qed.

Lemma mem_read_mid (p l r : bytes) k n :
  k = Z.of_nat (length p) -> n = Z.of_nat (length l) -> mem_read (p ++ l ++ r) k n = Some l.
Proof.
  intros -> ->. unfold mem_read. rewrite (proj2 (in_object_true _ _ _)) by (rewrite !length_app; lia).
  by rewrite !Nat2Z.id, drop_app_length, take_app_length.
Qed.

Lemma memchr_found (p a : bytes) c b r k n :
  k = Z.of_nat (length p) -> n = Z.of_nat (length (a ++ c :: b)) -> c ∉ a ->
  memchr (p ++ (a ++ c :: b) ++ r) k c n = Some (Some (length a)).
Proof.
  intros -> -> Ha. unfold memchr. rewrite mem_read_mid by done. cbn [mbind option_bind]. rewrite count_until_first by done.
  destruct (Nat.ltb_spec (length a) (length (a ++ c :: b))) as [|Hl]; [done|]. rewrite length_app in Hl. cbn [length] in Hl. lia.
Qed.

Lemma memchr_absent (p a r : bytes) c k n :
  k = Z.of_nat (length p) -> n = Z.of_nat (length a) -> c ∉ a -> memchr (p ++ a ++ r) k c n = Some None.
Proof.
  intros -> -> Ha. unfold memchr. rewrite mem_read_mid by done. cbn [mbind option_bind]. rewrite count_until_none by done.
  destruct (Nat.ltb_spec (length a) (length a)); [lia|done].
Qed.

Lemma skip_to_uri_run left (p : bytes) k c r at_ :
  at_ = Z.of_nat (length p) -> (k <= left)%nat -> c ≠ 32 ->
  skip_to_uri left (p ++ replicate k 32 ++ c :: r) at_ = Some (at_ + Z.of_nat k).
Proof.
  revert left p at_. induction k as [|k IH]; intros left p at_ -> Hk Hc; cbn [replicate app].
  - destruct left; cbn [skip_to_uri]; rewrite byte_at_app by done; cbn [mbind option_bind]; [f_equal; lia|].
    destruct (Z.eqb_spec c 32); [done|f_equal; lia].
  - destruct left as [|left]; [lia|]. cbn [skip_to_uri]. rewrite byte_at_app by done. cbn [mbind option_bind Z.eqb Pos.eqb].
    replace (p ++ 32 :: replicate k 32 ++ c :: r) with ((p ++ [32]) ++ replicate k 32 ++ c :: r) by (by rewrite <- app_assoc).
    rewrite IH; [f_equal; lia|rewrite length_app; cbn [length]; lia|lia|done].
Qed.

(** Backwards over the last word. *)
Lemma back_while_word fuel (q v r : bytes) low at_ :
  at_ = Z.of_nat (length q) + Z.of_nat (length v) -> low < Z.of_nat (length q) -> 32 ∉ v -> (length v <= fuel)%nat ->
  back_while false fuel (q ++ 32 :: v ++ r) at_ low = Some (Z.of_nat (length q)).
Proof.
  revert fuel r at_. induction v as [|x v IH] using rev_ind; intros fuel r at_ -> Hl Hv Hf.
  - assert (byte_at (q ++ 32 :: [] ++ r) (Z.of_nat (length q) + Z.of_nat (length (@nil Z))) = Some 32) as Eb
      by (apply byte_at_app; cbn [length]; lia).
    destruct fuel; cbn [back_while]; rewrite Eb; cbn; f_equal; lia.
  - rewrite length_app in *. cbn [length] in *. apply not_elem_of_app in Hv as [Hv Hx]. apply not_elem_of_cons in Hx as [Hx _].
    destruct fuel as [|fuel]; [lia|]. cbn [back_while].
    replace (q ++ 32 :: (v ++ [x]) ++ r) with ((q ++ 32 :: v) ++ x :: r) by (by rewrite <- !app_assoc).
    rewrite byte_at_app by (rewrite length_app; cbn [length]; lia). cbn [mbind option_bind].
    destruct (Z.eqb_spec x 32); [done|]. cbn [Bool.eqb].
    destruct (Z.ltb_spec low (Z.of_nat (length q) + Z.of_nat (length v + 1))); [|lia]. cbn [andb].
    rewrite <- app_assoc. cbn [app]. apply (IH fuel (x :: r)); [lia|done|done|lia].
Qed.

(** ** The parser with two callbacks *)

Section Sim.
Context (unescape_callback : bytes -> nat -> option (bytes * nat)).
Context {S1 S2 : Type} (cb1 : S1 -> bytes -> nat -> option nat -> S1 * bool) (cb2 : S2 -> bytes -> nat -> option nat -> S2 * bool).
Context (R : S1 -> S2 -> Prop) (lo : nat).

(** The callbacks are related on pointers behind [lo]: they give the same
    answer, and related states unless they refuse. *)
Context (Hcb : forall s1 s2 m k v, R s1 s2 -> (lo <= k)%nat -> (forall j, v = Some j -> (lo <= j)%nat) ->
  (cb1 s1 m k v).2 = (cb2 s2 m k v).2 /\ ((cb1 s1 m k v).2 = true -> R (cb1 s1 m k v).1 (cb2 s2 m k v).1)).

Definition sim_result (o1 : option (bytes * S1 * Z * bool)) (o2 : option (bytes * S2 * Z * bool)) : Prop :=
  match o1, o2 with
  | Some (m1, s1, n1, b1), Some (m2, s2, n2, b2) => m1 = m2 /\ n1 = n2 /\ b1 = b2 /\ (b1 = true -> R s1 s2)
  | None, None => True
  | _, _ => False
  end.

Lemma sim_call (k1 : S1 -> option (bytes * S1 * Z * bool)) (k2 : S2 -> option (bytes * S2 * Z * bool)) s1 s2 m k v num :
  R s1 s2 -> (lo <= k)%nat -> (forall j, v = Some j -> (lo <= j)%nat) ->
  (forall s1 s2, R s1 s2 -> sim_result (k1 s1) (k2 s2)) ->
  sim_result (let '(st, ok) := cb1 s1 m k v in if ok then k1 st else Some (m, st, num, false))
             (let '(st, ok) := cb2 s2 m k v in if ok then k2 st else Some (m, st, num, false)).
Proof using Hcb.
  intros HR Hk Hv Hnext. destruct (Hcb s1 s2 m k v HR Hk Hv) as [E Hr].
  destruct (cb1 s1 m k v) as [s1' b1], (cb2 s2 m k v) as [s2' b2]. cbn [fst snd] in *. subst b2.
  destruct b1; [by apply Hnext, Hr|by split_and!].
Qed.

Lemma sim_bind {A} (o : option A) (k1 : A -> option (bytes * S1 * Z * bool)) (k2 : A -> option (bytes * S2 * Z * bool)) :
  (forall x, o = Some x -> sim_result (k1 x) (k2 x)) -> sim_result (x ← o; k1 x) (x ← o; k2 x).
Proof. intros H. destruct o; cbn [mbind option_bind]; [by apply H|done]. Qed.

Lemma parse_loop_sim fuel m args s1 s2 num :
  R s1 s2 -> (lo <= args)%nat ->
  sim_result (parse_arguments_loop unescape_callback cb1 fuel m args s1 num)
             (parse_arguments_loop unescape_callback cb2 fuel m args s2 num).
Proof using Hcb.
  revert m args s1 s2 num. induction fuel as [|fuel IH]; intros m args s1 s2 num HR Hlo; cbn [parse_arguments_loop];
    apply sim_bind; intros c _; (destruct (c =? 0); [by split_and!|]);
    apply sim_bind; intros equals _; apply sim_bind; intros amper _; destruct amper as [a|].
  - by apply sim_bind.
  - destruct equals as [e|]; repeat (apply sim_bind; intros ? _); apply sim_call; try done; try (by intros);
      intros j [= <-]; lia.
  - apply sim_bind. intros m1 _. destruct equals as [e|]; [destruct (_ <=? _)%nat|];
      repeat (apply sim_bind; intros ? _); (apply sim_call; [done|done|try done; by (intros j [= <-]; lia)|]);
      intros; apply IH; (done || lia).
  - destruct equals as [e|]; repeat (apply sim_bind; intros ? _); apply sim_call; try done; try (by intros);
      intros j [= <-]; lia.
Qed.
End Sim.

(** ** Storing the arguments *)

Section Line.
Context `{Platform} (d : daemon_config) (env : reply_env).

(** The record of an argument, and the connection after some were stored. *)
Definition arg_ref (e : nat * option nat) : header_ref :=
  mkRef (Pool (Z.of_nat e.1)) ((λ v, Pool (Z.of_nat v)) <$> e.2) MHD_GET_ARGUMENT_KIND.

Definition add_headers (c : MHD_Connection) (l : list header_ref) : MHD_Connection :=
  let r := req c in
  set_req c (mkRequest (method r) (url r) (version r) (last r) (colon r) (headers_received r ++ l)).

(** The callback of the source. *)
Definition store_argument (c : MHD_Connection) (_ : bytes) (k : nat) (v : option nat) : MHD_Connection * bool :=
  let '(ok, c) := connection_add_header d env c (Pool (Z.of_nat k)) ((λ v, Pool (Z.of_nat v)) <$> v)
                    MHD_GET_ARGUMENT_KIND in (c, ok).

(** The arguments [st] were stored in records taken from the pool of [c]. *)
Definition stored_from (c : MHD_Connection) (lo : nat) (st : list (nat * option nat)) (c' : MHD_Connection) : Prop :=
  ∃ p, c' = add_headers (set_pool c p) (arg_ref <$> st) /\ pool_inv p /\ memory p = memory (pool c) /\ pos p = pos (pool c)
    /\ end_ p = end_ (pool c) - Z.of_nat (length st) * sizeof_header
    /\ Forall (λ e, (lo <= e.1)%nat /\ forall j, e.2 = Some j -> (lo <= j)%nat) st.

#[export] Instance room_dec p n : Decision (room p n).
Proof. unfold room. apply _. Defined.

(** Whether the pool has room for one more record after [i]. *)
Definition takes_one (c : MHD_Connection) (i : nat) : bool := bool_decide (room (pool c) (S i)).

Lemma sizeof_header_round :
  ROUND_TO_ALIGN sizeof_header = sizeof_header /\ 0 < sizeof_header <= 32 /\ sizeof_header + (ALIGN_SIZE - 1) <= SIZE_MAX.
Proof.
  unfold ROUND_TO_ALIGN, sizeof_header, ALIGN_SIZE, SIZE_MAX, usize, SIZE_BITS.
  destruct sizeof_ptr_ok as [-> | ->]; by vm_compute.
Qed.

Lemma store_argument_step c lo st c' m k v :
  stored_from c lo st c' -> (lo <= k)%nat -> (forall j, v = Some j -> (lo <= j)%nat) ->
  (record (takes_one c) st m k v).2 = (store_argument c' m k v).2
  /\ ((record (takes_one c) st m k v).2 = true ->
      stored_from c lo (record (takes_one c) st m k v).1 (store_argument c' m k v).1).
Proof.
  intros (p & -> & Hp & Em & Ep & Ee & Hlo) Hk Hv.
  destruct sizeof_header_round as (Er & Hs & Hm). pose proof ALIGN_SIZE_pos as Ha.
  unfold record, store_argument, connection_add_header, takes_one, room.
  cbn [add_headers set_req set_pool pool].
  assert (0 <= sizeof_header <= SIZE_MAX) as Hsz by lia.
  destruct (allocate_cases p sizeof_header true Hp Hsz) as [[[_ Hf] ->]|[Hf ->]].
  - rewrite Er in *. rewrite bool_decide_eq_true_2 by nia. split; [done|]. intros _. cbn [fst].
    exists (mkPool (memory p) (size p) (pos p) (end_ p - sizeof_header) (is_mmap p)). split_and!; try done.
    + rewrite fmap_app. unfold add_header, add_headers. cbn [req set_req set_pool method url version last colon headers_received].
      by rewrite app_assoc.
    + destruct Hp as (? & ? & ? & ? & ?). split_and!; cbn [memory end_ pos size]; done || lia.
    + cbn [end_]. rewrite length_app. cbn [length]. lia.
    + apply Forall_app. split; [done|]. apply Forall_singleton. by split.
  - rewrite bool_decide_eq_false_2; [done|]. intros Hr. apply Hf. unfold fits. rewrite Er. split; [lia|nia].
Qed.

Lemma accepted_all accept n i : (forall j, (i <= j < i + n)%nat -> accept j = true) -> accepted accept i n = n.
Proof.
  revert i. induction n as [|n IH]; intros i Ha; [done|]. cbn [accepted]. rewrite Ha by lia. rewrite IH; [done|].
  intros j Hj. apply Ha. lia.
Qed.

Lemma parse_arguments_stored `{!UnescapeCallback (unescape_callback d)} c p s r :
  pool_inv (pool c) -> no_nul s -> room (pool c) (length (arguments (unescape_callback d) s)) ->
  ∃ x st c' n,
    MHD_parse_arguments_ (unescape_callback d) store_argument (p ++ s ++ 0 :: r) (Some (length p)) c
    = Some (p ++ x ++ r, c', n, true)
    /\ length x = S (length s) /\ stored_from c (length p) st c'
    /\ Forall2 (entry_ok (p ++ x)) st (arguments (unescape_callback d) s).
Proof.
  intros Hp Hs Hr. set (args := arguments (unescape_callback d) s) in *.
  pose proof (parse_loop_spec (unescape_callback d) (takes_one c) (length (p ++ s ++ 0 :: r)) p s r [] [] 0 Hs
    ltac:(rewrite !length_app; lia) ltac:(constructor)) as (x & st & E & Hx & Hl & Hf).
  cbn [length] in E, Hl. fold args in E, Hl, Hf.
  rewrite accepted_all in E, Hl, Hf.
  2-4: intros j Hj; unfold takes_one; apply bool_decide_eq_true_2; unfold room in *;
    destruct sizeof_header_round as (_ & ? & _);
    apply Z.le_trans with (Z.of_nat (length args) * sizeof_header); [apply Z.mul_le_mono_nonneg_r; cbn [length] in Hj; lia|done].
  rewrite bool_decide_eq_true_2 in E by done.
  pose proof (parse_loop_sim (unescape_callback d) (record (takes_one c)) store_argument (stored_from c (length p)) (length p)) as Hsim.
  specialize (Hsim ltac:(intros; by apply store_argument_step) (length (p ++ s ++ 0 :: r)) (p ++ s ++ 0 :: r) (length p) [] c 0).
  unfold MHD_parse_arguments_. change (u32 0) with 0 in E. rewrite E in Hsim.
  assert (stored_from c (length p) [] c) as H0.
  { exists (pool c). split; [|split_and!; done || (cbn [length]; lia) || constructor].
    unfold add_headers. cbn [fmap list_fmap]. rewrite app_nil_r. by destruct c as [? ? ? ? ? ? ? ? ? [] ?]. }
  specialize (Hsim H0 ltac:(lia)).
  destruct (parse_arguments_loop (unescape_callback d) store_argument _ _ _ _ _) as [[[[m2 c2] n2] b2]|]; [|done].
  destruct Hsim as (<- & <- & <- & HR). exists x, st, c2, (u32 (0 + Z.of_nat (length args))).
  rewrite firstn_all in Hf. split_and!; [done|done|by apply HR|exact Hf].
Qed.

(** ** The line *)

(** A change in front of a string does not matter to it. *)
Lemma has_string_swap (p p' x r : bytes) k s :
  has_string (p ++ x) k s -> (length p <= k)%nat -> length p' = length p -> has_string (p' ++ x ++ r) k s.
Proof.
  intros [Hk [t E]] Hl Hp. rewrite length_app in Hk. split; [rewrite !length_app; lia|].
  exists (t ++ r). rewrite drop_app_ge in E |- * by lia. rewrite Hp, drop_app_le by lia. rewrite E. by rewrite <- app_assoc.
Qed.

Lemma entry_ok_swap (p p' x r : bytes) st args :
  Forall2 (entry_ok (p ++ x)) st args -> length p' = length p ->
  Forall (λ e, (length p <= e.1)%nat /\ forall j, e.2 = Some j -> (length p <= j)%nat) st ->
  Forall2 (entry_ok (p' ++ x ++ r)) st args.
Proof.
  intros Hf Hp Hlo. induction Hf as [|e a st args [H1 H2] Hf IH]; [constructor|].
  apply Forall_cons in Hlo as [[Hl1 Hl2] Hlo]. constructor; [|by apply IH].
  split; [by eapply has_string_swap|]. destruct (e.2) as [j|], (a.2); try done. eapply has_string_swap; [done|by apply Hl2|done].
Qed.

(** The URI with the query part, if there is one. *)
Definition target (path : bytes) (query : option bytes) : bytes :=
  path ++ match query with None => [] | Some q => 63 :: q end.

Definition query_arguments `{!UnescapeCallback (unescape_callback d)} (query : option bytes) : list (bytes * option bytes) :=
  match query with None => [] | Some q => arguments (unescape_callback d) q end.

Definition request_text (mth : bytes) (k : nat) (path : bytes) (query : option bytes) (ver : bytes) : bytes :=
  mth ++ 32 :: replicate k 32 ++ target path query ++ 32 :: ver.

Lemma finish_line_ok `{!UnescapeCallback (unescape_callback d)} c q1 path query R :
  memory (pool c) = q1 ++ target path query ++ 0 :: R -> pool_inv (pool c) -> no_nul (target path query) ->
  headers_received (req c) = [] -> room (pool c) (length (query_arguments query)) ->
  ∃ p g st, finish_line d env c (Z.of_nat (length q1)) ((λ _, Z.of_nat (length q1 + length path)) <$> query)
      = Some (with_mem (add_headers (set_pool c p) (arg_ref <$> st)) (q1 ++ decode (unescape_callback d) path ++ 0 :: g ++ R))
    /\ length (decode (unescape_callback d) path ++ 0 :: g) = length (target path query ++ [0])
    /\ pool_inv p /\ length (memory p) = length (memory (pool c))
    /\ (forall n, room (pool c) (length (query_arguments query) + n) -> room p n) /\ pos p = pos (pool c)
    /\ Forall2 (entry_ok (q1 ++ decode (unescape_callback d) path ++ 0 :: g)) st (query_arguments query).
Proof.
  intros Em Hp Hnn Hh Hr. unfold finish_line, target in *. destruct query as [q|]; cbn [fmap option_fmap option_map query_arguments] in *.
  - apply Forall_app in Hnn as [Hpath Hq]. apply no_nul_cons in Hq as [_ Hq].
    rewrite Em, <- app_assoc, <- app_comm_cons, (app_assoc q1), write_at by (rewrite length_app; lia).
    cbn [mbind option_bind]. replace (Z.to_nat (Z.of_nat (length q1 + length path) + 1)) with (length ((q1 ++ path) ++ [0]))
      by (rewrite !length_app; cbn [length]; lia).
    replace ((q1 ++ path) ++ 0 :: q ++ 0 :: R) with (((q1 ++ path) ++ [0]) ++ q ++ 0 :: R) by (by rewrite <- !app_assoc).
    destruct (parse_arguments_stored c ((q1 ++ path) ++ [0]) q R Hp Hq Hr) as (x & st & c1 & n & E & Hx & Hst & Hf).
    unfold store_argument in E. rewrite E. cbn [mbind option_bind]. rewrite Nat2Z.id.
    destruct (unescape_in_place (unescape_callback d) q1 path (x ++ R) Hpath) as (g & j & E2 & Hg).
    replace (((q1 ++ path) ++ [0]) ++ x ++ R) with (q1 ++ path ++ 0 :: x ++ R) by (by rewrite <- !app_assoc).
    rewrite E2. cbn [mbind option_bind]. destruct Hst as (p & -> & Hpi & Emp & Epp & Eep & Hlo).
    exists p, (g ++ x), st. rewrite <- app_assoc. split; [done|].
    split; [rewrite !length_app; cbn [length]; rewrite !length_app; cbn [length]; lia|].
    split; [done|]. split; [rewrite Emp, Em; repeat (rewrite length_app; cbn [length]); lia|]. split.
    + intros k. unfold room. rewrite Epp, Eep, <- (Forall2_length _ _ _ Hf). lia.
    + split; [done|]. replace (q1 ++ decode (unescape_callback d) path ++ 0 :: g ++ x)
        with ((q1 ++ decode (unescape_callback d) path ++ 0 :: g) ++ x ++ []) by (by rewrite app_nil_r, <- !app_assoc, <- app_comm_cons).
      eapply entry_ok_swap; [done| |done]. rewrite !length_app. cbn [length]. lia.
  - rewrite app_nil_r in *. rewrite Em. cbn [mbind option_bind]. rewrite Nat2Z.id.
    destruct (unescape_in_place (unescape_callback d) q1 path R Hnn) as (g & j & E2 & Hg).
    rewrite E2. cbn [mbind option_bind]. exists (pool c), g, []. split.
    { f_equal. unfold add_headers. cbn [fmap list_fmap]. rewrite app_nil_r. by destruct c as [? ? ? ? ? ? ? ? ? [] ?]. }
    split; [rewrite !length_app; cbn [length]; lia|]. split; [done|]. split; [by rewrite Em|]. split; [done|]. split; [done|constructor].
Qed.

Lemma split_version_ok q1 u ver post line_len line :
  0 < Z.of_nat (length u) -> 32 ∉ ver -> ver ≠ [] ->
  line + line_len = Z.of_nat (length q1 + length u + 1 + length ver) -> (length ver < Z.to_nat line_len)%nat ->
  split_version (q1 ++ u ++ 32 :: ver ++ post) line (Z.of_nat (length q1)) line_len
  = Some (q1 ++ u ++ 0 :: ver ++ post, Pool (Z.of_nat (length q1 + length u) + 1), Z.of_nat (length u)).
Proof.
  intros Hu Hv Hne El Hlen. unfold split_version.
  destruct (exists_last Hne) as (v & x & Ev). rewrite Ev in Hv. apply not_elem_of_app in Hv as [Hv Hx].
  apply not_elem_of_cons in Hx as [Hx _]. rewrite app_assoc.
  assert (line + line_len - 1 = Z.of_nat (length (q1 ++ u)) + Z.of_nat (length v) + 1) as ->.
  { rewrite El, Ev, !length_app. cbn [length]. lia. }
  assert (back_while true (Z.to_nat line_len) ((q1 ++ u) ++ 32 :: ver ++ post)
            (Z.of_nat (length (q1 ++ u)) + Z.of_nat (length v) + 1) (Z.of_nat (length q1))
          = Some (Z.of_nat (length (q1 ++ u)) + Z.of_nat (length v) + 1)) as ->.
  { assert (byte_at ((q1 ++ u) ++ 32 :: ver ++ post) (Z.of_nat (length (q1 ++ u)) + Z.of_nat (length v) + 1) = Some x) as Eb.
    { rewrite Ev. replace ((q1 ++ u) ++ 32 :: (v ++ [x]) ++ post) with (((q1 ++ u) ++ 32 :: v) ++ x :: post) by (by rewrite <- !app_assoc).
      apply byte_at_app. rewrite !length_app. cbn [length]. lia. }
    destruct (Z.to_nat line_len) eqn:E; [lia|]. cbn [back_while]. rewrite Eb. cbn [mbind option_bind].
    by destruct (Z.eqb_spec x 32). }
  cbn [mbind option_bind].
  assert (back_while false (Z.to_nat line_len) ((q1 ++ u) ++ 32 :: ver ++ post)
            (Z.of_nat (length (q1 ++ u)) + Z.of_nat (length v) + 1) (Z.of_nat (length q1))
          = Some (Z.of_nat (length (q1 ++ u)))) as ->.
  { apply back_while_word; [rewrite Ev, (length_app v); cbn [length]; lia|rewrite length_app; lia|rewrite Ev|lia].
    apply not_elem_of_app. split; [done|]. by apply not_elem_of_cons; split; [|apply not_elem_of_nil]. }
  cbn [mbind option_bind]. rewrite length_app.
  destruct (Z.ltb_spec (Z.of_nat (length q1)) (Z.of_nat (length q1 + length u))); [|lia].
  rewrite write_at by (rewrite length_app; lia). cbn [mbind option_bind]. rewrite <- app_assoc. do 2 f_equal. lia.
Qed.
End Line.

(** ** Theorem *)

Section Request_line.
Context `{Platform} (d : daemon_config) (env : reply_env).
Context `{!UnescapeCallback (unescape_callback d)} (c : MHD_Connection).
Context (pre mth : bytes) (k : nat) (path : bytes) (query : option bytes) (ver post : bytes).

Let line : bytes := request_text mth k path query ver.
Let t : bytes := target path query.

(** What is in front of the URI once the method has been cut off. *)
Definition before_uri : bytes := pre ++ mth ++ 0 :: replicate k 32.

Context (Em : memory (pool c) = pre ++ line ++ 0 :: post).
Context (Hmth : 32 ∉ mth) (Ht : 32 ∉ t) (Hpath : 63 ∉ path) (Hver : 32 ∉ ver) (Hvne : ver ≠ []) (Htne : t ≠ []).

Lemma length_before_uri : length before_uri = (length pre + length mth + 1 + k)%nat.
Proof. unfold before_uri. rewrite !length_app. cbn [length]. rewrite length_replicate. lia. Qed.

Lemma length_line : length line = (length mth + 1 + k + length t + 1 + length ver)%nat.
Proof.
  unfold line, request_text. fold t. rewrite !length_app. cbn [length]. rewrite !length_app, length_replicate.
  cbn [length]. lia.
Qed.

(** The line without its separators. *)
Definition cut_line_memory : bytes := before_uri ++ t ++ 0 :: ver ++ 0 :: post.

(** The connection that knows method and version. *)
Definition cut_connection : MHD_Connection :=
  let c := set_version (with_mem (set_method c (Pool (Z.of_nat (length pre)))) cut_line_memory)
             (Some (Pool (Z.of_nat (length before_uri + length t) + 1))) in
  if has_uri_log d then set_aware c true else c.

Lemma request_line_cut :
  parse_initial_message_line d env c (Z.of_nat (length pre)) (Z.of_nat (length line))
  = c2 ← finish_line d env cut_connection (Z.of_nat (length before_uri))
           ((λ _, Z.of_nat (length before_uri + length path)) <$> query);
    Some (true, set_url c2 (Pool (Z.of_nat (length before_uri)))).
Proof using All.
  unfold parse_initial_message_line, cut_connection, cut_line_memory.
  assert (line = mth ++ 32 :: replicate k 32 ++ t ++ 32 :: ver) as El by done.
  assert (0 < length t)%nat by (destruct t; [done|cbn [length]; lia]).
  pose proof length_line as Hll. pose proof length_before_uri as Hq1. set (q1 := before_uri) in *.
  assert (memchr (pre ++ line ++ 0 :: post) (Z.of_nat (length pre)) 32 (Z.of_nat (length line)) = Some (Some (length mth))) as E1
    by (rewrite El; by apply memchr_found).
  assert (mem_write (pre ++ line ++ 0 :: post) (Z.of_nat (length pre) + Z.of_nat (length mth)) [0]
          = Some (q1 ++ t ++ 32 :: ver ++ 0 :: post)) as E2.
  { rewrite El, <- !app_assoc. cbn [app]. rewrite (app_assoc pre), write_at by (rewrite length_app; lia).
    unfold q1, before_uri. by rewrite <- !app_assoc. }
  assert (∃ c t', t = c :: t' /\ c ≠ 32) as (ch & t' & Et & Hch).
  { destruct t as [|ch t']; [done|]. apply not_elem_of_cons in Ht as [? _]. by exists ch, t'. }
  rewrite Em, E1. cbn [mbind option_bind]. rewrite E2. cbn [mbind option_bind].
  set (uri := Z.of_nat (length pre) + Z.of_nat (length mth) + 1).
  assert (skip_to_uri (Z.to_nat (Z.of_nat (length line) - (uri - Z.of_nat (length pre)))) (q1 ++ t ++ 32 :: ver ++ 0 :: post) uri
          = Some (Z.of_nat (length q1))) as ->.
  { unfold q1, before_uri. rewrite Et. replace ((pre ++ mth ++ 0 :: replicate k 32) ++ (ch :: t') ++ 32 :: ver ++ 0 :: post)
      with ((pre ++ mth ++ [0]) ++ replicate k 32 ++ ch :: t' ++ 32 :: ver ++ 0 :: post) by (by rewrite <- !app_assoc).
    rewrite skip_to_uri_run; [f_equal; change (pre ++ mth ++ 0 :: replicate k 32) with q1; lia|unfold uri; rewrite !length_app; cbn [length]; lia|lia|done]. }
  cbn [mbind option_bind]. destruct (Z.eqb_spec (Z.of_nat (length q1) - Z.of_nat (length pre)) (Z.of_nat (length line))); [lia|].
  rewrite (split_version_ok q1 t ver (0 :: post)) by (done || lia). cbn [mbind option_bind].
  assert ((if 1 <=? strict_for_client d then memchr (q1 ++ t ++ 0 :: ver ++ 0 :: post) (Z.of_nat (length q1)) 32 (Z.of_nat (length t))
           else Some None) = Some None) as ->.
  { destruct (1 <=? strict_for_client d); [by apply memchr_absent|done]. }
  cbn [mbind option_bind].
  assert (memchr (q1 ++ t ++ 0 :: ver ++ 0 :: post) (Z.of_nat (length q1)) 63 (Z.of_nat (length t))
          = Some ((λ _, length path) <$> query)) as ->.
  { unfold t, target. destruct query as [q|]; cbn [fmap option_fmap option_map].
    - by apply memchr_found.
    - rewrite app_nil_r. by apply memchr_absent. }
  cbn [mbind option_bind].
  cbn [mbind option_bind].
  by destruct query, (has_uri_log d); cbn [fmap option_fmap option_map]; rewrite ?Nat2Z.inj_add.
Qed.
End Request_line.

Section Theorem_.
Context `{Platform} (d : daemon_config) (env : reply_env).

Lemma request_line_spec `{!UnescapeCallback (unescape_callback d)} c pre mth k path query ver post :
  memory (pool c) = pre ++ request_text mth k path query ver ++ 0 :: post -> pool_inv (pool c) ->
  32 ∉ mth -> 32 ∉ target path query -> 63 ∉ path -> 32 ∉ ver -> ver ≠ [] -> target path query ≠ [] ->
  no_nul (target path query) -> headers_received (req c) = [] ->
  room (pool c) (length (query_arguments d query)) ->
  ∃ p x st m u v,
    let r := mkRequest (Some (Pool (Z.of_nat m))) (Some (Pool (Z.of_nat u))) (Some (Pool (Z.of_nat v)))
               (last (req c)) (colon (req c)) (arg_ref <$> st) in
    parse_initial_message_line d env c (Z.of_nat (length pre)) (Z.of_nat (length (request_text mth k path query ver)))
    = Some (true, set_req (set_pool (if has_uri_log d then set_aware c true else c) p) r)
    /\ memory p = pre ++ x ++ 0 :: post /\ length x = length (request_text mth k path query ver)
    /\ has_string (pre ++ x ++ [0]) m mth /\ has_string (pre ++ x ++ [0]) u (decode (unescape_callback d) path)
    /\ has_string (pre ++ x ++ [0]) v ver /\ Forall2 (entry_ok (pre ++ x ++ [0])) st (query_arguments d query)
    /\ pool_inv p /\ (forall n, room (pool c) (length (query_arguments d query) + n) -> room p n)
    /\ pos p = pos (pool c) /\ size p = size (pool c).
Proof.
  intros Em Hp Hmth Ht Hpath Hver Hvne Htne Hnn Hh Hr.
  rewrite (request_line_cut d env c pre mth k path query ver post) by done.
  pose proof (length_before_uri pre mth k) as Hq1. pose proof (length_line mth k path query ver) as Hll.
  set (line := request_text mth k path query ver) in *. set (t := target path query) in *.
  set (q1 := before_uri pre mth k) in *. set (c1 := cut_connection d c pre mth k path query ver post).
  assert (pool c1 = with_memory (pool c) (q1 ++ t ++ 0 :: ver ++ 0 :: post)) as Ep by (unfold c1, cut_connection; by case_match).
  assert (length (q1 ++ t ++ 0 :: ver ++ 0 :: post) = length (memory (pool c))) as Elen.
  { rewrite Em, !length_app. cbn [length]. rewrite Hll, Hq1, !length_app. cbn [length]. lia. }
  destruct (finish_line_ok d env c1 q1 path query (ver ++ 0 :: post)) as (p & g & st & E3 & Hl2 & Hpi & Hpl & Hroom & Epos & Hf).
  { by rewrite Ep. }
  { rewrite Ep. by apply pool_inv_memory. }
  { done. }
  { unfold c1, cut_connection. by case_match. }
  { by rewrite Ep. }
  rewrite E3. cbn [mbind option_bind]. rewrite Ep in Hpl, Hroom, Epos. cbn [with_memory memory] in Hpl.
  set (dp := decode (unescape_callback d) path) in *.
  rewrite length_app in Hl2. cbn [length] in Hl2. rewrite length_app in Hl2. cbn [length] in Hl2. fold t in Hl2.
  exists (with_memory p (q1 ++ dp ++ 0 :: g ++ ver ++ 0 :: post)), (mth ++ 0 :: replicate k 32 ++ dp ++ 0 :: g ++ ver), st,
    (length pre), (length q1), (length q1 + length t + 1)%nat.
  assert (pre ++ (mth ++ 0 :: replicate k 32 ++ dp ++ 0 :: g ++ ver) ++ [0] = (q1 ++ dp ++ 0 :: g) ++ ver ++ [0]) as Ex.
  { unfold q1, before_uri. repeat (rewrite <- ?app_assoc; cbn [app]). done. }
  split.
  { replace (Z.of_nat (length q1 + length t + 1)) with (Z.of_nat (length q1 + length t) + 1) by lia.
    unfold c1, cut_connection, set_url, with_mem, add_headers. by destruct (has_uri_log d); cbn; rewrite Hh. }
  split; [unfold q1, before_uri; cbn; repeat (rewrite <- ?app_assoc; cbn [app]); done|].
  split; [rewrite Hll, !length_app; cbn [length]; rewrite !length_app, length_replicate; cbn [length]; rewrite !length_app; lia|].
  split; [rewrite <- app_assoc; cbn [app]; apply has_string_at|]. rewrite Ex.
  split; [rewrite <- !app_assoc; apply has_string_at|].
  split.
  { replace (length q1 + length t + 1)%nat with (length (q1 ++ dp ++ 0 :: g)) by (rewrite !length_app; cbn [length]; lia).
    apply has_string_at. }
  split.
  { eapply Forall2_impl; [exact Hf|]. intros e a. apply entry_ok_app. }
  split; [apply pool_inv_memory; [done|]; rewrite Hpl, !length_app; cbn [length]; rewrite !length_app; lia|].
  split; [done|]. split; [done|]. destruct Hpi as [E1 _], Hp as [E2 _]. rewrite Hpl, Elen in E1. cbn. congruence.
Qed.

(** C9: The request line is parsed correctly: for a method, a URI and a
    version without blanks, any number of blanks in front of the URI, and any
    unescape callback that keeps its contract, the connection leads to the
    method, the decoded path and the version, and to the decoded arguments of
    the query in order; all of them lie in the place of the line and its
    terminator, and the rest of the pool is unchanged. *)
Theorem request_line_parsed `{!UnescapeCallback (unescape_callback d)} c pre mth k path query ver post :
  memory (pool c) = pre ++ request_text mth k path query ver ++ 0 :: post -> pool_inv (pool c) ->
  32 ∉ mth -> 32 ∉ target path query -> 63 ∉ path -> 32 ∉ ver -> ver ≠ [] -> target path query ≠ [] ->
  no_nul (target path query) -> headers_received (req c) = [] ->
  room (pool c) (length (query_arguments d query)) ->
  ∃ c' x st m u v,
    parse_initial_message_line d env c (Z.of_nat (length pre)) (Z.of_nat (length (request_text mth k path query ver)))
    = Some (true, c')
    /\ memory (pool c') = pre ++ x ++ 0 :: post /\ length x = length (request_text mth k path query ver)
    /\ method (req c') = Some (Pool (Z.of_nat m)) /\ has_string (pre ++ x ++ [0]) m mth
    /\ url (req c') = Some (Pool (Z.of_nat u)) /\ has_string (pre ++ x ++ [0]) u (decode (unescape_callback d) path)
    /\ version (req c') = Some (Pool (Z.of_nat v)) /\ has_string (pre ++ x ++ [0]) v ver
    /\ headers_received (req c') = arg_ref <$> st
    /\ Forall2 (entry_ok (pre ++ x ++ [0])) st (query_arguments d query).
Proof.
  intros Em Hp Hmth Ht Hpath Hver Hvne Htne Hnn Hh Hr.
  destruct (request_line_spec c pre mth k path query ver post) as (p & x & st & m & u & v & E & H1 & H2 & H3 & H4 & H5 & H6 & _); try done.
  eexists _, x, st, m, u, v. split; [exact E|]. by destruct (has_uri_log d).
Qed.
End Theorem_.

(** ** A concrete line *)

Lemma request_line_parsed_witness :
  let c := demo_request MHD_CONNECTION_INIT (request_text (str "GET") 0 (str "/a%20b") (Some (str "x=1&y")) (str "HTTP/1.1") ++ [0]) in
  ∃ c' st m u v,
    parse_initial_message_line (H := LP64) demo_daemon demo_env c 0 25 = Some (true, c')
    /\ method (req c') = Some (Pool (Z.of_nat m)) /\ has_string (memory (pool c')) m (str "GET")
    /\ url (req c') = Some (Pool (Z.of_nat u)) /\ has_string (memory (pool c')) u (str "/a b")
    /\ version (req c') = Some (Pool (Z.of_nat v)) /\ has_string (memory (pool c')) v (str "HTTP/1.1")
    /\ headers_received (req c') = arg_ref <$> st
    /\ Forall2 (entry_ok (memory (pool c'))) st [(str "x", Some (str "1")); (str "y", None)].
Proof.
  intros c.
  assert (memory (pool c) = [] ++ request_text (str "GET") 0 (str "/a%20b") (Some (str "x=1&y")) (str "HTTP/1.1") ++ 0 :: replicate 486 0)
    as H1 by (vm_compute; exact eq_refl).
  assert (pool_inv (H := LP64) (pool c)) as H2 by (split; [vm_compute; exact eq_refl|split_and!; vm_compute; done]).
  destruct (request_line_parsed (H := LP64) demo_daemon demo_env c [] (str "GET") 0 (str "/a%20b") (Some (str "x=1&y"))
    (str "HTTP/1.1") (replicate 486 0) H1 H2) as (c' & x & st & m & u & v & E & Emem & _ & Em & Hm & Eu & Hu & Ev & Hv & Eh & Hf).
  1-7: apply (bool_decide_unpack _); vm_compute; exact I.
  1: reflexivity.
  1: apply (bool_decide_unpack _); vm_compute; exact I.
  clearbody c. exists c', st, m, u, v.
  assert (memory (pool c') = ([] ++ x ++ [0]) ++ replicate 486 0) as -> by (by rewrite Emem, <- !app_assoc).
  split; [exact E|]. split; [exact Em|]. split; [by apply has_string_app|]. split; [exact Eu|]. split; [by apply has_string_app|].
  split; [exact Ev|]. split; [by apply has_string_app|]. split; [exact Eh|].
  eapply Forall2_impl; [exact Hf|]. intros e a. apply entry_ok_app.
Defined.
