(* ===== verification/PostProcessor.v ===== *)
(** * POST data (libmicrohttpd/src/microhttpd/postprocessor.c)

    The incremental parser of request bodies: url-encoded forms with their
    escape sequences that may be cut by the chunks the data arrives in, and
    multipart bodies with their two coupled state machines.  [None] as a
    result is undefined behaviour (an access outside an object) or a call of
    [mhd_panic]; the theorems exclude both. *)

From S2P Require Import Prelude MhdStr MemoryPool Headers Internal.

(** ** State *)

Inductive PP_State :=
  PP_Error | PP_Done | PP_Init | PP_NextBoundary
| PP_ProcessValue | PP_ExpectNewLine
| PP_ProcessEntryHeaders | PP_PerformCheckMultipart | PP_ProcessValueToBoundary | PP_PerformCleanup
| PP_Nested_Init | PP_Nested_PerformMarking | PP_Nested_ProcessEntryHeaders
| PP_Nested_ProcessValueToBoundary | PP_Nested_PerformCleanup.

Inductive RN_State := RN_Inactive | RN_OptN | RN_Full | RN_Dash | RN_Dash2.

#[export] Instance PP_State_eq_dec : EqDecision PP_State.
Proof. solve_decision. Defined.

#[export] Instance RN_State_eq_dec : EqDecision RN_State.
Proof. solve_decision. Defined.

(** The bits of [enum NE_State]. *)
Abbreviation NE_none := 0.
Abbreviation NE_content_name := 1.
Abbreviation NE_content_type := 2.
Abbreviation NE_content_filename := 4.
Abbreviation NE_content_transfer_encoding := 8.

Abbreviation XBUF_SIZE := 512%nat.

(** [struct MHD_PostProcessor] and, as [buf], the bytes allocated behind it.
    [boundary] is a pointer into the string [encoding]; the other strings are
    allocated ones, given without their terminator. *)
Record MHD_PostProcessor := mkPP {
  encoding : bytes;
  boundary : option bytes;
  nested_boundary : option bytes;
  content_name : option bytes;
  content_type : option bytes;
  content_filename : option bytes;
  content_transfer_encoding : option bytes;
  pp_xbuf : bytes;
  buffer_size : nat;
  buffer_pos : nat;
  xbuf_pos : nat;
  value_offset : Z;
  blen : Z;
  nlen : Z;
  must_ikvi : bool;
  state : PP_State;
  skip_rn : RN_State;
  dash_state : PP_State;
  have : Z;
  buf : bytes
}.

Definition set_nested_boundary (x : option bytes) (p : MHD_PostProcessor) : MHD_PostProcessor :=
  mkPP (encoding p) (boundary p) x (content_name p) (content_type p) (content_filename p)
    (content_transfer_encoding p) (pp_xbuf p) (buffer_size p) (buffer_pos p) (xbuf_pos p)
    (value_offset p) (blen p) (nlen p) (must_ikvi p) (state p) (skip_rn p) (dash_state p) (have p)
    (buf p).

Definition set_content_name (x : option bytes) (p : MHD_PostProcessor) : MHD_PostProcessor :=
  mkPP (encoding p) (boundary p) (nested_boundary p) x (content_type p) (content_filename p)
    (content_transfer_encoding p) (pp_xbuf p) (buffer_size p) (buffer_pos p) (xbuf_pos p)
    (value_offset p) (blen p) (nlen p) (must_ikvi p) (state p) (skip_rn p) (dash_state p) (have p)
    (buf p).

Definition set_content_type (x : option bytes) (p : MHD_PostProcessor) : MHD_PostProcessor :=
  mkPP (encoding p) (boundary p) (nested_boundary p) (content_name p) x (content_filename p)
    (content_transfer_encoding p) (pp_xbuf p) (buffer_size p) (buffer_pos p) (xbuf_pos p)
    (value_offset p) (blen p) (nlen p) (must_ikvi p) (state p) (skip_rn p) (dash_state p) (have p)
    (buf p).

Definition set_content_filename (x : option bytes) (p : MHD_PostProcessor) : MHD_PostProcessor :=
  mkPP (encoding p) (boundary p) (nested_boundary p) (content_name p) (content_type p) x
    (content_transfer_encoding p) (pp_xbuf p) (buffer_size p) (buffer_pos p) (xbuf_pos p)
    (value_offset p) (blen p) (nlen p) (must_ikvi p) (state p) (skip_rn p) (dash_state p) (have p)
    (buf p).

Definition set_content_transfer_encoding (x : option bytes) (p : MHD_PostProcessor) : MHD_PostProcessor :=
  mkPP (encoding p) (boundary p) (nested_boundary p) (content_name p) (content_type p)
    (content_filename p) x (pp_xbuf p) (buffer_size p) (buffer_pos p) (xbuf_pos p) (value_offset p)
    (blen p) (nlen p) (must_ikvi p) (state p) (skip_rn p) (dash_state p) (have p) (buf p).

Definition set_pp_xbuf (x : bytes) (p : MHD_PostProcessor) : MHD_PostProcessor :=
  mkPP (encoding p) (boundary p) (nested_boundary p) (content_name p) (content_type p)
    (content_filename p) (content_transfer_encoding p) x (buffer_size p) (buffer_pos p) (xbuf_pos p)
    (value_offset p) (blen p) (nlen p) (must_ikvi p) (state p) (skip_rn p) (dash_state p) (have p)
    (buf p).

Definition set_buffer_pos (x : nat) (p : MHD_PostProcessor) : MHD_PostProcessor :=
  mkPP (encoding p) (boundary p) (nested_boundary p) (content_name p) (content_type p)
    (content_filename p) (content_transfer_encoding p) (pp_xbuf p) (buffer_size p) x (xbuf_pos p)
    (value_offset p) (blen p) (nlen p) (must_ikvi p) (state p) (skip_rn p) (dash_state p) (have p)
    (buf p).

Definition set_xbuf_pos (x : nat) (p : MHD_PostProcessor) : MHD_PostProcessor :=
  mkPP (encoding p) (boundary p) (nested_boundary p) (content_name p) (content_type p)
    (content_filename p) (content_transfer_encoding p) (pp_xbuf p) (buffer_size p) (buffer_pos p) x
    (value_offset p) (blen p) (nlen p) (must_ikvi p) (state p) (skip_rn p) (dash_state p) (have p)
    (buf p).

Definition set_value_offset (x : Z) (p : MHD_PostProcessor) : MHD_PostProcessor :=
  mkPP (encoding p) (boundary p) (nested_boundary p) (content_name p) (content_type p)
    (content_filename p) (content_transfer_encoding p) (pp_xbuf p) (buffer_size p) (buffer_pos p)
    (xbuf_pos p) x (blen p) (nlen p) (must_ikvi p) (state p) (skip_rn p) (dash_state p) (have p)
    (buf p).

Definition set_nlen (x : Z) (p : MHD_PostProcessor) : MHD_PostProcessor :=
  mkPP (encoding p) (boundary p) (nested_boundary p) (content_name p) (content_type p)
    (content_filename p) (content_transfer_encoding p) (pp_xbuf p) (buffer_size p) (buffer_pos p)
    (xbuf_pos p) (value_offset p) (blen p) x (must_ikvi p) (state p) (skip_rn p) (dash_state p)
    (have p) (buf p).

Definition set_must_ikvi (x : bool) (p : MHD_PostProcessor) : MHD_PostProcessor :=
  mkPP (encoding p) (boundary p) (nested_boundary p) (content_name p) (content_type p)
    (content_filename p) (content_transfer_encoding p) (pp_xbuf p) (buffer_size p) (buffer_pos p)
    (xbuf_pos p) (value_offset p) (blen p) (nlen p) x (state p) (skip_rn p) (dash_state p) (have p)
    (buf p).

Definition set_state (x : PP_State) (p : MHD_PostProcessor) : MHD_PostProcessor :=
  mkPP (encoding p) (boundary p) (nested_boundary p) (content_name p) (content_type p)
    (content_filename p) (content_transfer_encoding p) (pp_xbuf p) (buffer_size p) (buffer_pos p)
    (xbuf_pos p) (value_offset p) (blen p) (nlen p) (must_ikvi p) x (skip_rn p) (dash_state p)
    (have p) (buf p).

Definition set_skip_rn (x : RN_State) (p : MHD_PostProcessor) : MHD_PostProcessor :=
  mkPP (encoding p) (boundary p) (nested_boundary p) (content_name p) (content_type p)
    (content_filename p) (content_transfer_encoding p) (pp_xbuf p) (buffer_size p) (buffer_pos p)
    (xbuf_pos p) (value_offset p) (blen p) (nlen p) (must_ikvi p) (state p) x (dash_state p)
    (have p) (buf p).

Definition set_dash_state (x : PP_State) (p : MHD_PostProcessor) : MHD_PostProcessor :=
  mkPP (encoding p) (boundary p) (nested_boundary p) (content_name p) (content_type p)
    (content_filename p) (content_transfer_encoding p) (pp_xbuf p) (buffer_size p) (buffer_pos p)
    (xbuf_pos p) (value_offset p) (blen p) (nlen p) (must_ikvi p) (state p) (skip_rn p) x (have p)
    (buf p).

Definition set_have (x : Z) (p : MHD_PostProcessor) : MHD_PostProcessor :=
  mkPP (encoding p) (boundary p) (nested_boundary p) (content_name p) (content_type p)
    (content_filename p) (content_transfer_encoding p) (pp_xbuf p) (buffer_size p) (buffer_pos p)
    (xbuf_pos p) (value_offset p) (blen p) (nlen p) (must_ikvi p) (state p) (skip_rn p)
    (dash_state p) x (buf p).

Definition set_buf (x : bytes) (p : MHD_PostProcessor) : MHD_PostProcessor :=
  mkPP (encoding p) (boundary p) (nested_boundary p) (content_name p) (content_type p)
    (content_filename p) (content_transfer_encoding p) (pp_xbuf p) (buffer_size p) (buffer_pos p)
    (xbuf_pos p) (value_offset p) (blen p) (nlen p) (must_ikvi p) (state p) (skip_rn p)
    (dash_state p) (have p) x.

(** Compute the fields of an updated post processor. *)
Ltac pp_simpl :=
  cbn [encoding boundary nested_boundary content_name content_type content_filename content_transfer_encoding
       pp_xbuf buffer_size buffer_pos xbuf_pos value_offset blen nlen must_ikvi state skip_rn dash_state have buf
       set_nested_boundary set_content_name set_content_type set_content_filename set_content_transfer_encoding
       set_pp_xbuf set_buffer_pos set_xbuf_pos set_value_offset set_nlen set_must_ikvi set_state set_skip_rn
       set_dash_state set_have set_buf] in *.

(** ** Creation *)

Definition FORM_URLENCODED : bytes := str "application/x-www-form-urlencoded".

Definition MULTIPART_FORMDATA : bytes := str "multipart/form-data".

(** [MHD_str_equal_caseless_n_ (literal, s, MHD_STATICSTR_LEN_ (literal))]. *)
Definition has_prefix_caseless (literal s : bytes) : option bool :=
  MHD_str_equal_caseless_n_ (cstr literal) s (length literal).

(** The primary boundary in the content type and its length, or [None] when
    the encoding is not supported; for url-encoded data there is no boundary. *)
Definition find_encoding `{Platform} (encoding : bytes) (buffer_size : Z)
    : option (option (option bytes * Z)) :=
  u ← has_prefix_caseless FORM_URLENCODED encoding;
  if (u : bool) then Some (Some (None, 0))
  else
    m ← has_prefix_caseless MULTIPART_FORMDATA encoding;
    if negb m then Some None
    else
      let rest := drop (length MULTIPART_FORMDATA) encoding in
      r ← strstr rest (str "boundary=");
      match r with
      | None => Some None
      | Some k =>
          let boundary := drop (k + length (str "boundary=")) rest in
          n ← strlen boundary;
          let blen := Z.of_nat n in
          if (blen =? 0) || (usize (blen * 2 + 2) >? buffer_size) then Some None
          else
            first ← deref boundary;
            last ← deref_at boundary (n - 1);
            if (first =? 34) && (last =? 34)
            then Some (Some (Some (tail boundary), usize (blen - 2)))
            else Some (Some (Some boundary, blen))
      end.

(** [None] is the panic on unusable arguments, [Some None] the null pointer.
    [calloc_ok] says whether the allocation succeeds. *)
Definition MHD_create_post_processor `{Platform} (calloc_ok : bool)
    (headers_received : option (list MHD_HTTP_Header)) (buffer_size : nat) : option (option MHD_PostProcessor) :=
  if (buffer_size <? 256)%nat || bool_decide (headers_received = None) then None
  else
    encoding ← MHD_lookup_connection_value headers_received MHD_HEADER_KIND (Some (str "Content-Type"));
    match encoding with
    | None => Some None
    | Some encoding =>
        e ← find_encoding (cstr encoding) (Z.of_nat buffer_size);
        match e with
        | None => Some None
        | Some (boundary, blen) =>
            if negb calloc_ok then Some None
            else
              let buffer_size := (buffer_size + 4)%nat in
              Some (Some (mkPP (cstr encoding) boundary None None None None None (replicate 8 0) buffer_size 0 0 0
                blen 0 false PP_Init RN_Inactive PP_Error 0 (replicate (buffer_size + 1) 0)))
        end
    end.

(** ** Callbacks and control flow *)

(** The arguments of the application's [MHD_PostDataIterator]; the data is
    given with its [size] bytes. *)
Record post_data := mkPostData {
  pd_key : option bytes;
  pd_filename : option bytes;
  pd_content_type : option bytes;
  pd_transfer_encoding : option bytes;
  pd_data : bytes;
  pd_off : Z
}.

Section PostProcessor.
Context {St : Type} (ikvi : St -> post_data -> St * bool).
(** Whether an allocation of the given size succeeds. *)
Context (alloc_ok : Z -> bool).
(** The contents of the local array [xbuf] before it is written. *)
Context (stack_xbuf : bytes).

(** How one iteration of a loop ends: it goes on at [poff], or the function
    returns [MHD_YES] or [MHD_NO]. *)
Inductive step_result :=
| Next (pp : MHD_PostProcessor) (st : St) (poff : nat)
| Return (pp : MHD_PostProcessor) (st : St) (ret : bool).

(** ** URL-encoded data *)

Definition value_end (c : Z) : bool := (c =? 38) || (c =? 10) || (c =? 13).

Definition newline_char (c : Z) : bool := (c =? 10) || (c =? 13).

(** [case PP_Init]: collect the key up to '='. *)
Definition urlencoded_key (pp : MHD_PostProcessor) (st : St) (post_data : bytes) (poff : nat) : option step_result :=
  let equals := count_until (Z.eqb 61) (drop poff post_data) in
  if (buffer_size pp <? equals + buffer_pos pp)%nat then Some (Return (set_state PP_Error pp) st false)
  else
    bs ← mem_read post_data (Z.of_nat poff) (Z.of_nat equals);
    b ← mem_write (buf pp) (Z.of_nat (buffer_pos pp)) bs;
    let pp := set_buffer_pos (buffer_pos pp + equals) (set_buf b pp) in
    if (equals + poff =? length post_data)%nat then Some (Return pp st true)
    else
      b ← mem_write (buf pp) (Z.of_nat (buffer_pos pp)) [0];
      b ← MHD_unescape_plus b 0;
      '(b, _) ← MHD_http_unescape b 0;
      let pp := set_buffer_pos 0 (set_buf b pp) in
      Some (Next (set_value_offset 0 (set_state PP_ProcessValue pp)) st (poff + (equals + 1))).

(** The escape sequence the processing buffer ends in is held back: the part
    that can be processed. *)
Definition complete_part (xbuf : bytes) (xoff : nat) : option nat :=
  last ← (if (0 <? xoff)%nat then deref_at xbuf (xoff - 1) else Some 0);
  if (0 <? xoff)%nat && (last =? 37) then Some (xoff - 1)%nat
  else
    before ← (if (1 <? xoff)%nat then deref_at xbuf (xoff - 2) else Some 0);
    if (1 <? xoff)%nat && (before =? 37) then Some (xoff - 2)%nat
    else Some xoff.

(** The end of [case PP_ProcessValue], after the data was delivered. *)
Definition urlencoded_value_end (pp : MHD_PostProcessor) (st : St) (post_data : bytes) (poff : nat)
    (end_of_value_found : bool) : option step_result :=
  if end_of_value_found then
    c ← deref_at post_data poff;
    if newline_char c then Some (Next (set_state PP_ExpectNewLine pp) st poff)
    else if c =? 38 then Some (Next (set_state PP_Init pp) st (S poff))
    else Some (Next pp st poff)
  else Some (Next pp st poff).

(** [case PP_ProcessValue] from the search for an escape sequence at the end
    of the processing buffer on. *)
Definition urlencoded_value_process (pp : MHD_PostProcessor) (st : St) (post_data : bytes) (poff : nat)
    (xbuf : bytes) (xoff : nat) (end_of_value_found : bool) : option step_result :=
  delta ← complete_part xbuf xoff;
  '(pp, xoff) ←
    (if (delta <? xoff)%nat then
       bs ← mem_read xbuf (Z.of_nat delta) (Z.of_nat (xoff - delta));
       px ← mem_write (pp_xbuf pp) 0 bs;
       Some (set_xbuf_pos (xoff - delta) (set_pp_xbuf px pp), delta)
     else Some (pp, xoff));
  if (xoff =? 0)%nat && (poff =? length post_data)%nat then Some (Next pp st poff)
  else
    '(xbuf, xoff) ←
      (xbuf ← mem_write xbuf (Z.of_nat xoff) [0];
       xbuf ← MHD_unescape_plus xbuf 0;
       MHD_http_unescape xbuf 0);
    let pp := set_must_ikvi false pp in
    key ← cstring (buf pp);
    data ← mem_read xbuf 0 (Z.of_nat xoff);
    let '(st, ok) := ikvi st (mkPostData (Some key) None None None data (value_offset pp)) in
    if negb ok then Some (Return (set_state PP_Error pp) st false)
    else
      let pp := set_value_offset (u64 (value_offset pp + Z.of_nat xoff)) pp in
      urlencoded_value_end pp st post_data poff end_of_value_found.

(** [case PP_ProcessValue]: move held bytes and input into the processing
    buffer. *)
Definition urlencoded_value (pp : MHD_PostProcessor) (st : St) (post_data : bytes) (poff : nat) : option step_result :=
  held ← mem_read (pp_xbuf pp) 0 (Z.of_nat (xbuf_pos pp));
  xbuf ← mem_write stack_xbuf 0 held;
  let xoff := xbuf_pos pp in
  let pp := set_xbuf_pos 0 pp in
  let amper := count_until value_end (take XBUF_SIZE (drop poff post_data)) in
  let end_of_value_found :=
    match post_data !! (poff + amper)%nat with Some c => value_end c | None => false end in
  let delta := Nat.min amper (XBUF_SIZE - xoff) in
  bs ← mem_read post_data (Z.of_nat poff) (Z.of_nat delta);
  xbuf ← mem_write xbuf (Z.of_nat xoff) bs;
  urlencoded_value_process pp st post_data (poff + delta) xbuf (xoff + delta) end_of_value_found.

Definition urlencoded_step (pp : MHD_PostProcessor) (st : St) (post_data : bytes) (poff : nat) : option step_result :=
  match state pp with
  | PP_Error => Some (Return pp st false)
  | PP_Done => Some (Return (set_state PP_Error pp) st false)
  | PP_Init => urlencoded_key pp st post_data poff
  | PP_ProcessValue => urlencoded_value pp st post_data poff
  | PP_ExpectNewLine =>
      c ← deref_at post_data poff;
      if newline_char c then Some (Return (set_state PP_Done pp) st true)
      else Some (Return pp st false)
  | _ => None
  end.

Fixpoint urlencoded_loop (fuel : nat) (pp : MHD_PostProcessor) (st : St) (post_data : bytes) (poff : nat)
    : option (MHD_PostProcessor * St * bool) :=
  if (poff <? length post_data)%nat then
    match fuel with
    | O => None
    | S fuel' =>
        r ← urlencoded_step pp st post_data poff;
        match r with
        | Next pp st poff => urlencoded_loop fuel' pp st post_data poff
        | Return pp st ret => Some (pp, st, ret)
        end
    end
  else Some (pp, st, true).

(** An iteration consumes input or is the last one on its position: twice the
    length bounds their number. *)
Definition post_process_urlencoded (pp : MHD_PostProcessor) (st : St) (post_data : bytes)
    : option (MHD_PostProcessor * St * bool) :=
  urlencoded_loop (S (2 * length post_data)) pp st post_data 0.

(** ** Pieces of a multipart entry header *)

(** [strdup (s)] of the C string at [s]; [None] is the null pointer. *)
Definition strdup (s : bytes) : option (option bytes) :=
  t ← cstring s;
  Some (if alloc_ok (Z.of_nat (length t + 1)) then Some t else None).

(** The loop of [try_match_header]. *)
Fixpoint match_header_loop (prefix line : bytes) : option (option bytes) :=
  match line with
  | [] => None
  | c :: line' =>
      if c =? 0 then Some None
      else
        m ← has_prefix_caseless prefix line;
        if (m : bool) then strdup (drop (length prefix) line)
        else match_header_loop prefix line'
  end.

(** The new value of [*suffix]. *)
Definition try_match_header (prefix line : bytes) (suffix : option bytes) : option (option bytes) :=
  match suffix with
  | Some _ => Some suffix
  | None => match_header_loop prefix line
  end.

(** [while (NULL != (spos = strstr (bpos, key)))] with [bpos] as an offset
    into the string; every round moves it forward. *)
Fixpoint get_value_loop (fuel : nat) (s key : bytes) (bpos : nat) : option (option bytes) :=
  r ← strstr (drop bpos s) key;
  match r, fuel with
  | None, _ => Some None
  | Some _, O => None
  | Some k, S fuel' =>
      let spos := (bpos + k)%nat in
      let klen := length key in
      c ← deref_at s (spos + klen);
      before ← (if (spos =? 0)%nat then Some 32 else deref_at s (spos - 1));
      if negb (c =? 61) || (negb (spos =? 0)%nat && negb (before =? 32))
      then get_value_loop fuel' s key (S spos)
      else
        q ← deref_at s (spos + klen + 1);
        if negb (q =? 34) then Some None
        else
          e ← strchr (drop (spos + klen + 2) s) 34;
          match e with
          | None => Some None
          | Some e =>
              let endv := (spos + klen + 2 + e)%nat in
              let vlen := (endv - spos - klen - 1)%nat in
              if negb (alloc_ok (Z.of_nat vlen)) then Some None
              else
                v ← mem_read s (Z.of_nat (spos + klen + 2)) (Z.of_nat (vlen - 1));
                Some (Some v)
          end
  end.

(** The new value of [*destination]. *)
Definition try_get_value (s key : bytes) (destination : option bytes) : option (option bytes) :=
  match destination with
  | Some _ => Some destination
  | None => get_value_loop (length s) s key 0
  end.

(** ** Boundaries, entry headers and values

    Each operation gets the offset [*ioffptr] and returns whether the code
    returned [MHD_YES], the post processor and the new offset. *)

Definition find_boundary `{Platform} (pp : MHD_PostProcessor) (bnd : option bytes) (bl : Z) (ioff : nat)
    (next_state next_dash_state : PP_State) : option (bool * MHD_PostProcessor * nat) :=
  if Z.of_nat (buffer_pos pp) <? usize (2 + bl) then
    if (buffer_pos pp =? buffer_size pp)%nat then Some (false, set_state PP_Error pp, ioff)
    else Some (false, pp, ioff)
  else
    dashes ← memcmp_eq (str "--") (buf pp) 2;
    same ← (if negb dashes then Some false else b ← bnd; memcmp_eq (drop 2 (buf pp)) b bl);
    if negb same then
      if negb (bool_decide (state pp = PP_Init)) then Some (false, set_state PP_Error pp, ioff)
      else
        dash ← memchr (buf pp) 0 45 (Z.of_nat (buffer_pos pp));
        Some (false, pp,
              match dash with
              | None => ioff + buffer_pos pp
              | Some O => ioff + 1
              | Some d => ioff + d
              end%nat)
    else
      Some (true, set_dash_state next_dash_state (set_state next_state (set_skip_rn RN_Dash pp)),
            (ioff + 2 + Z.to_nat bl)%nat).

(** The fields set by one header line. *)
Definition entry_header (pp : MHD_PostProcessor) : option MHD_PostProcessor :=
  let disposition := str "Content-disposition: " in
  d ← has_prefix_caseless disposition (buf pp);
  if (d : bool) then
    name ← try_get_value (drop (length disposition) (buf pp)) (str "name") (content_name pp);
    let pp := set_content_name name pp in
    filename ← try_get_value (drop (length disposition) (buf pp)) (str "filename") (content_filename pp);
    Some (set_content_filename filename pp)
  else
    type ← try_match_header (str "Content-type: ") (buf pp) (content_type pp);
    let pp := set_content_type type pp in
    enc ← try_match_header (str "Content-Transfer-Encoding: ") (buf pp) (content_transfer_encoding pp);
    Some (set_content_transfer_encoding enc pp).

Definition process_multipart_headers (pp : MHD_PostProcessor) (ioff : nat) (next_state : PP_State)
    : option (bool * MHD_PostProcessor * nat) :=
  let newline := count_until newline_char (take (buffer_pos pp) (buf pp)) in
  if (newline =? buffer_size pp)%nat then Some (false, set_state PP_Error pp, ioff)
  else if (newline =? buffer_pos pp)%nat then Some (false, pp, ioff)
  else if (newline =? 0)%nat then Some (true, set_state next_state (set_skip_rn RN_Full pp), ioff)
  else
    c ← deref_at (buf pp) newline;
    let pp := if c =? 13 then set_skip_rn RN_OptN pp else pp in
    b ← mem_write (buf pp) (Z.of_nat newline) [0];
    pp ← entry_header (set_buf b pp);
    Some (true, pp, (ioff + (newline + 1))%nat).

(** [while (newline + 4 < pp->buffer_pos)]: the next place where a boundary
    may start. *)
Fixpoint boundary_start (fuel : nat) (b : bytes) (pos newline : nat) : option nat :=
  if (newline + 4 <? pos)%nat then
    match fuel with
    | O => None
    | S fuel' =>
        r ← memchr b (Z.of_nat newline) 13 (Z.of_nat (pos - newline - 4));
        match r with
        | None => Some (pos - 4)%nat
        | Some k =>
            let newline := (newline + k)%nat in
            same ← memcmp_eq (13 :: 10 :: str "--") (drop newline b) 4;
            if (same : bool) then Some newline else boundary_start fuel' b pos (S newline)
        end
    end
  else Some newline.

(** [while (1)]: whether a boundary was found, and the end of the value. *)
Fixpoint boundary_search `{Platform} (fuel : nat) (b : bytes) (pos : nat) (bnd : option bytes) (bl : Z) (newline : nat)
    : option (bool * nat) :=
  newline ← boundary_start pos b pos newline;
  if usize (usize (Z.of_nat newline + bl) + 4) <=? Z.of_nat pos then
    bn ← bnd;
    same ← memcmp_eq (drop (newline + 4) b) bn bl;
    if negb same then
      match fuel with
      | O => None
      | S fuel' => boundary_search fuel' b pos bnd bl (newline + 4)
      end
    else Some (true, newline)
  else Some (false, newline).

Definition process_value_to_boundary `{Platform} (pp : MHD_PostProcessor) (st : St) (ioff : nat) (bnd : option bytes)
    (bl : Z) (next_state next_dash_state : PP_State) : option (bool * MHD_PostProcessor * St * nat) :=
  '(found, newline) ← boundary_search (buffer_pos pp) (buf pp) (buffer_pos pp) bnd bl 0;
  if negb found && (newline =? 0)%nat && (buffer_pos pp =? buffer_size pp)%nat
  then Some (false, set_state PP_Error pp, st, ioff)
  else
    '(pp, ioff) ←
      (if (found : bool) then
         b ← mem_write (buf pp) (Z.of_nat newline) [0];
         Some (set_buf b (set_dash_state next_dash_state (set_state next_state (set_skip_rn RN_Dash pp))),
               (ioff + (Z.to_nat bl + 4))%nat)
       else Some (pp, ioff));
    data ← mem_read (buf pp) 0 (Z.of_nat newline);
    let '(st, ok) :=
      (if must_ikvi pp || negb (newline =? 0)%nat then
         ikvi st (mkPostData (content_name pp) (content_filename pp) (content_type pp)
                             (content_transfer_encoding pp) data (value_offset pp))
       else (st, true)) in
    if negb ok then Some (false, set_state PP_Error pp, st, ioff)
    else
      Some (true, set_value_offset (u64 (value_offset pp + Z.of_nat newline)) (set_must_ikvi false pp), st,
            (ioff + newline)%nat).

Definition free_field (have bit : Z) (field : option bytes) : option bytes :=
  if Z.land have bit =? 0 then None else field.

Definition free_unmarked (pp : MHD_PostProcessor) : MHD_PostProcessor :=
  let pp := set_content_name (free_field (have pp) NE_content_name (content_name pp)) pp in
  let pp := set_content_type (free_field (have pp) NE_content_type (content_type pp)) pp in
  let pp := set_content_filename (free_field (have pp) NE_content_filename (content_filename pp)) pp in
  set_content_transfer_encoding
    (free_field (have pp) NE_content_transfer_encoding (content_transfer_encoding pp)) pp.

(** ** Multipart data *)

(** The side machine for line ends and dashes: it consumes input and goes to
    [AGAIN], makes the function return [MHD_NO], or leaves the buffer to the
    main machine. *)
Inductive rn_result :=
| Rn_again (pp : MHD_PostProcessor) (ioff : nat)
| Rn_fail (pp : MHD_PostProcessor)
| Rn_main (pp : MHD_PostProcessor).

(** [case RN_Full], also reached from the cases above it. *)
Definition rn_full (pp : MHD_PostProcessor) : option rn_result :=
  c ← deref_at (buf pp) 0;
  if c =? 13 then
    c1 ← (if (1 <? buffer_pos pp)%nat then deref_at (buf pp) 1 else Some 0);
    if (1 <? buffer_pos pp)%nat && (c1 =? 10)
    then Some (Rn_again (set_skip_rn RN_Inactive pp) 2)
    else Some (Rn_again (set_skip_rn RN_OptN pp) 1)
  else if c =? 10 then Some (Rn_again (set_skip_rn RN_Inactive pp) 1)
  else Some (Rn_fail (set_state PP_Error (set_skip_rn RN_Inactive pp))).

(** [case RN_Dash], also reached from [RN_OptN]. *)
Definition rn_dash (pp : MHD_PostProcessor) : option rn_result :=
  c ← deref_at (buf pp) 0;
  if c =? 45 then Some (Rn_again (set_skip_rn RN_Dash2 pp) 1)
  else rn_full (set_skip_rn RN_Full pp).

Definition rn_step (pp : MHD_PostProcessor) : option rn_result :=
  match skip_rn pp with
  | RN_Inactive => Some (Rn_main pp)
  | RN_OptN =>
      c ← deref_at (buf pp) 0;
      if c =? 10 then Some (Rn_again (set_skip_rn RN_Inactive pp) 1) else rn_dash pp
  | RN_Dash => rn_dash pp
  | RN_Full => rn_full pp
  | RN_Dash2 =>
      c ← deref_at (buf pp) 0;
      if c =? 45
      then Some (Rn_again (set_state (dash_state pp) (set_skip_rn RN_Full pp)) 1)
      else Some (Rn_main (set_state PP_Error pp))
  end.

(** How a state of the main machine ends: with [break], with [return MHD_NO]
    or with [goto END]. *)
Inductive engine_result :=
| Break (pp : MHD_PostProcessor) (st : St) (ioff : nat) (state_changed : bool)
| Fail (pp : MHD_PostProcessor) (st : St)
| Goto_END (pp : MHD_PostProcessor) (st : St) (ioff : nat).

(** The result of an operation that returned [MHD_NO] without more data. *)
Definition need_data (pp : MHD_PostProcessor) (st : St) (ioff : nat) : engine_result :=
  if bool_decide (state pp = PP_Error) then Fail pp st else Goto_END pp st ioff.

Definition boundary_state (r : bool * MHD_PostProcessor * nat) (st : St) : engine_result :=
  let '(yes, pp, ioff) := r in
  if (yes : bool) then Break pp st ioff false else need_data pp st ioff.

Definition headers_state (r : bool * MHD_PostProcessor * nat) (st : St) : engine_result :=
  let '(yes, pp, ioff) := r in
  if (yes : bool) then Break pp st ioff true else need_data pp st ioff.

Definition value_state (r : bool * MHD_PostProcessor * St * nat) : engine_result :=
  let '(yes, pp, st, ioff) := r in
  if negb yes && bool_decide (state pp = PP_Error) then Fail pp st else Break pp st ioff false.

(** [case PP_PerformCheckMultipart]. *)
Definition check_multipart (pp : MHD_PostProcessor) (st : St) : option engine_result :=
  let plain := Break (set_value_offset 0 (set_state PP_ProcessValueToBoundary pp)) st 0 true in
  match content_type pp with
  | None => Some plain
  | Some ty =>
      mixed ← MHD_str_equal_caseless_n_ (cstr ty) (cstr (str "multipart/mixed")) (length (str "multipart/mixed"));
      if (mixed : bool) then
        r ← strstr (cstr ty) (str "boundary=");
        match r with
        | None => Some (Fail (set_state PP_Error (set_nested_boundary None pp)) st)
        | Some k =>
            d ← strdup (drop (k + length (str "boundary=")) (cstr ty));
            match d with
            | None => Some (Fail (set_state PP_Error (set_nested_boundary None pp)) st)
            | Some nb =>
                let pp := set_content_type None (set_nested_boundary (Some nb) pp) in
                Some (Break (set_state PP_Nested_Init (set_nlen (Z.of_nat (length nb)) pp)) st 0 true)
            end
        end
      else Some plain
  end.

(** [case PP_Nested_PerformMarking]. *)
Definition mark_fields (pp : MHD_PostProcessor) : MHD_PostProcessor :=
  let bit (f : option bytes) b := match f with Some _ => b | None => 0 end in
  set_have (Z.lor (Z.lor (Z.lor (bit (content_name pp) NE_content_name) (bit (content_type pp) NE_content_type))
                         (bit (content_filename pp) NE_content_filename))
                  (bit (content_transfer_encoding pp) NE_content_transfer_encoding)) pp.

Definition engine_step `{Platform} (pp : MHD_PostProcessor) (st : St) : option engine_result :=
  match state pp with
  | PP_Error => Some (Fail pp st)
  | PP_Done => Some (Fail (set_state PP_Error pp) st)
  | PP_Init =>
      '(_, pp, ioff) ← find_boundary pp (boundary pp) (blen pp) 0 PP_ProcessEntryHeaders PP_Done;
      Some (Break pp st ioff false)
  | PP_NextBoundary =>
      r ← find_boundary pp (boundary pp) (blen pp) 0 PP_ProcessEntryHeaders PP_Done;
      Some (boundary_state r st)
  | PP_ProcessEntryHeaders =>
      r ← process_multipart_headers (set_must_ikvi true pp) 0 PP_PerformCheckMultipart;
      Some (headers_state r st)
  | PP_PerformCheckMultipart => check_multipart pp st
  | PP_ProcessValueToBoundary =>
      r ← process_value_to_boundary pp st 0 (boundary pp) (blen pp) PP_PerformCleanup PP_Done;
      Some (value_state r)
  | PP_PerformCleanup =>
      let pp := set_nested_boundary None (free_unmarked (set_have NE_none pp)) in
      Some (Break (set_state PP_ProcessEntryHeaders pp) st 0 true)
  | PP_Nested_Init =>
      match nested_boundary pp with
      | None => Some (Fail (set_state PP_Error pp) st)
      | Some nb =>
          r ← find_boundary pp (Some (cstr nb)) (nlen pp) 0 PP_Nested_PerformMarking PP_NextBoundary;
          Some (boundary_state r st)
      end
  | PP_Nested_PerformMarking =>
      Some (Break (set_state PP_Nested_ProcessEntryHeaders (mark_fields pp)) st 0 true)
  | PP_Nested_ProcessEntryHeaders =>
      r ← process_multipart_headers (set_value_offset 0 pp) 0 PP_Nested_ProcessValueToBoundary;
      Some (headers_state r st)
  | PP_Nested_ProcessValueToBoundary =>
      r ← process_value_to_boundary pp st 0 (cstr <$> nested_boundary pp) (nlen pp)
            PP_Nested_PerformCleanup PP_NextBoundary;
      Some (value_state r)
  | PP_Nested_PerformCleanup =>
      Some (Break (set_state PP_Nested_ProcessEntryHeaders (free_unmarked pp)) st 0 true)
  | PP_ProcessValue | PP_ExpectNewLine => None
  end.

(** [memmove (buf, &buf[ioff], buffer_pos - ioff)]. *)
Definition consume (pp : MHD_PostProcessor) (ioff : nat) : option MHD_PostProcessor :=
  b ← memmove (buf pp) 0 (Z.of_nat ioff) (Z.of_nat (buffer_pos pp) - Z.of_nat ioff);
  Some (set_buffer_pos (buffer_pos pp - ioff) (set_buf b pp)).

(** Label [END]. *)
Definition multipart_end (pp : MHD_PostProcessor) (st : St) (post_data : bytes) (poff ioff : nat)
    : option (MHD_PostProcessor * St * bool) :=
  pp ← (if negb (ioff =? 0)%nat then consume pp ioff else Some pp);
  if (poff <? length post_data)%nat then Some (set_state PP_Error pp, st, false)
  else Some (pp, st, true).

(** One iteration after the input was moved into the buffer: the loop goes on
    with the given [state_changed], or the function ends. *)
Inductive multipart_result :=
| Again (pp : MHD_PostProcessor) (st : St) (state_changed : bool)
| Failed (pp : MHD_PostProcessor) (st : St)
| Ended (pp : MHD_PostProcessor) (st : St) (ioff : nat).

(** Label [AGAIN]. *)
Definition again (pp : MHD_PostProcessor) (st : St) (ioff : nat) (state_changed : bool) : option multipart_result :=
  if (0 <? ioff)%nat then pp ← consume pp ioff; Some (Again pp st true)
  else Some (Again pp st state_changed).

Definition multipart_step `{Platform} (pp : MHD_PostProcessor) (st : St) : option multipart_result :=
  r ← rn_step pp;
  match r with
  | Rn_again pp ioff => again pp st ioff false
  | Rn_fail pp => Some (Failed pp st)
  | Rn_main pp =>
      e ← engine_step pp st;
      match e with
      | Break pp st ioff changed => again pp st ioff changed
      | Fail pp st => Some (Failed pp st)
      | Goto_END pp st ioff => Some (Ended pp st ioff)
      end
  end.

Fixpoint multipart_loop `{Platform} (fuel : nat) (pp : MHD_PostProcessor) (st : St) (post_data : bytes) (poff : nat)
    (state_changed : bool) : option (MHD_PostProcessor * St * bool) :=
  if (poff <? length post_data)%nat || ((0 <? buffer_pos pp)%nat && state_changed) then
    match fuel with
    | O => None
    | S fuel' =>
        let max := Nat.min (buffer_size pp - buffer_pos pp) (length post_data - poff) in
        bs ← mem_read post_data (Z.of_nat poff) (Z.of_nat max);
        b ← mem_write (buf pp) (Z.of_nat (buffer_pos pp)) bs;
        let poff := (poff + max)%nat in
        let pp := set_buffer_pos (buffer_pos pp + max) (set_buf b pp) in
        if (max =? 0)%nat && negb state_changed && (poff <? length post_data)%nat
        then Some (set_state PP_Error pp, st, false)
        else
          r ← multipart_step pp st;
          match r with
          | Again pp st changed => multipart_loop fuel' pp st post_data poff changed
          | Failed pp st => Some (pp, st, false)
          | Ended pp st ioff => multipart_end pp st post_data poff ioff
          end
    end
  else multipart_end pp st post_data poff 0.

(** Enough iterations: every one of them consumes a byte of the buffer, takes
    one of at most four transitions that do not, or reads new input. *)
Definition multipart_fuel (pp : MHD_PostProcessor) (post_data : bytes) : nat :=
  (16 * (buffer_pos pp + length post_data + 1) * (length post_data + 2))%nat.

Definition post_process_multipart `{Platform} (pp : MHD_PostProcessor) (st : St) (post_data : bytes)
    : option (MHD_PostProcessor * St * bool) :=
  multipart_loop (multipart_fuel pp post_data) pp st post_data 0 true.

(** ** The public functions *)

Definition MHD_post_process `{Platform} (pp : option MHD_PostProcessor) (st : St) (post_data : bytes)
    : option (option MHD_PostProcessor * St * bool) :=
  if (length post_data =? 0)%nat then Some (pp, st, true)
  else
    match pp with
    | None => Some (None, st, false)
    | Some pp =>
        u ← has_prefix_caseless FORM_URLENCODED (encoding pp);
        if (u : bool) then '(pp, st, ret) ← post_process_urlencoded pp st post_data; Some (Some pp, st, ret)
        else
          m ← has_prefix_caseless MULTIPART_FORMDATA (encoding pp);
          if (m : bool) then '(pp, st, ret) ← post_process_multipart pp st post_data; Some (Some pp, st, ret)
          else Some (Some pp, st, false)
    end.

(** Everything the structure owns is released; the result is the return
    value. *)
Definition MHD_destroy_post_processor (pp : option MHD_PostProcessor) (st : St) : option (St * bool) :=
  match pp with
  | None => Some (st, true)
  | Some pp =>
      '(pp, st) ←
        (if bool_decide (state pp = PP_ProcessValue)
         then '(pp, st, _) ← post_process_urlencoded pp st [10]; Some (pp, st)
         else Some (pp, st));
      let ret := negb ((0 <? xbuf_pos pp)%nat
                       || (negb (bool_decide (state pp = PP_Done))
                           && negb (bool_decide (state pp = PP_ExpectNewLine)))) in
      Some (st, ret)
  end.
End PostProcessor.
