(* ===== verification/PostForm.v ===== *)
(** * URL-encoded forms are delivered whole (postprocessor.c)

    The theorem that the url-encoded parser of [PostProcessor] is independent
    of the chunks a body arrives in: whatever the cuts (inside a key, a value
    or an escape sequence), the application gets every field once, with its
    decoded value in pieces that concatenate to it. *)

From S2P Require Import Prelude MhdStr MemoryPool Headers Internal PostProcessor.

(** ** Decoding in pieces *)

(** The string ends in a '%' or in a '%' and one character. *)
Definition open_tail (s : bytes) : Prop := ∃ a t, s = a ++ 37 :: t /\ (length t <= 1)%nat.

Lemma open_tail_app a s : open_tail s -> open_tail (a ++ s).
Proof. intros (b & t & -> & Ht). exists (a ++ b), t. by rewrite <- app_assoc. Qed.

Lemma open_tail_cons c s : open_tail s -> open_tail (c :: s).
Proof. apply (open_tail_app [c]). Qed.

Lemma not_hex_percent : is_hex 37 = false.
Proof. reflexivity. Qed.

(** A cut in front of a '%' never changes the decoding. *)
Lemma percent_decode_cut_escape a b :
  percent_decode (a ++ 37 :: b) = percent_decode a ++ percent_decode (37 :: b).
Proof.
  remember (length a) as n eqn:En. revert a En. induction (lt_wf n) as [n _ IH]. intros a ->.
  destruct a as [|c [|h [|l a]]]; cbn [app].
  - done.
  - rewrite percent_decode_plain; [done|]. intros h l s' [= <- _]. by rewrite not_hex_percent, andb_false_r.
  - rewrite percent_decode_plain; [|intros ? ? ? [= <- <- _]; by rewrite not_hex_percent, andb_false_r].
    rewrite (percent_decode_plain c [h]) by (intros; simplify_eq).
    cbn [app]. f_equal. apply (IH 1%nat (ltac:(simpl; lia)) [h] eq_refl).
  - cbn [percent_decode]. destruct ((c =? 37) && is_hex h && is_hex l); cbn [app]; f_equal.
    + apply (IH (length a) ltac:(simpl; lia) a eq_refl).
    + apply (IH (S (S (length a))) ltac:(simpl; lia) (h :: l :: a) eq_refl).
Qed.

(** Nor does a cut behind a string without an unfinished escape. *)
Lemma percent_decode_cut a b :
  ~ open_tail a -> percent_decode (a ++ b) = percent_decode a ++ percent_decode b.
Proof.
  remember (length a) as n eqn:En. revert a En. induction (lt_wf n) as [n _ IH]. intros a -> Ha.
  assert (Hplain : forall c a', a = c :: a' ->
    (forall h l s', a' ++ b = h :: l :: s' -> (c =? 37) && is_hex h && is_hex l = false) ->
    (forall h l s', a' = h :: l :: s' -> (c =? 37) && is_hex h && is_hex l = false) ->
    percent_decode (a ++ b) = percent_decode a ++ percent_decode b).
  { intros c a' -> H1 H2. cbn [app]. rewrite !percent_decode_plain by done. cbn [app]. f_equal.
    apply (IH (length a') ltac:(simpl; lia) a' eq_refl). contradict Ha. by apply open_tail_cons. }
  assert (Hne : forall c a', a = c :: a' -> c ≠ 37 -> percent_decode (a ++ b) = percent_decode a ++ percent_decode b).
  { intros c a' E Hc. eapply Hplain; [exact E|..]; intros; by destruct (Z.eqb_spec c 37). }
  destruct a as [|c [|h [|l a]]]; [done|..].
  - eapply Hne; [done|]. intros ->. apply Ha. exists [], []. simpl. split; [done|lia].
  - eapply Hne; [done|]. intros ->. apply Ha. exists [], [h]. simpl. split; [done|lia].
  - destruct ((c =? 37) && is_hex h && is_hex l) eqn:E.
    + cbn [app percent_decode]. rewrite E. cbn [app]. f_equal.
      apply (IH (length a) ltac:(simpl; lia) a eq_refl). contradict Ha. by do 3 apply open_tail_cons.
    + eapply Hplain; [done|..]; intros ? ? ? [= <- <- _]; done.
Qed.

(** The decoding of keys and values. *)
Definition form_decode (s : bytes) : bytes := percent_decode (plus_char <$> s).

Lemma open_tail_plus s : open_tail (plus_char <$> s) -> open_tail s.
Proof.
  intros (a & t & E & Ht). apply fmap_app_inv in E as (a' & s' & E1 & E2 & ->).
  destruct s' as [|c s']; [done|]. rewrite fmap_cons in E2. injection E2 as Ec ->.
  exists a', s'. rewrite length_fmap in Ht. split; [|done]. do 2 f_equal.
  unfold plus_char in Ec. destruct (Z.eqb_spec c 43); [done|lia].
Qed.

Lemma form_decode_cut_escape a b : form_decode (a ++ 37 :: b) = form_decode a ++ form_decode (37 :: b).
Proof. unfold form_decode. rewrite fmap_app. apply percent_decode_cut_escape. Qed.

Lemma form_decode_cut a b : ~ open_tail a -> form_decode (a ++ b) = form_decode a ++ form_decode b.
Proof.
  intros Ha. unfold form_decode. rewrite fmap_app. apply percent_decode_cut.
  contradict Ha. by apply open_tail_plus.
Qed.

Lemma percent_decode_nonempty s : s ≠ [] -> percent_decode s ≠ [].
Proof. destruct s as [|c [|h [|l s]]]; [done|done|done|]. intros _. cbn [percent_decode]. by destruct (_ && _). Qed.

Lemma form_decode_nonempty s : s ≠ [] -> form_decode s ≠ [].
Proof. intros Hs. apply percent_decode_nonempty. by destruct s. Qed.

Lemma length_percent_decode s : (length (percent_decode s) <= length s)%nat.
Proof.
  remember (length s) as n eqn:En. revert s En. induction (lt_wf n) as [n _ IH]. intros s ->.
  destruct s as [|c [|h [|l s]]]; [done|done|done|]. cbn [percent_decode].
  destruct (_ && _); cbn [length].
  - specialize (IH (length s) ltac:(simpl; lia) s eq_refl). lia.
  - specialize (IH (S (S (length s))) ltac:(simpl; lia) (h :: l :: s) eq_refl). cbn [length percent_decode] in IH. lia.
Qed.

Lemma length_form_decode s : (length (form_decode s) <= length s)%nat.
Proof. unfold form_decode. etrans; [apply length_percent_decode|]. by rewrite length_fmap. Qed.

(** What the post processor may hold back: nothing, or the start of an escape
    sequence.  When [d] was delivered and [h] held back, the decoding can go
    on with [h]. *)
Definition held (h : bytes) : Prop := h = [] \/ h = [37] \/ ∃ c, h = [37; c] /\ c ≠ 37.

Lemma open_tail_long a x : (2 <= length x)%nat -> open_tail (a ++ x) -> open_tail x.
Proof.
  intros Hx (b & t & E & Ht). destruct (app_eq_inv _ _ _ _ E) as [(z & -> & Ez)|(z & -> & ->)].
  - destruct z as [|y z]; [exists [], t; by split|]. injection Ez as <- ->.
    rewrite length_app in Ht. lia.
  - by exists z, t.
Qed.

Lemma held_delivered d h piece d' h' :
  held h -> (h = [] -> ~ open_tail d) -> held h' -> h ++ piece = d' ++ h' ->
  form_decode (d ++ d') = form_decode d ++ form_decode d'.
Proof.
  intros [->|[->|(c & -> & Hc)]] Hd Hh' E.
  - apply form_decode_cut. auto.
  - destruct d' as [|x d']; [by rewrite !app_nil_r|]. injection E as <- _. apply form_decode_cut_escape.
  - destruct d' as [|x d']; [by rewrite !app_nil_r|]. injection E as <- _. apply form_decode_cut_escape.
Qed.

Lemma held_closed d h piece :
  held h -> (h = [] -> ~ open_tail d) -> ~ open_tail (h ++ piece) -> ~ open_tail (d ++ h ++ piece).
Proof.
  intros Hh Hd Hx Ho. set (x := h ++ piece) in *.
  destruct (decide (2 <= length x)%nat) as [Hl|Hl]; [by apply Hx, (open_tail_long d)|].
  destruct Hh as [->|[->|(c & -> & _)]]; [|destruct piece; [|simpl in Hl; lia]|simpl in Hl; lia].
  2:{ apply Hx. exists [], []. simpl. split; [done|lia]. }
  specialize (Hd eq_refl). subst x. simpl in *. destruct piece as [|c [|? ?]]; [|..|simpl in Hl; lia].
  - by rewrite app_nil_r in Ho.
  - destruct Ho as (a & t & E & Ht). destruct t as [|y [|? ?]]; simpl in Ht; [..|lia].
    + apply app_inj_tail in E as [_ ->]. apply Hx. exists [], []. simpl. split; [done|lia].
    + change (37 :: [y]) with ([37] ++ [y]) in E. rewrite (app_assoc a) in E.
      apply app_inj_tail in E as [-> _]. apply Hd. exists a, []. split; [done|simpl; lia].
Qed.

Lemma complete_part_spec x r :
  ∃ d h, x = d ++ h /\ complete_part (x ++ r) (length x) = Some (length d) /\ held h
    /\ (h = [] -> ~ open_tail x) /\ (~ open_tail x -> h = []).
Proof.
  assert (Hno : forall a b, ~ open_tail (a ++ [b]) -> b ≠ 37).
  { intros a b Ho ->. apply Ho. exists a, []. simpl. split; [done|lia]. }
  destruct x as [|c x _] using rev_ind.
  { exists [], []. split_and!; [done|done|by left| |done]. intros _ (a & t & E & _). by destruct a. }
  unfold complete_part. rewrite length_app. cbn [length].
  destruct (Nat.ltb_spec 0 (length x + 1)); [|lia]. replace (length x + 1 - 1)%nat with (length x) by lia.
  rewrite <- app_assoc. cbn [app]. rewrite (deref_at_app x c r (length x) eq_refl). cbn [mbind option_bind andb].
  destruct (Z.eqb_spec c 37) as [->|Hc].
  { exists x, [37]. split_and!; [done|done|right; by left|done|]. intros Ho. exfalso. apply Ho.
    exists x, []. simpl. split; [done|lia]. }
  destruct x as [|e x _] using rev_ind.
  { cbn [length app mbind option_bind]. exists [c], []. rewrite app_nil_r. split_and!; [done|done|by left| |done].
    intros _ (a & t & E & Ht). destruct a as [|? [|? ?]]; simpl in E; congruence. }
  rewrite length_app. cbn [length]. destruct (Nat.ltb_spec 1 (length x + 1 + 1)); [|lia].
  replace (length x + 1 + 1 - 2)%nat with (length x) by lia. rewrite <- (app_assoc x [e] (c :: r)). cbn [app].
  rewrite (deref_at_app x e (c :: r) (length x) eq_refl). cbn [mbind option_bind andb].
  destruct (Z.eqb_spec e 37) as [->|He].
  - exists x, [37; c]. rewrite <- app_assoc. split_and!; [done|done|right; right; by exists c|done|].
    intros Ho. exfalso. apply Ho. exists x, [c]. simpl. split; [done|lia].
  - exists ((x ++ [e]) ++ [c]), []. rewrite app_nil_r, !length_app. split_and!; [done|done|by left| |done].
    intros _ (a & t & E & Ht). destruct t as [|y [|? ?]]; simpl in Ht; [|..|lia].
    + apply app_inj_tail in E as [_ E]. done.
    + change (37 :: [y]) with ([37] ++ [y]) in E. rewrite (app_assoc a) in E.
      apply app_inj_tail in E as [E _]. apply app_inj_tail in E as [_ E]. done.
Qed.

(** ** The fields of a form, and what an application reassembles *)

(** An application that takes every piece. *)
Definition log_data (st : list post_data) (d : post_data) : list post_data * bool := (st ++ [d], true).

(** Pieces at offset 0 start a new field, others continue the last one. *)
Definition assemble_step (acc : list (option bytes * bytes)) (e : post_data) : list (option bytes * bytes) :=
  if pd_off e =? 0 then (pd_key e, pd_data e) :: acc
  else match acc with [] => [] | (k, v) :: acc' => (k, v ++ pd_data e) :: acc' end.

Definition assemble_rev (events : list post_data) : list (option bytes * bytes) := foldl assemble_step [] events.

Definition assembled (events : list post_data) : list (option bytes * bytes) := reverse (assemble_rev events).

(** A key is delivered as a C string. *)
Definition until_nul (s : bytes) : bytes := take (count_until (Z.eqb 0) s) s.

Definition field_key (k : bytes) : bytes := until_nul (form_decode k).

Definition field (f : bytes * bytes) : option bytes * bytes := (Some (field_key f.1), form_decode f.2).

Fixpoint form_tail (fs : list (bytes * bytes)) : bytes :=
  match fs with
  | [] => []
  | (k, v) :: fs' => 38 :: k ++ 61 :: v ++ form_tail fs'
  end.

(** The body [k1=v1&k2=v2&...]. *)
Definition form_body (fs : list (bytes * bytes)) : bytes :=
  match fs with
  | [] => []
  | (k, v) :: fs' => k ++ 61 :: v ++ form_tail fs'
  end.

(** Raw keys and values as they stand in a body: keys fit the buffer, and no
    value ends in the middle of an escape sequence. *)
Definition field_wf (room : nat) (f : bytes * bytes) : Prop :=
  no_nul f.1 /\ 61 ∉ f.1 /\ (length f.1 <= room)%nat
  /\ no_nul f.2 /\ Forall (λ c, value_end c = false) f.2 /\ ~ open_tail f.2
  /\ Z.of_nat (length f.2) < 2 ^ 64.

(** ** The state of the parser inside a form *)

Record pp_shape (room : nat) (enc : bytes) (pp : MHD_PostProcessor) : Prop := {
  shape_size : buffer_size pp = room;
  shape_buf : length (buf pp) = S room;
  shape_xbuf : length (pp_xbuf pp) = 8%nat;
  shape_enc : encoding pp = enc
}.

(** [k1] of the key [k] was received. *)
Definition in_key (pp : MHD_PostProcessor) (st : list post_data) (past : list (bytes * bytes)) (k v : bytes)
    (fs : list (bytes * bytes)) (todo : bytes) : Prop :=
  state pp = PP_Init /\ xbuf_pos pp = 0%nat
  /\ ∃ k1 k2, k = k1 ++ k2 /\ buffer_pos pp = length k1 /\ take (length k1) (buf pp) = k1
     /\ todo = k2 ++ 61 :: v ++ form_tail fs
     /\ assemble_rev st = reverse (field <$> past).

(** [d] of the value [v] was delivered, and [h] is held back. *)
Definition in_value (pp : MHD_PostProcessor) (st : list post_data) (past : list (bytes * bytes)) (k v : bytes)
    (fs : list (bytes * bytes)) (todo : bytes) : Prop :=
  state pp = PP_ProcessValue /\ buffer_pos pp = 0%nat /\ cstring (buf pp) = Some (field_key k)
  /\ ∃ d h v2, v = d ++ h ++ v2 /\ xbuf_pos pp = length h /\ take (length h) (pp_xbuf pp) = h
     /\ held h /\ (h = [] -> ~ open_tail d) /\ value_offset pp = Z.of_nat (length (form_decode d))
     /\ todo = v2 ++ form_tail fs
     /\ assemble_rev st = match d with [] => [] | _ => [(Some (field_key k), form_decode d)] end
                          ++ reverse (field <$> past).

Definition progress (room : nat) (enc : bytes) (fields : list (bytes * bytes)) (pp : MHD_PostProcessor)
    (st : list post_data) (todo : bytes) : Prop :=
  pp_shape room enc pp
  /\ ∃ past k v fs, fields = past ++ (k, v) :: fs
     /\ (in_key pp st past k v fs todo \/ in_value pp st past k v fs todo).

(** ** Steps *)

Lemma count_until_app f a l : Forall (λ c, f c = false) a -> count_until f (a ++ l) = (length a + count_until f l)%nat.
Proof. induction 1 as [|c a Hc _ IH]; [done|]. simpl. by rewrite Hc, IH. Qed.

Lemma count_until_all f a : Forall (λ c, f c = false) a -> count_until f a = length a.
Proof. intros Ha. rewrite <- (app_nil_r a) at 1. rewrite count_until_app by done. simpl. lia. Qed.

Lemma cstring_spec s r : cstring (s ++ 0 :: r) = Some (until_nul s).
Proof.
  unfold cstring, until_nul. induction s as [|c s IH]; [done|]. cbn [app strlen count_until].
  rewrite (Z.eqb_sym 0 c). destruct (Z.eqb_spec c 0); [done|].
  destruct (strlen (s ++ 0 :: r)) as [m|] eqn:E; [|done]. cbn [mbind option_bind take] in *.
  injection IH as IH. by rewrite IH.
Qed.

Lemma not_elem_Forall (c : Z) (l : bytes) : c ∉ l -> Forall (λ x, Z.eqb c x = false) l.
Proof.
  intros Hc. apply Forall_forall. intros x Hx. destruct (Z.eqb_spec c x) as [->|]; [|done].
  exfalso. by apply Hc.
Qed.

(** Cutting [k ++ l] where a prefix [c] of it ends. *)
Lemma prefix_cases {A} (c fut k l : list A) :
  c ++ fut = k ++ l ->
  (∃ t, k = c ++ t /\ fut = t ++ l) \/ (∃ t, c = k ++ t /\ l = t ++ fut /\ t ≠ []).
Proof.
  intros E. destruct (app_eq_inv _ _ _ _ E) as [(t & H1 & H2)|(t & H1 & H2)]; [|left; by eauto].
  destruct t as [|x t]; [left; exists []; rewrite !app_nil_r in *; by subst|right].
  by exists (x :: t).
Qed.

(** The part [piece] of the chunk [c] that one iteration takes into its buffer,
    which has room for [n] more bytes: it ends at the end of the value, or is
    not empty. *)
Lemma value_piece c fut v2 fs n (amper := count_until value_end (take XBUF_SIZE c))
    (found := match c !! amper with Some x => value_end x | None => false end) :
  c ++ fut = v2 ++ form_tail fs -> c ≠ [] -> Forall (λ x, value_end x = false) v2 -> (0 < n <= 512)%nat ->
  ∃ piece c' v2', c = piece ++ c' /\ v2 = piece ++ v2' /\ c' ++ fut = v2' ++ form_tail fs
    /\ Nat.min amper n = length piece
    /\ ((v2' = [] /\ found = true /\ ∃ c'', c' = 38 :: c'')
        \/ (piece ≠ [] /\ (c' = [] \/ length piece = n) /\ (found = true -> ∃ x c'', c' = x :: c'' /\ value_end x = false))).
Proof.
  intros E Hc Hv Hn. subst amper found.
  destruct (prefix_cases _ _ _ _ E) as [(t & -> & Hfut)|(t & -> & Et & Hne)].
  - (* the chunk ends inside the value *)
    apply Forall_app in Hv as [Hvc Hvt].
    assert (count_until value_end (take 512 c) = Nat.min 512 (length c)) as ->
      by (rewrite count_until_all, length_take; [done|by apply Forall_take]).
    set (m := Nat.min (Nat.min 512 (length c)) n).
    assert (0 < m <= length c)%nat as Hm by (destruct c; [done|subst m; cbn [length]; lia]).
    exists (take m c), (drop m c), (drop m c ++ t).
    rewrite app_assoc, !take_drop, length_take. split_and!; [done|done|by rewrite Hfut, app_assoc|subst m; lia|right].
    split; [intros E0; apply (f_equal length) in E0; rewrite length_take in E0; simpl in E0; lia|].
    split; [destruct (decide (length c <= m)%nat); [left; by apply drop_ge|right; subst m; lia]|].
    intros Hfound. exfalso. destruct (c !! _) as [x|] eqn:Ex; [|done].
    apply list_elem_of_lookup_2 in Ex. rewrite Forall_forall in Hvc. by rewrite (Hvc x Ex) in Hfound.
  - (* the value ends in this chunk *)
    destruct fs as [|[k' v'] fs]; [by destruct t|]. cbn [form_tail] in Et.
    destruct t as [|e t]; [done|]. injection Et as <- Et.
    destruct (decide (length v2 <= 512)%nat) as [Hl|Hl].
    + assert (count_until value_end (take 512 (v2 ++ 38 :: t)) = length v2) as ->.
      { rewrite take_app_ge, count_until_app by (done || lia).
        destruct (512 - length v2)%nat; cbn [take count_until]; simpl; lia. }
      rewrite list_lookup_middle by done. change (value_end 38) with true.
      destruct (decide (length v2 <= n)%nat).
      * exists v2, (38 :: t), []. rewrite app_nil_r. split_and!; [done|done|simpl; by rewrite Et|lia|left; eauto].
      * exists (take n v2), (drop n v2 ++ 38 :: t), (drop n v2).
        rewrite app_assoc, take_drop, length_take.
        split_and!; [done|done|rewrite <- app_assoc; simpl; by rewrite Et|lia|right].
        split; [intros E0; apply (f_equal length) in E0; rewrite length_take in E0; simpl in E0; lia|].
        split; [right; lia|]. intros _. destruct (drop n v2) as [|x w] eqn:Ew; [apply (f_equal length) in Ew; rewrite length_drop in Ew; simpl in Ew; lia|].
        exists x, (w ++ 38 :: t). split; [done|]. apply (Forall_drop _ n) in Hv. rewrite Ew in Hv. by apply Forall_cons in Hv as [? _].
    + assert (count_until value_end (take 512 (v2 ++ 38 :: t)) = 512%nat) as ->.
      { rewrite take_app_le by lia. rewrite count_until_all, length_take by (by apply Forall_take). lia. }
      rewrite lookup_app_l by lia.
      exists (take n v2), (drop n v2 ++ 38 :: t), (drop n v2).
      rewrite app_assoc, take_drop, length_take.
      split_and!; [done|done|rewrite <- app_assoc; simpl; by rewrite Et|lia|right].
      split; [intros E0; apply (f_equal length) in E0; rewrite length_take in E0; simpl in E0; lia|].
      split; [right; lia|]. intros Hfound. exfalso. destruct (v2 !! 512%nat) as [x|] eqn:Ex; [|done].
      apply list_elem_of_lookup_2 in Ex. rewrite Forall_forall in Hv. by rewrite (Hv x Ex) in Hfound.
Qed.

(** Holding back the unfinished escape sequence. *)
Lemma save_held pp x d' h' (r : bytes) :
  length (pp_xbuf pp) = 8%nat -> xbuf_pos pp = 0%nat -> held h' -> x = d' ++ h' ->
  ∃ px, (if (length d' <? length x)%nat then
           bs ← mem_read (x ++ r) (Z.of_nat (length d')) (Z.of_nat (length x - length d'));
           px ← mem_write (pp_xbuf pp) 0 bs;
           Some (set_xbuf_pos (length x - length d') (set_pp_xbuf px pp), length d')
         else Some (pp, length x)) = Some (set_xbuf_pos (length h') (set_pp_xbuf px pp), length d')
    /\ length px = 8%nat /\ take (length h') px = h'.
Proof.
  intros Hx Hp Hh ->. rewrite length_app. replace (length d' + length h' - length d')%nat with (length h') by lia.
  assert (length h' <= 2)%nat as Hlh by (destruct Hh as [->|[->|(c & -> & _)]]; simpl; lia).
  destruct (Nat.ltb_spec (length d') (length d' + length h')).
  - assert (mem_read ((d' ++ h') ++ r) (Z.of_nat (length d')) (Z.of_nat (length h')) = Some h') as ->.
    { unfold mem_read. rewrite (proj2 (in_object_true _ _ _)) by (rewrite !length_app; lia).
      rewrite !Nat2Z.id, <- app_assoc, drop_app_length. by rewrite take_app_length. }
    cbn [mbind option_bind]. destruct (mem_write_append (pp_xbuf pp) h' 0) as (px & E & Hl & Ht & _); [lia|].
    change (Z.of_nat 0) with 0 in E. rewrite E. cbn [mbind option_bind]. exists px. by split_and!; [|lia|].
  - exists (pp_xbuf pp). destruct h'; [|simpl in *; lia]. cbn [length]. rewrite Nat.add_0_r. split_and!; [|done|done].
    destruct pp. pp_simpl. by rewrite Hp.
Qed.

(** Decoding the complete part for delivery. *)
Lemma deliver_part d' y (r : bytes) :
  no_nul d' ->
  ∃ g, (xb ← mem_write (d' ++ y :: r) (Z.of_nat (length d')) [0];
        xb ← MHD_unescape_plus xb 0;
        MHD_http_unescape xb 0) = Some (form_decode d' ++ 0 :: g, length (form_decode d')).
Proof.
  intros Hd. change (y :: r) with ([y] ++ r). rewrite mem_write_mid by done. cbn [mbind option_bind app].
  pose proof (MHD_unescape_plus_spec [] d' r Hd) as Ep. cbn [app length] in Ep. rewrite Ep. cbn [mbind option_bind].
  destruct (MHD_http_unescape_spec [] (plus_char <$> d') r) as (g & Eg & _); [by apply plus_no_nul|].
  cbn [app length] in Eg. rewrite Eg. by exists (g ++ r).
Qed.

(** One more piece for the application. *)
Lemma assemble_piece st key d d' (rest : list (option bytes * bytes)) :
  assemble_rev st = match d with [] => [] | _ => [(Some key, form_decode d)] end ++ rest ->
  assemble_rev (st ++ [mkPostData (Some key) None None None (form_decode d') (Z.of_nat (length (form_decode d)))])
  = (Some key, form_decode d ++ form_decode d') :: rest.
Proof.
  intros E. unfold assemble_rev in *. rewrite foldl_snoc, E. unfold assemble_step. cbn [pd_off pd_key pd_data].
  destruct d as [|c d]; [done|].
  destruct (form_decode (c :: d)) as [|x w] eqn:Ed; [by apply form_decode_nonempty in Ed|].
  by destruct (Z.eqb_spec (Z.of_nat (length (x :: w))) 0).
Qed.

Section Steps.
Context (stack_xbuf : bytes) (Hstack : length stack_xbuf = 513%nat).
Context (room : nat) (enc : bytes) (fields : list (bytes * bytes)).
Context (Hwf : Forall (field_wf room) fields).
#[local] Abbreviation progress := (progress room enc fields).
#[local] Abbreviation step := (urlencoded_step log_data stack_xbuf).

(** What one iteration achieves: it moves forward in the chunk, or ends it. *)
Definition step_ok (data fut : bytes) (poff : nat) (r : option step_result) : Prop :=
  match r with
  | Some (Next pp st poff') => (poff < poff' <= length data)%nat /\ progress pp st (drop poff' data ++ fut)
  | Some (Return pp st ret) => ret = true /\ progress pp st fut
  | None => False
  end.

Lemma field_in past k v fs : fields = past ++ (k, v) :: fs -> field_wf room (k, v).
Proof. intros E. rewrite E in Hwf. apply Forall_app in Hwf as [_ H]. by apply Forall_cons in H as [H _]. Qed.

(** Reading the rest of the chunk. *)
Lemma read_chunk (data c1 c2 : bytes) poff :
  drop poff data = c1 ++ c2 -> (poff <= length data)%nat ->
  mem_read data (Z.of_nat poff) (Z.of_nat (length c1)) = Some c1.
Proof.
  intros E Hp. unfold mem_read. assert (length (drop poff data) = length c1 + length c2)%nat as Hl
    by (by rewrite E, length_app). rewrite length_drop in Hl.
  rewrite (proj2 (in_object_true _ _ _)) by lia. rewrite !Nat2Z.id, E. by rewrite take_app_length.
Qed.

Lemma drop_further (data c1 c2 : bytes) poff n :
  drop poff data = c1 ++ c2 -> n = (poff + length c1)%nat -> drop n data = c2.
Proof. intros E ->. rewrite <- drop_drop, E. apply drop_app_length. Qed.

Lemma key_step data poff fut pp st past k v fs :
  pp_shape room enc pp -> fields = past ++ (k, v) :: fs -> (poff < length data)%nat ->
  in_key pp st past k v fs (drop poff data ++ fut) ->
  step_ok data fut poff (step pp st data poff).
Proof.
  intros [Hsz Hbuf Hxb Henc] Hf Hp (Hst & Hxp & k1 & k2 & -> & Hbp & Hbk & Htodo & Hasm).
  pose proof (field_in _ _ _ _ Hf) as (Hnk & Hek & Hlk & Hnv & Hve & Hvo & _). cbn [fst snd] in *.
  rewrite length_app in Hlk. apply not_elem_of_app in Hek as [_ Hek2].
  unfold urlencoded_step. rewrite Hst. unfold urlencoded_key. rewrite Hbp, Hsz.
  destruct (prefix_cases _ _ _ _ Htodo) as [(t & -> & Hfut)|(t & Ec & Et & Hne)].
  - (* the key is not complete *)
    set (c := drop poff data) in *. assert (length c = (length data - poff)%nat) as Hc by apply length_drop.
    assert (count_until (Z.eqb 61) c = length c) as ->.
    { apply count_until_all, not_elem_Forall. intros H. apply Hek2, elem_of_app. by left. }
    rewrite length_app in Hlk. destruct (Nat.ltb_spec room (length c + length k1)); [lia|].
    rewrite (read_chunk data c []) by (rewrite ?app_nil_r; done || lia). cbn [mbind option_bind].
    destruct (mem_write_append (buf pp) c (length k1)) as (b & Eb & Hlb & Htb & _); [lia|].
    rewrite Eb. cbn [mbind option_bind]. destruct (Nat.eqb_spec (length c + poff) (length data)); [|lia].
    split; [done|]. split; [constructor; pp_simpl; done || lia|].
    exists past, (k1 ++ c ++ t), v, fs. split; [done|left]. split_and!; [done|done|]. pp_simpl.
    exists (k1 ++ c), t. rewrite length_app, Htb, Hbk. split_and!; [by rewrite app_assoc|done..].
  - (* the key ends in this chunk *)
    destruct t as [|e t]; [done|]. injection Et as <- Et.
    assert (count_until (Z.eqb 61) (drop poff data) = length k2) as ->.
    { rewrite Ec, count_until_app by (by apply not_elem_Forall). simpl. lia. }
    destruct (Nat.ltb_spec room (length k2 + length k1)); [lia|].
    rewrite (read_chunk data k2 (61 :: t)) by (done || lia). cbn [mbind option_bind].
    destruct (mem_write_append (buf pp) k2 (length k1)) as (b & Eb & Hlb & Htb & _); [lia|].
    rewrite Eb. cbn [mbind option_bind]. pp_simpl.
    assert (length (drop poff data) = length k2 + S (length t))%nat as Hdl
      by (rewrite Ec, length_app; done). rewrite length_drop in Hdl.
    destruct (Nat.eqb_spec (length k2 + poff) (length data)); [lia|].
    set (k := k1 ++ k2) in *.
    assert (∃ x r, b = k ++ x :: r) as (x & r & ->).
    { rewrite <- (take_drop (length k1 + length k2) b), Htb, Hbk. fold k.
      destruct (drop (length k1 + length k2) b) as [|x r] eqn:E; [|eauto].
      apply (f_equal length) in E. rewrite length_drop in E. simpl in E. lia. }
    change (x :: r) with ([x] ++ r). rewrite mem_write_mid by (subst k; rewrite ?length_app; done || lia).
    cbn [mbind option_bind app]. pose proof (MHD_unescape_plus_spec [] k r Hnk) as Ep.
    cbn [app length] in Ep. rewrite Ep. cbn [mbind option_bind].
    destruct (MHD_http_unescape_spec [] (plus_char <$> k) r) as (g & Eg & Hg); [by apply plus_no_nul|].
    cbn [app length] in Eg. rewrite Eg. cbn [mbind option_bind]. pp_simpl.
    split; [lia|]. rewrite length_app in Hlb. simpl in Hlb.
    split.
    { constructor; pp_simpl; try done. rewrite length_app. simpl. rewrite length_app, length_fmap in *. lia. }
    exists past, k, v, fs. split; [done|right]. split_and!; [done|done|apply cstring_spec|]. pp_simpl.
    exists [], [], v. rewrite Hxp. split_and!; [done|done|done|by left| |done| |done].
    { intros _ (a & t' & E & _). by destruct a. }
    rewrite (drop_further data (k2 ++ [61]) t poff) by (rewrite ?length_app, <- ?app_assoc; simpl; done || lia).
    done.
Qed.

(** The state of the value after a piece: [d] was delivered and [h] is held
    back. *)
Lemma value_progress pp st past k v fs d h v2 todo :
  pp_shape room enc pp -> fields = past ++ (k, v) :: fs -> state pp = PP_ProcessValue -> buffer_pos pp = 0%nat ->
  cstring (buf pp) = Some (field_key k) -> v = d ++ h ++ v2 -> xbuf_pos pp = length h ->
  take (length h) (pp_xbuf pp) = h -> held h -> (h = [] -> ~ open_tail d) ->
  value_offset pp = Z.of_nat (length (form_decode d)) -> todo = v2 ++ form_tail fs ->
  assemble_rev st = match d with [] => [] | _ => [(Some (field_key k), form_decode d)] end ++ reverse (field <$> past) ->
  progress pp st todo.
Proof.
  intros. split; [done|]. exists past, k, v, fs. split; [done|right]. split_and!; [done..|].
  exists d, h, v2. by split_and!.
Qed.

(** The state after the end of a value. *)
Lemma value_finished pp st past k v fs todo :
  pp_shape room enc pp -> fields = past ++ (k, v) :: fs -> state pp = PP_Init -> xbuf_pos pp = 0%nat ->
  buffer_pos pp = 0%nat -> assemble_rev st = (Some (field_key k), form_decode v) :: reverse (field <$> past) ->
  38 :: todo = form_tail fs -> progress pp st todo.
Proof.
  intros Hsh Hf Hst Hxp Hbp Hasm Htodo. split; [done|].
  destruct fs as [|[k' v'] fs]; [done|]. injection Htodo as ->.
  exists (past ++ [(k, v)]), k', v', fs. split; [by rewrite <- app_assoc|left]. split_and!; [done|done|].
  exists [], k'. split_and!; [done|done|done|done|]. rewrite Hasm, fmap_app, reverse_app. done.
Qed.

(** The local buffer gets the held bytes and the piece. *)
Lemma value_load data poff pp st h piece c' :
  length (pp_xbuf pp) = 8%nat -> xbuf_pos pp = length h -> take (length h) (pp_xbuf pp) = h ->
  (length h <= 2)%nat -> (poff <= length data)%nat -> drop poff data = piece ++ c' ->
  (length piece <= 512 - length h)%nat ->
  let amper := count_until value_end (take XBUF_SIZE (drop poff data)) in
  Nat.min amper (512 - length h) = length piece ->
  ∃ y r, urlencoded_value log_data stack_xbuf pp st data poff
         = urlencoded_value_process log_data (set_xbuf_pos 0 pp) st data (poff + length piece)
             ((h ++ piece) ++ y :: r) (length (h ++ piece))
             (match drop poff data !! amper with Some x => value_end x | None => false end).
Proof.
  intros Hx8 Hxp Hxt Hlh Hp Hd Hpl amper Hmin. unfold urlencoded_value. rewrite Hxp.
  assert (mem_read (pp_xbuf pp) 0 (Z.of_nat (length h)) = Some h) as ->.
  { rewrite <- (take_drop (length h) (pp_xbuf pp)), Hxt. apply mem_read_app. }
  cbn [mbind option_bind]. destruct (mem_write_append stack_xbuf h 0) as (xb1 & Ex1 & Hl1 & Ht1 & _); [lia|].
  change (Z.of_nat 0) with 0 in Ex1. rewrite Ex1. cbn [mbind option_bind].
  rewrite <- lookup_drop. fold amper. rewrite Hmin.
  rewrite (read_chunk data piece c') by (done || lia). cbn [mbind option_bind].
  destruct (mem_write_append xb1 piece (length h)) as (xb2 & Ex2 & Hl2 & Ht2 & _); [lia|].
  rewrite Ex2. cbn [mbind option_bind]. rewrite Nat.add_0_l in Ht1. rewrite Ht1 in Ht2. rewrite <- length_app in *.
  rewrite <- (take_drop (length (h ++ piece)) xb2), Ht2.
  destruct (drop (length (h ++ piece)) xb2) as [|y r] eqn:Er; [|by exists y, r].
  apply (f_equal length) in Er. rewrite length_drop, length_app in Er. simpl in Er. lia.
Qed.

(** Delivering [d'], and what the character behind the piece says. *)
Lemma value_deliver data poff fut pp st past k v fs d d' h' v2' (piece c' : bytes) y r found :
  pp_shape room enc pp -> fields = past ++ (k, v) :: fs -> state pp = PP_ProcessValue -> buffer_pos pp = 0%nat ->
  cstring (buf pp) = Some (field_key k) -> v = (d ++ d') ++ h' ++ v2' -> xbuf_pos pp = length h' ->
  take (length h') (pp_xbuf pp) = h' -> held h' -> (h' = [] -> ~ open_tail (d ++ d')) ->
  value_offset pp = Z.of_nat (length (form_decode d)) ->
  form_decode (d ++ d') = form_decode d ++ form_decode d' ->
  c' ++ fut = v2' ++ form_tail fs -> drop (poff + length piece) data = c' ->
  (poff + length piece <= length data)%nat ->
  assemble_rev st = match d with [] => [] | _ => [(Some (field_key k), form_decode d)] end ++ reverse (field <$> past) ->
  (v2' = [] /\ found = true /\ h' = [] /\ (∃ c'', c' = 38 :: c'')
   \/ piece ≠ [] /\ d' ≠ [] /\ (found = true -> ∃ x c'', c' = x :: c'' /\ value_end x = false)) ->
  step_ok data fut poff
    ('(xbuf, xoff) ←
        (xbuf ← mem_write (d' ++ h' ++ y :: r) (Z.of_nat (length d')) [0];
         xbuf ← MHD_unescape_plus xbuf 0;
         MHD_http_unescape xbuf 0);
     let pp := set_must_ikvi false pp in
     key ← cstring (buf pp);
     data' ← mem_read xbuf 0 (Z.of_nat xoff);
     let '(st, ok) := log_data st (mkPostData (Some key) None None None data' (value_offset pp)) in
     if negb ok then Some (Return (set_state PP_Error pp) st false)
     else
       let pp := set_value_offset (u64 (value_offset pp + Z.of_nat xoff)) pp in
       urlencoded_value_end pp st data (poff + length piece) found).
Proof.
  intros Hsh Hf Hst Hbp Hkey Hv Hxp Hxt Hh Hop Hvo Hdd Htodo Hc' Hle Hasm Hcase.
  pose proof (field_in _ _ _ _ Hf) as (_ & _ & _ & Hnv & _ & _ & Hvl). cbn [fst snd] in *.
  assert (no_nul d') as Hnd by (rewrite Hv, !no_nul_app in Hnv; tauto).
  assert (∃ z r', h' ++ y :: r = z :: r') as (z & r' & ->) by (destruct h'; simpl; eauto).
  destruct (deliver_part d' z r' Hnd) as (g & ->). cbn [mbind option_bind]. pp_simpl. rewrite Hkey.
  cbn [mbind option_bind]. rewrite mem_read_app. cbn [mbind option_bind log_data negb]. rewrite Hvo.
  pose proof (assemble_piece st (field_key k) d d' _ Hasm) as Hasm'. set (st' := st ++ _) in *. clearbody st'.
  rewrite <- Nat2Z.inj_add, <- length_app, <- Hdd in *.
  assert (length (form_decode (d ++ d')) <= length v)%nat as Hlv.
  { etrans; [apply length_form_decode|]. rewrite Hv, (length_app (d ++ d')). lia. }
  rewrite wrap_small by lia. set (vo := Z.of_nat (length (form_decode (d ++ d')))).
  assert (pp_shape room enc (set_value_offset vo (set_must_ikvi false pp))) as Hsh' by (destruct Hsh; by constructor).
  assert (deref_at data (poff + length piece) = head c') as Hd by (rewrite <- Hc', head_lookup, lookup_drop; by rewrite Nat.add_0_r).
  assert (Hcont : piece ≠ [] -> d' ≠ [] -> step_ok data fut poff
    (Some (Next (set_value_offset vo (set_must_ikvi false pp)) st' (poff + length piece)))).
  { intros Hpne Hdne. split; [destruct piece; [done|simpl in *; lia]|]. rewrite Hc'.
    apply (value_progress _ _ past k v fs (d ++ d') h' v2'); pp_simpl; try done.
    by destruct (d ++ d') eqn:E; [apply app_eq_nil in E as [_ ->]|]. }
  unfold urlencoded_value_end. destruct Hcase as [(-> & -> & -> & c'' & ->)|(Hpne & Hdne & Hfo)].
  - rewrite Hd. cbn [head mbind option_bind]. change (newline_char 38) with false. cbv iota. cbn [Z.eqb Pos.eqb].
    assert (length data = poff + length piece + S (length c''))%nat as Hdl.
    { apply (f_equal length) in Hc'. rewrite length_drop in Hc'. simpl in Hc'. lia. }
    split; [lia|]. rewrite app_nil_l, app_nil_r in Hv.
    apply (value_finished _ _ past k v fs); pp_simpl; try done; [destruct Hsh'; by constructor|by rewrite Hasm', Hv|].
    rewrite app_nil_l in Htodo. rewrite <- Htodo. simpl. do 2 f_equal.
    apply (drop_further data [38] c'' (poff + length piece)); [done|simpl; lia].
  - destruct found; [|by apply Hcont]. destruct (Hfo eq_refl) as (x & c'' & -> & Hx). rewrite Hd.
    cbn [head mbind option_bind]. unfold value_end in Hx. rewrite !orb_false_iff in Hx. destruct Hx as [[H38 H10] H13].
    unfold newline_char. rewrite H10, H13, H38. by apply Hcont.
Qed.

Lemma value_step data poff fut pp st past k v fs :
  pp_shape room enc pp -> fields = past ++ (k, v) :: fs -> (poff < length data)%nat ->
  in_value pp st past k v fs (drop poff data ++ fut) ->
  step_ok data fut poff (step pp st data poff).
Proof.
  intros Hsh Hf Hp (Hst & Hbp & Hkey & d & h & v2 & Hv & Hxp & Hxt & Hh & Hdh & Hvo & Htodo & Hasm).
  pose proof (field_in _ _ _ _ Hf) as (Hnk & Hek & Hlk & Hnv & Hve & Hvop & Hvl). cbn [fst snd] in *.
  assert (length h <= 2)%nat as Hlh by (destruct Hh as [->|[->|(c & -> & _)]]; simpl; lia).
  rewrite Hv in Hve. rewrite !Forall_app in Hve. destruct Hve as (_ & _ & Hve2).
  set (c := drop poff data) in *. assert (length c = (length data - poff)%nat) as Hc by apply length_drop.
  destruct (value_piece c fut v2 fs (512 - length h) Htodo) as (piece & c' & v2' & Ec & Ev2 & Htodo' & Hmin & Hcase);
    [intros E0; rewrite E0 in Hc; simpl in Hc; lia|done|lia|].
  unfold urlencoded_step. rewrite Hst. pose proof (shape_xbuf _ _ _ Hsh) as Hx8.
  destruct (value_load data poff pp st h piece c' Hx8 Hxp Hxt Hlh) as (y & r & ->); [lia|done|lia|done|].
  fold c. set (found := match c !! _ with Some x => value_end x | None => false end) in *. clearbody found.
  set (x := h ++ piece) in *. assert (length c = length piece + length c')%nat as Hcl by (rewrite Ec, length_app; done).
  (* what is delivered and what is held back *)
  unfold urlencoded_value_process. destruct (complete_part_spec x (y :: r)) as (d' & h' & Ex & -> & Hh' & Hh1 & Hh2).
  cbn [mbind option_bind].
  destruct (save_held (set_xbuf_pos 0 pp) x d' h' (y :: r)) as (px & -> & Hpx & Htx); [done|done|done|done|].
  cbn [mbind option_bind]. set (pp1 := set_xbuf_pos (length h') (set_pp_xbuf px (set_xbuf_pos 0 pp))).
  assert (pp_shape room enc pp1) as Hsh1 by (destruct Hsh; by constructor).
  assert (form_decode (d ++ d') = form_decode d ++ form_decode d') as Hdd by (by apply (held_delivered d h piece d' h')).
  assert (v = (d ++ d') ++ h' ++ v2') as Hv'.
  { rewrite Hv, Ev2, (app_assoc h). fold x. by rewrite Ex, <- !app_assoc. }
  assert (h' = [] -> ~ open_tail (d ++ d')) as Hop.
  { intros E. rewrite E, app_nil_r in Ex. rewrite <- Ex. apply held_closed; auto. }
  assert (drop (poff + length piece) data = c') as Hc' by (by apply (drop_further data piece c' poff)).
  destruct (decide (length d' = 0%nat /\ (poff + length piece)%nat = length data)) as [[H0 Hend]|Hdel].
  { (* only an unfinished escape sequence *)
    rewrite H0, Hend, !Nat.eqb_refl. cbn [andb]. destruct d'; [|done]. rewrite !app_nil_r in *.
    assert (c' = []) as Ec' by (destruct c'; [done|]; simpl in Hcl; lia).
    split; [lia|]. rewrite Hend in Hc'. rewrite Hc'. apply (value_progress pp1 st past k v fs d h' v2'); done. }
  assert ((length d' =? 0)%nat && (poff + length piece =? length data)%nat = false) as ->.
  { destruct (Nat.eqb_spec (length d') 0), (Nat.eqb_spec (poff + length piece) (length data)); tauto. }
  rewrite Ex, <- app_assoc. eapply (value_deliver data poff fut pp1 st past k v fs d d' h' v2' piece c' y r found);
    try done; [lia..|].
  destruct Hcase as [(-> & Hfo & c'' & Hc'')|(Hpne & Hlen & Hfo)]; [left|right].
  - split; [done|]. split; [done|]. rewrite app_nil_r in Hv'. split; [|by eauto]. apply Hh2. intros Ho. apply Hvop.
    rewrite Hv, Ev2, app_nil_r. by apply open_tail_app.
  - split; [done|]. split; [|done]. intros ->. apply Hdel. split; [done|].
    destruct Hlen as [->|Hlen]; [simpl in Hcl; lia|]. exfalso.
    assert (length x = length h') as Hxl by (by rewrite Ex). subst x. rewrite length_app in Hxl.
    assert (length h' <= 2)%nat by (destruct Hh' as [->|[->|(q & -> & _)]]; simpl; lia). lia.
Qed.

Lemma form_step data poff fut pp st :
  (poff < length data)%nat -> progress pp st (drop poff data ++ fut) ->
  step_ok data fut poff (step pp st data poff).
Proof.
  intros Hp [Hsh (past & k & v & fs & Hf & [Hk|Hv])]; [by eapply key_step|by eapply value_step].
Qed.

Lemma form_loop fuel data poff fut pp st :
  (poff <= length data)%nat -> (length data - poff <= fuel)%nat -> progress pp st (drop poff data ++ fut) ->
  ∃ pp' st', urlencoded_loop log_data stack_xbuf fuel pp st data poff = Some (pp', st', true)
    /\ progress pp' st' fut.
Proof.
  revert poff pp st. induction fuel as [|fuel IH]; intros poff pp st Hp Hfu Hpr; cbn [urlencoded_loop].
  - destruct (Nat.ltb_spec poff (length data)); [lia|]. rewrite drop_ge in Hpr by lia. eauto.
  - destruct (Nat.ltb_spec poff (length data)); [|rewrite drop_ge in Hpr by lia; by eauto].
    pose proof (form_step data poff fut pp st ltac:(done) Hpr) as Hs.
    destruct (step pp st data poff) as [[pp1 st1 poff1|pp1 st1 ret]|]; cbn [mbind option_bind]; [| |done].
    + destruct Hs as [Hlt Hpr1]. apply IH; [lia|lia|done].
    + destruct Hs as [-> Hpr1]. eauto.
Qed.

Lemma form_chunk data fut pp st :
  progress pp st (data ++ fut) ->
  ∃ pp' st', post_process_urlencoded log_data stack_xbuf pp st data = Some (pp', st', true)
    /\ progress pp' st' fut.
Proof. intros Hpr. apply form_loop; [lia|lia|done]. Qed.

(** The end: destroying the post processor completes the last value with a
    newline of its own. *)
Lemma form_newline pp st past k d :
  pp_shape room enc pp -> state pp = PP_ProcessValue -> cstring (buf pp) = Some (field_key k) ->
  xbuf_pos pp = 0%nat -> value_offset pp = Z.of_nat (length (form_decode d)) ->
  assemble_rev st = match d with [] => [] | _ => [(Some (field_key k), form_decode d)] end ++ reverse (field <$> past) ->
  ∃ pp' st', step pp st [10] 0 = Some (Next pp' st' 0) /\ state pp' = PP_ExpectNewLine /\ xbuf_pos pp' = 0%nat
    /\ assemble_rev st' = (Some (field_key k), form_decode d) :: reverse (field <$> past).
Proof.
  intros Hsh Hst Hkey Hxp Hvo Hasm. unfold urlencoded_step. rewrite Hst.
  destruct (value_load [10] 0 pp st [] [] [10] (shape_xbuf _ _ _ Hsh) Hxp) as (y & r & ->); [done|simpl; lia..|done|simpl; lia|done|].
  cbn [app length Nat.add take drop count_until lookup list_lookup].
  unfold urlencoded_value_process. destruct (complete_part_spec [] (y :: r)) as (d' & h' & Ex & Ecp & _).
  symmetry in Ex. apply app_eq_nil in Ex as [-> ->]. cbn [app length] in Ecp. rewrite Ecp.
  cbn [mbind option_bind length Nat.ltb Nat.leb Nat.eqb andb].
  destruct (deliver_part [] y r) as (g & Eg); [constructor|]. cbn [app length] in Eg. rewrite Eg.
  cbn [mbind option_bind]. pp_simpl. rewrite Hkey. cbn [mbind option_bind]. rewrite mem_read_app.
  cbn [mbind option_bind log_data negb]. rewrite Hvo.
  pose proof (assemble_piece st (field_key k) d [] _ Hasm) as Hasm'. rewrite app_nil_r in Hasm'.
  eexists _, _. split; [reflexivity|]. split_and!; [done..|exact Hasm'].
Qed.

Lemma form_end pp st :
  progress pp st [] ->
  ∃ st', MHD_destroy_post_processor log_data stack_xbuf (Some pp) st = Some (st', true)
    /\ assembled st' = field <$> fields.
Proof.
  intros [Hsh (past & k & v & fs & Hf & [(_ & _ & k1 & k2 & _ & _ & _ & Ht & _)|Hv])]; [by destruct k2|].
  destruct Hv as (Hst & Hbp & Hkey & d & h & v2 & Hv & Hxp & Hxt & Hh & Hdh & Hvo & Htodo & Hasm).
  symmetry in Htodo. apply app_eq_nil in Htodo as [-> Hfs]. destruct fs as [|[? ?] ?]; [|done].
  pose proof (field_in _ _ _ _ Hf) as (_ & _ & _ & _ & _ & Hvop & _). cbn [fst snd] in *.
  assert (h = []) as ->.
  { destruct Hh as [->|[->|(c & -> & _)]]; [done|..]; exfalso; apply Hvop; rewrite Hv, app_nil_r.
    - exists d, []. split; [done|simpl; lia].
    - exists d, [c]. split; [done|simpl; lia]. }
  rewrite !app_nil_r in Hv. subst v. unfold MHD_destroy_post_processor. rewrite bool_decide_true by done.
  destruct (form_newline pp st past k d Hsh Hst Hkey Hxp Hvo Hasm) as (pp1 & st1 & E1 & Hst1 & Hxp1 & Hasm1).
  assert (post_process_urlencoded log_data stack_xbuf pp st [10] = Some (set_state PP_Done pp1, st1, true)) as ->.
  { unfold post_process_urlencoded. cbn [length Nat.mul Nat.add urlencoded_loop Nat.ltb Nat.leb]. rewrite E1.
    cbn [mbind option_bind Nat.leb].
    assert (step pp1 st1 [10] 0 = Some (Return (set_state PP_Done pp1) st1 true)) as ->; [|done].
    unfold urlencoded_step. by rewrite Hst1. }
  cbn [mbind option_bind]. pp_simpl. rewrite Hxp1. eexists. split; [done|]. unfold assembled.
  by rewrite Hasm1, Hf, fmap_app, reverse_cons, reverse_involutive.
Qed.
End Steps.

(** ** A form from creation to destruction *)

Section Forms.
Context `{Platform} (alloc_ok : Z -> bool) (stack_xbuf : bytes).

(** The calls of [MHD_post_process] for the chunks of a body, up to the first
    that fails. *)
Fixpoint feed (pp : option MHD_PostProcessor) (st : list post_data) (chunks : list bytes)
    : option (option MHD_PostProcessor * list post_data * bool) :=
  match chunks with
  | [] => Some (pp, st, true)
  | c :: chunks' =>
      '(pp, st, ok) ← MHD_post_process log_data alloc_ok stack_xbuf pp st c;
      if (ok : bool) then feed pp st chunks' else Some (pp, st, false)
  end.

Lemma form_feed room enc fields chunks pp st :
  length stack_xbuf = 513%nat -> Forall (field_wf room) fields -> has_prefix_caseless FORM_URLENCODED enc = Some true ->
  progress room enc fields pp st (concat chunks) ->
  ∃ pp' st', feed (Some pp) st chunks = Some (Some pp', st', true) /\ progress room enc fields pp' st' [].
Proof.
  intros Hx Hwf He. revert pp st. induction chunks as [|c chunks IH]; intros pp st Hpr; cbn [feed]; [by eauto|].
  cbn [concat] in Hpr. unfold MHD_post_process. destruct (Nat.eqb_spec (length c) 0) as [E|E].
  { destruct c; [|done]. cbn [mbind option_bind]. by apply IH. }
  rewrite (shape_enc _ _ _ (proj1 Hpr)), He. cbn [mbind option_bind].
  destruct (form_chunk stack_xbuf Hx room enc fields Hwf c (concat chunks) pp st Hpr) as (pp1 & st1 & -> & Hpr1).
  cbn [mbind option_bind]. by apply IH.
Qed.

Lemma create_shape calloc_ok hs size pp :
  MHD_create_post_processor calloc_ok hs size = Some (Some pp) ->
  pp_shape (size + 4) (encoding pp) pp /\ state pp = PP_Init /\ xbuf_pos pp = 0%nat /\ buffer_pos pp = 0%nat.
Proof.
  unfold MHD_create_post_processor. destruct (_ || _); [done|]. intros E.
  apply bind_Some in E as (enc & _ & E). destruct enc as [enc|]; [|done].
  apply bind_Some in E as (e & _ & E). destruct e as [[b bl]|]; [|done]. destruct calloc_ok; [|done].
  cbn [negb] in E. injection E as <-. pp_simpl. split; [|done]. constructor; pp_simpl; try done.
  rewrite length_replicate. lia.
Qed.
End Forms.

(** ** Theorems *)

(** C2: A url-encoded form reaches the application whole, however its body is
    cut into chunks (inside keys, values or escape sequences): creation,
    processing and destruction succeed without leaving any buffer, and the
    delivered pieces reassemble to exactly the fields of the form in order,
    each with its decoded key and its completely decoded value. *)
Theorem urlencoded_form_delivered `{Platform} calloc_ok alloc_ok stack_xbuf hs size pp fields chunks :
  MHD_create_post_processor calloc_ok hs size = Some (Some pp) ->
  has_prefix_caseless FORM_URLENCODED (encoding pp) = Some true ->
  length stack_xbuf = 513%nat -> fields ≠ [] -> Forall (field_wf (size + 4)) fields ->
  concat chunks = form_body fields ->
  ∃ pp' st st', feed alloc_ok stack_xbuf (Some pp) [] chunks = Some (pp', st, true)
    /\ MHD_destroy_post_processor log_data stack_xbuf pp' st = Some (st', true)
    /\ assembled st' = field <$> fields.
Proof.
  intros Hcr He Hx Hne Hwf Hbody. destruct (create_shape _ _ _ _ Hcr) as (Hsh & Hst & Hxp & Hbp).
  destruct (form_feed alloc_ok stack_xbuf (size + 4) (encoding pp) fields chunks pp []) as (pp' & st & Ef & Hpr);
    [done|done|done| |].
  { split; [done|]. destruct fields as [|[k v] fs]; [done|]. exists [], k, v, fs. split; [done|left].
    split_and!; [done|done|]. exists [], k. rewrite Hbody, Hbp. by split_and!. }
  destruct (form_end stack_xbuf Hx (size + 4) (encoding pp) fields Hwf pp' st Hpr) as (st' & Ed & Ha).
  by exists (Some pp'), st, st'.
Qed.

Definition demo_form_headers : list MHD_HTTP_Header :=
  [mkHeader (Some (str "content-type")) (Some FORM_URLENCODED) MHD_HEADER_KIND].

Lemma urlencoded_form_delivered_witness :
  ∃ pp pp' st st', MHD_create_post_processor (H := LP64) true (Some demo_form_headers) 256 = Some (Some pp)
    /\ feed (H := LP64) (λ _, true) (replicate 513 0) (Some pp) []
         [str "na"; str "me=A%2"; str "0"; str "B&x"; str "=1+"; str "2"] = Some (pp', st, true)
    /\ MHD_destroy_post_processor log_data (replicate 513 0) pp' st = Some (st', true)
    /\ assembled st' = [(Some (str "name"), str "A B"); (Some (str "x"), str "1 2")].
Proof.
  eexists. destruct (urlencoded_form_delivered (H := LP64) true (λ _, true) (replicate 513 0)
    (Some demo_form_headers) 256 _ [(str "name", str "A%20B"); (str "x", str "1+2")]
    [str "na"; str "me=A%2"; str "0"; str "B&x"; str "=1+"; str "2"] eq_refl) as (pp' & st & st' & E1 & E2 & E3);
    [reflexivity|reflexivity|done| |reflexivity|].
  - assert (forall a b : bytes, no_nul a -> 61 ∉ a -> (length a <= 260)%nat -> no_nul b ->
      Forall (λ c, value_end c = false) b -> (37 ∉ drop (length b - 2) b) -> Z.of_nat (length b) < 2 ^ 64 ->
      field_wf 260 (a, b)) as Hf.
    { intros a b Ha He Hl Hb Hv Ht Hz. split_and!; try done. intros (u & t & E & Hlt). apply Ht. simpl in E. rewrite E.
      rewrite length_app. cbn [length]. rewrite drop_app. apply elem_of_app. right.
      replace (length u + S (length t) - 2 - length u)%nat with 0%nat by lia. left. }
    apply Forall_cons; split; [|apply Forall_cons; split; [|constructor]]; apply Hf;
      apply (bool_decide_unpack _); reflexivity.
  - exists pp', st, st'. split; [reflexivity|]. split; [exact E1|]. split; [exact E2|exact E3].
Defined.

(** What an application gets from a form of the given chunks. *)
Definition form_outcome `{Platform} (hs : list MHD_HTTP_Header) (size : nat) (chunks : list bytes)
    : option (list (option bytes * bytes)) :=
  r ← MHD_create_post_processor true (Some hs) size;
  pp ← r;
  '(pp, st, _) ← feed (λ _, true) (replicate 513 0) (Some pp) [] chunks;
  '(st, _) ← MHD_destroy_post_processor log_data (replicate 513 0) pp st;
  Some (assembled st).

(** A value that ends in an unfinished escape sequence leaks into the next
    field: of the body [a=%4&b=c], delivered at once, the application gets an
    empty field [a] and the value [L] (the escape [%4c]) for the field [b]. *)
Theorem unfinished_escape_leaks :
  form_outcome (H := LP64) demo_form_headers 256 [str "a=%4&b=c"]
  = Some [(Some (str "a"), []); (Some (str "b"), str "L")].
Proof. vm_compute. reflexivity. Qed.
