(* ===== verification/PostSafety.v ===== *)
(** * The post processor is memory safe and terminates (postprocessor.c)

    For every input and every behaviour of the application: processing and
    destroying never read or write outside an object, never panic and always
    return, for both encodings; with the one boundary parameter for which this
    fails. *)

From S2P Require Import Prelude MhdStr MemoryPool Headers Internal PostProcessor.

(** ** Terminated objects *)

Lemma terminated_split (s : bytes) : 0 ∈ s -> ∃ a r, s = a ++ 0 :: r /\ no_nul a.
Proof.
  intros H. destruct (first_occurrence 0 s) as [Hn|(a & r & -> & Ha)]; [done|]. exists a, r. split; [done|].
  apply Forall_forall. intros x Hx ->. done.
Qed.

Lemma terminated_middle (a r : bytes) : 0 ∈ a ++ 0 :: r.
Proof. apply elem_of_app. right. left. Qed.

Lemma cstr_terminated s : 0 ∈ cstr s.
Proof. apply elem_of_app. right. left. Qed.

Lemma cstring_total s : 0 ∈ s -> ∃ t, cstring s = Some t /\ (length t < length s)%nat.
Proof.
  intros (a & r & -> & Ha)%terminated_split. exists a. unfold cstring. rewrite strlen_no_nul by done.
  cbn [mbind option_bind]. rewrite take_app_length, length_app. simpl. split; [done|lia].
Qed.

Lemma unescape_plus_total m : 0 ∈ m -> ∃ m', MHD_unescape_plus m 0 = Some m' /\ length m' = length m /\ 0 ∈ m'.
Proof.
  intros (a & r & -> & Ha)%terminated_split. pose proof (MHD_unescape_plus_spec [] a r Ha) as E.
  cbn [app length] in E. rewrite E. eexists. split; [done|]. rewrite !length_app, length_fmap.
  split; [done|apply terminated_middle].
Qed.

Lemma http_unescape_total m :
  0 ∈ m -> ∃ m' n, MHD_http_unescape m 0 = Some (m', n) /\ length m' = length m /\ 0 ∈ m' /\ (n <= length m)%nat.
Proof.
  intros (a & r & -> & Ha)%terminated_split. destruct (MHD_http_unescape_spec [] a r Ha) as (g & E & Hg).
  cbn [app length] in E. rewrite E. eexists _, _. split; [done|]. rewrite !length_app. cbn [length].
  rewrite length_app. split_and!; [lia|apply terminated_middle|lia].
Qed.

Lemma strstr_total a r needle :
  no_nul a -> no_nul needle -> needle ≠ [] ->
  ∃ o, strstr (a ++ 0 :: r) needle = Some o /\ forall k, o = Some k -> (k + length needle <= length a)%nat.
Proof.
  intros Ha Hn Hne.
  assert (Hsw : forall nd b, no_nul nd -> no_nul b -> starts_with nd (b ++ 0 :: r) = true -> (length nd <= length b)%nat).
  { induction nd as [|x nd IH]; intros b Hx Hb E; [simpl; lia|]. apply no_nul_cons in Hx as [Hx Hnd].
    destruct b as [|y b]; simpl in E; apply andb_true_iff in E as [E1 E2]; apply Z.eqb_eq in E1; [done|].
    apply no_nul_cons in Hb as [_ Hb]. simpl. specialize (IH b Hnd Hb E2). lia. }
  induction a as [|c a IH].
  - cbn [app strstr]. destruct needle as [|x nd]; [done|]. apply no_nul_cons in Hn as [Hx _].
    cbn [starts_with]. destruct (Z.eqb_spec x 0); [done|]. cbn [andb Z.eqb]. by exists None.
  - pose proof Ha as Ha'. apply no_nul_cons in Ha as [Hc Ha]. destruct (IH Ha) as (o & E & Ho).
    cbn [app strstr]. destruct (starts_with needle (c :: a ++ 0 :: r)) eqn:Es.
    + exists (Some 0%nat). split; [done|]. intros k [= <-]. by apply (Hsw needle (c :: a)).
    + destruct (Z.eqb_spec c 0); [done|]. rewrite E. cbn [mbind option_bind]. exists (option_map S o). split; [done|].
      intros k Hk. destruct o as [j|]; simplify_eq/=. specialize (Ho j eq_refl). lia.
Qed.

Lemma drop_terminated (a r : bytes) n : (n <= length a)%nat -> 0 ∈ drop n (a ++ 0 :: r).
Proof. intros Hn. rewrite drop_app_le by done. apply terminated_middle. Qed.

Lemma has_prefix_total lit s :
  0 ∈ s -> no_nul lit ->
  ∃ b, has_prefix_caseless lit s = Some b /\ (b = true -> 0 ∈ drop (length lit) s /\ (length lit < length s)%nat).
Proof.
  intros (a & r & -> & Ha)%terminated_split Hl. unfold has_prefix_caseless, cstr.
  rewrite str_equal_caseless_n_spec by done. eexists. split; [done|]. intros Hb. apply bool_decide_eq_true in Hb.
  apply caseless_eq_length in Hb. rewrite !length_take in Hb.
  split; [apply drop_terminated; lia|rewrite length_app; simpl; lia].
Qed.

Section Safety.
Context {St : Type} (ikvi : St -> post_data -> St * bool) (alloc_ok : Z -> bool) (stack_xbuf : bytes).
Context (Hstack : length stack_xbuf = 513%nat).

(** ** Entry headers *)

Lemma strdup_total s : 0 ∈ s -> ∃ o, strdup alloc_ok s = Some o /\ forall t, o = Some t -> (length t < length s)%nat.
Proof.
  intros Hs. destruct (cstring_total s Hs) as (t & E & Hl). unfold strdup. rewrite E. cbn [mbind option_bind].
  eexists. split; [done|]. intros t' Ht. destruct (alloc_ok _); simplify_eq. done.
Qed.

Lemma match_header_total prefix line :
  0 ∈ line -> no_nul prefix -> ∃ o, match_header_loop alloc_ok prefix line = Some o
    /\ forall t, o = Some t -> (length t <= length line)%nat.
Proof.
  induction line as [|c line IH]; intros Hl Hp; [by apply elem_of_nil in Hl|]. cbn [match_header_loop].
  destruct (Z.eqb_spec c 0) as [->|Hc]; [by exists None|].
  destruct (has_prefix_total prefix (c :: line) Hl Hp) as (b & -> & Hb). cbn [mbind option_bind]. destruct b.
  - destruct (Hb eq_refl) as [Hd Hlen]. destruct (strdup_total _ Hd) as (o & -> & Ho). exists o. split; [done|].
    intros t Ht. specialize (Ho t Ht). rewrite length_drop in Ho. lia.
  - apply elem_of_cons in Hl as [|Hl]; [done|]. destruct (IH Hl Hp) as (o & -> & Ho). exists o. split; [done|].
    intros t Ht. specialize (Ho t Ht). simpl. lia.
Qed.

Lemma try_match_header_total prefix line suffix :
  0 ∈ line -> no_nul prefix -> ∃ o, try_match_header alloc_ok prefix line suffix = Some o
    /\ forall t, o = Some t -> suffix = Some t \/ (length t <= length line)%nat.
Proof.
  intros Hl Hp. unfold try_match_header. destruct suffix as [s|].
  - exists (Some s). split; [done|]. intros t ->. by left.
  - destruct (match_header_total prefix line Hl Hp) as (o & -> & Ho). exists o. split; [done|]. auto.
Qed.

Lemma get_value_total fuel a r key bpos :
  no_nul a -> no_nul key -> key ≠ [] -> (bpos <= length a)%nat -> (length a - bpos <= fuel)%nat ->
  ∃ o, get_value_loop alloc_ok fuel (a ++ 0 :: r) key bpos = Some o.
Proof.
  intros Ha Hk Hne. revert bpos. induction fuel as [|fuel IH]; intros bpos Hb Hf; cbn [get_value_loop];
    rewrite drop_app_le by done; (destruct (strstr_total (drop bpos a) r key) as (o & -> & Ho); [by apply Forall_drop|done|done|]);
    cbn [mbind option_bind]; (destruct o as [k|]; [|by eauto]); specialize (Ho k eq_refl); rewrite length_drop in Ho.
  { destruct key; [done|]. simpl in Ho. lia. }
  assert (forall n, (n <= length a)%nat -> ∃ c, deref_at (a ++ 0 :: r) n = Some c /\ (c ≠ 0 -> (n < length a)%nat)) as Hderef.
  { intros n Hn. destruct (decide (n = length a)) as [->|].
    - exists 0. split; [by apply deref_at_app|done].
    - destruct (lookup_lt_is_Some_2 a n) as [c Hc]; [lia|]. exists c. split; [|lia].
      unfold deref_at. by rewrite lookup_app_l by lia. }
  set (spos := (bpos + k)%nat) in *. set (klen := length key) in *.
  destruct (Hderef (spos + klen)%nat) as (c & -> & Hc); [lia|]. cbn [mbind option_bind].
  assert (∃ c0, (if (spos =? 0)%nat then Some 32 else deref_at (a ++ 0 :: r) (spos - 1)) = Some c0) as (c0 & ->).
  { destruct (spos =? 0)%nat; [by eauto|]. destruct (Hderef (spos - 1)%nat) as (c0 & -> & _); [lia|by eauto]. }
  cbn [mbind option_bind]. destruct (negb (c =? 61) || _) eqn:Em.
  { assert (0 < klen)%nat by (subst klen; destruct key; simpl; done || lia). apply IH; lia. }
  apply orb_false_iff in Em as [Em%negb_false_iff%Z.eqb_eq _]. specialize (Hc ltac:(lia)).
  destruct (Hderef (spos + klen + 1)%nat) as (q & -> & Hq); [lia|]. cbn [mbind option_bind].
  destruct (Z.eqb_spec q 34) as [->|]; cbn [negb]; [|by eauto]. specialize (Hq ltac:(lia)).
  rewrite drop_app_le by lia. destruct (strchr (drop (spos + klen + 2) a ++ 0 :: r) 34) as [e|] eqn:Ee.
  2:{ destruct (strchr_total (drop (spos + klen + 2) a) r 34) as [o Eo]; [by apply Forall_drop|done|congruence]. }
  cbn [mbind option_bind]. destruct e as [e|]; [|by eauto]. apply strchr_bound in Ee. rewrite length_app, length_drop in Ee.
  simpl in Ee. destruct (negb _); [by eauto|].
  destruct (mem_read_Some (a ++ 0 :: r) (Z.of_nat (spos + klen + 2))
    (Z.of_nat (spos + klen + 2 + e - spos - klen - 1 - 1))) as (v & -> & _); [lia|lia|rewrite length_app; simpl; lia|].
  cbn [mbind option_bind]. eauto.
Qed.

Lemma try_get_value_total s key dest :
  0 ∈ s -> no_nul key -> key ≠ [] -> ∃ o, try_get_value alloc_ok s key dest = Some o.
Proof.
  intros (a & r & -> & Ha)%terminated_split Hk Hne. unfold try_get_value. destruct dest; [by eauto|].
  apply get_value_total; [done|done|done|lia|rewrite length_app; lia].
Qed.

(** ** The invariant of multipart processing *)

Definition nested_state (s : PP_State) : bool :=
  match s with
  | PP_Nested_Init | PP_Nested_PerformMarking | PP_Nested_ProcessEntryHeaders
  | PP_Nested_ProcessValueToBoundary | PP_Nested_PerformCleanup => true
  | _ => false
  end.

Definition multipart_state (s : PP_State) : bool :=
  match s with PP_ProcessValue | PP_ExpectNewLine => false | _ => true end.

(** A boundary the searches can use: all its bytes exist, and lengths do not
    wrap around. *)
Definition boundary_ok `{Platform} (room : nat) (b : bytes) (bl : Z) : Prop :=
  0 <= bl <= Z.of_nat (length b) /\ bl + 2 * Z.of_nat room + 16 <= SIZE_MAX.

Record mp_inv `{Platform} (room : nat) (enc : bytes) (pp : MHD_PostProcessor) : Prop := {
  inv_enc : encoding pp = enc;
  inv_room : (4 <= room)%nat /\ 3 * Z.of_nat room + 32 <= SIZE_MAX;
  inv_size : buffer_size pp = room;
  inv_buf : length (buf pp) = S room;
  inv_pos : (buffer_pos pp <= room)%nat;
  inv_type : forall t, content_type pp = Some t -> (length t <= S room)%nat;
  inv_boundary : ∃ b, boundary pp = Some b /\ boundary_ok room b (blen pp);
  inv_nested : forall nb, nested_boundary pp = Some nb ->
    nlen pp = Z.of_nat (length nb) /\ (length nb <= S room)%nat;
  inv_state : multipart_state (state pp) = true /\ (nested_state (state pp) = true -> is_Some (nested_boundary pp));
  inv_dash : multipart_state (dash_state pp) = true /\ nested_state (dash_state pp) = false
}.

(** Where an operation on the buffer got to: [ioff] bytes of it are used. *)
Definition op_ok `{Platform} (room : nat) (enc : bytes) (pos : nat) (pp : MHD_PostProcessor) (ioff : nat) : Prop :=
  mp_inv room enc pp /\ buffer_pos pp = pos /\ (ioff <= pos)%nat.

Ltac mp_solve := constructor; pp_simpl; try done; try lia.

Section Multipart.
Context `{Platform} (room : nat) (enc : bytes).
#[local] Abbreviation mp_inv := (mp_inv room enc).

Lemma set_state_inv pp s :
  mp_inv pp -> multipart_state s = true -> nested_state s = false -> mp_inv (set_state s pp).
Proof. intros [] Hm Hn. constructor; pp_simpl; try done. by rewrite Hn. Qed.

Lemma memcmp_total a b n :
  0 <= n -> n <= Z.of_nat (length a) -> n <= Z.of_nat (length b) -> ∃ r, memcmp_eq a b n = Some r.
Proof.
  intros. unfold memcmp_eq. destruct (mem_read_Some a 0 n) as (x & -> & _); [lia..|].
  destruct (mem_read_Some b 0 n) as (y & -> & _); [lia..|]. cbn [mbind option_bind]. eauto.
Qed.

Lemma count_until_le f l : (count_until f l <= length l)%nat.
Proof. induction l as [|c l IH]; simpl; [lia|]. destruct (f c); lia. Qed.

Lemma memchr_total m off c n :
  0 <= off -> 0 <= n -> off + n <= Z.of_nat (length m) ->
  ∃ o, memchr m off c n = Some o /\ forall k, o = Some k -> Z.of_nat k < n.
Proof.
  intros. unfold memchr. destruct (mem_read_Some m off n) as (bs & -> & Hl); [lia..|]. cbn [mbind option_bind].
  eexists. split; [done|]. intros k Hk. destruct (Nat.ltb_spec (count_until (Z.eqb c) bs) (length bs)); simplify_eq. lia.
Qed.

(** [find_boundary] for the primary and the nested boundary. *)
Lemma find_boundary_total pp b bl next dash :
  mp_inv pp -> boundary_ok room b bl -> multipart_state next = true ->
  (nested_state next = true -> is_Some (nested_boundary pp)) ->
  multipart_state dash = true -> nested_state dash = false ->
  ∃ yes pp' ioff, find_boundary pp (Some b) bl 0 next dash = Some (yes, pp', ioff)
    /\ op_ok room enc (buffer_pos pp) pp' ioff
    /\ (if (yes : bool) then (0 < ioff)%nat else state pp' = state pp \/ state pp' = PP_Error).
Proof.
  intros Hinv [Hbl Hroom] Hn1 Hn2 Hd1 Hd2. pose proof Hinv as [_ Hrm Hsz Hbuf Hpos _ _ _ _ _].
  pose proof (set_state_inv pp PP_Error Hinv eq_refl eq_refl) as Herr. unfold find_boundary.
  rewrite usize_small by lia. destruct (Z.ltb_spec (Z.of_nat (buffer_pos pp)) (2 + bl)).
  { destruct (buffer_pos pp =? buffer_size pp)%nat; eexists _, _, _; (split; [done|]); (split; [split_and!; done || lia|]);
      [by right|by left]. }
  destruct (memcmp_total (str "--") (buf pp) 2) as (d & ->); [lia|simpl; lia|lia|]. cbn [mbind option_bind].
  assert (∃ same, (if negb d then Some false else memcmp_eq (drop 2 (buf pp)) b bl) = Some same) as (same & ->).
  { destruct d; cbn [negb mbind option_bind]; [|by eauto]. apply memcmp_total; [lia|rewrite length_drop; lia|lia]. }
  cbn [mbind option_bind]. destruct same; cbn [negb].
  - eexists _, _, _. split; [done|]. split; [|lia]. split_and!; pp_simpl; [|done|lia].
    destruct Hinv. by constructor.
  - case_bool_decide as Hi; cbn [negb].
    2:{ eexists _, _, _. split; [done|]. split; [split_and!; done || lia|by right]. }
    destruct (memchr_total (buf pp) 0 45 (Z.of_nat (buffer_pos pp))) as (o & -> & Ho); [lia..|]. cbn [mbind option_bind].
    eexists _, _, _. split; [done|]. split; [|by left]. split_and!; [done|done|].
    destruct o as [[|k]|]; [specialize (Ho 0%nat eq_refl)|specialize (Ho (S k) eq_refl)|]; lia.
Qed.

(** [process_multipart_headers]. *)
Lemma entry_header_total pp :
  mp_inv pp -> 0 ∈ buf pp -> ∃ pp', entry_header alloc_ok pp = Some pp' /\ mp_inv pp' /\ buffer_pos pp' = buffer_pos pp.
Proof.
  intros Hinv H0. unfold entry_header.
  destruct (has_prefix_total (str "Content-disposition: ") (buf pp) H0) as (d & -> & Hd);
    [apply (bool_decide_unpack _); reflexivity|]. cbn [mbind option_bind]. destruct d.
  - destruct (Hd eq_refl) as [Hdt _].
    destruct (try_get_value_total (drop (length (str "Content-disposition: ")) (buf pp)) (str "name") (content_name pp))
      as (n & ->); [done|apply (bool_decide_unpack _); reflexivity|done|]. cbn [mbind option_bind]. pp_simpl.
    destruct (try_get_value_total (drop (length (str "Content-disposition: ")) (buf pp)) (str "filename") (content_filename pp))
      as (f & ->); [done|apply (bool_decide_unpack _); reflexivity|done|]. cbn [mbind option_bind].
    eexists. split; [done|]. split; [|done]. destruct Hinv. by constructor.
  - destruct (try_match_header_total (str "Content-type: ") (buf pp) (content_type pp)) as (t & -> & Ht);
      [done|apply (bool_decide_unpack _); reflexivity|]. cbn [mbind option_bind]. pp_simpl.
    destruct (try_match_header_total (str "Content-Transfer-Encoding: ") (buf pp) (content_transfer_encoding pp))
      as (e & -> & _); [done|apply (bool_decide_unpack _); reflexivity|]. cbn [mbind option_bind].
    eexists. split; [done|]. split; [|done]. destruct Hinv. constructor; pp_simpl; try done.
    intros t' Hst. destruct (Ht t' Hst) as [Ho|Ho]; [by auto|lia].
Qed.

Lemma process_headers_total pp next :
  mp_inv pp -> multipart_state next = true -> (nested_state next = true -> is_Some (nested_boundary pp)) ->
  ∃ yes pp' ioff, process_multipart_headers alloc_ok pp 0 next = Some (yes, pp', ioff)
    /\ op_ok room enc (buffer_pos pp) pp' ioff
    /\ (if (yes : bool) then (0 < ioff)%nat \/ state pp' = next else state pp' = state pp \/ state pp' = PP_Error).
Proof.
  intros Hinv Hn1 Hn2. pose proof Hinv as [_ Hrm Hsz Hbuf Hpos _ _ _ _ _]. unfold process_multipart_headers.
  pose proof (count_until_le newline_char (take (buffer_pos pp) (buf pp))) as Hnl. rewrite length_take in Hnl.
  set (newline := count_until newline_char (take (buffer_pos pp) (buf pp))) in *. clearbody newline.
  destruct (Nat.eqb_spec newline (buffer_size pp)) as [E1|E1].
  { eexists _, _, _. split; [done|]. split; [split_and!; [by apply set_state_inv|done|lia]|by right]. }
  destruct (Nat.eqb_spec newline (buffer_pos pp)) as [E2|E2].
  { eexists _, _, _. split; [done|]. split; [split_and!; done || lia|by left]. }
  destruct (Nat.eqb_spec newline 0) as [E3|E3].
  { eexists _, _, _. split; [done|]. split; [split_and!; pp_simpl; [|done|lia]|by right].
    destruct Hinv. by constructor. }
  destruct (lookup_lt_is_Some_2 (buf pp) newline) as [c Hc]; [lia|]. unfold deref_at. rewrite Hc. cbn [mbind option_bind].
  set (pp1 := if c =? 13 then set_skip_rn RN_OptN pp else pp).
  assert (mp_inv pp1 /\ buf pp1 = buf pp /\ buffer_pos pp1 = buffer_pos pp) as (Hinv1 & Hb1 & Hp1).
  { subst pp1. destruct (c =? 13); [|done]. split; [|done]. destruct Hinv. by constructor. }
  destruct (mem_write_Some (buf pp1) (Z.of_nat newline) [0]) as (b & Eb & Hlb); [lia|rewrite Hb1; simpl; lia|].
  rewrite Eb. cbn [mbind option_bind].
  destruct (entry_header_total (set_buf b pp1)) as (pp' & -> & Hinv' & Hp').
  { rewrite Hb1, Hbuf in Hlb. destruct Hinv1. by constructor. }
  { pp_simpl. apply mem_write_read in Eb. unfold mem_read in Eb. destruct (in_object _ _ _); [|done].
    injection Eb as Eb. assert (0 ∈ [0]) as H0 by left. rewrite <- Eb in H0.
    apply elem_of_take in H0 as (i & Hi & _). rewrite lookup_drop in Hi. by apply list_elem_of_lookup_2 in Hi. }
  cbn [mbind option_bind]. eexists _, _, _. split; [done|]. split; [split_and!; [done|rewrite Hp'; pp_simpl; lia|lia]|left; lia].
Qed.

(** [process_value_to_boundary]. *)
Lemma boundary_start_total fuel b pos newline :
  (pos <= length b)%nat -> (pos - newline <= fuel)%nat ->
  ∃ n, boundary_start fuel b pos newline = Some n /\ (newline <= n)%nat /\ (n = newline \/ n + 4 <= pos)%nat.
Proof.
  intros Hb. revert newline. induction fuel as [|fuel IH]; intros newline Hf; cbn [boundary_start];
    destruct (Nat.ltb_spec (newline + 4) pos); try lia; try by (exists newline; split_and!; [done|lia|by left]).
  destruct (memchr_total b (Z.of_nat newline) 13 (Z.of_nat (pos - newline - 4))) as (o & -> & Ho); [lia..|].
  cbn [mbind option_bind]. destruct o as [k|]; [|exists (pos - 4)%nat; split_and!; [done|lia|right; lia]].
  specialize (Ho k eq_refl). destruct (memcmp_total (13 :: 10 :: str "--") (drop (newline + k) b) 4) as (same & ->);
    [lia|simpl; lia|rewrite length_drop; lia|]. cbn [mbind option_bind].
  destruct same; [exists (newline + k)%nat; split_and!; [done|lia|right; lia]|].
  destruct (IH (S (newline + k))) as (n & -> & Hle & Hor); [lia|]. exists n. split_and!; [done|lia|right; lia].
Qed.

Lemma boundary_search_total fuel b pos bn bl newline :
  (pos <= length b)%nat -> (pos <= room)%nat -> boundary_ok room bn bl -> (newline <= pos)%nat -> (pos - newline <= fuel)%nat ->
  ∃ found n, boundary_search fuel b pos (Some bn) bl newline = Some (found, n) /\ (n <= pos)%nat
    /\ (found = true -> Z.of_nat n + bl + 4 <= Z.of_nat pos).
Proof.
  intros Hb Hr [Hbl Hroom]. revert newline. induction fuel as [|fuel IH]; intros newline Hn Hf; cbn [boundary_search];
    (destruct (boundary_start_total pos b pos newline) as (n & -> & Hle & Hor); [done|lia|]); cbn [mbind option_bind];
    rewrite (usize_small (Z.of_nat n + bl)) by lia; rewrite usize_small by lia;
    (destruct (Z.leb_spec (Z.of_nat n + bl + 4) (Z.of_nat pos)); [|by exists false, n; split_and!; [|lia|]]);
    (destruct (memcmp_total (drop (n + 4) b) bn bl) as (same & ->); [lia|rewrite length_drop; lia|lia|]); cbn [mbind option_bind];
    (destruct same; cbn [negb]; [by exists true, n; split_and!; [|lia|]|]).
  - lia.
  - apply IH; lia.
Qed.

Lemma process_value_total pp st b bl next dash :
  mp_inv pp -> boundary_ok room b bl -> multipart_state next = true ->
  (nested_state next = true -> is_Some (nested_boundary pp)) ->
  multipart_state dash = true -> nested_state dash = false ->
  ∃ yes pp' st' ioff, process_value_to_boundary ikvi pp st 0 (Some b) bl next dash = Some (yes, pp', st', ioff)
    /\ op_ok room enc (buffer_pos pp) pp' ioff
    /\ (if (yes : bool) then (0 < ioff)%nat \/ state pp' = state pp else state pp' = PP_Error).
Proof.
  intros Hinv Hb Hn1 Hn2 Hd1 Hd2. pose proof Hinv as [_ Hrm Hsz Hbuf Hpos _ _ _ _ _]. unfold process_value_to_boundary.
  destruct (boundary_search_total (buffer_pos pp) (buf pp) (buffer_pos pp) b bl 0) as (found & n & -> & Hn & Hf);
    [lia|done|done|lia|lia|]. destruct Hb as [Hbl _]. cbn [mbind option_bind].
  destruct (negb found && (n =? 0)%nat && (buffer_pos pp =? buffer_size pp)%nat).
  { eexists _, _, _, _. split; [done|]. split; [split_and!; [by apply set_state_inv|done|lia]|done]. }
  assert (∃ pp1 i1, (if found then
      b ← mem_write (buf pp) (Z.of_nat n) [0];
      Some (set_buf b (set_dash_state dash (set_state next (set_skip_rn RN_Dash pp))), (0 + (Z.to_nat bl + 4))%nat)
    else Some (pp, 0%nat)) = Some (pp1, i1) /\ mp_inv pp1 /\ buffer_pos pp1 = buffer_pos pp
      /\ (i1 + n <= buffer_pos pp)%nat /\ ((0 < i1)%nat \/ state pp1 = state pp)) as (pp1 & i1 & -> & Hinv1 & Hp1 & Hi1 & Hor).
  { destruct found.
    - destruct (mem_write_Some (buf pp) (Z.of_nat n) [0]) as (b' & -> & Hlb); [lia|simpl; lia|]. cbn [mbind option_bind].
      specialize (Hf eq_refl). eexists _, _. split; [done|]. split_and!; pp_simpl; [|done|lia|left; lia].
      destruct Hinv. constructor; pp_simpl; try done. lia.
    - eexists _, _. split; [done|]. split_and!; [done|done|lia|by right]. }
  cbn [mbind option_bind]. destruct (mem_read_Some (buf pp1) 0 (Z.of_nat n)) as (data & -> & _);
    [lia|lia|rewrite (inv_buf _ _ _ Hinv1); lia|]. cbn [mbind option_bind].
  destruct (if must_ikvi pp1 || negb (n =? 0)%nat then _ else _) as [st1 ok]. destruct ok; cbn [negb].
  - eexists _, _, _, _. split; [done|]. split; [split_and!; pp_simpl; [|done|lia]|pp_simpl; destruct Hor; [left; lia|by right]].
    destruct Hinv1. by constructor.
  - eexists _, _, _, _. split; [done|]. split; [split_and!; [by apply set_state_inv|done|lia]|done].
Qed.

(** *** The two machines *)

(** States from which a transition without input leads to a smaller one. *)
Definition rank (s : PP_State) : nat :=
  match s with
  | PP_PerformCleanup | PP_Nested_PerformMarking | PP_Nested_PerformCleanup => 4
  | PP_ProcessEntryHeaders | PP_Nested_ProcessEntryHeaders => 3
  | PP_PerformCheckMultipart => 2
  | PP_Error => 0
  | _ => 1
  end.

(** A step from a buffer with [pos] bytes in state [s] uses input, goes down
    in rank, or leaves the state alone. *)
Definition advances (s : PP_State) (pp' : MHD_PostProcessor) (ioff : nat) (changed : bool) : Prop :=
  (0 < ioff)%nat \/ (if changed then rank (state pp') < rank s else rank (state pp') <= rank s)%nat.

Definition engine_ok (pp : MHD_PostProcessor) (r : option (@engine_result St)) : Prop :=
  match r with
  | Some (Break pp' _ ioff changed) => op_ok room enc (buffer_pos pp) pp' ioff /\ advances (state pp) pp' ioff changed
  | Some (Fail pp' _) => mp_inv pp'
  | Some (Goto_END pp' _ ioff) => op_ok room enc (buffer_pos pp) pp' ioff
  | None => False
  end.

Lemma need_data_ok pp pp' st ioff :
  op_ok room enc (buffer_pos pp) pp' ioff -> engine_ok pp (Some (need_data pp' st ioff)).
Proof. intros Ho. unfold need_data. case_bool_decide; [by apply Ho|done]. Qed.

Lemma check_multipart_ok pp st :
  mp_inv pp -> state pp = PP_PerformCheckMultipart -> engine_ok pp (check_multipart alloc_ok pp st).
Proof.
  intros Hinv Hst. unfold check_multipart.
  assert (engine_ok pp (Some (Break (set_value_offset 0 (set_state PP_ProcessValueToBoundary pp)) st 0 true))) as Hplain.
  { split; [split_and!; [|done|lia]|right; rewrite Hst; simpl; lia]. destruct Hinv. by constructor. }
  destruct (content_type pp) as [ty|] eqn:Ety; [|done].
  destruct (terminated_split (cstr ty) (cstr_terminated ty)) as (a & r & Ea & Ha).
  assert (length (cstr ty) <= S (S room))%nat as Hlty.
  { unfold cstr. rewrite length_app. pose proof (inv_type _ _ _ Hinv ty Ety). simpl. lia. }
  rewrite Ea in *. change (cstr (str "multipart/mixed")) with (str "multipart/mixed" ++ 0 :: []).
  rewrite str_equal_caseless_n_spec by (try done; apply (bool_decide_unpack _); reflexivity). cbn [mbind option_bind].
  destruct (bool_decide _); [|done].
  destruct (strstr_total a r (str "boundary=")) as (o & -> & Ho); [done|apply (bool_decide_unpack _); reflexivity|done|].
  cbn [mbind option_bind]. destruct o as [k|].
  2:{ destruct Hinv. by constructor. }
  specialize (Ho k eq_refl). destruct (strdup_total (drop (k + length (str "boundary=")) (a ++ 0 :: r))) as (d & -> & Hd);
    [by apply drop_terminated|]. cbn [mbind option_bind]. destruct d as [nb|].
  2:{ destruct Hinv. by constructor. }
  specialize (Hd nb eq_refl). rewrite length_drop in Hd.
  split; [split_and!; pp_simpl; [|done|lia]|right; rewrite Hst; simpl; lia].
  destruct Hinv. constructor; pp_simpl; try done. intros nb' [= <-]. split; [done|]. change (length (str "boundary=")) with 9%nat in Hd. lia.
Qed.

Lemma nested_ok pp nb :
  mp_inv pp -> nested_boundary pp = Some nb -> boundary_ok room (cstr nb) (nlen pp).
Proof.
  intros [] Hnb. destruct (inv_nested0 nb Hnb) as [-> Hl]. unfold boundary_ok, cstr. rewrite length_app. simpl. lia.
Qed.

Lemma free_unmarked_inv pp : mp_inv pp -> mp_inv (free_unmarked pp).
Proof.
  intros []. constructor; pp_simpl; try done. cbn. unfold free_field. intros t. destruct (_ =? 0); [done|auto].
Qed.

Lemma engine_step_ok pp st : mp_inv pp -> engine_ok pp (engine_step ikvi alloc_ok pp st).
Proof.
  intros Hinv. pose proof (inv_boundary _ _ _ Hinv) as (b & Eb & Hb). pose proof (inv_state _ _ _ Hinv) as [Hms Hns].
  unfold engine_step. destruct (state pp) eqn:Hst; try done.
  - by apply set_state_inv.
  - (* PP_Init *)
    rewrite Eb. destruct (find_boundary_total pp b (blen pp) PP_ProcessEntryHeaders PP_Done) as (yes & pp' & ioff & -> & Ho & Hy); try done.
    cbn [mbind option_bind engine_ok]. split; [done|]. destruct yes; [by left|].
    unfold advances. destruct Hy as [->| ->]; [right; by rewrite Hst|right; simpl; lia].
  - (* PP_NextBoundary *)
    rewrite Eb. destruct (find_boundary_total pp b (blen pp) PP_ProcessEntryHeaders PP_Done) as (yes & pp' & ioff & -> & Ho & Hy); try done.
    cbn [mbind option_bind]. unfold boundary_state. destruct yes; [|by apply need_data_ok]. split; [done|by left].
  - (* PP_ProcessEntryHeaders *)
    assert (mp_inv (set_must_ikvi true pp)) as Hinv' by (destruct Hinv; constructor; pp_simpl; try done; by rewrite Hst).
    destruct (process_headers_total (set_must_ikvi true pp) PP_PerformCheckMultipart) as (yes & pp' & ioff & -> & Ho & Hy); try done.
    cbn [mbind option_bind]. unfold headers_state. destruct yes; [|by apply need_data_ok]. split; [done|].
    destruct Hy as [Hy|Hy]; [by left|right; rewrite Hy, Hst; simpl; lia].
  - by apply check_multipart_ok.
  - (* PP_ProcessValueToBoundary *)
    rewrite Eb. destruct (process_value_total pp st b (blen pp) PP_PerformCleanup PP_Done) as (yes & pp' & st' & ioff & -> & Ho & Hy); try done.
    cbn [mbind option_bind]. unfold value_state. destruct yes; cbn [negb andb].
    + split; [done|]. destruct Hy as [Hy|Hy]; [by left|right; by rewrite Hy, Hst].
    + rewrite bool_decide_true by done. apply Ho.
  - (* PP_PerformCleanup *)
    assert (mp_inv (set_have NE_none pp)) as Hinv' by (destruct Hinv; constructor; pp_simpl; try done; by rewrite Hst).
    apply free_unmarked_inv in Hinv'.
    split; [split_and!; [|done|lia]|right; rewrite Hst; simpl; lia].
    destruct Hinv'. by constructor.
  - (* PP_Nested_Init *)
    destruct (nested_boundary pp) as [nb|] eqn:Enb; [|by apply set_state_inv].
    destruct (find_boundary_total pp (cstr nb) (nlen pp) PP_Nested_PerformMarking PP_NextBoundary)
      as (yes & pp' & ioff & -> & Ho & Hy); try done; [by apply nested_ok|].
    cbn [mbind option_bind]. unfold boundary_state. destruct yes; [|by apply need_data_ok]. split; [done|by left].
  - (* PP_Nested_PerformMarking *)
    split; [split_and!; [|done|lia]|right; rewrite Hst; simpl; lia]. destruct Hinv. constructor; pp_simpl; try done; auto.
  - (* PP_Nested_ProcessEntryHeaders *)
    assert (mp_inv (set_value_offset 0 pp)) as Hinv' by (destruct Hinv; constructor; pp_simpl; try done; by rewrite Hst).
    destruct (process_headers_total (set_value_offset 0 pp) PP_Nested_ProcessValueToBoundary)
      as (yes & pp' & ioff & -> & Ho & Hy); try done.
    cbn [mbind option_bind]. unfold headers_state. destruct yes; [|by apply need_data_ok]. split; [done|].
    destruct Hy as [Hy|Hy]; [by left|right; rewrite Hy, Hst; simpl; lia].
  - (* PP_Nested_ProcessValueToBoundary *)
    destruct (Hns eq_refl) as [nb Enb]. rewrite Enb. cbn [fmap option_fmap option_map].
    destruct (process_value_total pp st (cstr nb) (nlen pp) PP_Nested_PerformCleanup PP_NextBoundary)
      as (yes & pp' & st' & ioff & -> & Ho & Hy); try done; [by apply nested_ok|].
    cbn [mbind option_bind]. unfold value_state. destruct yes; cbn [negb andb].
    + split; [done|]. destruct Hy as [Hy|Hy]; [by left|right; by rewrite Hy, Hst].
    + rewrite bool_decide_true by done. apply Ho.
  - (* PP_Nested_PerformCleanup *)
    pose proof (free_unmarked_inv pp Hinv) as Hinv'.
    split; [split_and!; [|done|lia]|right; rewrite Hst; simpl; lia]. destruct Hinv'. constructor; pp_simpl; try done.
Qed.

Definition rn_ok (pp : MHD_PostProcessor) (r : option rn_result) : Prop :=
  match r with
  | Some (Rn_again pp' ioff) => op_ok room enc (buffer_pos pp) pp' ioff /\ (0 < ioff)%nat
  | Some (Rn_fail pp') => mp_inv pp'
  | Some (Rn_main pp') => mp_inv pp' /\ buffer_pos pp' = buffer_pos pp /\ (rank (state pp') <= rank (state pp))%nat
  | None => False
  end.

Lemma skip_rn_inv pp x : mp_inv pp -> mp_inv (set_skip_rn x pp).
Proof. intros []. by constructor. Qed.

Lemma rn_full_ok pp : mp_inv pp -> (1 <= buffer_pos pp)%nat -> rn_ok pp (rn_full pp).
Proof.
  intros Hinv Hp. pose proof Hinv as [_ Hrm _ Hbuf _ _ _ _ _ _]. unfold rn_full.
  destruct (lookup_lt_is_Some_2 (buf pp) 0) as [c Hc]; [lia|]. unfold deref_at. rewrite Hc. cbn [mbind option_bind].
  destruct (c =? 13).
  - destruct (Nat.ltb_spec 1 (buffer_pos pp)).
    + destruct (lookup_lt_is_Some_2 (buf pp) 1) as [c1 Hc1]; [lia|]. rewrite Hc1. cbn [mbind option_bind andb].
      destruct (c1 =? 10); (split; [split_and!; [by apply skip_rn_inv|done|lia]|lia]).
    + cbn [mbind option_bind andb]. split; [split_and!; [by apply skip_rn_inv|done|lia]|lia].
  - destruct (c =? 10); [split; [split_and!; [by apply skip_rn_inv|done|lia]|lia]|].
    by apply set_state_inv; [apply skip_rn_inv|..].
Qed.

Lemma rn_dash_ok pp : mp_inv pp -> (1 <= buffer_pos pp)%nat -> rn_ok pp (rn_dash pp).
Proof.
  intros Hinv Hp. pose proof Hinv as [_ Hrm _ Hbuf _ _ _ _ _ _]. unfold rn_dash.
  destruct (lookup_lt_is_Some_2 (buf pp) 0) as [c Hc]; [lia|]. unfold deref_at. rewrite Hc. cbn [mbind option_bind].
  destruct (c =? 45); [split; [split_and!; [by apply skip_rn_inv|done|lia]|lia]|].
  apply (rn_full_ok (set_skip_rn RN_Full pp)); [by apply skip_rn_inv|done].
Qed.

Lemma rn_step_ok pp : mp_inv pp -> (1 <= buffer_pos pp)%nat -> rn_ok pp (rn_step pp).
Proof.
  intros Hinv Hp. pose proof Hinv as [_ Hrm _ Hbuf _ _ _ _ _ [Hd1 Hd2]]. unfold rn_step.
  destruct (lookup_lt_is_Some_2 (buf pp) 0) as [c Hc]; [lia|]. unfold deref_at. rewrite Hc. cbn [mbind option_bind].
  destruct (skip_rn pp).
  - by split_and!.
  - destruct (c =? 10); [|by apply rn_dash_ok]. split; [split_and!; [by apply skip_rn_inv|done|lia]|lia].
  - by apply rn_full_ok.
  - by apply rn_dash_ok.
  - destruct (c =? 45).
    + split; [split_and!; [by apply set_state_inv; [apply skip_rn_inv|..]|done|lia]|lia].
    + split_and!; [by apply set_state_inv|done|simpl; lia].
Qed.

Lemma consume_total pp ioff :
  mp_inv pp -> (ioff <= buffer_pos pp)%nat ->
  ∃ pp', consume pp ioff = Some pp' /\ mp_inv pp' /\ buffer_pos pp' = (buffer_pos pp - ioff)%nat.
Proof.
  intros Hinv Hi. pose proof Hinv as [_ Hrm _ Hbuf Hpos _ _ _ _ _]. unfold consume.
  destruct (memmove_Some (buf pp) 0 (Z.of_nat ioff) (Z.of_nat (buffer_pos pp) - Z.of_nat ioff)) as (b & -> & Hl & _); [lia..|].
  cbn [mbind option_bind]. eexists. split; [done|]. split; [|done]. destruct Hinv. constructor; pp_simpl; done || lia.
Qed.

(** One iteration: less in the buffer, a smaller rank, or nothing changed. *)
Definition step_result_ok (pp : MHD_PostProcessor) (r : option (@multipart_result St)) : Prop :=
  match r with
  | Some (Again pp' _ changed) =>
      mp_inv pp'
      /\ ((buffer_pos pp' < buffer_pos pp)%nat
          \/ buffer_pos pp' = buffer_pos pp
             /\ (if changed then rank (state pp') < rank (state pp) else rank (state pp') <= rank (state pp))%nat)
  | Some (Failed pp' _) => mp_inv pp'
  | Some (Ended pp' _ ioff) => op_ok room enc (buffer_pos pp) pp' ioff
  | None => False
  end.

Lemma again_ok pp pp' st ioff changed :
  op_ok room enc (buffer_pos pp) pp' ioff -> advances (state pp) pp' ioff changed ->
  step_result_ok pp (again pp' st ioff changed).
Proof.
  intros (Hinv & Hp & Hi) Hadv. unfold again. destruct (Nat.ltb_spec 0 ioff).
  - destruct (consume_total pp' ioff) as (pp2 & -> & Hinv2 & Hp2); [done|lia|]. cbn [mbind option_bind step_result_ok].
    split; [done|left; lia].
  - split; [done|right]. split; [done|]. destruct Hadv; [lia|done].
Qed.

Lemma multipart_step_ok pp st :
  mp_inv pp -> (1 <= buffer_pos pp)%nat -> step_result_ok pp (multipart_step ikvi alloc_ok pp st).
Proof.
  intros Hinv Hp. unfold multipart_step. pose proof (rn_step_ok pp Hinv Hp) as Hr.
  destruct (rn_step pp) as [[pp1 ioff|pp1|pp1]|]; cbn [mbind option_bind rn_ok] in *; [| | |done].
  - destruct Hr as [Ho Hi]. by apply again_ok; [|left].
  - done.
  - destruct Hr as (Hinv1 & Hp1 & Hrk). pose proof (engine_step_ok pp1 st Hinv1) as He.
    destruct (engine_step ikvi alloc_ok pp1 st) as [[pp2 st2 ioff changed|pp2 st2|pp2 st2 ioff]|];
      cbn [mbind option_bind engine_ok] in *; [| |by rewrite Hp1 in He|done].
    + destruct He as [Ho Hadv]. rewrite Hp1 in Ho. apply again_ok; [done|].
      destruct Hadv as [Hadv|Hadv]; [by left|right]. destruct changed; lia.
    + done.
Qed.

(** *** The loop *)

(** Bytes left, rank, unread input and the flag, in lexicographic order. *)
Definition measure (len : nat) (pp : MHD_PostProcessor) (poff : nat) (flag : bool) : nat :=
  ((((len - poff + buffer_pos pp) * 5 + rank (state pp)) * (len + 1) + (len - poff)) * 2 + (if flag then 1 else 0))%nat.

Lemma rank_le s : (rank s <= 4)%nat.
Proof. destruct s; simpl; lia. Qed.

Lemma measure_lex (a a' l r r' f f' : nat) :
  (r <= l)%nat -> (r' <= l)%nat -> (f <= 1)%nat -> (f' <= 1)%nat ->
  (a' < a \/ a' = a /\ (r' < r \/ r' = r /\ f' < f))%nat ->
  ((a' * (l + 1) + r') * 2 + f' < (a * (l + 1) + r) * 2 + f)%nat.
Proof.
  intros Hr Hr' Hf Hf' [Ha|[-> [Hlt|[-> Hlt]]]]; [|lia|lia].
  assert (a' * (l + 1) + (l + 1) <= a * (l + 1))%nat by nia. lia.
Qed.

Lemma multipart_end_total pp (st : St) data poff ioff :
  mp_inv pp -> (ioff <= buffer_pos pp)%nat ->
  ∃ pp' st' ret, multipart_end pp st data poff ioff = Some (pp', st', ret) /\ mp_inv pp'.
Proof.
  intros Hinv Hi. unfold multipart_end.
  assert (∃ pp1, (if negb (ioff =? 0)%nat then consume pp ioff else Some pp) = Some pp1 /\ mp_inv pp1) as (pp1 & -> & Hinv1).
  { destruct (ioff =? 0)%nat; cbn [negb]; [by eauto|]. destruct (consume_total pp ioff) as (pp1 & -> & ? & _); [done|done|by eauto]. }
  cbn [mbind option_bind]. destruct (poff <? length data)%nat; eexists _, _, _; (split; [done|]); [by apply set_state_inv|done].
Qed.

Lemma multipart_loop_total fuel data pp st poff flag :
  mp_inv pp -> (poff <= length data)%nat -> (measure (length data) pp poff flag < fuel)%nat ->
  ∃ pp' st' ret, multipart_loop ikvi alloc_ok fuel pp st data poff flag = Some (pp', st', ret) /\ mp_inv pp'.
Proof.
  revert pp st poff flag. induction fuel as [|fuel IH]; intros pp st poff flag Hinv Hp Hf; [lia|].
  cbn [multipart_loop]. destruct (_ || _) eqn:Hgo; [|apply multipart_end_total; [done|lia]].
  pose proof Hinv as [_ Hrm Hsz Hbuf Hpos _ _ _ _ _]. rewrite Hsz.
  remember (Nat.min (room - buffer_pos pp) (length data - poff)) as max eqn:Hmax.
  destruct (mem_read_Some data (Z.of_nat poff) (Z.of_nat max)) as (bs & -> & Hbs); [lia..|]. cbn [mbind option_bind].
  destruct (mem_write_Some (buf pp) (Z.of_nat (buffer_pos pp)) bs) as (b & -> & Hlb); [lia..|]. cbn [mbind option_bind].
  set (pp1 := set_buffer_pos (buffer_pos pp + max) (set_buf b pp)).
  assert (mp_inv pp1) as Hinv1 by (subst pp1; destruct Hinv; constructor; pp_simpl; done || lia).
  destruct ((max =? 0)%nat && negb flag && (poff + max <? length data)%nat) eqn:Hoom.
  { eexists _, _, _. split; [done|]. by apply set_state_inv. }
  assert (1 <= buffer_pos pp1)%nat as Hpos1.
  { subst pp1. pp_simpl. apply orb_true_iff in Hgo as [Hgo|Hgo]; [apply Nat.ltb_lt in Hgo; lia|].
    apply andb_true_iff in Hgo as [Hgo _]. apply Nat.ltb_lt in Hgo. lia. }
  pose proof (multipart_step_ok pp1 st Hinv1 Hpos1) as Hs.
  destruct (multipart_step ikvi alloc_ok pp1 st) as [[pp2 st2 changed|pp2 st2|pp2 st2 ioff]|];
    cbn [mbind option_bind step_result_ok] in *; [| |by destruct Hs as (? & <- & ?); apply multipart_end_total|done].
  2:{ eexists _, _, _. by split. }
  destruct Hs as [Hinv2 Hs]. apply IH; [done|lia|].
  cut (measure (length data) pp2 (poff + max) changed < measure (length data) pp poff flag)%nat; [lia|].
  unfold measure. pose proof (rank_le (state pp2)). pose proof (rank_le (state pp)).
  assert (state pp1 = state pp /\ buffer_pos pp1 = (buffer_pos pp + max)%nat) as [E1 E2] by done. rewrite E1, E2 in Hs.
  apply measure_lex; [lia|lia|destruct flag; lia|destruct changed; lia|].
  destruct Hs as [Hs|[Hs1 Hs2]]; [left; lia|]. destruct changed; [left; lia|].
  destruct (decide (rank (state pp2) = rank (state pp))) as [Er|]; [right|left; lia]. split; [lia|].
  destruct (decide (max = 0%nat)) as [E0|]; [right|left; lia]. split; [lia|].
  destruct flag; [lia|]. exfalso. rewrite E0, Nat.add_0_r in Hoom. cbn [Nat.eqb negb andb] in Hoom.
  apply orb_true_iff in Hgo as [Hgo|Hgo]; [congruence|]. by rewrite andb_false_r in Hgo.
Qed.

Lemma post_process_multipart_total pp st data :
  mp_inv pp -> ∃ pp' st' ret, post_process_multipart ikvi alloc_ok pp st data = Some (pp', st', ret) /\ mp_inv pp'.
Proof.
  intros Hinv. apply multipart_loop_total; [done|lia|]. unfold measure, multipart_fuel. rewrite Nat.sub_0_r.
  pose proof (rank_le (state pp)). nia.
Qed.
End Multipart.

(** ** URL-encoded data *)

Definition url_state (s : PP_State) : bool :=
  match s with PP_Error | PP_Done | PP_Init | PP_ProcessValue | PP_ExpectNewLine => true | _ => false end.

Record ue_inv (room : nat) (enc : bytes) (pp : MHD_PostProcessor) : Prop := {
  ue_enc : encoding pp = enc;
  ue_size : buffer_size pp = room;
  ue_buf : length (buf pp) = S room;
  ue_pos : (buffer_pos pp <= room)%nat;
  ue_xbuf : length (pp_xbuf pp) = 8%nat;
  ue_xpos : (xbuf_pos pp <= 2)%nat;
  ue_state : url_state (state pp) = true;
  ue_key : state pp = PP_ProcessValue -> 0 ∈ buf pp
}.

Section Urlencoded.
Context (room : nat) (enc : bytes).
#[local] Abbreviation ue_inv := (ue_inv room enc).

(** An iteration moves on in the input, or to the state that ends the loop. *)
Definition ue_step_ok (pp : MHD_PostProcessor) (len poff : nat) (r : option (@step_result St)) : Prop :=
  match r with
  | Some (Next pp' _ poff') =>
      ue_inv pp' /\ (poff <= poff' <= len)%nat
      /\ ((poff < poff')%nat \/ state pp ≠ PP_ExpectNewLine /\ state pp' = PP_ExpectNewLine)
  | Some (Return pp' _ _) => ue_inv pp'
  | None => False
  end.

Lemma mem_write_terminates m off : is_Some (m !! off) -> ∃ m', mem_write m (Z.of_nat off) [0] = Some m'
  /\ length m' = length m /\ 0 ∈ m'.
Proof.
  intros [c Hc]. apply lookup_lt_Some in Hc as Hl.
  destruct (mem_write_Some m (Z.of_nat off) [0]) as (m' & E & Hm); [lia|simpl; lia|]. exists m'. split_and!; [done|done|].
  apply mem_write_read in E. unfold mem_read in E. destruct (in_object _ _ _); [|done].
  injection E as E. assert (0 ∈ [0]) as H0 by left. rewrite <- E in H0.
  apply elem_of_take in H0 as (i & Hi & _). rewrite lookup_drop in Hi. by apply list_elem_of_lookup_2 in Hi.
Qed.

Lemma ue_key_ok pp st data poff :
  ue_inv pp -> state pp = PP_Init -> (poff < length data)%nat -> ue_step_ok pp (length data) poff (urlencoded_key pp st data poff).
Proof.
  intros [Henc Hsz Hbuf Hpos Hx Hxp Hst Hk] Hi Hp. unfold urlencoded_key.
  pose proof (count_until_le (Z.eqb 61) (drop poff data)) as Hle. rewrite length_drop in Hle.
  set (equals := count_until (Z.eqb 61) (drop poff data)) in *. clearbody equals.
  destruct (Nat.ltb_spec (buffer_size pp) (equals + buffer_pos pp)); [by constructor|].
  destruct (mem_read_Some data (Z.of_nat poff) (Z.of_nat equals)) as (bs & -> & Hbs); [lia..|]. cbn [mbind option_bind].
  destruct (mem_write_Some (buf pp) (Z.of_nat (buffer_pos pp)) bs) as (b & -> & Hlb); [lia..|]. cbn [mbind option_bind].
  destruct (Nat.eqb_spec (equals + poff) (length data)).
  { constructor; pp_simpl; try done; try lia. by rewrite Hi. }
  pp_simpl. destruct (mem_write_terminates b (buffer_pos pp + equals)) as (b1 & -> & Hl1 & H1).
  { apply lookup_lt_is_Some_2. lia. }
  cbn [mbind option_bind]. destruct (unescape_plus_total b1 H1) as (b2 & -> & Hl2 & H2). cbn [mbind option_bind].
  destruct (http_unescape_total b2 H2) as (b3 & n3 & -> & Hl3 & H3 & _). cbn [mbind option_bind].
  split; [|split; [lia|left; lia]]. constructor; pp_simpl; try done; lia.
Qed.

Lemma complete_part_total x xoff :
  (xoff <= length x)%nat -> ∃ n, complete_part x xoff = Some n /\ (n <= xoff)%nat /\ (xoff - n <= 2)%nat.
Proof.
  intros Hl. unfold complete_part. destruct (Nat.ltb_spec 0 xoff).
  - destruct (lookup_lt_is_Some_2 x (xoff - 1)) as [c Hc]; [lia|]. unfold deref_at. rewrite Hc. cbn [mbind option_bind andb].
    destruct (c =? 37); [eexists; split_and!; [done|lia|lia]|]. destruct (Nat.ltb_spec 1 xoff).
    + destruct (lookup_lt_is_Some_2 x (xoff - 2)) as [c1 Hc1]; [lia|]. rewrite Hc1. cbn [mbind option_bind andb].
      destruct (c1 =? 37); eexists; split_and!; done || lia.
    + cbn [mbind option_bind andb]. eexists; split_and!; done || lia.
  - destruct (Nat.ltb_spec 1 xoff); [lia|]. cbn [mbind option_bind andb]. eexists; split_and!; done || lia.
Qed.

(** From the search for an escape sequence on: [k] bytes were taken. *)
Lemma ue_process_ok pp st data poff k xbuf xoff found :
  ue_inv pp -> state pp = PP_ProcessValue -> xbuf_pos pp = 0%nat -> length xbuf = 513%nat -> (xoff <= 512)%nat ->
  (poff + k <= length data)%nat -> (found = true -> (poff + k < length data)%nat) ->
  (k = 0%nat -> found = true /\ ∃ c, deref_at data poff = Some c /\ value_end c = true) ->
  ue_step_ok pp (length data) poff (urlencoded_value_process ikvi pp st data (poff + k) xbuf xoff found).
Proof.
  intros Hinv Hst Hxp Hxb Hxo Hp Hfound Hk. unfold urlencoded_value_process.
  destruct (complete_part_total xbuf xoff) as (n & -> & Hn1 & Hn2); [lia|]. cbn [mbind option_bind].
  assert (∃ pp1, (if (n <? xoff)%nat then
      bs ← mem_read xbuf (Z.of_nat n) (Z.of_nat (xoff - n));
      px ← mem_write (pp_xbuf pp) 0 bs;
      Some (set_xbuf_pos (xoff - n) (set_pp_xbuf px pp), n)
    else Some (pp, xoff)) = Some (pp1, n) /\ ue_inv pp1 /\ state pp1 = PP_ProcessValue) as (pp1 & -> & Hinv1 & Hst1).
  { destruct Hinv. destruct (Nat.ltb_spec n xoff).
    - destruct (mem_read_Some xbuf (Z.of_nat n) (Z.of_nat (xoff - n))) as (bs & -> & Hbs); [lia..|]. cbn [mbind option_bind].
      destruct (mem_write_Some (pp_xbuf pp) 0 bs) as (px & -> & Hpx); [lia..|]. cbn [mbind option_bind].
      eexists. split; [done|]. split; [|done]. constructor; pp_simpl; try done; lia.
    - exists pp. replace n with xoff by lia. split; [done|]. by split. }
  cbn [mbind option_bind]. destruct ((n =? 0)%nat && _) eqn:Hcont.
  { apply andb_true_iff in Hcont as [_ Hc%Nat.eqb_eq]. split; [done|]. split; [lia|left].
    destruct k; [|lia]. destruct (Hk eq_refl) as [Hf _]. specialize (Hfound Hf). lia. }
  destruct (mem_write_terminates xbuf n) as (x1 & -> & Hl1 & H1); [apply lookup_lt_is_Some_2; lia|]. cbn [mbind option_bind].
  destruct (unescape_plus_total x1 H1) as (x2 & -> & Hl2 & H2). cbn [mbind option_bind].
  destruct (http_unescape_total x2 H2) as (x3 & xn & -> & Hl3 & H3 & Hxn). cbn [mbind option_bind]. pp_simpl.
  destruct (cstring_total (buf pp1) (ue_key _ _ _ Hinv1 Hst1)) as (key & -> & _). cbn [mbind option_bind].
  destruct (mem_read_Some x3 0 (Z.of_nat xn)) as (d & -> & _); [lia..|]. cbn [mbind option_bind].
  destruct (ikvi st _) as [st1 ok]. destruct ok; cbn [negb].
  2:{ destruct Hinv1. by constructor. }
  unfold urlencoded_value_end. destruct found.
  - specialize (Hfound eq_refl). destruct (lookup_lt_is_Some_2 data (poff + k)) as [c Hc]; [done|].
    unfold deref_at in *. rewrite Hc. cbn [mbind option_bind].
    destruct (newline_char c) eqn:Enl; [|destruct (c =? 38) eqn:E38].
    + split; [destruct Hinv1; by constructor|]. split; [lia|right]. by rewrite Hst.
    + split; [destruct Hinv1; by constructor|]. split; [lia|left; lia].
    + split; [destruct Hinv1; by constructor|]. split; [lia|left]. destruct k; [|lia]. exfalso.
      destruct (Hk eq_refl) as (_ & c' & Hc' & Hv). rewrite Nat.add_0_r in Hc. rewrite Hc in Hc'. injection Hc' as <-.
      unfold value_end in Hv. unfold newline_char in Enl. rewrite E38 in Hv. cbn [orb] in Hv. congruence.
  - split; [destruct Hinv1; by constructor|]. split; [lia|left]. destruct k; [|lia]. by destruct (Hk eq_refl).
Qed.

Lemma ue_value_ok pp st data poff :
  ue_inv pp -> state pp = PP_ProcessValue -> (poff < length data)%nat ->
  ue_step_ok pp (length data) poff (urlencoded_value ikvi stack_xbuf pp st data poff).
Proof.
  intros Hinv Hst Hp. pose proof Hinv as [Henc Hsz Hbuf Hpos Hx Hxp Hus Hk]. unfold urlencoded_value.
  destruct (mem_read_Some (pp_xbuf pp) 0 (Z.of_nat (xbuf_pos pp))) as (h & -> & Hh); [lia..|]. cbn [mbind option_bind].
  destruct (mem_write_Some stack_xbuf 0 h) as (x1 & -> & Hl1); [lia..|]. cbn [mbind option_bind].
  set (amper := count_until value_end (take XBUF_SIZE (drop poff data))).
  assert (amper <= 512 /\ poff + amper <= length data)%nat as [Ha1 Ha2].
  { pose proof (count_until_le value_end (take 512 (drop poff data))) as H0. rewrite length_take, length_drop in H0.
    subst amper. lia. }
  set (k := Nat.min amper (512 - xbuf_pos pp)).
  destruct (mem_read_Some data (Z.of_nat poff) (Z.of_nat k)) as (bs & -> & Hbs); [lia..|]. cbn [mbind option_bind].
  destruct (mem_write_Some x1 (Z.of_nat (xbuf_pos pp)) bs) as (x2 & -> & Hl2); [lia..|]. cbn [mbind option_bind].
  set (found := match data !! (poff + amper)%nat with Some c => value_end c | None => false end).
  assert (ue_step_ok (set_xbuf_pos 0 pp) (length data) poff
    (urlencoded_value_process ikvi (set_xbuf_pos 0 pp) st data (poff + k) x2 (xbuf_pos pp + k) found)) as Hok; [|done].
  apply ue_process_ok; try done; [by constructor; try done; pp_simpl; lia|lia|lia|lia|..].
  - subst found. destruct (data !! (poff + amper)%nat) as [c|] eqn:E; [|done]. apply lookup_lt_Some in E. intros _. lia.
  - intros Hk0. assert (amper = 0%nat) as Ea by lia.
    destruct (drop poff data) as [|c rest] eqn:Ed; [apply (f_equal length) in Ed; rewrite length_drop in Ed; simpl in Ed; lia|].
    assert (data !! poff = Some c) as Hc.
    { rewrite <- (Nat.add_0_r poff), <- lookup_drop, Ed. done. }
    assert (value_end c = true) as Hvc.
    { subst amper. destruct (value_end c) eqn:Ev; [done|]. cbn [take count_until] in Ea. by rewrite Ev in Ea. }
    subst found. rewrite Ea, Nat.add_0_r, Hc. split; [done|]. by exists c.
Qed.

Lemma ue_step_total pp st data poff :
  ue_inv pp -> (poff < length data)%nat ->
  ue_step_ok pp (length data) poff (urlencoded_step ikvi stack_xbuf pp st data poff)
  /\ (state pp = PP_ExpectNewLine -> forall pp' st' p, urlencoded_step ikvi stack_xbuf pp st data poff ≠ Some (Next pp' st' p)).
Proof.
  intros Hinv Hp. pose proof (ue_state _ _ _ Hinv) as Hs. unfold urlencoded_step. destruct (state pp) eqn:Hst; try done.
  - split; [|done]. destruct Hinv. by constructor.
  - split; [|done]. by apply ue_key_ok.
  - split; [|done]. by apply ue_value_ok.
  - destruct (lookup_lt_is_Some_2 data poff) as [c Hc]; [done|]. unfold deref_at. rewrite Hc. cbn [mbind option_bind].
    destruct (newline_char c); (split; [|done]); [destruct Hinv; by constructor|done].
Qed.

Lemma ue_loop_total fuel data pp st poff :
  ue_inv pp -> (poff <= length data)%nat ->
  (2 * (length data - poff) + (if decide (state pp = PP_ExpectNewLine) then 0 else 1) <= fuel)%nat ->
  ∃ pp' st' ret, urlencoded_loop ikvi stack_xbuf fuel pp st data poff = Some (pp', st', ret) /\ ue_inv pp'.
Proof.
  revert pp st poff. induction fuel as [|fuel IH]; intros pp st poff Hinv Hp Hf; cbn [urlencoded_loop];
    (destruct (Nat.ltb_spec poff (length data)); [|by eexists _, _, _]); [lia|].
  destruct (ue_step_total pp st data poff Hinv) as [Hok Hnl]; [done|].
  destruct (urlencoded_step ikvi stack_xbuf pp st data poff) as [[pp1 st1 p1|pp1 st1 ret]|];
    cbn [mbind option_bind ue_step_ok] in *; [|by eexists _, _, _|done].
  destruct Hok as (Hinv1 & Hle & Hor). apply IH; [done|lia|].
  destruct (decide (state pp = PP_ExpectNewLine)) as [E|E]; [by destruct (Hnl E pp1 st1 p1)|].
  destruct (decide (state pp1 = PP_ExpectNewLine)); destruct Hor as [Hlt|[_ He]]; lia || done.
Qed.

Lemma post_process_urlencoded_total pp st data :
  ue_inv pp -> ∃ pp' st' ret, post_process_urlencoded ikvi stack_xbuf pp st data = Some (pp', st', ret) /\ ue_inv pp'.
Proof. intros Hinv. apply ue_loop_total; [done|lia|]. destruct (decide _); lia. Qed.
End Urlencoded.
End Safety.

(** ** From creation to destruction *)

Section Whole.
Context `{Platform} {St : Type} (ikvi : St -> post_data -> St * bool) (alloc_ok : Z -> bool) (stack_xbuf : bytes).

(** The application goes on feeding chunks, whatever the results. *)
Fixpoint process_all (pp : MHD_PostProcessor) (st : St) (chunks : list bytes) : option (MHD_PostProcessor * St) :=
  match chunks with
  | [] => Some (pp, st)
  | c :: chunks' =>
      '(pp', st', _) ← MHD_post_process ikvi alloc_ok stack_xbuf (Some pp) st c;
      pp' ← pp';
      process_all pp' st' chunks'
  end.

(** The invariant of the encoding in use. *)
Definition pp_inv (room : nat) (enc : bytes) (pp : MHD_PostProcessor) : Prop :=
  encoding pp = enc /\ 0 ∈ enc
  /\ ((has_prefix_caseless FORM_URLENCODED enc = Some true /\ ue_inv room enc pp)
      \/ (has_prefix_caseless FORM_URLENCODED enc = Some false /\ mp_inv room enc pp)).

Lemma post_process_total room enc pp st data :
  length stack_xbuf = 513%nat -> pp_inv room enc pp ->
  ∃ pp' st' ret, MHD_post_process ikvi alloc_ok stack_xbuf (Some pp) st data = Some (Some pp', st', ret) /\ pp_inv room enc pp'.
Proof.
  intros Hx (He & H0 & Hor). unfold MHD_post_process. destruct (length data =? 0)%nat; [by eexists _, _, _|].
  rewrite He. destruct Hor as [[Hu Hinv]|[Hu Hinv]]; rewrite Hu; cbn [mbind option_bind].
  - destruct (post_process_urlencoded_total ikvi stack_xbuf Hx room enc pp st data Hinv) as (pp' & st' & ret & -> & Hinv').
    cbn [mbind option_bind]. eexists _, _, _. split; [done|]. split_and!; [by apply Hinv'|done|by left].
  - destruct (has_prefix_total MULTIPART_FORMDATA enc H0) as (m & -> & _); [apply (bool_decide_unpack _); reflexivity|].
    cbn [mbind option_bind]. destruct m.
    + destruct (post_process_multipart_total ikvi alloc_ok stack_xbuf Hx room enc pp st data Hinv) as (pp' & st' & ret & -> & Hinv').
      cbn [mbind option_bind]. eexists _, _, _. split; [done|]. split_and!; [by apply Hinv'|done|by right].
    + eexists _, _, _. split; [done|]. split_and!; [done|done|by right].
Qed.

Lemma process_all_total room enc chunks pp st :
  length stack_xbuf = 513%nat -> pp_inv room enc pp ->
  ∃ pp' st', process_all pp st chunks = Some (pp', st') /\ pp_inv room enc pp'.
Proof.
  intros Hx. revert pp st. induction chunks as [|c chunks IH]; intros pp st Hinv; cbn [process_all]; [by eauto|].
  destruct (post_process_total room enc pp st c Hx Hinv) as (pp' & st' & ret & -> & Hinv'). cbn [mbind option_bind]. by apply IH.
Qed.

Lemma destroy_total room enc pp st :
  length stack_xbuf = 513%nat -> pp_inv room enc pp ->
  ∃ st' ret, MHD_destroy_post_processor ikvi stack_xbuf (Some pp) st = Some (st', ret).
Proof.
  intros Hx (He & H0 & Hor). unfold MHD_destroy_post_processor. case_bool_decide as Hst.
  - destruct Hor as [[_ Hinv]|[_ Hinv]].
    + destruct (post_process_urlencoded_total ikvi stack_xbuf Hx room enc pp st [10] Hinv) as (pp' & st' & ret & -> & _).
      cbn [mbind option_bind]. by eexists _, _.
    + destruct (inv_state _ _ _ Hinv) as [Hm _]. by rewrite Hst in Hm.
  - cbn [mbind option_bind]. by eexists _, _.
Qed.

Lemma strlen_bound s n : strlen s = Some n -> (n < length s)%nat.
Proof.
  revert n. induction s as [|c s IH]; intros n En; [done|]. simpl in En. destruct (c =? 0); simplify_eq; [simpl; lia|].
  destruct (strlen s) as [j|]; simplify_eq/=. specialize (IH j eq_refl). lia.
Qed.

(** A boundary parameter of a created post processor, unless it was a lone
    quotation mark. *)
Lemma find_encoding_boundary a size b bl :
  no_nul a -> 4 * Z.of_nat (S (length a)) + 3 * size + 64 <= SIZE_MAX -> 0 <= size ->
  find_encoding (cstr a) size = Some (Some (b, bl)) -> bl ≠ SIZE_MAX ->
  (has_prefix_caseless FORM_URLENCODED (cstr a) = Some true)
  \/ (has_prefix_caseless FORM_URLENCODED (cstr a) = Some false
      /\ ∃ s, b = Some s /\ 0 <= bl <= Z.of_nat (length s) /\ 2 * bl <= size).
Proof.
  intros Ha Hbig Hsz E Hbl. unfold find_encoding in E.
  destruct (has_prefix_caseless FORM_URLENCODED (cstr a)) as [u|] eqn:Eu; [|done]. cbn [mbind option_bind] in E.
  destruct u; [by left|right]. split; [done|].
  destruct (has_prefix_caseless MULTIPART_FORMDATA (cstr a)) as [m|] eqn:Em; [|done]. cbn [mbind option_bind] in E.
  destruct m; cbn [negb] in E; [|done]. set (rest := drop (length MULTIPART_FORMDATA) (cstr a)) in *.
  destruct (strstr rest (str "boundary=")) as [[k|]|]; cbn [mbind option_bind] in E; [|done|done].
  set (bd := drop (k + length (str "boundary=")) rest) in *. assert (length bd <= S (length a))%nat as Hlbd.
  { subst bd rest. rewrite !length_drop. unfold cstr. rewrite length_app. simpl. lia. }
  destruct (strlen bd) as [n|] eqn:En; [|done]. cbn [mbind option_bind] in E.
  apply strlen_bound in En as Hn.
  rewrite usize_small in E by lia.
  destruct (_ || _) eqn:Ez; [done|]. apply orb_false_iff in Ez as [Ez%Z.eqb_neq Eg]. rewrite Z.gtb_ltb in Eg. apply Z.ltb_ge in Eg.
  destruct (deref bd) as [f|]; [|done]. cbn [mbind option_bind] in E.
  destruct (deref_at bd (n - 1)) as [l|]; [|done]. cbn [mbind option_bind] in E.
  destruct (_ && _); injection E as <- <-.
  - destruct (decide (n = 1%nat)) as [->|].
    + exfalso. apply Hbl. unfold usize, wrap, SIZE_MAX. change (Z.of_nat 1 - 2) with (-1).
      rewrite <- (Z_mod_plus_full _ 1), Z.mod_small; [lia|]. unfold SIZE_MAX in Hbig. lia.
    + rewrite usize_small by lia. eexists. split; [done|]. destruct bd; [done|]. simpl in *. lia.
  - eexists. split; [done|]. lia.
Qed.

(** The boundary parameter of a content type: the text behind [boundary=]. *)
Definition boundary_parameter (encoding : bytes) : option bytes :=
  let rest := drop (length MULTIPART_FORMDATA) encoding in
  r ← strstr rest (str "boundary=");
  k ← r;
  cstring (drop (k + length (str "boundary=")) rest).

Lemma find_encoding_length a size b bl :
  4 * Z.of_nat (S (length a)) + 3 * size + 64 <= SIZE_MAX -> 0 <= size ->
  find_encoding (cstr a) size = Some (Some (b, bl)) -> boundary_parameter (cstr a) ≠ Some [34] -> bl ≠ SIZE_MAX.
Proof.
  intros Hbig Hsz E Hq. unfold find_encoding in E. apply bind_Some in E as (u & _ & E).
  destruct u; [injection E as <- <-; lia|]. apply bind_Some in E as (m & _ & E). destruct m; cbn [negb] in E; [|done].
  unfold boundary_parameter in Hq. set (rest := drop (length MULTIPART_FORMDATA) (cstr a)) in *.
  apply bind_Some in E as (r & Er & E). rewrite Er in Hq. destruct r as [k|]; [|done]. cbn [mbind option_bind] in Hq.
  set (bd := drop (k + length (str "boundary=")) rest) in *. assert (length bd <= S (length a))%nat as Hlbd.
  { subst bd rest. rewrite !length_drop. unfold cstr. rewrite length_app. simpl. lia. }
  apply bind_Some in E as (n & En & E). apply strlen_bound in En as Hn.
  destruct (_ || _) eqn:Ez; [done|]. apply orb_false_iff in Ez as [Ez%Z.eqb_neq _].
  apply bind_Some in E as (f & Ef & E). apply bind_Some in E as (l & _ & E).
  destruct ((f =? 34) && (l =? 34)) eqn:Eq; injection E as <- <-; [|lia].
  apply andb_true_iff in Eq as [Eq _]. apply Z.eqb_eq in Eq as ->.
  destruct (decide (n = 1%nat)) as [->|]; [|rewrite usize_small by lia; lia].
  destruct Hq. unfold cstring. rewrite En. cbn [mbind option_bind]. destruct bd as [|c bd]; [done|].
  cbn [deref head] in Ef. by injection Ef as ->.
Qed.

Lemma create_length calloc_ok hs size pp :
  MHD_create_post_processor calloc_ok hs size = Some (Some pp) ->
  4 * Z.of_nat (length (encoding pp)) + 3 * Z.of_nat size + 96 <= SIZE_MAX ->
  boundary_parameter (encoding pp) ≠ Some [34] -> blen pp ≠ SIZE_MAX.
Proof.
  unfold MHD_create_post_processor. destruct ((size <? 256)%nat || _); [done|]. intros E Hbig Hq.
  apply bind_Some in E as (enc & _ & E). destruct enc as [enc|]; [|done].
  apply bind_Some in E as (e & Hfe & E). destruct e as [[b bl]|]; [|done]. destruct calloc_ok; [|done].
  cbn [negb] in E. injection E as <-. pp_simpl. cbn [encoding blen] in *. unfold cstr in Hbig. rewrite length_app in Hbig. cbn [length] in Hbig.
  eapply find_encoding_length; [|..|exact Hq]; [| |exact Hfe]; lia.
Qed.

Lemma create_inv_pp calloc_ok hs size pp :
  MHD_create_post_processor calloc_ok hs size = Some (Some pp) ->
  (forall l, hs = Some l -> Forall header_wf l) -> blen pp ≠ SIZE_MAX ->
  4 * Z.of_nat (length (encoding pp)) + 3 * Z.of_nat size + 96 <= SIZE_MAX ->
  pp_inv (size + 4) (encoding pp) pp.
Proof.
  unfold MHD_create_post_processor. destruct ((size <? 256)%nat || _) eqn:Hp; [done|]. intros E Hwf Hbl Hbig.
  apply orb_false_iff in Hp as [Hsz%Nat.ltb_ge _].
  apply bind_Some in E as (enc & Hl & E). destruct enc as [enc|]; [|done].
  apply bind_Some in E as (e & Hfe & E). destruct e as [[b bl]|]; [|done]. destruct calloc_ok; [|done].
  cbn [negb] in E. injection E as <-. pp_simpl. unfold cstr in Hbig. rewrite length_app in Hbig. cbn [length] in Hbig.
  assert (no_nul enc) as Hne.
  { destruct hs as [l|]; [|done]. eapply lookup_value_wf; [|by apply (Hwf l)|exact Hl].
    intros s [= <-]. apply (bool_decide_unpack _). reflexivity. }
  destruct (find_encoding_boundary enc (Z.of_nat size) b bl) as [Hu|(Hu & s & -> & Hs)]; [done|lia|lia|done|done|..].
  - split; [done|]. split; [apply cstr_terminated|left]. split; [done|].
    constructor; pp_simpl; try done; try lia. rewrite length_replicate. lia.
  - split; [done|]. split; [apply cstr_terminated|right]. split; [done|].
    constructor; pp_simpl; try done; try lia.
    + rewrite length_replicate. lia.
    + exists s. split; [done|]. split; lia.
Qed.
End Whole.

(** ** Theorems *)

(** C26: The post processor is memory safe and total, but for one boundary.
    Once created for any headers whose boundary parameter is not a lone
    quotation mark, it can be fed any sequence of chunks, with any answers of
    the application and of the allocator, and be destroyed at any time: it
    never accesses memory outside its buffers and strings, never panics, and
    every call returns.  With a lone quotation mark, which a client may send,
    the parser does read outside ([lone_quote_boundary_overruns]). *)
Theorem post_processor_safe `{Platform} {St : Type} (ikvi : St -> post_data -> St * bool) alloc_ok stack_xbuf
    calloc_ok hs size pp st chunks :
  MHD_create_post_processor calloc_ok hs size = Some (Some pp) ->
  (forall l, hs = Some l -> Forall header_wf l) -> boundary_parameter (encoding pp) ≠ Some [34] ->
  4 * Z.of_nat (length (encoding pp)) + 3 * Z.of_nat size + 96 <= SIZE_MAX ->
  length stack_xbuf = 513%nat ->
  ∃ pp' st', process_all ikvi alloc_ok stack_xbuf pp st chunks = Some (pp', st')
    /\ pp_inv (size + 4) (encoding pp) pp'
    /\ ∃ st'' ret, MHD_destroy_post_processor ikvi stack_xbuf (Some pp') st' = Some (st'', ret).
Proof.
  intros Hc Hwf Hq Hbig Hx. pose proof (create_length _ _ _ _ Hc Hbig Hq) as Hbl.
  pose proof (create_inv_pp _ _ _ _ Hc Hwf Hbl Hbig) as Hinv.
  destruct (process_all_total ikvi alloc_ok stack_xbuf _ _ chunks pp st Hx Hinv) as (pp' & st' & E & Hinv').
  exists pp', st'. split; [done|]. split; [done|]. by eapply destroy_total.
Qed.

Definition demo_multipart_headers (parameter : bytes) : list MHD_HTTP_Header :=
  [mkHeader (Some (str "Content-Type")) (Some (str "multipart/form-data; boundary=" ++ parameter)) MHD_HEADER_KIND].

Definition refuse_all (st : nat) (_ : post_data) : nat * bool := (S st, false).

Lemma post_processor_safe_witness :
  ∃ pp pp' st', MHD_create_post_processor (H := LP64) true (Some (demo_multipart_headers (str "XX"))) 256 = Some (Some pp)
    /\ process_all (H := LP64) refuse_all (λ n, n <? 5) (replicate 513 0) pp 0%nat
         [str "--XX" ++ [13; 10]; [13]; [10] ++ str "ab" ++ [13]; str "--"] = Some (pp', st').
Proof.
  eexists. destruct (post_processor_safe (H := LP64) refuse_all (λ n, n <? 5) (replicate 513 0) true
    (Some (demo_multipart_headers (str "XX"))) 256 _ 0%nat
    [str "--XX" ++ [13; 10]; [13]; [10] ++ str "ab" ++ [13]; str "--"] eq_refl) as (pp' & st' & E & _);
    [| |vm_compute; congruence|reflexivity|exists pp', st'; split; [reflexivity|exact E]].
  - intros l [= <-]. constructor; [|constructor].
    split; intros s [= <-]; apply (bool_decide_unpack _); vm_compute; reflexivity.
  - vm_compute. congruence.
Defined.

(** What processing one body does to a fresh post processor: [None] when it
    leaves its objects. *)
Definition process_body `{Platform} (hs : list MHD_HTTP_Header) (body : bytes) : option (Z * option bool) :=
  r ← MHD_create_post_processor true (Some hs) 256;
  pp ← r;
  Some (blen pp,
        '(_, _, ret) ← MHD_post_process (λ st (_ : post_data), (st, true)) (λ _, true) (replicate 513 0) (Some pp) tt body;
        Some (ret : bool)).

(** A boundary parameter that is a lone quotation mark is accepted: removing
    its enclosing quotes wraps its length around to the largest [size_t], and
    a body that starts with two dashes makes the parser compare that many
    bytes, far outside the boundary string and the buffer. *)
Theorem lone_quote_boundary_overruns :
  process_body (H := LP64) (demo_multipart_headers [34]) (str "--x") = Some (2 ^ 64 - 1, None).
Proof. vm_compute. reflexivity. Qed.

(** The fields of the pieces delivered for a body: name, file name, data. *)
Definition delivered_fields `{Platform} (hs : list MHD_HTTP_Header) (body : bytes)
    : option (list (option bytes * option bytes * bytes)) :=
  r ← MHD_create_post_processor true (Some hs) 256;
  pp ← r;
  '(_, st, _) ← MHD_post_process (λ st d, (st ++ [(pd_key d, pd_filename d, pd_data d)], true)) (λ _, true)
                  (replicate 513 0) (Some pp) [] body;
  Some st.

Definition line (s : bytes) : bytes := s ++ [13; 10].

Definition quoted (s : bytes) : bytes := [34] ++ s ++ [34].

(** A form whose first part holds a nested multipart with one file, and whose
    second part is the plain field "other". *)
Definition nested_body : bytes :=
  line (str "--XX") ++ line (str "Content-Disposition: form-data; name=" ++ quoted (str "files"))
  ++ line (str "Content-Type: multipart/mixed; boundary=YY") ++ line []
  ++ line (str "--YY") ++ line (str "Content-Disposition: file; filename=" ++ quoted (str "a.txt")) ++ line []
  ++ line (str "AAA") ++ line (str "--YY--")
  ++ line (str "--XX") ++ line (str "Content-Disposition: form-data; name=" ++ quoted (str "other")) ++ line []
  ++ line (str "BBB") ++ line (str "--XX--").

(** A field that follows a nested multipart is delivered under the wrong
    name: after the nested boundary the fields of the previous part are not
    cleaned up, so the part "other" reaches the application as another piece
    of the file "a.txt" of the field "files". *)
Theorem field_after_nested_misnamed :
  delivered_fields (H := LP64) (demo_multipart_headers (str "XX")) nested_body
  = Some [(Some (str "files"), Some (str "a.txt"), str "AAA");
          (Some (str "files"), Some (str "a.txt"), str "BBB")].
Proof. vm_compute. reflexivity. Qed.
