(* ===== verification/Response.v ===== *)
(** * Responses (libmicrohttpd/src/microhttpd/response.c)

    Creating responses from memory, from a callback and from a file, their
    reference count, and their list of headers and footers.  The responses
    for protocol upgrades are represented by the flag [upgrade_handler] only.

    A [const char *] argument is the object it points to ([None] for the null
    pointer); the outer option of an operation is undefined behaviour.
    [alloc_ok] says which allocations succeed. *)

From S2P Require Import Prelude MhdStr Headers Connection.

(** ** Data *)

(** The callback that produces the body, and the one that releases it. *)
Inductive content_reader := Application_reader | File_reader.
Inductive content_free := Application_free | Free_data | Close_file.

Abbreviation MHD_RF_HTTP_VERSION_1_0_ONLY := 1.
Abbreviation MHD_RF_HTTP_VERSION_1_0_RESPONSE := 2.

(** [struct MHD_Response]; [data] is the object the pointer leads to. *)
Record MHD_Response := mkResponse {
  first_header : list MHD_HTTP_Header;
  data : option bytes;
  crc : option content_reader;
  crfc : option content_free;
  upgrade_handler : bool;
  total_size : Z;
  data_start : Z;
  fd_off : Z;
  data_size : Z;
  data_buffer_size : Z;
  reference_count : Z;
  fd : Z;
  flags : Z
}.

Definition set_headers (r : MHD_Response) l :=
  mkResponse l (data r) (crc r) (crfc r) (upgrade_handler r) (total_size r) (data_start r) (fd_off r)
    (data_size r) (data_buffer_size r) (reference_count r) (fd r) (flags r).

Definition set_total (r : MHD_Response) n :=
  mkResponse (first_header r) (data r) (crc r) (crfc r) (upgrade_handler r) n (data_start r) (fd_off r)
    (data_size r) (data_buffer_size r) (reference_count r) (fd r) (flags r).

Definition set_data (r : MHD_Response) d start size :=
  mkResponse (first_header r) d (crc r) (crfc r) (upgrade_handler r) (total_size r) start (fd_off r)
    size (data_buffer_size r) (reference_count r) (fd r) (flags r).

Definition set_references (r : MHD_Response) n :=
  mkResponse (first_header r) (data r) (crc r) (crfc r) (upgrade_handler r) (total_size r) (data_start r) (fd_off r)
    (data_size r) (data_buffer_size r) n (fd r) (flags r).

(** A call of the content reader: bytes (possibly none for now), the end of
    the body or a failure. *)
Inductive crc_result := Produced (bs : bytes) | End_of_stream | End_with_error.

(** The names of the headers the server itself deals with. *)
Definition Transfer_Encoding := str "Transfer-Encoding".
Definition Content_Length := str "Content-Length".
Definition Connection_ := str "Connection".
Definition Date := str "Date".

(** ** Headers *)

(** [NULL != strchr (s, c)]. *)
Definition has_char (s : bytes) (c : Z) : option bool :=
  r ← strchr s c; Some (match r with Some _ => true | None => false end).

(** The disjunction of C: the second test is made when the first fails. *)
Definition or_else (a b : option bool) : option bool := x ← a; if (x : bool) then Some true else b.

(** [0 == s[0]]. *)
Definition is_empty (s : bytes) : option bool := c ← deref s; Some (c =? 0).

(** The three calls of [strchr] on one string of an entry. *)
Definition has_forbidden (s : bytes) : option bool :=
  or_else (has_char s 9) (or_else (has_char s 13) (has_char s 10)).

Section Entries.
Context `{Platform}.
Variable alloc_ok : Z -> bool.

Definition add_response_entry (response : option MHD_Response) (k : Z) (hdr content : option bytes)
    : option (bool * option MHD_Response) :=
  match response, hdr, content with
  | Some r, Some h, Some v =>
      refused ← or_else (is_empty h) (or_else (is_empty v) (or_else (has_forbidden h) (has_forbidden v)));
      if (refused : bool) then Some (false, response)
      else
        hs ← cstring h;
        vs ← cstring v;
        if alloc_ok sizeof_header && alloc_ok (Z.of_nat (length hs + 1)) && alloc_ok (Z.of_nat (length vs + 1))
        then Some (true, Some (set_headers r (mkHeader (Some hs) (Some vs) k :: first_header r)))
        else Some (false, response)
  | _, _, _ => Some (false, response)
  end.

(** The comparisons dereference [header] (and [content]) before the checks
    for null pointers in [add_response_entry]. *)
Definition MHD_add_response_header (response : option MHD_Response) (hdr content : option bytes)
    : option (bool * option MHD_Response) :=
  h ← hdr;
  is_te ← MHD_str_equal_caseless_ h (cstr Transfer_Encoding);
  refused ← (if (is_te : bool) then
               v ← content;
               identity ← MHD_str_equal_caseless_ v (cstr (str "identity"));
               if (identity : bool) then Some false
               else chunked ← MHD_str_equal_caseless_ v (cstr (str "chunked")); Some (negb chunked)
             else Some false);
  if (refused : bool) then Some (false, response)
  else
    is_cl ← MHD_str_equal_caseless_ h (cstr Content_Length);
    if (is_cl : bool) then Some (false, response)
    else add_response_entry response MHD_HEADER_KIND hdr content.

Definition MHD_add_response_footer (response : option MHD_Response) (footer content : option bytes)
    : option (bool * option MHD_Response) :=
  add_response_entry response MHD_FOOTER_KIND footer content.

(** [0 == strcmp (a, b)]. *)
Definition strcmp_eq (a b : bytes) : option bool :=
  x ← cstring a; y ← cstring b; Some (bool_decide (x = y)).

(** The loop over the list, with [pos] taken out where both strings agree. *)
Fixpoint del_loop (pos : list MHD_HTTP_Header) (hdr content : bytes) : option (bool * list MHD_HTTP_Header) :=
  match pos with
  | [] => Some (false, [])
  | h :: next =>
      name ← header h;
      same_header ← strcmp_eq hdr (cstr name);
      value ← header_value h;
      same ← (if (same_header : bool) then strcmp_eq content (cstr value) else Some false);
      if (same : bool) then Some (true, next)
      else '(found, next) ← del_loop next hdr content; Some (found, h :: next)
  end.

Definition MHD_del_response_header (response : MHD_Response) (hdr content : option bytes)
    : option (bool * MHD_Response) :=
  match hdr, content with
  | Some h, Some v =>
      '(found, l) ← del_loop (first_header response) h v;
      Some (found, set_headers response l)
  | _, _ => Some (false, response)
  end.

Fixpoint get_headers_loop {St} (pos : list MHD_HTTP_Header) (iterator : option (St -> MHD_HTTP_Header -> St * bool))
    (st : St) (numHeaders : Z) : St * Z :=
  match pos with
  | [] => (st, numHeaders)
  | h :: next =>
      match iterator with
      | None => get_headers_loop next iterator st (numHeaders + 1)
      | Some f =>
          let '(st, go_on) := f st h in
          if go_on then get_headers_loop next iterator st (numHeaders + 1) else (st, numHeaders + 1)
      end
  end.

Definition MHD_get_response_headers {St} (response : MHD_Response)
    (iterator : option (St -> MHD_HTTP_Header -> St * bool)) (st : St) : St * Z :=
  get_headers_loop (first_header response) iterator st 0.

Fixpoint get_header_loop (pos : list MHD_HTTP_Header) (key : bytes) : option (option bytes) :=
  match pos with
  | [] => Some None
  | h :: next =>
      name ← header h;
      m ← MHD_str_equal_caseless_ (cstr name) key;
      if (m : bool) then Some (header_value h) else get_header_loop next key
  end.

Definition MHD_get_response_header (response : MHD_Response) (key : option bytes) : option (option bytes) :=
  match key with
  | None => Some None
  | Some k => get_header_loop (first_header response) k
  end.

Fixpoint check_token_loop (pos : list MHD_HTTP_Header) (key token : bytes) (token_len : nat) : option bool :=
  match pos with
  | [] => Some false
  | h :: next =>
      if kind h =? MHD_HEADER_KIND then
        name ← header h;
        m ← MHD_str_equal_caseless_ (cstr name) key;
        if (m : bool) then
          value ← header_value h;
          t ← MHD_str_has_token_caseless_ (cstr value) token token_len;
          if (t : bool) then Some true else check_token_loop next key token token_len
        else check_token_loop next key token token_len
      else check_token_loop next key token token_len
  end.

Definition MHD_check_response_header_token_ci (response : MHD_Response) (key token : option bytes)
    (token_len : nat) : option bool :=
  match key, token with
  | Some k, Some t =>
      k0 ← deref k;
      if k0 =? 0 then Some false
      else
        t0 ← deref t;
        if t0 =? 0 then Some false
        else check_token_loop (first_header response) k t token_len
  | _, _ => Some false
  end.

(** ** Creation and destruction *)

(** [sizeof_response] is [sizeof (struct MHD_Response)]. *)
Variable sizeof_response : Z.

(** [MHD_calloc_ (1, n)]: an object of [n] zero bytes. *)
Definition calloc_ok (n : Z) : bool := negb (n =? 0) && alloc_ok n.

(** The data buffer follows the structure in the same object, whose size is
    computed in [size_t]. *)
Definition MHD_create_response_from_callback (sz block_size : Z) (reader : option content_reader)
    (freer : option content_free) : option MHD_Response :=
  match reader with
  | None => None
  | Some _ =>
      if 0 =? block_size then None
      else if calloc_ok (usize (sizeof_response + block_size)) then
        Some (mkResponse [] (Some (replicate (Z.to_nat (usize (sizeof_response + block_size) - sizeof_response)) 0))
                reader freer false sz 0 0 0 block_size 1 (-1) 0)
      else None
  end.

(** [options] are the arguments in front of [MHD_RO_END]; there are no options
    yet. *)
Definition MHD_set_response_options (response : MHD_Response) (fl : Z) (options : list Z) : bool * MHD_Response :=
  (bool_decide (options = []),
   mkResponse (first_header response) (data response) (crc response) (crfc response) (upgrade_handler response)
    (total_size response) (data_start response) (fd_off response) (data_size response)
    (data_buffer_size response) (reference_count response) (fd response) fl).

(** A 64-bit value read as signed. *)
Definition s64 (z : Z) : Z := if u64 z <? 2 ^ 63 then u64 z else u64 z - 2 ^ 64.

(** [pread off n] is what [pread64] returns: [None] for a failure. *)
Definition file_reader (pread : Z -> Z -> option bytes) (response : MHD_Response) (position max : Z) : crc_result :=
  let offset64 := s64 (position + fd_off response) in
  if offset64 <? 0 then End_with_error
  else
    let max := if max >? SSIZE_MAX then SSIZE_MAX else max in
    match pread offset64 max with
    | None => End_with_error
    | Some [] => End_of_stream
    | Some n => Produced n
    end.

Abbreviation MHD_FD_BLOCK_SIZE := 4096.

Definition MHD_create_response_from_fd_at_offset64 (sz filedes offset : Z) : option MHD_Response :=
  if (s64 sz <? 0) || (s64 offset <? 0) || (s64 (sz + offset) <? 0) then None
  else
    r ← MHD_create_response_from_callback sz MHD_FD_BLOCK_SIZE (Some File_reader) (Some Close_file);
    Some (mkResponse (first_header r) (data r) (crc r) (crfc r) (upgrade_handler r) (total_size r)
            (data_start r) offset (data_size r) (data_buffer_size r) (reference_count r) filedes (flags r)).

(** [must_free] and [must_copy] are the two flags of the interface. *)
Definition MHD_create_response_from_data (sz : Z) (d : option bytes) (must_free must_copy : bool)
    : option (option MHD_Response) :=
  if (match d with None => true | Some _ => false end) && (sz >? 0) then Some None
  else if negb (calloc_ok sizeof_response) then Some None
  else if must_copy && (sz >? 0) then
    if negb (alloc_ok sz) then Some None
    else
      src ← d;
      copy ← mem_read src 0 sz;
      Some (Some (mkResponse [] (Some copy) None (Some Free_data) false sz 0 0 sz 0 1 (-1) 0))
  else
    Some (Some (mkResponse [] d None (if must_free then Some Free_data else None) false sz 0 0 sz 0 1 (-1) 0)).

(** [enum MHD_ResponseMemoryMode]. *)
Inductive MHD_ResponseMemoryMode := MHD_RESPMEM_PERSISTENT | MHD_RESPMEM_MUST_FREE | MHD_RESPMEM_MUST_COPY.

Definition MHD_create_response_from_buffer (sz : Z) (buffer : option bytes) (mode : MHD_ResponseMemoryMode)
    : option (option MHD_Response) :=
  MHD_create_response_from_data sz buffer
    (match mode with MHD_RESPMEM_MUST_FREE => true | _ => false end)
    (match mode with MHD_RESPMEM_MUST_COPY => true | _ => false end).

Definition MHD_create_response_from_fd (sz filedes : Z) : option MHD_Response :=
  MHD_create_response_from_fd_at_offset64 sz filedes 0.

Definition MHD_create_response_from_fd64 (sz filedes : Z) : option MHD_Response :=
  MHD_create_response_from_fd_at_offset64 sz filedes 0.

Definition MHD_create_response_from_buffer_with_free_callback (sz : Z) (buffer : option bytes)
    (freer : option content_free) : option (option MHD_Response) :=
  r ← MHD_create_response_from_data sz buffer true false;
  match r with
  | None => Some None
  | Some r =>
      Some (Some (mkResponse (first_header r) (data r) (crc r) freer (upgrade_handler r) (total_size r)
        (data_start r) (fd_off r) (data_size r) (data_buffer_size r) (reference_count r) (fd r) (flags r)))
  end.

(** What is given back, in order. *)
Inductive response_release := Call_crfc (f : content_free) | Free_entry (h : MHD_HTTP_Header) | Free_response.

(** The response that is left, [None] when the last reference is gone. *)
Definition MHD_destroy_response (response : MHD_Response) : option MHD_Response * list response_release :=
  let n := u32 (reference_count response - 1) in
  if negb (0 =? n) then (Some (set_references response n), [])
  else
    (None,
     (match crfc response with Some f => [Call_crfc f] | None => [] end)
       ++ (Free_entry <$> first_header response) ++ [Free_response]).

Definition MHD_increment_response_rc (response : MHD_Response) : MHD_Response :=
  set_references response (u32 (reference_count response + 1)).
End Entries.

(** ** Specification of the entries *)

(** A string the interface accepts for a name or a value. *)
Definition sendable (s : bytes) : Prop := s ≠ [] /\ Forall (λ c, c ≠ 9 /\ c ≠ 13 /\ c ≠ 10) s.

#[export] Instance sendable_dec s : Decision (sendable s).
Proof. unfold sendable. apply _. Defined.

(** Names and values that may be set as headers: the length of the body is
    never one of them, and of the encodings only the two the server knows. *)
Definition header_allowed (n v : bytes) : Prop :=
  sendable n /\ sendable v /\ ~ caseless_eq n Content_Length
  /\ (caseless_eq n Transfer_Encoding -> caseless_eq v (str "identity") \/ caseless_eq v (str "chunked")).

#[export] Instance header_allowed_dec n v : Decision (header_allowed n v).
Proof. unfold header_allowed. apply _. Defined.

(** The first value with a name. *)
Fixpoint value_named (l : list MHD_HTTP_Header) (name : bytes) : option bytes :=
  match l with
  | [] => None
  | h :: l' => if decide (caseless_eq (default [] (header h)) name) then header_value h else value_named l' name
  end.

Lemma has_char_spec s c : no_nul s -> c ≠ 0 -> has_char (cstr s) c = Some (bool_decide (c ∈ s)).
Proof.
  intros Hs Hc. unfold has_char, cstr. destruct (decide (c ∈ s)) as [Hin|Hin].
  - rewrite bool_decide_eq_true_2 by done. apply list_elem_of_split in Hin as (a & b & ->).
    apply no_nul_app in Hs as [Ha Hb]. destruct (strchr_total (a ++ c :: b) [] c) as [o E]; [by apply no_nul_app|done|].
    rewrite E. cbn [mbind option_bind]. destruct o as [k|]; [done|]. exfalso.
    rewrite <- app_assoc in E. cbn [app] in E. clear Hb. induction a as [|x a IH]; cbn [strchr app] in E.
    + by rewrite Z.eqb_refl in E.
    + apply no_nul_cons in Ha as [? Ha]. destruct (x =? c); [done|]. destruct (Z.eqb_spec x 0); [done|].
      apply bind_Some in E as ([k|] & E & E'); [done|]. by apply IH.
  - rewrite bool_decide_eq_false_2 by done. by rewrite strchr_absent.
Qed.

Lemma is_empty_spec s : no_nul s -> is_empty (cstr s) = Some (bool_decide (s = [])).
Proof.
  intros Hs. destruct s as [|c s]; [done|]. apply no_nul_cons in Hs as [Hc _].
  unfold is_empty. cbn [cstr app deref head mbind option_bind]. by destruct (Z.eqb_spec c 0).
Qed.

Lemma has_forbidden_spec s :
  no_nul s -> has_forbidden (cstr s) = Some (negb (bool_decide (Forall (λ c, c ≠ 9 /\ c ≠ 13 /\ c ≠ 10) s))).
Proof.
  intros Hs. unfold has_forbidden, or_else. rewrite !has_char_spec by done. cbn [mbind option_bind].
  assert (Forall (λ c, c ≠ 9 /\ c ≠ 13 /\ c ≠ 10) s <-> ~ (9 ∈ s) /\ ~ (13 ∈ s) /\ ~ (10 ∈ s)) as He.
  { rewrite Forall_forall. split.
    - intros Hf. split_and!; intros Hin; destruct (Hf _ Hin) as (? & ? & ?); done.
    - intros (H1 & H2 & H3) x Hx. split_and!; intros ->; done. }
  rewrite (bool_decide_ext _ _ He). repeat case_bool_decide; try done; tauto.
Qed.

Lemma strlen_cstr s : no_nul s -> strlen (cstr s) = Some (length s).
Proof. apply strlen_no_nul. Qed.

Lemma cstring_cstr s : no_nul s -> cstring (cstr s) = Some s.
Proof.
  intros Hs. unfold cstring, cstr. rewrite strlen_no_nul by done. cbn [mbind option_bind]. by rewrite take_app_length.
Qed.

Section Entry_theorems.
Context `{Platform} (alloc_ok : Z -> bool).

(** The three allocations of an entry. *)
Definition entry_allocated (n v : bytes) : bool :=
  alloc_ok sizeof_header && alloc_ok (Z.of_nat (length n + 1)) && alloc_ok (Z.of_nat (length v + 1)).

Lemma add_entry_spec r k n v :
  no_nul n -> no_nul v ->
  add_response_entry alloc_ok (Some r) k (Some (cstr n)) (Some (cstr v))
  = Some (if bool_decide (sendable n /\ sendable v) && entry_allocated n v
          then (true, Some (set_headers r (mkHeader (Some n) (Some v) k :: first_header r))) else (false, Some r)).
Proof.
  intros Hn Hv. unfold add_response_entry, or_else. rewrite !is_empty_spec, !has_forbidden_spec by done.
  unfold sendable. cbn [mbind option_bind].
  destruct (bool_decide_reflect (n = [])); cbn [mbind option_bind];
    [by rewrite (bool_decide_eq_false_2 (_ /\ _)) by tauto|].
  destruct (bool_decide_reflect (v = [])); cbn [mbind option_bind];
    [by rewrite (bool_decide_eq_false_2 (_ /\ _)) by tauto|].
  destruct (bool_decide_reflect (Forall (λ c, c ≠ 9 /\ c ≠ 13 /\ c ≠ 10) n)); cbn [negb mbind option_bind];
    [|by rewrite (bool_decide_eq_false_2 (_ /\ _)) by tauto].
  destruct (bool_decide_reflect (Forall (λ c, c ≠ 9 /\ c ≠ 13 /\ c ≠ 10) v)); cbn [negb mbind option_bind];
    [|by rewrite (bool_decide_eq_false_2 (_ /\ _)) by tauto].
  rewrite bool_decide_eq_true_2 by tauto. rewrite !cstring_cstr by done. cbn [mbind option_bind]. unfold entry_allocated. by destruct (_ && _ && _).
Qed.

Lemma equal_literal a b : no_nul a -> no_nul b ->
  MHD_str_equal_caseless_ (cstr a) (cstr b) = Some (bool_decide (caseless_eq a b)).
Proof. intros. by apply str_equal_caseless_spec. Qed.

Lemma add_header_spec r n v :
  no_nul n -> no_nul v ->
  MHD_add_response_header alloc_ok (Some r) (Some (cstr n)) (Some (cstr v))
  = Some (if bool_decide (header_allowed n v) && entry_allocated n v
          then (true, Some (set_headers r (mkHeader (Some n) (Some v) MHD_HEADER_KIND :: first_header r))) else (false, Some r)).
Proof.
  intros Hn Hv. unfold MHD_add_response_header. cbn [mbind option_bind].
  assert (no_nul Transfer_Encoding /\ no_nul Content_Length /\ no_nul (str "identity") /\ no_nul (str "chunked")) as (N1 & N2 & N3 & N4)
    by (split_and!; apply (bool_decide_unpack _); vm_compute; exact I).
  rewrite !equal_literal by done. cbn [mbind option_bind].
  destruct (bool_decide_reflect (caseless_eq n Content_Length)) as [El|El].
  { rewrite (bool_decide_eq_false_2 (header_allowed n v)) by (unfold header_allowed; tauto).
    repeat (case_bool_decide; cbn [mbind option_bind negb]); done. }
  rewrite add_entry_spec by done.
  destruct (bool_decide_reflect (caseless_eq n Transfer_Encoding)) as [Et|Et]; cbn [mbind option_bind].
  2:{ rewrite (bool_decide_ext (sendable n /\ sendable v) (header_allowed n v)) by (unfold header_allowed; tauto). done. }
  destruct (bool_decide_reflect (caseless_eq v (str "identity"))) as [Ei|Ei]; cbn [mbind option_bind].
  { rewrite (bool_decide_ext (sendable n /\ sendable v) (header_allowed n v)) by (unfold header_allowed; tauto). done. }
  destruct (bool_decide_reflect (caseless_eq v (str "chunked"))) as [Ec|Ec]; cbn [negb].
  - rewrite (bool_decide_ext (sendable n /\ sendable v) (header_allowed n v)) by (unfold header_allowed; tauto). done.
  - rewrite (bool_decide_eq_false_2 (header_allowed n v)) by (unfold header_allowed; tauto). done.
Qed.

Lemma get_header_spec l name :
  Forall (λ h, ∃ n v, header h = Some n /\ header_value h = Some v /\ no_nul n) l -> no_nul name ->
  get_header_loop l (cstr name) = Some (value_named l name).
Proof.
  intros Hl Hn. induction Hl as [|h l (n & v & E1 & E2 & N1) Hl IH]; [done|]. cbn [get_header_loop value_named].
  rewrite E1. cbn [mbind option_bind default]. rewrite equal_literal by done. cbn [mbind option_bind].
  case_bool_decide; [by rewrite decide_True|by rewrite decide_False].
Qed.

(** The headers of a response behave as a stack of the accepted entries:
    adding a header succeeds exactly for a name and a value without line ends
    and tabs, unless it is a content length or an encoding other than
    'identity' and 'chunked' (or memory runs out), and puts it in front;
    looking a name up, up to case, returns the newest value with it; and
    deleting the entry that was added last restores the response.  A failed
    call changes nothing. *)
Theorem response_headers_correct r n v name :
  no_nul n -> no_nul v -> no_nul name ->
  Forall (λ h, ∃ n v, header h = Some n /\ header_value h = Some v /\ no_nul n) (first_header r) ->
  let accepted := bool_decide (header_allowed n v) && entry_allocated n v in
  ∃ r', MHD_add_response_header alloc_ok (Some r) (Some (cstr n)) (Some (cstr v)) = Some (accepted, Some r')
    /\ (accepted = false -> r' = r)
    /\ (accepted = true ->
        MHD_get_response_header r' (Some (cstr name))
        = Some (if bool_decide (caseless_eq n name) then Some v else value_named (first_header r) name)
        /\ MHD_del_response_header r' (Some (cstr n)) (Some (cstr v)) = Some (true, r)).
Proof.
  intros Hn Hv Hname Hr accepted. rewrite add_header_spec by done. fold accepted.
  destruct accepted; [|exists r; by split].
  eexists. split; [done|]. split; [done|]. intros _. split.
  - unfold MHD_get_response_header. cbn [first_header set_headers]. rewrite get_header_spec; [|constructor; [by exists n, v|done]|done].
    cbn [value_named header default]. case_bool_decide; [by rewrite decide_True|by rewrite decide_False].
  - unfold MHD_del_response_header. cbn [first_header set_headers del_loop header header_value mbind option_bind].
    unfold strcmp_eq. rewrite !cstring_cstr by done. cbn [mbind option_bind].
    rewrite !bool_decide_eq_true_2 by done. by destruct r.
Qed.
End Entry_theorems.

Lemma response_headers_correct_witness :
  let r := mkResponse [] None None None false 0 0 0 0 0 1 (-1) 0 in
  ∃ r', MHD_add_response_header (H := LP64) (λ _, true) (Some r) (Some (cstr (str "Server"))) (Some (cstr (str "demo"))) = Some (true, Some r')
    /\ MHD_get_response_header r' (Some (cstr (str "SERVER"))) = Some (Some (str "demo")).
Proof.
  intros r. destruct (response_headers_correct (H := LP64) (λ _, true) r (str "Server") (str "demo") (str "SERVER"))
    as (r' & E & _ & Hg).
  1-3: apply (bool_decide_unpack _); vm_compute; exact I.
  1: constructor.
  exists r'. split; [exact E|]. exact (proj1 (Hg eq_refl)).
Defined.

(** The size of the object of a response with a content reader is computed
    with wrap-around: for a block size close to the largest [size_t] the
    allocation succeeds with an object much smaller than the buffer the
    response claims to have. *)
Theorem huge_block_size_wraps :
  (λ r, (data_buffer_size r, length <$> data r)) <$>
    MHD_create_response_from_callback (H := ILP32) (λ _, true) 128 MHD_SIZE_UNKNOWN (2 ^ 32 - 100) (Some Application_reader) None
  = Some (2 ^ 32 - 100, Some 0%nat).
Proof. vm_compute. reflexivity. Qed.
