(* ===== verification/Reply.v ===== *)
(** * Building the header of a reply (libmicrohttpd/src/microhttpd/connection.c)

    The sending half of a connection, the decision whether the connection can
    be used again, and [build_header_response]: the status line, the headers
    the server adds, those of the application, and the footers.  The decisions
    are [analyse_reply]; the text is written into a block of the pool.

    The outer option of an operation is undefined behaviour or a call of
    [mhd_panic]. *)

From S2P Require Import Prelude MhdStr MemoryPool ReasonPhrase Headers Connection RequestHead Response.

(** ** State *)

(** [enum MHD_ConnKeepAlive]. *)
Inductive keepalive_state := MHD_CONN_KEEPALIVE_UNKOWN | MHD_CONN_USE_KEEPALIVE | MHD_CONN_MUST_CLOSE.

#[export] Instance keepalive_state_eq_dec : EqDecision keepalive_state.
Proof. solve_decision. Defined.

Abbreviation HTTP_1_0 := (str "HTTP/1.0").
Abbreviation HTTP_1_1 := (str "HTTP/1.1").
Abbreviation MHD_ICY_FLAG := 2147483648.

Section Reply_state.
Context `{Platform}.

(** The fields of [struct MHD_Connection] that the sending half uses, next to
    those of the receiving half in [con]; [sendfile] says that [resp_sender] is
    [MHD_resp_sender_sendfile]. *)
Record reply := mkReply {
  con : MHD_Connection;
  resp : option MHD_Response;
  responseCode : Z;
  keepalive : keepalive_state;
  write_buffer : option Z;
  write_buffer_size : Z;
  write_buffer_send_offset : Z;
  write_buffer_append_offset : Z;
  response_write_position : Z;
  continue_message_write_offset : Z;
  sendfile : bool
}.

Definition set_con (w : reply) c :=
  mkReply c (resp w) (responseCode w) (keepalive w) (write_buffer w) (write_buffer_size w)
    (write_buffer_send_offset w) (write_buffer_append_offset w) (response_write_position w)
    (continue_message_write_offset w) (sendfile w).

Definition set_resp (w : reply) r :=
  mkReply (con w) r (responseCode w) (keepalive w) (write_buffer w) (write_buffer_size w)
    (write_buffer_send_offset w) (write_buffer_append_offset w) (response_write_position w)
    (continue_message_write_offset w) (sendfile w).

Definition set_keepalive (w : reply) k :=
  mkReply (con w) (resp w) (responseCode w) k (write_buffer w) (write_buffer_size w)
    (write_buffer_send_offset w) (write_buffer_append_offset w) (response_write_position w)
    (continue_message_write_offset w) (sendfile w).

Definition set_write (w : reply) b size send append :=
  mkReply (con w) (resp w) (responseCode w) (keepalive w) b size send append (response_write_position w)
    (continue_message_write_offset w) (sendfile w).

Definition set_position (w : reply) n :=
  mkReply (con w) (resp w) (responseCode w) (keepalive w) (write_buffer w) (write_buffer_size w)
    (write_buffer_send_offset w) (write_buffer_append_offset w) n (continue_message_write_offset w) (sendfile w).

(** Setting [have_chunked_upload]. *)
Definition set_chunked (w : reply) b :=
  set_con w (set_up (con w) (mkUpload b (remaining_upload_size (up (con w)))
    (current_chunk_size (up (con w))) (current_chunk_offset (up (con w))))).

(** ** Persistent connections *)

(** [MHD_lookup_header_s_token_ci]. *)
Definition request_token (c : MHD_Connection) (name token : bytes) : option bool :=
  l ← resolve_all (memory (pool c)) (headers_received (req c));
  MHD_lookup_header_token_ci (Some l) (Some name) (Some token) (length token).

Definition has_flag (r : MHD_Response) (f : Z) : bool := negb (Z.land (flags r) f =? 0).

Definition response_flag (r : option MHD_Response) (f : Z) : bool :=
  match r with None => false | Some r => has_flag r f end.

Definition keepalive_possible (w : reply) : option bool :=
  if bool_decide (keepalive w = MHD_CONN_MUST_CLOSE) then Some false
  else
    match version (req (con w)) with
    | None => Some false
    | Some _ =>
        if response_flag (resp w) MHD_RF_HTTP_VERSION_1_0_ONLY then Some false
        else
          v11 ← version_is (con w) HTTP_1_1;
          if (v11 : bool) && negb (response_flag (resp w) MHD_RF_HTTP_VERSION_1_0_RESPONSE) then
            upgrade ← request_token (con w) Connection_ (str "upgrade");
            if (upgrade : bool) then Some false
            else close ← request_token (con w) Connection_ (str "close"); Some (negb close)
          else
            v10 ← version_is (con w) HTTP_1_0;
            if (v10 : bool) then request_token (con w) Connection_ (str "Keep-Alive") else Some false
    end.

(** ** Formatted output *)

(** What [snprintf] leaves in a buffer of [n] > 0 bytes, without the
    terminator. *)
Definition snprintf_text (n : nat) (s : bytes) : bytes := take (n - 1) s.

Definition crlf : bytes := [13; 10].

Definition print_02u (n : Z) : bytes :=
  let s := print_dec n in replicate (2 - length s) 48 ++ s.

Definition print_04u (n : Z) : bytes :=
  let s := print_dec n in replicate (4 - length s) 48 ++ s.

(** [struct tm]. *)
Record tm := mkTm { tm_sec : Z; tm_min : Z; tm_hour : Z; tm_mday : Z; tm_mon : Z; tm_year : Z; tm_wday : Z }.

Definition days : list bytes := str <$> ["Sun"; "Mon"; "Tue"; "Wed"; "Thu"; "Fri"; "Sat"]%string.
Definition mons : list bytes :=
  str <$> ["Jan"; "Feb"; "Mar"; "Apr"; "May"; "Jun"; "Jul"; "Aug"; "Sep"; "Oct"; "Nov"; "Dec"]%string.

(** An array element. *)
Definition at_index {A} (l : list A) (i : Z) : option A := if i <? 0 then None else l !! Z.to_nat i.

(** [now] is the broken-down time, [None] when the conversion fails. *)
Definition get_date_string (now : option tm) (date_len : nat) : option bytes :=
  match now with
  | None => Some []
  | Some t =>
      day ← at_index days (Z.rem (tm_wday t) 7);
      mon ← at_index mons (Z.rem (tm_mon t) 12);
      Some (snprintf_text date_len
              (str "Date: " ++ day ++ str ", " ++ print_02u (u32 (tm_mday t)) ++ str " " ++ mon ++ str " "
               ++ print_04u (u32 (1900 + tm_year t)) ++ str " " ++ print_02u (u32 (tm_hour t)) ++ str ":"
               ++ print_02u (u32 (tm_min t)) ++ str ":" ++ print_02u (u32 (tm_sec t)) ++ str " GMT" ++ crlf))
  end.

(** ** Which headers to add *)

(** What the daemon contributes: the option [MHD_USE_SUPPRESS_DATE_NO_CLOCK],
    the broken-down time, and whether upgrades are allowed. *)
Record reply_config := {
  suppress_date : bool;
  now : option tm;
  allow_upgrade : bool
}.

Context (cfg : reply_config).

(** [connection->responseCode & (~MHD_ICY_FLAG)]. *)
Definition status_code (w : reply) : Z := Z.land (responseCode w) (u32 (Z.lnot MHD_ICY_FLAG)).

(** The status line, as [code] holds it. *)
Definition status_line (w : reply) (r : MHD_Response) : option bytes :=
  phrase ← MHD_get_reason_phrase_for (status_code w);
  phrase ← phrase;
  v10 ← version_is (con w) HTTP_1_0;
  let protocol :=
    if negb (Z.land (responseCode w) MHD_ICY_FLAG =? 0) then str "ICY"
    else if v10 || has_flag r MHD_RF_HTTP_VERSION_1_0_RESPONSE then HTTP_1_0 else HTTP_1_1 in
  Some (snprintf_text 256 (protocol ++ str " " ++ print_dec (status_code w) ++ str " " ++ str phrase ++ crlf)).

(** The [Date:] line, unless it is suppressed or the application has one. *)
Definition date_line (r : MHD_Response) : option bytes :=
  if suppress_date cfg then Some []
  else
    h ← MHD_get_response_header r (Some (cstr Date));
    match h with
    | None => get_date_string (now cfg) 128
    | Some _ => Some []
    end.

(** What [build_header_response] decides before it computes the size. *)
Record header_plan := mkPlan {
  must_add_close : bool;
  must_add_chunked_encoding : bool;
  must_add_keep_alive : bool;
  must_add_content_length : bool;
  response_has_close : bool;
  response_has_keepalive : bool
}.

(** [MHD_check_response_header_s_token_ci]. *)
Definition response_token (r : MHD_Response) (name token : bytes) : option bool :=
  MHD_check_response_header_token_ci r (Some (cstr name)) (Some (cstr token)) (length token).

(** Chunked encoding: whether a 'close' header and an encoding header must be
    added, and whether the body is chunked. *)
Definition chunked_situation (w : reply) (r : MHD_Response) (has_close client_close : bool)
    (have_encoding : option bytes) : option (bool * bool * bool) :=
  if (MHD_SIZE_UNKNOWN =? total_size r) && negb (upgrade_handler r) && negb has_close && negb client_close then
    k ← keepalive_possible w;
    v11 ← version_is (con w) HTTP_1_1;
    if (k : bool) && (v11 : bool) then
      match have_encoding with
      | None => Some (false, true, true)
      | Some enc =>
          identity ← MHD_str_equal_caseless_ (cstr enc) (cstr (str "identity"));
          Some (if (identity : bool) then (true, false, false) else (false, false, true))
      end
    else Some (negb has_close, false, false)
  else Some (false, false, false).

(** Further reasons to close the connection. *)
Definition close_reasons (w : reply) (r : MHD_Response) (has_close client_close may_add_length must_close : bool) : bool :=
  let must_close :=
    must_close
    || ((client_close || read_closed (con w) || bool_decide (keepalive w = MHD_CONN_MUST_CLOSE))
        && negb has_close && negb (upgrade_handler r) && negb (has_flag r MHD_RF_HTTP_VERSION_1_0_ONLY)) in
  must_close || (negb may_add_length && negb (have_chunked_upload (up (con w))) && negb has_close).

Definition is_connect (w : reply) : option bool :=
  match method (req (con w)) with
  | None => Some false
  | Some p => s ← chars (memory (pool (con w))) p; MHD_str_equal_caseless_ (cstr s) (cstr (str "CONNECT"))
  end.

(** Whether to add the length of the body. *)
Definition length_needed (w : reply) (r : MHD_Response) (may_add_length : bool) : option bool :=
  let rc := status_code w in
  if negb (MHD_SIZE_UNKNOWN =? total_size r) && negb (rc =? 204) && negb (rc =? 304) && (200 <=? rc) then
    cl ← MHD_get_response_header r (Some (cstr Content_Length));
    match cl with
    | Some _ => Some false
    | None => if may_add_length then c ← is_connect w; Some (negb c) else Some false
    end
  else Some false.

(** The analysis for [MHD_CONNECTION_FOOTERS_RECEIVED]; it sets [keepalive]
    and [have_chunked_upload]. *)
Definition analyse_reply (w : reply) (r : MHD_Response) : option (header_plan * reply) :=
  has_close ← response_token r Connection_ (str "close");
  has_keepalive ← response_token r Connection_ (str "Keep-Alive");
  client_close ← request_token (con w) Connection_ (str "close");
  let w := if has_flag r MHD_RF_HTTP_VERSION_1_0_ONLY || upgrade_handler r
           then set_keepalive w MHD_CONN_MUST_CLOSE else w in
  let w := set_chunked w false in
  have_encoding ← MHD_get_response_header r (Some (cstr Transfer_Encoding));
  let may_add_length := match have_encoding with None => true | Some _ => false end in
  '(must_close, must_chunk, chunked) ← chunked_situation w r has_close client_close have_encoding;
  let w := set_chunked w chunked in
  let must_close := close_reasons w r has_close client_close may_add_length must_close in
  must_length ← length_needed w r may_add_length;
  must_keep_alive ←
    (if negb has_keepalive && negb has_close && negb must_close
        && negb (bool_decide (keepalive w = MHD_CONN_MUST_CLOSE)) && negb (upgrade_handler r)
     then keepalive_possible w else Some false);
  Some (mkPlan must_close must_chunk must_keep_alive must_length has_close has_keepalive, w).

(** What follows from the plan for the connection. *)
Definition decide_keepalive (p : header_plan) (w : reply) : reply :=
  if bool_decide (keepalive w = MHD_CONN_MUST_CLOSE) then w
  else if must_add_close p || response_has_close p then set_keepalive w MHD_CONN_MUST_CLOSE
  else if must_add_keep_alive p || response_has_keepalive p then set_keepalive w MHD_CONN_USE_KEEPALIVE
  else w.

(** ** The text *)

Definition content_length_line (r : MHD_Response) : bytes :=
  snprintf_text 128 (Content_Length ++ str ": " ++ print_dec (total_size r) ++ crlf).

(** The lines the server adds, in order. *)
Definition extra_lines (p : header_plan) (r : MHD_Response) : bytes :=
  (if must_add_close p then str "Connection: close" ++ crlf else [])
  ++ (if must_add_keep_alive p then str "Connection: Keep-Alive" ++ crlf else [])
  ++ (if must_add_chunked_encoding p then str "Transfer-Encoding: chunked" ++ crlf else [])
  ++ (if must_add_content_length p then content_length_line r else []).

(** Whether an entry of the response is sent. *)
Definition entry_sent (p : header_plan) (k : Z) (h : MHD_HTTP_Header) : option bool :=
  if kind h =? k then
    if must_add_close p && response_has_keepalive p then
      name ← header h;
      is_connection ← MHD_str_equal_caseless_ (cstr name) (cstr Connection_);
      if (is_connection : bool) then
        v ← header_value h;
        is_keep ← MHD_str_equal_caseless_ (cstr v) (cstr (str "Keep-Alive"));
        Some (negb is_keep)
      else Some true
    else Some true
  else Some false.

(** The first loop over the entries: their size. *)
Fixpoint headers_size (p : header_plan) (k : Z) (pos : list MHD_HTTP_Header) (size : Z) : option Z :=
  match pos with
  | [] => Some size
  | h :: next =>
      sent ← entry_sent p k h;
      if (sent : bool) then
        name ← header h;
        v ← header_value h;
        headers_size p k next (usize (size + Z.of_nat (length name) + Z.of_nat (length v) + 4))
      else headers_size p k next size
  end.

(** [memcpy (&data[off], bs, ...); off += ...] *)
Definition put (m : bytes) (data off : Z) (bs : bytes) : option (bytes * Z) :=
  m ← mem_write m (data + off) bs;
  Some (m, usize (off + Z.of_nat (length bs))).

(** [snprintf (&data[off], n, "%s", s)]: at most [n] bytes, the terminator
    included, and nothing at all for [n] = 0; the result is the length of the
    whole text. *)
Definition snprintf_at (m : bytes) (p n : Z) (s : bytes) : option (bytes * Z) :=
  m ← (if n =? 0 then Some m else mem_write m p (snprintf_text (Z.to_nat n) s ++ [0]));
  Some (m, Z.of_nat (length s)).

(** The second loop: "name: value" lines. *)
Fixpoint write_headers (p : header_plan) (k : Z) (pos : list MHD_HTTP_Header) (size : Z)
    (m : bytes) (data off : Z) : option (bytes * Z) :=
  match pos with
  | [] => Some (m, off)
  | h :: next =>
      sent ← entry_sent p k h;
      if (sent : bool) then
        name ← header h;
        v ← header_value h;
        '(m, n) ← snprintf_at m (data + off) (usize (size - off)) (name ++ str ": " ++ v ++ crlf);
        write_headers p k next size m data (usize (off + n))
      else write_headers p k next size m data off
  end.

(** The state decides between headers and footers. *)
Definition plan_of (w : reply) (r : MHD_Response) : option (header_plan * reply) :=
  if bool_decide (state (con w) = MHD_CONNECTION_FOOTERS_RECEIVED) then analyse_reply w r
  else Some (mkPlan false false false false false false, w).

(** The text in front of the headers and behind them, and their kind. *)
Definition frame_of (w : reply) (r : MHD_Response) : option (bytes * bytes * Z) :=
  if bool_decide (state (con w) = MHD_CONNECTION_FOOTERS_RECEIVED) then
    code ← status_line w r; date ← date_line r; Some (code, date, MHD_HEADER_KIND)
  else Some ([], [], MHD_FOOTER_KIND).

Definition build_header_response (w : reply) : option (bool * reply) :=
  v ← version (req (con w));
  v ← chars (memory (pool (con w))) v;
  if bool_decide (v = []) then
    let '(data, p) := MHD_pool_allocate (pool (con w)) 0 true in
    Some (true, set_write (set_con w (set_pool (con w) p)) data 0 0 0)
  else if negb (bool_decide (state (con w) = MHD_CONNECTION_FOOTERS_RECEIVED))
       && negb (bool_decide (state (con w) = MHD_CONNECTION_BODY_SENT)) then Some (false, w)
  else
    r ← resp w;
    '(code, date, k) ← frame_of w r;
    '(plan, w) ← plan_of w r;
    let w := decide_keepalive plan w in
    let extra := extra_lines plan r in
    let size := usize (Z.of_nat (length code) + 2 + Z.of_nat (length date) + Z.of_nat (length extra)) in
    size ← headers_size plan k (first_header r) size;
    match MHD_pool_allocate (pool (con w)) (usize (size + 1)) false with
    | (None, p) => Some (false, set_con w (set_pool (con w) p))
    | (Some data, p) =>
        '(m, off) ← put (memory p) data 0 code;
        '(m, off) ← put m data off extra;
        '(m, off) ← write_headers plan k (first_header r) size m data off;
        '(m, off) ← put m data off date;
        '(m, off) ← put m data off crlf;
        if negb (off =? size) then None
        else Some (true, set_write (set_con w (set_pool (con w) (with_memory p m))) (Some data) (usize (size + 1)) 0 size)
    end.
End Reply_state.
