(* ===== verification/ReplyHeader.v ===== *)
(** * Correctness of the reply header

    [build_header_response] never leaves its block and never panics, and
    writes exactly the status line, the headers the server adds, the entries
    of the application and the date; the plan behind it delimits the body of
    every reply on a connection that is kept open. *)

From S2P Require Import Prelude MhdStr MemoryPool ReasonPhrase Headers Connection RequestHead Response Reply.

(** ** Lookups in well-formed lists *)

(** An entry with a name and a value that are C strings. *)
Definition entry_string (h : MHD_HTTP_Header) : Prop :=
  ∃ n v, header h = Some n /\ header_value h = Some v /\ no_nul n /\ no_nul v.

Definition name_of (h : MHD_HTTP_Header) : bytes := default [] (header h).
Definition value_of (h : MHD_HTTP_Header) : bytes := default [] (header_value h).

Lemma entry_string_inv h :
  entry_string h -> header h = Some (name_of h) /\ header_value h = Some (value_of h)
    /\ no_nul (name_of h) /\ no_nul (value_of h).
Proof. intros (n & v & E1 & E2 & ? & ?). unfold name_of, value_of. by rewrite E1, E2. Qed.

Lemma equal_cstr a b : no_nul a -> no_nul b ->
  MHD_str_equal_caseless_ (cstr a) (cstr b) = Some (bool_decide (caseless_eq a b)).
Proof. intros. by apply str_equal_caseless_spec. Qed.

(** The header [name] has the element [token]. *)
Definition has_token (sel : MHD_HTTP_Header -> bool) (l : list MHD_HTTP_Header) (name token : bytes) : bool :=
  existsb (λ h, sel h && bool_decide (caseless_eq (name_of h) name) && MhdStr.scan (elements (value_of h)) token) l.

Definition is_token (t : bytes) : Prop := Forall token_char t /\ t ≠ [].

Lemma has_token_cstr s t : no_nul s -> is_token t ->
  MHD_str_has_token_caseless_ (cstr s) (cstr t) (length t) = Some (MhdStr.scan (elements s) t).
Proof. intros Hs [Ht Hne]. by apply has_token_scan. Qed.

Lemma response_token_spec r name token :
  Forall entry_string (first_header r) -> no_nul name -> name ≠ [] -> is_token token ->
  response_token r name token = Some (has_token (λ h, kind h =? MHD_HEADER_KIND) (first_header r) name token).
Proof.
  intros Hr Hn Hne Htok. pose proof Htok as [Ht Htne]. unfold response_token, MHD_check_response_header_token_ci.
  destruct name as [|a name]; [done|]. destruct token as [|b token]; [done|].
  cbn [cstr app deref head mbind option_bind].
  apply no_nul_cons in Hn as Hn'. destruct Hn' as [Ha _]. destruct (Z.eqb_spec a 0); [done|].
  pose proof Ht as Ht'. apply Forall_cons in Ht' as [[Hb _] _]. destruct (Z.eqb_spec b 0); [done|].
  change (a :: name ++ [0]) with (cstr (a :: name)). change (b :: token ++ [0]) with (cstr (b :: token)).
  generalize dependent (a :: name). intros nm. intros. generalize dependent (b :: token). intros tk. intros.
  induction Hr as [|h l Hh Hr IH]; [done|]. apply entry_string_inv in Hh as (E1 & E2 & N1 & N2).
  cbn [check_token_loop has_token existsb]. destruct (kind h =? MHD_HEADER_KIND); [|exact IH].
  rewrite E1. cbn [mbind option_bind]. rewrite equal_cstr by done. cbn [mbind option_bind].
  case_bool_decide; [|exact IH]. rewrite E2. cbn [mbind option_bind].
  rewrite has_token_cstr by done. cbn [mbind option_bind]. by destruct (MhdStr.scan _ _).
Qed.

Lemma lookup_token_spec l name token :
  Forall (λ h, has_kind h MHD_HEADER_KIND = true -> entry_string h) l -> no_nul name -> is_token token ->
  lookup_token_loop l name token (length token)
  = Some (has_token (λ h, has_kind h MHD_HEADER_KIND) l name token).
Proof.
  intros Hl Hn Ht. induction Hl as [|h l Hh Hl IH]; [done|]. cbn [lookup_token_loop has_token existsb].
  destruct (has_kind h MHD_HEADER_KIND); [|exact IH]. destruct (entry_string_inv h (Hh eq_refl)) as (E1 & E2 & N1 & N2).
  rewrite E1. cbn [mbind option_bind]. rewrite equal_cstr by done. cbn [mbind option_bind].
  rewrite (bool_decide_ext (caseless_eq name (name_of h)) (caseless_eq (name_of h) name)) by (split; intros E; by rewrite E).
  case_bool_decide; [|exact IH]. rewrite E2. cbn [mbind option_bind].
  rewrite has_token_cstr by done. cbn [mbind option_bind]. by destruct (MhdStr.scan _ _).
Qed.

(** The first value under a name. *)
Fixpoint first_named (l : list MHD_HTTP_Header) (name : bytes) : option bytes :=
  match l with
  | [] => None
  | h :: l' => if decide (caseless_eq (name_of h) name) then Some (value_of h) else first_named l' name
  end.

Lemma get_response_header_spec r name :
  Forall entry_string (first_header r) -> no_nul name ->
  MHD_get_response_header r (Some (cstr name)) = Some (first_named (first_header r) name).
Proof.
  intros Hr Hn. cbn [MHD_get_response_header]. induction Hr as [|h l Hh Hr IH]; [done|].
  apply entry_string_inv in Hh as (E1 & E2 & N1 & N2). cbn [get_header_loop first_named].
  rewrite E1. cbn [mbind option_bind]. rewrite equal_cstr by done. cbn [mbind option_bind].
  case_bool_decide; [rewrite decide_True by done; by rewrite E2|rewrite decide_False by done; exact IH].
Qed.

Lemma first_named_string l name v : Forall entry_string l -> first_named l name = Some v -> no_nul v.
Proof.
  induction 1 as [|h l Hh Hl IH]; [done|]. cbn [first_named]. case_decide; [|done]. intros [= <-].
  by apply entry_string_inv in Hh as (_ & _ & _ & ?).
Qed.

(** The constants are C strings and tokens. *)
Ltac literal := solve [apply (bool_decide_unpack _); vm_compute; exact I | done
  | split; [apply (bool_decide_unpack _); vm_compute; exact I|done]].

(** ** A connection with a reply *)

Section Reply_header.
Context `{Platform} (cfg : reply_config).

(** The strings of the request: those of the parser are in the pool. *)
Record reply_wf (w : reply) (r : MHD_Response) (v : bytes) (l : list MHD_HTTP_Header) := {
  wf_resp : resp w = Some r;
  wf_entries : Forall entry_string (first_header r);
  wf_version : ∃ p, version (req (con w)) = Some p /\ chars (memory (pool (con w))) p = Some v;
  wf_version_string : no_nul v;
  wf_request : resolve_all (memory (pool (con w))) (headers_received (req (con w))) = Some l;
  wf_request_strings : Forall (λ h, has_kind h MHD_HEADER_KIND = true -> entry_string h) l;
  wf_method : match method (req (con w)) with
              | None => True
              | Some p => ∃ m, chars (memory (pool (con w))) p = Some m /\ no_nul m
              end;
  wf_now : match now cfg with Some t => 0 <= tm_wday t /\ 0 <= tm_mon t | None => True end;
  wf_pool : pool_inv (pool (con w))
}.

Lemma version_is_spec w r v l s :
  reply_wf w r v l -> no_nul s -> version_is (con w) s = Some (bool_decide (caseless_eq s v)).
Proof.
  intros Hw Hs. destruct (wf_version _ _ _ _ Hw) as (p & E1 & E2). pose proof (wf_version_string _ _ _ _ Hw).
  unfold version_is. rewrite E1, E2. by apply equal_cstr.
Qed.

Lemma request_token_spec w r v l name token :
  reply_wf w r v l -> no_nul name -> name ≠ [] -> is_token token ->
  request_token (con w) name token = Some (has_token (λ h, has_kind h MHD_HEADER_KIND) l name token).
Proof.
  intros Hw Hn Hne Ht. unfold request_token. rewrite (wf_request _ _ _ _ Hw). cbn [mbind option_bind].
  pose proof (lookup_token_spec l name token (wf_request_strings _ _ _ _ Hw) Hn Ht) as E.
  unfold MHD_lookup_header_token_ci. destruct name; [done|]. destruct token; [by destruct Ht|]. exact E.
Qed.

(** What the analysis changes: the two flags. *)
Definition with_flags (w : reply) (k : keepalive_state) (b : bool) : reply := set_chunked (set_keepalive w k) b.

Lemma with_flags_id w : with_flags w (keepalive w) (have_chunked_upload (up (con w))) = w.
Proof. by destruct w as [[? ? ? ? ? ? ? ? [] ? ?]]. Qed.

Lemma reply_wf_flags w r v l k b : reply_wf w r v l -> reply_wf (with_flags w k b) r v l.
Proof. intros []. by split. Qed.

Lemma keepalive_possible_total w r v l :
  reply_wf w r v l -> ∃ b, keepalive_possible w = Some b.
Proof.
  intros Hw. unfold keepalive_possible. case_bool_decide; [by eexists|].
  destruct (wf_version _ _ _ _ Hw) as (p & -> & _). destruct (response_flag (resp w) _); [by eexists|].
  rewrite !(version_is_spec _ _ _ _ _ Hw) by literal. cbn [mbind option_bind].
  rewrite !(request_token_spec _ _ _ _ _ _ Hw) by literal. cbn [mbind option_bind].
  destruct (_ && _); [destruct (has_token _ _ _ (str "upgrade"))|case_bool_decide]; by eexists.
Qed.

Lemma status_line_total w r v l : reply_wf w r v l -> ∃ s, status_line w r = Some s /\ (length s <= 255)%nat.
Proof.
  intros Hw. unfold status_line. rewrite get_reason_phrase_for_spec. cbn [mbind option_bind].
  rewrite !(version_is_spec _ _ _ _ _ Hw) by literal. cbn [mbind option_bind]. eexists. split; [done|].
  unfold snprintf_text. rewrite length_take. lia.
Qed.

Lemma at_index_total {A} (t : list A) i : 0 <= i < Z.of_nat (length t) -> ∃ x, at_index t i = Some x.
Proof. intros Hi. unfold at_index. destruct (Z.ltb_spec i 0); [lia|]. apply lookup_lt_is_Some. lia. Qed.

Lemma date_line_total w r v l : reply_wf w r v l -> ∃ s, date_line cfg r = Some s /\ (length s <= 127)%nat.
Proof.
  intros Hw. unfold date_line. destruct (suppress_date cfg); [exists []; split; [done|simpl; lia]|].
  rewrite get_response_header_spec by (exact (wf_entries _ _ _ _ Hw) || literal). cbn [mbind option_bind].
  destruct (first_named _ _); [exists []; split; [done|simpl; lia]|].
  pose proof (wf_now _ _ _ _ Hw) as Hn. unfold get_date_string. destruct (now cfg) as [t|]; [|exists []; split; [done|simpl; lia]].
  destruct Hn as [H1 H2].
  destruct (at_index_total days (Z.rem (tm_wday t) 7)) as [day ->].
  { pose proof (Z.rem_bound_pos (tm_wday t) 7). simpl length. lia. }
  destruct (at_index_total mons (Z.rem (tm_mon t) 12)) as [mon ->].
  { pose proof (Z.rem_bound_pos (tm_mon t) 12). simpl length. lia. }
  cbn [mbind option_bind]. eexists. split; [done|]. unfold snprintf_text. rewrite length_take. lia.
Qed.

Lemma analyse_total w r v l :
  reply_wf w r v l -> ∃ p k b, analyse_reply w r = Some (p, with_flags w k b).
Proof.
  intros Hw. unfold analyse_reply.
  rewrite !(response_token_spec r) by (exact (wf_entries _ _ _ _ Hw) || literal). cbn [mbind option_bind].
  rewrite (request_token_spec _ _ _ _ _ _ Hw) by literal. cbn [mbind option_bind].
  rewrite get_response_header_spec by (exact (wf_entries _ _ _ _ Hw) || literal). cbn [mbind option_bind].
  cbv zeta. set (hc := has_token _ _ Connection_ (str "close")). set (hk := has_token _ _ _ (str "Keep-Alive")).
  set (cc := has_token _ l _ (str "close")).
  set (enc := first_named _ _).
  assert (∃ k, (if has_flag r MHD_RF_HTTP_VERSION_1_0_ONLY || upgrade_handler r
                then set_keepalive w MHD_CONN_MUST_CLOSE else w) = set_keepalive w k) as [k ->].
  { destruct (_ || _); [by eexists|]. exists (keepalive w). by destruct w. }
  pose proof (reply_wf_flags w r v l k false Hw) as Hw1. fold (with_flags w k false).
  assert (∃ x, chunked_situation (with_flags w k false) r hc cc enc = Some x) as Hc.
  { unfold chunked_situation. destruct (_ && _ && _ && _); [|by eexists].
    destruct (keepalive_possible_total _ _ _ _ Hw1) as [kp ->]. cbn [mbind option_bind].
    rewrite (version_is_spec _ _ _ _ _ Hw1) by literal. cbn [mbind option_bind].
    destruct (_ && _); [|by eexists]. destruct enc as [e|] eqn:Ee; [|by eexists].
    rewrite equal_cstr by (literal || by apply (first_named_string _ _ _ (wf_entries _ _ _ _ Hw) Ee)).
    by eexists. }
  destruct (chunked_situation _ _ _ _ _) as [[[mc mch] ch]|]; [|by destruct Hc].
  cbn [mbind option_bind]. change (set_chunked (with_flags w k false) ch) with (with_flags w k ch).
  pose proof (reply_wf_flags w r v l k ch Hw) as Hw2.
  assert (∃ x, length_needed (with_flags w k ch) r (match enc with None => true | Some _ => false end) = Some x) as Hl.
  { unfold length_needed. destruct (_ && _ && _ && _); [|by eexists].
    rewrite get_response_header_spec by (exact (wf_entries _ _ _ _ Hw) || literal). cbn [mbind option_bind].
    destruct (first_named _ Content_Length); [by eexists|]. destruct enc; [by eexists|].
    unfold is_connect. pose proof (wf_method _ _ _ _ Hw2) as Hm. destruct (method _); [|by eexists].
    destruct Hm as (m & -> & Hm). cbn [mbind option_bind]. rewrite equal_cstr by (done || literal). by eexists. }
  destruct (length_needed _ _ _) as [ml|]; [|by destruct Hl].
  cbn [mbind option_bind]. destruct (_ && _ && _ && _ && _).
  - destruct (keepalive_possible_total _ _ _ _ Hw2) as [kp ->]. cbn [mbind option_bind]. by eexists _, _, _.
  - by eexists _, _, _.
Qed.

(** ** The text *)

Definition entry_line (h : MHD_HTTP_Header) : bytes := name_of h ++ str ": " ++ value_of h ++ crlf.

(** The entries that are sent: those of the kind, except a 'Keep-Alive' that
    a 'close' of the server overrides. *)
Definition is_sent (p : header_plan) (k : Z) (h : MHD_HTTP_Header) : bool :=
  (kind h =? k)
  && negb (must_add_close p && response_has_keepalive p
           && bool_decide (caseless_eq (name_of h) Connection_)
           && bool_decide (caseless_eq (value_of h) (str "Keep-Alive"))).

Definition sent_lines (p : header_plan) (k : Z) (l : list MHD_HTTP_Header) : bytes :=
  concat (entry_line <$> filter (λ h, is_sent p k h = true) l).

Lemma entry_sent_spec p k h : entry_string h -> entry_sent p k h = Some (is_sent p k h).
Proof.
  intros Hh. destruct (entry_string_inv h Hh) as (E1 & E2 & N1 & N2). unfold entry_sent, is_sent.
  destruct (kind h =? k); [|done]. destruct (must_add_close p && response_has_keepalive p); [|done].
  rewrite E1. cbn [mbind option_bind]. rewrite equal_cstr by (done || literal). cbn [mbind option_bind].
  case_bool_decide; [|done]. rewrite E2. cbn [mbind option_bind]. rewrite equal_cstr by (done || literal).
  by case_bool_decide.
Qed.

Lemma sent_lines_cons p k h l :
  sent_lines p k (h :: l) = (if is_sent p k h then entry_line h else []) ++ sent_lines p k l.
Proof.
  unfold sent_lines. rewrite filter_cons. destruct (is_sent p k h).
  - by rewrite decide_True by done.
  - by rewrite decide_False by done.
Qed.

Lemma length_entry_line h : length (entry_line h) = (length (name_of h) + length (value_of h) + 4)%nat.
Proof. unfold entry_line. rewrite !length_app. cbn [crlf length]. change (length (str ": ")) with 2%nat. lia. Qed.

Lemma usize_add_l a b : usize (usize a + b) = usize (a + b).
Proof. apply wrap_add_l. Qed.

Lemma headers_size_spec p k l n :
  Forall entry_string l -> headers_size p k l (usize n) = Some (usize (n + Z.of_nat (length (sent_lines p k l)))).
Proof.
  intros Hl. revert n. induction Hl as [|h l Hh Hl IH]; intros n; [cbn; do 2 f_equal; lia|].
  cbn [headers_size]. rewrite entry_sent_spec, sent_lines_cons by done. cbn [mbind option_bind].
  destruct (is_sent p k h); [|exact (IH n)].
  destruct (entry_string_inv h Hh) as (-> & -> & _ & _). cbn [mbind option_bind].
  replace (usize n + Z.of_nat (length (name_of h)) + Z.of_nat (length (value_of h)) + 4)
    with (usize n + Z.of_nat (length (entry_line h))) by (rewrite length_entry_line; lia).
  rewrite usize_add_l, IH, length_app. do 2 f_equal. lia.
Qed.

(** A block at [length pre] of which [done_] is written. *)
Lemma put_spec (pre done_ bs j post : bytes) :
  (length bs <= length j)%nat -> Z.of_nat (length done_ + length bs) <= SIZE_MAX ->
  put (pre ++ done_ ++ j ++ post) (Z.of_nat (length pre)) (Z.of_nat (length done_)) bs
  = Some (pre ++ (done_ ++ bs) ++ drop (length bs) j ++ post, Z.of_nat (length (done_ ++ bs))).
Proof.
  intros Hl Hs. unfold put.
  replace (pre ++ done_ ++ j ++ post) with ((pre ++ done_) ++ take (length bs) j ++ (drop (length bs) j ++ post)).
  2:{ rewrite (app_assoc (take _ _)), take_drop, <- app_assoc. done. }
  rewrite (mem_write_mid (pre ++ done_)) by (rewrite ?length_app, ?length_take; lia).
  cbn [mbind option_bind]. rewrite usize_small by lia. rewrite <- !app_assoc. do 2 f_equal. rewrite length_app. lia.
Qed.

Lemma snprintf_spec (pre done_ s j post : bytes) :
  (length s < length j)%nat ->
  snprintf_at (pre ++ done_ ++ j ++ post) (Z.of_nat (length pre) + Z.of_nat (length done_)) (Z.of_nat (length j)) s
  = Some (pre ++ (done_ ++ s) ++ (0 :: drop (S (length s)) j) ++ post, Z.of_nat (length s)).
Proof.
  intros Hl. unfold snprintf_at, snprintf_text. destruct (Z.eqb_spec (Z.of_nat (length j)) 0); [lia|].
  rewrite Nat2Z.id, take_ge by lia.
  replace (pre ++ done_ ++ j ++ post) with ((pre ++ done_) ++ take (S (length s)) j ++ (drop (S (length s)) j ++ post)).
  2:{ rewrite (app_assoc (take _ _)), take_drop, <- app_assoc. done. }
  rewrite (mem_write_mid (pre ++ done_)) by (rewrite ?length_app, ?length_take; cbn [length]; lia).
  cbn [mbind option_bind]. rewrite <- !app_assoc. done.
Qed.

(** The lines are written in order as long as something follows them. *)
Lemma write_headers_spec p k l (pre done_ j post : bytes) :
  Forall entry_string l -> (length (sent_lines p k l) < length j)%nat ->
  Z.of_nat (length done_ + length j) <= SIZE_MAX ->
  ∃ j', write_headers p k l (Z.of_nat (length done_ + length j)) (pre ++ done_ ++ j ++ post)
          (Z.of_nat (length pre)) (Z.of_nat (length done_))
        = Some (pre ++ (done_ ++ sent_lines p k l) ++ j' ++ post, Z.of_nat (length (done_ ++ sent_lines p k l)))
    /\ (length (sent_lines p k l) + length j' = length j)%nat.
Proof.
  intros Hl. revert done_ j. induction Hl as [|h l Hh Hl IH]; intros done_ j Hj Hs.
  { exists j. cbn [write_headers]. change (sent_lines p k []) with (@nil Z). by rewrite app_nil_r. }
  rewrite sent_lines_cons in *. cbn [write_headers]. rewrite entry_sent_spec by done. cbn [mbind option_bind].
  destruct (is_sent p k h); [|exact (IH done_ j Hj Hs)].
  destruct (entry_string_inv h Hh) as (-> & -> & _ & _). cbn [mbind option_bind]. fold (entry_line h).
  rewrite length_app in Hj. replace (usize (Z.of_nat (length done_ + length j) - Z.of_nat (length done_))) with (Z.of_nat (length j))
    by (rewrite usize_small; lia).
  rewrite snprintf_spec by lia. cbn [mbind option_bind].
  replace (Z.of_nat (length done_ + length j))
    with (Z.of_nat (length (done_ ++ entry_line h) + length (0 :: drop (S (length (entry_line h))) j)))
    by (rewrite length_app; cbn [length]; rewrite length_drop; lia).
  replace (usize (Z.of_nat (length done_) + Z.of_nat (length (entry_line h)))) with (Z.of_nat (length (done_ ++ entry_line h)))
    by (rewrite length_app, usize_small; lia).
  destruct (IH (done_ ++ entry_line h) (0 :: drop (S (length (entry_line h))) j)) as (j' & E & Ej).
  { cbn [length]. rewrite length_drop. lia. }
  { rewrite length_app. cbn [length]. rewrite length_drop. lia. }
  exists j'. rewrite E, <- !app_assoc. split; [done|]. cbn [length] in Ej. rewrite length_drop in Ej. rewrite length_app. lia.
Qed.

(** The whole text, from the parts in front of the entries and behind them. *)
Definition reply_text (code date : bytes) (k : Z) (p : header_plan) (r : MHD_Response) : bytes :=
  code ++ extra_lines p r ++ sent_lines p k (first_header r) ++ date ++ crlf.

Lemma frame_total w r v l :
  reply_wf w r v l -> ∃ code date k, frame_of cfg w r = Some (code, date, k) /\ (length code + length date <= 382)%nat.
Proof.
  intros Hw. unfold frame_of. case_bool_decide; [|exists [], [], MHD_FOOTER_KIND; split; [done|simpl; lia]].
  destruct (status_line_total w r v l Hw) as (code & -> & ?), (date_line_total w r v l Hw) as (date & -> & ?).
  cbn [mbind option_bind]. eexists _, _, _. split; [done|lia].
Qed.

Lemma plan_total w r v l : reply_wf w r v l -> ∃ p k b, plan_of w r = Some (p, with_flags w k b).
Proof.
  intros Hw. unfold plan_of. case_bool_decide; [by apply (analyse_total w r v l)|].
  eexists _, (keepalive w), (have_chunked_upload (up (con w))). by rewrite with_flags_id.
Qed.

Lemma decide_keepalive_flags p w k b : ∃ k', decide_keepalive p (with_flags w k b) = with_flags w k' b.
Proof. unfold decide_keepalive. repeat case_match; by eexists. Qed.

Lemma allocated_block p n data p' :
  pool_inv p -> 0 <= n <= SIZE_MAX -> MHD_pool_allocate p n false = (Some data, p') ->
  memory p' = memory p /\ 0 <= data /\ data + n <= Z.of_nat (length (memory p)) /\ pool_inv p'.
Proof.
  intros Hp Hn E. destruct (allocate_post _ _ _ _ _ Hp Hn E) as (Hp' & (? & ? & Hs & _) & Hm & _).
  destruct Hp' as (Hl & ?). rewrite Hm in Hl. cbn [fst snd] in *. split; [done|]. split; [done|]. split; [lia|]. by split; [rewrite Hm|].
Qed.

Lemma sent_lines_length p k l : (length (sent_lines p k l) <= length (concat (entry_line <$> l)))%nat.
Proof.
  induction l as [|h l IH]; [done|]. rewrite sent_lines_cons. cbn [fmap list_fmap concat]. rewrite !length_app.
  destruct (is_sent p k h); cbn [length]; lia.
Qed.

Lemma extra_lines_length p r : (length (extra_lines p r) <= 200)%nat.
Proof.
  assert (length (content_length_line r) <= 127)%nat by (unfold content_length_line, snprintf_text; rewrite length_take; lia).
  unfold extra_lines. rewrite !length_app. repeat case_match; cbn [length]; rewrite ?length_app;
    try change (length (str "Connection: close")) with 17%nat; try change (length (str "Connection: Keep-Alive")) with 22%nat;
    try change (length (str "Transfer-Encoding: chunked")) with 26%nat; cbn [crlf length]; lia.
Qed.

Lemma text_size p k r :
  Z.of_nat (length (concat (entry_line <$> first_header r))) + 600 <= SIZE_MAX ->
  Z.of_nat (length (extra_lines p r) + length (sent_lines p k (first_header r))) + 385 <= SIZE_MAX.
Proof. pose proof (extra_lines_length p r). pose proof (sent_lines_length p k (first_header r)). lia. Qed.

(** From the parts of the text to the write buffer. *)
Lemma build_text w r v pv code date k p k1 b :
  resp w = Some r -> Forall entry_string (first_header r) ->
  version (req (con w)) = Some pv -> chars (memory (pool (con w))) pv = Some v -> v ≠ [] -> pool_inv (pool (con w)) ->
  state (con w) = MHD_CONNECTION_FOOTERS_RECEIVED \/ state (con w) = MHD_CONNECTION_BODY_SENT ->
  frame_of cfg w r = Some (code, date, k) -> (length code + length date <= 382)%nat ->
  plan_of w r = Some (p, with_flags w k1 b) ->
  Z.of_nat (length (extra_lines p r) + length (sent_lines p k (first_header r))) + 385 <= SIZE_MAX ->
  let w1 := decide_keepalive p (with_flags w k1 b) in
  let text := reply_text code date k p r in
  let n := Z.of_nat (length text) in
  let m := memory (pool (con w)) in
  match MHD_pool_allocate (pool (con w)) (n + 1) false with
  | (None, p') => build_header_response cfg w = Some (false, set_con w1 (set_pool (con w1) p'))
  | (Some data, p') =>
      build_header_response cfg w
      = Some (true, set_write (set_con w1 (set_pool (con w1) (with_memory p'
          (take (Z.to_nat data) m ++ text ++ drop (Z.to_nat data + length text) m)))) (Some data) (n + 1) 0 n)
      /\ data + n < Z.of_nat (length m)
  end.
Proof.
  intros Hresp Hent Hver Ev Hv Hpool Hst Ef Hlen Ep Hsize. cbv zeta.
  destruct (decide_keepalive_flags p w k1 b) as [k2 Ek]. rewrite Ek. set (text := reply_text code date k p r).
  assert (Z.of_nat (length text) = Z.of_nat (length code) + 2 + Z.of_nat (length date) + Z.of_nat (length (extra_lines p r))
            + Z.of_nat (length (sent_lines p k (first_header r)))) as Et
    by (unfold text, reply_text; rewrite !length_app; cbn [crlf length]; lia).
  assert (build_header_response cfg w =
    match MHD_pool_allocate (pool (con w)) (Z.of_nat (length text) + 1) false with
    | (None, p') => Some (false, set_con (with_flags w k2 b) (set_pool (con (with_flags w k2 b)) p'))
    | (Some data, p') =>
        '(m, off) ← put (memory p') data 0 code;
        '(m, off) ← put m data off (extra_lines p r);
        '(m, off) ← write_headers p k (first_header r) (Z.of_nat (length text)) m data off;
        '(m, off) ← put m data off date;
        '(m, off) ← put m data off crlf;
        if negb (off =? Z.of_nat (length text)) then None
        else Some (true, set_write (set_con (with_flags w k2 b) (set_pool (con (with_flags w k2 b)) (with_memory p' m)))
                           (Some data) (Z.of_nat (length text) + 1) 0 (Z.of_nat (length text)))
    end) as ->.
  { unfold build_header_response.
    rewrite Hver. cbn [mbind option_bind]. rewrite Ev. cbn [mbind option_bind].
    rewrite bool_decide_eq_false_2 by done.
    replace (_ && _) with false by (destruct Hst as [-> | ->]; done).
    rewrite Hresp. cbn [mbind option_bind]. rewrite Ef. cbn [mbind option_bind]. rewrite Ep. cbn [mbind option_bind]. rewrite Ek.
    rewrite headers_size_spec by exact Hent. cbn [mbind option_bind].
    rewrite <- Et, !(usize_small (Z.of_nat (length text))) by lia. by rewrite !(usize_small (Z.of_nat (length text) + 1)) by lia. }
  destruct (MHD_pool_allocate _ _ _) as [[data|] p'] eqn:Ea; [|done].
  apply allocated_block in Ea as (-> & Hd & Hin & _); [|exact Hpool|lia].
  split; [|lia]. set (m := memory (pool (con w))) in *.
  set (pre := take (Z.to_nat data) m). set (post := drop (Z.to_nat data + length text) m).
  set (j := take (length text) (drop (Z.to_nat data) m)).
  assert (m = pre ++ [] ++ j ++ post) as Em.
  { unfold pre, j, post. cbn [app]. rewrite <- drop_drop, take_drop, take_drop. done. }
  assert (data = Z.of_nat (length pre)) as Edata by (unfold pre; rewrite length_take; lia).
  assert (length j = length text) as Hj by (unfold j; rewrite length_take, length_drop; lia).
  clearbody pre post j. rewrite Em, Edata. change 0 with (Z.of_nat (length (@nil Z))) at 1. rewrite put_spec by (cbn [length]; lia).
  cbn [mbind option_bind app]. rewrite put_spec by (rewrite ?length_drop; lia). cbn [mbind option_bind].
  set (d2 := code ++ extra_lines p r). set (j2 := drop (length (extra_lines p r)) (drop (length code) j)).
  assert (length text = length d2 + length j2)%nat as Ed2 by (unfold d2, j2; rewrite length_app, !length_drop; lia).
  assert (length d2 = length code + length (extra_lines p r))%nat as Hd2 by (unfold d2; by rewrite length_app).
  rewrite Ed2. destruct (write_headers_spec p k (first_header r) pre d2 j2 post) as (j3 & -> & Hj3);
    [exact Hent|lia|lia|]. cbn [mbind option_bind].
  set (d3 := d2 ++ sent_lines p k (first_header r)) in *.
  assert (length d3 = length d2 + length (sent_lines p k (first_header r)))%nat as Hd3 by (unfold d3; by rewrite length_app).
  rewrite put_spec by lia. cbn [mbind option_bind].
  rewrite put_spec by (rewrite ?length_drop, ?length_app; cbn [crlf length]; lia). cbn [mbind option_bind].
  assert ((d3 ++ date) ++ crlf = text) as -> by (unfold d3, d2, text, reply_text; by rewrite <- !app_assoc).
  rewrite <- Ed2, Z.eqb_refl. cbn [negb]. rewrite (drop_ge (drop _ _)) by (rewrite length_drop; cbn [crlf length]; lia).
  done.
Qed.

(** C13: The reply header is built exactly and inside its block: for every
    well-formed request and response, [build_header_response] computes in
    advance the size of what it writes (the panic for a difference cannot
    happen); when the pool has room for it, the block it allocates holds the
    status line, the lines of the server, every entry of the application that
    is to be sent in order, the date and the empty line, all other memory is
    unchanged, and the write buffer is that text; otherwise it reports the
    failure. *)
Theorem reply_header_exact w r v l :
  reply_wf w r v l -> v ≠ [] ->
  state (con w) = MHD_CONNECTION_FOOTERS_RECEIVED \/ state (con w) = MHD_CONNECTION_BODY_SENT ->
  Z.of_nat (length (concat (entry_line <$> first_header r))) + 600 <= SIZE_MAX ->
  ∃ code date k p k1 b,
    frame_of cfg w r = Some (code, date, k) /\ plan_of w r = Some (p, with_flags w k1 b)
    /\ let w1 := decide_keepalive p (with_flags w k1 b) in
       let text := reply_text code date k p r in
       let n := Z.of_nat (length text) in
       let m := memory (pool (con w)) in
       match MHD_pool_allocate (pool (con w)) (n + 1) false with
       | (None, p') => build_header_response cfg w = Some (false, set_con w1 (set_pool (con w1) p'))
       | (Some data, p') =>
           build_header_response cfg w
           = Some (true, set_write (set_con w1 (set_pool (con w1) (with_memory p'
               (take (Z.to_nat data) m ++ text ++ drop (Z.to_nat data + length text) m)))) (Some data) (n + 1) 0 n)
           /\ data + n < Z.of_nat (length m)
       end.
Proof.
  intros Hw Hv Hst Hsize. destruct (frame_total w r v l Hw) as (code & date & k & Ef & Hlen).
  destruct (plan_total w r v l Hw) as (p & k1 & b & Ep). exists code, date, k, p, k1, b.
  split; [done|]. split; [done|]. destruct (wf_version _ _ _ _ Hw) as (pv & Epv & Ev).
  exact (build_text w r v pv code date k p k1 b (wf_resp _ _ _ _ Hw) (wf_entries _ _ _ _ Hw) Epv Ev Hv
    (wf_pool _ _ _ _ Hw) Hst Ef Hlen Ep (text_size p k r Hsize)).
Qed.

(** ** The analysis *)

(** The body is chunked only for an HTTP/1.1 request, for a response of
    unknown size without another encoding. *)
Lemma chunked_situation_spec w r v l hc cc mc mch ch :
  reply_wf w r v l ->
  let enc := first_named (first_header r) Transfer_Encoding in
  chunked_situation w r hc cc enc = Some (mc, mch, ch) ->
  if (MHD_SIZE_UNKNOWN =? total_size r) && negb (upgrade_handler r) && negb hc && negb cc then
    mc = negb ch /\ (mch = true -> enc = None /\ ch = true)
    /\ (ch = true -> caseless_eq HTTP_1_1 v
         /\ match enc with None => mch = true | Some e => mch = false /\ ~ caseless_eq e (str "identity") end)
  else mc = false /\ mch = false /\ ch = false.
Proof.
  intros Hw enc. unfold chunked_situation. destruct (MHD_SIZE_UNKNOWN =? total_size r), (upgrade_handler r), hc, cc;
    cbn [andb negb]; try (intros [= <- <- <-]; done).
  destruct (keepalive_possible_total _ _ _ _ Hw) as [kp ->]. cbn [mbind option_bind].
  rewrite (version_is_spec _ _ _ _ _ Hw) by literal. cbn [mbind option_bind].
  destruct kp; cbn [andb]; [|by intros [= <- <- <-]]. case_bool_decide as Hv; [|by intros [= <- <- <-]].
  destruct enc as [e|] eqn:Ee; [|by intros [= <- <- <-]].
  rewrite equal_cstr by (literal || by apply (first_named_string _ _ _ (wf_entries _ _ _ _ Hw) Ee)).
  cbn [mbind option_bind]. case_bool_decide; by intros [= <- <- <-].
Qed.

(** The server adds the length, except where there is no body or another
    framing. *)
Definition length_omitted (w : reply) (r : MHD_Response) : Prop :=
  status_code w < 200 \/ status_code w = 204 \/ status_code w = 304
  \/ first_named (first_header r) Content_Length ≠ None
  \/ ∃ p m, method (req (con w)) = Some p /\ chars (memory (pool (con w))) p = Some m /\ caseless_eq m (str "CONNECT").

Lemma length_needed_spec w r v l may b :
  reply_wf w r v l -> length_needed w r may = Some b ->
  (b = true -> may = true /\ total_size r ≠ MHD_SIZE_UNKNOWN)
  /\ (b = false -> may = true -> total_size r ≠ MHD_SIZE_UNKNOWN -> length_omitted w r).
Proof.
  intros Hw. unfold length_needed, length_omitted.
  destruct (Z.eqb_spec MHD_SIZE_UNKNOWN (total_size r)) as [Eu|Eu]; [by intros [= <-]|].
  destruct (Z.eqb_spec (status_code w) 204); [intros [= <-]; split; [done|by right; left]|].
  destruct (Z.eqb_spec (status_code w) 304); [intros [= <-]; split; [done|by right; right; left]|].
  destruct (Z.leb_spec 200 (status_code w)); [|intros [= <-]; split; [done|by left]]. cbn [negb andb].
  rewrite get_response_header_spec by (exact (wf_entries _ _ _ _ Hw) || literal). cbn [mbind option_bind].
  destruct (first_named _ Content_Length); [intros [= <-]; split; [done|by right; right; right; left]|].
  destruct may; [|by intros [= <-]]. unfold is_connect. pose proof (wf_method _ _ _ _ Hw) as Hm.
  destruct (method _) as [pm|]; [|by intros [= <-]]. destruct Hm as (m & Em & Hm). rewrite Em.
  cbn [mbind option_bind]. rewrite equal_cstr by (done || literal). case_bool_decide; intros [= <-]; [|by split].
  split; [done|]. intros _ _ _. right; right; right; right. by exists pm, m.
Qed.

End Reply_header.

(** ** A concrete reply *)

Definition demo_entries : list MHD_HTTP_Header :=
  [mkHeader (Some (str "Server")) (Some (str "demo")) MHD_HEADER_KIND;
   mkHeader (Some (str "Checksum")) (Some (str "7")) MHD_FOOTER_KIND].

Lemma demo_entries_ok : Forall entry_string demo_entries.
Proof. repeat constructor; eexists _, _; (split; [done|]; split; [done|]; split; literal). Qed.

(** A request for HTTP/1.1 whose response [r] is queued, with a pool of 1024
    bytes. *)
Definition demo_queued (r : MHD_Response) : reply :=
  mkReply (mkConn (mkPool (replicate 1024 0) 1024 0 1024 false) None 0 0
             MHD_CONNECTION_FOOTERS_RECEIVED false (Some 200) true (mkUpload false 0 0 0)
             (mkRequest (Some (Static (str "GET"))) None (Some (Static (str "HTTP/1.1"))) None None []) [])
    (Some r) 200 MHD_CONN_KEEPALIVE_UNKOWN None 0 0 0 0 0 false.

Definition demo_reply_config : reply_config := {| suppress_date := true; now := None; allow_upgrade := false |}.

Definition demo_callback_response : MHD_Response :=
  mkResponse demo_entries (Some (replicate 4 0)) (Some Application_reader) None false MHD_SIZE_UNKNOWN 0 0 0 4 1 (-1) 0.

Lemma demo_queued_wf r :
  Forall entry_string (first_header r) -> reply_wf (H := LP64) demo_reply_config (demo_queued r) r (str "HTTP/1.1") [].
Proof.
  intros Hr. split; try done.
  - by eexists.
  - literal.
  - eexists. split; [done|literal].
Qed.

Lemma reply_header_exact_witness :
  ∃ code date k p k1 b w' data p',
    frame_of demo_reply_config (demo_queued demo_callback_response) demo_callback_response = Some (code, date, k)
    /\ plan_of (demo_queued demo_callback_response) demo_callback_response
       = Some (p, with_flags (demo_queued demo_callback_response) k1 b)
    /\ MHD_pool_allocate (H := LP64) (pool (con (demo_queued demo_callback_response)))
         (Z.of_nat (length (reply_text code date k p demo_callback_response)) + 1) false = (Some data, p')
    /\ build_header_response (H := LP64) demo_reply_config (demo_queued demo_callback_response) = Some (true, w').
Proof.
  destruct (reply_header_exact (H := LP64) demo_reply_config (demo_queued demo_callback_response) demo_callback_response (str "HTTP/1.1") [])
    as (code & date & k & p & k1 & b & Ef & Ep & Hb).
  - apply demo_queued_wf, demo_entries_ok.
  - done.
  - by left.
  - vm_compute. congruence.
  - cbv zeta in Hb. destruct (MHD_pool_allocate _ _ _) as [[data|] p'] eqn:Ea.
    + destruct Hb as [Hb _]. exists code, date, k, p, k1, b. eexists _, data, p'. split; [exact Ef|]. split; [exact Ep|]. split; [exact Ea|exact Hb].
    + exfalso. assert (fst <$> build_header_response (H := LP64) demo_reply_config (demo_queued demo_callback_response) = Some true) as Ht
        by (vm_compute; reflexivity). rewrite Hb in Ht. done.
Defined.


(** The application may set the header 'Transfer-Encoding: chunked' (the
    interface accepts this value); on a response of known size the header is
    then sent, and the body is not chunked. *)
Theorem announced_encoding_is_not_applied :
  (r ← MHD_create_response_from_buffer (λ _, true) 100 5 (Some (str "hello")) MHD_RESPMEM_PERSISTENT;
   '(ok, r) ← MHD_add_response_header (H := LP64) (λ _, true) r (Some (cstr Transfer_Encoding)) (Some (cstr (str "chunked")));
   r ← r;
   '(built, w) ← build_header_response (H := LP64) demo_reply_config (demo_queued r);
   wb ← write_buffer w;
   text ← mem_read (memory (pool (con w))) wb (write_buffer_append_offset w);
   Some (ok, built, have_chunked_upload (up (con w)), text))
  = Some (true, true, false,
          str "HTTP/1.1 200 OK" ++ crlf ++ str "Connection: close" ++ crlf ++ str "Transfer-Encoding: chunked" ++ crlf ++ crlf).
Proof. vm_compute. reflexivity. Qed.
