(* ===== verification/ReplyBody.v ===== *)
(** * Sending a reply (libmicrohttpd/src/microhttpd/connection.c)

    Queueing a response, producing the body piece by piece (plain or chunked),
    writing to the socket, and the states of [MHD_connection_handle_idle] that
    send a reply up to the end of the request.

    The outer option of an operation is undefined behaviour.  The application
    and the system are arguments: [crc_call] is one call of the response's
    content reader (position and size of the buffer in, bytes out), [send_cls]
    one call of the send function.  Activity time stamps, socket options and
    locks are left out. *)

From S2P Require Import Prelude MhdStr MemoryPool Headers Connection RequestHead Response Reply.

Section Reply_body.
Context `{Platform}.

(** ** Closing *)

(** Giving back the connection's reference to its response; the second
    component is what the application and the system see of it. *)
Definition drop_response (w : reply) : reply * list response_release :=
  match resp w with
  | None => (w, [])
  | Some r => (set_con (set_resp w None) (set_response (con w) None), snd (MHD_destroy_response r))
  end.

(** [MHD_connection_close_] of the whole connection. *)
Definition reply_close (notify : bool) (w : reply) (code : termination) : reply :=
  let w := set_con w (MHD_connection_close_ notify (con w) code) in
  fst (drop_response w).

Definition close_error (notify : bool) (w : reply) : reply := reply_close notify w MHD_REQUEST_TERMINATED_WITH_ERROR.

Definition set_reply_state (w : reply) (s : conn_state) : reply := set_con w (set_state (con w) s).

(** ** Queueing *)

(** [shutdown] is the daemon's flag, [wrong_thread] the test of the calling
    thread, [in_idle] says that the call comes from inside
    [MHD_connection_handle_idle].  The second component says whether the
    function calls that handler itself. *)
Definition MHD_queue_response (cfg : reply_config) (shutdown wrong_thread in_idle uses_tls : bool) (w : reply)
    (code : Z) (response : option MHD_Response) : option (bool * bool * reply) :=
  match response with
  | None => Some (false, false, w)
  | Some r =>
      if (match resp w with Some _ => true | None => false end)
         || (negb (bool_decide (state (con w) = MHD_CONNECTION_HEADERS_PROCESSED))
             && negb (bool_decide (state (con w) = MHD_CONNECTION_FOOTERS_RECEIVED)))
      then Some (false, false, w)
      else if shutdown then Some (true, false, w)
      else if wrong_thread then Some (false, false, w)
      else if upgrade_handler r && (negb (allow_upgrade cfg) || negb (101 =? code)) then Some (false, false, w)
      else
        let is_method m :=
          match method (req (con w)) with
          | None => Some false
          | Some p => s ← chars (memory (pool (con w))) p; MHD_str_equal_caseless_ (cstr s) (cstr m)
          end in
        head ← is_method (str "HEAD");
        post ← is_method (str "POST");
        put ← is_method (str "PUT");
        let position :=
          if head || (code <? 200) || (204 =? code) || (304 =? code) then total_size r else response_write_position w in
        let c := if bool_decide (state (con w) = MHD_CONNECTION_HEADERS_PROCESSED) && (post || put)
                 then set_state (set_read_closed (con w) true) MHD_CONNECTION_FOOTERS_RECEIVED else con w in
        Some (true, negb in_idle,
              mkReply (set_response c (Some code)) (Some (MHD_increment_response_rc r)) code (keepalive w) (write_buffer w) (write_buffer_size w)
                (write_buffer_send_offset w) (write_buffer_append_offset w) position
                (continue_message_write_offset w) (negb (fd r =? -1) && negb uses_tls))
  end.

(** ** Producing the body *)

(** The bytes the content reader delivers are written to the buffer it was
    given. *)
Definition try_ready_normal_body (notify : bool) (w : reply) (crc_call : Z -> Z -> crc_result)
    : option (bool * reply) :=
  r ← resp w;
  match crc r with
  | None => Some (true, w)
  | Some _ =>
      if (0 =? total_size r) || (response_write_position w =? total_size r) then Some (true, w)
      else if (data_start r <=? response_write_position w)
              && (response_write_position w <? u64 (data_size r + data_start r)) then Some (true, w)
      else if sendfile w then Some (true, w)
      else
        let max := Z.min (data_buffer_size r) (u64 (total_size r - response_write_position w)) in
        let finish code :=
          reply_close notify (set_resp w (Some (set_total r (response_write_position w)))) code in
        match crc_call (response_write_position w) (usize max) with
        | End_of_stream => Some (false, finish MHD_REQUEST_TERMINATED_COMPLETED_OK)
        | End_with_error => Some (false, finish MHD_REQUEST_TERMINATED_WITH_ERROR)
        | Produced bs =>
            d ← data r;
            d ← mem_write d 0 bs;
            let w := set_resp w (Some (set_data r (Some d) (response_write_position w) (Z.of_nat (length bs)))) in
            Some (if bool_decide (bs = []) then (false, set_reply_state w MHD_CONNECTION_NORMAL_BODY_UNREADY)
                  else (true, w))
        end
  end.

(** [sizeof (cbuf)]. *)
Abbreviation sizeof_cbuf := 10.

(** The loop that looks for a write buffer; [fuel] bounds the number of
    halvings. *)
Fixpoint find_write_buffer (fuel : nat) (p : MemoryPool) (size : Z) : option (option (Z * Z) * MemoryPool) :=
  match fuel with
  | O => None
  | S fuel' =>
      let size := size / 2 in
      if size <? 128 then Some (None, p)
      else
        match MHD_pool_allocate p size false with
        | (Some buf, p) => Some (Some (buf, size), p)
        | (None, p) => find_write_buffer fuel' p size
        end
  end.

(** The first part of [try_ready_chunked_body]; [false] is the failure. *)
Definition chunk_buffer (notify : bool) (pool_size : Z) (w : reply) : option (bool * reply) :=
  if 0 =? write_buffer_size w then
    '(b, p) ← find_write_buffer 64 (pool (con w)) (Z.min pool_size (2 * (16777215 + sizeof_cbuf + 2)));
    let w := set_con w (set_pool (con w) p) in
    match b with
    | None => Some (false, close_error notify w)
    | Some (buf, size) =>
        Some (true, set_write w (Some buf) size (write_buffer_send_offset w) (write_buffer_append_offset w))
    end
  else Some (true, w).

(** The data for the chunk, placed behind the room for the size line: from
    the data the response has, or from its content reader. *)
Definition chunk_data (w : reply) (r : MHD_Response) (wb : Z) (crc_call : Z -> Z -> crc_result)
    : option (crc_result * bytes) :=
  let m := memory (pool (con w)) in
  let room := usize (write_buffer_size w - sizeof_cbuf - 2) in
  if 0 =? total_size r then Some (Produced [], m)
  else if (data_start r <=? response_write_position w)
          && (response_write_position w <? u64 (data_start r + data_size r)) then
    let off := response_write_position w - data_start r in
    let n := Z.min (data_size r - off) room in
    d ← data r;
    bs ← mem_read d off n;
    m ← mem_write m (wb + sizeof_cbuf) bs;
    Some (Produced bs, m)
  else
    match crc_call (response_write_position w) room with
    | Produced bs => m ← mem_write m (wb + sizeof_cbuf) bs; Some (Produced bs, m)
    | other => Some (other, m)
    end.

Definition with_mem (w : reply) (m : bytes) : reply := set_con w (set_pool (con w) (with_memory (pool (con w)) m)).

Definition try_ready_chunked_body (notify : bool) (pool_size : Z) (w : reply) (crc_call : Z -> Z -> crc_result)
    : option (bool * reply) :=
  r ← resp w;
  match crc r with
  | None => Some (true, w)
  | Some _ =>
      '(ok, w) ← chunk_buffer notify pool_size w;
      if negb ok then Some (false, w)
      else
        wb ← write_buffer w;
        '(ret, m) ← chunk_data w r wb crc_call;
        let w := with_mem w m in
        let at_end := set_resp w (Some (set_total r (response_write_position w))) in
        match ret with
        | End_with_error => Some (false, close_error notify at_end)
        | _ =>
            if (match ret with End_of_stream => true | _ => false end) || (0 =? total_size r) then
              m ← mem_write m wb (str "0" ++ crlf);
              Some (true, set_write (with_mem at_end m) (Some wb) (write_buffer_size w) 0 3)
            else
              let bs := match ret with Produced bs => bs | _ => [] end in
              if bool_decide (bs = []) then Some (false, set_reply_state w MHD_CONNECTION_CHUNKED_BODY_UNREADY)
              else
                let ret := Z.min (Z.of_nat (length bs)) 16777215 in
                let cbuf := snprintf_text 10 (print_hex (u32 ret) ++ crlf) in
                let cblen := Z.of_nat (length cbuf) in
                m ← mem_write m (wb + sizeof_cbuf - cblen) cbuf;
                m ← mem_write m (wb + sizeof_cbuf + ret) crlf;
                let w := set_position (with_mem w m) (u64 (response_write_position w + ret)) in
                Some (true, set_write w (Some wb) (write_buffer_size w) (sizeof_cbuf - cblen) (sizeof_cbuf + ret + 2))
        end
  end.

(** ** Writing to the socket *)

(** What the send function reports: a number of bytes, try again later, or
    an error. *)
Inductive send_result := Sent (n : nat) | Send_again | Send_error.

Definition check_write_done (w : reply) (next_state : conn_state) : option (bool * reply) :=
  if negb (write_buffer_append_offset w =? write_buffer_send_offset w) then Some (false, w)
  else
    '(_, p) ← MHD_pool_reallocate (pool (con w)) (write_buffer w) (write_buffer_size w) 0;
    let w := set_reply_state w next_state in
    Some (true, set_write (set_con w (set_pool (con w) p)) None 0 0 0).

Definition HTTP_100_CONTINUE : bytes := str "HTTP/1.1 100 Continue" ++ crlf ++ crlf.

(** The second component of a write is what went out. *)
Definition send_write_buffer (notify : bool) (w : reply) (send_cls : bytes -> send_result) (next_state : conn_state)
    : option (reply * bytes) :=
  wb ← write_buffer w;
  bs ← mem_read (memory (pool (con w))) (wb + write_buffer_send_offset w)
         (write_buffer_append_offset w - write_buffer_send_offset w);
  match send_cls bs with
  | Send_again => Some (w, [])
  | Send_error => Some (close_error notify w, [])
  | Sent n =>
      let w := set_write w (write_buffer w) (write_buffer_size w) (write_buffer_send_offset w + Z.of_nat n)
                 (write_buffer_append_offset w) in
      '(_, w) ← check_write_done w next_state;
      Some (w, take n bs)
  end.

(** [sendfile] is one call of [sendfile_adapter]: it is given the position. *)
Definition send_normal_body (notify : bool) (w : reply) (crc_call : Z -> Z -> crc_result)
    (send_cls : bytes -> send_result) (sendfile_adapter : Z -> send_result * bytes) : option (reply * bytes) :=
  r ← resp w;
  '(go_on, w, out) ←
    (if response_write_position w <? total_size r then
       '(ready, w) ← try_ready_normal_body notify w crc_call;
       if negb ready then Some (false, w, [])
       else
         r ← resp w;
         '(ret, bs) ←
           (if sendfile w then Some (sendfile_adapter (response_write_position w))
            else
              let data_write_offset := u64 (response_write_position w - data_start r) in
              if data_write_offset >? SIZE_MAX then None
              else
                d ← data r;
                bs ← mem_read d data_write_offset (data_size r - data_write_offset);
                Some (send_cls bs, bs));
         match ret with
         | Send_again => Some (false, w, [])
         | Send_error => Some (false, close_error notify w, [])
         | Sent n => Some (true, set_position w (u64 (response_write_position w + Z.of_nat n)), take n bs)
         end
     else Some (true, w, []));
  if negb go_on then Some (w, out)
  else
    r ← resp w;
    Some (if response_write_position w =? total_size r then set_reply_state w MHD_CONNECTION_FOOTERS_SENT else w, out).

Definition MHD_connection_handle_write (notify suspended : bool) (w : reply) (crc_call : Z -> Z -> crc_result)
    (send_cls : bytes -> send_result) (sendfile_adapter : Z -> send_result * bytes) : option (reply * bytes) :=
  if suspended then Some (w, [])
  else
    match state (con w) with
    | MHD_CONNECTION_CONTINUE_SENDING =>
        let bs := drop (Z.to_nat (continue_message_write_offset w)) HTTP_100_CONTINUE in
        match send_cls bs with
        | Send_again => Some (w, [])
        | Send_error => Some (close_error notify w, [])
        | Sent n =>
            Some (mkReply (con w) (resp w) (responseCode w) (keepalive w) (write_buffer w) (write_buffer_size w)
                    (write_buffer_send_offset w) (write_buffer_append_offset w) (response_write_position w)
                    (continue_message_write_offset w + Z.of_nat n) (sendfile w), take n bs)
        end
    | MHD_CONNECTION_HEADERS_SENDING => send_write_buffer notify w send_cls MHD_CONNECTION_HEADERS_SENT
    | MHD_CONNECTION_NORMAL_BODY_READY => send_normal_body notify w crc_call send_cls sendfile_adapter
    | MHD_CONNECTION_CHUNKED_BODY_READY =>
        r ← resp w;
        send_write_buffer notify w send_cls
          (if total_size r =? response_write_position w then MHD_CONNECTION_BODY_SENT
           else MHD_CONNECTION_CHUNKED_BODY_UNREADY)
    | MHD_CONNECTION_FOOTERS_SENDING => send_write_buffer notify w send_cls MHD_CONNECTION_FOOTERS_SENT
    | _ => Some (w, [])
    end.

(** ** The states that send

    Each yields the connection and whether the loop over the states goes on. *)

(** [handler] is the first call of the application's request handler, which
    may queue a response. *)
Definition idle_headers_processed (handler : reply -> option reply) (w : reply) : option (bool * reply) :=
  w ← handler w;
  if bool_decide (state (con w) = MHD_CONNECTION_CLOSED) then Some (true, w)
  else
    wait ← need_100_continue (con w) (continue_message_write_offset w);
    if (wait : bool) then Some (false, set_reply_state w MHD_CONNECTION_CONTINUE_SENDING)
    else
      refused ←
        match resp w with
        | None => Some false
        | Some _ =>
            p ← method (req (con w));
            s ← chars (memory (pool (con w))) p;
            post ← MHD_str_equal_caseless_ (cstr s) (cstr (str "POST"));
            if (post : bool) then Some true else MHD_str_equal_caseless_ (cstr s) (cstr (str "PUT"))
        end;
      let w := if (refused : bool) then
                 set_con w (set_read_closed (set_up (con w) (mkUpload (have_chunked_upload (up (con w))) 0
                   (current_chunk_size (up (con w))) (current_chunk_offset (up (con w))))) true)
               else w in
      Some (true, set_reply_state w (if 0 =? remaining_upload_size (up (con w)) then MHD_CONNECTION_FOOTERS_RECEIVED
                                     else MHD_CONNECTION_CONTINUE_SENT)).

(** [handler] is the final call of the application's request handler, which
    may queue a response. *)
Definition idle_footers_received (notify : bool) (cfg : reply_config) (handler : reply -> option reply) (w : reply)
    : option (bool * reply) :=
  w ← handler w;
  if bool_decide (state (con w) = MHD_CONNECTION_CLOSED) then Some (true, w)
  else
    match resp w with
    | None => Some (false, w)
    | Some _ =>
        '(ok, w) ← build_header_response cfg w;
        Some (if (ok : bool) then (false, set_reply_state w MHD_CONNECTION_HEADERS_SENDING)
              else (true, close_error notify w))
    end.

(** [upgrade] stands for handing the connection over to the application. *)
Definition idle_headers_sent (upgrade : reply -> option (bool * reply)) (w : reply) : option (bool * reply) :=
  r ← resp w;
  if upgrade_handler r then upgrade w
  else
    Some (true, set_reply_state w (if have_chunked_upload (up (con w)) then MHD_CONNECTION_CHUNKED_BODY_UNREADY
                                   else MHD_CONNECTION_NORMAL_BODY_UNREADY)).

Definition idle_normal_body_unready (notify : bool) (w : reply) (crc_call : Z -> Z -> crc_result)
    : option (bool * reply) :=
  r ← resp w;
  if 0 =? total_size r then Some (true, set_reply_state w MHD_CONNECTION_BODY_SENT)
  else
    '(ready, w) ← try_ready_normal_body notify w crc_call;
    Some (false, if (ready : bool) then set_reply_state w MHD_CONNECTION_NORMAL_BODY_READY else w).

Definition idle_chunked_body_unready (notify : bool) (pool_size : Z) (w : reply) (crc_call : Z -> Z -> crc_result)
    : option (bool * reply) :=
  r ← resp w;
  if (0 =? total_size r) || (response_write_position w =? total_size r)
  then Some (true, set_reply_state w MHD_CONNECTION_BODY_SENT)
  else
    '(ready, w) ← try_ready_chunked_body notify pool_size w crc_call;
    Some (if (ready : bool) then (true, set_reply_state w MHD_CONNECTION_CHUNKED_BODY_READY) else (false, w)).

Definition idle_body_sent (notify : bool) (cfg : reply_config) (w : reply) : option (bool * reply) :=
  '(ok, w) ← build_header_response cfg w;
  Some (true,
    if negb ok then close_error notify w
    else set_reply_state w
           (if negb (have_chunked_upload (up (con w))) || (write_buffer_send_offset w =? write_buffer_append_offset w)
            then MHD_CONNECTION_FOOTERS_SENT else MHD_CONNECTION_FOOTERS_SENDING)).

(** What stays of a connection whose request is complete, closed or ready for
    the next one: a destroyed pool is the empty one. *)
Definition end_of_request (w : reply) : reply :=
  let c := con w in
  mkReply
    (mkConn (pool c) (read_buffer c) (read_buffer_size c) (read_buffer_offset c) (state c) (read_closed c)
       (Connection.response c) (client_aware c) (mkUpload false (remaining_upload_size (up c)) 0 0)
       (mkRequest None None (version (req c)) (last (req c)) (colon (req c)) []) (completed c))
    (resp w) 0 (keepalive w) None 0 0 0 0 0 (sendfile w).

Definition destroyed_pool : MemoryPool := mkPool [] 0 0 0 false.

Definition idle_footers_sent (notify : bool) (pool_size : Z) (w : reply) : option (bool * reply) :=
  if 102 =? responseCode w then
    Some (true, fst (drop_response (set_reply_state w MHD_CONNECTION_HEADERS_PROCESSED)))
  else
    let w := fst (drop_response w) in
    let c := con w in
    let c := mkConn (pool c) (read_buffer c) (read_buffer_size c) (read_buffer_offset c) (state c) (read_closed c)
               None false (up c) (req c)
               (completed c ++ (if notify && client_aware c then [MHD_REQUEST_TERMINATED_COMPLETED_OK] else [])) in
    let w := set_con w c in
    if negb (bool_decide (keepalive w = MHD_CONN_USE_KEEPALIVE)) || read_closed c then
      let w := reply_close notify w MHD_REQUEST_TERMINATED_COMPLETED_OK in
      Some (true, end_of_request (set_con w (set_read (set_pool (con w) destroyed_pool) None 0 0)))
    else
      let c := set_state (set_req c (mkRequest (method (req c)) (url (req c)) None None None (headers_received (req c))))
                 MHD_CONNECTION_INIT in
      '(rb, p) ← MHD_pool_reset (pool c) (read_buffer c) (read_buffer_offset c) (pool_size / 2);
      Some (true, end_of_request (set_keepalive
        (set_con w (set_read (set_pool c p) rb (pool_size / 2) (read_buffer_offset c))) MHD_CONN_KEEPALIVE_UNKOWN)).

(** One round of the loop over the states, as far as replies go. *)
Definition reply_step (notify : bool) (cfg : reply_config) (pool_size : Z) (handler : reply -> option reply)
    (upgrade : reply -> option (bool * reply)) (crc_call : Z -> Z -> crc_result) (w : reply) : option (bool * reply) :=
  match state (con w) with
  | MHD_CONNECTION_HEADERS_PROCESSED => idle_headers_processed handler w
  | MHD_CONNECTION_CONTINUE_SENDING =>
      Some (if continue_message_write_offset w =? Z.of_nat (length HTTP_100_CONTINUE)
            then (true, set_reply_state w MHD_CONNECTION_CONTINUE_SENT) else (false, w))
  | MHD_CONNECTION_FOOTERS_RECEIVED => idle_footers_received notify cfg handler w
  | MHD_CONNECTION_HEADERS_SENT => idle_headers_sent upgrade w
  | MHD_CONNECTION_NORMAL_BODY_UNREADY => idle_normal_body_unready notify w crc_call
  | MHD_CONNECTION_CHUNKED_BODY_UNREADY => idle_chunked_body_unready notify pool_size w crc_call
  | MHD_CONNECTION_BODY_SENT => idle_body_sent notify cfg w
  | MHD_CONNECTION_FOOTERS_SENT => idle_footers_sent notify pool_size w
  | _ => Some (false, w)
  end.
End Reply_body.
