(* ===== verification/ReplyStream.v ===== *)
(** * The bytes a reply consists of

    What goes out over the socket between the first byte of a reply header
    and the end of the request, whatever portions the socket takes and the
    content reader delivers: the header and exactly the body for a plain one
    (chunked bodies are in [ReplyChunked]). *)

From S2P Require Import Prelude MhdStr MemoryPool ReasonPhrase Headers Connection RequestHead Response Reply ReplyHeader.
From S2P Require Import ReplyBody.

(** ** The pool under a write buffer *)

Section Layout.
Context `{Platform}.

(** Everything in front of [lim] belongs to the request. *)
Definition layout (lim : Z) (p : MemoryPool) : Prop := pool_inv p /\ 0 <= lim <= pos p.

(** A block that was carved from the front. *)
Definition front_block (lim : Z) (p : MemoryPool) (o n : Z) : Prop :=
  aligned o /\ lim <= o /\ 0 <= n /\ o + n <= pos p.

Lemma allocate_front lim p n o p' :
  layout lim p -> 0 <= n <= SIZE_MAX -> MHD_pool_allocate p n false = (Some o, p') ->
  layout lim p' /\ front_block lim p' o n /\ memory p' = memory p.
Proof.
  intros [Hp Hl] Hn E. destruct (allocate_post _ _ _ _ _ Hp Hn E) as (Hp' & _ & Hm & _).
  destruct (allocate_cases p n false Hp Hn) as [[Hf Ea]|[_ Ea]]; rewrite Ea in E; [|done].
  destruct (fits_round p n Hn Hf) as (Hr & _ & _ & _). destruct Hp as (_ & Hpos & _ & _ & Hal).
  cbv zeta in E. injection E as <- <-. cbn [pos] in *. split; [split; [done|cbn [pos]; lia]|]. split; [|done].
  split; [done|]. cbn [pos]. lia.
Qed.

Lemma allocate_none p n fe p' :
  pool_inv p -> 0 <= n <= SIZE_MAX -> MHD_pool_allocate p n fe = (None, p') -> p' = p.
Proof.
  intros Hp Hn E. destruct (allocate_cases p n fe Hp Hn) as [[_ Ea]|[_ Ea]]; rewrite Ea in E.
  - by destruct fe.
  - by injection E.
Qed.

(** Giving a write buffer back succeeds and leaves the request alone. *)
Lemma release_front lim p o n :
  layout lim p -> front_block lim p o n ->
  ∃ r p', MHD_pool_reallocate p (Some o) n 0 = Some (r, p') /\ layout lim p'
    /\ take (Z.to_nat lim) (memory p') = take (Z.to_nat lim) (memory p) /\ length (memory p') = length (memory p).
Proof.
  intros [Hp Hl] (Ho & Hlim & Hn & Hon). pose proof Hp as (Hlen & Hpos & He & Hs & Ha).
  unfold MHD_pool_reallocate. rewrite ROUND_TO_ALIGN_0. cbn [Z.eqb negb andb].
  destruct (Z.ltb_spec (end_ p) n); [lia|]. destruct (Z.ltb_spec (end_ p) 0); [lia|]. cbn [orb].
  destruct ((pos p >=? n) && _) eqn:Eb; [|destruct (Z.leb_spec 0 n); [|lia]; by eexists _, _].
  apply andb_true_iff in Eb as [_ Eb]. apply bool_decide_eq_true in Eb. injection Eb as Eb.
  rewrite Z.add_0_r, (usize_small (pos p)), (usize_small (pos p - n)) by lia.
  destruct (Z.leb_spec (pos p - n) (end_ p)); [|lia].
  unfold usize. rewrite wrap_add_r. fold (usize (pos p + (0 - n))). rewrite usize_small by lia.
  replace (pos p + (0 - n)) with o by lia.
  assert (∃ m, (if 0 <? n then memset (memory p) o 0 (n - 0) else Some (memory p)) = Some m
    /\ take (Z.to_nat lim) m = take (Z.to_nat lim) (memory p) /\ length m = length (memory p)) as (m & -> & Hm & Hml).
  { destruct (Z.ltb_spec 0 n); [|by eexists]. rewrite Z.sub_0_r.
    set (q := memory p) in *. set (a := take (Z.to_nat o) q). set (b := take (Z.to_nat n) (drop (Z.to_nat o) q)).
    set (c := drop (Z.to_nat n) (drop (Z.to_nat o) q)).
    assert (q = a ++ b ++ c) as Eq by (unfold a, b, c; by rewrite take_drop, take_drop).
    assert (length a = Z.to_nat o) as Hla by (unfold a; rewrite length_take; lia).
    assert (length b = Z.to_nat n) as Hlb by (unfold b; rewrite length_take, length_drop; lia).
    clearbody a b c. rewrite Eq, memset_mid by lia. eexists. split; [done|]. split.
    - rewrite !take_app_le by lia. done.
    - rewrite !length_app, length_replicate. lia. }
  cbn [mbind option_bind]. eexists _, _. split; [done|]. cbn [memory]. split; [|done].
  split; [|cbn [pos]; lia]. split; [cbn [memory size]; lia|]. cbn [pos end_ size]. split; [lia|]. split; [lia|]. by split.
Qed.
End Layout.

(** ** Strings of the request under changes behind them *)

Lemma cstring_app (a b s : bytes) : cstring a = Some s -> cstring (a ++ b) = Some s.
Proof.
  unfold cstring. intros E. apply bind_Some in E as (n & En & E). injection E as <-.
  assert (strlen (a ++ b) = Some n /\ (n <= length a)%nat) as [-> Hn].
  { revert n En. induction a as [|c a IH]; intros n En; [done|]. cbn [strlen app length] in *.
    destruct (c =? 0); [injection En as <-; split; [done|lia]|].
    apply bind_Some in En as (k & Ek & En). injection En as <-. destruct (IH k Ek) as [-> Hk].
    split; [done|cbn [length]; lia]. }
  cbn [mbind option_bind]. by rewrite take_app_le.
Qed.

Lemma chars_take lim (m m' : bytes) pv v :
  chars (take lim m) pv = Some v -> take lim m' = take lim m -> chars m' pv = Some v.
Proof.
  intros Hc E. destruct pv as [k|s]; [|done]. unfold chars, ptr in *. rewrite <- E in Hc.
  rewrite <- (take_drop lim m'), drop_app. by apply cstring_app.
Qed.

(** ** Writing a buffer out *)

Section Send.
Context `{Platform} (notify : bool).

(** The part [bs] of the write buffer is still to be sent. *)
Definition text_ready (lim : Z) (w : reply) (bs : bytes) : Prop :=
  ∃ wb, write_buffer w = Some wb /\ front_block lim (pool (con w)) wb (write_buffer_size w)
    /\ 0 <= write_buffer_send_offset w
    /\ mem_read (memory (pool (con w))) (wb + write_buffer_send_offset w)
         (write_buffer_append_offset w - write_buffer_send_offset w) = Some bs.

(** The send function takes a part of what it is given. *)
Definition send_ok (send_cls : bytes -> send_result) : Prop :=
  forall bs n, send_cls bs = Sent n -> (n <= length bs)%nat.

(** It always takes something. *)
Definition takes (send_cls : bytes -> send_result) : Prop :=
  forall bs, ∃ n, send_cls bs = Sent n /\ (bs ≠ [] -> (0 < n)%nat).

Inductive send_outcome (lim : Z) (next : conn_state) (w : reply) (bs : bytes) (send_cls : bytes -> send_result) : reply -> bytes -> Prop :=
| send_nothing : ~ takes send_cls -> send_outcome lim next w bs send_cls w []
| send_failed : ~ takes send_cls -> send_outcome lim next w bs send_cls (close_error notify w) []
| send_part n send :
    let w' := set_write w (write_buffer w) (write_buffer_size w) send (write_buffer_append_offset w) in
    text_ready lim w' (drop n bs) -> (takes send_cls -> take n bs ≠ []) -> send_outcome lim next w bs send_cls w' (take n bs)
| send_all p :
    layout lim p -> take (Z.to_nat lim) (memory p) = take (Z.to_nat lim) (memory (pool (con w))) ->
    send_outcome lim next w bs send_cls (set_write (set_con w (set_pool (set_state (con w) next) p)) None 0 0 0) bs.

Lemma send_write_buffer_ok lim next w bs send_cls :
  layout lim (pool (con w)) -> text_ready lim w bs -> send_ok send_cls ->
  ∃ w' out, send_write_buffer notify w send_cls next = Some (w', out) /\ send_outcome lim next w bs send_cls w' out.
Proof.
  intros Hl (wb & Ewb & Hfb & Hs & Er) Hsend. unfold send_write_buffer. rewrite Ewb. cbn [mbind option_bind].
  rewrite Er. cbn [mbind option_bind]. pose proof (mem_read_length _ _ _ _ Er) as Hlen.
  assert (forall n, send_cls bs = Sent n -> takes send_cls -> bs ≠ [] -> (0 < n)%nat) as Hpos.
  { intros n En Ht Hne. destruct (Ht bs) as (n' & En' & Hn'). rewrite En in En'. injection En' as ->. by apply Hn'. }
  destruct (send_cls bs) as [n| |] eqn:Es.
  2-3: eexists _, _; split; [done|]; constructor; intros Ht; destruct (Ht bs) as (n & En & _); by rewrite Es in En.
  specialize (Hpos n eq_refl). apply Hsend in Es. unfold check_write_done. cbn [write_buffer_append_offset write_buffer_send_offset set_write].
  destruct (Z.eqb_spec (write_buffer_append_offset w) (write_buffer_send_offset w + Z.of_nat n)) as [E|E]; cbn [negb].
  - destruct (release_front lim _ wb (write_buffer_size w) Hl Hfb) as (r0 & p & Ep & Hp & Ht & _).
    cbn [con set_write write_buffer write_buffer_size]. rewrite Ep. cbn [mbind option_bind].
    rewrite take_ge by lia. eexists _, _. split; [done|]. exact (send_all lim next w bs send_cls p Hp Ht).
  - cbn [mbind option_bind]. rewrite <- Ewb. eexists _, _. split; [done|]. apply send_part.
    + exists wb. split; [done|]. split; [done|]. cbn [write_buffer_send_offset set_write]. split; [lia|].
      cbn [con set_write write_buffer_append_offset]. apply (mem_read_drop _ _ _ _ n) in Er; [|done].
      rewrite <- Er. f_equal; lia.
    + intros Ht E0. apply (f_equal length) in E0. rewrite length_take in E0. cbn [length] in E0.
      assert (bs ≠ []) as Hne by (intros ->; cbn [length] in *; lia). specialize (Hpos Ht Hne). lia.
Qed.
End Send.

(** ** Content readers *)

(** One call delivers some bytes of the body at the given position, reports
    the end only behind its last byte, or fails. *)
Definition reads (body : bytes) (crc_call : Z -> Z -> crc_result) : Prop :=
  forall position max, 0 <= position <= Z.of_nat (length body) -> 0 <= max ->
    match crc_call position max with
    | Produced bs => ∃ rest, drop (Z.to_nat position) body = bs ++ rest /\ Z.of_nat (length bs) <= max
    | End_of_stream => position = Z.of_nat (length body)
    | End_with_error => True
    end.

(** One that delivers something at every call before the end. *)
Definition delivers (body : bytes) (crc_call : Z -> Z -> crc_result) : Prop :=
  forall position max, 0 <= position <= Z.of_nat (length body) -> 0 < max ->
    match crc_call position max with Produced bs => bs ≠ [] | End_of_stream => True | End_with_error => False end.

Section Readers.
Context `{Platform}.

(** The response holds a part of the body that begins at [data_start]. *)
Definition window (body : bytes) (r : MHD_Response) : Prop :=
  0 <= data_start r /\ 0 <= data_size r <= SIZE_MAX /\ data_start r + data_size r <= Z.of_nat (length body)
  /\ ∃ d, data r = Some d /\ data_size r <= Z.of_nat (length d)
     /\ take (Z.to_nat (data_size r)) d = take (Z.to_nat (data_size r)) (drop (Z.to_nat (data_start r)) body).

(** A response for [body]: all of it in memory, or a content reader with its
    buffer. *)
Definition serves (body : bytes) (r : MHD_Response) : Prop :=
  window body r /\ upgrade_handler r = false /\ Z.of_nat (length body) < MHD_SIZE_UNKNOWN
  /\ match crc r with
     | None => data_start r = 0 /\ data_size r = Z.of_nat (length body) /\ total_size r = Z.of_nat (length body)
     | Some _ =>
         (total_size r = Z.of_nat (length body) \/ total_size r = MHD_SIZE_UNKNOWN)
         /\ ∃ d, data r = Some d /\ 0 < data_buffer_size r <= Z.of_nat (length d) /\ data_buffer_size r <= SIZE_MAX
     end.

Lemma window_read body r position :
  window body r -> data_start r <= position < data_start r + data_size r ->
  ∃ d, data r = Some d /\ mem_read d (position - data_start r) (data_size r - (position - data_start r))
    = Some (take (Z.to_nat (data_start r + data_size r - position)) (drop (Z.to_nat position) body)).
Proof.
  intros (H1 & H2 & H3 & d & Ed & H4 & E) Hp. exists d. split; [done|]. unfold mem_read.
  rewrite (proj2 (in_object_true _ _ _)) by lia. f_equal.
  apply (f_equal (drop (Z.to_nat (position - data_start r)))) in E. rewrite !skipn_firstn_comm, drop_drop in E.
  replace (Z.to_nat (data_size r - (position - data_start r)))
    with (Z.to_nat (data_size r) - Z.to_nat (position - data_start r))%nat by lia.
  rewrite E. f_equal; [lia|]. f_equal. lia.
Qed.

(** The bytes a reader delivered are the new window. *)
Lemma window_new body r d bs rest position :
  0 <= position <= Z.of_nat (length body) -> data r = Some d -> drop (Z.to_nat position) body = bs ++ rest ->
  Z.of_nat (length bs) <= Z.of_nat (length d) -> Z.of_nat (length bs) <= SIZE_MAX ->
  ∃ d', mem_write d 0 bs = Some d' /\ length d' = length d
    /\ window body (set_data r (Some d') position (Z.of_nat (length bs))).
Proof.
  intros Hp Ed E Hl Hmax. destruct (mem_write_append d bs 0) as (d' & Ew & Hd & Ht & _); [lia|].
  exists d'. split; [done|]. split; [done|]. pose proof (f_equal length E) as El. rewrite length_drop, length_app in El.
  unfold window. cbn [data_start data_size data set_data]. split; [lia|]. split; [lia|]. split; [lia|].
  exists d'. split; [done|]. split; [lia|]. rewrite Nat2Z.id. cbn [Nat.add take app] in Ht. rewrite Ht, E.
  by rewrite take_app_length.
Qed.
End Readers.

(** ** Events *)

Section Run.
Context `{Platform} (notify : bool) (cfg : reply_config) (pool_size : Z).
Context (handler : reply -> option reply) (upgrade : reply -> option (bool * reply)).
Context (sendfile_adapter : Z -> send_result * bytes).

(** A round of the loop over the states, a chance to write, or another
    connection that uses the same response and changes it in between. *)
Inductive event :=
| Idle (crc_call : Z -> Z -> crc_result)
| Write (crc_call : Z -> Z -> crc_result) (send_cls : bytes -> send_result)
| Other (r : MHD_Response).

Definition apply_event (e : event) (w : reply) : option (reply * bytes) :=
  match e with
  | Idle crc_call => '(_, w) ← reply_step notify cfg pool_size handler upgrade crc_call w; Some (w, [])
  | Write crc_call send_cls => MHD_connection_handle_write notify false w crc_call send_cls sendfile_adapter
  | Other r => Some (set_resp w (Some r), [])
  end.

(** The states between the first byte of the header and the end of the
    reply. *)
Definition sending (s : conn_state) : bool :=
  match s with
  | MHD_CONNECTION_HEADERS_SENDING | MHD_CONNECTION_HEADERS_SENT
  | MHD_CONNECTION_NORMAL_BODY_READY | MHD_CONNECTION_NORMAL_BODY_UNREADY
  | MHD_CONNECTION_CHUNKED_BODY_READY | MHD_CONNECTION_CHUNKED_BODY_UNREADY
  | MHD_CONNECTION_BODY_SENT | MHD_CONNECTION_FOOTERS_SENDING => true
  | _ => false
  end.

(** The events until the reply is over, with what went out. *)
Fixpoint run (es : list event) (w : reply) : option (reply * bytes) :=
  match es with
  | [] => Some (w, [])
  | e :: es' =>
      if sending (state (con w)) then
        '(w, o1) ← apply_event e w;
        '(w, o2) ← run es' w;
        Some (w, o1 ++ o2)
      else Some (w, [])
  end.

(** An invariant of the connection and of what was sent so far. *)
Lemma run_invariant (Inv : reply -> bytes -> Prop) (ok : event -> Prop) es w out :
  (forall e w out, ok e -> Inv w out -> sending (state (con w)) = true ->
     ∃ w' o, apply_event e w = Some (w', o) /\ Inv w' (out ++ o)) ->
  Forall ok es -> Inv w out -> ∃ w' o, run es w = Some (w', o) /\ Inv w' (out ++ o).
Proof.
  intros Hstep Hes. revert w out. induction Hes as [|e es He Hes IH]; intros w out Hw.
  { exists w, []. by rewrite app_nil_r. }
  cbn [run]. destruct (sending (state (con w))) eqn:Es; [|exists w, []; by rewrite app_nil_r].
  destruct (Hstep e w out He Hw Es) as (w1 & o1 & -> & Hw1). cbn [mbind option_bind].
  destruct (IH w1 (out ++ o1) Hw1) as (w2 & o2 & -> & Hw2). cbn [mbind option_bind].
  exists w2, (o1 ++ o2). by rewrite app_assoc.
Qed.

(** ** What does not change during a reply *)

Context (body : bytes) (hs : list MHD_HTTP_Header) (lim : Z) (pv : char_ptr) (v : bytes).

Definition no_plan : header_plan := mkPlan false false false false false false.

(** The footers with the empty line that ends a chunked body. *)
Definition footer_text : bytes := sent_lines no_plan MHD_FOOTER_KIND hs ++ crlf.

Context (Hhs : Forall entry_string hs) (Hv : v ≠ []).
Context (Hsize : Z.of_nat (length (sent_lines no_plan MHD_FOOTER_KIND hs)) + 385 <= SIZE_MAX).

(** The response serves the body, and the pool up to [lim] is the one of the
    request. *)
Definition base (w : reply) (r : MHD_Response) : Prop :=
  resp w = Some r /\ serves body r /\ first_header r = hs
  /\ 0 <= response_write_position w <= Z.of_nat (length body) /\ sendfile w = false
  /\ layout lim (pool (con w)) /\ version (req (con w)) = Some pv
  /\ chars (take (Z.to_nat lim) (memory (pool (con w)))) pv = Some v.

Lemma frame_footers w r : state (con w) = MHD_CONNECTION_BODY_SENT -> frame_of cfg w r = Some ([], [], MHD_FOOTER_KIND).
Proof. intros E. unfold frame_of. by rewrite E. Qed.

(** The footers are built, or the pool has no room for them. *)
Lemma footers_built w r :
  base w r -> state (con w) = MHD_CONNECTION_BODY_SENT ->
  ∃ p, build_header_response cfg w = Some (false, set_con w (set_pool (con w) p))
  \/ ∃ data size, let w' := set_write (set_con w (set_pool (con w) p)) (Some data) size 0 (Z.of_nat (length footer_text)) in
      build_header_response cfg w = Some (true, w') /\ base w' r /\ text_ready lim w' footer_text.
Proof using Hhs Hv Hsize.
  intros (Hr & Hs & Hh & Hp & Hsf & Hl & Hver & Hc) Hst. pose proof Hl as [Hpool Hlim].
  pose proof (build_text cfg w r v pv [] [] MHD_FOOTER_KIND no_plan (keepalive w) (have_chunked_upload (up (con w)))
    Hr ltac:(by rewrite Hh) Hver (chars_take _ _ (memory (pool (con w))) _ _ Hc eq_refl) Hv Hpool (or_intror Hst)
    (frame_footers w r Hst)) as Hb.
  rewrite with_flags_id in Hb. unfold plan_of in Hb. rewrite Hst in Hb. cbn [bool_decide] in Hb.
  rewrite bool_decide_eq_false_2 in Hb by done. rewrite Hh in Hb.
  specialize (Hb ltac:(simpl; lia) eq_refl Hsize). cbv zeta in Hb.
  assert (decide_keepalive no_plan w = w) as Ek by (unfold decide_keepalive; by destruct (bool_decide _)).
  assert (reply_text [] [] MHD_FOOTER_KIND no_plan r = footer_text) as Et
    by (unfold reply_text, footer_text; by rewrite Hh).
  rewrite Ek, Et in Hb. set (n := Z.of_nat (length footer_text)) in *.
  assert (n = Z.of_nat (length (sent_lines no_plan MHD_FOOTER_KIND hs)) + 2) as Hn
    by (unfold n, footer_text; rewrite length_app; cbn [crlf length]; lia).
  destruct (MHD_pool_allocate _ _ _) as [[data|] p'] eqn:Ea; [|exists p'; by left].
  apply (allocate_front lim) in Ea as (Hl' & Hfb & Em); [|done|lia]. destruct Hb as [Hb Hin].
  set (m := memory (pool (con w))) in *. set (m' := take _ m ++ _) in Hb.
  exists (with_memory p' m'). right. exists data, (n + 1). cbv zeta. split; [exact Hb|].
  destruct Hfb as (Ha & Hld & Hn0 & Hdp).
  assert (length m' = length m) as Hlen by (unfold m'; rewrite !length_app, length_take, length_drop; lia).
  assert (take (Z.to_nat lim) m' = take (Z.to_nat lim) m) as Ht.
  { unfold m'. rewrite take_app_le by (rewrite length_take; lia). rewrite take_take. f_equal. lia. }
  assert (layout lim (with_memory p' m')) as Hl2.
  { destruct Hl' as [(Hlp & Hrest) Hlim']. split; [|done]. split; [|done]. cbn [memory with_memory size]. rewrite Em in Hlp. fold m in Hlp. lia. }
  split.
  - split; [done|]. split; [done|]. split; [done|]. split; [done|]. split; [done|]. split; [done|]. split; [done|].
    change (chars (take (Z.to_nat lim) m') pv = Some v). by rewrite Ht.
  - exists data. split; [done|]. split; [done|]. split; [done|].
    change (mem_read m' (data + 0) (n - 0) = Some footer_text). rewrite Z.add_0_r, Z.sub_0_r. unfold m', n.
    unfold mem_read. rewrite (proj2 (in_object_true _ _ _)) by (rewrite !length_app, length_take, length_drop; lia).
    rewrite drop_app_length' by (rewrite length_take; lia). rewrite Nat2Z.id. by rewrite take_app_length.
Qed.

(** ** Producing a plain body *)

Inductive ready_outcome (w : reply) (crc_call : Z -> Z -> crc_result) : bool -> reply -> Prop :=
| ready_now r :
    serves body r -> first_header r = hs -> (∃ r0, resp w = Some r0 /\ total_size r = total_size r0) ->
    (response_write_position w < total_size r ->
     data_start r <= response_write_position w < data_start r + data_size r) ->
    ready_outcome w crc_call true (set_resp w (Some r))
| ready_later r :
    ~ delivers body crc_call -> serves body r -> first_header r = hs ->
    ready_outcome w crc_call false (set_reply_state (set_resp w (Some r)) MHD_CONNECTION_NORMAL_BODY_UNREADY)
| ready_finished r :
    response_write_position w = Z.of_nat (length body) ->
    ready_outcome w crc_call false (reply_close notify (set_resp w (Some r)) MHD_REQUEST_TERMINATED_COMPLETED_OK)
| ready_failed r :
    ~ delivers body crc_call -> ready_outcome w crc_call false (reply_close notify (set_resp w (Some r)) MHD_REQUEST_TERMINATED_WITH_ERROR).

Lemma set_resp_id w r : resp w = Some r -> set_resp w (Some r) = w.
Proof. destruct w. cbn. by intros ->. Qed.

Lemma ready_as_is w r crc_call :
  resp w = Some r -> serves body r -> first_header r = hs ->
  (response_write_position w < total_size r ->
   data_start r <= response_write_position w < data_start r + data_size r) -> ready_outcome w crc_call true w.
Proof. intros Hr H1 H2 H3. pose proof (ready_now w crc_call r H1 H2 ltac:(by exists r) H3) as Hx. by rewrite set_resp_id in Hx. Qed.

Lemma try_ready_normal_ok w r crc_call :
  base w r -> reads body crc_call ->
  ∃ ready w', try_ready_normal_body notify w crc_call = Some (ready, w') /\ ready_outcome w crc_call ready w'.
Proof.
  intros (Hr & Hs & Hh & Hp & Hsf & _) Hc. pose proof Hs as (Hw & Hu & Hb & Hcrc). unfold try_ready_normal_body.
  rewrite Hr. cbn [mbind option_bind].
  destruct (crc r) as [reader|] eqn:Ecrc.
  2:{ eexists _, _. split; [done|]. apply (ready_as_is w r crc_call); [done..|]. lia. }
  destruct (_ || _) eqn:Et.
  { eexists _, _. split; [done|]. apply (ready_as_is w r crc_call); [done..|].
    intros Hlt. apply orb_true_iff in Et as [E%Z.eqb_eq|E%Z.eqb_eq]; lia. }
  pose proof Hw as (W1 & W2 & W3 & _). rewrite u64_small by lia.
  destruct (_ && _) eqn:Ew.
  { eexists _, _. split; [done|]. apply (ready_as_is w r crc_call); [done..|]. apply andb_true_iff in Ew as [E1 E2].
    apply Z.leb_le in E1. apply Z.ltb_lt in E2. lia. }
  rewrite Hsf. destruct Hcrc as (Hsz & d & Ed & Hbuf & Hbmax). apply orb_false_iff in Et as [_ Et%Z.eqb_neq].
  assert (u64 (total_size r - response_write_position w) = total_size r - response_write_position w
    /\ 0 < total_size r - response_write_position w) as [-> Hleft].
  { split; [apply u64_small|]; lia. }
  set (max := usize _). assert (0 < max <= data_buffer_size r /\ max <= SIZE_MAX) as Hmax.
  { unfold max. rewrite usize_small; lia. }
  assert (delivers body crc_call -> match crc_call (response_write_position w) max with
                                    | Produced bs => bs ≠ [] | End_of_stream => True | End_with_error => False end) as Hlive
    by (intros Hd; apply Hd; lia).
  specialize (Hc (response_write_position w) max Hp ltac:(lia)).
  destruct (crc_call _ _) as [bs| |].
  - destruct Hc as (rest & E & Hl). rewrite Ed. cbn [mbind option_bind].
    assert (Z.of_nat (length bs) <= Z.of_nat (length d) /\ Z.of_nat (length bs) <= SIZE_MAX) as [Hbd Hbm] by lia.
    destruct (window_new body r d bs rest _ Hp Ed E Hbd Hbm) as (d' & -> & Hd & Hwin). cbn [mbind option_bind].
    set (r' := set_data r (Some d') (response_write_position w) (Z.of_nat (length bs))) in *.
    assert (serves body r') as Hs'.
    { split; [done|]. split; [done|]. split; [done|]. change (crc r') with (crc r). rewrite Ecrc. split; [exact Hsz|].
      exists d'. split; [done|]. change (data_buffer_size r') with (data_buffer_size r). lia. }
    case_bool_decide as Ebs.
    + eexists _, _. split; [done|]. apply ready_later; [|done|done]. intros Hdl. by apply Hlive in Hdl.
    + eexists _, _. split; [done|]. apply ready_now; [done|done|by exists r|]. intros _. cbn [data_start data_size set_data r'].
      destruct bs; [done|]. cbn [length]. lia.
  - eexists _, _. split; [done|]. by apply ready_finished.
  - eexists _, _. split; [done|]. by apply ready_failed.
Qed.

(** ** A plain reply *)

Context (done0 : list termination) (whole : bytes).

(** What is still to be sent. *)
Definition owed (w : reply) (b : bytes) : Prop :=
  let rest := drop (Z.to_nat (response_write_position w)) body in
  match state (con w) with
  | MHD_CONNECTION_HEADERS_SENDING => ∃ bs, text_ready lim w bs /\ b = bs ++ rest
  | MHD_CONNECTION_HEADERS_SENT | MHD_CONNECTION_NORMAL_BODY_UNREADY | MHD_CONNECTION_NORMAL_BODY_READY => b = rest
  | MHD_CONNECTION_BODY_SENT | MHD_CONNECTION_FOOTERS_SENT => b = []
  | _ => False
  end.

(** Closed before the end, or after it. *)
Definition closed_early (w : reply) (out : bytes) : Prop :=
  state (con w) = MHD_CONNECTION_CLOSED
  /\ ∃ b, out ++ b = whole /\ (completed (con w) = done0 ++ [MHD_REQUEST_TERMINATED_COMPLETED_OK] -> b = []).

Definition plain_inv (w : reply) (out : bytes) : Prop :=
  (∃ r b, base w r /\ have_chunked_upload (up (con w)) = false /\ completed (con w) = done0
     /\ owed w b /\ out ++ b = whole)
  \/ closed_early w out.

(** What a write or a round of the loop does when neither the socket nor the
    content reader stops the reply: it is over with everything sent, or the
    next state is reached, or some bytes went out. *)
Definition reply_over (w : reply) : Prop :=
  state (con w) = MHD_CONNECTION_FOOTERS_SENT \/ state (con w) = MHD_CONNECTION_CLOSED.

Definition write_advances (w w' : reply) (out o : bytes) : Prop :=
  (reply_over w' /\ out ++ o = whole)
  \/ (state (con w) = MHD_CONNECTION_HEADERS_SENDING /\ state (con w') = MHD_CONNECTION_HEADERS_SENT)
  \/ (state (con w') = state (con w) /\ o ≠ []).

Definition idle_advances (w : reply) (go_on : bool) (w' : reply) (out : bytes) : Prop :=
  match state (con w) with
  | MHD_CONNECTION_HEADERS_SENT => go_on = true /\ state (con w') = MHD_CONNECTION_NORMAL_BODY_UNREADY
  | MHD_CONNECTION_NORMAL_BODY_UNREADY =>
      (go_on = true /\ state (con w') = MHD_CONNECTION_BODY_SENT)
      \/ (go_on = false /\ state (con w') = MHD_CONNECTION_NORMAL_BODY_READY)
      \/ (go_on = false /\ state (con w') = MHD_CONNECTION_CLOSED /\ response (con w') = None /\ out = whole)
  | MHD_CONNECTION_BODY_SENT => go_on = true /\ reply_over w' /\ out = whole
  | _ => go_on = false /\ w' = w
  end.

Definition plain_event_ok (e : event) : Prop :=
  match e with
  | Idle crc_call => reads body crc_call
  | Write crc_call send_cls => reads body crc_call /\ send_ok send_cls
  | Other r => serves body r /\ first_header r = hs
  end.

Lemma reply_close_completed w code :
  state (con (reply_close notify w code)) = MHD_CONNECTION_CLOSED
  /\ completed (con (reply_close notify w code)) = completed (con w) ++ (if notify && client_aware (con w) then [code] else []).
Proof. unfold reply_close, drop_response. by destruct (resp _). Qed.

Lemma closed_reply w code out b :
  completed (con w) = done0 -> out ++ b = whole ->
  (code = MHD_REQUEST_TERMINATED_COMPLETED_OK -> b = []) -> closed_early (reply_close notify w code) out.
Proof.
  intros Hd Hw Hc. destruct (reply_close_completed w code) as [E1 E2]. split; [done|]. exists b. split; [done|].
  rewrite E2, Hd. destruct (notify && _).
  - intros [= ->]%app_inv_head. by apply Hc.
  - intros E. apply app_inv_head in E. done.
Qed.

Lemma closed_error w out b : completed (con w) = done0 -> out ++ b = whole -> closed_early (close_error notify w) out.
Proof. intros. by eapply closed_reply. Qed.

Lemma base_set_resp w r r' : base w r -> serves body r' -> first_header r' = hs -> base (set_resp w (Some r')) r'.
Proof. intros (_ & _ & _ & ?) ? ?. done. Qed.

Lemma base_set_state w r s : base w r -> base (set_reply_state w s) r.
Proof. done. Qed.

(** The buffer that was sent is given back. *)
Lemma base_all_sent w r next p :
  base w r -> layout lim p -> take (Z.to_nat lim) (memory p) = take (Z.to_nat lim) (memory (pool (con w))) ->
  base (set_write (set_con w (set_pool (set_state (con w) next) p)) None 0 0 0) r.
Proof.
  intros (H1 & H2 & H3 & H4 & H5 & _ & H7 & H8) Hp Ht. split; [done|]. split; [done|]. split; [done|]. split; [done|].
  split; [done|]. split; [done|]. split; [done|].
  change (chars (take (Z.to_nat lim) (memory p)) pv = Some v). by rewrite Ht.
Qed.

Lemma plain_headers_step w r b out send_cls :
  base w r -> have_chunked_upload (up (con w)) = false -> completed (con w) = done0 ->
  state (con w) = MHD_CONNECTION_HEADERS_SENDING -> owed w b -> out ++ b = whole -> send_ok send_cls ->
  ∃ w' o, send_write_buffer notify w send_cls MHD_CONNECTION_HEADERS_SENT = Some (w', o) /\ plain_inv w' (out ++ o)
    /\ (takes send_cls -> write_advances w w' out o).
Proof.
  intros Hb Hch Hd Hst Ho Hw Hsend. unfold owed in Ho. rewrite Hst in Ho. destruct Ho as (bs & Ht & ->).
  pose proof Hb as (_ & _ & _ & _ & _ & Hl & _).
  destruct (send_write_buffer_ok notify lim MHD_CONNECTION_HEADERS_SENT w bs send_cls Hl Ht Hsend) as (w' & o & E & Hout).
  exists w', o. split; [done|]. destruct Hout as [| |n send w' Ht' Hn|p Hp Htk]; (split; [|intros Htakes; try done]).
  - left. rewrite app_nil_r. exists r, (bs ++ drop (Z.to_nat (response_write_position w)) body).
    split; [done|]. split; [done|]. split; [done|]. split; [|done]. unfold owed. rewrite Hst. by exists bs.
  - right. rewrite app_nil_r. by eapply closed_error.
  - left. exists r, (drop n bs ++ drop (Z.to_nat (response_write_position w)) body).
    split; [done|]. split; [done|]. split; [done|]. split.
    + unfold owed. change (state (con w')) with (state (con w)). rewrite Hst. by exists (drop n bs).
    + rewrite <- Hw, <- !app_assoc. f_equal. by rewrite app_assoc, take_drop.
  - right. right. split; [done|]. by apply Hn.
  - left. exists r, (drop (Z.to_nat (response_write_position w)) body). split; [by apply base_all_sent|].
    split; [done|]. split; [done|]. split; [done|]. by rewrite <- app_assoc.
  - right. left. by split.
Qed.

(** Writing a part of the body. *)
Lemma plain_body_step w r b out crc_call send_cls :
  base w r -> have_chunked_upload (up (con w)) = false -> completed (con w) = done0 ->
  state (con w) = MHD_CONNECTION_NORMAL_BODY_READY -> owed w b -> out ++ b = whole ->
  reads body crc_call -> send_ok send_cls ->
  ∃ w' o, send_normal_body notify w crc_call send_cls sendfile_adapter = Some (w', o) /\ plain_inv w' (out ++ o)
    /\ (takes send_cls -> delivers body crc_call -> write_advances w w' out o).
Proof.
  intros Hb Hch Hd Hst Ho Hw Hread Hsend. unfold owed in Ho. rewrite Hst in Ho. subst b.
  pose proof Hb as (Hr & Hs & Hh & Hp & Hsf & Hrest). unfold send_normal_body. rewrite Hr. cbn [mbind option_bind].
  destruct (Z.ltb_spec (response_write_position w) (total_size r)) as [Hlt|Hge].
  2:{ cbn [mbind option_bind]. rewrite Hr. cbn [mbind option_bind]. eexists _, _. split; [done|]. rewrite app_nil_r.
      assert (Z.of_nat (length body) <= response_write_position w) as Hend
        by (destruct Hs as (_ & _ & ? & Hc); destruct (crc r); [destruct Hc as [[?|?] _]|destruct Hc as (_ & _ & ?)]; lia).
      assert (response_write_position w = total_size r) as <-
        by (destruct Hs as (_ & _ & ? & Hc); destruct (crc r); [destruct Hc as [[?|?] _]|destruct Hc as (_ & _ & ?)]; lia).
      rewrite drop_ge, app_nil_r in Hw by lia. rewrite Z.eqb_refl. split.
      - left. exists r, []. rewrite app_nil_r. by split_and!.
      - intros _ _. left. split; [by left|by rewrite app_nil_r]. }
  destruct (try_ready_normal_ok w r crc_call Hb Hread) as (ready & w1 & -> & Hready). cbn [mbind option_bind].
  destruct Hready as [r' Hs' Hh' Htot Hwin|r' Hl' Hs' Hh'|r' Hend|r' Hl']; cbn [negb mbind option_bind].
  2:{ eexists _, _. split; [done|]. split; [|done]. rewrite app_nil_r. left. exists r', (drop (Z.to_nat (response_write_position w)) body).
      split; [by eapply base_set_state, base_set_resp|]. by split_and!. }
  2:{ rewrite drop_ge in Hw by lia. eexists _, _. split; [done|]. split.
      - rewrite app_nil_r. right. by eapply closed_reply.
      - intros _ _. left. split; [right; apply reply_close_completed|done]. }
  2:{ eexists _, _. split; [done|]. split; [|done]. rewrite app_nil_r. right. by eapply closed_error. }
  cbn [resp set_resp]. cbn [mbind option_bind]. change (sendfile (set_resp w (Some r'))) with (sendfile w). rewrite Hsf.
  change (response_write_position (set_resp w (Some r'))) with (response_write_position w).
  destruct Htot as (r0 & Er0 & Etot). rewrite Hr in Er0. injection Er0 as <-. rewrite Etot in Hwin. specialize (Hwin Hlt).
  pose proof Hs' as (Hw' & _ & Hbig & Hcrc'). pose proof Hw' as (W1 & W2 & W3 & d & Ed & W4 & _).
  rewrite u64_small by lia. destruct Hb as (_ & _ & _ & _ & _ & Hl & Hver).
  destruct (window_read body r' (response_write_position w) Hw' Hwin) as (d' & Ed' & Erd).
  rewrite Ed'. cbn [mbind option_bind].
  destruct (_ >? SIZE_MAX) eqn:Eg; [rewrite Z.gtb_ltb, Z.ltb_lt in Eg; lia|]. clear Eg.
  rewrite Erd. cbn [mbind option_bind]. set (seg := take _ (drop _ body)).
  assert (seg ≠ [] /\ (takes send_cls -> ∃ n, send_cls seg = Sent n /\ (0 < n)%nat)) as [Hseg Htk].
  { assert (seg ≠ []) as Hseg; [|split; [done|]; intros Ht; destruct (Ht seg) as (n & ? & ?); exists n; auto].
    intros E0. apply (f_equal length) in E0. unfold seg in E0. rewrite length_take, length_drop in E0. cbn [length] in E0.
    destruct Hw' as (_ & _ & ? & _). lia. }
  destruct (send_cls seg) as [n| |] eqn:Es; cbn [mbind option_bind negb].
  2:{ eexists _, _. split; [done|]. split; [|intros Ht; by destruct (Htk Ht) as (? & ? & _)]. rewrite app_nil_r. left. exists r', (drop (Z.to_nat (response_write_position w)) body).
      split; [by eapply base_set_resp|]. split; [done|]. split; [done|]. split; [|done].
      unfold owed. change (state (con (set_resp w (Some r')))) with (state (con w)). by rewrite Hst. }
  2:{ eexists _, _. split; [done|]. split; [|intros Ht; by destruct (Htk Ht) as (? & ? & _)].
      rewrite app_nil_r. right. by eapply closed_error. }
  assert (takes send_cls -> take n seg ≠ []) as Hmoved.
  { intros Ht. destruct (Htk Ht) as (n' & [= <-] & ?). destruct seg, n; done || lia. }
  apply Hsend in Es. assert (Z.of_nat n <= Z.of_nat (length body) - response_write_position w) as Hn
    by (unfold seg in Es; rewrite length_take, length_drop in Es; lia).
  rewrite u64_small by lia. set (pos' := response_write_position w + Z.of_nat n).
  assert (drop (Z.to_nat (response_write_position w)) body = take n seg ++ drop (Z.to_nat pos') body) as Esplit.
  { unfold seg, pos'. rewrite take_take. rewrite Nat.min_l by (unfold seg in Es; rewrite length_take in Es; lia).
    rewrite Z2Nat.inj_add, Nat2Z.id, <- drop_drop by lia. by rewrite take_drop. }
  change (resp (set_position (set_resp w (Some r')) pos')) with (Some r'). cbn [mbind option_bind].
  eexists _, _. split; [done|]. rewrite Esplit in Hw.
  assert (base (set_position (set_resp w (Some r')) pos') r') as Hb'
    by (split; [done|]; split; [done|]; split; [done|]; split; [cbn; unfold pos'; lia|]; by split).
  change (response_write_position (set_position (set_resp w (Some r')) pos')) with pos'.
  destruct (Z.eqb_spec pos' (total_size r')) as [Eend|_].
  - assert (pos' = Z.of_nat (length body)) as Ep
      by (destruct (crc r'); [destruct Hcrc' as [[?|?] _]|destruct Hcrc' as (_ & _ & ?)]; unfold pos' in *; lia).
    rewrite drop_ge, app_nil_r in Hw by lia. split; [|intros _ _; left; split; [by left|done]].
    left. exists r', []. rewrite app_nil_r. by split_and!.
  - split; [|intros Ht _; right; right; split; [done|by apply Hmoved]].
    left. exists r', (drop (Z.to_nat pos') body). split; [done|]. split; [done|]. split; [done|]. split.
    + unfold owed. change (state (con (set_position (set_resp w (Some r')) pos'))) with (state (con w)). by rewrite Hst.
    + by rewrite <- app_assoc.
Qed.

Lemma plain_idle_step w r b out crc_call :
  base w r -> have_chunked_upload (up (con w)) = false -> completed (con w) = done0 ->
  owed w b -> out ++ b = whole -> reads body crc_call -> sending (state (con w)) = true ->
  ∃ go_on w', reply_step notify cfg pool_size handler upgrade crc_call w = Some (go_on, w') /\ plain_inv w' out
    /\ (delivers body crc_call -> idle_advances w go_on w' out).
Proof using Hhs Hv Hsize.
  intros Hb Hch Hd Ho Hw Hread Hs. pose proof Hb as (Hr & Hsv & Hh & Hp & Hrest). pose proof Hsv as (_ & Hup & Hbig & Hcrc).
  assert (plain_inv w out) as Hinv by (left; by exists r, b).
  unfold reply_step, idle_advances. unfold owed in Ho. destruct (state (con w)) eqn:Est; try done.
  - by eexists _, _.
  - unfold idle_headers_sent. rewrite Hr. cbn [mbind option_bind]. rewrite Hup, Hch. eexists _, _. split; [done|].
    split; [|done]. left. exists r, b. by split_and!.
  - by eexists _, _.
  - unfold idle_normal_body_unready. rewrite Hr. cbn [mbind option_bind].
    destruct (Z.eqb_spec 0 (total_size r)) as [E0|_].
    + eexists _, _. split; [done|]. assert (Z.of_nat (length body) = 0) as Eb
        by (destruct (crc r); [destruct Hcrc as [[?|?] _]|destruct Hcrc as (_ & _ & ?)]; lia).
      split; [|intros _; by left]. left. exists r, []. rewrite drop_ge in Ho by lia. subst b. by split_and!.
    + destruct (try_ready_normal_ok w r crc_call Hb Hread) as (ready & w1 & -> & Hready). cbn [mbind option_bind].
      eexists _, _. split; [done|]. destruct Hready as [r' Hs' Hh' _ _|r' Hl Hs' Hh'|r' Hend|r' Hl]; (split; [|intros Hlive; try done]).
      * left. exists r', b. split; [by eapply base_set_state, base_set_resp|]. by split_and!.
      * right. left. by split.
      * left. exists r', b. split; [by eapply base_set_state, base_set_resp|]. by split_and!.
      * right. eapply closed_reply; [done|exact Hw|]. intros _. subst b. apply drop_ge. lia.
      * right. right. split; [done|]. split; [apply reply_close_completed|]. split; [done|]. subst b. by rewrite drop_ge, app_nil_r in Hw by lia.
      * right. by eapply closed_error.
  - unfold idle_body_sent. destruct (footers_built w r Hb Est) as (p & [E|(data & size & E & Hb' & Ht)]); rewrite E;
      cbn [mbind option_bind negb].
    + eexists _, _. split; [done|]. split; [right; by eapply closed_error|]. intros _. split; [done|].
      split; [right; apply reply_close_completed|]. subst b. by rewrite app_nil_r in Hw.
    + cbn [con set_write set_con up set_pool]. rewrite Hch. cbn [negb orb]. eexists _, _. split; [done|].
      split; [|intros _; split; [done|]; split; [by left|]; subst b; by rewrite app_nil_r in Hw].
      left. exists r, b. split; [by apply base_set_state|]. by split_and!.
Qed.

Lemma plain_step e w out :
  plain_event_ok e -> plain_inv w out -> sending (state (con w)) = true ->
  ∃ w' o, apply_event e w = Some (w', o) /\ plain_inv w' (out ++ o).
Proof using Hhs Hv Hsize.
  intros He [(r & b & Hb & Hch & Hd & Ho & Hw)|[Hc _]] Hs; [|by rewrite Hc in Hs].
  destruct e as [crc_call|crc_call send_cls|r']; cbn [apply_event plain_event_ok] in *.
  - destruct (plain_idle_step w r b out crc_call) as (g & w' & -> & Hi & _); [done..|].
    exists w', []. by rewrite app_nil_r.
  - destruct He as [Hread Hsend]. unfold MHD_connection_handle_write. destruct (state (con w)) eqn:Est; try done.
    + destruct (plain_headers_step w r b out send_cls) as (w' & o & -> & Hi & _); [done..|]. by exists w', o.
    + exists w, []. rewrite app_nil_r. split; [done|]. left. by exists r, b.
    + destruct (plain_body_step w r b out crc_call send_cls) as (w' & o & -> & Hi & _); [done..|]. by exists w', o.
    + exists w, []. rewrite app_nil_r. split; [done|]. left. by exists r, b.
    + unfold owed in Ho. by rewrite Est in Ho.
    + exists w, []. rewrite app_nil_r. split; [done|]. left. by exists r, b.
    + exists w, []. rewrite app_nil_r. split; [done|]. left. by exists r, b.
    + unfold owed in Ho. by rewrite Est in Ho.
  - destruct He as [Hs' Hh']. eexists _, []. split; [done|]. rewrite app_nil_r. left. exists r', b.
    split; [by eapply base_set_resp|]. by split_and!.
Qed.
End Run.

(** ** Theorem *)


(** ** A concrete reply *)

(** A content reader for [body] that delivers at most [n] bytes at a time. *)
Definition demo_reader (body : bytes) (n : nat) (position max : Z) : crc_result :=
  let bs := take (n `min` Z.to_nat max) (drop (Z.to_nat position) body) in
  if decide (position = Z.of_nat (length body)) then End_of_stream else Produced bs.

Lemma demo_reader_reads body n : reads body (demo_reader body n).
Proof.
  intros position max Hp Hm. unfold demo_reader. case_decide; [done|].
  exists (drop (n `min` Z.to_nat max) (drop (Z.to_nat position) body)). rewrite take_drop. split; [done|].
  rewrite length_take. lia.
Qed.

(** A response for [body] with a reader and a buffer of four bytes. *)
Definition demo_response (body : bytes) (headers : list MHD_HTTP_Header) (total : Z) : MHD_Response :=
  mkResponse headers (Some (replicate 4 0)) (Some Application_reader) None false total 0 0 0 4 1 (-1) 0.

(** A connection with [text] in its write buffer, at the front of a pool of
    1024 bytes. *)
Definition demo_sending (r : MHD_Response) (text : bytes) (chunked : bool) : reply :=
  mkReply (mkConn (mkPool (text ++ replicate (1024 - length text) 0) 1024 64 1024 false) None 0 0
             MHD_CONNECTION_HEADERS_SENDING false (Some 200) true (mkUpload chunked 0 0 0)
             (mkRequest (Some (Static (str "GET"))) None (Some (Static (str "HTTP/1.1"))) None None []) [])
    (Some r) 200 MHD_CONN_USE_KEEPALIVE (Some 0) 64 0 (Z.of_nat (length text)) 0 0 false.

Definition demo_config : reply_config := {| suppress_date := true; now := None; allow_upgrade := false |}.

Definition send_two (bs : bytes) : send_result := Sent (2 `min` length bs).

Lemma send_two_ok : send_ok send_two.
Proof. intros bs n E. assert (n = 2 `min` length bs)%nat as -> by (unfold send_two in E; congruence). lia. Qed.

Definition demo_footers : list MHD_HTTP_Header := [mkHeader (Some (str "Checksum")) (Some (str "7")) MHD_FOOTER_KIND].

Lemma demo_footers_ok : Forall entry_string demo_footers.
Proof. apply Forall_singleton. eexists _, _. split; [done|]. split; [done|]. split; literal. Qed.

Lemma demo_base body r text chunked :
  serves (H := LP64) body r -> first_header r = demo_footers -> length text = 4%nat ->
  base (H := LP64) body demo_footers 0 (Static (str "HTTP/1.1")) (str "HTTP/1.1") (demo_sending r text chunked) r.
Proof.
  intros Hs Hh Ht. split; [done|]. split; [done|]. split; [done|].
  split; [cbn [demo_sending response_write_position]; lia|]. split; [done|]. split; [|done].
  split; [|done]. split; [cbn [demo_sending con pool memory size]; rewrite length_app, length_replicate, Ht; done|].
  by split; [|split; [|split]].
Qed.

Lemma demo_serves body total :
  total = Z.of_nat (length body) \/ total = MHD_SIZE_UNKNOWN -> Z.of_nat (length body) < MHD_SIZE_UNKNOWN ->
  serves (H := LP64) body (demo_response body demo_footers total).
Proof.
  intros Ht Hb. split; [|split; [done|split; [done|]]].
  - split; [done|]. split; [split; done|]. split; [cbn; lia|]. exists (replicate 4 0). by split; [|split].
  - split; [done|]. by exists (replicate 4 0).
Qed.

Lemma demo_text_ready r text chunked :
  length text = 4%nat -> text_ready (H := LP64) 0 (demo_sending r text chunked) text.
Proof.
  intros Ht. exists 0. split; [done|]. split; [split; [done|split; [done|split; [done|done]]]|]. split; [done|].
  cbn [demo_sending con pool memory write_buffer_send_offset write_buffer_append_offset]. rewrite Z.sub_0_r, Z.add_0_r.
  apply mem_read_app.
Qed.

(** The idle handler and the socket in turns. *)
Definition demo_events (body : bytes) (n : nat) : list event :=
  concat (replicate n [Idle (demo_reader body 3); Write (demo_reader body 3) send_two]).

