(* ===== verification/ReplyChunked.v ===== *)
(** * A chunked reply is read back as the body it was made from

    The chunks [try_ready_chunked_body] forms, the buffer they are formed in,
    and the theorem on the bytes of a whole chunked reply, stated with the
    encoding that [ChunkedBody] defines and its decoder implements. *)

From S2P Require Import ChunkedBody.
From S2P Require Import Prelude MhdStr MemoryPool ReasonPhrase Headers Connection RequestHead Response Reply ReplyHeader.
From S2P Require Import ReplyBody ReplyStream.

(** ** The size line *)

Lemma print_hex_chunk n :
  0 <= n <= 16777215 ->
  ChunkedBody.size_digits (print_hex n) /\ (length (print_hex n) <= 6)%nat
  /\ value 16 (toxdigitvalue <$> print_hex n) = n.
Proof.
  intros Hn. destruct (print_digits_spec 16 n ltac:(lia) ltac:(lia)) as (Hin & Hne & Hv).
  destruct (map_print toxdigitvalue hex_upper 16 _ toxdigitvalue_print Hin) as [E Hr].
  assert (length (print_hex n) <= 6)%nat as Hl.
  { unfold print_hex. rewrite length_fmap. unfold print_digits.
    etransitivity; [apply (print_loop_length _ 16 n [] 5); [lia|]|cbn [length]; lia]. change (16 ^ Z.of_nat 6) with 16777216. lia. }
  split; [|split; [done|]].
  - split; [done|]. split; [|lia]. unfold print_hex. rewrite length_fmap. destruct (print_digits 16 n); [done|cbn [length]; lia].
  - unfold print_hex. by rewrite E.
Qed.

(** The chunk that carries [bs]. *)
Definition chunk_of (bs : bytes) : ChunkedBody.chunk := ChunkedBody.mkChunk (print_hex (Z.of_nat (length bs))) [] bs.

Lemma chunk_of_ok bs : Z.of_nat (length bs) <= 16777215 -> ChunkedBody.chunk_ok (chunk_of bs).
Proof.
  intros Hl. destruct (print_hex_chunk (Z.of_nat (length bs))) as (H1 & H2 & H3); [lia|].
  split; [done|]. split; [split; [constructor|done]|]. exact H3.
Qed.

Definition chunk_text (bs : bytes) : bytes := print_hex (Z.of_nat (length bs)) ++ crlf ++ bs ++ crlf.

Definition chunks_text (l : list bytes) : bytes := concat (chunk_text <$> l).

Lemma chunks_text_app l1 l2 : chunks_text (l1 ++ l2) = chunks_text l1 ++ chunks_text l2.
Proof. unfold chunks_text. by rewrite fmap_app, concat_app. Qed.

(** The last chunk. *)
Definition end_text : bytes := str "0" ++ crlf.

Definition end_chunk : ChunkedBody.chunk := ChunkedBody.mkChunk (str "0") [] [].

Lemma chunks_text_encoding l trailer :
  chunks_text l ++ end_text ++ trailer = ChunkedBody.encoding (chunk_of <$> l) end_chunk trailer.
Proof.
  unfold ChunkedBody.encoding. rewrite <- list_fmap_compose. change (ChunkedBody.chunk_line end_chunk) with end_text.
  f_equal. unfold chunks_text. f_equal. apply list_fmap_ext. intros i bs _. unfold chunk_text, compose, chunk_of, ChunkedBody.chunk_line.
  cbn [ChunkedBody.digits ChunkedBody.extension ChunkedBody.data app]. by rewrite <- !app_assoc.
Qed.

(** ** The write buffer *)

Section Buffer.
Context `{Platform} (lim : Z).

(** The loop that halves the size ends in time: with a buffer of at least 128
    bytes or without one. *)
Lemma find_write_buffer_ok fuel p n k :
  layout lim p -> 0 <= n < 2 ^ Z.of_nat k -> (k < fuel)%nat -> n <= SIZE_MAX ->
  find_write_buffer fuel p n = Some (None, p)
  \/ ∃ o size p', find_write_buffer fuel p n = Some (Some (o, size), p') /\ layout lim p' /\ front_block lim p' o size
       /\ memory p' = memory p /\ 128 <= size /\ 2 * size <= n.
Proof.
  intros Hl. revert fuel n. induction k as [|k IH]; intros [|fuel] n Hn Hk Hmax; try lia; cbn [find_write_buffer].
  - replace n with 0 by (change (2 ^ Z.of_nat 0) with 1 in Hn; lia). by left.
  - pose proof (Z.div_mod n 2 ltac:(lia)). pose proof (Z.mod_pos_bound n 2 ltac:(lia)).
    destruct (Z.ltb_spec (n / 2) 128); [by left|].
    destruct (MHD_pool_allocate p (n / 2) false) as [[o|] p'] eqn:Ea.
    + apply (allocate_front lim) in Ea as (Hl' & Hf & Em); [|done|lia]. right. exists o, (n / 2), p'. by split_and!; [..|lia].
    + apply allocate_none in Ea as ->; [|by destruct Hl|lia].
      rewrite Nat2Z.inj_succ, Z.pow_succ_r in Hn by lia.
      destruct (IH fuel (n / 2)) as [E|(o & size & p' & E & ?)]; [lia..| |].
      * by left.
      * right. exists o, size, p'. destruct_and?. by split_and!; [..|lia].
Qed.

(** What a chunk is formed in is kept from one call to the next. *)
Definition chunk_buffer_ok (w : reply) : Prop :=
  write_buffer_size w = 0
  \/ ∃ wb, write_buffer w = Some wb /\ front_block lim (pool (con w)) wb (write_buffer_size w)
       /\ 128 <= write_buffer_size w <= 16777227.

(** Nothing but the write buffer and the pool behind the request changes. *)
Definition keeps (w w' : reply) : Prop :=
  resp w' = resp w /\ sendfile w' = sendfile w /\ response_write_position w' = response_write_position w
  /\ req (con w') = req (con w) /\ up (con w') = up (con w) /\ completed (con w') = completed (con w)
  /\ state (con w') = state (con w)
  /\ take (Z.to_nat lim) (memory (pool (con w'))) = take (Z.to_nat lim) (memory (pool (con w)))
  /\ layout lim (pool (con w')).

Lemma chunk_buffer_total notify pool_size w :
  layout lim (pool (con w)) -> chunk_buffer_ok w -> 0 <= pool_size ->
  ∃ ok w1, chunk_buffer notify pool_size w = Some (ok, w1)
    /\ if (ok : bool)
       then keeps w w1 /\ write_buffer_size w1 ≠ 0 /\ chunk_buffer_ok w1
       else ∃ w2, w1 = close_error notify w2 /\ completed (con w2) = completed (con w).
Proof.
  intros Hl Hb Hps. unfold chunk_buffer. destruct (Z.eqb_spec 0 (write_buffer_size w)) as [E0|E0].
  2:{ eexists true, w. split; [done|]. split; [by split_and!|]. split; [lia|done]. }
  set (n := Z.min pool_size (2 * (16777215 + 10 + 2))).
  assert (2 ^ 32 <= SIZE_MAX + 1) as Hsm.
  { unfold SIZE_MAX, SIZE_BITS. destruct sizeof_ptr_ok as [-> | ->]; cbv; congruence. }
  destruct (find_write_buffer_ok 64 (pool (con w)) n 26) as [E|(o & size & p' & E & Hl' & Hf & Em & Hs)];
    [done|split; [lia|]; change (2 ^ Z.of_nat 26) with 67108864; lia|lia|lia| |]; rewrite E; cbn [mbind option_bind].
  - eexists false, _. split; [done|]. eexists. split; [done|done].
  - eexists true, _. split; [done|]. cbn [con set_write set_con pool set_pool]. split; [|split].
    + split_and!; try done. cbn [con set_write set_con pool set_pool]. by rewrite Em.
    + cbn [write_buffer_size set_write]. lia.
    + right. exists o. split; [done|]. split; [done|]. cbn [write_buffer_size set_write]. lia.
Qed.

(** The three writes that form a chunk. *)
Lemma chunk_in_place (pre a c x y z post bs cbuf : bytes) wb :
  wb = Z.of_nat (length pre) -> length (a ++ c) = 10%nat -> length c = length cbuf -> length x = length bs -> length y = 2%nat ->
  let m := pre ++ (a ++ c) ++ x ++ y ++ z ++ post in
  mem_write m (wb + 10) bs = Some (pre ++ (a ++ c) ++ bs ++ y ++ z ++ post)
  /\ mem_write (pre ++ (a ++ c) ++ bs ++ y ++ z ++ post) (wb + 10 - Z.of_nat (length cbuf)) cbuf
     = Some (pre ++ (a ++ cbuf) ++ bs ++ y ++ z ++ post)
  /\ mem_write (pre ++ (a ++ cbuf) ++ bs ++ y ++ z ++ post) (wb + 10 + Z.of_nat (length bs)) crlf
     = Some (pre ++ (a ++ cbuf) ++ bs ++ crlf ++ z ++ post)
  /\ mem_read (pre ++ (a ++ cbuf) ++ bs ++ crlf ++ z ++ post) (wb + (10 - Z.of_nat (length cbuf)))
       (10 + Z.of_nat (length bs) + 2 - (10 - Z.of_nat (length cbuf))) = Some (cbuf ++ bs ++ crlf).
Proof.
  intros -> Hac Hc Hx Hy m. rewrite length_app in Hac. split; [|split; [|split]].
  - unfold m. rewrite !(app_assoc pre). apply mem_write_mid; [rewrite !length_app; lia|done].
  - replace (pre ++ (a ++ c) ++ bs ++ y ++ z ++ post) with ((pre ++ a) ++ c ++ (bs ++ y ++ z ++ post)) by (by rewrite <- !app_assoc).
    rewrite (mem_write_mid (pre ++ a)) by (rewrite ?length_app; lia). by rewrite <- !app_assoc.
  - replace (pre ++ (a ++ cbuf) ++ bs ++ y ++ z ++ post) with ((pre ++ a ++ cbuf ++ bs) ++ y ++ (z ++ post)) by (by rewrite <- !app_assoc).
    rewrite (mem_write_mid (pre ++ a ++ cbuf ++ bs)) by (rewrite ?length_app; cbn [crlf length]; lia). by rewrite <- !app_assoc.
  - replace (pre ++ (a ++ cbuf) ++ bs ++ crlf ++ z ++ post) with ((pre ++ a) ++ (cbuf ++ bs ++ crlf) ++ (z ++ post)) by (by rewrite <- !app_assoc).
    unfold mem_read. rewrite (proj2 (in_object_true _ _ _)) by (rewrite !length_app; cbn [crlf length]; lia).
    rewrite drop_app_length' by (rewrite length_app; lia).
    rewrite take_app_length' by (rewrite !length_app; cbn [crlf length]; lia). done.
Qed.

Lemma cut_block (m : bytes) wb k n :
  0 <= wb -> (k <= 10)%nat -> wb + 12 + Z.of_nat n <= Z.of_nat (length m) ->
  ∃ pre a c x y z, m = pre ++ (a ++ c) ++ x ++ y ++ z ++ [] /\ wb = Z.of_nat (length pre)
    /\ length (a ++ c) = 10%nat /\ length c = k /\ length x = n /\ length y = 2%nat.
Proof.
  intros Hwb Hk Hm. set (w := Z.to_nat wb).
  exists (take w m), (take (10 - k) (drop w m)), (take k (drop (10 - k) (drop w m))), (take n (drop 10 (drop w m))),
    (take 2 (drop n (drop 10 (drop w m)))), (drop 2 (drop n (drop 10 (drop w m)))).
  rewrite app_nil_r, take_drop, take_drop.
  assert (take (10 - k) (drop w m) ++ take k (drop (10 - k) (drop w m)) = take 10 (drop w m)) as ->.
  { rewrite take_take_drop. f_equal. lia. }
  rewrite take_drop, take_drop. repeat (rewrite ?length_take, ?length_drop). split; [done|]. lia.
Qed.

(** A write behind [lim]. *)
Lemma write_behind (m m' bs : bytes) off :
  mem_write m off bs = Some m' -> lim <= off ->
  length m' = length m /\ take (Z.to_nat lim) m' = take (Z.to_nat lim) m.
Proof.
  unfold mem_write. destruct (in_object _ _ _) eqn:Ei; [|done]. apply in_object_true in Ei. intros [= <-] Hl.
  split; [rewrite !length_app, length_take, length_drop; lia|].
  rewrite take_app_le by (rewrite length_take; lia). rewrite take_take. f_equal. lia.
Qed.
End Buffer.

(** ** Producing a chunk *)

Section Chunked.
Context `{Platform} (notify : bool) (cfg : reply_config) (pool_size : Z).
Context (handler : reply -> option reply) (upgrade : reply -> option (bool * reply)).
Context (sendfile_adapter : Z -> send_result * bytes).
Context (body : bytes) (hs : list MHD_HTTP_Header) (lim : Z) (pv : char_ptr) (v : bytes).
Context (Hhs : Forall entry_string hs) (Hv : v ≠ []).
Context (Hsize : Z.of_nat (length (sent_lines no_plan MHD_FOOTER_KIND hs)) + 385 <= SIZE_MAX).
Context (Hps : 0 <= pool_size).

Abbreviation base := (base body hs lim pv v).

Lemma base_keeps w w' r : base w r -> keeps lim w w' -> base w' r.
Proof.
  intros (H1 & H2 & H3 & H4 & H5 & H6 & H7 & H8) (K1 & K2 & K3 & K4 & K5 & K6 & K7 & K8 & K9).
  unfold ReplyStream.base. rewrite K1, K2, K3, K4, K8. do 7 (split; [done|]). done.
Qed.

(** Bytes of the body for the next chunk, behind the place for its size. *)
Lemma chunk_data_total w r wb crc_call :
  base w r -> crc r ≠ None -> total_size r = MHD_SIZE_UNKNOWN -> reads body crc_call ->
  front_block lim (pool (con w)) wb (write_buffer_size w) -> 128 <= write_buffer_size w <= 16777227 ->
  match chunk_data w r wb crc_call with
  | Some (Produced bs, m) =>
      (∃ rest, drop (Z.to_nat (response_write_position w)) body = bs ++ rest)
      /\ Z.of_nat (length bs) <= write_buffer_size w - 12
      /\ mem_write (memory (pool (con w))) (wb + 10) bs = Some m
  | Some (End_of_stream, m) => m = memory (pool (con w)) /\ response_write_position w = Z.of_nat (length body)
  | Some (End_with_error, m) => True
  | None => False
  end.
Proof.
  intros (Hr & Hs & Hh & Hp & Hsf & [Hpool Hlim] & _) Hcrc Htot Hread (Ha & Hlo & _ & Hend) Hsz.
  pose proof Hpool as (Hlen & Hpos & He & Hss & _). unfold chunk_data. rewrite Htot. cbn [Z.eqb].
  replace (usize (write_buffer_size w - 10 - 2)) with (write_buffer_size w - 12) by (rewrite usize_small; lia).
  pose proof Hs as (Hw & _ & Hbig & _). pose proof Hw as (W1 & W2 & W3 & _). rewrite u64_small by lia.
  destruct (_ && _) eqn:Ew.
  - apply andb_true_iff in Ew as [E1%Z.leb_le E2%Z.ltb_lt].
    destruct (window_read body r (response_write_position w) Hw ltac:(lia)) as (d & -> & Erd). cbn [mbind option_bind].
    set (n := Z.min (data_size r - (response_write_position w - data_start r)) (write_buffer_size w - 12)).
    assert (mem_read d (response_write_position w - data_start r) n
      = Some (take (Z.to_nat n) (drop (Z.to_nat (response_write_position w)) body))) as ->.
    { unfold mem_read in *. destruct (in_object _ _ _) eqn:Ei in Erd; [|done]. apply in_object_true in Ei.
      rewrite (proj2 (in_object_true _ _ _)) by lia. f_equal. injection Erd as Erd.
      apply (f_equal (take (Z.to_nat n))) in Erd. rewrite !take_take in Erd.
      by rewrite !Nat.min_l in Erd by lia. }
    cbn [mbind option_bind]. assert (0 <= n <= write_buffer_size w - 12) as Hn by (unfold n; lia). set (bs := take _ _). assert (Z.of_nat (length bs) <= n) as Hl by (unfold bs; rewrite length_take; lia).
    destruct (mem_write_Some (memory (pool (con w))) (wb + 10) bs) as (m' & Ewr & _); [lia|lia|]. rewrite Ewr. cbn [mbind option_bind].
    split; [|split; [lia|done]]. exists (drop (Z.to_nat n) (drop (Z.to_nat (response_write_position w)) body)).
    unfold bs. by rewrite take_drop.
  - specialize (Hread (response_write_position w) (write_buffer_size w - 12) Hp ltac:(lia)).
    destruct (crc_call _ _) as [bs| |]; [|by split|done]. destruct Hread as (rest & E & Hl).
    destruct (mem_write_Some (memory (pool (con w))) (wb + 10) bs) as (m' & Ewr & _); [lia|lia|]. rewrite Ewr. cbn [mbind option_bind].
    split; [by exists rest|]. split; [done|]. done.
Qed.

Definition same_state (w w' : reply) : Prop :=
  state (con w') = state (con w) /\ up (con w') = up (con w) /\ completed (con w') = completed (con w).

Inductive chunk_outcome (w : reply) (r : MHD_Response) : bool -> reply -> Prop :=
| chunk_formed bs w' :
    bs ≠ [] -> (∃ rest, drop (Z.to_nat (response_write_position w)) body = bs ++ rest) -> Z.of_nat (length bs) <= 16777215 ->
    base w' r -> response_write_position w' = response_write_position w + Z.of_nat (length bs) ->
    text_ready lim w' (chunk_text bs) -> same_state w w' -> chunk_outcome w r true w'
| chunk_ended w' :
    response_write_position w = Z.of_nat (length body) -> base w' (set_total r (response_write_position w)) ->
    response_write_position w' = response_write_position w ->
    text_ready lim w' end_text -> same_state w w' -> chunk_outcome w r true w'
| chunk_later w' :
    base w' r -> response_write_position w' = response_write_position w -> chunk_buffer_ok lim w' ->
    state (con w') = MHD_CONNECTION_CHUNKED_BODY_UNREADY -> up (con w') = up (con w) ->
    completed (con w') = completed (con w) -> chunk_outcome w r false w'
| chunk_failed w2 : completed (con w2) = completed (con w) -> chunk_outcome w r false (close_error notify w2).

Lemma serves_ended r : serves body r -> crc r ≠ None -> serves body (set_total r (Z.of_nat (length body))).
Proof.
  intros (H1 & H2 & H3 & H4) Hc. split; [done|]. split; [done|]. split; [done|]. cbn [crc set_total].
  destruct (crc r); [|done]. destruct H4 as [_ H4]. split; [by left|done].
Qed.

(** Writing behind [lim] into the write buffer. *)
Lemma base_with_mem w r m :
  base w r -> length m = length (memory (pool (con w))) ->
  take (Z.to_nat lim) m = take (Z.to_nat lim) (memory (pool (con w))) -> base (with_mem w m) r.
Proof.
  intros (H1 & H2 & H3 & H4 & H5 & [[Hl H6] Hlim] & H7 & H8) Hm Ht.
  do 5 (split; [done|]). split; [|split; [done|]].
  - split; [|done]. split; [|done]. cbn [con with_mem set_con pool set_pool memory with_memory size]. by rewrite Hm.
  - change (chars (take (Z.to_nat lim) m) pv = Some v). by rewrite Ht.
Qed.

Lemma try_ready_chunked_ok w r crc_call :
  base w r -> crc r ≠ None -> total_size r = MHD_SIZE_UNKNOWN -> chunk_buffer_ok lim w -> reads body crc_call ->
  ∃ ready w', try_ready_chunked_body notify pool_size w crc_call = Some (ready, w') /\ chunk_outcome w r ready w'.
Proof using Hps Hsize.
  intros Hb Hcrc Htot Hbuf Hread. pose proof Hb as (Hr & Hs & Hh & Hp & Hsf & Hl & _).
  unfold try_ready_chunked_body. rewrite Hr. cbn [mbind option_bind]. destruct (crc r) as [rd|] eqn:Ecrc; [|done]. clear Hcrc.
  destruct (chunk_buffer_total lim notify pool_size w Hl Hbuf Hps) as (ok & w1 & -> & Hok). cbn [mbind option_bind].
  destruct ok; cbn [negb].
  2:{ destruct Hok as (w2 & -> & Hc). eexists _, _. split; [done|]. by apply chunk_failed. }
  destruct Hok as (Hk & Hne & [?|(wb & Ewb & Hf & Hsz)]); [done|]. rewrite Ewb. cbn [mbind option_bind].
  pose proof (base_keeps _ _ _ Hb Hk) as Hb1. destruct Hk as (K1 & K2 & K3 & K4 & K5 & K6 & K7 & K8 & K9).
  pose proof (chunk_data_total w1 r wb crc_call Hb1 ltac:(by rewrite Ecrc) Htot Hread Hf Hsz) as Hd.
  destruct (chunk_data w1 r wb crc_call) as [[[bs| |] m]|]; [..|done]; cbn [mbind option_bind orb].
  - destruct Hd as (Hrest & Hlen & Ew). rewrite Htot. cbn [Z.eqb].
    destruct (write_behind lim _ _ _ _ Ew ltac:(destruct Hf; lia)) as [Hml Hmt].
    pose proof (base_with_mem _ _ _ Hb1 Hml Hmt) as Hb2. case_bool_decide as Ebs.
    { eexists _, _. split; [done|]. apply chunk_later; try done. right. by exists wb. }
    rewrite Z.min_l by lia. rewrite (wrap_small 32) by lia.
    set (cbuf := print_hex (Z.of_nat (length bs)) ++ crlf).
    destruct (print_hex_chunk (Z.of_nat (length bs))) as (_ & Hhex & _); [lia|].
    assert (length cbuf <= 8)%nat as Hcb by (unfold cbuf; rewrite length_app; cbn [crlf length]; lia).
    assert (snprintf_text 10 cbuf = cbuf) as -> by (unfold snprintf_text; apply take_ge; lia).
    pose proof Hl as [[Hpl _] _]. destruct Hf as (Ha & Hlo & Hsz0 & Hend). destruct K9 as [(Hlen1 & Hpos1 & Hend1 & _) Hlim1].
    destruct (cut_block (memory (pool (con w1))) wb (length cbuf) (length bs)) as (pre & a & c & x & y & z & Em & -> & Hac & Hc & Hx & Hy);
      [lia|lia|lia|].
    destruct (chunk_in_place pre a c x y z [] bs cbuf _ eq_refl Hac Hc Hx Hy) as (F1 & F2 & F3 & F4).
    rewrite Em, F1 in Ew. injection Ew as <-. rewrite F2. cbn [mbind option_bind]. rewrite F3. cbn [mbind option_bind].
    set (m3 := pre ++ (a ++ cbuf) ++ bs ++ crlf ++ z ++ []) in *.
    eexists _, _. split; [done|]. cbn [set_position with_mem set_con response_write_position]. rewrite K3.
    assert (response_write_position w + Z.of_nat (length bs) <= Z.of_nat (length body)) as Hpb.
    { destruct Hrest as [rest E]. apply (f_equal length) in E. rewrite K3, length_drop, length_app in E. lia. }
    pose proof Hs as (_ & _ & Hbig & _). rewrite u64_small by lia.
    assert (length m3 = length (memory (pool (con w1))) /\ take (Z.to_nat lim) m3 = take (Z.to_nat lim) (memory (pool (con w1)))) as [H3l H3t].
    { split; [rewrite Em; unfold m3; rewrite !length_app; cbn [crlf length]; rewrite !length_app in Hac; lia|].
      rewrite Em. unfold m3. rewrite !take_app_le by lia. done. }
    pose proof (base_with_mem _ _ _ Hb1 H3l H3t) as Hb3. apply (chunk_formed _ _ bs); try done.
    + by rewrite <- K3.
    + lia.
    + destruct Hb3 as (B1 & B2 & B3 & B4 & B5 & B6). do 3 (split; [done|]). split; [cbn; lia|]. by split.
    + eexists. split; [done|]. split; [done|]. cbn [write_buffer_send_offset set_write]. split; [lia|].
      change (mem_read m3 (Z.of_nat (length pre) + (10 - Z.of_nat (length cbuf)))
        (10 + Z.of_nat (length bs) + 2 - (10 - Z.of_nat (length cbuf))) = Some (chunk_text bs)).
      rewrite F4. unfold chunk_text, cbuf. by rewrite <- app_assoc.
  - destruct Hd as [-> Hend]. rewrite K3 in Hend.
    destruct Hf as (Ha & Hlo & Hsz0 & Hfe). destruct K9 as [(Hlen1 & Hpos1 & Hend1 & _) Hlim1].
    destruct (mem_write_Some (memory (pool (con w1))) wb (str "0" ++ crlf)) as (m2 & Ew & _); [lia|cbn; lia|].
    destruct (write_behind lim _ _ _ _ Ew Hlo) as [Hml Hmt]. rewrite Ew. cbn [mbind option_bind].
    eexists _, _. split; [done|].
    cbn [with_mem set_con response_write_position]. rewrite K3, Hend.
    pose proof (base_with_mem _ _ _ Hb1 Hml Hmt) as Hb2. apply chunk_ended; [done| |done| |done].
    + rewrite Hend. destruct Hb2 as (B1 & B2 & B3 & B4). split; [done|]. split; [|by split].
      apply serves_ended; [done|by rewrite Ecrc].
    + exists wb. split; [done|]. split; [done|]. split; [done|].
      change (mem_read m2 (wb + 0) (3 - 0) = Some end_text). rewrite Z.add_0_r. exact (mem_write_read _ _ _ _ Ew).
  - eexists _, _. split; [done|]. apply chunk_failed. exact K6.
Qed.

(** ** A chunked reply *)

Context (done0 : list termination) (text : bytes).

(** The chunks sent so far carry the body up to the current position. *)
Definition chunks_ok (w : reply) (l : list bytes) : Prop :=
  Forall (λ bs, bs ≠ [] /\ Z.of_nat (length bs) <= 16777215) l
  /\ concat l = take (Z.to_nat (response_write_position w)) body.

(** Everything a complete reply of these chunks consists of. *)
Definition whole_reply (l : list bytes) : bytes := text ++ chunks_text l ++ end_text ++ footer_text hs.

Definition ended (w : reply) (r : MHD_Response) : Prop :=
  response_write_position w = Z.of_nat (length body) /\ total_size r = Z.of_nat (length body).

(** What was sent and what is in the write buffer, by state. *)
Definition chunk_progress (w : reply) (r : MHD_Response) (l : list bytes) (out : bytes) : Prop :=
  match state (con w) with
  | MHD_CONNECTION_HEADERS_SENDING =>
      total_size r = MHD_SIZE_UNKNOWN /\ l = [] /\ ∃ bs, text_ready lim w bs /\ out ++ bs = text
  | MHD_CONNECTION_HEADERS_SENT =>
      total_size r = MHD_SIZE_UNKNOWN /\ write_buffer_size w = 0 /\ out = text ++ chunks_text l
  | MHD_CONNECTION_CHUNKED_BODY_UNREADY =>
      total_size r = MHD_SIZE_UNKNOWN /\ chunk_buffer_ok lim w /\ out = text ++ chunks_text l
  | MHD_CONNECTION_CHUNKED_BODY_READY =>
      ∃ bs, text_ready lim w bs
        /\ (total_size r = MHD_SIZE_UNKNOWN /\ out ++ bs = text ++ chunks_text l
            \/ ended w r /\ out ++ bs = text ++ chunks_text l ++ end_text)
  | MHD_CONNECTION_BODY_SENT => ended w r /\ out = text ++ chunks_text l ++ end_text
  | MHD_CONNECTION_FOOTERS_SENDING => ended w r /\ ∃ bs, text_ready lim w bs /\ out ++ bs = whole_reply l
  | MHD_CONNECTION_FOOTERS_SENT => ended w r /\ out = whole_reply l
  | _ => False
  end.

(** A reply that was broken off is a beginning of a complete one, and not a
    complete one of fewer bytes. *)
Definition broken_off (w : reply) (out : bytes) : Prop :=
  state (con w) = MHD_CONNECTION_CLOSED
  /\ ∃ l b k, out ++ b = whole_reply l /\ Forall (λ bs, bs ≠ [] /\ Z.of_nat (length bs) <= 16777215) l
       /\ concat l = take k body /\ (b = [] -> concat l = body).

Definition chunked_inv (w : reply) (out : bytes) : Prop :=
  (∃ r l, base w r /\ crc r ≠ None /\ have_chunked_upload (up (con w)) = true /\ completed (con w) = done0
     /\ chunks_ok w l /\ chunk_progress w r l out)
  \/ broken_off w out.

Definition chunked_event_ok (e : event) : Prop :=
  match e with
  | Idle crc_call => reads body crc_call
  | Write crc_call send_cls => reads body crc_call /\ send_ok send_cls
  | Other _ => False
  end.

Lemma broken_error w l out b :
  chunks_ok w l -> out ++ b = whole_reply l -> (b = [] -> response_write_position w = Z.of_nat (length body)) ->
  forall w', completed (con w') = completed (con w) -> broken_off (close_error notify w') out.
Proof.
  intros [Hl Hc] Hw Hb w' _. destruct (reply_close_completed notify w' MHD_REQUEST_TERMINATED_WITH_ERROR) as [E _].
  split; [exact E|]. exists l, b, (Z.to_nat (response_write_position w)). split; [done|]. split; [done|]. split; [done|].
  intros Hnil. rewrite Hc, (Hb Hnil). apply take_ge. lia.
Qed.

Lemma chunks_ok_add w w' l bs rest :
  chunks_ok w l -> bs ≠ [] -> Z.of_nat (length bs) <= 16777215 -> 0 <= response_write_position w <= Z.of_nat (length body) ->
  drop (Z.to_nat (response_write_position w)) body = bs ++ rest ->
  response_write_position w' = response_write_position w + Z.of_nat (length bs) -> chunks_ok w' (l ++ [bs]).
Proof.
  intros [Hl Hc] Hne Hbs Hp E Hw'. split.
  - apply Forall_app. split; [done|]. by apply Forall_singleton.
  - rewrite concat_app. cbn [concat]. rewrite app_nil_r, Hc, Hw', Z2Nat.inj_add, Nat2Z.id by lia.
    rewrite <- take_take_drop, E. by rewrite take_app_length.
Qed.

Lemma whole_split l : whole_reply l = (text ++ chunks_text l) ++ (end_text ++ footer_text hs).
Proof. unfold whole_reply. by rewrite <- !app_assoc. Qed.

Lemma end_not_empty (b : bytes) : b ++ end_text ++ footer_text hs ≠ [].
Proof. by destruct b. Qed.

(** Sending from the write buffer, as the invariant sees it. *)
Lemma send_progress w r bs next send_cls :
  base w r -> text_ready lim w bs -> send_ok send_cls ->
  ∃ w' o, send_write_buffer notify w send_cls next = Some (w', o)
    /\ ((∃ bs', o ++ bs' = bs /\ text_ready lim w' bs' /\ base w' r /\ same_state w w'
            /\ response_write_position w' = response_write_position w)
        \/ (w' = close_error notify w /\ o = [])
        \/ (o = bs /\ base w' r /\ state (con w') = next /\ write_buffer_size w' = 0 /\ up (con w') = up (con w)
             /\ completed (con w') = completed (con w) /\ response_write_position w' = response_write_position w)).
Proof.
  intros Hb Ht Hsend. pose proof Hb as (_ & _ & _ & _ & _ & Hl & _).
  destruct (send_write_buffer_ok notify lim next w bs send_cls Hl Ht Hsend) as (w' & o & E & Hout).
  exists w', o. split; [done|]. destruct Hout as [| |n send w' Ht'|p Hp Htk].
  - left. by exists bs.
  - right; by left.
  - left. exists (drop n bs). by rewrite take_drop.
  - right; right. split; [done|]. split; [by apply base_all_sent|]. by split_and!.
Qed.

Ltac keep_inv r l := left; exists r, l; do 5 (split; [done|]); unfold chunk_progress.

Lemma chunked_idle_step w r l out crc_call :
  base w r -> crc r ≠ None -> have_chunked_upload (up (con w)) = true -> completed (con w) = done0 ->
  chunks_ok w l -> chunk_progress w r l out -> reads body crc_call -> sending (state (con w)) = true ->
  ∃ go_on w', reply_step notify cfg pool_size handler upgrade crc_call w = Some (go_on, w') /\ chunked_inv w' out.
Proof using Hhs Hv Hsize Hps.
  intros Hb Hcrc Hch Hd Hl Hprog Hread Hs. pose proof Hb as (Hr & Hsv & Hh & Hp & Hrest). pose proof Hsv as (_ & Hup & Hbig & _).
  assert (chunked_inv w out) as Hinv by (left; by exists r, l).
  unfold reply_step. unfold chunk_progress in Hprog. destruct (state (con w)) eqn:Est; try done.
  - by eexists _, _.
  - unfold idle_headers_sent. rewrite Hr. cbn [mbind option_bind]. rewrite Hup, Hch. eexists _, _. split; [done|].
    destruct Hprog as (Ht & Hsz & ->). keep_inv r l. cbn [set_reply_state con set_con state set_state]. by split; [|split; [left|]].
  - by eexists _, _.
  - destruct Hprog as (Htot & Hbuf & ->). unfold idle_chunked_body_unready. rewrite Hr. cbn [mbind option_bind].
    rewrite Htot. destruct (Z.eqb_spec (response_write_position w) MHD_SIZE_UNKNOWN); [lia|]. cbn [Z.eqb orb].
    destruct (try_ready_chunked_ok w r crc_call Hb Hcrc Htot Hbuf Hread) as (ready & w' & -> & Hout). cbn [mbind option_bind].
    destruct Hout as [bs w' Hne (rest & E) Hbs Hb' Hpos Ht' (S1 & S2 & S3)|w' Hend Hb' Hpos Ht' (S1 & S2 & S3)|w' Hb' Hpos Hbuf' S1 S2 S3|w2 Hc2];
      eexists _, _; (split; [done|]).
    + left. exists r, (l ++ [bs]). split; [done|]. split; [done|]. cbn [set_reply_state con set_con set_state up completed].
      rewrite S2, S3. do 2 (split; [done|]). split; [by eapply chunks_ok_add|].
      exists (chunk_text bs). split; [done|]. left. split; [done|]. rewrite chunks_text_app, <- app_assoc.
      unfold chunks_text at 3. cbn. by rewrite app_nil_r.
    + left. exists (set_total r (response_write_position w)), l. split; [done|]. split; [done|].
      cbn [set_reply_state con set_con set_state up completed]. rewrite S2, S3. do 2 (split; [done|]).
      split; [by unfold chunks_ok; cbn; rewrite Hpos|]. exists end_text. split; [done|]. right. split; [|by rewrite <- app_assoc].
      split; [cbn; congruence|exact Hend].
    + left. exists r, l. rewrite S2, S3. do 4 (split; [done|]). split; [unfold chunks_ok; by rewrite Hpos|].
      unfold chunk_progress. rewrite S1. done.
    + right. eapply (broken_error w l _ (end_text ++ footer_text hs)); [done|by rewrite whole_split|by intros ?%(end_not_empty [])|done].
  - destruct Hprog as (Hend & ->). unfold idle_body_sent.
    destruct (footers_built cfg body hs lim pv v Hhs Hv Hsize w r Hb Est) as (p & [E|(data & size & E & Hb' & Ht)]); rewrite E;
      cbn [mbind option_bind negb]; eexists _, _; (split; [done|]).
    + right. eapply (broken_error w l _ (footer_text hs)); [done|unfold whole_reply; by rewrite <- !app_assoc|by destruct Hend|done].
    + cbn [con set_write set_con up set_pool]. rewrite Hch. cbn [negb orb write_buffer_send_offset write_buffer_append_offset set_write].
      destruct (Z.eqb_spec 0 (Z.of_nat (length (footer_text hs)))) as [E0|_].
      { unfold footer_text in E0. rewrite length_app in E0. cbn [crlf length] in E0. lia. }
      keep_inv r l. cbn [set_reply_state con set_con set_state state set_write]. split; [done|].
      exists (footer_text hs). split; [done|]. unfold whole_reply. by rewrite <- !app_assoc.
  - by eexists _, _.
Qed.

(** One send in a state that sends the write buffer: what is still to be sent
    shrinks, or the next state has it empty. *)
Lemma chunked_send_step w r l out bs next X rest send_cls :
  base w r -> crc r ≠ None -> have_chunked_upload (up (con w)) = true -> completed (con w) = done0 ->
  chunks_ok w l -> text_ready lim w bs -> send_ok send_cls -> out ++ bs = X -> X ++ rest = whole_reply l ->
  (rest = [] -> response_write_position w = Z.of_nat (length body)) ->
  (forall w' out' bs', same_state w w' -> text_ready lim w' bs' -> response_write_position w' = response_write_position w ->
     out' ++ bs' = X -> chunk_progress w' r l out') ->
  (forall w', state (con w') = next -> write_buffer_size w' = 0 -> response_write_position w' = response_write_position w ->
     chunk_progress w' r l X) ->
  ∃ w' o, send_write_buffer notify w send_cls next = Some (w', o) /\ chunked_inv w' (out ++ o).
Proof.
  intros Hb Hcrc Hch Hd Hl Ht Hsend Eo Hw Hrest Hsame Hnext.
  destruct (send_progress w r bs next send_cls Hb Ht Hsend) as (w' & o & E & Hcase). exists w', o. split; [exact E|]. clear E.
  destruct Hcase as [(bs' & Ebs & Ht' & Hb' & Hss & Hpos)|[(-> & ->)|(-> & Hb' & Hst' & Hsz & Hup' & Hc' & Hpos)]].
  - left. exists r, l. pose proof Hss as (S1 & S2 & S3). rewrite S2, S3. do 4 (split; [done|]).
    split; [unfold chunks_ok; by rewrite Hpos|]. apply (Hsame w' (out ++ o) bs'); try done.
    by rewrite <- app_assoc, Ebs.
  - right. rewrite app_nil_r. apply (broken_error w l out (bs ++ rest)); [done|by rewrite app_assoc, Eo| |done].
    intros En. apply Hrest. by destruct bs.
  - left. exists r, l. rewrite Hup', Hc'. do 4 (split; [done|]). split; [unfold chunks_ok; by rewrite Hpos|].
    rewrite Eo. by apply Hnext.
Qed.

Lemma chunked_write_step w r l out crc_call send_cls :
  base w r -> crc r ≠ None -> have_chunked_upload (up (con w)) = true -> completed (con w) = done0 ->
  chunks_ok w l -> chunk_progress w r l out -> send_ok send_cls -> sending (state (con w)) = true ->
  ∃ w' o, MHD_connection_handle_write notify false w crc_call send_cls sendfile_adapter = Some (w', o)
    /\ chunked_inv w' (out ++ o).
Proof.
  intros Hb Hcrc Hch Hd Hl Hprog Hsend Hs. pose proof Hb as (Hr & Hsv & _ & Hp & _). pose proof Hsv as (_ & _ & Hbig & _).
  assert (∃ w' o, Some (w, []) = Some (w', o) /\ chunked_inv w' (out ++ o)) as Hstay.
  { eexists w, []. split; [done|]. rewrite app_nil_r. left. by exists r, l. }
  unfold MHD_connection_handle_write. pose proof Hprog as Hprog'. unfold chunk_progress in Hprog.
  destruct (state (con w)) eqn:Est; try done.
  - destruct Hprog as (Htot & -> & bs & Ht & Eo).
    eapply (chunked_send_step w r [] out bs _ text (end_text ++ footer_text hs)); try done.
    + intros w' out' bs' (S1 & _) Ht' _ E. unfold chunk_progress. rewrite S1, Est. split; [done|]. split; [done|]. by exists bs'.
    + intros w' S1 Hsz _. unfold chunk_progress. rewrite S1. by rewrite app_nil_r.
  - rewrite Hr. cbn [mbind option_bind]. destruct Hprog as (bs & Ht & [(Htot & Eo)|(Hend & Eo)]).
    + rewrite Htot. destruct (Z.eqb_spec MHD_SIZE_UNKNOWN (response_write_position w)); [lia|].
      eapply (chunked_send_step w r l out bs _ (text ++ chunks_text l) (end_text ++ footer_text hs)); try done.
      * by rewrite whole_split.
      * intros w' out' bs' (S1 & _) Ht' _ E. unfold chunk_progress. rewrite S1, Est. exists bs'. split; [done|]. by left.
      * intros w' S1 Hsz _. unfold chunk_progress. rewrite S1. split; [done|]. split; [by left|done].
    + destruct Hend as [Hpos Htot]. rewrite Htot, Hpos, Z.eqb_refl.
      eapply (chunked_send_step w r l out bs _ (text ++ chunks_text l ++ end_text) (footer_text hs)); try done.
      * unfold whole_reply. by rewrite <- !app_assoc.
      * intros w' out' bs' (S1 & _) Ht' Hp' E. unfold chunk_progress. rewrite S1, Est. exists bs'. split; [done|]. right.
        split; [|done]. unfold ended. by rewrite Hp'.
      * intros w' S1 Hsz Hp'. unfold chunk_progress. rewrite S1. split; [|done]. unfold ended. by rewrite Hp'.
  - destruct Hprog as (Hend & bs & Ht & Eo). pose proof Hend as [Hpos Htot].
    eapply (chunked_send_step w r l out bs _ (whole_reply l) []); try done.
    + by rewrite app_nil_r.
    + intros w' out' bs' (S1 & _) Ht' Hp' E. unfold chunk_progress. rewrite S1, Est. split; [unfold ended; by rewrite Hp'|]. by exists bs'.
    + intros w' S1 Hsz Hp'. unfold chunk_progress. rewrite S1. split; [|done]. unfold ended. by rewrite Hp'.
Qed.

Lemma chunked_step e w out :
  chunked_event_ok e -> chunked_inv w out -> sending (state (con w)) = true ->
  ∃ w' o, apply_event notify cfg pool_size handler upgrade sendfile_adapter e w = Some (w', o) /\ chunked_inv w' (out ++ o).
Proof using Hhs Hv Hsize Hps.
  intros He [(r & l & Hb & Hcrc & Hch & Hd & Hl & Hprog)|[Hc _]] Hs; [|by rewrite Hc in Hs].
  destruct e as [crc_call|crc_call send_cls|r']; cbn [apply_event chunked_event_ok] in *; [| |done].
  - destruct (chunked_idle_step w r l out crc_call) as (g & w' & -> & Hi); [done..|].
    exists w', []. by rewrite app_nil_r.
  - destruct He as [_ Hsend]. by apply (chunked_write_step w r l).
Qed.
End Chunked.

(** ** Theorem *)

(** C8: A chunked reply is one that the decoder reads back as the body: from
    the state in which its header is in the write buffer, whatever parts the
    socket takes and whatever pieces the content reader delivers, every step
    is defined, and when the reply ends, what was sent is the header followed
    by an encoding, in the sense of the specification that the chunked
    decoder of requests implements, of chunks that are not empty and whose
    data is exactly the body, with the footers behind the end line.  A reply
    that is broken off is a beginning of such a stream, and it is never one
    that looks complete with a part of the body.  No other connection uses the
    response at the same time: [shared_response_loses_the_end_line]. *)
Theorem chunked_reply_decodes `{Platform} notify cfg pool_size handler upgrade sendfile_adapter
    body hs lim pv v text (w : reply) r es :
  Forall entry_string hs -> v ≠ [] -> Z.of_nat (length (sent_lines no_plan MHD_FOOTER_KIND hs)) + 385 <= SIZE_MAX ->
  0 <= pool_size -> base body hs lim pv v w r -> crc r ≠ None -> total_size r = MHD_SIZE_UNKNOWN ->
  response_write_position w = 0 -> have_chunked_upload (up (con w)) = true ->
  state (con w) = MHD_CONNECTION_HEADERS_SENDING -> text_ready lim w text -> Forall (chunked_event_ok body) es ->
  ∃ w' out rest cs,
    run notify cfg pool_size handler upgrade sendfile_adapter es w = Some (w', out)
    /\ (sending (state (con w')) = false ->
        out ++ rest = text ++ ChunkedBody.encoding cs end_chunk (footer_text hs)
        /\ Forall (λ ch, ChunkedBody.chunk_ok ch /\ ChunkedBody.data ch ≠ []) cs /\ ChunkedBody.chunk_ok end_chunk
        /\ (∃ k, ChunkedBody.body_of cs = take k body) /\ (rest = [] -> ChunkedBody.body_of cs = body))
    /\ (state (con w') = MHD_CONNECTION_FOOTERS_SENT -> rest = [])
    /\ (sending (state (con w')) || bool_decide (state (con w') = MHD_CONNECTION_FOOTERS_SENT)
        || bool_decide (state (con w') = MHD_CONNECTION_CLOSED)) = true.
Proof.
  intros Hhs Hv Hsize Hps Hb Hcrc Htot Hpos Hch Hst Ht Hes.
  assert (chunked_inv body hs lim pv v (completed (con w)) text w []) as Hinv.
  { left. exists r, []. do 4 (split; [done|]). split; [split; [constructor|by rewrite Hpos]|].
    unfold chunk_progress. rewrite Hst. split; [done|]. split; [done|]. by exists text. }
  destruct (run_invariant notify cfg pool_size handler upgrade sendfile_adapter
    (chunked_inv body hs lim pv v (completed (con w)) text) (chunked_event_ok body) es w []) as (w' & out & E & Hw'); [|done..|].
  { intros e w0 out0 He Hi Hs. by apply (chunked_step notify cfg pool_size handler upgrade sendfile_adapter body hs lim pv v). }
  cbn [app] in Hw'. assert (Hcs : forall l, Forall (λ bs, bs ≠ [] /\ Z.of_nat (length bs) <= 16777215) l ->
    Forall (λ ch, ChunkedBody.chunk_ok ch /\ ChunkedBody.data ch ≠ []) (chunk_of <$> l) /\ ChunkedBody.body_of (chunk_of <$> l) = concat l).
  { intros l Hl. split; [apply Forall_fmap; eapply Forall_impl; [exact Hl|]; intros bs [Hne Hlb]; by split; [apply chunk_of_ok|]|].
    unfold ChunkedBody.body_of. rewrite <- list_fmap_compose. f_equal. rewrite <- (list_fmap_id l) at 2. by apply list_fmap_ext. }
  assert (ChunkedBody.chunk_ok end_chunk) as Hend
    by (split; [split; [repeat constructor; done|cbn; lia]|split; [split; [constructor|done]|done]]).
  destruct Hw' as [(r' & l & _ & _ & _ & _ & [Hl Hcl] & Hprog)|(Hc & l & b & k & Eo & Hl & Hcl & Hfull)].
  - destruct (Hcs l Hl) as [Hok Hbody]. exists w', out, [], (chunk_of <$> l). split; [done|].
    unfold chunk_progress in Hprog. destruct (state (con w')) eqn:Est; try done.
    destruct Hprog as [[Hp Ht'] ->]. split; [intros _|done].
    rewrite app_nil_r. unfold whole_reply. rewrite chunks_text_encoding. split; [done|]. split; [done|]. split; [done|].
    rewrite Hbody, Hcl, Hp. split; [by eexists|]. intros _. apply take_ge. lia.
  - destruct (Hcs l Hl) as [Hok Hbody]. exists w', out, b, (chunk_of <$> l). split; [done|]. rewrite Hc.
    split; [intros _|done]. unfold whole_reply in Eo. rewrite chunks_text_encoding in Eo. split; [done|]. split; [done|].
    split; [done|]. rewrite Hbody. split; [by exists k|done].
Qed.

(** ** A concrete reply *)

Lemma chunked_reply_decodes_witness :
  ∃ w' out cs, run (H := LP64) true demo_config 1024 Some (λ _, None) (λ _, (Send_error, [])) (demo_events (str "hello") 60)
              (demo_sending (demo_response (str "hello") demo_footers MHD_SIZE_UNKNOWN) (str "HEAD") true) = Some (w', out)
    /\ state (con w') = MHD_CONNECTION_FOOTERS_SENT
    /\ out = str "HEAD" ++ ChunkedBody.encoding cs end_chunk (footer_text demo_footers)
    /\ ChunkedBody.body_of cs = str "hello".
Proof.
  destruct (chunked_reply_decodes (H := LP64) true demo_config 1024 Some (λ _, None) (λ _, (Send_error, [])) (str "hello")
    demo_footers 0 (Static (str "HTTP/1.1")) (str "HTTP/1.1") (str "HEAD")
    (demo_sending (demo_response (str "hello") demo_footers MHD_SIZE_UNKNOWN) (str "HEAD") true)
    (demo_response (str "hello") demo_footers MHD_SIZE_UNKNOWN)
    (demo_events (str "hello") 60)) as (w' & out & rest & cs & E & Hend & Hst & _).
  - exact demo_footers_ok.
  - done.
  - vm_compute. congruence.
  - done.
  - apply demo_base; [apply demo_serves; [by right|done]|done|done].
  - done.
  - done.
  - done.
  - done.
  - done.
  - by apply demo_text_ready.
  - unfold demo_events. apply Forall_concat, Forall_replicate. repeat constructor; by apply demo_reader_reads || apply send_two_ok.
  - exists w', out, cs. split; [exact E|].
    assert ((λ x, state (con x.1)) <$> Some (w', out) = Some MHD_CONNECTION_FOOTERS_SENT) as Hf by (rewrite <- E; vm_compute; reflexivity).
    cbn in Hf. injection Hf as Hf. split; [exact Hf|]. rewrite Hf in Hend. destruct (Hend eq_refl) as (Eo & _ & _ & _ & Hfull).
    specialize (Hst Hf). subst rest. rewrite app_nil_r in Eo. split; [exact Eo|by apply Hfull].
Defined.

(** ** Where the end line is lost *)

(** Two connections send the same response of unknown size.  When the other
    one reaches the end first, it stores the size in the shared response; this
    connection, which has sent all data but not the end line, then takes its
    last data chunk for the end: the stream has no chunk of size zero. *)
Theorem shared_response_loses_the_end_line :
  let r total := demo_response (str "abc") demo_footers total in
  let reader := demo_reader (str "abc") 3 in
  let send bs := Sent (length bs) in
  (λ x, (state (con x.1), x.2)) <$>
    run (H := LP64) true demo_config 1024 Some (λ _, None) (λ _, (Send_error, []))
      [Write reader send; Idle reader; Idle reader; Other (r 3); Write reader send; Idle reader; Write reader send]
      (demo_sending (r MHD_SIZE_UNKNOWN) (str "HEAD") true)
  = Some (MHD_CONNECTION_FOOTERS_SENT, str "HEAD" ++ chunk_text (str "abc") ++ footer_text demo_footers).
Proof. vm_compute. reflexivity. Qed.

(** A reply to a HEAD request has no body; with a response of unknown size
    the position is set to that size from the start, the chunked states skip
    the body, and the footers with the empty line behind them are sent all
    the same. *)
Theorem head_reply_sends_footers :
  let reader := demo_reader (str "abc") 3 in
  let send bs := Sent (length bs) in
  let w := demo_sending (demo_response (str "abc") demo_footers MHD_SIZE_UNKNOWN) (str "HEAD") true in
  (λ x, (state (con x.1), x.2)) <$>
    run (H := LP64) true demo_config 1024 Some (λ _, None) (λ _, (Send_error, []))
      [Write reader send; Idle reader; Idle reader; Idle reader; Write reader send]
      (set_position w MHD_SIZE_UNKNOWN)
  = Some (MHD_CONNECTION_FOOTERS_SENT, str "HEAD" ++ footer_text demo_footers).
Proof. vm_compute. reflexivity. Qed.

(** The write buffer is given back only when its size is a multiple of the
    alignment.  With a memory limit of which a half or a quarter is not, every
    chunk takes a new part of the pool, and the third chunk already ends with
    the connection closed for lack of memory. *)
Theorem unaligned_limit_exhausts_the_pool :
  let body := str "abc" in
  let start limit :=
    let w := demo_sending (demo_response body demo_footers MHD_SIZE_UNKNOWN) (str "HEAD") true in
    set_con w (set_pool (con w) (mkPool (take (Z.to_nat limit) (memory (pool (con w)))) limit 64 limit false)) in
  let result limit :=
    (λ x, state (con x.1)) <$>
      run (H := LP64) true demo_config limit Some (λ _, None) (λ _, (Send_error, []))
        (concat (replicate 8 [Idle (demo_reader body 1); Write (demo_reader body 1) (λ bs, Sent (length bs))])) (start limit) in
  result 1000 = Some MHD_CONNECTION_CLOSED /\ result 1024 = Some MHD_CONNECTION_FOOTERS_SENT.
Proof. vm_compute. done. Qed.
