(* ===== verification/ReplyParse.v ===== *)
(** * A reply header is read back entry by entry

    What [build_header_response] writes, against the reader of header blocks
    of this library: the lines of the server, the entries of the application
    and the date come back as names and values, and no value of the
    application can add, hide or end a header. *)

From S2P Require Import Prelude MhdStr MemoryPool Internal ReasonPhrase Headers Connection RequestHead HeaderBlock.
From S2P Require Import Response Reply ReplyHeader.

(** ** Lines *)

(** Neither the end of a string nor of a line. *)
Definition line_char (c : Z) : bool := negb (c =? 0) && negb (is_eol c).

Definition line_text (s : bytes) : Prop := Forall (λ c, line_char c = true) s.

Lemma line_text_ok s : line_text s -> no_nul s /\ no_eol s.
Proof.
  intros Hs. split; (eapply Forall_impl; [exact Hs|]); intros c Hc; unfold line_char in Hc;
    apply andb_true_iff in Hc as [H1 H2]; [by apply negb_true_iff, Z.eqb_neq in H1|by apply negb_true_iff in H2].
Qed.

Lemma line_text_app a b : line_text (a ++ b) <-> line_text a /\ line_text b.
Proof. apply Forall_app. Qed.

(** A name that is a token as far as the reader is concerned. *)
Definition name_ok (n : bytes) : Prop :=
  n ≠ [] /\ line_text n /\ 58 ∉ n /\ Forall (λ c, is_blank c = false) n.

Definition value_ok (v : bytes) : Prop :=
  line_text v /\ match v with [] => True | c :: _ => is_blank c = false end.

Definition line_field (n v : bytes) : field := mkField n [32] v crlf.

Lemma line_field_ok n v : name_ok n -> value_ok v -> field_ok (line_field n v).
Proof.
  intros (H1 & [H2 H3]%line_text_ok & H4 & H5) [[H6 H7]%line_text_ok H8].
  do 5 (split; [done|]). split; [by repeat constructor|]. do 3 (split; [done|]). by left.
Qed.

Definition line_of (n v : bytes) : bytes := field_text (line_field n v) ++ crlf.

Lemma line_of_text n v : line_of n v = n ++ str ": " ++ v ++ crlf.
Proof. unfold line_of, field_text. cbn [line_field f_name f_blank f_value]. by rewrite <- app_assoc. Qed.

Ltac literal_name := split; [done|split; [|split]]; apply (bool_decide_unpack _); vm_compute; exact I.

(** ** Printed numbers *)

Lemma print_dec_text n : 0 <= n -> line_text (print_dec n) /\ Forall (λ c, is_blank c = false) (print_dec n) /\ print_dec n ≠ [].
Proof.
  intros Hn. destruct (print_digits_spec 10 n ltac:(lia) Hn) as (Hin & Hne & _). unfold print_dec, line_text.
  split; [|split; [|by destruct (print_digits 10 n)]]; apply Forall_fmap; (eapply Forall_impl; [exact Hin|]); intros d Hd; unfold compose; cbn beta in *.
  - unfold line_char, is_eol. by rewrite !(proj2 (Z.eqb_neq _ _)) by lia.
  - unfold is_blank. by rewrite !(proj2 (Z.eqb_neq _ _)) by lia.
Qed.

Lemma print_dec_length n k : 0 <= n < 10 ^ Z.of_nat (S k) -> (length (print_dec n) <= S k)%nat.
Proof.
  intros Hn. unfold print_dec, print_digits. rewrite length_fmap.
  etransitivity; [apply (print_loop_length _ 10 n [] k); [lia|done]|cbn [length]; lia].
Qed.

Lemma padded_text k n : 0 <= n -> line_text (replicate k 48 ++ print_dec n).
Proof. intros Hn. apply line_text_app. split; [by apply Forall_replicate|by apply print_dec_text]. Qed.

Lemma padded_length k n : 0 <= n < 10000 -> (length (replicate (k - length (print_dec n)) 48%Z ++ print_dec n) <= k + 4)%nat.
Proof.
  intros Hn. pose proof (print_dec_length n 3 ltac:(change (10 ^ Z.of_nat 4) with 10000; lia)).
  rewrite length_app, length_replicate. lia.
Qed.

(** ** The date *)

Definition tm_ok (t : tm) : Prop :=
  0 <= tm_wday t < 7 /\ 0 <= tm_mon t < 12 /\ 0 <= tm_mday t < 10000 /\ 0 <= 1900 + tm_year t < 10000
  /\ 0 <= tm_hour t < 10000 /\ 0 <= tm_min t < 10000 /\ 0 <= tm_sec t < 10000.

Lemma print_02u_ok n : 0 <= n < 10000 -> line_text (print_02u n) /\ (length (print_02u n) <= 6)%nat.
Proof. intros. split; [apply padded_text; lia|by apply (padded_length 2)]. Qed.

Lemma print_04u_ok n : 0 <= n < 10000 -> line_text (print_04u n) /\ (length (print_04u n) <= 8)%nat.
Proof. intros. split; [apply padded_text; lia|by apply (padded_length 4)]. Qed.

(** Names of days and months have three letters. *)
Lemma day_ok i d : at_index days i = Some d -> value_ok d /\ length d = 3%nat /\ d ≠ [].
Proof.
  unfold at_index. destruct (i <? 0); [done|]. intros E%list_elem_of_lookup_2. revert d E.
  apply Forall_forall. unfold days. cbn. repeat constructor; done.
Qed.

Lemma mon_ok i d : at_index mons i = Some d -> line_text d /\ length d = 3%nat.
Proof.
  unfold at_index. destruct (i <? 0); [done|]. intros E%list_elem_of_lookup_2. revert d E.
  apply Forall_forall. unfold mons. cbn. repeat constructor; done.
Qed.

Lemma date_string_ok t s :
  tm_ok t -> get_date_string (Some t) 128 = Some s -> ∃ v, s = line_of Date v /\ value_ok v.
Proof.
  intros (H1 & H2 & H3 & H4 & H5 & H6 & H7) E. unfold get_date_string in E.
  apply bind_Some in E as (day & Ed & E). apply bind_Some in E as (mon & Em & E). apply (inj Some) in E as <-.
  destruct (day_ok _ _ Ed) as ([Hd1 Hd2] & Hd3 & Hd4). destruct (mon_ok _ _ Em) as (Hm1 & Hm2).
  rewrite !(wrap_small 32) by lia.
  destruct (print_02u_ok (tm_mday t)) as [A1 B1]; [lia|]. destruct (print_02u_ok (tm_hour t)) as [A2 B2]; [lia|].
  destruct (print_02u_ok (tm_min t)) as [A3 B3]; [lia|]. destruct (print_02u_ok (tm_sec t)) as [A4 B4]; [lia|].
  destruct (print_04u_ok (1900 + tm_year t)) as [A5 B5]; [lia|].
  unfold snprintf_text. rewrite take_ge.
  2:{ rewrite !length_app. change (length (str "Date: ")) with 6%nat. change (length (str ", ")) with 2%nat.
      change (length (str " ")) with 1%nat. change (length (str ":")) with 1%nat. change (length (str " GMT")) with 4%nat.
      cbn [crlf length]. lia. }
  exists (day ++ str ", " ++ print_02u (tm_mday t) ++ str " " ++ mon ++ str " " ++ print_04u (1900 + tm_year t) ++ str " "
          ++ print_02u (tm_hour t) ++ str ":" ++ print_02u (tm_min t) ++ str ":" ++ print_02u (tm_sec t) ++ str " GMT").
  split.
  - rewrite line_of_text. change (str "Date: ") with (Date ++ str ": "). by rewrite <- !app_assoc.
  - split.
    + rewrite !line_text_app. repeat (split; [assumption || (apply (bool_decide_unpack _); vm_compute; exact I)|]). (assumption || (apply (bool_decide_unpack _); vm_compute; exact I)).
    + by destruct day.
Qed.

(** ** The lines of the server *)

Definition plan_fields (p : header_plan) (r : MHD_Response) : list (bytes * bytes) :=
  (if must_add_close p then [(Connection_, str "close")] else [])
  ++ (if must_add_keep_alive p then [(Connection_, str "Keep-Alive")] else [])
  ++ (if must_add_chunked_encoding p then [(Transfer_Encoding, str "chunked")] else [])
  ++ (if must_add_content_length p then [(Content_Length, print_dec (total_size r))] else []).

Definition lines_of (l : list (bytes * bytes)) : bytes := concat ((λ e, line_of e.1 e.2) <$> l).

Lemma lines_of_app a b : lines_of (a ++ b) = lines_of a ++ lines_of b.
Proof. unfold lines_of. by rewrite fmap_app, concat_app. Qed.

Lemma content_length_text r :
  0 <= total_size r <= MHD_SIZE_UNKNOWN -> content_length_line r = line_of Content_Length (print_dec (total_size r)).
Proof.
  intros Ht. unfold content_length_line, snprintf_text. rewrite take_ge; [by rewrite line_of_text|].
  pose proof (print_dec_length (total_size r) 19 ltac:(change (10 ^ Z.of_nat 20) with 100000000000000000000; lia)).
  rewrite !length_app. change (length Content_Length) with 14%nat. change (length (str ": ")) with 2%nat. cbn [crlf length]. lia.
Qed.

Lemma extra_lines_fields p r :
  0 <= total_size r <= MHD_SIZE_UNKNOWN -> extra_lines p r = lines_of (plan_fields p r).
Proof.
  intros Ht. unfold extra_lines, plan_fields. rewrite !lines_of_app, content_length_text by done.
  unfold lines_of. f_equal; [by destruct (must_add_close p)|]. f_equal; [by destruct (must_add_keep_alive p)|].
  f_equal; [by destruct (must_add_chunked_encoding p)|]. destruct (must_add_content_length p); [|done].
  cbn. by rewrite app_nil_r.
Qed.

Lemma plan_fields_ok p r : 0 <= total_size r -> Forall (λ e, name_ok e.1 /\ value_ok e.2) (plan_fields p r).
Proof.
  intros Ht. unfold plan_fields. destruct (print_dec_text (total_size r) Ht) as (H1 & H2 & H3).
  assert (value_ok (print_dec (total_size r))) as Hv
    by (split; [done|]; destruct (print_dec _); [done|]; by apply Forall_cons in H2 as [? _]).
  repeat (apply Forall_app; split); case_match; try apply Forall_nil_2; apply Forall_singleton; (split; [literal_name|]);
    try exact Hv; (split; [apply (bool_decide_unpack _); vm_compute; exact I|done]).
Qed.

(** ** The whole block *)

Lemma lines_of_block l : lines_of l = concat ((λ f, field_text f ++ f_eol f) <$> ((λ e, line_field e.1 e.2) <$> l)).
Proof. unfold lines_of. rewrite <- list_fmap_compose. done. Qed.

(** ** The entries of the application *)

(** The calls that give a response its headers and footers. *)
Inductive add_call := Add_header (n v : bytes) | Add_footer (n v : bytes).

Definition call_name (c : add_call) : bytes := match c with Add_header n _ | Add_footer n _ => n end.
Definition call_value (c : add_call) : bytes := match c with Add_header _ v | Add_footer _ v => v end.

Definition run_call `{Platform} (alloc_ok : Z -> bool) (r : MHD_Response) (c : add_call) : option MHD_Response :=
  '(_, r) ← match c with
            | Add_header n v => MHD_add_response_header alloc_ok (Some r) (Some (cstr n)) (Some (cstr v))
            | Add_footer n v => MHD_add_response_footer alloc_ok (Some r) (Some (cstr n)) (Some (cstr v))
            end;
  r.

(** The calls one after the other, whether they are accepted or refused. *)
Definition run_calls `{Platform} (alloc_ok : Z -> bool) (cs : list add_call) (r : MHD_Response) : option MHD_Response :=
  foldl (λ o c, r ← o; run_call alloc_ok r c) (Some r) cs.

(** A name the reader can find the end of: it does not begin with a colon and
    has no space in it.  Nothing else is asked of the application. *)
Definition readable_name (n : bytes) : Prop := head n ≠ Some 58 /\ 32 ∉ n.

(** The strings of a call are C strings. *)
Definition call_ok (c : add_call) : Prop := no_nul (call_name c) /\ no_nul (call_value c) /\ readable_name (call_name c).

(** The name ends at the first colon of the line. *)
Fixpoint before_colon (s : bytes) : bytes :=
  match s with [] => [] | c :: s => if c =? 58 then [] else c :: before_colon s end.
Fixpoint after_colon (s : bytes) : bytes :=
  match s with [] => [] | c :: s => if c =? 58 then s else after_colon s end.

Fixpoint leading_blanks (s : bytes) : bytes :=
  match s with c :: s => if is_blank c then c :: leading_blanks s else [] | [] => [] end.
Fixpoint skip_blanks (s : bytes) : bytes :=
  match s with c :: s' => if is_blank c then skip_blanks s' else s | [] => [] end.

(** What is read from the line of an entry. *)
Definition read_as (n v : bytes) : bytes * bytes :=
  let line := n ++ str ": " ++ v in (before_colon line, skip_blanks (after_colon line)).

Definition read_entry (h : MHD_HTTP_Header) : bytes * bytes := read_as (name_of h) (value_of h).

Definition entry_field (h : MHD_HTTP_Header) : field :=
  let line := name_of h ++ str ": " ++ value_of h in
  mkField (before_colon line) (leading_blanks (after_colon line)) (skip_blanks (after_colon line)) crlf.

Lemma split_colon s : 58 ∈ s -> s = before_colon s ++ 58 :: after_colon s.
Proof.
  induction s as [|c s IH]; [by intros ?%elem_of_nil|]. intros Hin. cbn. destruct (Z.eqb_spec c 58) as [->|Hc]; [done|].
  cbn. f_equal. apply IH. by apply elem_of_cons in Hin as [?|].
Qed.

Lemma before_colon_app a b : 58 ∉ a -> before_colon (a ++ 58 :: b) = a /\ after_colon (a ++ 58 :: b) = b.
Proof.
  induction a as [|c a IH]; intros Ha; [done|]. apply not_elem_of_cons in Ha as [Hc Ha]. cbn.
  destruct (Z.eqb_spec c 58); [done|]. by destruct (IH Ha) as [-> ->].
Qed.

Lemma no_colon_before s : 58 ∉ before_colon s.
Proof.
  induction s as [|c s IH]; cbn; [apply not_elem_of_nil|]. destruct (Z.eqb_spec c 58); [apply not_elem_of_nil|].
  by apply not_elem_of_cons.
Qed.

(** The part before the colon is within the name. *)
Lemma before_colon_prefix n s : ∃ m, n = before_colon (n ++ 58 :: s) ++ m.
Proof.
  induction n as [|c n [m IH]]; [by exists []|]. cbn. destruct (Z.eqb_spec c 58); [by eexists|]. exists m. cbn. by f_equal.
Qed.

Lemma blanks_split s : s = leading_blanks s ++ skip_blanks s /\ Forall (λ c, is_blank c = true) (leading_blanks s)
  /\ match skip_blanks s with [] => True | c :: _ => is_blank c = false end.
Proof.
  induction s as [|c s (IH1 & IH2 & IH3)]; [by split_and!; [|constructor|]|]. cbn. destruct (is_blank c) eqn:Ec; [|by split_and!; [|constructor|]].
  split; [cbn; by f_equal|]. split; [by constructor|done].
Qed.

(** An entry with a plain name is read as it was set, but for leading blanks
    of the value. *)
Lemma read_as_plain n v : 58 ∉ n -> read_as n v = (n, skip_blanks v).
Proof. intros Hn. unfold read_as. change (str ": ") with [58; 32]. cbn [app]. by destruct (before_colon_app n (32 :: v) Hn) as [-> ->]. Qed.

(** What the interface accepts is a line of its own. *)
Definition accepted (h : MHD_HTTP_Header) : Prop :=
  sendable (name_of h) /\ sendable (value_of h) /\ no_nul (name_of h) /\ no_nul (value_of h) /\ readable_name (name_of h).

Lemma sendable_text s : sendable s -> no_nul s -> line_text s.
Proof.
  intros [_ Hs] Hn. unfold line_text. rewrite Forall_forall in *. intros c Hc. destruct (Hs c Hc) as (H1 & H2 & H3).
  pose proof (proj1 (Forall_forall _ _) Hn c Hc) as H0. unfold line_char, is_eol. by rewrite !(proj2 (Z.eqb_neq _ _)) by done.
Qed.

Lemma entry_line_field h : accepted h ->
  entry_line h = field_text (entry_field h) ++ f_eol (entry_field h) /\ field_ok (entry_field h).
Proof.
  intros (Sn & Sv & Nn & Nv & [Hhd H32]). unfold entry_line, entry_field, field_ok, field_text. cbn [f_name f_blank f_value f_eol].
  set (line := name_of h ++ str ": " ++ value_of h).
  assert (line_text line) as Ht.
  { apply line_text_app. split; [by apply sendable_text|]. apply line_text_app. split; [|by apply sendable_text].
    apply (bool_decide_unpack _); vm_compute; exact I. }
  assert (58 ∈ line) as Hin by (unfold line; change (str ": ") with [58; 32]; set_solver).
  destruct (blanks_split (after_colon line)) as (Eb & Hb & Hv). pose proof (split_colon line Hin) as Es.
  rewrite <- Eb, <- Es. split; [unfold line; by rewrite <- !app_assoc|].
  rewrite Es in Ht. apply line_text_app in Ht as [Ht1 Ht2]. destruct (line_text_ok _ Ht1) as [N1 E1].
  assert (line_text (skip_blanks (after_colon line))) as [N2 E2]%line_text_ok.
  { apply Forall_cons in Ht2 as [_ Ht2]. rewrite Eb in Ht2. by apply line_text_app in Ht2 as [_ ?]. }
  destruct (before_colon_prefix (name_of h) (32 :: value_of h)) as [m Em].
  change (name_of h ++ 58 :: 32 :: value_of h) with line in Em.
  split; [|split; [done|split; [done|split; [apply no_colon_before|split]]]].
  - unfold line. destruct (name_of h) as [|c n] eqn:En; [by destruct Sn|]. cbn. destruct (Z.eqb_spec c 58); [by subst|done].
  - apply Forall_forall. intros c Hc. unfold is_blank. assert (c ∈ name_of h) as Hcn by (rewrite Em; set_solver).
    destruct Sn as [_ Sn]. rewrite Forall_forall in Sn. destruct (Sn c Hcn) as [H9 _].
    rewrite !(proj2 (Z.eqb_neq _ _)); [done|done|]. intros ->. done.
  - split; [done|]. split; [done|]. split; [done|]. split; [done|by left].
Qed.

Section Calls.
Context `{Platform} (alloc_ok : Z -> bool).

Lemma run_call_entries r c : call_ok c ->
  ∃ r', run_call alloc_ok r c = Some r'
    /\ (first_header r' = first_header r
        \/ ∃ h, first_header r' = h :: first_header r /\ accepted h /\ name_of h = call_name c /\ value_of h = call_value c).
Proof using Type.
  intros (Hn & Hv & Hr). unfold run_call. destruct c as [n v|n v]; cbn [call_name call_value] in *.
  - rewrite add_header_spec by done. case_bool_decide as Ha; cbn [andb mbind option_bind]; [|eexists; split; [done|by left]].
    destruct (entry_allocated alloc_ok n v); cbn [mbind option_bind]; eexists; (split; [done|]); [|by left].
    right. eexists. split; [done|]. by destruct Ha as (? & ? & _).
  - unfold MHD_add_response_footer. rewrite add_entry_spec by done.
    case_bool_decide as Ha; cbn [andb mbind option_bind]; [|eexists; split; [done|by left]].
    destruct (entry_allocated alloc_ok n v); cbn [mbind option_bind]; eexists; (split; [done|]); [|by left].
    right. eexists. split; [done|]. by destruct Ha as (? & ?).
Qed.

Lemma run_calls_entries cs r0 r : Forall call_ok cs -> Forall accepted (first_header r0) -> run_calls alloc_ok cs r0 = Some r ->
  Forall accepted (first_header r).
Proof using Type.
  intros Hcs. revert r0. induction Hcs as [|c cs Hc Hcs IH]; intros r0 H0 E; [by injection E as <-|].
  unfold run_calls in E. cbn [foldl] in E. destruct (run_call_entries r0 c Hc) as (r1 & E1 & Hr1).
  cbn [mbind option_bind] in E. rewrite E1 in E. apply (IH r1); [|exact E].
  destruct Hr1 as [-> |(h & -> & Hh & _)]; [done|by constructor].
Qed.
End Calls.

(** The lines of the entries, as the reader takes them apart. *)
Lemma sent_lines_fields p k l : Forall accepted l ->
  sent_lines p k l = concat ((λ f, field_text f ++ f_eol f) <$> (entry_field <$> filter (λ h, is_sent p k h = true) l)).
Proof.
  intros Hl. unfold sent_lines. rewrite <- list_fmap_compose. f_equal. apply list_fmap_ext. intros i h Hi.
  apply list_elem_of_lookup_2, list_elem_of_filter in Hi as [_ Hi]. rewrite Forall_forall in Hl. by apply entry_line_field, Hl.
Qed.

Section Theorem_.
Context `{Platform} (cfg : reply_config).

Lemma date_line_fields r s :
  (forall t, now cfg = Some t -> tm_ok t) -> date_line cfg r = Some s ->
  ∃ l, s = lines_of l /\ Forall (λ e, name_ok e.1 /\ value_ok e.2) l /\ (length l <= 1)%nat /\ Forall (λ e, e.1 = Date) l.
Proof.
  intros Ht. assert (∃ l, [] = lines_of l /\ Forall (λ e, name_ok e.1 /\ value_ok e.2) l /\ (length l <= 1)%nat
    /\ Forall (λ e, e.1 = Date) l) as Hnil by (exists []; split; [done|]; split; [constructor|]; split; [cbn; lia|constructor]).
  unfold date_line. destruct (suppress_date cfg); [by intros [= <-]|]. intros E. apply bind_Some in E as (o & _ & E).
  destruct o; [by injection E as <-|]. destruct (now cfg) as [t|] eqn:En; [|by injection E as <-].
  destruct (date_string_ok t s (Ht t eq_refl) E) as (v & -> & Hv). exists [(Date, v)].
  split; [unfold lines_of; cbn [fmap list_fmap concat fst snd]; by rewrite app_nil_r|].
  split; [apply Forall_singleton; split; [literal_name|done]|]. split; [cbn; lia|by apply Forall_singleton].
Qed.

(** C11: What the server writes as the header of a reply is read back as
    exactly the intended headers.  The application makes any calls of
    [MHD_add_response_header] and [MHD_add_response_footer], of which those
    with a line end or a tab (or a length, or an unknown encoding) are refused.
    Behind the status line, the text is then a block of header lines, and the
    reader of header blocks of this library finds in it, in order, the headers
    the plan adds, one for each entry of the application that is to be sent,
    and the date, and nothing else; behind the block it stops.  So no value
    can inject a header or end the block early.  An entry is read as it was
    set, but for leading spaces of its value; a name with a colon ends there
    and the rest of it belongs to the value.  Names with a space or with a
    colon in front are not covered, though the interface accepts them:
    [blank_name_continues_a_header]. *)
Theorem reply_header_read_back alloc_ok cs r0 (d : daemon_config) (env : reply_env) w r code date p c pre rest post :
  Forall call_ok cs -> first_header r0 = [] -> run_calls alloc_ok cs r0 = Some r ->
  frame_of cfg w r = Some (code, date, MHD_HEADER_KIND) -> (forall t, now cfg = Some t -> tm_ok t) ->
  0 <= total_size r <= MHD_SIZE_UNKNOWN ->
  state c = MHD_CONNECTION_URL_RECEIVED -> headers_received (req c) = [] ->
  at_buffer c (pre ++ code) (drop (length code) (reply_text code date MHD_HEADER_KIND p r) ++ rest) post ->
  room (pool c) (length (plan_fields p r) + length (first_header r) + 1) ->
  ∃ dates c' pre',
    date = lines_of dates /\ (length dates <= 1)%nat /\ Forall (λ e, e.1 = Date) dates
    /\ rtc (λ a b, idle_step d env a = Some (true, b)) c c' /\ state c' = MHD_CONNECTION_HEADERS_RECEIVED
    /\ resolve_all (memory (pool c')) (headers_received (req c'))
       = Some ((λ e, mkHeader (Some e.1) (Some e.2) MHD_HEADER_KIND) <$>
                 plan_fields p r ++ (read_entry <$> filter (λ h, is_sent p MHD_HEADER_KIND h = true) (first_header r)) ++ dates)
    /\ at_buffer c' pre' rest post
    /\ forall n v, 58 ∉ n -> read_as n v = (n, skip_blanks v).
Proof.
  intros Hcs H0 Ecs Ef Ht Htot Hst Hh Hb Hroom.
  assert (Forall accepted (first_header r)) as Hacc by (eapply run_calls_entries; [exact Hcs|by rewrite H0|exact Ecs]).
  assert (∃ dates, date = lines_of dates /\ Forall (λ e, name_ok e.1 /\ value_ok e.2) dates /\ (length dates <= 1)%nat
    /\ Forall (λ e, e.1 = Date) dates) as (dates & -> & Hd & Hdl & Hdn).
  { unfold frame_of in Ef. case_bool_decide; [|done]. apply bind_Some in Ef as (x & _ & Ef).
    apply bind_Some in Ef as (y & Ey & Ef). injection Ef as -> ->. by apply (date_line_fields r). }
  set (own := λ l : list (bytes * bytes), (λ e, line_field e.1 e.2) <$> l). set (sent := filter _ _).
  set (fields := own (plan_fields p r) ++ (entry_field <$> sent) ++ own dates).
  assert (drop (length code) (reply_text code (lines_of dates) MHD_HEADER_KIND p r) = block fields crlf) as Eblk.
  { unfold reply_text. rewrite drop_app_length, extra_lines_fields, sent_lines_fields by done. unfold block, fields, own.
    by rewrite !fmap_app, !concat_app, <- !lines_of_block, <- !app_assoc. }
  rewrite Eblk in Hb. assert (Forall field_ok fields) as Hok.
  { assert (forall l, Forall (λ e, name_ok e.1 /\ value_ok e.2) l -> Forall field_ok (own l)) as Hown
      by (intros l Hl; apply Forall_fmap; eapply Forall_impl; [exact Hl|]; intros e [? ?]; by apply line_field_ok).
    apply Forall_app. split; [apply Hown, plan_fields_ok; lia|]. apply Forall_app. split; [|by apply Hown].
    apply Forall_fmap, Forall_forall. intros h [_ Hx]%list_elem_of_filter. rewrite Forall_forall in Hacc. by apply entry_line_field, Hacc. }
  assert (length sent <= length (first_header r))%nat as Hsl by apply length_filter.
  destruct (header_block_spec d env false fields c (pre ++ code) crlf rest post [])
    as (c' & x & Hrtc & Hst' & Eres & Hb' & _); try done.
  - by left.
  - rewrite Hh. constructor.
  - unfold room in *. unfold fields, own. rewrite !length_app, !length_fmap.
    assert (0 <= sizeof_header) by (unfold sizeof_header; destruct sizeof_ptr_ok as [-> | ->]; lia). nia.
  - exists dates, c', ((pre ++ code) ++ x). do 3 (split; [done|]). split; [by apply rounds_are_steps|]. split; [done|].
    split; [|split; [done|exact read_as_plain]]. rewrite Eres. f_equal. cbn [app]. unfold entries, fields, own.
    rewrite !fmap_app. f_equal; [|f_equal]; rewrite <- !list_fmap_compose; by apply list_fmap_ext.
Qed.
End Theorem_.

(** ** A concrete reply *)

Definition demo_code : bytes := str "HTTP/1.1 200 OK" ++ crlf.

Definition demo_plan : header_plan := mkPlan false true true false false false.

Definition demo_new_response : MHD_Response :=
  mkResponse [] (Some (replicate 4 0)) (Some Application_reader) None false MHD_SIZE_UNKNOWN 0 0 0 4 1 (-1) 0.

(** The third call is refused. *)
Definition demo_add_calls : list add_call :=
  [Add_header (str "Server") (str "demo"); Add_footer (str "Checksum") (str "7");
   Add_header (str "Evil") (str "x" ++ crlf ++ str "Injected: 1"); Add_header (str "A:b") (str " c")].

(** The response with these entries, and the reader of its text, behind the
    status line. *)
Definition demo_response_of (cs : list add_call) : MHD_Response :=
  default demo_new_response (run_calls (H := LP64) (λ _, true) cs demo_new_response).

Definition demo_text_of (cs : list add_call) : bytes := reply_text demo_code [] MHD_HEADER_KIND demo_plan (demo_response_of cs).

Definition demo_text_reader (cs : list add_call) : MHD_Connection :=
  set_read (demo_request MHD_CONNECTION_URL_RECEIVED (demo_text_of cs)) (Some (Z.of_nat (length demo_code))) 256
    (Z.of_nat (length (demo_text_of cs) - length demo_code)).

Lemma reply_header_read_back_witness :
  ∃ c', rtc (λ a b, idle_step (H := LP64) demo_daemon demo_env a = Some (true, b)) (demo_text_reader demo_add_calls) c'
    /\ state c' = MHD_CONNECTION_HEADERS_RECEIVED
    /\ resolve_all (memory (pool c')) (headers_received (req c'))
       = Some [mkHeader (Some Connection_) (Some (str "Keep-Alive")) MHD_HEADER_KIND;
               mkHeader (Some Transfer_Encoding) (Some (str "chunked")) MHD_HEADER_KIND;
               mkHeader (Some (str "A")) (Some (str "b:  c")) MHD_HEADER_KIND;
               mkHeader (Some (str "Server")) (Some (str "demo")) MHD_HEADER_KIND].
Proof.
  destruct (reply_header_read_back (H := LP64) demo_reply_config (λ _, true) demo_add_calls demo_new_response demo_daemon demo_env
    (demo_queued (demo_response_of demo_add_calls)) (demo_response_of demo_add_calls) demo_code [] demo_plan (demo_text_reader demo_add_calls)
    [] [] (replicate (512 - length (demo_text_of demo_add_calls)) 0))
    as (dates & c' & pre' & Hd & _ & _ & Hrtc & Hst & Er & _).
  - repeat constructor; try (by vm_compute); apply (bool_decide_unpack _); vm_compute; exact I.
  - reflexivity.
  - vm_compute. reflexivity.
  - vm_compute. reflexivity.
  - intros t Ht. exfalso. discriminate Ht.
  - vm_compute. split; congruence.
  - reflexivity.
  - reflexivity.
  - split; [vm_compute; reflexivity|]. split; [done|]. split; [done|]. split; [vm_compute; reflexivity|].
    split; [vm_compute; done|]. split; [vm_compute; done|]. split; vm_compute; done.
  - vm_compute. done.
  - exists c'. split; [exact Hrtc|]. split; [exact Hst|].
    assert (dates = []) as ->.
    { destruct dates as [|[n v] l]; [reflexivity|]. exfalso. apply (f_equal length) in Hd. unfold lines_of in Hd.
      cbn [fmap list_fmap concat fst snd] in Hd. rewrite line_of_text, !length_app in Hd. cbn [crlf length] in Hd. lia. }
    rewrite Er. vm_compute. reflexivity.
Defined.

(** A name that begins with a space is accepted; the line is then read as the
    continuation of the header in front of it, here of one the server added,
    which this reader does not recognize any more. *)
Theorem blank_name_continues_a_header :
  let cs := [Add_header (str " x") (str "y")] in
  run_calls (H := LP64) (λ _, true) cs demo_new_response
  = Some (set_headers demo_new_response [mkHeader (Some (str " x")) (Some (str "y")) MHD_HEADER_KIND])
  /\ ∃ c', idle_loop (H := LP64) demo_daemon demo_env 20 (demo_text_reader cs) = Some c'
    /\ resolve_all (memory (pool c')) (headers_received (req c'))
       = Some [mkHeader (Some Connection_) (Some (str "Keep-Alive")) MHD_HEADER_KIND;
               mkHeader (Some (str "Transfer-Encodingx: y")) (Some (str "chunked")) MHD_HEADER_KIND].
Proof. split; [vm_compute; reflexivity|]. eexists. split; [vm_compute; reflexivity|]. vm_compute. reflexivity. Qed.
