(* ===== verification/ErrorReply.v ===== *)
(** * Error replies (libmicrohttpd/src/microhttpd/connection.c)

    [transmit_error_response] on the whole connection: the old response is
    given back, a new one is made of the error text and queued, and its header
    is built behind what the pool holds by then.  The receiving half
    ([RequestHead], [EventLoop]) only notes that it asks for an error reply;
    [settle] makes it, so that a round of the state machine in [Idle] goes on
    from the connection the code leaves: with the header of the reply to be
    sent, or closed when no reply could be made. *)

From S2P Require Import Prelude MhdStr MemoryPool Internal Headers Connection RequestHead HeaderBlock.
From S2P Require Import Response Reply ReplyBody EventLoop.

(** The daemon, and what does not change during a call: the allocations of a
    response and the size of its structure; the shutdown flag, whether the
    calling thread is a wrong one, whether the connection uses TLS and the
    daemon an internal thread, whether an upgrade succeeds; the time-out of the
    connection and the seconds since its last activity, and whether its socket
    does not block. *)
Record idle_config := {
  daemon : daemon_config;
  response_alloc : Z -> bool;
  response_struct : Z;
  header_config : reply_config;
  pool_increment : Z;
  shutting_down : bool;
  wrong_thread : bool;
  uses_tls : bool;
  internal_polling : bool;
  upgrade_succeeds : bool;
  connection_timeout : Z;
  inactive : Z;
  sk_nonblck : bool
}.

(** The texts of the replies. *)
Definition REQUEST_TOO_BIG : bytes :=
  str "<html><head><title>Request too big</title></head><body>Your HTTP header was too big for the memory constraints of this webserver.</body></html>".

Definition REQUEST_LACKS_HOST : bytes :=
  str "<html><head><title>&quot;Host:&quot; header required</title></head><body>In HTTP 1.1, requests must include a &quot;Host:&quot; header, and your HTTP 1.1 request lacked such a header.</body></html>".

Definition REQUEST_MALFORMED : bytes :=
  str "<html><head><title>Request malformed</title></head><body>Your HTTP request was syntactically incorrect.</body></html>".

Definition INTERNAL_ERROR : bytes :=
  str "<html><head><title>Internal server error</title></head><body>Please ask the developer of this Web server to carefully read the GNU libmicrohttpd documentation about connection management and blocking.</body></html>".

(** The text that goes with a status code at every call of
    [transmit_error_response]. *)
Definition error_message (status_code : Z) : bytes :=
  if status_code =? 400 then REQUEST_MALFORMED else if status_code =? 500 then INTERNAL_ERROR else REQUEST_TOO_BIG.

Section Error_reply.
Context `{Platform} (cfg : idle_config).

(** A response of the text is created, queued, and the own reference to it
    given back: [None] when it could not be created, else what
    [MHD_queue_response] answered. *)
Definition queue_message (w : reply) (status_code : Z) (message : bytes) : option (option bool * reply) :=
  response ← MHD_create_response_from_buffer (response_alloc cfg) (response_struct cfg) (Z.of_nat (length message)) (Some message)
               MHD_RESPMEM_PERSISTENT;
  match response with
  | None => Some (None, w)
  | Some r =>
      '(iret, _, w') ← MHD_queue_response (header_config cfg) (shutting_down cfg) (wrong_thread cfg) true (uses_tls cfg) w
                         status_code (Some r);
      Some (Some iret,
            match resp w, resp w' with
            | None, Some r => set_resp w' (fst (MHD_destroy_response r))
            | _, _ => w'
            end)
  end.

(** The whole of [transmit_error_response]. *)
Definition send_error_response (w : reply) (status_code : Z) : option reply :=
  let c := con w in
  let c := match version (req c) with None => set_version c (Some (Static HTTP_1_0)) | Some _ => c end in
  let c := set_read_closed (set_state c MHD_CONNECTION_FOOTERS_RECEIVED) true in
  let w := fst (drop_response (set_con w c)) in
  '(iret, w) ← queue_message w status_code (error_message status_code);
  match iret with
  | None => Some (set_reply_state w MHD_CONNECTION_CLOSED)
  | Some false => Some (close_error (notify (daemon cfg)) w)
  | Some true =>
      '(ok, w) ← build_header_response (header_config cfg) (set_keepalive w MHD_CONN_MUST_CLOSE);
      Some (if (ok : bool) then set_reply_state w MHD_CONNECTION_HEADERS_SENDING else close_error (notify (daemon cfg)) w)
  end.

(** ** From the receiving half to the whole connection *)

(** The receiving half is run as if every error reply could be made. *)
Definition attempt : reply_env := {| response_created := true; response_queued := true; header_built := true |}.

(** What it works on: it only looks at the request. *)
Definition receiving (w : reply) : MHD_Connection := set_response (con w) None.

(** Where the receiving half closes the connection, its response is given
    back. *)
Definition after_con (w : reply) (c : MHD_Connection) : reply :=
  if bool_decide (state c = MHD_CONNECTION_CLOSED) then fst (drop_response (set_con w c)) else set_con w c.

(** [process_broken_line] makes the reply to a header it cannot store a
    second time, after [connection_add_header] has made it: a line was cut
    off that does not start with a blank, and there is no room for the record
    of the line before it. *)
Definition replies_twice (w : reply) (c : MHD_Connection) : bool :=
  (bool_decide (state (con w) = MHD_CONNECTION_HEADER_PART_RECEIVED)
   || bool_decide (state (con w) = MHD_CONNECTION_FOOTER_PART_RECEIVED))
  && (read_buffer_offset c <? read_buffer_offset (con w))
  && match read_buffer (con w) with
     | Some line => match byte_at (memory (pool c)) line with Some ch => negb (is_blank ch) | None => false end
     | None => false
     end
  && match MHD_pool_allocate (pool (con w)) sizeof_header true with (None, _) => true | _ => false end.

(** What a function of the receiving half made of the connection: [c], after
    the error reply it asked for, in the state it assigned behind that; or
    [c] alone, which gives back its response where the function closed it. *)
Definition settle (w : reply) (c : MHD_Connection) : option reply :=
  match Connection.response c with
  | Some code =>
      w' ← send_error_response (set_con w (set_response c None)) code;
      w' ← (if replies_twice w c then send_error_response w' code else Some w');
      Some (if bool_decide (state c = MHD_CONNECTION_HEADERS_SENDING) then w' else set_reply_state w' (state c))
  | None =>
      Some (if bool_decide (state c = MHD_CONNECTION_CLOSED) then after_con w c
            else set_con w (set_response c (Connection.response (con w))))
  end.

(** The request for HTTP/1.1 that names no host. *)
Definition refuse_request (w : reply) : option reply :=
  let w := set_con w (set_read_closed (set_state (con w) MHD_CONNECTION_FOOTERS_RECEIVED) true) in
  '(iret, w) ← queue_message w 400 REQUEST_LACKS_HOST;
  Some (match iret with Some true => w | _ => close_error (notify (daemon cfg)) w end).

(** [parse_connection_headers] and the round around it. *)
Definition reply_headers_received (w : reply) : option (bool * reply) :=
  '(_, c) ← parse_cookie_header (daemon cfg) attempt (receiving w);
  w ← settle w c;
  no_host ← lacks_host (daemon cfg) (con w);
  w ← (if (no_host : bool) then refuse_request w
       else c ← body_size (daemon cfg) (con w); Some (after_con w c));
  Some (true, if bool_decide (state (con w) = MHD_CONNECTION_CLOSED) then w
              else set_reply_state w MHD_CONNECTION_HEADERS_PROCESSED).

(** A round that reads lines. *)
Definition receive_step (w : reply) : option (bool * reply) :=
  if bool_decide (state (con w) = MHD_CONNECTION_HEADERS_RECEIVED) then reply_headers_received w
  else
    '(go_on, c) ← idle_step (daemon cfg) attempt (receiving w);
    w ← settle w c;
    Some (go_on, w).

(** [MHD_connection_update_event_loop_info]: after an error reply or a close
    the second round ends. *)
Fixpoint reply_info_loop (fuel : nat) (w : reply) (info : MHD_ConnectionEventLoopInfo)
    : option (reply * MHD_ConnectionEventLoopInfo) :=
  match fuel with
  | O => None
  | S fuel =>
      '(go_on, c, info) ← info_round (daemon cfg) attempt (internal_polling cfg) (receiving w) info;
      w ← settle w c;
      if (go_on : bool) then reply_info_loop fuel w info else Some (w, info)
  end.

Definition reply_update_info (w : reply) (info : MHD_ConnectionEventLoopInfo) : option (reply * MHD_ConnectionEventLoopInfo) :=
  reply_info_loop 2 w info.
End Error_reply.
