(* ===== verification/Idle.v ===== *)
(** * The whole state machine of a connection (libmicrohttpd/src/microhttpd/connection.c, daemon.c)

    [MHD_connection_handle_idle] as one loop over all states: the rounds of
    [RequestHead], [RequestBody] and [ReplyBody] put together, the error replies
    of [ErrorReply], the calls of the application between them, and the end,
    where [EventLoop] decides what to wait for; and [call_handlers], which
    reads, writes and runs it when the event loop found a socket ready.

    Suspending a connection, TLS and epoll are left out here ([Daemon] has the
    first). *)

From S2P Require Import Prelude MhdStr MemoryPool Internal Headers Connection RequestBody RequestHead HeaderBlock.
From S2P Require Import Response Reply ReplyBody EventLoop ErrorReply.

Section Idle.
Context `{Platform} {App : Type}.

(** The request handler of the application: a call without upload data, of
    which it may answer the request with a status code and a response, and a
    call with a piece of the body. *)
Record application := {
  answer : App -> reply -> App * bool * option (Z * MHD_Response);
  upload_data : App -> bytes -> App * bool * nat
}.

Context (app_ : application) (cfg : idle_config).

(** ** Calling the application *)

Definition call_connection_handler (w : reply) (app : App) : option (reply * App) :=
  match resp w with
  | Some _ => Some (w, app)
  | None =>
      let w := set_con w (set_aware (con w) true) in
      let '(app, ok, ans) := answer app_ app w in
      w ← match ans with
          | None => Some w
          | Some (code, r) =>
              '(_, _, w) ← MHD_queue_response (header_config cfg) (shutting_down cfg) (wrong_thread cfg) true (uses_tls cfg)
                             w code (Some r);
              Some w
          end;
      Some (if (ok : bool) then w else close_error (notify (daemon cfg)) w, app)
  end.

(** ** The loop over the states *)

(** How a round ends: the loop goes on, it is left to wait, the connection is
    closed and cleaned up, it is handed over to the application, or the
    application broke its contract and the program is aborted. *)
Inductive round_end :=
| Continue (w : reply) (app : App)
| Stop (w : reply) (app : App)
| Cleanup (w : reply) (app : App)
| Upgraded (w : reply) (app : App)
| Aborted (app : App).

Definition go_on_if (go_on : bool) (w : reply) (app : App) : round_end := if go_on then Continue w app else Stop w app.

(** [crc_call] is the content reader of the response. *)
Definition idle_round (crc_call : Z -> Z -> crc_result) (w : reply) (app : App) : option round_end :=
  let n := notify (daemon cfg) in
  match state (con w) with
  | MHD_CONNECTION_INIT | MHD_CONNECTION_URL_RECEIVED | MHD_CONNECTION_HEADER_PART_RECEIVED
  | MHD_CONNECTION_HEADERS_RECEIVED | MHD_CONNECTION_BODY_RECEIVED | MHD_CONNECTION_FOOTER_PART_RECEIVED =>
      '(go_on, w) ← receive_step cfg w;
      Some (go_on_if go_on w app)
  | MHD_CONNECTION_HEADERS_PROCESSED =>
      '(w', app) ← call_connection_handler w app;
      '(go_on, w) ← idle_headers_processed (λ _, Some w') w;
      Some (go_on_if go_on w app)
  | MHD_CONNECTION_CONTINUE_SENT =>
      '(r, app) ← idle_continue_sent (upload_data app_) n (con w) app;
      Some (match r with
            | Panicked => Aborted app
            | Returned c => go_on_if (negb (bool_decide (state c = MHD_CONNECTION_CONTINUE_SENT))) (after_con w c) app
            end)
  | MHD_CONNECTION_FOOTERS_RECEIVED =>
      '(w', app) ← call_connection_handler w app;
      '(go_on, w) ← idle_footers_received n (header_config cfg) (λ _, Some w') w;
      Some (go_on_if go_on w app)
  | MHD_CONNECTION_HEADERS_SENT =>
      r ← resp w;
      if upgrade_handler r then
        Some (if upgrade_succeeds cfg then Upgraded (fst (drop_response w)) app else Continue (close_error n w) app)
      else
        '(go_on, w) ← idle_headers_sent (λ _, None) w;
        Some (go_on_if go_on w app)
  | MHD_CONNECTION_CLOSED => Some (Cleanup w app)
  | _ =>
      '(go_on, w) ← reply_step n (header_config cfg) (pool_size (daemon cfg)) (λ _, None) (λ _, None) crc_call w;
      Some (go_on_if go_on w app)
  end.

(** The outer option is the bound of the loop, the inner one undefined
    behaviour. *)
Fixpoint idle_rounds (crc_call : Z -> Z -> crc_result) (fuel : nat) (w : reply) (app : App) : option (option round_end) :=
  match fuel with
  | O => None
  | S fuel =>
      match idle_round crc_call w app with
      | Some (Continue w app) => idle_rounds crc_call fuel w app
      | r => Some r
      end
  end.

(** Every round takes a line out of the buffer or moves on to a later state:
    see [IdleEnd]. *)
Definition idle_fuel (w : reply) : nat := 22 + Z.to_nat (read_buffer_offset (con w)).

Definition times_out : bool := negb (connection_timeout cfg =? 0) && (connection_timeout cfg <? inactive cfg).

(** Closing marks the connection for the event loop, too. *)
Definition MHD_connection_handle_idle (crc_call : Z -> Z -> crc_result) (w : reply) (app : App)
    (info : MHD_ConnectionEventLoopInfo) : option (round_end * MHD_ConnectionEventLoopInfo) :=
  r ← idle_rounds crc_call (idle_fuel w) w app;
  r ← r;
  match r with
  | Stop w app =>
      if times_out then
        Some (Stop (reply_close (notify (daemon cfg)) w MHD_REQUEST_TERMINATED_TIMEOUT_REACHED) app, MHD_EVENT_LOOP_INFO_CLEANUP)
      else
        '(w, info) ← reply_update_info cfg w info;
        Some (Stop w app, info)
  | Cleanup w app => Some (Cleanup w app, MHD_EVENT_LOOP_INFO_CLEANUP)
  | r => Some (r, info)
  end.

(** ** Reading, writing and the loop in turns *)

(** A connection between two calls, with its [event_loop_info], the
    application and the bytes sent so far. *)
Record link := mkLink {
  l_reply : reply;
  l_app : App;
  l_info : MHD_ConnectionEventLoopInfo;
  l_out : bytes
}.

(** The socket and the content reader during one turn of reading or writing
    and the loop behind it. *)
Record turn_io := {
  recv_cls : Z -> recv_result;
  send_cls : bytes -> send_result;
  sendfile_adapter : Z -> send_result * bytes;
  write_reader : Z -> Z -> crc_result;
  idle_reader : Z -> Z -> crc_result
}.

(** The connection is still there, or the loop ended it. *)
Inductive turn := Going (l : link) | Ended (r : round_end) (out : bytes).

Definition then_turn (t : turn) (f : link -> option turn) : option turn :=
  match t with Going l => f l | Ended _ _ => Some t end.

Definition run_idle (io : turn_io) (l : link) : option turn :=
  '(r, info) ← MHD_connection_handle_idle (idle_reader io) (l_reply l) (l_app l) (l_info l);
  Some (match r with Stop w app => Going (mkLink w app info (l_out l)) | r => Ended r (l_out l) end).

Definition read_turn (io : turn_io) (l : link) : option turn :=
  let w := l_reply l in
  c ← MHD_connection_handle_read (notify (daemon cfg)) (pool_size (daemon cfg)) (pool_increment cfg) (con w) (recv_cls io);
  run_idle io (mkLink (after_con w c) (l_app l) (l_info l) (l_out l)).

Definition write_turn (io : turn_io) (l : link) : option turn :=
  '(w, out) ← MHD_connection_handle_write (notify (daemon cfg)) false (l_reply l) (write_reader io) (send_cls io) (sendfile_adapter io);
  run_idle io (mkLink w (l_app l) (l_info l) (l_out l ++ out)).

Definition body_ready (s : conn_state) : bool :=
  bool_decide (s = MHD_CONNECTION_NORMAL_BODY_READY) || bool_decide (s = MHD_CONNECTION_CHUNKED_BODY_READY).

(** [io] numbers the turns: reading, writing, neither, and the two of the fast
    track.  The caller clears [data_already_pending], which the second
    component of the result sets. *)
Definition call_handlers (thread_per_connection read_ready write_ready force_close : bool) (io : nat -> turn_io) (l : link)
    : option (turn * bool) :=
  let on_fasttrack := bool_decide (state (con (l_reply l)) = MHD_CONNECTION_INIT) in
  t ← (if force_close then
         run_idle (io 2%nat) (mkLink (close_error (notify (daemon cfg)) (l_reply l)) (l_app l) MHD_EVENT_LOOP_INFO_CLEANUP (l_out l))
       else
         let reads := bool_decide (l_info l = MHD_EVENT_LOOP_INFO_READ) && read_ready in
         t ← (if reads then read_turn (io 0%nat) l else Some (Going l));
         then_turn t (λ l,
           let writes := bool_decide (l_info l = MHD_EVENT_LOOP_INFO_WRITE) && write_ready in
           t ← (if writes then write_turn (io 1%nat) l else Some (Going l));
           if negb (reads || writes) then run_idle (io 2%nat) l
           else if on_fasttrack && sk_nonblck cfg then
             t ← then_turn t (λ l, if bool_decide (state (con (l_reply l)) = MHD_CONNECTION_HEADERS_SENDING)
                                   then write_turn (io 3%nat) l else Some (Going l));
             then_turn t (λ l, if body_ready (state (con (l_reply l))) then write_turn (io 4%nat) l else Some (Going l))
           else Some t));
  Some (t, if force_close || thread_per_connection then false
           else match t with Going l => bool_decide (l_info l = MHD_EVENT_LOOP_INFO_BLOCK) | Ended _ _ => false end).
End Idle.

(** ** A connection and an application for examples *)

Definition demo_text_response (body : bytes) : MHD_Response :=
  mkResponse [] (Some body) None None false (Z.of_nat (length body)) 0 0 (Z.of_nat (length body)) 0 1 (-1) 0.

(** The application notes the URI at each of its calls, and answers the
    complete request with it. *)
Definition echo_application : application (App := list bytes) := {|
  answer log w :=
    let u := default [] (p ← url (req (con w)); chars (memory (pool (con w))) p) in
    (log ++ [u], true,
     if bool_decide (state (con w) = MHD_CONNECTION_FOOTERS_RECEIVED) then Some (200, demo_text_response u) else None);
  upload_data log _ := (log, true, 0%nat)
|}.

Definition demo_idle_config : idle_config := {|
  daemon := demo_daemon; response_alloc _ := true; response_struct := 128;
  header_config := {| suppress_date := true; now := None; allow_upgrade := false |};
  pool_increment := 32; shutting_down := false; wrong_thread := false; uses_tls := false; internal_polling := true;
  upgrade_succeeds := true; connection_timeout := 0; inactive := 0; sk_nonblck := true
|}.

(** The same with a socket that blocks, so that nothing is sent before the
    socket is found ready; and while the daemon shuts down. *)
Definition demo_blocking_config : idle_config := {|
  daemon := demo_daemon; response_alloc _ := true; response_struct := 128;
  header_config := header_config demo_idle_config;
  pool_increment := 32; shutting_down := false; wrong_thread := false; uses_tls := false; internal_polling := true;
  upgrade_succeeds := true; connection_timeout := 0; inactive := 0; sk_nonblck := false
|}.

Definition demo_stopping_config : idle_config := {|
  daemon := demo_daemon; response_alloc _ := true; response_struct := 128;
  header_config := header_config demo_idle_config;
  pool_increment := 32; shutting_down := true; wrong_thread := false; uses_tls := false; internal_polling := true;
  upgrade_succeeds := true; connection_timeout := 0; inactive := 0; sk_nonblck := true
|}.

(** A new connection whose buffer holds [b]. *)
Definition demo_accepted (b : bytes) : reply :=
  mkReply (demo_request MHD_CONNECTION_INIT b) None 0 MHD_CONN_KEEPALIVE_UNKOWN None 0 0 0 0 0 false.

Definition no_reader (_ _ : Z) : crc_result := End_with_error.

(** A socket that has [input] and takes everything. *)
Definition demo_io (input : bytes) (_ : nat) : turn_io := {|
  recv_cls n := Received (take (Z.to_nat n) input);
  send_cls b := Sent (length b);
  sendfile_adapter _ := (Send_error, []);
  write_reader := no_reader;
  idle_reader := no_reader
|}.

Definition demo_get (uri : bytes) : bytes := str "GET " ++ uri ++ str " HTTP/1.1" ++ crlf ++ str "Host: h" ++ crlf ++ crlf.

(** A request with a header line that has no colon. *)
Definition demo_malformed : bytes := str "GET /a HTTP/1.1" ++ crlf ++ str "bad" ++ crlf.
