(* ===== verification/IdleEnd.v ===== *)
(** * The state machine ends and never stops where it must not (libmicrohttpd/src/microhttpd/connection.c)

    A measure for [MHD_connection_handle_idle]: every round moves on in an
    order of the states that the resets for the next request respect, or takes
    a line out of the read buffer.  The theorems: the loop ends, for every
    request, response and application, and it ends in a state that
    [MHD_connection_update_event_loop_info] knows. *)

From S2P Require Import Prelude MhdStr MemoryPool Internal Headers Connection RequestBody RequestHead HeaderBlock.
From S2P Require Import Response Reply ReplyBody EventLoop ErrorReply Idle.

(** ** What a round does to the read buffer *)

(** [n] bytes were unread; the rest is what a function leaves. *)
Abbreviation unread c := (read_buffer_offset c).

Section Head.
Context `{Platform} (d : daemon_config) (env : reply_env).

Lemma transmit_unread c code : unread (transmit_error_response d env c code) = unread c.
Proof using Type. unfold transmit_error_response. by destruct (version (req c)), (response_created env), (response_queued env), (header_built env). Qed.

Lemma add_header_unread c k v kind ok c' : connection_add_header d env c k v kind = (ok, c') -> unread c' = unread c.
Proof using Type.
  unfold connection_add_header. destruct (MHD_pool_allocate _ _ _) as [[] p]; intros [= _ <-]; [done|]. by rewrite transmit_unread.
Qed.

Lemma process_header_line_unread c line ok c' : process_header_line d c line = Some (ok, c') -> unread c' = unread c.
Proof using Type.
  unfold process_header_line. intros E. apply bind_Some in E as (col & _ & E). destruct col as [k|]; [|by injection E as _ <-].
  apply bind_Some in E as (refused & _ & E). destruct refused; [by injection E as _ <-|]. inv_bind. done.
Qed.

Lemma process_broken_line_unread c line k ok c' : process_broken_line d env c line k = Some (ok, c') -> unread c' = unread c.
Proof using Type.
  unfold process_broken_line. intros E. apply bind_Some in E as (lst & _ & E). apply bind_Some in E as (ch & _ & E).
  destruct (is_blank ch).
  { unfold continue_line in E. apply bind_Some in E as (? & _ & E). apply bind_Some in E as (? & _ & E).
    apply bind_Some in E as (? & _ & E). apply bind_Some in E as ([l p] & _ & E). destruct l as [l|].
    - apply bind_Some in E as (m & _ & E). by injection E as _ <-.
    - injection E as _ <-. by rewrite transmit_unread. }
  apply bind_Some in E as (col & _ & E). destruct (connection_add_header _ _ _ _ _ _) as [o c1] eqn:Ea.
  apply add_header_unread in Ea.
  destruct o; simpl in E; [|injection E as _ <-; by rewrite transmit_unread].
  destruct (ch =? 0); [by injection E as _ <-|]. apply bind_Some in E as ([o2 c2] & Ep & E).
  apply process_header_line_unread in Ep. destruct o2; injection E as _ <-; [|rewrite transmit_unread]; congruence.
Qed.

Lemma parse_cookie_unread c p ok c' next : parse_cookie d env c p = Some (ok, c', next) -> unread c' = unread c.
Proof using Type.
  unfold parse_cookie. intros E. do 5 (apply bind_Some in E as (? & _ & E)). destruct (negb _).
  - destruct (connection_add_header _ _ _ _ _ _) as [o c1] eqn:Ea. injection E as _ <- _.
    by apply add_header_unread in Ea.
  - do 3 (apply bind_Some in E as (? & _ & E)). apply bind_Some in E as ([m e] & _ & E).
    destruct (connection_add_header _ _ _ _ _ _) as [o c1] eqn:Ea. injection E as _ <- _.
    by apply add_header_unread in Ea.
Qed.

Lemma cookie_loop_unread fuel c p ok c' : cookie_loop d env fuel c p = Some (ok, c') -> unread c' = unread c.
Proof using Type.
  revert c p. induction fuel as [|fuel IH]; intros c p E; [done|]. cbn [cookie_loop] in E.
  apply bind_Some in E as ([[o c1] next] & Ep & E). apply parse_cookie_unread in Ep. destruct o; simpl in E; [|by injection E as _ <-].
  destruct next; [apply IH in E; congruence|by injection E as _ <-].
Qed.

Lemma parse_cookie_header_unread c ok c' : parse_cookie_header d env c = Some (ok, c') -> unread c' = unread c.
Proof using Type.
  unfold parse_cookie_header. intros E. apply bind_Some in E as (? & _ & E). apply bind_Some in E as (hdr & _ & E).
  destruct hdr; [|by injection E as _ <-]. destruct (MHD_pool_allocate _ _ _) as [[] p].
  - apply bind_Some in E as (? & _ & E). by apply cookie_loop_unread in E.
  - injection E as _ <-. by rewrite transmit_unread.
Qed.

Lemma parse_connection_headers_unread c c' : parse_connection_headers d env c = Some c' -> unread c' = unread c.
Proof using Type.
  unfold parse_connection_headers. intros E. apply bind_Some in E as ([ok c1] & Ec & E). apply parse_cookie_header_unread in Ec.
  apply bind_Some in E as (nh & _ & E). rewrite <- Ec. destruct nh.
  - injection E as <-. unfold refuse_without_host. by destruct (response_created env), (response_queued env).
  - unfold body_size in E. apply bind_Some in E as (enc & _ & E). destruct enc.
    + apply bind_Some in E as (? & _ & E). by injection E as <-.
    + apply bind_Some in E as (cl & _ & E). destruct cl; [|by injection E as <-].
      apply bind_Some in E as ([n v] & _ & E). do 2 (apply bind_Some in E as (? & _ & E)). destruct (_ || _); by injection E as <-.
Qed.

(** The state of a callback through the arguments of a URI. *)
Lemma parse_arguments_loop_state {St} (P : St -> Prop) ue (cb : St -> bytes -> nat -> option nat -> St * bool) fuel m args st num r :
  (forall s m k v, P s -> P (cb s m k v).1) -> P st ->
  parse_arguments_loop ue cb fuel m args st num = Some r -> P r.1.1.2.
Proof using Type.
  intros Hcb. revert m args st num. induction fuel as [|fuel IH]; intros m args st num Hst E; cbn [parse_arguments_loop] in E;
    apply bind_Some in E as (ch & _ & E); (destruct (ch =? 0); [by injection E as <-|]);
    apply bind_Some in E as (equals & _ & E); apply bind_Some in E as (amper & _ & E).
  all: assert (forall m' k v, P (cb st m' k v).1) as Hn by (intros; by apply Hcb).
  all: destruct amper as [a|]; [apply bind_Some in E as (m1 & _ & E); try done|].
  - destruct equals as [e|].
    + do 3 (apply bind_Some in E as (? & _ & E)).
      match type of E with context [cb st ?m ?k ?v] => specialize (Hn m k v); destruct (cb st m k v) as [s ok] end. by destruct ok; injection E as <-.
    + apply bind_Some in E as (? & _ & E).
      match type of E with context [cb st ?m ?k ?v] => specialize (Hn m k v); destruct (cb st m k v) as [s ok] end. by destruct ok; injection E as <-.
  - assert (forall m', (m' ← unescape_string ue m' args; let '(st, ok) := cb st m' args None in
              if ok then parse_arguments_loop ue cb fuel m' (S (args + a)) st (u32 (num + 1)) else Some (m', st, num, false)) = Some r -> P r.1.1.2) as Hnv.
    { intros m' E'. apply bind_Some in E' as (m2 & _ & E'). specialize (Hn m2 args None). destruct (cb st m2 args None) as [s ok].
      destruct ok; [by eapply IH|by injection E' as <-]. }
    destruct equals as [e|]; [|by eapply Hnv].
    destruct (_ <=? _)%nat; [by eapply Hnv|]. do 3 (apply bind_Some in E as (? & _ & E)).
    match type of E with context [cb st ?m ?k ?v] => specialize (Hn m k v); destruct (cb st m k v) as [s ok] end.
    destruct ok; [by eapply IH|by injection E as <-].
  - destruct equals as [e|].
    + do 3 (apply bind_Some in E as (? & _ & E)).
      match type of E with context [cb st ?m ?k ?v] => specialize (Hn m k v); destruct (cb st m k v) as [s ok] end. by destruct ok; injection E as <-.
    + apply bind_Some in E as (? & _ & E).
      match type of E with context [cb st ?m ?k ?v] => specialize (Hn m k v); destruct (cb st m k v) as [s ok] end. by destruct ok; injection E as <-.
Qed.

Lemma finish_line_unread c uri args c' : finish_line d env c uri args = Some c' -> unread c' = unread c.
Proof using Type.
  unfold finish_line. intros E. apply bind_Some in E as ([m c1] & Ea & E). apply bind_Some in E as ([m2 ?] & _ & E).
  injection E as <-. change (unread c1 = unread c). destruct args as [a|]; [|by injection Ea as _ <-].
  apply bind_Some in Ea as (m1 & _ & Ea). apply bind_Some in Ea as (r & Er & Ea). unfold MHD_parse_arguments_ in Er.
  eapply (parse_arguments_loop_state (λ c', unread c' = unread c)) in Er; [|..|done].
  - destruct r as [[[? c2] ?] ?]. by injection Ea as _ <-.
  - intros c2 m' k v H2. destruct (connection_add_header _ _ _ _ _ _) as [ok c3] eqn:Eh. apply add_header_unread in Eh. simpl. congruence.
Qed.

Lemma parse_initial_message_line_unread c line len ok c' :
  parse_initial_message_line d env c line len = Some (ok, c') -> unread c' = unread c.
Proof using Type.
  unfold parse_initial_message_line. intros E. apply bind_Some in E as (sp & _ & E). destruct sp; [|by injection E as _ <-].
  apply bind_Some in E as (m & _ & E). apply bind_Some in E as (uri & _ & E).
  destruct (_ =? len); [injection E as _ <-; by destruct (has_uri_log d)|].
  apply bind_Some in E as ([[m2 ver] ul] & _ & E). apply bind_Some in E as (space & _ & E). destruct space; [by injection E as _ <-|].
  apply bind_Some in E as (args & _ & E). apply bind_Some in E as (c2 & Ef & E). apply finish_line_unread in Ef.
  injection E as _ <-. change (unread c2 = unread c). rewrite Ef. by destruct (has_uri_log d).
Qed.

(** A line is taken out of the unread bytes. *)
Lemma scan_le f left p n : scan f left p = Some n -> (n <= left)%nat.
Proof using Type.
  clear d env. revert p n. induction left as [|left IH]; intros p n E; cbn [scan] in E; [by injection E as <-|].
  apply bind_Some in E as (ch & _ & E). destruct (f ch); [injection E as <-; lia|].
  apply bind_Some in E as (k & Ek & E). injection E as <-. apply IH in Ek. lia.
Qed.

Lemma try_grow_unread n c ok c' : try_grow_read_buffer n c = Some (ok, c') -> unread c' = unread c.
Proof using Type.
  unfold try_grow_read_buffer. intros E. apply bind_Some in E as ([b p] & _ & E). by destruct b; injection E as _ <-.
Qed.

Lemma get_next_header_line_unread c line len c' :
  0 <= unread c -> get_next_header_line d env c = Some (line, len, c') ->
  match line with None => unread c' = unread c | Some _ => 0 <= unread c' < unread c end.
Proof using Type.
  intros H0 E. unfold get_next_header_line in E. destruct (Z.eqb_spec (unread c) 0) as [|Hne]; [by injection E as <- _ <-|].
  apply bind_Some in E as (rb & _ & E). apply bind_Some in E as (n & En & E). apply scan_le in En. apply bind_Some in E as (ch & _ & E).
  destruct (_ && _) eqn:Eb.
  { apply bind_Some in E as (c1 & Ec & E). injection E as <- _ <-. destruct (_ =? read_buffer_size c); [|by injection Ec as <-].
    apply bind_Some in Ec as ([ok c2] & Eg & Ec). apply try_grow_unread in Eg. destruct ok; injection Ec as <-; [done|].
    by rewrite transmit_unread. }
  apply bind_Some in E as (crlf & Ecr & E). apply bind_Some in E as (m1 & _ & E). apply bind_Some in E as (m2 & _ & E).
  injection E as <- _ <-. simpl. assert (crlf = true -> Z.of_nat n <> unread c - 1) as Hcr.
  { intros ->. destruct (Z.eqb_spec ch 13) as [->|]; [|done]. intros Ez. rewrite Ez, Z.eqb_refl in Eb. done. }
  destruct crlf; [specialize (Hcr eq_refl); lia|lia].
Qed.

(** ** An order of the states *)

Definition rank (s : conn_state) : nat :=
  match s with
  | MHD_CONNECTION_HEADERS_SENT => 21
  | MHD_CONNECTION_NORMAL_BODY_UNREADY | MHD_CONNECTION_CHUNKED_BODY_UNREADY => 20
  | MHD_CONNECTION_NORMAL_BODY_READY | MHD_CONNECTION_CHUNKED_BODY_READY => 19
  | MHD_CONNECTION_BODY_SENT => 18
  | MHD_CONNECTION_FOOTERS_SENDING => 17
  | MHD_CONNECTION_FOOTERS_SENT => 16
  | MHD_CONNECTION_INIT => 15
  | MHD_CONNECTION_URL_RECEIVED => 14
  | MHD_CONNECTION_HEADER_PART_RECEIVED => 13
  | MHD_CONNECTION_HEADERS_RECEIVED => 12
  | MHD_CONNECTION_HEADERS_PROCESSED => 11
  | MHD_CONNECTION_CONTINUE_SENDING => 10
  | MHD_CONNECTION_CONTINUE_SENT => 9
  | MHD_CONNECTION_BODY_RECEIVED => 8
  | MHD_CONNECTION_FOOTER_PART_RECEIVED => 7
  | MHD_CONNECTION_FOOTERS_RECEIVED => 6
  | MHD_CONNECTION_HEADERS_SENDING => 1
  | MHD_CONNECTION_CLOSED => 0
  end.

Definition measure (c : MHD_Connection) : nat := rank (state c) + Z.to_nat (unread c).

(** The states in which the loop may be left to wait. *)
Definition waits (s : conn_state) : bool :=
  match s with
  | MHD_CONNECTION_HEADERS_RECEIVED | MHD_CONNECTION_HEADERS_PROCESSED | MHD_CONNECTION_HEADERS_SENT
  | MHD_CONNECTION_BODY_SENT | MHD_CONNECTION_FOOTERS_SENT => false
  | _ => true
  end.

Definition reads_lines (s : conn_state) : bool :=
  match s with
  | MHD_CONNECTION_INIT | MHD_CONNECTION_URL_RECEIVED | MHD_CONNECTION_HEADER_PART_RECEIVED
  | MHD_CONNECTION_HEADERS_RECEIVED | MHD_CONNECTION_BODY_RECEIVED | MHD_CONNECTION_FOOTER_PART_RECEIVED => true
  | _ => false
  end.

(** From [s] the loop may be left to wait in [s']; what reads lines waits in
    its own state. *)
Definition waits_from (s s' : conn_state) : Prop := waits s' = true /\ (reads_lines s' = true -> s' = s).

(** What a round does to a connection when it goes on, and when it does not. *)
Definition advances (c : MHD_Connection) (go_on : bool) (c' : MHD_Connection) : Prop :=
  0 <= unread c' <= unread c /\ (if go_on then (measure c' < measure c)%nat else waits_from (state c) (state c')).

Lemma advances_rank c c' : 0 <= unread c' <= unread c -> (rank (state c') < rank (state c))%nat -> advances c true c'.
Proof using Type. clear d env. intros Hu Hr. split; [done|]. unfold measure. lia. Qed.

Lemma transmit_state c code :
  state (transmit_error_response d env c code) = MHD_CONNECTION_HEADERS_SENDING
  \/ state (transmit_error_response d env c code) = MHD_CONNECTION_CLOSED.
Proof using Type.
  unfold transmit_error_response. destruct (version (req c)), (response_created env), (response_queued env), (header_built env);
    simpl; tauto.
Qed.

Lemma get_next_header_line_state c line len c' :
  get_next_header_line d env c = Some (line, len, c') ->
  state c' = state c \/ line = None /\ (state c' = MHD_CONNECTION_HEADERS_SENDING \/ state c' = MHD_CONNECTION_CLOSED).
Proof using Type.
  intros E. unfold get_next_header_line in E. destruct (unread c =? 0); [injection E as <- _ <-; by left|].
  do 3 (apply bind_Some in E as (? & _ & E)). destruct (_ && _).
  - apply bind_Some in E as (c1 & Ec & E). injection E as <- _ <-. destruct (_ =? read_buffer_size c); [|injection Ec as <-; by left].
    apply bind_Some in Ec as ([ok c2] & Eg & Ec). destruct ok; injection Ec as <-; [|right; split; [done|apply transmit_state]].
    left. unfold try_grow_read_buffer in Eg. apply bind_Some in Eg as ([b p] & _ & Eg). destruct b; [by injection Eg as <-|done].
  - do 3 (apply bind_Some in E as (? & _ & E)). injection E as _ _ <-. by left.
Qed.

Lemma process_header_line_state c line c' : process_header_line d c line = Some (true, c') -> state c' = state c.
Proof using Type.
  unfold process_header_line. intros E. apply bind_Some in E as (col & _ & E). destruct col as [k|]; [|done].
  apply bind_Some in E as (refused & _ & E). destruct refused; [done|]. do 2 (apply bind_Some in E as (? & _ & E)). by injection E as <-.
Qed.

Lemma process_broken_line_state c line k ok c' :
  process_broken_line d env c line k = Some (ok, c') ->
  if ok then state c' = state c else state c' = MHD_CONNECTION_HEADERS_SENDING \/ state c' = MHD_CONNECTION_CLOSED.
Proof using Type.
  unfold process_broken_line. intros E. apply bind_Some in E as (lst & _ & E). apply bind_Some in E as (ch & _ & E).
  destruct (is_blank ch).
  { unfold continue_line in E. do 3 (apply bind_Some in E as (? & _ & E)). apply bind_Some in E as ([l p] & _ & E). destruct l as [l|].
    - apply bind_Some in E as (m & _ & E). by injection E as <- <-.
    - injection E as <- <-. apply transmit_state. }
  apply bind_Some in E as (col & _ & E). destruct (connection_add_header _ _ _ _ _ _) as [o c1] eqn:Ea.
  destruct o; simpl in E; [|injection E as <- <-; apply transmit_state].
  assert (state c1 = state c) as H1.
  { unfold connection_add_header in Ea. destruct (MHD_pool_allocate _ _ _) as [[] p]; [|done]. by injection Ea as <-. }
  destruct (ch =? 0); [by injection E as <- <-|]. apply bind_Some in E as ([o2 c2] & Ep & E).
  destruct o2; injection E as <- <-; [|apply transmit_state]. apply process_header_line_state in Ep. congruence.
Qed.

(** No complete line: the error reply, the closed connection, or waiting. *)
Lemma no_line_advances c c1 line len s go c' :
  0 <= unread c -> state c = s -> (6 < rank s)%nat -> waits s = true ->
  get_next_header_line d env c = Some (line, len, c1) -> 0 <= unread c1 <= unread c -> no_line d c1 s = (go, c') ->
  advances c go c'.
Proof using Type.
  intros H0 Hs Hr Hw E Hu En. apply get_next_header_line_state in E as Es. unfold no_line in En.
  case_bool_decide as Hst; simpl in En.
  - destruct (read_closed c1); injection En as <- <-; [|split; [done|by rewrite Hst]]. apply advances_rank; [done|]. rewrite Hs. simpl. lia.
  - injection En as <- <-. apply advances_rank; [done|]. rewrite Hs.
    destruct Es as [Es|[_ [Es|Es]]]; rewrite Es in *; [congruence|simpl; lia..].
Qed.

Lemma first_line_advances here part done_ c go c' :
  0 <= unread c -> state c = here -> (6 < rank here)%nat -> waits here = true ->
  (rank part < rank here)%nat -> (rank done_ < rank here)%nat ->
  idle_first_line d env here part done_ c = Some (go, c') -> advances c go c'.
Proof using Type.
  intros H0 Hs Hr Hw Hp Hd E. unfold idle_first_line in E. apply bind_Some in E as ([[line len] c1] & El & E).
  pose proof (get_next_header_line_unread _ _ _ _ H0 El) as Hu. destruct line as [line|].
  - apply bind_Some in E as (ch & _ & E). destruct (ch =? 0); [injection E as <- <-; apply advances_rank; [simpl; lia|by rewrite Hs]|].
    apply bind_Some in E as ([ok c2] & Ep & E). apply process_header_line_unread in Ep.
    destruct ok; injection E as <- <-; [apply advances_rank; [simpl; lia|by rewrite Hs]|].
    split; [rewrite transmit_unread; lia|]. by destruct (transmit_state c2 400) as [-> | ->].
  - injection E as E. eapply no_line_advances; [done..|lia|done].
Qed.

Lemma next_line_advances here done_ k c go c' :
  0 <= unread c -> state c = here -> (6 < rank here)%nat -> waits here = true -> (rank done_ < rank here)%nat ->
  idle_next_line d env here done_ k c = Some (go, c') -> advances c go c'.
Proof using Type.
  intros H0 Hs Hr Hw Hd E. unfold idle_next_line in E. apply bind_Some in E as ([[line len] c1] & El & E).
  pose proof (get_next_header_line_unread _ _ _ _ H0 El) as Hu. pose proof (get_next_header_line_state _ _ _ _ El) as Hst.
  destruct line as [line|].
  - destruct Hst as [Hst|[? _]]; [|done]. apply bind_Some in E as ([ok c2] & Ep & E).
    pose proof (process_broken_line_unread _ _ _ _ _ Ep) as Hu2. apply process_broken_line_state in Ep. destruct ok; simpl in E.
    + apply bind_Some in E as (ch & _ & E). injection E as <- <-. destruct (ch =? 0).
      * apply advances_rank; [simpl; lia|by rewrite Hs].
      * split; [lia|]. unfold measure. rewrite Ep, Hst. lia.
    + injection E as <- <-. apply advances_rank; [lia|]. rewrite Hs. destruct Ep as [-> | ->]; simpl; lia.
  - injection E as E. eapply no_line_advances; [done..|lia|done].
Qed.

Lemma idle_step_advances c go c' :
  0 <= unread c -> reads_lines (state c) = true -> idle_step d env c = Some (go, c') -> advances c go c'.
Proof using Type.
  intros H0 Hrl E. unfold idle_step in E. destruct (state c) eqn:Hs; try done.
  - unfold idle_init in E. apply bind_Some in E as ([[line len] c1] & El & E).
    pose proof (get_next_header_line_unread _ _ _ _ H0 El) as Hu. destruct line as [line|].
    + apply bind_Some in E as (ch & _ & E). destruct (ch =? 0).
      * injection E as E. eapply no_line_advances; [done|exact Hs|simpl; lia|done|done|lia|done].
      * apply bind_Some in E as ([ok c2] & Ep & E). apply parse_initial_message_line_unread in Ep.
        injection E as <- <-. destruct ok; (apply advances_rank; [simpl; lia|rewrite Hs; simpl; lia]).
    + injection E as E. eapply no_line_advances; [done|exact Hs|simpl; lia|done|done|lia|done].
  - eapply first_line_advances in E; [done|done|exact Hs|simpl; lia..].
  - eapply next_line_advances in E; [done|done|exact Hs|simpl; lia..].
  - unfold idle_headers_received in E. apply bind_Some in E as (c1 & Ep & E). apply parse_connection_headers_unread in Ep.
    injection E as <- <-. case_bool_decide as Hc; (apply advances_rank; [simpl; lia|rewrite Hs; simpl]); [rewrite Hc; simpl; lia|lia].
  - eapply first_line_advances in E; [done|done|exact Hs|simpl; lia..].
  - eapply next_line_advances in E; [done|done|exact Hs|simpl; lia..].
Qed.
End Head.

(** ** The body of a request *)

Section Body.
Context `{Platform} {App : Type} (upload_data : App -> bytes -> App * bool * nat).

Definition round_available (r : RequestBody.round) : option nat :=
  match r with
  | Deliver _ _ _ _ available | Leave _ _ available | Go_on _ _ _ available => Some available
  | Bad_encoding _ => None
  end.

Lemma next_round_available u hb n r k : next_round u hb n = Some r -> round_available r = Some k -> (k <= n)%nat.
Proof using Type.
  unfold next_round. intros E Hk. destruct (_ && _).
  2:{ injection E as <-. unfold plain_round in Hk. destruct (_ && _ && _); injection Hk as <-; done. }
  unfold chunked_round in E. apply bind_Some in E as (sk & Es & E). destruct sk as [[[u1 hb1] n1]|]; [|by injection E as <-].
  assert (n1 <= n)%nat as H1.
  { unfold skip_chunk_end in Es. destruct (_ && _ && _); [|by injection Es as _ _ <-]. do 2 (apply bind_Some in Es as (? & _ & Es)).
    destruct (_ =? 0)%nat; [done|]. injection Es as _ _ <-. lia. }
  destruct (_ <? _); [destruct (_ >? _); injection E as <-; injection Hk as <-; done|].
  apply bind_Some in E as (l & El & E). destruct l as [|u2|u2 hb2 n2]; [injection E as <-; by injection Hk as <-|by injection E as <-|].
  assert (n2 <= n1)%nat as H2.
  { unfold read_size_line in El. apply bind_Some in El as ([es i] & _ & El). apply bind_Some in El as (more & _ & El).
    destruct more; [done|]. destruct (_ <=? _)%nat; [done|]. apply bind_Some in El as ([nd sz] & _ & El).
    apply bind_Some in El as (sz' & _ & El). destruct (negb _); [done|]. apply bind_Some in El as (i' & _ & El). injection El as _ _ <-. lia. }
  destruct (_ =? 0); injection E as <-; injection Hk as <-; lia.
Qed.

Definition step_available (r : step_result) : option nat :=
  match r with Finish _ _ n | Retry _ _ n => Some n | _ => None end.

Lemma body_iteration_available u aware app hb n r aware' app' k :
  body_iteration upload_data u aware app hb n = Some (r, aware', app') -> step_available r = Some k -> (k <= n)%nat.
Proof using Type.
  unfold body_iteration. intros E Hk. apply bind_Some in E as (rd & En & E). pose proof (next_round_available _ _ _ _ k En) as Hr.
  destruct rd as [tbp retry u1 hb1 n1|u1 hb1 n1|retry u1 hb1 n1|u1].
  - apply bind_Some in E as (data & _ & E). destruct (upload_data app data) as [[app2 ok] left].
    pose proof (next_round_available _ _ _ _ n1 En eq_refl). destruct (negb ok); [by injection E as <- _ _|].
    destruct (_ <? _)%nat; [by injection E as <- _ _|]. injection E as <- _ _.
    assert (k = n1 - (tbp - left))%nat as ->; [|lia].
    destruct (if negb (left =? 0)%nat then false else retry); by injection Hk as <-.
  - injection E as <- _ _. by apply Hr.
  - injection E as <- _ _. apply Hr. by destruct retry.
  - by injection E as <- _ _.
Qed.

Lemma body_loop_available fuel u aware app hb n r aware' app' k :
  body_loop upload_data fuel u aware app hb n = Some (r, aware', app') -> step_available r = Some k -> (k <= n)%nat.
Proof using Type.
  revert u aware app hb n. induction fuel as [|fuel IH]; intros u aware app hb n E Hk; [done|]. cbn [body_loop] in E.
  apply bind_Some in E as ([[r1 a1] p1] & Ei & E). destruct r1 as [u1 hb1 n1|u1 hb1 n1|u1|].
  - injection E as <- _ _. by eapply body_iteration_available.
  - pose proof (body_iteration_available _ _ _ _ _ _ _ _ n1 Ei eq_refl). specialize (IH _ _ _ _ _ E Hk). lia.
  - by injection E as <- _ _.
  - by injection E as <- _ _.
Qed.

Lemma process_request_body_advances n c app c' app' :
  0 <= unread c -> process_request_body upload_data n c app = Some (Returned c', app') ->
  0 <= unread c' <= unread c /\ (state c' = state c \/ state c' = MHD_CONNECTION_CLOSED).
Proof using Type.
  intros H0 E. unfold process_request_body in E. destruct (Connection.response c); [injection E as <- _; split; [lia|by left]|].
  apply bind_Some in E as (rb & _ & E). apply bind_Some in E as ([[r aware] app2] & Eb & E).
  assert (forall k, step_available r = Some k -> (k <= Z.to_nat (unread c))%nat) as Hk by (intros k; by eapply body_loop_available).
  destruct r as [u hb k|u hb k|u|]; [| |injection E as <- _; split; [simpl; lia|by right]|done];
    (specialize (Hk k eq_refl); do 2 (apply bind_Some in E as (? & _ & E)); injection E as <- _; split; [simpl; lia|by left]).
Qed.

Lemma continue_sent_advances n c app c' app' :
  0 <= unread c -> state c = MHD_CONNECTION_CONTINUE_SENT ->
  idle_continue_sent upload_data n c app = Some (Returned c', app') ->
  advances c (negb (bool_decide (state c' = MHD_CONNECTION_CONTINUE_SENT))) c'.
Proof using Type.
  intros H0 Hs E. unfold idle_continue_sent in E. apply bind_Some in E as ([r app1] & Er & E).
  assert (forall c1, r = Returned c1 -> 0 <= unread c1 <= unread c /\ (state c1 = state c \/ state c1 = MHD_CONNECTION_CLOSED)) as Hr.
  { intros c1 ->. destruct (unread c =? 0); [injection Er as <- _; split; [lia|by left]|]. by eapply process_request_body_advances. }
  destruct r as [c1|]; [|done]. destruct (Hr c1 eq_refl) as [Hu Hst]. rewrite Hs in Hst. case_bool_decide as Hc.
  { injection E as <- _. rewrite Hc. apply advances_rank; [lia|]. rewrite Hs, Hc. simpl. lia. }
  destruct Hst as [Hst|]; [|done]. destruct (_ || _).
  - injection E as <- _. destruct (_ && _); (apply advances_rank; [simpl; lia|rewrite Hs; simpl; lia]).
  - injection E as <- _. rewrite Hst. split; [lia|by rewrite Hst].
Qed.
End Body.

(** ** The reply *)

Section Sending.
Context `{Platform} (n : bool) (cfg : reply_config) (size : Z).

Lemma drop_response_con w : unread (con (drop_response w).1) = unread (con w) /\ state (con (drop_response w).1) = state (con w).
Proof using Type. unfold drop_response. by destruct (resp w). Qed.

Lemma reply_close_con w code : unread (con (reply_close n w code)) = unread (con w) /\ state (con (reply_close n w code)) = MHD_CONNECTION_CLOSED.
Proof using Type. unfold reply_close. destruct (drop_response_con (set_con w (MHD_connection_close_ n (con w) code))) as [-> ->]. done. Qed.

Lemma close_error_con w : unread (con (close_error n w)) = unread (con w) /\ state (con (close_error n w)) = MHD_CONNECTION_CLOSED.
Proof using Type. apply reply_close_con. Qed.

Lemma queue_response_con sd wt idle tls w code r a b w' :
  MHD_queue_response cfg sd wt idle tls w code r = Some (a, b, w') ->
  unread (con w') = unread (con w) /\ (state (con w') = state (con w) \/ state (con w') = MHD_CONNECTION_FOOTERS_RECEIVED).
Proof using Type.
  unfold MHD_queue_response. intros E. destruct r as [r|]; [|injection E as _ _ <-; auto].
  destruct (_ || _); [injection E as _ _ <-; auto|]. destruct sd; [injection E as _ _ <-; auto|].
  destruct wt; [injection E as _ _ <-; auto|]. destruct (_ && _); [injection E as _ _ <-; auto|].
  do 3 (apply bind_Some in E as (? & _ & E)). injection E as _ _ <-. simpl. destruct (_ && (_ || _)); simpl; auto.
Qed.

Lemma analyse_reply_con w r p w' : analyse_reply w r = Some (p, w') -> unread (con w') = unread (con w).
Proof using Type.
  unfold analyse_reply. intros E. do 4 (apply bind_Some in E as (? & _ & E)). apply bind_Some in E as ([[mc mk] ch] & _ & E).
  do 2 (apply bind_Some in E as (? & _ & E)). injection E as _ <-. by destruct (_ || _).
Qed.

Lemma build_header_response_con w ok w' : build_header_response cfg w = Some (ok, w') -> unread (con w') = unread (con w).
Proof using Type.
  unfold build_header_response. intros E. do 2 (apply bind_Some in E as (? & _ & E)). case_bool_decide.
  { destruct (MHD_pool_allocate _ _ _). by injection E as _ <-. }
  destruct (_ && _); [by injection E as _ <-|]. apply bind_Some in E as (r & _ & E). apply bind_Some in E as ([[code date] k] & _ & E).
  apply bind_Some in E as ([p w1] & Ep & E). apply bind_Some in E as (sz & _ & E).
  assert (unread (con (decide_keepalive p w1)) = unread (con w)) as Hk.
  { assert (unread (con w1) = unread (con w)) as <-.
    { unfold plan_of in Ep. case_bool_decide; [by eapply analyse_reply_con|by injection Ep as _ <-]. }
    unfold decide_keepalive. case_bool_decide; [done|]. by repeat match goal with |- context [if ?b then _ else _] => destruct b end. }
  destruct (MHD_pool_allocate _ _ _) as [[data|] p']; [|by injection E as _ <-].
  do 5 (apply bind_Some in E as ([? ?] & _ & E)). destruct (negb _); [done|by injection E as _ <-].
Qed.

Lemma try_ready_normal_con w crc_call ok w' :
  try_ready_normal_body n w crc_call = Some (ok, w') ->
  unread (con w') = unread (con w)
  /\ (ok = false -> state (con w') = MHD_CONNECTION_CLOSED \/ state (con w') = MHD_CONNECTION_NORMAL_BODY_UNREADY).
Proof using Type.
  unfold try_ready_normal_body. intros E. apply bind_Some in E as (r & _ & E). destruct (crc r); [|by injection E as <- <-].
  destruct (_ || _); [by injection E as <- <-|]. destruct (_ && _); [by injection E as <- <-|]. destruct (sendfile w); [by injection E as <- <-|].
  destruct (crc_call _ _) as [bs| |].
  - do 2 (apply bind_Some in E as (? & _ & E)). case_bool_decide; injection E as <- <-; [|done]. split; [done|by right].
  - injection E as <- <-. destruct (reply_close_con (set_resp w (Some (set_total r (response_write_position w)))) MHD_REQUEST_TERMINATED_COMPLETED_OK) as [-> ->]. auto.
  - injection E as <- <-. destruct (reply_close_con (set_resp w (Some (set_total r (response_write_position w)))) MHD_REQUEST_TERMINATED_WITH_ERROR) as [-> ->]. auto.
Qed.

Lemma chunk_buffer_con w ok w' :
  chunk_buffer n size w = Some (ok, w') ->
  unread (con w') = unread (con w) /\ (ok = false -> state (con w') = MHD_CONNECTION_CLOSED).
Proof using Type.
  unfold chunk_buffer. intros E. destruct (0 =? _); [|by injection E as <- <-].
  apply bind_Some in E as ([b p] & _ & E). destruct b as [[bf sz]|]; injection E as <- <-; [done|].
  destruct (close_error_con (set_con w (set_pool (con w) p))) as [-> ->]. auto.
Qed.

Lemma try_ready_chunked_con w crc_call ok w' :
  try_ready_chunked_body n size w crc_call = Some (ok, w') ->
  unread (con w') = unread (con w)
  /\ (ok = false -> state (con w') = MHD_CONNECTION_CLOSED \/ state (con w') = MHD_CONNECTION_CHUNKED_BODY_UNREADY).
Proof using Type.
  unfold try_ready_chunked_body. intros E. apply bind_Some in E as (r & _ & E). destruct (crc r); [|by injection E as <- <-].
  apply bind_Some in E as ([o w1] & Ec & E). apply chunk_buffer_con in Ec as [Hu Hc]. rewrite <- Hu.
  destruct o; simpl in E; [|injection E as <- <-; auto]. apply bind_Some in E as (wb & _ & E). apply bind_Some in E as ([ret m] & _ & E).
  destruct ret as [bs| |]; simpl in E.
  - destruct (0 =? total_size r); [apply bind_Some in E as (? & _ & E); by injection E as <- <-|].
    case_bool_decide; [injection E as <- <-; split; [done|by right]|]. do 2 (apply bind_Some in E as (? & _ & E)). by injection E as <- <-.
  - apply bind_Some in E as (? & _ & E). by injection E as <- <-.
  - injection E as <- <-. match goal with |- context [close_error n ?x] => destruct (close_error_con x) as [-> ->] end. auto.
Qed.

Definition sends (s : conn_state) : bool :=
  match s with
  | MHD_CONNECTION_CONTINUE_SENDING | MHD_CONNECTION_HEADERS_SENDING
  | MHD_CONNECTION_NORMAL_BODY_READY | MHD_CONNECTION_NORMAL_BODY_UNREADY
  | MHD_CONNECTION_CHUNKED_BODY_READY | MHD_CONNECTION_CHUNKED_BODY_UNREADY
  | MHD_CONNECTION_BODY_SENT | MHD_CONNECTION_FOOTERS_SENDING | MHD_CONNECTION_FOOTERS_SENT => true
  | _ => false
  end.

Lemma reply_step_advances handler upgrade crc_call w go w' :
  0 <= unread (con w) -> sends (state (con w)) = true ->
  reply_step n cfg size handler upgrade crc_call w = Some (go, w') -> advances (con w) go (con w').
Proof using Type.
  intros H0 Hs E. unfold reply_step in E. destruct (state (con w)) eqn:Hst; try done.
  - destruct (_ =? _); injection E as <- <-; [apply advances_rank; [simpl; lia|rewrite Hst; simpl; lia]|split; [lia|by rewrite Hst]].
  - injection E as <- <-. split; [lia|by rewrite Hst].
  - injection E as <- <-. split; [lia|by rewrite Hst].
  - unfold idle_normal_body_unready in E. apply bind_Some in E as (r & _ & E). destruct (0 =? _).
    { injection E as <- <-. apply advances_rank; [simpl; lia|rewrite Hst; simpl; lia]. }
    apply bind_Some in E as ([ok w1] & Et & E). apply try_ready_normal_con in Et as [Hu Hc]. injection E as <- <-.
    destruct ok; (split; [simpl; lia|]); [done|]. by destruct (Hc eq_refl) as [-> | ->].
  - injection E as <- <-. split; [lia|by rewrite Hst].
  - unfold idle_chunked_body_unready in E. apply bind_Some in E as (r & _ & E). destruct (_ || _).
    { injection E as <- <-. apply advances_rank; [simpl; lia|rewrite Hst; simpl; lia]. }
    apply bind_Some in E as ([ok w1] & Et & E). apply try_ready_chunked_con in Et as [Hu Hc].
    destruct ok; injection E as <- <-; [apply advances_rank; [simpl; lia|rewrite Hst; simpl; lia]|]. split; [lia|]. by destruct (Hc eq_refl) as [-> | ->].
  - unfold idle_body_sent in E. apply bind_Some in E as ([ok w1] & Eb & E). apply build_header_response_con in Eb.
    injection E as <- <-. destruct ok; simpl negb; cbv iota.
    + destruct (_ || _); (apply advances_rank; [simpl; lia|rewrite Hst; simpl; lia]).
    + destruct (close_error_con w1) as [Hu Hc]. apply advances_rank; [lia|rewrite Hc, Hst; simpl; lia].
  - injection E as <- <-. split; [lia|by rewrite Hst].
  - unfold idle_footers_sent in E. destruct (102 =? _).
    { injection E as <- <-. destruct (drop_response_con (set_reply_state w MHD_CONNECTION_HEADERS_PROCESSED)) as [Hu Hs2].
      apply advances_rank; [rewrite Hu; simpl; lia|rewrite Hs2, Hst; simpl; lia]. }
    destruct (drop_response_con w) as [Hu _]. destruct (_ || _).
    + injection E as <- <-. apply advances_rank; [simpl; lia|]. simpl.
      match goal with |- context [reply_close n ?x ?y] => destruct (reply_close_con x y) as [_ ->] end. rewrite Hst. simpl. lia.
    + apply bind_Some in E as ([rb p] & _ & E). injection E as <- <-. apply advances_rank; [simpl; lia|rewrite Hst; simpl; lia].
Qed.
End Sending.

(** ** Error replies *)

Section Errors.
Context `{Platform} (cfg : idle_config).

Lemma queue_message_con w code msg r w' :
  queue_message cfg w code msg = Some (r, w') ->
  unread (con w') = unread (con w) /\ (state (con w') = state (con w) \/ state (con w') = MHD_CONNECTION_FOOTERS_RECEIVED).
Proof using Type.
  unfold queue_message. intros E. apply bind_Some in E as (o & _ & E). destruct o as [r1|]; [|injection E as _ <-; auto].
  apply bind_Some in E as ([[iret ?] w1] & Eq & E). apply queue_response_con in Eq.
  injection E as _ <-. by destruct (resp w), (resp w1).
Qed.

Lemma send_error_response_con w code w' :
  send_error_response cfg w code = Some w' ->
  unread (con w') = unread (con w)
  /\ (state (con w') = MHD_CONNECTION_HEADERS_SENDING \/ state (con w') = MHD_CONNECTION_CLOSED).
Proof using Type.
  unfold send_error_response. intros E. apply bind_Some in E as ([iret w1] & Eq & E).
  apply queue_message_con in Eq as [Hu _].
  match type of Hu with context [drop_response ?x] => destruct (drop_response_con x) as [Hd _] end.
  rewrite Hd in Hu. assert (unread (con w1) = unread (con w)) as <- by (rewrite Hu; by destruct (version (req (con w)))).
  destruct iret as [[]|].
  - apply bind_Some in E as ([ok w2] & Eb & E). apply build_header_response_con in Eb. injection E as <-. destruct ok; [auto|].
    destruct (close_error_con (notify (daemon cfg)) w2) as [-> ->]. auto.
  - injection E as <-. destruct (close_error_con (notify (daemon cfg)) w1) as [-> ->]. auto.
  - injection E as <-. auto.
Qed.

Lemma after_con_same w c : unread (con (after_con w c)) = unread c /\ state (con (after_con w c)) = state c.
Proof using Type. unfold after_con. case_bool_decide; [|done]. by destruct (drop_response_con (set_con w c)) as [-> ->]. Qed.

(** What [settle] does to the state: only an error reply that cannot be made
    changes what the receiving half decided. *)
Lemma settle_con w c w' :
  settle cfg w c = Some w' ->
  unread (con w') = unread c
  /\ (state (con w') = state c \/ state c = MHD_CONNECTION_HEADERS_SENDING /\ state (con w') = MHD_CONNECTION_CLOSED).
Proof using Type.
  unfold settle. intros E. destruct (Connection.response c) as [code|].
  - apply bind_Some in E as (w1 & E1 & E). apply send_error_response_con in E1 as [Hu1 Hs1].
    apply bind_Some in E as (w2 & E2 & E). injection E as <-.
    assert (unread (con w2) = unread c
            /\ (state (con w2) = MHD_CONNECTION_HEADERS_SENDING \/ state (con w2) = MHD_CONNECTION_CLOSED)) as [Hu2 Hs2].
    { destruct (replies_twice w c); [|by injection E2 as <-]. apply send_error_response_con in E2 as [-> ?]. done. }
    case_bool_decide as Hc; [|auto]. split; [done|]. rewrite Hc. tauto.
  - injection E as <-. case_bool_decide; [|auto]. destruct (after_con_same w c) as [-> ->]. auto.
Qed.

Lemma settle_advances c0 go w c w' : advances c0 go c -> settle cfg w c = Some w' -> advances c0 go (con w').
Proof using Type.
  unfold advances, measure. intros [Hu Hs] E. apply settle_con in E as [-> Hst]. split; [done|].
  destruct Hst as [->|[Hc ->]]; [done|]. rewrite Hc in Hs. destruct go; [simpl in *; lia|by split].
Qed.

Lemma refuse_request_con w w' : refuse_request cfg w = Some w' -> unread (con w') = unread (con w).
Proof using Type.
  unfold refuse_request. intros E. apply bind_Some in E as ([iret w1] & Eq & E). apply queue_message_con in Eq as [Hu _].
  injection E as <-. by destruct iret as [[]|]; [|destruct (close_error_con (notify (daemon cfg)) w1) as [-> _]..].
Qed.

Lemma body_size_unread d c c' : body_size d c = Some c' -> unread c' = unread c.
Proof using Type.
  unfold body_size. intros E. apply bind_Some in E as (enc & _ & E). destruct enc.
  - apply bind_Some in E as (? & _ & E). by injection E as <-.
  - apply bind_Some in E as (cl & _ & E). destruct cl; [|by injection E as <-].
    apply bind_Some in E as ([n v] & _ & E). do 2 (apply bind_Some in E as (? & _ & E)). destruct (_ || _); by injection E as <-.
Qed.

Lemma reply_headers_received_advances w go w' :
  0 <= unread (con w) -> state (con w) = MHD_CONNECTION_HEADERS_RECEIVED ->
  reply_headers_received cfg w = Some (go, w') -> advances (con w) go (con w').
Proof using Type.
  intros H0 Hs E. unfold reply_headers_received in E. apply bind_Some in E as ([ok c] & Ec & E). apply parse_cookie_header_unread in Ec.
  apply bind_Some in E as (w1 & E1 & E). apply settle_con in E1 as [Hu1 _]. apply bind_Some in E as (nh & _ & E).
  apply bind_Some in E as (w2 & E2 & E). assert (unread (con w2) = unread (con w)) as Hu2.
  { rewrite Ec in Hu1. transitivity (unread (con w1)); [|done]. destruct nh; [by apply refuse_request_con|].
    apply bind_Some in E2 as (c2 & Eb & E2). apply body_size_unread in Eb as <-. injection E2 as <-.
    by destruct (after_con_same w1 c2) as [-> _]. }
  injection E as <- <-. case_bool_decide as Hc; (apply advances_rank; [simpl; lia|rewrite Hs]); [rewrite Hc; simpl; lia|simpl; lia].
Qed.

Lemma receive_step_advances w go w' :
  0 <= unread (con w) -> reads_lines (state (con w)) = true -> receive_step cfg w = Some (go, w') -> advances (con w) go (con w').
Proof using Type.
  intros H0 Hr E. unfold receive_step in E. case_bool_decide as Hc; [by apply reply_headers_received_advances|].
  apply bind_Some in E as ([go1 c] & Ei & E). apply bind_Some in E as (w1 & Es & E). injection E as <- <-.
  apply (idle_step_advances _ _ (receiving w)) in Ei; [|done..]. by eapply settle_advances.
Qed.
End Errors.

(** ** The whole loop *)

Section Loop.
Context `{Platform} {App : Type} (app_ : application (App := App)) (cfg : idle_config) (crc_call : Z -> Z -> crc_result).

Lemma call_connection_handler_con w app w' app' :
  call_connection_handler app_ cfg w app = Some (w', app') ->
  unread (con w') = unread (con w)
  /\ (state (con w') = state (con w) \/ state (con w') = MHD_CONNECTION_FOOTERS_RECEIVED \/ state (con w') = MHD_CONNECTION_CLOSED).
Proof using Type.
  unfold call_connection_handler. intros E. destruct (resp w); [injection E as <- _; auto|].
  destruct (answer _ _ _) as [[app1 ok] ans]. apply bind_Some in E as (w1 & Ew & E). injection E as <- _.
  assert (unread (con w1) = unread (con w) /\ (state (con w1) = state (con w) \/ state (con w1) = MHD_CONNECTION_FOOTERS_RECEIVED)) as [Hu Hs].
  { destruct ans as [[code r]|]; [|by injection Ew as <-; auto]. apply bind_Some in Ew as ([[? ?] w2] & Eq & Ew). injection Ew as <-.
    by apply queue_response_con in Eq. }
  destruct ok; [tauto|]. destruct (close_error_con (notify (daemon cfg)) w1) as [-> ->]. auto.
Qed.

Lemma after_con_advances c0 go w c : advances c0 go c -> advances c0 go (con (after_con w c)).
Proof using Type. unfold advances, measure. by destruct (after_con_same w c) as [-> ->]. Qed.

(** What a round that ended makes of the connection. *)
Definition good_end (c : MHD_Connection) (r : round_end (App := App)) : Prop :=
  match r with
  | Continue w _ => advances c true (con w)
  | Stop w _ => advances c false (con w)
  | _ => True
  end.

Lemma go_on_if_good c go w app : advances c go (con w) -> good_end c (go_on_if go w app).
Proof using Type. by destruct go. Qed.

Lemma headers_processed_advances c w0 w' go w :
  0 <= unread c -> state c = MHD_CONNECTION_HEADERS_PROCESSED -> unread (con w') = unread c ->
  (state (con w') = state c \/ state (con w') = MHD_CONNECTION_FOOTERS_RECEIVED \/ state (con w') = MHD_CONNECTION_CLOSED) ->
  idle_headers_processed (λ _, Some w') w0 = Some (go, w) -> advances c go (con w).
Proof using Type.
  intros H0 Hs Hu Hst E. unfold idle_headers_processed in E. cbn [mbind option_bind] in E. case_bool_decide as Hc.
  { injection E as <- <-. apply advances_rank; [lia|]. rewrite Hs, Hc. simpl. lia. }
  apply bind_Some in E as (wait & _ & E). destruct wait; [injection E as <- <-; split; [simpl; lia|done]|].
  apply bind_Some in E as (refused & _ & E). injection E as <- <-.
  apply advances_rank; [destruct refused; simpl; lia|]. rewrite Hs. simpl. destruct (0 =? _); simpl; lia.
Qed.

Lemma footers_received_advances c w0 w' go w :
  0 <= unread c -> state c = MHD_CONNECTION_FOOTERS_RECEIVED -> unread (con w') = unread c ->
  (state (con w') = MHD_CONNECTION_FOOTERS_RECEIVED \/ state (con w') = MHD_CONNECTION_CLOSED) ->
  idle_footers_received (notify (daemon cfg)) (header_config cfg) (λ _, Some w') w0 = Some (go, w) -> advances c go (con w).
Proof using Type.
  intros H0 Hs Hu Hst E. unfold idle_footers_received in E. cbn [mbind option_bind] in E. case_bool_decide as Hc.
  { injection E as <- <-. apply advances_rank; [lia|]. rewrite Hs, Hc. simpl. lia. }
  destruct Hst as [Hst|]; [|done]. destruct (resp w'); [|injection E as <- <-; split; [lia|by rewrite Hst]].
  apply bind_Some in E as ([ok w1] & Eb & E). apply build_header_response_con in Eb.
  destruct ok; injection E as <- <-; [split; [simpl; lia|done]|].
  destruct (close_error_con (notify (daemon cfg)) w1) as [Hu1 Hc1]. apply advances_rank; [lia|]. rewrite Hs, Hc1. simpl. lia.
Qed.

Lemma idle_round_good w app r :
  0 <= unread (con w) -> idle_round app_ cfg crc_call w app = Some r -> good_end (con w) r.
Proof using Type.
  intros H0 E. unfold idle_round in E. destruct (state (con w)) eqn:Hs.
  all: try match type of E with context [receive_step _ _] =>
    apply bind_Some in E as ([go w1] & Es & E); injection E as <-;
    apply go_on_if_good; apply receive_step_advances in Es; [done|done|by rewrite Hs] end.
  all: try match type of E with context [reply_step _ _ _ _ _ _ _] =>
    apply bind_Some in E as ([go w1] & Es & E); injection E as <-; apply go_on_if_good;
    apply reply_step_advances in Es; [done|done|by rewrite Hs] end.
  - apply bind_Some in E as ([w1 app1] & Ea & E). apply call_connection_handler_con in Ea as [Hu Hst].
    apply bind_Some in E as ([go w2] & Ep & E). injection E as <-. apply go_on_if_good. by eapply headers_processed_advances.
  - apply bind_Some in E as ([o app1] & Ea & E). injection E as <-. destruct o as [c|]; [|done].
    apply go_on_if_good, after_con_advances. by eapply continue_sent_advances.
  - apply bind_Some in E as ([w1 app1] & Ea & E). apply call_connection_handler_con in Ea as [Hu Hst].
    apply bind_Some in E as ([go w2] & Ep & E). injection E as <-. apply go_on_if_good. eapply footers_received_advances; [done..| |done].
    rewrite Hs in Hst. tauto.
  - apply bind_Some in E as (r1 & _ & E). destruct (upgrade_handler r1).
    { injection E as <-. destruct (upgrade_succeeds cfg); [done|]. simpl.
      destruct (close_error_con (notify (daemon cfg)) w) as [Hu Hc]. apply advances_rank; [lia|]. rewrite Hs, Hc. simpl. lia. }
    apply bind_Some in E as ([go w1] & Eh & E). injection E as <-. unfold idle_headers_sent in Eh.
    apply bind_Some in Eh as (r2 & _ & Eh). destruct (upgrade_handler r2); [done|]. injection Eh as <- <-.
    apply go_on_if_good, advances_rank; [simpl; lia|]. rewrite Hs. simpl. destruct (have_chunked_upload _); simpl; lia.
  - by injection E as <-.
Qed.

(** With fuel for the measure the loop ends, and where it stops it waits. *)
Lemma idle_rounds_end fuel w app :
  0 <= unread (con w) -> (measure (con w) < fuel)%nat ->
  exists r, idle_rounds app_ cfg crc_call fuel w app = Some r
            /\ match r with
               | Some (Continue _ _) => False
               | Some (Stop w' _) => 0 <= unread (con w') /\ waits (state (con w')) = true
               | _ => True
               end.
Proof using Type.
  revert w app. induction fuel as [|fuel IH]; intros w app H0 Hm; [lia|]. cbn [idle_rounds].
  destruct (idle_round app_ cfg crc_call w app) as [r|] eqn:E; [|by eexists].
  apply idle_round_good in E; [|done]. destruct r as [w1 app1|w1 app1| | |]; try by eexists.
  - destruct E as [Hu Hm']. apply IH; lia.
  - eexists. split; [done|]. destruct E as [? []]. split; [lia|done].
Qed.

Lemma measure_fuel w : 0 <= unread (con w) -> (measure (con w) < idle_fuel w)%nat.
Proof using Type. intros H0. unfold measure, idle_fuel. destruct (state (con w)); simpl rank; lia. Qed.

(** C21: the loop of [MHD_connection_handle_idle] ends: from every state, for
    every application, response and content reader, as many rounds as the
    bound allows are enough, through the error replies and the requests that
    follow on the same connection.  What ended it is never a round that wanted
    to go on, and where it is left to wait it is in a state that
    [MHD_connection_update_event_loop_info] knows. *)
Theorem handle_idle_loop_ends w app :
  0 <= unread (con w) ->
  exists r, idle_rounds app_ cfg crc_call (idle_fuel w) w app = Some r /\ (forall w' app', r <> Some (Continue w' app'))
            /\ (forall w' app', r = Some (Stop w' app') -> waits (state (con w')) = true).
Proof using Type.
  intros H0. destruct (idle_rounds_end (idle_fuel w) w app H0 (measure_fuel w H0)) as (r & E & Hr).
  exists r. split; [done|]. split; intros w' app' ->; [done|apply Hr].
Qed.

(** ** What is waited for in the end *)

(** What the members of [connection->event_loop_info] ask for in a state. *)
Definition waits_to_write (s : conn_state) : bool :=
  match s with
  | MHD_CONNECTION_CONTINUE_SENDING | MHD_CONNECTION_HEADERS_SENDING | MHD_CONNECTION_NORMAL_BODY_READY
  | MHD_CONNECTION_CHUNKED_BODY_READY | MHD_CONNECTION_FOOTERS_SENDING => true
  | _ => false
  end.

Definition info_fits (c : MHD_Connection) (i : MHD_ConnectionEventLoopInfo) : Prop :=
  match i with
  | MHD_EVENT_LOOP_INFO_READ =>
      read_closed c = false /\ (reads_lines (state c) = true \/ state c = MHD_CONNECTION_CONTINUE_SENT)
  | MHD_EVENT_LOOP_INFO_WRITE => waits_to_write (state c) = true
  | MHD_EVENT_LOOP_INFO_BLOCK => waits_to_write (state c) = false /\ state c <> MHD_CONNECTION_CLOSED
  | MHD_EVENT_LOOP_INFO_CLEANUP => state c = MHD_CONNECTION_CLOSED
  end.

Lemma try_grow_state size c ok c' :
  try_grow_read_buffer size c = Some (ok, c') -> state c' = state c /\ read_closed c' = read_closed c.
Proof using Type.
  unfold try_grow_read_buffer. intros E. apply bind_Some in E as ([b p] & _ & E). by destruct b; injection E as _ <-.
Qed.

(** A state in which the loop waits is one the decision knows. *)
Lemma info_round_fits internal c info go c' i :
  waits (state c) = true -> info_round (daemon cfg) attempt internal c info = Some (go, c', i) ->
  (if go then state c' = MHD_CONNECTION_HEADERS_SENDING \/ state c' = MHD_CONNECTION_CLOSED else info_fits c' i)
  /\ forall info2, info_round (daemon cfg) attempt internal c info2 = Some (go, c', if go then info2 else i).
Proof using Type.
  intros Hw E. unfold info_round in *. destruct (state c) eqn:Hs; try done.
  all: try (injection E as <- <- <-; unfold info_fits; rewrite Hs; done).
  all: try (destruct (read_closed c) eqn:Hc; injection E as <- <- <-; (split; [|done]);
            [by right|split; [done|rewrite Hs; by left]]).
  all: apply bind_Some in E as ([ok c1] & Eg & E); rewrite Eg; cbn [mbind option_bind].
  all: assert (state c1 = state c /\ read_closed c1 = read_closed c) as [Hs1 Hc1]
    by (destruct (_ =? _); [by eapply try_grow_state|by injection Eg as _ <-]).
  all: destruct ok; cbn [negb andb] in *;
    [|first [injection E as <- <- <-; split; [apply transmit_state|done]
            |destruct internal; [injection E as <- <- <-; split; [apply transmit_state|done]|]]].
  all: injection E as <- <- <-; (split; [|done]).
  all: first [destruct (_ <? _)|idtac]; destruct (read_closed c1) eqn:Hc2; simpl; rewrite Hs1, Hs; auto.
Qed.

Lemma info_round_unread internal c info go c' i :
  info_round (daemon cfg) attempt internal c info = Some (go, c', i) -> unread c' = unread c.
Proof using Type.
  unfold info_round. intros E. destruct (state c).
  all: try (by injection E as _ <- _).
  all: try (destruct (read_closed c); by injection E as _ <- _).
  all: apply bind_Some in E as ([ok c1] & Eg & E).
  all: assert (unread c1 = unread c) as <- by (destruct (_ =? _); [by eapply try_grow_unread|by injection Eg as _ <-]).
  all: destruct ok; cbn [negb andb] in E; [by injection E as _ <- _|].
  all: try (destruct internal; [|by injection E as _ <- _]).
  all: injection E as _ <- _; apply transmit_unread.
Qed.

(** A round that ends the decision asked for no reply. *)
Lemma info_round_quiet internal w info c' i :
  info_round (daemon cfg) attempt internal (receiving w) info = Some (false, c', i) -> Connection.response c' = None.
Proof using Type.
  unfold info_round. intros E. destruct (state (receiving w)).
  all: try (by injection E as <- _).
  all: try (destruct (read_closed (receiving w)); [done|by injection E as <- _]).
  all: apply bind_Some in E as ([ok c1] & Eg & E).
  all: assert (Connection.response c1 = None) as H1 by (destruct (_ =? _); [|by injection Eg as _ <-];
    unfold try_grow_read_buffer in Eg; apply bind_Some in Eg as ([b p] & _ & Eg); by destruct b; injection Eg as _ <-).
  all: destruct ok; cbn [negb andb] in E; [by injection E as <- _|].
  all: try done.
  destruct internal; [done|by injection E as <- _].
Qed.

(** Then the connection is what the receiving half made of it. *)
Lemma settle_quiet w c w' :
  settle cfg w c = Some w' -> Connection.response c = None -> state (con w') = state c /\ read_closed (con w') = read_closed c.
Proof using Type.
  unfold settle. intros E Hr. rewrite Hr in E. injection E as <-. case_bool_decide; [|done]. unfold after_con. rewrite bool_decide_true by done.
  unfold drop_response. by destruct (resp (set_con w c)).
Qed.

Lemma info_fits_eq c c' i : state c' = state c -> read_closed c' = read_closed c -> info_fits c i -> info_fits c' i.
Proof using Type. unfold info_fits. by intros -> ->. Qed.

(** One round of the decision on the whole connection. *)
Lemma reply_round_fits w info go c i w1 :
  waits (state (con w)) = true ->
  info_round (daemon cfg) attempt (internal_polling cfg) (receiving w) info = Some (go, c, i) -> settle cfg w c = Some w1 ->
  unread (con w1) = unread (con w)
  /\ (if go then state (con w1) = MHD_CONNECTION_HEADERS_SENDING \/ state (con w1) = MHD_CONNECTION_CLOSED
      else info_fits (con w1) i)
  /\ forall info2, info_round (daemon cfg) attempt (internal_polling cfg) (receiving w) info2 = Some (go, c, if go then info2 else i).
Proof using Type.
  intros Hw E Es. pose proof (info_round_unread _ _ _ _ _ _ E) as Hu. pose proof (settle_con _ _ _ _ Es) as [Hu1 Hs].
  apply (info_round_fits _ (receiving w) info go c i Hw) in E as Ef. destruct Ef as [Hf Hi].
  split; [rewrite Hu1; exact Hu|]. split; [|exact Hi]. destruct go; [|].
  - destruct Hs as [->|[_ ->]]; [exact Hf|by right].
  - apply info_round_quiet in E. destruct (settle_quiet _ _ _ Es E). by apply (info_fits_eq c).
Qed.

Lemma update_info_fits w info w' i :
  waits (state (con w)) = true -> reply_update_info cfg w info = Some (w', i) ->
  unread (con w') = unread (con w) /\ info_fits (con w') i
  /\ forall info2, reply_update_info cfg w info2 = Some (w', i).
Proof using Type.
  intros Hw E. unfold reply_update_info in *. cbn [reply_info_loop] in *.
  apply bind_Some in E as ([[go c1] i1] & E1 & E). apply bind_Some in E as (w1 & Es1 & E).
  pose proof (reply_round_fits _ _ _ _ _ _ Hw E1 Es1) as (Hu1 & Hf & Hi).
  setoid_rewrite Hi. cbn [mbind option_bind]. rewrite Es1. cbn [mbind option_bind]. destruct go; [|injection E as <- <-; done].
  apply bind_Some in E as ([[go2 c2] i2] & E2 & E). apply bind_Some in E as (w2 & Es2 & E).
  assert (waits (state (con w1)) = true) as Hw1 by (by destruct Hf as [-> | ->]).
  pose proof (reply_round_fits _ _ _ _ _ _ Hw1 E2 Es2) as (Hu2 & Hf2 & Hi2). setoid_rewrite Hi2. cbn [mbind option_bind].
  rewrite Es2. cbn [mbind option_bind]. destruct go2; [done|]. injection E as <- <-. split; [congruence|done].
Qed.

(** A connection that has something to send stays as it is. *)
Lemma update_info_writes w info :
  waits_to_write (state (con w)) = true -> reply_update_info cfg w info = Some (w, MHD_EVENT_LOOP_INFO_WRITE).
Proof using Type.
  intros Hs. unfold reply_update_info. cbn [reply_info_loop]. unfold info_round.
  assert (settle cfg w (receiving w) = Some w) as Es.
  { unfold settle. cbn [Connection.response receiving set_response state]. rewrite bool_decide_false by (by destruct (state (con w))).
    by destruct w as [[] ? ? ? ? ? ? ? ? ? ?]. }
  change (state (receiving w)) with (state (con w)). destruct (state (con w)); try done; cbn [mbind option_bind]; by rewrite Es.
Qed.

Lemma update_info_closed w info :
  state (con w) = MHD_CONNECTION_CLOSED ->
  ∃ w', reply_update_info cfg w info = Some (w', MHD_EVENT_LOOP_INFO_CLEANUP) /\ state (con w') = MHD_CONNECTION_CLOSED.
Proof using Type.
  intros Hs. unfold reply_update_info. cbn [reply_info_loop]. unfold info_round.
  change (state (receiving w)) with (state (con w)). rewrite Hs. cbn [mbind option_bind].
  unfold settle. cbn [Connection.response receiving set_response state]. rewrite bool_decide_true by done. cbn [mbind option_bind].
  eexists. split; [done|]. by destruct (after_con_same w (receiving w)) as [_ ->].
Qed.

(** Where the loop over the states stops, what the connection is watched for
    fits its state, and no earlier decision survives. *)
Lemma handle_idle_fits w app info w' app' i :
  0 <= unread (con w) -> MHD_connection_handle_idle app_ cfg crc_call w app info = Some (Stop w' app', i) ->
  0 <= unread (con w') /\ info_fits (con w') i
  /\ forall info2, MHD_connection_handle_idle app_ cfg crc_call w app info2 = Some (Stop w' app', i).
Proof using Type.
  intros H0 E. unfold MHD_connection_handle_idle in *.
  destruct (idle_rounds_end (idle_fuel w) w app H0 (measure_fuel w H0)) as (r & Er & Hr).
  setoid_rewrite Er. rewrite Er in E. cbn [mbind option_bind] in *. apply bind_Some in E as (r1 & -> & E).
  cbn [mbind option_bind]. destruct r1 as [| w1 app1| | |]; try done. destruct Hr as [H1 Hw]. destruct (times_out cfg).
  { injection E as <- <- <-.
    destruct (reply_close_con (notify (daemon cfg)) w1 MHD_REQUEST_TERMINATED_TIMEOUT_REACHED) as [Hu Hc].
    split; [lia|]. by split. }
  apply bind_Some in E as ([w2 i2] & Eu & E). apply (update_info_fits _ _ _ _ Hw) in Eu as (Hu & Hf & Hi).
  injection E as <- <- <-. split; [lia|]. split; [done|]. intros info2. by rewrite Hi.
Qed.
End Loop.

(** ** A concrete run *)

Lemma handle_idle_loop_ends_witness :
  let w := demo_accepted demo_malformed in
  ∃ r, idle_rounds (H := LP64) echo_application demo_idle_config no_reader (idle_fuel w) w [] = Some r
       /\ (forall w' app', r <> Some (Continue w' app'))
       /\ (forall w' app', r = Some (Stop w' app') -> waits (state (con w')) = true)
       /\ ∃ w', r = Some (Stop w' []) /\ state (con w') = MHD_CONNECTION_HEADERS_SENDING.
Proof.
  intros w. destruct (handle_idle_loop_ends (H := LP64) echo_application demo_idle_config no_reader w []) as (r & E & H1 & H2).
  - by vm_compute.
  - exists r. split; [exact E|]. split; [exact H1|]. split; [exact H2|]. vm_compute in E. injection E as <-. by eexists.
Defined.
