(* ===== verification/IdleHead.v ===== *)
(** * A whole request head (libmicrohttpd/src/microhttpd/connection.c)

    From the first byte of the request line to the empty line behind the
    headers: the rounds of [RequestLine] and [HeaderBlock] in the one loop of
    [Idle], followed by what the headers say.  The theorem states what the
    connection knows when the application is called for the first time. *)

From S2P Require Import Prelude MhdStr MemoryPool Internal Headers Connection RequestBody RequestHead HeaderBlock RequestLine.
From S2P Require Import Response Reply ReplyBody ErrorReply Idle IdleEnd.

(** ** Rounds that read lines *)

Section Rounds.
Context `{Platform} {App : Type} (app_ : application (App := App)) (cfg : idle_config) (crc_call : Z -> Z -> crc_result).

(** One round of the loop that goes on. *)
Definition continues (a b : reply * App) : Prop := idle_round app_ cfg crc_call a.1 a.2 = Some (Continue b.1 b.2).

(** The loop goes through these rounds, and its bound is enough for what
    comes behind them. *)
Lemma rounds_continue a b fuel r :
  rtc continues a b -> idle_rounds app_ cfg crc_call fuel a.1 a.2 = Some r ->
  ∃ fuel', idle_rounds app_ cfg crc_call fuel' b.1 b.2 = Some r.
Proof using Type.
  intros Hr. revert fuel. induction Hr as [a|a b' c Hab Hr IH]; intros fuel E; [by exists fuel|].
  destruct fuel as [|fuel]; [done|]. cbn [idle_rounds] in E. unfold continues in Hab. rewrite Hab in E. by eapply IH.
Qed.

Lemma loop_reaches w app w' app' :
  0 <= read_buffer_offset (con w) -> rtc continues (w, app) (w', app') ->
  ∃ fuel r, idle_rounds app_ cfg crc_call (idle_fuel w) w app = Some r
            /\ idle_rounds app_ cfg crc_call fuel w' app' = Some r.
Proof using Type.
  intros H0 Hr. destruct (idle_rounds_end app_ cfg crc_call (idle_fuel w) w app H0 (measure_fuel w H0)) as (r & E & _).
  destruct (rounds_continue _ _ _ _ Hr E) as [fuel E']. by exists fuel, r.
Qed.

Lemma step_reads_lines d env c c' : idle_step d env c = Some (true, c') -> reads_lines (state c) = true.
Proof using Type. unfold idle_step. by destruct (state c). Qed.

Lemma set_response_none c : Connection.response c = None -> set_response c None = c.
Proof using Type. destruct c. simpl. by intros ->. Qed.

(** What asks for no error reply and does not close the connection is all
    there is to it. *)
Lemma settle_none w c :
  Connection.response (con w) = None -> Connection.response c = None -> state c <> MHD_CONNECTION_CLOSED ->
  settle cfg w c = Some (set_con w c).
Proof using Type. intros Hw Hr Hc. unfold settle. by rewrite Hr, bool_decide_false, Hw, set_response_none. Qed.

Lemma body_size_kept d c c' :
  body_size d c = Some c' -> state c' <> MHD_CONNECTION_CLOSED ->
  Connection.response c' = Connection.response c /\ state c' = state c.
Proof using Type.
  unfold body_size. intros E Hc. apply bind_Some in E as (enc & _ & E). destruct enc.
  - apply bind_Some in E as (? & _ & E). by injection E as <-.
  - apply bind_Some in E as (cl & _ & E). destruct cl; [|by injection E as <-].
    apply bind_Some in E as ([n v] & _ & E). do 2 (apply bind_Some in E as (? & _ & E)). destruct (_ || _); by injection E as <-.
Qed.

(** The headers of a request that is not refused. *)
Lemma headers_step w c :
  parse_connection_headers (daemon cfg) attempt (con w) = Some c ->
  Connection.response (con w) = None -> Connection.response c = None -> state c <> MHD_CONNECTION_CLOSED ->
  reply_headers_received cfg w = Some (true, set_con w (set_state c MHD_CONNECTION_HEADERS_PROCESSED)).
Proof using Type.
  intros E Hw Hr Hc. unfold reply_headers_received, receiving. rewrite set_response_none by done.
  unfold parse_connection_headers in E. apply bind_Some in E as ([ok c1] & -> & E). apply bind_Some in E as (nh & En & E).
  cbn [mbind option_bind]. destruct nh; [by injection E as <-|]. pose proof (body_size_kept _ _ _ E Hc) as [Hr1 Hs1].
  rewrite settle_none by congruence. cbn [mbind option_bind con set_con]. rewrite En. cbn [mbind option_bind]. rewrite E.
  cbn [mbind option_bind]. assert (after_con (set_con w c1) c = set_con w c) as -> by (unfold after_con; by rewrite bool_decide_false).
  cbn [con set_con]. by rewrite bool_decide_false.
Qed.

Lemma line_round w app c :
  idle_step (daemon cfg) attempt (con w) = Some (true, c) -> Connection.response (con w) = None -> Connection.response c = None ->
  state c <> MHD_CONNECTION_CLOSED -> continues (w, app) (set_con w c, app).
Proof using Type.
  intros E Hw Hr Hc. unfold continues, idle_round. cbn [fst snd].
  assert (receive_step cfg w = Some (true, set_con w c)) as Es.
  { unfold receive_step. case_bool_decide as Hst.
    - unfold idle_step in E. rewrite Hst in E. unfold idle_headers_received in E. apply bind_Some in E as (c1 & Ep & E).
      injection E as E. case_bool_decide; [congruence|]. subst c. by apply headers_step.
    - unfold receiving. rewrite set_response_none by done. rewrite E. cbn [mbind option_bind]. by rewrite settle_none. }
  apply step_reads_lines in E. destruct (state (con w)); try done; by rewrite Es.
Qed.

Lemma line_rounds w app c c' :
  rtc (round_of (daemon cfg) attempt) c c' -> Connection.response c = None -> state c' <> MHD_CONNECTION_CLOSED ->
  rtc continues (set_con w c, app) (set_con w c', app).
Proof using Type.
  induction 1 as [c|c1 c2 c3 [E (_ & _ & _ & Er & _)] Hr IH]; [done|]. intros Hn Hc.
  assert (state c2 <> MHD_CONNECTION_CLOSED) as Hc2.
  { inversion Hr as [|? ? ? [E2 _] _]; subst; [done|]. apply step_reads_lines in E2. by destruct (state c2). }
  eapply rtc_l; [|apply IH; [congruence|done]]. apply (line_round (set_con w c1) app c2 E); [done|congruence|done].
Qed.
End Rounds.

(** ** The request line *)

Definition request_line_ok (mth path : bytes) (query : option bytes) (ver : bytes) : Prop :=
  no_nul mth /\ no_eol mth /\ 32 ∉ mth /\ no_nul (target path query) /\ no_eol (target path query)
  /\ 32 ∉ target path query /\ 63 ∉ path /\ target path query ≠ [] /\ no_nul ver /\ no_eol ver /\ 32 ∉ ver /\ ver ≠ [].

Section Head.
Context `{Platform} (d : daemon_config) (env : reply_env) `{!UnescapeCallback (unescape_callback d)}.

Definition argument_entries (query : option bytes) : list (bytes * option bytes * Z) :=
  (λ a, (a, MHD_GET_ARGUMENT_KIND)) <$> query_arguments d query.

(** What the request line says about the connection [c]. *)
Definition knows_line (c : MHD_Connection) (mth path ver : bytes) : Prop :=
  ∃ m u v : nat, method (req c) = Some (Pool (Z.of_nat m)) /\ url (req c) = Some (Pool (Z.of_nat u))
    /\ version (req c) = Some (Pool (Z.of_nat v))
    /\ has_string (memory (pool c)) m mth /\ has_string (memory (pool c)) u (decode (unescape_callback d) path)
    /\ has_string (memory (pool c)) v ver.

Lemma request_text_ok mth k path query ver :
  request_line_ok mth path query ver ->
  no_eol (request_text mth k path query ver) /\ ∃ ch t, request_text mth k path query ver = ch :: t /\ ch ≠ 0.
Proof using Type.
  intros (Hn & He & _ & _ & Het & _ & _ & _ & _ & Hev & _). split.
  - unfold request_text, no_eol. apply Forall_app. split; [done|]. apply Forall_cons. split; [done|].
    apply Forall_app. split; [by apply Forall_replicate|]. apply Forall_app. split; [done|]. by apply Forall_cons.
  - unfold request_text. destruct mth as [|ch t]; [by eexists _, _|]. apply no_nul_cons in Hn as [? _]. by eexists _, _.
Qed.

Lemma init_round c pre mth k path query ver eol b post n :
  state c = MHD_CONNECTION_INIT -> headers_received (req c) = [] -> request_line_ok mth path query ver -> newline eol ->
  at_buffer c pre (request_text mth k path query ver ++ eol ++ b) post ->
  room (pool c) (length (query_arguments d query) + n) ->
  ∃ c' x, idle_step d env c = Some (true, c') /\ state c' = MHD_CONNECTION_URL_RECEIVED
    /\ at_buffer c' (pre ++ x) b post /\ Forall2 (record_ok (pre ++ x)) (headers_received (req c')) (argument_entries query)
    /\ room (pool c') n /\ (pos (pool c') = pos (pool c) /\ size (pool c') = size (pool c)) /\ response c' = response c /\ up c' = up c
    /\ ∃ m u v : nat, method (req c') = Some (Pool (Z.of_nat m)) /\ url (req c') = Some (Pool (Z.of_nat u))
         /\ version (req c') = Some (Pool (Z.of_nat v))
         /\ has_string (pre ++ x) m mth /\ has_string (pre ++ x) u (decode (unescape_callback d) path)
         /\ has_string (pre ++ x) v ver.
Proof using Type.
  intros Hst Hh Hl He Hb Hr. destruct (request_text_ok mth k path query ver Hl) as [Hne (ch & t & Et & Hch)].
  set (line := request_text mth k path query ver) in *. unfold idle_step. rewrite Hst. unfold idle_init.
  destruct (cut_line d env c pre line eol b post Hb Hne He) as (c1 & -> & Hb1 & Hst1 & Er1 & Hk1 & Hr1).
  cbn [mbind option_bind]. destruct (newline_nonempty eol He) as [j Ej]. rewrite Ej in Hb1. cbn [replicate] in Hb1.
  rewrite (first_byte c1 pre (line ++ 0 :: replicate j 0) b post ch (t ++ 0 :: replicate j 0)) by (done || by rewrite Et).
  cbn [mbind option_bind]. destruct (Z.eqb_spec ch 0); [done|].
  destruct Hl as (Hn & _ & Hm & Hnt & _ & Ht & Hp & Htne & _ & _ & Hv & Hvne). destruct Hb1 as (Em1 & Erb1 & Eo1 & Hpi1).
  destruct (request_line_spec d env c1 pre mth k path query ver (replicate j 0 ++ b ++ post))
    as (p & x & st & m & u & v & E & Emp & Elx & Hsm & Hsu & Hsv & Hst' & Hpi & Hroom & Epos & Esz); try done.
  { rewrite Em1. fold line. by repeat (rewrite <- ?app_assoc; cbn [app]). }
  { by rewrite Er1. }
  { apply Hr1. unfold room in *. assert (0 <= sizeof_header) by (destruct sizeof_header_round; lia). nia. }
  fold line in E. rewrite E. cbn [mbind option_bind]. eexists _, (x ++ 0 :: replicate j 0). split; [done|]. split; [done|].
  destruct Hk1 as (_ & _ & _ & Hresp & _ & Hup & _ & Epos1 & Esz1).
  assert (pre ++ x ++ 0 :: replicate j 0 = (pre ++ x ++ [0]) ++ replicate j 0) as Ex by (by rewrite <- !app_assoc).
  split; [|split; [|split; [|split_and!]]].
  - split_and!; cbn.
    + rewrite Emp. by repeat (rewrite <- ?app_assoc; cbn [app]).
    + destruct (has_uri_log d); cbn; rewrite Erb1; do 2 f_equal; rewrite !length_app; fold line in Elx; lia.
    + by destruct (has_uri_log d).
    + done.
  - cbn. unfold argument_entries. rewrite Ex. apply Forall2_fmap. eapply Forall2_impl; [exact Hst'|]. intros [i jv] a Ha.
    exists i, jv. split; [done|]. by apply entry_ok_app.
  - cbn. apply Hroom. by apply Hr1.
  - cbn. congruence.
  - cbn. congruence.
  - cbn. by destruct (has_uri_log d).
  - cbn. by destruct (has_uri_log d).
  - exists m, u, v. cbn. rewrite Ex. split_and!; try done; by apply has_string_app.
Qed.

(** ** What the headers say *)

(** The size of the body the headers announce, and whether it is chunked;
    nothing for a content length that is no number. *)
Definition announced (l : list MHD_HTTP_Header) : option (bool * Z) :=
  match first_value l (str "Transfer-Encoding"), first_value l (str "Content-Length") with
  | Some enc, _ => Some (bool_decide (caseless_eq enc (str "chunked")), MHD_SIZE_UNKNOWN)
  | None, None => Some (false, 0)
  | None, Some n => if decide (length_text n) then Some (false, value 10 (todigitvalue <$> n)) else None
  end.

Lemma headers_accepted c l ver v chunked size_ :
  resolve_all (memory (pool c)) (headers_received (req c)) = Some l -> Forall header_wf l ->
  version (req c) = Some (Pool (Z.of_nat v)) -> has_string (memory (pool c)) v ver -> no_nul ver ->
  first_value l (str "Cookie") = None -> strict_for_client d < 1 \/ is_Some (first_value l (str "Host")) ->
  announced l = Some (chunked, size_) ->
  parse_connection_headers d env c = Some (set_remaining c chunked size_).
Proof using Type.
  intros El Hl Ev Hs Hv Hc Hh Ha. unfold parse_connection_headers.
  assert (parse_cookie_header d env c = Some (true, c)) as ->.
  { destruct (header_value_of_spec c l (str "Cookie") El Hl) as [E _]; [apply (bool_decide_unpack _); reflexivity|].
    unfold header_value_of in E. unfold parse_cookie_header. rewrite El in *. cbn [mbind option_bind] in *. rewrite E.
    fold (first_value l (str "Cookie")). by rewrite Hc. }
  cbn [mbind option_bind].
  assert (lacks_host d c = Some false) as ->.
  { unfold lacks_host. destruct (Z.leb_spec 1 (strict_for_client d)); [|done]. destruct Hh as [|[h Hh]]; [lia|].
    unfold version_is. rewrite Ev, (chars_has_string _ v ver) by done. cbn [mbind option_bind]. unfold cstr.
    rewrite str_equal_caseless_spec by (auto; apply (bool_decide_unpack _); reflexivity). cbn [mbind option_bind].
    destruct (header_value_of_spec c l (str "Host") El Hl) as [-> _]; [apply (bool_decide_unpack _); reflexivity|].
    fold (first_value l (str "Host")). rewrite Hh. by destruct (bool_decide _). }
  cbn [mbind option_bind]. rewrite (body_size_spec d c l El Hl). unfold announced in Ha.
  destruct (first_value l (str "Transfer-Encoding")); [by injection Ha as <- <-|].
  destruct (first_value l (str "Content-Length")); [|by injection Ha as <- <-].
  case_decide; [by injection Ha as <- <-|done].
Qed.

Lemma entries_wf l : Forall entry_wf l -> Forall header_wf (header_of <$> l).
Proof using Type.
  intros Hl. apply Forall_fmap. eapply Forall_impl; [exact Hl|]. intros e [Hn Hv]. split; [by intros s [= <-]|exact Hv].
Qed.

Lemma fields_wf k fs : Forall field_ok fs -> Forall entry_wf (entries k fs).
Proof using Type.
  intros Hfs. apply Forall_fmap. eapply Forall_impl; [exact Hfs|].
  intros f (_ & ? & _ & _ & _ & _ & ? & _). split; [done|]. by intros v [= <-].
Qed.
End Head.

(** ** The whole head *)

Section Whole.
Context `{Platform} {App : Type} (app_ : application (App := App)) (cfg : idle_config) (crc_call : Z -> Z -> crc_result).
Context `{!UnescapeCallback (unescape_callback (daemon cfg))}.

(** The entries of a request: the arguments of its URI and its headers. *)
Definition request_entries (query : option bytes) (fs : list field) : list MHD_HTTP_Header :=
  header_of <$> argument_entries (daemon cfg) query ++ entries MHD_HEADER_KIND fs.

Lemma request_head_spec w app pre mth k path query ver eol1 fs eol rest post chunked size_ :
  state (con w) = MHD_CONNECTION_INIT -> response (con w) = None -> headers_received (req (con w)) = [] ->
  at_buffer (con w) pre (request_text mth k path query ver ++ eol1 ++ block fs eol ++ rest) post ->
  request_line_ok mth path query ver -> newline eol1 -> Forall field_ok fs -> newline eol ->
  Forall entry_wf (argument_entries (daemon cfg) query) ->
  room (pool (con w)) (length (query_arguments (daemon cfg) query) + length fs) ->
  first_value (request_entries query fs) (str "Cookie") = None ->
  strict_for_client (daemon cfg) < 1 \/ is_Some (first_value (request_entries query fs) (str "Host")) ->
  announced (request_entries query fs) = Some (chunked, size_) ->
  have_chunked_upload (up (con w)) = false ->
  ∃ c' x,
    rtc (continues app_ cfg crc_call) (w, app) (set_con w c', app)
    /\ state c' = MHD_CONNECTION_HEADERS_PROCESSED /\ response c' = None
    /\ knows_line (daemon cfg) c' mth path ver
    /\ resolve_all (memory (pool c')) (headers_received (req c')) = Some (request_entries query fs)
    /\ have_chunked_upload (up c') = chunked /\ remaining_upload_size (up c') = size_
    /\ at_buffer c' (pre ++ x) rest post /\ (pos (pool c') = pos (pool (con w)) /\ size (pool c') = size (pool (con w)))
    /\ ∃ v : nat, version (req c') = Some (Pool (Z.of_nat v)) /\ has_string (pre ++ x) v ver.
Proof.
  intros Hst Hresp Hh Hb Hl He1 Hfs He Hwf Hroom Hc Hhost Ha Hup.
  destruct (init_round (daemon cfg) attempt (con w) pre mth k path query ver eol1 (block fs eol ++ rest) post (length fs))
    as (c1 & x1 & E1 & Hst1 & Hb1 & Hhs1 & Hr1 & [Hpos1 Hsz1] & Hresp1 & Hup1 & m & u & v & Em & Eu & Ev & Hm & Hu & Hv); try done.
  destruct (header_block_spec (daemon cfg) attempt false fs c1 (pre ++ x1) eol rest post (argument_entries (daemon cfg) query))
    as (c2 & x2 & Hrtc & Hst2 & El & Hb2 & Em2 & Eu2 & Ev2 & Hresp2 & _ & Hup2 & _ & Hpos2 & Hsz2); try done.
  pose proof Hb2 as (Emem & _).
  assert (forall i s, has_string (pre ++ x1) i s -> has_string (memory (pool c2)) i s) as Hstr.
  { intros i s Hs. rewrite Emem. by do 2 apply has_string_app. }
  assert (parse_connection_headers (daemon cfg) attempt c2 = Some (set_remaining c2 chunked size_)) as Ep.
  { eapply headers_accepted; [exact El| |by rewrite Ev2|by apply Hstr|apply Hl|done..].
    apply entries_wf, Forall_app. split; [done|]. by apply fields_wf. }
  assert (idle_step (daemon cfg) attempt c2 = Some (true, set_state (set_remaining c2 chunked size_) MHD_CONNECTION_HEADERS_PROCESSED)) as E2.
  { unfold idle_step. rewrite Hst2. unfold idle_headers_received. rewrite Ep. cbn [mbind option_bind]. cbn. by rewrite Hst2. }
  eexists _, (x1 ++ x2). split.
  { eapply rtc_l; [apply line_round; [exact E1|done|congruence|by rewrite Hst1]|].
    eapply rtc_r; [apply line_rounds; [exact Hrtc|congruence|by rewrite Hst2]|].
    apply (line_round app_ cfg crc_call (set_con w c2) app _ E2); [cbn; congruence..|done]. }
  split; [done|]. split; [cbn; congruence|]. split.
  { exists m, u, v. cbn. rewrite Em2, Eu2, Ev2. split_and!; try done; by apply Hstr. }
  split; [done|]. cbn. rewrite Hup2, Hup1, Hup, orb_false_r. split; [done|]. split; [done|]. rewrite app_assoc. split; [done|].
  split; [split; congruence|]. exists v. split; [congruence|by apply has_string_app].
Qed.

(** C5: a complete request head, without cookies and folded lines, goes through the whole state machine: whatever
    follows it in the buffer, the loop goes on until the connection is in the
    state in which the application is called for the first time, without a
    call of the application before that.  By then the connection leads to the
    method, the decoded path, the version, the decoded arguments and the
    headers, in order; it knows the announced size of the body, and exactly
    the bytes behind the head are left in the buffer. *)
Theorem request_head_received w app pre mth k path query ver eol1 fs eol rest post chunked size_ :
  state (con w) = MHD_CONNECTION_INIT -> response (con w) = None -> headers_received (req (con w)) = [] ->
  at_buffer (con w) pre (request_text mth k path query ver ++ eol1 ++ block fs eol ++ rest) post ->
  request_line_ok mth path query ver -> newline eol1 -> Forall field_ok fs -> newline eol ->
  Forall entry_wf (argument_entries (daemon cfg) query) ->
  room (pool (con w)) (length (query_arguments (daemon cfg) query) + length fs) ->
  first_value (request_entries query fs) (str "Cookie") = None ->
  strict_for_client (daemon cfg) < 1 \/ is_Some (first_value (request_entries query fs) (str "Host")) ->
  announced (request_entries query fs) = Some (chunked, size_) ->
  have_chunked_upload (up (con w)) = false ->
  ∃ c' x,
    rtc (continues app_ cfg crc_call) (w, app) (set_con w c', app)
    /\ state c' = MHD_CONNECTION_HEADERS_PROCESSED /\ response c' = None
    /\ knows_line (daemon cfg) c' mth path ver
    /\ resolve_all (memory (pool c')) (headers_received (req c')) = Some (request_entries query fs)
    /\ have_chunked_upload (up c') = chunked /\ remaining_upload_size (up c') = size_
    /\ at_buffer c' (pre ++ x) rest post.
Proof.
  intros. destruct (request_head_spec w app pre mth k path query ver eol1 fs eol rest post chunked size_)
    as (c' & x & Hr1 & Hr2 & Hr3 & Hr4 & Hr5 & Hr6 & Hr7 & Hr8 & _); try done. by exists c', x.
Qed.
End Whole.

(** ** A concrete head *)

Lemma request_head_received_witness :
  let text := request_text (str "GET") 0 (str "/a%20b") (Some (str "x=1&y")) (str "HTTP/1.1") ++ [13; 10] ++ block demo_fields [13; 10] ++ str "rest" in
  let w := demo_accepted text in
  ∃ c' x,
    rtc (continues (H := LP64) echo_application demo_idle_config no_reader) (w, []) (set_con w c', [])
    /\ state c' = MHD_CONNECTION_HEADERS_PROCESSED
    /\ knows_line demo_daemon c' (str "GET") (str "/a%20b") (str "HTTP/1.1")
    /\ resolve_all (memory (pool c')) (headers_received (req c'))
       = Some [mkHeader (Some (str "x")) (Some (str "1")) MHD_GET_ARGUMENT_KIND; mkHeader (Some (str "y")) None MHD_GET_ARGUMENT_KIND;
               mkHeader (Some (str "Host")) (Some (str "example")) MHD_HEADER_KIND;
               mkHeader (Some (str "Accept")) (Some []) MHD_HEADER_KIND]
    /\ remaining_upload_size (up c') = 0 /\ at_buffer (H := LP64) c' x (str "rest") (replicate (512 - length text) 0).
Proof.
  intros text w.
  destruct (request_head_received (H := LP64) echo_application demo_idle_config no_reader w [] [] (str "GET") 0 (str "/a%20b")
    (Some (str "x=1&y")) (str "HTTP/1.1") [13; 10] demo_fields [13; 10] (str "rest") (replicate (512 - length text) 0) false 0)
    as (c' & x & H1 & H2 & _ & H3 & H4 & _ & H5 & H6).
  1-3: reflexivity.
  - split; [reflexivity|split; [reflexivity|split; [reflexivity|]]]. split; [vm_compute; exact eq_refl|split_and!; vm_compute; done].
  - split_and!; first [done|apply (bool_decide_unpack _); vm_compute; exact I].
  - by left.
  - exact demo_fields_ok.
  - by left.
  - apply Forall_forall. intros e He. vm_compute in He. set_unfold in He.
    destruct He as [-> | [-> |[]]]; (split; [apply (bool_decide_unpack _); vm_compute; exact I|]); intros v [= <-].
    apply (bool_decide_unpack _); vm_compute; exact I.
  - vm_compute. done.
  - reflexivity.
  - left. done.
  - reflexivity.
  - reflexivity.
  - exists c', x. split; [exact H1|]. split; [exact H2|]. split; [exact H3|]. split; [exact H4|]. split; [exact H5|exact H6].
Defined.
