(* ===== verification/IdleWait.v ===== *)
(** * The state machine waits only for a line it does not have (libmicrohttpd/src/microhttpd/connection.c)

    Where the loop of [MHD_connection_handle_idle] stops while it reads lines,
    the bytes it had did not hold a whole line.  The one exception is an empty
    line in front of a request: it ends the loop, even if the whole request
    follows it in the buffer. *)

From S2P Require Import Prelude MhdStr MemoryPool Internal Headers Connection RequestBody RequestHead HeaderBlock.
From S2P Require Import Response Reply ReplyBody EventLoop ErrorReply Idle IdleEnd IdleHead.

(** ** No line in the buffer *)

(** A line ends with LF, or with a CR that is not the last byte so far. *)
Definition complete_line (b : bytes) : Prop := ∃ i c, b !! i = Some c /\ (c = 10 \/ (c = 13 /\ (S i < length b)%nat)).

Definition unread_bytes (c : MHD_Connection) : option bytes :=
  rb ← read_buffer c; mem_read (memory (pool c)) rb (read_buffer_offset c).

Lemma scan_before f left p n i : scan f left p = Some n -> (i < n)%nat -> ∃ c, p !! i = Some c /\ f c = false.
Proof.
  revert p n i. induction left as [|left IH]; intros p n i E Hi; cbn [scan] in E; [injection E as <-; lia|].
  apply bind_Some in E as (ch & Ech & E). destruct p as [|x p]; [done|]. injection Ech as ->.
  destruct (f ch) eqn:Ef; [injection E as <-; lia|]. apply bind_Some in E as (k & Ek & E). injection E as <-.
  destruct i as [|i]; [by exists ch|]. apply (IH p k i Ek). lia.
Qed.

Section Wait.
Context `{Platform} {App : Type} (app_ : application (App := App)) (cfg : idle_config) (crc_call : Z -> Z -> crc_result).

Lemma no_line_in_buffer d env c len c' b :
  get_next_header_line d env c = Some (None, len, c') -> unread_bytes c = Some b -> ~ complete_line b.
Proof using Type.
  intros E Eb (i & x & Hx & Hc). unfold unread_bytes in Eb. apply bind_Some in Eb as (rb & Erb & Eb).
  unfold mem_read in Eb. destruct (in_object _ _ _) eqn:Hin; [|done]. injection Eb as <-.
  rewrite in_object_true in Hin. pose proof Hx as Hlen. apply lookup_lt_Some in Hlen. rewrite length_take in Hlen.
  apply lookup_take_Some in Hx as [Hx Hi]. unfold get_next_header_line in E.
  destruct (Z.eqb_spec (read_buffer_offset c) 0); [lia|]. rewrite Erb in E. cbn [mbind option_bind] in E.
  apply bind_Some in E as (k & En & E). apply scan_le in En as Hn. apply bind_Some in E as (ch & Ech & E).
  destruct (_ && _) eqn:Eb; [clear E|].
  2:{ do 3 (apply bind_Some in E as (? & _ & E)). done. }
  apply andb_true_iff in Eb as [Epos Ech10]. apply Z.eqb_eq in Epos. apply negb_true_iff, Z.eqb_neq in Ech10.
  destruct (decide (i < k)%nat) as [Hlt|].
  - destruct (scan_before _ _ _ _ i En Hlt) as (y & Hy & Hf). unfold ptr in Hy. rewrite Hx in Hy. injection Hy as <-.
    unfold is_eol in Hf. destruct Hc as [-> | [-> _]]; done.
  - assert (i = k) as -> by lia. unfold byte_at in Ech. destruct (Z.ltb_spec (rb + Z.of_nat k) 0); [lia|].
    rewrite lookup_drop in Hx. replace (Z.to_nat (rb + Z.of_nat k)) with (Z.to_nat rb + k)%nat in Ech by lia. rewrite Hx in Ech.
    injection Ech as ->. destruct Hc as [|[-> Hl]]; [done|]. rewrite length_take in Hl. lia.
Qed.

(** ** Where the loop stops *)

Definition awaits_line (s : conn_state) : bool :=
  match s with
  | MHD_CONNECTION_INIT | MHD_CONNECTION_URL_RECEIVED | MHD_CONNECTION_HEADER_PART_RECEIVED
  | MHD_CONNECTION_BODY_RECEIVED | MHD_CONNECTION_FOOTER_PART_RECEIVED => true
  | _ => false
  end.

(** The line that was taken is empty, or there was none. *)
Definition line_missing (c : MHD_Connection) : Prop :=
  match get_next_header_line (daemon cfg) attempt c with
  | Some (None, _, _) => True
  | Some (Some line, _, c') => state c = MHD_CONNECTION_INIT /\ byte_at (memory (pool c')) line = Some 0
  | None => False
  end.

Lemma no_line_false d c s c' : no_line d c s = (false, c') -> c' = c /\ state c = s.
Proof using Type. unfold no_line. case_bool_decide; simpl; [|done]. destruct (read_closed c); [done|]. by intros [= <-]. Qed.

Lemma first_line_stops here part done_ c c' :
  idle_first_line (daemon cfg) attempt here part done_ c = Some (false, c') -> awaits_line (state c') = true ->
  state c' = here /\ line_missing c.
Proof using Type.
  unfold idle_first_line, line_missing. intros E Ha. apply bind_Some in E as ([[line len] c1] & El & E). rewrite El.
  destruct line as [line|].
  - apply bind_Some in E as (ch & _ & E). destruct (ch =? 0); [done|]. apply bind_Some in E as ([ok c2] & _ & E).
    destruct ok; [done|]. injection E as <-. by destruct (transmit_state (daemon cfg) attempt c2 400) as [Hs|Hs]; rewrite Hs in Ha.
  - injection E as E. apply no_line_false in E as [-> ->]. done.
Qed.

Lemma next_line_stops here done_ k c c' :
  idle_next_line (daemon cfg) attempt here done_ k c = Some (false, c') -> state c' = here /\ line_missing c.
Proof using Type.
  unfold idle_next_line, line_missing. intros E. apply bind_Some in E as ([[line len] c1] & El & E). rewrite El.
  destruct line as [line|].
  - apply bind_Some in E as ([ok c2] & _ & E). destruct ok; simpl in E; [|done]. by apply bind_Some in E as (ch & _ & E).
  - injection E as E. apply no_line_false in E as [-> ->]. done.
Qed.

Lemma idle_step_stops c c' :
  idle_step (daemon cfg) attempt c = Some (false, c') -> reads_lines (state c) = true -> awaits_line (state c') = true ->
  state c' = state c /\ line_missing c.
Proof using Type.
  intros E Hr Ha. unfold idle_step in E. destruct (state c) eqn:Hs; try done.
  - unfold idle_init in E. unfold line_missing. apply bind_Some in E as ([[line len] c1] & El & E). rewrite El.
    destruct line as [line|]; [|injection E as E; apply no_line_false in E as [-> ->]; done].
    apply bind_Some in E as (ch & Ech & E). destruct (Z.eqb_spec ch 0) as [->|]; [|by apply bind_Some in E as ([? ?] & _ & E)].
    injection E as E. apply no_line_false in E as [-> ->]. done.
  - by eapply first_line_stops.
  - by eapply next_line_stops.
  - unfold idle_headers_received in E. by apply bind_Some in E as (? & _ & E).
  - by eapply first_line_stops.
  - by eapply next_line_stops.
Qed.

Lemma go_on_if_stop go w0 app0 w app : go_on_if (App := App) go w0 app0 = Stop w app -> go = false /\ w = w0.
Proof using Type. destruct go; [done|]. by intros [= <- _]. Qed.

(** A round that stops in such a state was one that reads a line. *)
Lemma idle_round_stops w app w' app' :
  0 <= unread (con w) -> idle_round app_ cfg crc_call w app = Some (Stop w' app') -> awaits_line (state (con w')) = true ->
  state (con w') = state (con w) /\ line_missing (receiving w).
Proof using Type.
  intros H0 E Ha. pose proof (idle_round_good app_ cfg crc_call w app (Stop w' app') H0 E) as [_ [_ Hst]].
  assert (reads_lines (state (con w')) = true) as Hr by (by destruct (state (con w'))). specialize (Hst Hr).
  rewrite Hst in Hr, Ha. split; [done|]. unfold idle_round in E.
  assert (receive_step cfg w = Some (false, w')) as Es.
  { destruct (state (con w)); try done; apply bind_Some in E as ([go w1] & -> & E); injection E as E;
      by apply go_on_if_stop in E as [-> ->]. }
  unfold receive_step in Es. case_bool_decide; [by rewrite H1 in Ha|].
  apply bind_Some in Es as ([go c] & Ei & Es). apply bind_Some in Es as (w1 & Ew & Es). injection Es as -> ->.
  apply settle_con in Ew as [_ Hw]. apply (idle_step_stops (receiving w) c) in Ei as [_ ?]; [done|done|].
  destruct Hw as [<-|[_ Hw]]; [by rewrite Hst|]. rewrite Hst in Hw. by rewrite Hw in Ha.
Qed.

(** C23: the loop does not leave a request waiting that it could read: where it
    stops in a state that reads the head or the footers, the last round found
    no whole line among the bytes it had (it may have made room for more);
    only in front of a request it also stops at an empty line. *)
Theorem idle_waits_for_line fuel w app w' app' :
  0 <= unread (con w) -> idle_rounds app_ cfg crc_call fuel w app = Some (Some (Stop w' app')) ->
  awaits_line (state (con w')) = true ->
  ∃ w0 app0, rtc (continues app_ cfg crc_call) (w, app) (w0, app0)
    /\ idle_round app_ cfg crc_call w0 app0 = Some (Stop w' app') /\ state (con w0) = state (con w')
    /\ ((forall b, unread_bytes (con w0) = Some b -> ~ complete_line b)
        \/ state (con w0) = MHD_CONNECTION_INIT
           /\ ∃ line len c, get_next_header_line (daemon cfg) attempt (receiving w0) = Some (Some line, len, c)
                            /\ byte_at (memory (pool c)) line = Some 0).
Proof using Type.
  revert w app. induction fuel as [|fuel IH]; intros w app H0 E Ha; [done|]. cbn [idle_rounds] in E.
  destruct (idle_round app_ cfg crc_call w app) as [[w1 app1|w1 app1| | |]|] eqn:Er; try done.
  - pose proof (idle_round_good app_ cfg crc_call w app _ H0 Er) as [Hu _].
    destruct (IH w1 app1) as (w0 & app0 & Hr & Hrest); [lia|done|done|]. exists w0, app0. split; [|done].
    by apply (rtc_l _ _ (w1, app1)).
  - injection E as -> ->. destruct (idle_round_stops w app w' app' H0 Er Ha) as [Hs Hm]. exists w, app. split; [done|].
    split; [done|]. split; [done|]. unfold line_missing in Hm.
    destruct (get_next_header_line (daemon cfg) attempt (receiving w)) as [[[[line|] len] c]|] eqn:El; [| |done].
    + right. destruct Hm as [? ?]. split; [done|]. by eexists _, _, _.
    + left. intros b Hb. exact (no_line_in_buffer _ _ (receiving w) _ _ b El Hb).
Qed.
End Wait.

(** ** Concrete runs *)

Lemma idle_waits_for_line_witness :
  let w := demo_accepted (str "GET /a HTTP/1.1" ++ crlf ++ str "Host: h") in
  ∃ w' w0 app0,
    idle_rounds (H := LP64) echo_application demo_idle_config no_reader (idle_fuel w) w [] = Some (Some (Stop w' []))
    /\ rtc (continues (H := LP64) echo_application demo_idle_config no_reader) (w, []) (w0, app0)
    /\ state (con w0) = MHD_CONNECTION_URL_RECEIVED
    /\ forall b, unread_bytes (con w0) = Some b -> ~ complete_line b.
Proof.
  intros w.
  assert (∃ w', idle_rounds (H := LP64) echo_application demo_idle_config no_reader (idle_fuel w) w [] = Some (Some (Stop w' []))
                /\ state (con w') = MHD_CONNECTION_URL_RECEIVED) as (w' & E & Hs) by (vm_compute; by eexists).
  destruct (idle_waits_for_line (H := LP64) echo_application demo_idle_config no_reader (idle_fuel w) w [] w' [])
    as (w0 & app0 & Hr & _ & Hs0 & [Hb|[Hi _]]).
  - by vm_compute.
  - exact E.
  - by rewrite Hs.
  - exists w', w0, app0. split; [exact E|]. split; [exact Hr|]. split; [congruence|exact Hb].
  - exfalso. congruence.
Defined.

(** An empty line in front of a request ends the loop: the connection waits
    for more bytes although the buffer holds a whole request, which is
    answered only when the client sends something else. *)
Theorem empty_line_stalls_request :
  let w := demo_accepted (crlf ++ demo_get (str "/a")) in
  ∃ w', MHD_connection_handle_idle (H := LP64) echo_application demo_idle_config no_reader w [] MHD_EVENT_LOOP_INFO_READ
        = Some (Stop w' [], MHD_EVENT_LOOP_INFO_READ)
    /\ state (con w') = MHD_CONNECTION_INIT /\ unread_bytes (con w') = Some (demo_get (str "/a")).
Proof. vm_compute. eexists. split; [reflexivity|done]. Qed.
