(* ===== verification/IdleTurns.v ===== *)
(** * One turn of the event loop for a connection (libmicrohttpd/src/microhttpd/daemon.c)

    What [call_handlers] leaves behind: however it is called, what the
    connection is watched for next fits its state, and it sends only where the
    socket was found ready for that or on the fast track. *)

From S2P Require Import Prelude MhdStr MemoryPool Internal Headers Connection RequestBody RequestHead HeaderBlock.
From S2P Require Import Response Reply ReplyBody EventLoop ErrorReply Idle IdleEnd.

Section Turns.
Context `{Platform} {App : Type} (app_ : application (App := App)) (cfg : idle_config).

(** ** Reading and writing *)

Lemma after_read_unread n c c' : after_read n c = Some c' -> unread c' = unread c.
Proof using Type.
  unfold after_read. destruct (expects_input (state c)); [intros [= <-]; by destruct (read_closed c)|].
  case_bool_decide; [by intros [= <-]|]. intros E. apply bind_Some in E as ([? ?] & _ & E). by injection E as <-.
Qed.

Lemma handle_read_unread n size inc c recv c' :
  MHD_connection_handle_read n size inc c recv = Some c' -> unread c <= unread c'.
Proof using Type.
  unfold MHD_connection_handle_read. intros E. case_bool_decide; [by injection E as <-|].
  apply bind_Some in E as (c1 & Eg & E).
  assert (unread c1 = unread c) as <-.
  { destruct (_ >? _); [|by injection Eg as <-]. apply bind_Some in Eg as ([ok c2] & Eg & E2). injection E2 as <-.
    by apply try_grow_unread in Eg. }
  destruct (_ =? _); [by injection E as <-|]. destruct (recv _); try (by injection E as <-).
  apply bind_Some in E as (rb & _ & E). apply bind_Some in E as (m & _ & E). apply after_read_unread in E. rewrite E. simpl. lia.
Qed.

Lemma send_write_buffer_con n w send next w' out :
  send_write_buffer n w send next = Some (w', out) -> unread (con w') = unread (con w).
Proof using Type.
  unfold send_write_buffer. intros E. do 2 (apply bind_Some in E as (? & _ & E)).
  destruct (send _); [|by injection E as <- _|injection E as <- _; apply close_error_con].
  apply bind_Some in E as ([? w1] & Ec & E). injection E as <- _. unfold check_write_done in Ec.
  destruct (negb _); [by injection Ec as _ <-|]. apply bind_Some in Ec as ([? ?] & _ & Ec). by injection Ec as _ <-.
Qed.

Lemma send_normal_body_con n w crc_call send sendfile_ w' out :
  send_normal_body n w crc_call send sendfile_ = Some (w', out) -> unread (con w') = unread (con w).
Proof using Type.
  unfold send_normal_body. intros E. apply bind_Some in E as (r & _ & E). apply bind_Some in E as ([[go w1] o] & Es & E).
  assert (unread (con w1) = unread (con w)) as <-.
  { destruct (_ <? _); [|by injection Es as _ <- _]. apply bind_Some in Es as ([ok w2] & Et & Es).
    apply try_ready_normal_con in Et as [<- _]. destruct ok; simpl in Es; [|by injection Es as _ <- _].
    apply bind_Some in Es as (r1 & _ & Es). apply bind_Some in Es as ([ret bs] & _ & Es).
    destruct ret; [by injection Es as _ <- _|by injection Es as _ <- _|]. injection Es as _ <- _. apply close_error_con. }
  destruct (negb go); [by injection E as <- _|]. apply bind_Some in E as (r1 & _ & E). injection E as <- _. by destruct (_ =? _).
Qed.

Lemma handle_write_unread n w crc_call send sendfile_ w' out :
  MHD_connection_handle_write n false w crc_call send sendfile_ = Some (w', out) -> unread (con w') = unread (con w).
Proof using Type.
  unfold MHD_connection_handle_write. intros E. destruct (state (con w)); try (by injection E as <- _).
  - destruct (send _); try (by injection E as <- _). injection E as <- _. apply close_error_con.
  - by eapply send_write_buffer_con.
  - by eapply send_normal_body_con.
  - apply bind_Some in E as (r & _ & E). by eapply send_write_buffer_con.
  - by eapply send_write_buffer_con.
Qed.

(** ** Turns *)

Definition link_ok (l : link (App := App)) : Prop :=
  0 <= unread (con (l_reply l)) /\ info_fits (con (l_reply l)) (l_info l).

(** A turn that leaves the connection there leaves it well. *)
Definition turn_ok (t : turn (App := App)) : Prop := match t with Going l => link_ok l | Ended _ _ => True end.

Definition sent_of (t : turn (App := App)) : bytes := match t with Going l => l_out l | Ended _ out => out end.

Lemma run_idle_ok io l t :
  0 <= unread (con (l_reply l)) -> run_idle app_ cfg io l = Some t -> turn_ok t /\ sent_of t = l_out l.
Proof using Type.
  intros H0 E. unfold run_idle in E. apply bind_Some in E as ([r i] & Ei & E). injection E as <-.
  destruct r as [|w1 app1| | |]; try done. apply handle_idle_fits in Ei as (Hu & Hf & _); [|done]. by split.
Qed.

Lemma read_turn_ok io l t :
  0 <= unread (con (l_reply l)) -> read_turn app_ cfg io l = Some t -> turn_ok t /\ sent_of t = l_out l.
Proof using Type.
  intros H0 E. unfold read_turn in E. apply bind_Some in E as (c & Ec & E). apply handle_read_unread in Ec.
  apply run_idle_ok in E; [done|]. simpl. destruct (after_con_same (l_reply l) c). lia.
Qed.

Lemma write_turn_ok io l t : 0 <= unread (con (l_reply l)) -> write_turn app_ cfg io l = Some t -> turn_ok t.
Proof using Type.
  intros H0 E. unfold write_turn in E. apply bind_Some in E as ([w out] & Ew & E). apply handle_write_unread in Ew.
  apply run_idle_ok in E; [by destruct E|]. simpl. lia.
Qed.

Lemma then_turn_ok t f t' :
  turn_ok t -> (forall l, link_ok l -> f l = Some t' -> turn_ok t') -> then_turn t f = Some t' -> turn_ok t'.
Proof using Type. destruct t; simpl; [by eauto|by intros _ _ [= <-]]. Qed.

(** A forced close ends the connection at once. *)
Lemma forced_close thread rr wr io l :
  0 <= unread (con (l_reply l)) ->
  call_handlers app_ cfg thread rr wr true io l
  = Some (Ended (Cleanup (close_error (notify (daemon cfg)) (l_reply l)) (l_app l)) (l_out l), false).
Proof using Type.
  intros H0. unfold call_handlers, run_idle, MHD_connection_handle_idle, idle_fuel. cbn [l_reply l_app l_info l_out].
  destruct (close_error_con (notify (daemon cfg)) (l_reply l)) as [_ Hc]. cbn [Nat.add idle_rounds]. unfold idle_round.
  rewrite Hc. done.
Qed.

Lemma call_handlers_going thread rr wr io l l' pending :
  0 <= unread (con (l_reply l)) -> call_handlers app_ cfg thread rr wr false io l = Some (Going l', pending) ->
  link_ok l' /\ pending = negb thread && bool_decide (l_info l' = MHD_EVENT_LOOP_INFO_BLOCK)
  /\ (wr = false -> state (con (l_reply l)) <> MHD_CONNECTION_INIT \/ sk_nonblck cfg = false -> l_out l' = l_out l).
Proof using Type.
  intros H0 E. unfold call_handlers in E. apply bind_Some in E as (t & E & Ep). injection Ep as -> <-.
  enough (link_ok l' /\ (wr = false -> state (con (l_reply l)) <> MHD_CONNECTION_INIT \/ sk_nonblck cfg = false -> l_out l' = l_out l))
    as [? ?] by (split; [done|split; [by destruct thread|done]]).
  set (reads := bool_decide (l_info l = MHD_EVENT_LOOP_INFO_READ) && rr) in *. clearbody reads.
  apply bind_Some in E as (t1 & E1 & E). destruct t1 as [l1|]; [|done]. cbn [then_turn] in E.
  assert (0 <= unread (con (l_reply l1)) /\ l_out l1 = l_out l /\ (reads = true -> link_ok l1)) as (H1 & Ho & Hr).
  { destruct reads; [|injection E1 as <-; by split_and!]. apply read_turn_ok in E1 as [[Hu ?] ?]; [|done]. by split_and!. }
  set (writes := bool_decide (l_info l1 = MHD_EVENT_LOOP_INFO_WRITE) && wr) in *.
  assert (wr = false -> writes = false) as Hw by (intros ->; apply andb_false_r). clearbody writes.
  apply bind_Some in E as (t2 & E2 & E).
  destruct (reads || writes) eqn:Erw; cbn [negb] in E.
  2:{ apply run_idle_ok in E as [? Es]; [|done]. split; [done|]. intros _ _. cbn in Es. congruence. }
  assert (turn_ok t2) as Ht2.
  { destruct writes; [by apply write_turn_ok in E2|]. injection E2 as <-. apply Hr. by rewrite orb_false_r in Erw. }
  destruct (bool_decide (state (con (l_reply l)) = MHD_CONNECTION_INIT) && sk_nonblck cfg) eqn:Ef.
  - apply bind_Some in E as (t3 & E3 & E). split.
    + apply (then_turn_ok t3 _ (Going l')) in E; [done| |].
      * apply (then_turn_ok t2 _ t3) in E3; [done|done|]. intros l2 [? ?] E4.
        case_bool_decide; [by apply write_turn_ok in E4|by injection E4 as <-].
      * intros l3 [? ?] E4. destruct (body_ready _); [by apply write_turn_ok in E4|by injection E4 as <-].
    + intros _ Hc. apply andb_true_iff in Ef as [Ef1 Ef2]. apply bool_decide_eq_true in Ef1. rewrite Ef2 in Hc. by destruct Hc.
  - injection E as ->. split; [done|]. intros ->%Hw _. injection E2 as ->. done.
Qed.

(** Why a connection leaves the loop: it is closed and cleaned up, it is handed
    over to the application, or the application broke its contract. *)
Definition ended (r : round_end (App := App)) : Prop :=
  match r with
  | Cleanup w _ => state (con w) = MHD_CONNECTION_CLOSED
  | Upgraded w _ => state (con w) = MHD_CONNECTION_HEADERS_SENT
  | Aborted _ => True
  | Continue _ _ | Stop _ _ => False
  end.

Lemma go_on_if_ended go w app r :
  go_on_if (App := App) go w app = r -> match r with Continue _ _ | Stop _ _ => True | r => ended r end.
Proof using Type. intros <-. by destruct go. Qed.

Lemma idle_round_ended crc_call w app r :
  idle_round app_ cfg crc_call w app = Some r -> match r with Continue _ _ | Stop _ _ => True | r => ended r end.
Proof using Type.
  intros E. unfold idle_round in E. destruct (state (con w)) eqn:Hs.
  all: try (apply bind_Some in E as ([go w1] & _ & E); injection E as E; by apply go_on_if_ended in E).
  - apply bind_Some in E as ([w1 app1] & _ & E). apply bind_Some in E as ([go w2] & _ & E). injection E as E.
    by apply go_on_if_ended in E.
  - apply bind_Some in E as ([o app1] & _ & E). injection E as E. destruct o as [c|]; [by apply go_on_if_ended in E|by subst r].
  - apply bind_Some in E as ([w1 app1] & _ & E). apply bind_Some in E as ([go w2] & _ & E). injection E as E.
    by apply go_on_if_ended in E.
  - apply bind_Some in E as (r1 & _ & E). destruct (upgrade_handler r1).
    + injection E as <-. destruct (upgrade_succeeds cfg); [|done]. cbn. by destruct (drop_response_con w) as [_ ->].
    + apply bind_Some in E as ([go w1] & _ & E). injection E as E. by apply go_on_if_ended in E.
  - by injection E as <-.
Qed.

Lemma idle_rounds_ended crc_call fuel w app r :
  idle_rounds app_ cfg crc_call fuel w app = Some (Some r) -> match r with Stop _ _ => True | r => ended r end.
Proof using Type.
  revert w app. induction fuel as [|fuel IH]; intros w app E; [done|]. cbn [idle_rounds] in E.
  destruct (idle_round app_ cfg crc_call w app) as [r1|] eqn:Er; [|done]. apply idle_round_ended in Er.
  destruct r1; first [by eapply IH|by injection E as <-].
Qed.

Definition turn_ended (t : turn (App := App)) : Prop := match t with Going _ => True | Ended r _ => ended r end.

Lemma run_idle_ended io l t : run_idle app_ cfg io l = Some t -> turn_ended t.
Proof using Type.
  unfold run_idle, MHD_connection_handle_idle. intros E. apply bind_Some in E as ([r i] & Ei & E). injection E as <-.
  apply bind_Some in Ei as (o & Er & Ei). apply bind_Some in Ei as (r1 & -> & Ei). apply idle_rounds_ended in Er.
  destruct r1 as [|w1 app1| | |]; try by injection Ei as <- _. destruct (times_out cfg); [by injection Ei as <- _|].
  apply bind_Some in Ei as ([w2 i2] & _ & Ei). by injection Ei as <- _.
Qed.

Lemma then_turn_ended t f t' :
  turn_ended t -> (forall l t2, f l = Some t2 -> turn_ended t2) -> then_turn t f = Some t' -> turn_ended t'.
Proof using Type. destruct t; simpl; [by eauto|by intros ? _ [= <-]]. Qed.

Lemma read_turn_ended io l t : read_turn app_ cfg io l = Some t -> turn_ended t.
Proof using Type. unfold read_turn. intros E. apply bind_Some in E as (c & _ & E). by eapply run_idle_ended. Qed.

Lemma write_turn_ended io l t : write_turn app_ cfg io l = Some t -> turn_ended t.
Proof using Type. unfold write_turn. intros E. apply bind_Some in E as ([w out] & _ & E). by eapply run_idle_ended. Qed.

Lemma if_turn_ended (b : bool) (t : option turn) l t' :
  (forall t2, t = Some t2 -> turn_ended t2) -> (if b then t else Some (Going l)) = Some t' -> turn_ended t'.
Proof using Type. destruct b; [by eauto|by intros _ [= <-]]. Qed.

Lemma call_handlers_ended thread rr wr fc io l t pending :
  call_handlers app_ cfg thread rr wr fc io l = Some (t, pending) -> turn_ended t.
Proof using Type.
  unfold call_handlers. intros E. apply bind_Some in E as (t1 & E & Et). injection Et as <- _.
  destruct fc; [by eapply run_idle_ended|]. set (reads := _ && rr) in E. clearbody reads.
  apply bind_Some in E as (t2 & E2 & E).
  eapply then_turn_ended; [eapply if_turn_ended, E2; intros; by eapply read_turn_ended| |exact E]. clear t2 E2 E. intros l1 t2 E.
  apply bind_Some in E as (t3 & E3 & E). assert (turn_ended t3) as H3 by (eapply if_turn_ended, E3; intros; by eapply write_turn_ended).
  clear E3. destruct (negb _); [by eapply run_idle_ended|]. destruct (_ && _); [|by injection E as <-].
  apply bind_Some in E as (t4 & E4 & E). eapply then_turn_ended; [|intros l2 t5; apply if_turn_ended, write_turn_ended|exact E].
  eapply then_turn_ended; [exact H3|intros l2 t5; apply if_turn_ended, write_turn_ended|exact E4].
Qed.

(** C22: one turn of the event loop leaves a connection that is watched for what
    fits its state: it is read from only while a request is read and the
    client has not closed its side, it is watched for writing exactly when
    there is something to send, and marked for cleaning exactly when it is
    closed.  The daemon does not sleep in its next round exactly when the
    connection waits for the application (a thread of its own apart).  Nothing
    is sent unless the socket was found ready for writing or the request began
    in this very turn on a socket that does not block.  A forced close ends
    the connection whatever its state. *)
Theorem call_handlers_fits thread rr wr fc io l :
  0 <= unread (con (l_reply l)) ->
  (fc = true -> ∃ w, call_handlers app_ cfg thread rr wr fc io l = Some (Ended (Cleanup w (l_app l)) (l_out l), false)
                     /\ state (con w) = MHD_CONNECTION_CLOSED)
  /\ forall l' pending, call_handlers app_ cfg thread rr wr fc io l = Some (Going l', pending) ->
     link_ok l' /\ pending = negb thread && bool_decide (l_info l' = MHD_EVENT_LOOP_INFO_BLOCK)
     /\ (wr = false -> state (con (l_reply l)) <> MHD_CONNECTION_INIT \/ sk_nonblck cfg = false -> l_out l' = l_out l).
Proof using Type.
  intros H0. destruct fc.
  - rewrite forced_close by done. split; [|done]. intros _. eexists. split; [done|]. apply close_error_con.
  - split; [done|]. intros l' pending. by apply call_handlers_going.
Qed.
End Turns.

(** ** Concrete runs *)

Definition demo_link (w : reply) (info : MHD_ConnectionEventLoopInfo) : link (App := list bytes) := mkLink w [] info [].

Definition demo_calls (n : nat) : option (turn (App := list bytes)) :=
  Nat.iter n (λ t, t ← t; then_turn t (λ l, fst <$> call_handlers (H := LP64) echo_application demo_idle_config false true true false
                                                       (demo_io (demo_get (str "/a") ++ demo_get (str "/b?x=1"))) l))
    (Some (Going (demo_link (demo_accepted []) MHD_EVENT_LOOP_INFO_READ))).

(** Two requests in one packet are answered in order: the first in the turn
    that reads them, on the fast track, the second in the two turns behind
    it. *)
Example pipelined_requests_answered :
  ∃ l, demo_calls 3 = Some (Going l)
    /\ l_out l = str "HTTP/1.1 200 OK" ++ crlf ++ str "Connection: Keep-Alive" ++ crlf ++ str "Content-Length: 2" ++ crlf ++ crlf ++ str "/a"
              ++ str "HTTP/1.1 200 OK" ++ crlf ++ str "Connection: Keep-Alive" ++ crlf ++ str "Content-Length: 2" ++ crlf ++ crlf ++ str "/b"
    /\ l_app l = [str "/a"; str "/a"; str "/b"; str "/b"] /\ state (con (l_reply l)) = MHD_CONNECTION_INIT
    /\ l_info l = MHD_EVENT_LOOP_INFO_READ.
Proof. eexists. split; [vm_compute; reflexivity|]. done. Qed.

(** A request that is not understood is answered, and the connection closed
    behind the answer. *)
Example malformed_request_answered :
  ∃ w, fst <$> call_handlers (H := LP64) echo_application demo_idle_config false true false false (demo_io demo_malformed)
                 (demo_link (demo_accepted []) MHD_EVENT_LOOP_INFO_READ)
       = Some (Ended (Cleanup w [])
           (str "HTTP/1.1 400 Bad Request" ++ crlf ++ str "Connection: close" ++ crlf ++ str "Content-Length: 117" ++ crlf ++ crlf
            ++ REQUEST_MALFORMED)).
Proof. eexists. vm_compute. reflexivity. Qed.

(** So is one whose first line does not fit into the memory. *)
Example long_line_answered :
  ∃ w, fst <$> call_handlers (H := LP64) echo_application demo_idle_config false true false false
                 (demo_io (str "GET /" ++ replicate 600 97)) (demo_link (demo_accepted []) MHD_EVENT_LOOP_INFO_READ)
       = Some (Ended (Cleanup w [])
           (str "HTTP/1.0 414 URI Too Long" ++ crlf ++ str "Connection: close" ++ crlf ++ str "Content-Length: 143" ++ crlf ++ crlf
            ++ REQUEST_TOO_BIG)).
Proof. eexists. vm_compute. reflexivity. Qed.

(** While the daemon shuts down, [MHD_queue_response] reports success without
    taking the response; the error reply then builds the header of a response
    that is not there. *)
Theorem error_reply_at_shutdown_has_no_response :
  call_handlers (H := LP64) echo_application demo_stopping_config false true false false (demo_io demo_malformed)
    (demo_link (demo_accepted []) MHD_EVENT_LOOP_INFO_READ) = None.
Proof. vm_compute. reflexivity. Qed.

Lemma call_handlers_fits_witness :
  let l := demo_link (demo_accepted []) MHD_EVENT_LOOP_INFO_READ in
  ∃ l', call_handlers (H := LP64) echo_application demo_idle_config false true false false (demo_io (str "GET")) l = Some (Going l', false)
    /\ link_ok l' /\ l_info l' = MHD_EVENT_LOOP_INFO_READ.
Proof.
  intros l.
  assert (∃ l', call_handlers (H := LP64) echo_application demo_idle_config false true false false (demo_io (str "GET")) l = Some (Going l', false)
                /\ l_info l' = MHD_EVENT_LOOP_INFO_READ) as (l' & E & Hi) by (vm_compute; by eexists).
  destruct (call_handlers_fits (H := LP64) echo_application demo_idle_config false true false false (demo_io (str "GET")) l) as [_ Hl];
    [by vm_compute|].
  exists l'. split; [exact E|]. split; [|exact Hi]. apply (Hl l' false E).
Defined.
