(* ===== verification/IdleDeliver.v ===== *)
(** * A reply is sent in the turns of the event loop

    [ReplyStream] says that what is sent of a plain reply is always a part of
    it.  Here its steps are those of [Idle.call_handlers], and the reply comes
    to its end: every turn in which the socket takes something brings it
    closer. *)

From S2P Require Import Prelude MhdStr MemoryPool Internal Headers Connection RequestBody RequestHead HeaderBlock.
From S2P Require Import Response Reply ReplyHeader ReplyBody ReplyStream EventLoop ErrorReply Idle IdleEnd IdleHead IdleTurns.

(** ** The loop over the states while a reply is sent *)

Section Deliver.
Context `{Platform} {App : Type} (app_ : application (App := App)) (cfg : idle_config).
Context (body : bytes) (hs : list MHD_HTTP_Header) (lim : Z) (pv : char_ptr) (v : bytes).
Context (Hhs : Forall entry_string hs) (Hv : v ≠ []).
Context (Hsize : Z.of_nat (length (sent_lines no_plan MHD_FOOTER_KIND hs)) + 385 <= SIZE_MAX).
Context (done0 : list termination) (whole : bytes).

#[local] Abbreviation inv := (plain_inv body hs lim pv v done0 whole).

Lemma inv_sending w out :
  inv w out -> sending (state (con w)) = true ->
  ∃ r b, base body hs lim pv v w r /\ have_chunked_upload (up (con w)) = false /\ completed (con w) = done0
    /\ owed body lim w b /\ out ++ b = whole.
Proof using Type. intros [?|[Hc _]] Hs; [done|]. by rewrite Hc in Hs. Qed.

(** The rounds of the loop are those of [reply_step]. *)
Lemma sending_round crc_call w app out :
  inv w out -> sending (state (con w)) = true -> reads body crc_call -> delivers body crc_call ->
  ∃ go_on w', idle_round app_ cfg crc_call w app = Some (go_on_if go_on w' app) /\ inv w' out
    /\ idle_advances whole w go_on w' out.
Proof using Hhs Hv Hsize.
  intros Hi Hs Hread Hdel. destruct (inv_sending w out Hi Hs) as (r & b & Hb & Hch & Hd & Ho & Hw).
  destruct (plain_idle_step (notify (daemon cfg)) (header_config cfg) (pool_size (daemon cfg)) (λ _, None) (λ _, None) body hs lim pv v Hhs Hv Hsize
    done0 whole w r b out crc_call) as (go_on & w' & E & Hi' & Ha); [done..|].
  exists go_on, w'. split; [|split; [done|by apply Ha]].
  destruct Hb as (Hr & (_ & Hup & _) & _). unfold idle_round. unfold reply_step in *. unfold owed in Ho.
  destruct (state (con w)); try done; try (by rewrite E).
  rewrite Hr. cbn [mbind option_bind]. by rewrite Hup, E.
Qed.

(** The loop comes to the end of the reply, or stops with the rest still to be
    sent, or closed behind the last byte. *)
Definition rests (w : reply) : Prop :=
  state (con w) = MHD_CONNECTION_HEADERS_SENDING \/ state (con w) = MHD_CONNECTION_NORMAL_BODY_READY.

Definition loop_result (crc_call : Z -> Z -> crc_result) (w : reply) (app : App) (out : bytes) : Prop :=
  (∃ wf, rtc (continues app_ cfg crc_call) (w, app) (wf, app) /\ reply_over wf /\ out = whole)
  \/ ∃ wm w', rtc (continues app_ cfg crc_call) (w, app) (wm, app) /\ idle_round app_ cfg crc_call wm app = Some (Stop w' app)
      /\ ((state (con w') = MHD_CONNECTION_CLOSED /\ response (con w') = None /\ out = whole)
          \/ (rests w' /\ inv w' out
              /\ (state (con w') = MHD_CONNECTION_HEADERS_SENDING -> state (con w) = MHD_CONNECTION_HEADERS_SENDING))).

Lemma loop_result_step crc_call w w' app out :
  continues app_ cfg crc_call (w, app) (w', app) -> state (con w') <> MHD_CONNECTION_HEADERS_SENDING -> loop_result crc_call w' app out -> loop_result crc_call w app out.
Proof using Type.
  intros Hc Hw [(wf & Hr & ?)|(wm & w2 & Hr & E & Hend)].
  - left. exists wf. split; [by eapply rtc_l|done].
  - right. exists wm, w2. split; [by eapply rtc_l|]. split; [done|]. destruct Hend as [?|(? & ? & Hh)]; [by left|right].
    split; [done|]. split; [done|]. by intros ?%Hh.
Qed.

Lemma sending_loop crc_call w app out :
  inv w out -> sending (state (con w)) = true -> reads body crc_call -> delivers body crc_call -> loop_result crc_call w app out.
Proof using Hhs Hv Hsize.
  intros Hi Hs Hread Hdel.
  assert (forall w, inv w out -> state (con w) = MHD_CONNECTION_BODY_SENT -> loop_result crc_call w app out) as Hbody.
  { intros w1 H1 E1. destruct (sending_round crc_call w1 app out) as (g & w2 & E & _ & Ha); [done|by rewrite E1|done|done|].
    unfold idle_advances in Ha. rewrite E1 in Ha. destruct Ha as (-> & Hover & Hall). left. exists w2. split; [by apply rtc_once|done]. }
  assert (forall w, inv w out -> state (con w) = MHD_CONNECTION_NORMAL_BODY_UNREADY -> loop_result crc_call w app out) as Hunready.
  { intros w1 H1 E1. destruct (sending_round crc_call w1 app out) as (g & w2 & E & H2 & Ha); [done|by rewrite E1|done|done|].
    unfold idle_advances in Ha. rewrite E1 in Ha. destruct Ha as [[-> Hst]|[[-> Hst]|(-> & Hst & Hrest)]].
    - apply (loop_result_step crc_call w1 w2); [done|by rewrite Hst|by apply Hbody].
    - right. exists w1, w2. split; [done|]. split; [done|]. right. split; [by right|]. split; [done|congruence].
    - right. exists w1, w2. split; [done|]. split; [done|]. by left. }
  destruct (sending_round crc_call w app out) as (g & w2 & E & H2 & Ha); [done..|].
  unfold idle_advances in Ha. destruct (inv_sending w out Hi Hs) as (_ & b & _ & _ & _ & Ho & _). unfold owed in Ho.
  destruct (state (con w)) eqn:Est; try done; [| | |by apply Hunready|by apply Hbody].
  - destruct Ha as [-> ->]. right. exists w, w. split; [done|]. split; [done|]. right. split; [by left|]. by split.
  - destruct Ha as [-> Hst]. apply (loop_result_step crc_call w w2); [done|by rewrite Hst|by apply Hunready].
  - destruct Ha as [-> ->]. right. exists w, w. split; [done|]. split; [done|]. right. split; [by right|]. by split.
Qed.

(** ** Turns *)

(** The connection was closed by the turn, or is marked for that. *)
Definition closed_turn (t : turn) (app : App) (out : bytes) : Prop :=
  ∃ wf, state (con wf) = MHD_CONNECTION_CLOSED
    /\ (t = Ended (Cleanup wf app) out \/ t = Going (mkLink wf app MHD_EVENT_LOOP_INFO_CLEANUP out)).

Definition reads_all (io : turn_io) : Prop :=
  reads body (idle_reader io) /\ delivers body (idle_reader io) /\ reads body (write_reader io) /\ delivers body (write_reader io)
  /\ send_ok (send_cls io) /\ takes (send_cls io).

Context (Hto : times_out cfg = false).

(** The last round of a run is known. *)
Lemma run_idle_reaches io w wm app0 app r :
  0 <= unread (con w) -> rtc (continues app_ cfg (idle_reader io)) (w, app0) (wm, app) ->
  idle_round app_ cfg (idle_reader io) wm app = Some r -> (forall w' app', r <> Continue w' app') ->
  idle_rounds app_ cfg (idle_reader io) (idle_fuel w) w app0 = Some (Some r).
Proof using Type.
  intros H0 Hr E Hc. destruct (loop_reaches app_ cfg (idle_reader io) w app0 wm app H0 Hr) as ([|fuel] & o' & Eo & Eo'); [done|].
  cbn [idle_rounds] in Eo'. rewrite E in Eo'. rewrite Eo, <- Eo'. by destruct r; [edestruct Hc|..].
Qed.

Lemma run_idle_rests io w wm w' app0 app1 app info o :
  0 <= unread (con w) -> rtc (continues app_ cfg (idle_reader io)) (w, app0) (wm, app1) ->
  idle_round app_ cfg (idle_reader io) wm app1 = Some (Stop w' app) -> rests w' ->
  run_idle app_ cfg io (mkLink w app0 info o) = Some (Going (mkLink w' app MHD_EVENT_LOOP_INFO_WRITE o)).
Proof using Hto.
  intros H0 Hr E Hs. unfold run_idle, MHD_connection_handle_idle. cbn [l_reply l_app l_info l_out].
  rewrite (run_idle_reaches io w wm app0 app1 _ H0 Hr E) by done. cbn [mbind option_bind]. rewrite Hto.
  rewrite (update_info_writes cfg w'); [done|by destruct Hs as [-> | ->]].
Qed.

Lemma run_idle_over io w wf app0 app info o :
  0 <= unread (con w) -> rtc (continues app_ cfg (idle_reader io)) (w, app0) (wf, app) -> state (con wf) = MHD_CONNECTION_CLOSED ->
  run_idle app_ cfg io (mkLink w app0 info o) = Some (Ended (Cleanup wf app) o).
Proof using Type.
  intros H0 Hr Hc. unfold run_idle, MHD_connection_handle_idle. cbn [l_reply l_app l_info l_out].
  rewrite (run_idle_reaches io w wf app0 app (Cleanup wf app) H0 Hr); [done| |done]. unfold idle_round. by rewrite Hc.
Qed.

Lemma run_idle_ends io w app info o out :
  0 <= unread (con w) -> loop_result (idle_reader io) w app out ->
  (∃ wf, rtc (continues app_ cfg (idle_reader io)) (w, app) (wf, app) /\ state (con wf) = MHD_CONNECTION_FOOTERS_SENT /\ out = whole)
  \/ (∃ t, run_idle app_ cfg io (mkLink w app info o) = Some t /\ closed_turn t app o /\ out = whole)
  \/ (∃ w', run_idle app_ cfg io (mkLink w app info o) = Some (Going (mkLink w' app MHD_EVENT_LOOP_INFO_WRITE o))
        /\ rests w' /\ inv w' out
        /\ (state (con w') = MHD_CONNECTION_HEADERS_SENDING -> state (con w) = MHD_CONNECTION_HEADERS_SENDING)).
Proof using Hto.
  intros H0 [(wf & Hr & [Hf|Hc] & Hall)|(wm & w' & Hr & E & [(Hc & Hre & Hall)|(Hs & Hi & Hst)])].
  - left. by exists wf.
  - right; left. exists (Ended (Cleanup wf app) o). split; [by apply run_idle_over|]. split; [exists wf; split; [done|by left]|done].
  - right; left. unfold run_idle, MHD_connection_handle_idle. cbn [l_reply l_app l_info l_out].
    rewrite (run_idle_reaches io w wm app app _ H0 Hr E) by done. cbn [mbind option_bind]. rewrite Hto.
    destruct (update_info_closed cfg w' info Hc) as (w2 & -> & Hc2). cbn [mbind option_bind].
    eexists. split; [done|]. split; [|done]. exists w2. split; [done|by right].
  - right; right. exists w'. split; [by eapply run_idle_rests|done].
Qed.

(** What is still to be done: the bytes and the end of the header. *)
Definition weight (w : reply) (out : bytes) : nat :=
  (if bool_decide (state (con w) = MHD_CONNECTION_HEADERS_SENDING) then 1 else 0) + (length whole - length out).

Lemma weight_less w w1 w' out o :
  write_advances whole w w1 out o -> ~ reply_over w1 -> inv w' (out ++ o) -> rests w' ->
  (state (con w') = MHD_CONNECTION_HEADERS_SENDING -> state (con w1) = MHD_CONNECTION_HEADERS_SENDING) ->
  (weight w' (out ++ o) < weight w out)%nat.
Proof using Type.
  intros Ha Hn Hi Hs Hh. destruct (inv_sending w' (out ++ o) Hi) as (_ & b & _ & _ & _ & _ & Hw); [by destruct Hs as [-> | ->]|].
  apply (f_equal length) in Hw. unfold weight. rewrite !length_app in *.
  destruct Ha as [[? _]|[[H1 H2]|[H1 H2]]]; [done| |].
  - rewrite (bool_decide_true (state (con w) = _)) by done.
    rewrite (bool_decide_false (state (con w') = _)) by (intros E%Hh; congruence). lia.
  - rewrite H1 in Hh. destruct o; [done|]. cbn [length] in *. repeat case_bool_decide; try lia. by exfalso; auto.
Qed.

Lemma write_step w out (io : turn_io) :
  inv w out -> rests w -> reads_all io ->
  ∃ w1 o, MHD_connection_handle_write (notify (daemon cfg)) false w (write_reader io) (send_cls io) (sendfile_adapter io) = Some (w1, o)
    /\ inv w1 (out ++ o) /\ write_advances whole w w1 out o.
Proof using Type.
  intros Hi Hs (_ & _ & Hread & Hdel & Hsend & Htk).
  destruct (inv_sending w out Hi) as (r & b & Hb & Hch & Hd & Ho & Hw); [by destruct Hs as [-> | ->]|].
  unfold MHD_connection_handle_write. destruct Hs as [Hs|Hs]; rewrite Hs.
  - destruct (plain_headers_step (notify (daemon cfg)) body hs lim pv v done0 whole w r b out (send_cls io))
      as (w1 & o & E & H1 & H2); [done..|]. exists w1, o. split_and!; auto.
  - destruct (plain_body_step (notify (daemon cfg)) (sendfile_adapter io) body hs lim pv v done0 whole w r b out (write_reader io) (send_cls io))
      as (w1 & o & E & H1 & H2); [done..|]. exists w1, o. split_and!; auto.
Qed.

(** A turn without a chance to write changes nothing of the reply. *)
Lemma waiting_turn rr io l out :
  inv (l_reply l) out -> rests (l_reply l) -> l_info l = MHD_EVENT_LOOP_INFO_WRITE -> 0 <= unread (con (l_reply l)) ->
  (forall k, reads_all (io k)) ->
  ∃ w', call_handlers app_ cfg false rr false false io l = Some (Going (mkLink w' (l_app l) MHD_EVENT_LOOP_INFO_WRITE (l_out l)), false)
    /\ rests w' /\ inv w' out /\ 0 <= unread (con w') /\ (weight w' out <= weight (l_reply l) out)%nat.
Proof using All.
  destruct l as [w app i o]. cbn [l_reply l_app l_info l_out]. intros Hi Hs -> H0 Hio.
  pose proof (Hio 2%nat) as (Hread & Hdel & _).
  destruct (sending_round (idle_reader (io 2%nat)) w app out Hi ltac:(by destruct Hs as [-> | ->]) Hread Hdel) as (g & w' & E & _ & Ha).
  assert (g = false /\ w' = w) as [-> ->] by (unfold idle_advances in Ha; by destruct Hs as [Hs|Hs]; rewrite Hs in Ha).
  exists w. split; [|done]. unfold call_handlers. cbn [l_info l_reply l_app].
  rewrite (bool_decide_false (MHD_EVENT_LOOP_INFO_WRITE = MHD_EVENT_LOOP_INFO_READ)) by done.
  cbn [andb mbind option_bind then_turn l_info]. rewrite andb_false_r. cbn [mbind option_bind orb negb].
  by rewrite (run_idle_rests (io 2%nat) w w w app app app _ o).
Qed.

Lemma sending_turn rr io l out :
  inv (l_reply l) out -> rests (l_reply l) -> l_info l = MHD_EVENT_LOOP_INFO_WRITE -> 0 <= unread (con (l_reply l)) ->
  (forall k, reads_all (io k)) ->
  let t := call_handlers app_ cfg false rr true false io l in
  ∃ w1 o, MHD_connection_handle_write (notify (daemon cfg)) false (l_reply l) (write_reader (io 1%nat)) (send_cls (io 1%nat)) (sendfile_adapter (io 1%nat))
          = Some (w1, o)
    /\ ((out ++ o = whole
          /\ ((∃ wf, rtc (continues app_ cfg (idle_reader (io 1%nat))) (w1, l_app l) (wf, l_app l) /\ state (con wf) = MHD_CONNECTION_FOOTERS_SENT)
              \/ ∃ t', t = Some (t', false) /\ closed_turn t' (l_app l) (l_out l ++ o)))
        \/ ∃ w', t = Some (Going (mkLink w' (l_app l) MHD_EVENT_LOOP_INFO_WRITE (l_out l ++ o)), false)
            /\ rests w' /\ inv w' (out ++ o) /\ 0 <= unread (con w') /\ (weight w' (out ++ o) < weight (l_reply l) out)%nat).
Proof using All.
  destruct l as [w app i o0]. cbn [l_reply l_app l_info l_out]. intros Hi Hs -> H0 Hio.
  destruct (write_step w out (io 1%nat) Hi Hs (Hio 1%nat)) as (w1 & o & E & H1 & Ha). exists w1, o. split; [done|].
  pose proof (handle_write_unread _ _ _ _ _ _ _ E) as Hu.
  assert (forall r, run_idle app_ cfg (io 1%nat) (mkLink w1 app MHD_EVENT_LOOP_INFO_WRITE (o0 ++ o)) = r ->
    call_handlers app_ cfg false rr true false io (mkLink w app MHD_EVENT_LOOP_INFO_WRITE o0)
    = (t ← r; Some (t, match t with Going l => bool_decide (l_info l = MHD_EVENT_LOOP_INFO_BLOCK) | Ended _ _ => false end))) as Hcall.
  { intros r <-. unfold call_handlers. cbn [l_info l_reply l_app].
    rewrite (bool_decide_false (MHD_EVENT_LOOP_INFO_WRITE = MHD_EVENT_LOOP_INFO_READ)) by done.
    cbn [andb mbind option_bind then_turn l_info]. rewrite bool_decide_true by done. cbn [andb orb negb].
    rewrite (bool_decide_false (state (con w) = MHD_CONNECTION_INIT)) by (by destruct Hs as [-> | ->]). cbn [andb].
    unfold write_turn. cbn [l_reply l_app l_info l_out]. rewrite E. cbn [mbind option_bind].
    by destruct (run_idle _ _ _ _). }
  assert (reply_over w1 \/ ~ reply_over w1) as [[Hf|Hc]|Hn]
    by (unfold reply_over; destruct (state (con w1)); auto; right; by intros []).
  1-2: assert (out ++ o = whole) as Hall
    by (destruct Ha as [[_ ?]|[[_ Hx]|[Hx _]]]; [done|congruence|destruct Hs; congruence]); left; split; [done|].
  - left. by exists w1.
  - right. eexists. rewrite (Hcall _ (run_idle_over _ w1 w1 app app _ _ ltac:(lia) (rtc_refl _ _) Hc)). cbn [mbind option_bind].
    split; [done|]. exists w1. split; [done|by left].
  - pose proof (Hio 1%nat) as (Hread & Hdel & _).
    assert (sending (state (con w1)) = true) as Hse
      by (destruct Ha as [[? _]|[[_ ->]|[-> _]]]; [done|done|by destruct Hs as [-> | ->]]).
    pose proof (sending_loop (idle_reader (io 1%nat)) w1 app (out ++ o) H1 Hse Hread Hdel) as Hl.
    destruct (run_idle_ends (io 1%nat) w1 app MHD_EVENT_LOOP_INFO_WRITE (o0 ++ o) (out ++ o) ltac:(lia) Hl)
      as [(wf & Hr & Hf & Hall)|[(t & Er & Ht & Hall)|(w' & Er & Hs' & Hi' & Hst)]].
    + left. split; [done|]. left. by exists wf.
    + left. split; [done|]. right. exists t. rewrite (Hcall _ Er). cbn [mbind option_bind]. split; [|done].
      destruct Ht as (w2 & _ & [-> | ->]); done.
    + right. exists w'. rewrite (Hcall _ Er). cbn [mbind option_bind l_info]. split; [done|]. split; [done|]. split; [done|].
      split; [by apply run_idle_ok in Er as [[? _] _]; [|cbn; lia]|]. by eapply weight_less.
Qed.

(** ** All turns of a reply *)

(** What the event loop finds: whether the socket can be read and written, and
    what comes of it. *)
Record occasion := mkOccasion { read_ready : bool; write_ready : bool; turn_ios : nat -> turn_io }.

Fixpoint turns (es : list occasion) (l : link) : option link :=
  match es with
  | [] => Some l
  | e :: es =>
      '(t, _) ← call_handlers app_ cfg false (read_ready e) (write_ready e) false (turn_ios e) l;
      match t with Going l => turns es l | Ended _ _ => None end
  end.

(** How often the socket can be written. *)
Definition chances (es : list occasion) : nat := length (filter (λ e, write_ready e = true) es).

Lemma chances_cons e es : chances (e :: es) = ((if write_ready e then 1 else 0) + chances es)%nat.
Proof using Type.
  unfold chances. destruct (write_ready e) eqn:Ee; [by rewrite filter_cons_True|rewrite filter_cons_False; [done|congruence]].
Qed.

(** The turn [e] sends the rest [o] of the reply. *)
Definition finishes (e : occasion) (l : link) (o : bytes) : Prop :=
  let io := turn_ios e in
  ∃ w1, MHD_connection_handle_write (notify (daemon cfg)) false (l_reply l) (write_reader (io 1%nat)) (send_cls (io 1%nat)) (sendfile_adapter (io 1%nat))
        = Some (w1, o)
    /\ ((∃ wf, rtc (continues app_ cfg (idle_reader (io 1%nat))) (w1, l_app l) (wf, l_app l) /\ state (con wf) = MHD_CONNECTION_FOOTERS_SENT)
        \/ ∃ t, call_handlers app_ cfg false (read_ready e) true false io l = Some (t, false) /\ closed_turn t (l_app l) (l_out l ++ o)).

Lemma turns_finish es l out :
  inv (l_reply l) out -> rests (l_reply l) -> l_info l = MHD_EVENT_LOOP_INFO_WRITE -> 0 <= unread (con (l_reply l)) ->
  Forall (λ e, forall k, reads_all (turn_ios e k)) es -> (weight (l_reply l) out < chances es)%nat ->
  ∃ es1 e es2 l' sent o,
    es = es1 ++ e :: es2 /\ turns es1 l = Some l' /\ write_ready e = true /\ l_app l' = l_app l
    /\ l_out l' = l_out l ++ sent /\ finishes e l' o /\ out ++ sent ++ o = whole.
Proof using Hhs Hv Hsize Hto.
  intros Hi Hs Hw H0 Hes. revert l out Hi Hs Hw H0. induction Hes as [|e es He Hes IH]; intros l out Hi Hs Hw H0 Hlt; [by cbn in Hlt; lia|].
  assert (forall l2 o2, call_handlers app_ cfg false (read_ready e) (write_ready e) false (turn_ios e) l = Some (Going l2, false) ->
    l_info l2 = MHD_EVENT_LOOP_INFO_WRITE -> l_app l2 = l_app l -> l_out l2 = l_out l ++ o2 -> rests (l_reply l2) -> inv (l_reply l2) (out ++ o2) ->
    0 <= unread (con (l_reply l2)) -> (weight (l_reply l2) (out ++ o2) < chances es)%nat ->
    ∃ es1 e' es2 l' sent o,
      e :: es = es1 ++ e' :: es2 /\ turns es1 l = Some l' /\ write_ready e' = true /\ l_app l' = l_app l
      /\ l_out l' = l_out l ++ sent /\ finishes e' l' o /\ out ++ sent ++ o = whole) as Hnext.
  { intros l2 o2 E Hw2 Ha2 Ho2 Hs2 Hi2 H02 Hlt2.
    destruct (IH l2 (out ++ o2) Hi2 Hs2 Hw2 H02 Hlt2) as (es1 & e' & es2 & l' & sent & o & -> & Et & ? & Ha & Ho & Hf & Hall).
    exists (e :: es1), e', es2, l', (o2 ++ sent), o. split; [done|]. cbn [turns]. rewrite E. cbn [mbind option_bind].
    split; [done|]. split; [done|]. split; [congruence|]. split; [by rewrite Ho, Ho2, app_assoc|]. split; [done|].
    by rewrite <- Hall, <- !app_assoc. }
  rewrite chances_cons in Hlt. destruct (write_ready e) eqn:Ewr.
  - destruct (sending_turn (read_ready e) (turn_ios e) l out Hi Hs Hw H0 He) as (w1 & o & E & [[Hall Hover]|(w' & Et & Hs' & Hi' & H0' & Hlt')]).
    + exists [], e, es, l, [], o. split; [done|]. split; [done|]. split; [done|]. split; [done|]. split; [by rewrite app_nil_r|].
      split; [by exists w1|done].
    + apply (Hnext _ o Et); try done. cbn [l_reply]. lia.
  - destruct (waiting_turn (read_ready e) (turn_ios e) l out Hi Hs Hw H0 He) as (w' & Et & Hs' & Hi' & H0' & Hlt').
    apply (Hnext _ [] Et); rewrite ?app_nil_r; try done. cbn [l_reply]. lia.
Qed.
End Deliver.
