(* ===== verification/IdleServe.v ===== *)
(** * A request without a body is answered (libmicrohttpd/src/microhttpd/connection.c)

    [IdleHead] followed by the calls of the application and the header of its
    reply ([ReplyHeader]): from the bytes of a request to those of the header,
    in one run of [MHD_connection_handle_idle]; and followed by the turns of
    [IdleDeliver], in which the reply is sent. *)

From S2P Require Import Prelude MhdStr MemoryPool Internal Headers Connection RequestBody RequestHead HeaderBlock RequestLine.
From S2P Require Import Response Reply ReplyHeader ReplyBody ReplyStream EventLoop ErrorReply Idle IdleEnd IdleHead IdleTurns IdleDeliver.

Section Serve.
Context `{Platform} {App : Type} (app_ : application (App := App)) (cfg : idle_config) (crc_call : Z -> Z -> crc_result).
Context `{!UnescapeCallback (unescape_callback (daemon cfg))}.

(** What the application can find out about the request of [c]. *)
Definition shows (c : MHD_Connection) (mth path ver : bytes) (l : list MHD_HTTP_Header) : Prop :=
  knows_line (daemon cfg) c mth path ver /\ resolve_all (memory (pool c)) (headers_received (req c)) = Some l.

Context (mth path ver : bytes) (l : list MHD_HTTP_Header).
Context (Hmth : no_nul mth) (Hver : no_nul ver) (Hl : Forall header_wf l).

Lemma version_of c s :
  shows c mth path ver l -> no_nul s -> version_is c s = Some (bool_decide (caseless_eq s ver)).
Proof using Hver.
  intros [(m & u & v & _ & _ & Ev & _ & _ & Hv) _] Hs. unfold version_is. rewrite Ev, (chars_has_string _ v ver) by done.
  by apply equal_cstr.
Qed.

Lemma no_expectation c written :
  shows c mth path ver l -> Connection.response c = None -> first_value l (str "Expect") = None ->
  need_100_continue c written = Some false.
Proof using Hver Hl.
  intros Hs Hr He. unfold need_100_continue. rewrite Hr, (version_of c) by (done || apply (bool_decide_unpack _); reflexivity).
  cbn [mbind option_bind]. destruct Hs as [_ El].
  destruct (header_value_of_spec c l (str "Expect") El Hl) as [-> _]; [apply (bool_decide_unpack _); reflexivity|].
  fold (first_value l (str "Expect")). rewrite He. by destruct (bool_decide _).
Qed.

(** The first call of the application, which only takes note. *)
Lemma first_call w app app1 :
  state (con w) = MHD_CONNECTION_HEADERS_PROCESSED -> resp w = None -> Connection.response (con w) = None ->
  shows (con w) mth path ver l -> first_value l (str "Expect") = None -> remaining_upload_size (up (con w)) = 0 ->
  (forall w, shows (con w) mth path ver l -> state (con w) = MHD_CONNECTION_HEADERS_PROCESSED -> answer app_ app w = (app1, true, None)) ->
  continues app_ cfg crc_call (w, app) (set_con w (set_state (set_aware (con w) true) MHD_CONNECTION_FOOTERS_RECEIVED), app1).
Proof using Hver Hl.
  intros Hst Hr Hcr Hs He Hrem Happ. unfold continues, idle_round. cbn [fst snd]. rewrite Hst.
  unfold call_connection_handler. rewrite Hr, Happ by done. cbn [mbind option_bind].
  unfold idle_headers_processed. cbn [mbind option_bind]. rewrite bool_decide_false by (cbn; by rewrite Hst).
  rewrite no_expectation by done. cbn [mbind option_bind]. cbn. rewrite Hr. cbn. by rewrite Hrem.
Qed.

(** The reply the application queues at its last call: a reply without a body
    begins behind it. *)
Definition bodiless (code : Z) : bool :=
  bool_decide (caseless_eq mth (str "HEAD")) || (code <? 200) || (204 =? code) || (304 =? code).

Definition queued (w : reply) (code : Z) (r : MHD_Response) (wr : reply) : Prop :=
  con wr = set_response (set_aware (con w) true) (Some code) /\ resp wr = Some (MHD_increment_response_rc r)
  /\ responseCode wr = code.

Definition starts_at (w : reply) (code : Z) (r : MHD_Response) (wr : reply) : Prop :=
  response_write_position wr = (if bodiless code then total_size r else response_write_position w)
  /\ sendfile wr = negb (fd r =? -1) && negb (uses_tls cfg).

Lemma queue_accepted w code r :
  state (con w) = MHD_CONNECTION_FOOTERS_RECEIVED -> resp w = None -> shows (con w) mth path ver l ->
  shutting_down cfg = false -> wrong_thread cfg = false -> upgrade_handler r = false ->
  ∃ b wr, MHD_queue_response (header_config cfg) (shutting_down cfg) (wrong_thread cfg) true (uses_tls cfg)
            (set_con w (set_aware (con w) true)) code (Some r) = Some (true, b, wr) /\ queued w code r wr /\ starts_at w code r wr.
Proof using Hmth.
  intros Hst Hr [(m & u & v & Em & _ & _ & Hm & _) _] Hsd Hwt Hup. unfold MHD_queue_response. cbn [set_con resp con set_aware state].
  rewrite Hr, Hst, Hsd, Hwt, Hup. cbv zeta. cbn [req set_aware pool]. rewrite Em, (chars_has_string _ m mth) by done.
  rewrite (bool_decide_false (MHD_CONNECTION_FOOTERS_RECEIVED = MHD_CONNECTION_HEADERS_PROCESSED)) by done.
  rewrite (bool_decide_true (MHD_CONNECTION_FOOTERS_RECEIVED = MHD_CONNECTION_FOOTERS_RECEIVED)) by done.
  cbn [negb andb orb mbind option_bind].
  rewrite !equal_cstr by (done || apply (bool_decide_unpack _); reflexivity). cbn [mbind option_bind].
  eexists _, _. split; [done|]. split; by split.
Qed.

(** The header [text] is in the block [data] of the pool. *)
Definition header_written (wq wr : reply) (b : bool) (data : Z) (p : MemoryPool) (text : bytes) (w' : reply) : Prop :=
  let m := memory (pool (con wq)) in
  (state (con w') = MHD_CONNECTION_HEADERS_SENDING /\ unread (con w') = unread (con wq)
   /\ version (req (con w')) = version (req (con wq)) /\ have_chunked_upload (up (con w')) = b
   /\ pool (con w') = with_memory p (take (Z.to_nat data) m ++ text ++ drop (Z.to_nat data + length text) m))
  /\ (resp w' = resp wr /\ response_write_position w' = response_write_position wr /\ sendfile w' = sendfile wr)
  /\ (write_buffer w' = Some data /\ write_buffer_size w' = Z.of_nat (length text) + 1 /\ write_buffer_send_offset w' = 0
      /\ write_buffer_append_offset w' = Z.of_nat (length text) /\ Z.of_nat (length text) + 1 <= SIZE_MAX).

(** The last call and the header of the reply. *)
Lemma last_call w app1 app2 code r :
  state (con w) = MHD_CONNECTION_FOOTERS_RECEIVED -> resp w = None -> shows (con w) mth path ver l -> pool_inv (pool (con w)) ->
  ver ≠ [] -> Forall (λ h, has_kind h MHD_HEADER_KIND = true -> entry_string h) l ->
  shutting_down cfg = false -> wrong_thread cfg = false -> upgrade_handler r = false -> Forall entry_string (first_header r) ->
  (forall t, now (header_config cfg) = Some t -> 0 <= tm_wday t /\ 0 <= tm_mon t) ->
  Z.of_nat (length (concat (entry_line <$> first_header r))) + 600 <= SIZE_MAX ->
  (forall w, shows (con w) mth path ver l -> state (con w) = MHD_CONNECTION_FOOTERS_RECEIVED ->
     answer app_ app1 w = (app2, true, Some (code, r))) ->
  ∃ wr line date p k b,
    queued w code r wr /\ starts_at w code r wr /\ plan_of wr (MHD_increment_response_rc r) = Some (p, with_flags wr k b)
    /\ frame_of (header_config cfg) wr (MHD_increment_response_rc r) = Some (line, date, MHD_HEADER_KIND)
    /\ let text := reply_text line date MHD_HEADER_KIND p (MHD_increment_response_rc r) in
       let n := Z.of_nat (length text) in
       match MHD_pool_allocate (pool (con w)) (n + 1) false with
       | (Some data, p') =>
           ∃ w', idle_round app_ cfg crc_call w app1 = Some (Stop w' app2) /\ header_written w wr b data p' text w'
             /\ mem_read (memory (pool (con w'))) data n = Some text
       | (None, _) =>
           ∃ w', idle_round app_ cfg crc_call w app1 = Some (Continue w' app2) /\ state (con w') = MHD_CONNECTION_CLOSED
       end.
Proof using Hmth Hver Hl.
  intros Hst Hr Hs Hp Hv Hreq Hsd Hwt Hup Hent Hnow Hsize Happ.
  destruct (queue_accepted w code r Hst Hr Hs Hsd Hwt Hup) as (b0 & wr & Eq & Hq & Hpos). pose proof Hq as (Ec & Er & Ecode).
  set (r' := MHD_increment_response_rc r) in *.
  assert (reply_wf (header_config cfg) wr r' ver l) as Hwf.
  { destruct Hs as [(m & u & v & Em & _ & Ev & Hm & _ & Hvs) El]. split; rewrite ?Ec; try done.
    - exists (Pool (Z.of_nat v)). split; [done|]. by apply chars_has_string.
    - cbn. rewrite Em. exists mth. split; [by apply chars_has_string|done].
    - destruct (now (header_config cfg)); [by apply Hnow|done]. }
  destruct (frame_total (header_config cfg) wr r' ver l Hwf) as (line & date & k0 & Ef & Hlen).
  destruct (plan_total (header_config cfg) wr r' ver l Hwf) as (p & k1 & b & Ep).
  destruct (wf_version _ _ _ _ _ Hwf) as (pv & Epv & Ev).
  assert (k0 = MHD_HEADER_KIND) as ->.
  { unfold frame_of in Ef. rewrite bool_decide_true in Ef by (by rewrite Ec). do 2 (apply bind_Some in Ef as (? & _ & Ef)). by injection Ef. }
  pose proof (build_text (header_config cfg) wr r' ver pv line date MHD_HEADER_KIND p k1 b (wf_resp _ _ _ _ _ Hwf) (wf_entries _ _ _ _ _ Hwf)
    Epv Ev Hv (wf_pool _ _ _ _ _ Hwf) ltac:(left; by rewrite Ec) Ef Hlen Ep (text_size p MHD_HEADER_KIND r' Hsize)) as Hb.
  exists wr, line, date, p, k1, b. do 4 (split; [done|]). cbv zeta in Hb |- *.
  set (text := reply_text line date MHD_HEADER_KIND p r') in *.
  assert (forall o, build_header_response (header_config cfg) wr = o ->
    idle_round app_ cfg crc_call w app1
    = '(ok, w1) ← o; Some (if (ok : bool) then Stop (set_reply_state w1 MHD_CONNECTION_HEADERS_SENDING) app2
                           else Continue (close_error (notify (daemon cfg)) w1) app2)) as Hround.
  { intros o <-. unfold idle_round, call_connection_handler. rewrite Hst, Hr, Happ by done. rewrite Eq. cbn [mbind option_bind].
    unfold idle_footers_received. cbn [mbind option_bind]. rewrite bool_decide_false by (by rewrite Ec; cbn; rewrite Hst).
    rewrite Er. destruct (build_header_response _ wr) as [[[] w1]|]; done. }
  replace (pool (con wr)) with (pool (con w)) in Hb by (by rewrite Ec).
  destruct (MHD_pool_allocate _ _ _) as [[data|] p'] eqn:Ea.
  - destruct Hb as [Hb Hlt].
    pose proof (text_size p MHD_HEADER_KIND r' Hsize) as Htext.
    assert (Z.of_nat (length text) + 1 <= SIZE_MAX) as Hn
      by (unfold text, reply_text; rewrite !length_app; cbn [crlf length]; lia).
    eexists. split; [by rewrite (Hround _ Hb)|]. split; [destruct (decide_keepalive_flags p wr k1 b) as [k2 Ek]; unfold header_written; rewrite Ek; split_and!; cbn; try done; by rewrite Ec|].
    assert (0 <= Z.of_nat (length text) + 1 <= SIZE_MAX) as Hn' by lia.
    destruct (allocated_block _ _ data p' Hp Hn' Ea) as (_ & Hd & Hdl & _).
    apply mem_read_mid; [rewrite length_take; lia|done].
  - eexists. split; [by rewrite (Hround _ Hb)|]. apply close_error_con.
Qed.
End Serve.

(** ** From the request to the reply *)

Section Answer.
Context `{Platform} {App : Type} (app_ : application (App := App)) (cfg : idle_config) (crc_call : Z -> Z -> crc_result).
Context `{!UnescapeCallback (unescape_callback (daemon cfg))}.

(** The headers of a request are strings; its arguments are no headers. *)
Lemma request_entry_strings query fs :
  Forall field_ok fs ->
  Forall (λ h, has_kind h MHD_HEADER_KIND = true -> entry_string h) (request_entries cfg query fs).
Proof using Type.
  intros Hfs. unfold request_entries. rewrite fmap_app. apply Forall_app. split.
  - unfold argument_entries. rewrite <- list_fmap_compose. apply Forall_fmap, Forall_forall. by intros a _.
  - unfold entries. rewrite <- list_fmap_compose. apply Forall_fmap. eapply Forall_impl; [exact Hfs|].
    intros f (_ & ? & _ & _ & _ & _ & ? & _) _. by exists (f_name f), (f_value f).
Qed.

(** ** A request without a body *)

Context (w : reply) (app app1 app2 : App) (code : Z) (r : MHD_Response).
Context (pre mth : bytes) (k : nat) (path : bytes) (query : option bytes) (ver eol1 : bytes) (fs : list field) (eol rest post : bytes).

#[local] Abbreviation l := (request_entries cfg query fs).
#[local] Abbreviation r' := (MHD_increment_response_rc r).

(** The connection is a new one, or one that is ready for its next request,
    with the head of the request in its buffer. *)
Context (Hst : state (con w) = MHD_CONNECTION_INIT) (Hresp : resp w = None) (Hcr : response (con w) = None).
Context (Hh : headers_received (req (con w)) = []) (Hup : have_chunked_upload (up (con w)) = false).
Context (Hb : at_buffer (con w) pre (request_text mth k path query ver ++ eol1 ++ block fs eol ++ rest) post).
Context (Hl : request_line_ok mth path query ver) (He1 : newline eol1) (Hfs : Forall field_ok fs) (He : newline eol).
Context (Hwf : Forall entry_wf (argument_entries (daemon cfg) query)).
Context (Hroom : room (pool (con w)) (length (query_arguments (daemon cfg) query) + length fs)).
Context (Hc : first_value l (str "Cookie") = None) (Hx : first_value l (str "Expect") = None).
Context (Hhost : strict_for_client (daemon cfg) < 1 \/ is_Some (first_value l (str "Host"))) (Ha : announced l = Some (false, 0)).

(** The application takes note of the request and then answers it. *)
Context (Happ1 : forall w, shows cfg (con w) mth path ver l -> state (con w) = MHD_CONNECTION_HEADERS_PROCESSED ->
  answer app_ app w = (app1, true, None)).
Context (Happ2 : forall w, shows cfg (con w) mth path ver l -> state (con w) = MHD_CONNECTION_FOOTERS_RECEIVED ->
  answer app_ app1 w = (app2, true, Some (code, r))).
Context (Hsd : shutting_down cfg = false) (Hwt : wrong_thread cfg = false) (Hupg : upgrade_handler r = false).
Context (Hent : Forall entry_string (first_header r)).
Context (Hnow : forall t, now (header_config cfg) = Some t -> 0 <= tm_wday t /\ 0 <= tm_mon t).
Context (Hsize : Z.of_nat (length (concat (entry_line <$> first_header r))) + 600 <= SIZE_MAX).

Lemma request_answered_spec :
  ∃ wq wr x line date p k' b,
    rtc (continues app_ cfg crc_call) (w, app) (wq, app1)
    /\ state (con wq) = MHD_CONNECTION_FOOTERS_RECEIVED /\ shows cfg (con wq) mth path ver l
    /\ at_buffer (con wq) (pre ++ x) rest post
    /\ queued wq code r wr /\ plan_of wr r' = Some (p, with_flags wr k' b)
    /\ frame_of (header_config cfg) wr r' = Some (line, date, MHD_HEADER_KIND)
    /\ (starts_at cfg mth wq code r wr /\ response_write_position wq = response_write_position w
        /\ pos (pool (con wq)) = pos (pool (con w)) /\ size (pool (con wq)) = size (pool (con w))
        /\ ∃ v : nat, version (req (con wq)) = Some (Pool (Z.of_nat v)) /\ has_string (pre ++ x) v ver)
    /\ let text := reply_text line date MHD_HEADER_KIND p r' in
       let n := Z.of_nat (length text) in
       match MHD_pool_allocate (pool (con wq)) (n + 1) false with
       | (Some data, p') =>
           ∃ w', idle_round app_ cfg crc_call wq app1 = Some (Stop w' app2) /\ header_written wq wr b data p' text w'
             /\ mem_read (memory (pool (con w'))) data n = Some text
       | (None, _) =>
           ∃ w', idle_round app_ cfg crc_call wq app1 = Some (Continue w' app2) /\ state (con w') = MHD_CONNECTION_CLOSED
       end.
Proof using All.
  destruct (request_head_spec app_ cfg crc_call w app pre mth k path query ver eol1 fs eol rest post false 0)
    as (c' & x & Hr & Hs & Hcr' & Hk & El & Hch & Hrem & Hb' & [Hpos Hsz] & Hver); try done.
  assert (Forall header_wf l) as Hlw.
  { apply entries_wf, Forall_app. split; [done|]. by apply fields_wf. }
  assert (no_nul mth /\ no_nul ver /\ ver ≠ []) as (Hm & Hv & Hvne) by (by destruct Hl as (? & _ & _ & _ & _ & _ & _ & _ & ? & _ & _ & ?)).
  pose proof (first_call app_ cfg crc_call mth path ver l Hv Hlw (set_con w c') app app1 Hs Hresp Hcr' (conj Hk El) Hx Hrem Happ1) as Hcall.
  set (wq := set_con (set_con w c') _) in Hcall.
  destruct (last_call app_ cfg crc_call mth path ver l Hm Hv Hlw wq app1 app2 code r)
    as (wr & line & date & p & k' & b & Hq & Hat & Hp & Hf & Hend);
    try done; [by destruct Hb' as (_ & _ & _ & ?)|by apply request_entry_strings|].
  exists wq, wr, x, line, date, p, k', b. split; [by eapply rtc_r|]. do 6 (split; [done|]). by split.
Qed.

(** C4: A request without a body, a cookie or an expectation is answered: with its head in the buffer, one
    run of the loop reads it, calls the application exactly twice, the first
    time when the head is complete, and with the reply of the second call
    either stops with exactly the header of that reply in the write buffer,
    waiting to send it, or, when the pool has no room for it, closes the
    connection.  What the application sees at both calls is the method, the
    decoded path, the version and the entries of this request. *)
Theorem request_answered :
  ∃ wq wr x line date p k' b,
    rtc (continues app_ cfg crc_call) (w, app) (wq, app1)
    /\ state (con wq) = MHD_CONNECTION_FOOTERS_RECEIVED /\ shows cfg (con wq) mth path ver l
    /\ at_buffer (con wq) (pre ++ x) rest post
    /\ queued wq code r wr /\ plan_of wr r' = Some (p, with_flags wr k' b)
    /\ frame_of (header_config cfg) wr r' = Some (line, date, MHD_HEADER_KIND)
    /\ let text := reply_text line date MHD_HEADER_KIND p r' in
       let n := Z.of_nat (length text) in
       match MHD_pool_allocate (pool (con wq)) (n + 1) false with
       | (Some data, _) =>
           ∃ w', idle_rounds app_ cfg crc_call (idle_fuel w) w app = Some (Some (Stop w' app2))
             /\ state (con w') = MHD_CONNECTION_HEADERS_SENDING /\ write_buffer w' = Some data /\ write_buffer_send_offset w' = 0 /\ write_buffer_append_offset w' = n
             /\ mem_read (memory (pool (con w'))) data n = Some text
       | (None, _) =>
           ∃ w', idle_rounds app_ cfg crc_call (idle_fuel w) w app = Some (Some (Cleanup w' app2))
       end.
Proof using All.
  destruct request_answered_spec as (wq & wr & x & line & date & p & k' & b & Hrtc & H1 & H2 & H3 & H4 & H5 & H6 & _ & Hend).
  assert (0 <= read_buffer_offset (con w)) as H0 by (destruct Hb as (_ & _ & -> & _); lia).
  destruct (loop_reaches app_ cfg crc_call w app wq app1 H0 Hrtc) as ([|fuel] & o & Eo & Eo'); [done|].
  exists wq, wr, x, line, date, p, k', b. do 7 (split; [done|]). cbv zeta in Hend |- *. cbn [idle_rounds] in Eo'.
  destruct (MHD_pool_allocate _ _ _) as [[data|] ?].
  - destruct Hend as (w' & E1 & ((? & _) & _ & (? & _ & ? & ? & _)) & ?). rewrite E1 in Eo'. injection Eo' as <-. by exists w'.
  - destruct Hend as (w' & E1 & Hclosed). rewrite E1 in Eo'. destruct fuel as [|fuel]; [done|]. cbn [idle_rounds] in Eo'.
    unfold idle_round in Eo'. rewrite Hclosed in Eo'. injection Eo' as <-. by exists w'.
Qed.

(** ** The reply is sent *)

Lemma planned_unchunked wr p k' b :
  state (con wr) = MHD_CONNECTION_FOOTERS_RECEIVED -> total_size r' <> MHD_SIZE_UNKNOWN ->
  plan_of wr r' = Some (p, with_flags wr k' b) -> b = false.
Proof using Type.
  intros Hs Hu. unfold plan_of. rewrite bool_decide_true by done. unfold analyse_reply. intros E.
  do 4 (apply bind_Some in E as (? & _ & E)). apply bind_Some in E as ([[mc mch] ch] & Ec & E).
  do 2 (apply bind_Some in E as (? & _ & E)). unfold chunked_situation in Ec.
  destruct (Z.eqb_spec MHD_SIZE_UNKNOWN (total_size r')); [congruence|]. injection Ec as <- <- <-.
  by apply (f_equal (λ o, match o with Some (_, w) => have_chunked_upload (up (con w)) | None => true end)) in E.
Qed.

(** The header in its block is where the sending half starts. *)
Lemma header_ready body wq wr x b data p' text w' :
  at_buffer (con wq) (pre ++ x) rest post -> queued wq code r wr -> starts_at cfg mth wq code r wr ->
  response_write_position wq = 0 -> serves body r -> total_size r <> MHD_SIZE_UNKNOWN -> fd r = -1 \/ uses_tls cfg = true ->
  Z.of_nat (length (pre ++ x)) <= pos (pool (con wq)) ->
  (∃ v : nat, version (req (con wq)) = Some (Pool (Z.of_nat v)) /\ has_string (pre ++ x) v ver) ->
  MHD_pool_allocate (pool (con wq)) (Z.of_nat (length text) + 1) false = (Some data, p') ->
  header_written wq wr b data p' text w' -> mem_read (memory (pool (con w'))) data (Z.of_nat (length text)) = Some text ->
  let lim := pos (pool (con wq)) in
  ∃ pv, base body (first_header r) lim pv ver w' r' /\ text_ready lim w' text /\ Z.of_nat (length text) < size (pool (con wq))
    /\ drop (Z.to_nat (response_write_position w')) body = (if bodiless mth code then [] else body).
Proof using Hl.
  intros (Em & _ & _ & Hp) (Ec & Er & _) [Hpos Hsf] Hp0 (Hwin & Hu & Hbig & Hcrc) Hun Hfd Hfront (v & Ev & Hv) Ea
    ((Hs & _ & Ev' & _ & Epool) & (Er' & Epos & Esf) & (Ewb & Ews & Eso & Eao & Hn)) Hread. cbv zeta.
  set (lim := pos (pool (con wq))) in *. set (m := memory (pool (con wq))) in *.
  pose proof Hp as (Hlen & Hpp & Hpe & _). fold m in Hlen. fold lim in Hpp.
  assert (layout lim (pool (con wq))) as Hlay by (split; [done|unfold lim; lia]).
  destruct (allocate_front lim (pool (con wq)) (Z.of_nat (length text) + 1) data p' Hlay ltac:(lia) Ea) as (Hl' & Hfb & Em').
  assert (no_nul ver) as Hnv by (by destruct Hl as (_ & _ & _ & _ & _ & _ & _ & _ & ? & _)).
  assert (length (take (Z.to_nat data) m ++ text ++ drop (Z.to_nat data + length text) m) = length m) as Hml.
  { destruct Hfb as (_ & ? & ? & Hin), Hl' as [(Hlen' & ? & ? & _) _]. rewrite Em' in Hlen'. fold m in Hlen'.
    rewrite !length_app, length_take, length_drop. lia. }
  exists (Pool (Z.of_nat v)). split; [|split; [|split]].
  - split; [by rewrite Er', Er|]. split; [by split|]. split; [done|].
    split; [rewrite Epos, Hpos, Hp0; destruct (bodiless mth code); [|lia]; destruct (crc r); [destruct Hcrc as [[?|?] _]|destruct Hcrc as (_ & _ & ?)]; lia|].
    split; [rewrite Esf, Hsf; destruct Hfd as [-> | ->]; [done|apply andb_false_r]|].
    rewrite Epool, Ev', Ev. split; [|split; [done|]].
    + destruct Hl' as [[Hlen' Hrest] Hlim]. split; [|done]. split; [|done]. cbn [memory with_memory size]. rewrite Hml. by rewrite Em' in Hlen'.
    + cbn [memory with_memory]. rewrite take_app_le by (rewrite length_take; destruct Hfb as (_ & ? & _); lia).
      rewrite take_take, Nat.min_l by (destruct Hfb as (_ & ? & _); lia).
      apply chars_has_string; [|done]. unfold m in *. rewrite Em. 
      replace (take (Z.to_nat lim) ((pre ++ x) ++ rest ++ post)) with ((pre ++ x) ++ take (Z.to_nat lim - length (pre ++ x)) (rest ++ post))
        by (rewrite (take_app (pre ++ x)), (take_ge (pre ++ x)) by lia; done).
      by apply has_string_app.
  - exists data. rewrite Ewb, Ews, Eso, Eao, Epool in *. split; [done|]. split; [done|]. split; [done|]. by rewrite Z.add_0_r, Z.sub_0_r.
  - destruct Hfb as (_ & ? & ? & ?), Hl' as [(Hlen' & ? & ? & _) _]. rewrite Em' in Hlen'. fold m in Hlen'. lia.
  - rewrite Epos, Hpos, Hp0. destruct (bodiless mth code); [|done]. apply drop_ge.
    destruct (crc r); [destruct Hcrc as [[?|?] _]|destruct Hcrc as (_ & _ & ?)]; lia.
Qed.

(** C1: from the request to the last byte of the reply: with the head of a
    request without a body, a cookie or an expectation in the buffer, and for
    a reply whose size is known and which is not sent by [sendfile], one run
    of the state machine calls
    the application and either closes the connection, as the pool has no room
    for the header of the reply, or waits to write; and then, in whatever turns
    of the event loop, with or without a chance to write and whatever parts the
    socket takes and the content reader delivers, as long as each of them gets
    on by a byte, the reply comes to its end after at most as many chances as
    it has bytes, and two.  Sent are exactly the header and the body, or the
    header alone where a reply has no body, and the application is not called
    again. *)
Theorem request_served body io info out es :
  idle_reader io = crc_call -> times_out cfg = false ->
  serves body r -> total_size r <> MHD_SIZE_UNKNOWN -> fd r = -1 \/ uses_tls cfg = true -> response_write_position w = 0 ->
  Z.of_nat (length (pre ++ request_text mth k path query ver ++ eol1 ++ block fs eol ++ rest)) <= pos (pool (con w)) ->
  Forall (λ e, forall k, reads_all body (turn_ios e k)) es ->
  ∃ wq wr line date p k',
    state (con wq) = MHD_CONNECTION_FOOTERS_RECEIVED /\ shows cfg (con wq) mth path ver l
    /\ queued wq code r wr /\ plan_of wr r' = Some (p, with_flags wr k' false)
    /\ frame_of (header_config cfg) wr r' = Some (line, date, MHD_HEADER_KIND)
    /\ let text := reply_text line date MHD_HEADER_KIND p r' in
       let whole := text ++ (if bodiless mth code then [] else body) in
       match fst (MHD_pool_allocate (pool (con wq)) (Z.of_nat (length text) + 1) false) with
       | None => ∃ w', run_idle app_ cfg io (mkLink w app info out) = Some (Ended (Cleanup w' app2) out)
       | Some _ =>
           ∃ w', run_idle app_ cfg io (mkLink w app info out) = Some (Going (mkLink w' app2 MHD_EVENT_LOOP_INFO_WRITE out))
             /\ Z.of_nat (length text) < size (pool (con w))
             /\ ((length whole + 2 <= chances es)%nat ->
                 ∃ es1 e es2 l' part o,
                   es = es1 ++ e :: es2 /\ turns app_ cfg es1 (mkLink w' app2 MHD_EVENT_LOOP_INFO_WRITE out) = Some l'
                   /\ write_ready e = true /\ l_app l' = app2 /\ l_out l' = out ++ part /\ finishes app_ cfg e l' o /\ part ++ o = whole)
       end.
Proof using All.
  intros Hio Hto Hserves Hun Hfd Hp0 Hfront Hes.
  destruct request_answered_spec as (wq & wr & x & line & date & p & k' & b & Hrtc & H1 & H2 & H3 & H4 & H5 & H6 & (Hat & Hp0' & Hpos & Hsz & Hver) & Hend).
  assert (0 <= unread (con w)) as H0 by (destruct Hb as (_ & _ & -> & _); lia).
  assert (b = false) as -> by (eapply (planned_unchunked wr p k' b); [by destruct H4 as [-> _]|done|done]).
  exists wq, wr, line, date, p, k'. do 5 (split; [done|]). cbv zeta in Hend |- *.
  set (text := reply_text line date MHD_HEADER_KIND p r') in *. rewrite <- Hio in Hrtc, Hend.
  destruct (MHD_pool_allocate _ _ _) as [[data|] p'] eqn:Ea; cbn [fst].
  2:{ destruct Hend as (w' & E1 & Hclosed). exists w'. apply run_idle_over; [done|by eapply rtc_r|done]. }
  destruct Hend as (w' & E1 & Hw' & Hread). exists w'.
  assert (Z.of_nat (length (pre ++ x)) <= pos (pool (con wq))) as Hfront'.
  { destruct Hb as (Em & _ & _ & [El _]), H3 as (Em' & _ & _ & [El' _]). rewrite Em in El. rewrite Em' in El'.
    rewrite !length_app in *. cbn [length] in *. lia. }
  destruct (header_ready body wq wr x false data p' text w') as (pv & Hbase & Htext & Hfits & Hdrop); try done; [congruence|].
  set (whole := text ++ _) in *. pose proof Hw' as ((Hs & Hu & _ & Hch & _) & _).
  assert (plain_inv body (first_header r) (pos (pool (con wq))) pv ver (completed (con w')) whole w' []) as Hinv.
  { left. exists r', whole. split; [done|]. split; [done|]. split; [done|]. split; [|done]. unfold owed. rewrite Hs.
    exists text. split; [done|]. unfold whole. by rewrite Hdrop. }
  assert (rests w') as Hrests by (by left).
  split; [by eapply run_idle_rests|]. split; [lia|]. intros Hlen.
  assert (0 <= unread (con w')) as H0' by (rewrite Hu; destruct H3 as (_ & _ & -> & _); lia).
  assert (ver ≠ []) as Hvne by (by destruct Hl as (_ & _ & _ & _ & _ & _ & _ & _ & _ & _ & _ & ?)).
  assert (Z.of_nat (length (sent_lines no_plan MHD_FOOTER_KIND (first_header r))) + 385 <= SIZE_MAX) as Hfooters
    by (pose proof (text_size no_plan MHD_FOOTER_KIND r Hsize); lia).
  apply (turns_finish app_ cfg body (first_header r) (pos (pool (con wq))) pv ver Hent Hvne Hfooters (completed (con w')) whole Hto es
    (mkLink w' app2 MHD_EVENT_LOOP_INFO_WRITE out) []); try done.
  unfold weight. cbn [l_reply length]. case_bool_decide; lia.
Qed.
End Answer.

(** ** A concrete request *)

Lemma echo_answer log w mth path ver l :
  shows demo_idle_config (con w) mth path ver l -> no_nul (decode (unescape_callback demo_daemon) path) ->
  answer echo_application log w
  = (log ++ [decode (unescape_callback demo_daemon) path], true,
     if bool_decide (state (con w) = MHD_CONNECTION_FOOTERS_RECEIVED)
     then Some (200, demo_text_response (decode (unescape_callback demo_daemon) path)) else None).
Proof.
  intros [(m & u & v & _ & Eu & _ & _ & Hu & _) _] Hp. cbn [echo_application answer].
  rewrite Eu. cbn [mbind option_bind]. by rewrite (chars_has_string _ u (decode (unescape_callback demo_daemon) path)).
Qed.

Lemma request_answered_witness :
  let fs := [mkField (str "Host") (str " ") (str "h") [13; 10]] in
  let text := request_text (str "GET") 0 (str "/a") None (str "HTTP/1.1") ++ [13; 10] ++ block fs [13; 10] in
  let w := demo_accepted text in
  ∃ w' data n header,
    idle_rounds (H := LP64) echo_application demo_idle_config no_reader (idle_fuel w) w [] = Some (Some (Stop w' [str "/a"; str "/a"]))
    /\ state (con w') = MHD_CONNECTION_HEADERS_SENDING /\ mem_read (memory (pool (con w'))) data n = Some header
    /\ header = str "HTTP/1.1 200 OK" ++ crlf ++ str "Connection: Keep-Alive" ++ crlf ++ str "Content-Length: 2" ++ crlf ++ crlf.
Proof.
  intros fs text. set (l := [mkHeader (Some (str "Host")) (Some (str "h")) MHD_HEADER_KIND]).
  assert (no_nul (str "/a")) as Ha by (apply (bool_decide_unpack _); vm_compute; exact I).
  destruct (request_answered (H := LP64) echo_application demo_idle_config no_reader (demo_accepted text) [] [str "/a"] [str "/a"; str "/a"]
    200 (demo_text_response (str "/a")) [] (str "GET") 0 (str "/a") None (str "HTTP/1.1") [13; 10] fs [13; 10] [] (replicate (512 - length text) 0))
    as (wq & wr & x & line & date & p & k' & b & Hr & _ & _ & _ & _ & _ & _ & Hend).
  1-5: reflexivity.
  - split; [reflexivity|split; [reflexivity|split; [reflexivity|]]]. split; [vm_compute; exact eq_refl|split_and!; vm_compute; done].
  - split_and!; first [done|apply (bool_decide_unpack _); vm_compute; exact I].
  - by left.
  - apply Forall_singleton. split_and!; first [done|apply (bool_decide_unpack _); vm_compute; exact I|by left].
  - by left.
  - constructor.
  - vm_compute. done.
  - reflexivity.
  - reflexivity.
  - left. done.
  - reflexivity.
  - intros w Hs Hst. rewrite (echo_answer [] w _ _ _ _ Hs Ha). by rewrite Hst.
  - intros w Hs Hst. rewrite (echo_answer [str "/a"] w _ _ _ _ Hs Ha). by rewrite Hst.
  - reflexivity.
  - reflexivity.
  - reflexivity.
  - constructor.
  - done.
  - vm_compute. done.
  - cbv zeta in Hend.
    assert (∃ w', idle_rounds (H := LP64) echo_application demo_idle_config no_reader (idle_fuel (demo_accepted text)) (demo_accepted text) []
                  = Some (Some (Stop w' [str "/a"; str "/a"]))
              /\ mem_read (memory (pool (con w'))) (default 0 (write_buffer w')) (write_buffer_append_offset w')
                 = Some (str "HTTP/1.1 200 OK" ++ crlf ++ str "Connection: Keep-Alive" ++ crlf ++ str "Content-Length: 2" ++ crlf ++ crlf))
      as (w0 & E0 & Et) by (vm_compute; eexists; split; reflexivity).
    destruct (MHD_pool_allocate _ _ _) as [[data|] ?]; destruct Hend as (w' & Hend).
    2:{ rewrite E0 in Hend. exfalso. discriminate Hend. }
    destruct Hend as (E1 & Hs & Hw & _ & Ha' & Hm). rewrite E0 in E1. injection E1 as <-. rewrite Hw, Ha' in Et. eexists w0, data, _, _.
    split; [exact E0|]. split; [exact Hs|]. split; [exact Et|reflexivity].
Defined.

(** A socket that takes two bytes at a time, and a chance to write in every
    turn. *)
Lemma send_two_takes : takes send_two.
Proof. intros bs. eexists. split; [done|]. destruct bs; [done|]. cbn [length]. lia. Qed.

Lemma demo_reader_delivers body n : (0 < n)%nat -> delivers body (demo_reader body n).
Proof.
  intros Hn position max Hp Hm. unfold demo_reader. case_decide as Hd; [done|]. intros E. apply (f_equal length) in E.
  rewrite length_take, length_drop in E. cbn [length] in E. lia.
Qed.

Definition demo_turn_io (body : bytes) : turn_io :=
  {| recv_cls _ := Again; send_cls := send_two; sendfile_adapter _ := (Send_error, []);
     write_reader := demo_reader body 3; idle_reader := demo_reader body 3 |}.

Lemma demo_turn_io_ok body : reads_all body (demo_turn_io body).
Proof.
  unfold reads_all. cbn [demo_turn_io idle_reader write_reader send_cls].
  pose proof (demo_reader_reads body 3). pose proof (demo_reader_delivers body 3 ltac:(lia)).
  split_and!; try done; [apply send_two_ok|apply send_two_takes].
Qed.

Definition demo_occasions (body : bytes) (n : nat) : list occasion := replicate n (mkOccasion false true (λ _, demo_turn_io body)).

Lemma demo_text_serves body : Z.of_nat (length body) <= SIZE_MAX (H := LP64) - 1 -> serves (H := LP64) body (demo_text_response body).
Proof.
  intros Hb. assert (SIZE_MAX (H := LP64) = 18446744073709551615) as Hmax by reflexivity.
  split; [|split_and!; try done; cbn; lia]. split; [done|]. cbn [data_start data_size demo_text_response data].
  split; [lia|]. split; [lia|]. exists body. split_and!; try done; lia.
Qed.

Lemma request_served_witness :
  let fs := [mkField (str "Host") (str " ") (str "h") [13; 10]] in
  let text := request_text (str "GET") 0 (str "/a") None (str "HTTP/1.1") ++ [13; 10] ++ block fs [13; 10] in
  ∃ header w' es1 e es2 l' part o,
    run_idle (H := LP64) echo_application demo_idle_config (demo_turn_io (str "/a")) (mkLink (demo_accepted text) [] MHD_EVENT_LOOP_INFO_READ [])
    = Some (Going (mkLink w' [str "/a"; str "/a"] MHD_EVENT_LOOP_INFO_WRITE []))
    /\ demo_occasions (str "/a") 520 = es1 ++ e :: es2
    /\ turns (H := LP64) echo_application demo_idle_config es1 (mkLink w' [str "/a"; str "/a"] MHD_EVENT_LOOP_INFO_WRITE []) = Some l'
    /\ l_out l' = part /\ finishes (H := LP64) echo_application demo_idle_config e l' o /\ part ++ o = header ++ str "/a".
Proof.
  intros fs text.
  assert (no_nul (str "/a")) as Ha by (apply (bool_decide_unpack _); vm_compute; exact I).
  destruct (request_served (H := LP64) echo_application demo_idle_config (demo_reader (str "/a") 3) (demo_accepted text) [] [str "/a"] [str "/a"; str "/a"]
    200 (demo_text_response (str "/a")) [] (str "GET") 0 (str "/a") None (str "HTTP/1.1") [13; 10] fs [13; 10] [] (replicate (512 - length text) 0))
    with (body := str "/a") (io := demo_turn_io (str "/a")) (info := MHD_EVENT_LOOP_INFO_READ) (out := [] : bytes) (es := demo_occasions (str "/a") 520)
    as (wq & wr & line & date & p & k' & _ & _ & _ & _ & _ & Hend).
  1-5: reflexivity.
  - split; [reflexivity|split; [reflexivity|split; [reflexivity|]]]. split; [vm_compute; exact eq_refl|split_and!; vm_compute; done].
  - split_and!; first [done|apply (bool_decide_unpack _); vm_compute; exact I].
  - by left.
  - apply Forall_singleton. split_and!; first [done|apply (bool_decide_unpack _); vm_compute; exact I|by left].
  - by left.
  - constructor.
  - vm_compute. done.
  - reflexivity.
  - reflexivity.
  - left. done.
  - reflexivity.
  - intros w Hs Hst. rewrite (echo_answer [] w _ _ _ _ Hs Ha). by rewrite Hst.
  - intros w Hs Hst. rewrite (echo_answer [str "/a"] w _ _ _ _ Hs Ha). by rewrite Hst.
  - reflexivity.
  - reflexivity.
  - reflexivity.
  - constructor.
  - done.
  - vm_compute. done.
  - reflexivity.
  - reflexivity.
  - apply demo_text_serves. vm_compute. done.
  - by vm_compute.
  - by left.
  - reflexivity.
  - vm_compute. done.
  - apply Forall_replicate. intros k. apply demo_turn_io_ok.
  - cbv zeta in Hend. set (header := reply_text line date MHD_HEADER_KIND p _) in Hend.
    destruct (fst _).
    2:{ destruct Hend as [w' Hend]. exfalso.
        assert (match run_idle (H := LP64) echo_application demo_idle_config (demo_turn_io (str "/a"))
                  (mkLink (demo_accepted text) [] MHD_EVENT_LOOP_INFO_READ []) with Some (Ended _ _) => false | _ => true end = true) as Hg
          by (vm_compute; exact eq_refl).
        rewrite Hend in Hg. discriminate Hg. }
    destruct Hend as (w' & Hrun & Hfit & Hend).
    change (bodiless (str "GET") 200) with false in Hend. change (size _) with 512 in Hfit. cbv iota in Hend.
    assert (chances (demo_occasions (str "/a") 520) = 520%nat) as Hc by (vm_compute; exact eq_refl).
    rewrite Hc, length_app in Hend. change (length (str "/a")) with 2%nat in Hend.
    destruct Hend as (es1 & e & es2 & l' & part & o & Ees & Et & _ & _ & Eo & Hf & Hall); [lia|].
    exists header, w', es1, e, es2, l', part, o. split_and!; done.
Defined.
