(* ===== verification/SelectLoop.v ===== *)
(** * The select loop of the daemon (libmicrohttpd/src/microhttpd/daemon.c, mhd_sockets.c)

    The two halves of a round of the event loop around the call of [select]:
    [internal_get_fdset2] collects the sockets to watch from what each
    connection waits for, [internal_run_from_select] gives every connection
    its turn ([Idle.call_handlers]) with what [select] found.  The theorems:
    the sets are exactly those of the connections, and no connection is
    forgotten between the halves.

    The sets of POSIX systems, which are limited by the number of a socket,
    are modelled; accepting, upgraded connections with TLS and freeing what is
    left over belong to [Daemon] and [Forward]. *)

From stdpp Require Import gmap.
From S2P Require Import Prelude MhdStr MemoryPool Internal Headers Connection RequestBody RequestHead HeaderBlock.
From S2P Require Import Response Reply ReplyBody EventLoop ErrorReply Idle IdleEnd IdleTurns.

#[local] Open Scope Z_scope.

(** ** Sets of sockets *)

Abbreviation MHD_INVALID_SOCKET := (-1).

Abbreviation fd_set := (gset Z).

(** [max_fd] is always given here. *)
Definition MHD_add_to_fd_set_ (fd_setsize : Z) (fd : Z) (s : option fd_set) (max_fd : Z) : bool * option fd_set * Z :=
  match s with
  | None => (false, None, max_fd)
  | Some m =>
      if fd =? MHD_INVALID_SOCKET then (false, s, max_fd)
      else if negb (fd <? fd_setsize) then (false, s, max_fd)
      else (true, Some ({[fd]} ∪ m), if (fd >? max_fd) || (max_fd =? MHD_INVALID_SOCKET) then fd else max_fd)
  end.

(** The three sets, the largest socket in them and whether all fitted. *)
Record fdsets := mkSets { rs : option fd_set; ws : option fd_set; es : option fd_set; max_fd : Z; all_fit : bool }.

Definition add_read (fd_setsize fd : Z) (f : fdsets) : fdsets :=
  let '(ok, s, m) := MHD_add_to_fd_set_ fd_setsize fd (rs f) (max_fd f) in mkSets s (ws f) (es f) m (all_fit f && ok).

Definition add_write (fd_setsize fd : Z) (f : fdsets) : fdsets :=
  let '(ok, s, m) := MHD_add_to_fd_set_ fd_setsize fd (ws f) (max_fd f) in mkSets (rs f) s (es f) m (all_fit f && ok).

(** For a socket that is only watched for trouble it matters that it fits. *)
Definition add_except (needed : bool) (fd_setsize fd : Z) (f : fdsets) : fdsets :=
  let '(ok, s, m) := MHD_add_to_fd_set_ fd_setsize fd (es f) (max_fd f) in
  mkSets (rs f) (ws f) s m (all_fit f && (ok || negb needed)).

(** ** Watching *)

Section Loop.
Context `{Platform} {App : Type}.

(** A connection as the event loop sees it, with the bytes sent on it. *)
Record watched := mkWatched {
  socket_fd : Z;
  w_reply : reply;
  event_loop_info : MHD_ConnectionEventLoopInfo;
  w_out : bytes
}.

Definition watch (fd_setsize : Z) (f : fdsets) (p : watched) : fdsets :=
  match event_loop_info p with
  | MHD_EVENT_LOOP_INFO_READ => add_except false fd_setsize (socket_fd p) (add_read fd_setsize (socket_fd p) f)
  | MHD_EVENT_LOOP_INFO_WRITE => add_except false fd_setsize (socket_fd p) (add_write fd_setsize (socket_fd p) f)
  | MHD_EVENT_LOOP_INFO_BLOCK => add_except true fd_setsize (socket_fd p) f
  | MHD_EVENT_LOOP_INFO_CLEANUP => f
  end.

(** The listening socket of a daemon, and the connections from the oldest to
    the newest. *)
Record select_daemon := mkSelect {
  shutdown : bool;
  listen_fd : Z;
  was_quiesced : bool;
  connections : list watched
}.

Definition internal_get_fdset2 (d : select_daemon) (fd_setsize : Z) (f : fdsets) : fdsets :=
  if shutdown d then mkSets (rs f) (ws f) (es f) (max_fd f) false
  else
    let f := mkSets (rs f) (ws f) (es f) (max_fd f) true in
    let f := if negb (listen_fd d =? MHD_INVALID_SOCKET) && negb (was_quiesced d)
             then add_read fd_setsize (listen_fd d) f else f in
    foldl (watch fd_setsize) f (connections d).

(** ** Running *)

Context (app_ : application (App := App)) (cfg : Z -> idle_config) (io : Z -> nat -> turn_io).

Definition app_of (r : round_end (App := App)) : App :=
  match r with
  | Continue _ a | Stop _ a | Cleanup _ a | Upgraded _ a => a
  | Aborted a => a
  end.

(** The connections that stay, those the turn ended, the application, and
    [data_already_pending]. *)
Definition pass_result : Type := list watched * list (Z * round_end (App := App)) * App * bool.

Fixpoint run_connections (rset wset eset : fd_set) (ps : list watched) (app : App) (pending : bool) : option pass_result :=
  match ps with
  | [] => Some ([], [], app, pending)
  | p :: ps =>
      if socket_fd p =? MHD_INVALID_SOCKET then
        '(stay, gone, app, pending) ← run_connections rset wset eset ps app pending;
        Some (p :: stay, gone, app, pending)
      else
        let ds := socket_fd p in
        '(t, block) ← call_handlers app_ (cfg ds) false (bool_decide (ds ∈ rset)) (bool_decide (ds ∈ wset)) (bool_decide (ds ∈ eset))
                        (io ds) (mkLink (w_reply p) app (event_loop_info p) (w_out p));
        let pending := pending || block in
        match t with
        | Going l =>
            '(stay, gone, app, pending) ← run_connections rset wset eset ps (l_app l) pending;
            Some (mkWatched ds (l_reply l) (l_info l) (l_out l) :: stay, gone, app, pending)
        | Ended r _ =>
            '(stay, gone, app, pending) ← run_connections rset wset eset ps (app_of r) pending;
            Some (stay, (ds, r) :: gone, app, pending)
        end
  end.

(** [accepted] is the connection [MHD_accept_connection] adds, if it does; it
    is in front of the list and comes last. *)
Definition internal_run_from_select (d : select_daemon) (rset wset eset : fd_set) (accepted : option watched) (app : App)
    : option pass_result :=
  let ds := listen_fd d in
  let ps := if negb (ds =? MHD_INVALID_SOCKET) && negb (was_quiesced d) && bool_decide (ds ∈ rset)
            then connections d ++ option_list accepted else connections d in
  run_connections rset wset eset ps app false.
End Loop.

(** ** The sets are those of the connections *)

(** A socket that can be in a set. *)
Definition fits (fd_setsize fd : Z) : Prop := fd ≠ MHD_INVALID_SOCKET /\ fd < fd_setsize.

Lemma add_to_fd_set_spec n fd m mx :
  ∃ b m' mx', MHD_add_to_fd_set_ n fd (Some m) mx = (b, Some m', mx') /\ (b = true <-> fits n fd)
    /\ forall x, x ∈ m' <-> x ∈ m \/ x = fd /\ fits n fd.
Proof.
  unfold MHD_add_to_fd_set_, fits. destruct (Z.eqb_spec fd MHD_INVALID_SOCKET) as [->|Hfd].
  { eexists _, _, _. split; [done|]. split; [naive_solver|naive_solver]. }
  destruct (Z.ltb_spec fd n); cbn [negb]; eexists _, _, _; (split; [done|]).
  - split; [done|]. set_solver.
  - split; [split; [done|lia]|]. intros x. split; [by left|]. intros [?|[_ ?]]; [done|lia].
Qed.

(** Three given sets hold these sockets and fitted or not. *)
Definition holds (f : fdsets) (r w e : Z -> Prop) (ok : Prop) : Prop :=
  ∃ r' w' e', rs f = Some r' /\ ws f = Some w' /\ es f = Some e'
    /\ (forall x, x ∈ r' <-> r x) /\ (forall x, x ∈ w' <-> w x) /\ (forall x, x ∈ e' <-> e x) /\ (all_fit f = true <-> ok).

Lemma holds_ext f r w e ok r2 w2 e2 ok2 :
  holds f r w e ok -> (forall x, r x <-> r2 x) -> (forall x, w x <-> w2 x) -> (forall x, e x <-> e2 x) -> (ok <-> ok2) ->
  holds f r2 w2 e2 ok2.
Proof.
  intros (r' & w' & e' & ? & ? & ? & Hr & Hw & He & Ho) Hr2 Hw2 He2 Ho2. exists r', w', e'.
  split; [done|]. split; [done|]. split; [done|]. split; [|split; [|split]]; intros; rewrite ?Hr, ?Hw, ?He, ?Ho; auto.
Qed.

Lemma add_read_holds f r w e ok n fd :
  holds f r w e ok -> holds (add_read n fd f) (λ x, r x \/ x = fd /\ fits n fd) w e (ok /\ fits n fd).
Proof.
  intros (r' & w' & e' & Er & Ew & Ee & Hr & Hw & He & Ho). unfold add_read. rewrite Er.
  destruct (add_to_fd_set_spec n fd r' (max_fd f)) as (b & m & mx & -> & Hb & Hm). exists m, w', e'.
  split; [done|]. split; [done|]. split; [done|]. split; [intros x; by rewrite Hm, Hr|]. split; [done|]. split; [done|].
  cbn [all_fit]. by rewrite andb_true_iff, Ho, Hb.
Qed.

Lemma add_write_holds f r w e ok n fd :
  holds f r w e ok -> holds (add_write n fd f) r (λ x, w x \/ x = fd /\ fits n fd) e (ok /\ fits n fd).
Proof.
  intros (r' & w' & e' & Er & Ew & Ee & Hr & Hw & He & Ho). unfold add_write. rewrite Ew.
  destruct (add_to_fd_set_spec n fd w' (max_fd f)) as (b & m & mx & -> & Hb & Hm). exists r', m, e'.
  split; [done|]. split; [done|]. split; [done|]. split; [done|]. split; [intros x; by rewrite Hm, Hw|]. split; [done|].
  cbn [all_fit]. by rewrite andb_true_iff, Ho, Hb.
Qed.

Lemma add_except_holds needed f r w e ok n fd :
  holds f r w e ok ->
  holds (add_except needed n fd f) r w (λ x, e x \/ x = fd /\ fits n fd) (ok /\ (needed = true -> fits n fd)).
Proof.
  intros (r' & w' & e' & Er & Ew & Ee & Hr & Hw & He & Ho). unfold add_except. rewrite Ee.
  destruct (add_to_fd_set_spec n fd e' (max_fd f)) as (b & m & mx & -> & Hb & Hm). exists r', w', m.
  split; [done|]. split; [done|]. split; [done|]. split; [done|]. split; [done|]. split; [intros x; by rewrite Hm, He|].
  cbn [all_fit]. rewrite andb_true_iff, orb_true_iff, Ho, Hb, negb_true_iff. destruct needed; naive_solver.
Qed.

Section Sets.
Context `{Platform}.

(** The connections that wait for something. *)
Definition waiting (ps : list watched) (i : MHD_ConnectionEventLoopInfo) (fd : Z) : Prop :=
  ∃ p, p ∈ ps /\ socket_fd p = fd /\ event_loop_info p = i.

Lemma watch_holds n p f r w e ok :
  holds f r w e ok ->
  holds (watch n f p) (λ x, r x \/ waiting [p] MHD_EVENT_LOOP_INFO_READ x /\ fits n x)
    (λ x, w x \/ waiting [p] MHD_EVENT_LOOP_INFO_WRITE x /\ fits n x)
    (λ x, e x \/ (∃ i, i ≠ MHD_EVENT_LOOP_INFO_CLEANUP /\ waiting [p] i x) /\ fits n x)
    (ok /\ (event_loop_info p ≠ MHD_EVENT_LOOP_INFO_CLEANUP -> fits n (socket_fd p))).
Proof.
  intros Hf. unfold watch.
  assert (forall i x, waiting [p] i x <-> socket_fd p = x /\ event_loop_info p = i) as Hw.
  { intros i x. unfold waiting. setoid_rewrite list_elem_of_singleton. naive_solver. }
  assert (forall x, (∃ j, j ≠ MHD_EVENT_LOOP_INFO_CLEANUP /\ waiting [p] j x) /\ fits n x
            <-> event_loop_info p ≠ MHD_EVENT_LOOP_INFO_CLEANUP /\ x = socket_fd p /\ fits n (socket_fd p)) as He.
  { intros x. setoid_rewrite Hw. split.
    - intros [(j & Hj & <- & <-) ?]. done.
    - intros (Hj & -> & ?). split; [|done]. by exists (event_loop_info p). }
  destruct (event_loop_info p) eqn:Ei; eapply holds_ext.
  1: by apply add_except_holds, add_read_holds.
  5: by apply add_except_holds, add_write_holds.
  9: by apply add_except_holds.
  13: exact Hf.
  all: intros; rewrite ?Hw, ?He; intuition (subst; done || congruence || auto).
Qed.

Lemma watch_all_holds n ps f r w e ok :
  holds f r w e ok ->
  holds (foldl (watch n) f ps) (λ x, r x \/ waiting ps MHD_EVENT_LOOP_INFO_READ x /\ fits n x)
    (λ x, w x \/ waiting ps MHD_EVENT_LOOP_INFO_WRITE x /\ fits n x)
    (λ x, e x \/ (∃ i, i ≠ MHD_EVENT_LOOP_INFO_CLEANUP /\ waiting ps i x) /\ fits n x)
    (ok /\ forall p, p ∈ ps -> event_loop_info p ≠ MHD_EVENT_LOOP_INFO_CLEANUP -> fits n (socket_fd p)).
Proof.
  assert (forall p ps i x, waiting (p :: ps) i x <-> waiting [p] i x \/ waiting ps i x) as Hc.
  { intros p ps' i x. unfold waiting. setoid_rewrite elem_of_cons. setoid_rewrite elem_of_nil. naive_solver. }
  revert f r w e ok. induction ps as [|p ps IH]; intros f r w e ok Hf; cbn [foldl].
  - eapply holds_ext; [exact Hf|..].
    all: unfold waiting; setoid_rewrite elem_of_nil; naive_solver.
  - eapply holds_ext; [by apply IH, watch_holds|..].
    + intros x. rewrite (Hc p ps). tauto.
    + intros x. rewrite (Hc p ps). tauto.
    + intros x. setoid_rewrite (Hc p ps). naive_solver.
    + setoid_rewrite elem_of_cons. naive_solver.
Qed.
(** The sets of a daemon, starting from empty ones. *)
Definition no_sets : fdsets := mkSets (Some ∅) (Some ∅) (Some ∅) MHD_INVALID_SOCKET true.

Definition listening (d : select_daemon) (fd : Z) : Prop := fd = listen_fd d /\ was_quiesced d = false.

Lemma get_fdset2_holds d n :
  shutdown d = false ->
  holds (internal_get_fdset2 d n no_sets)
    (λ x, fits n x /\ (listening d x \/ waiting (connections d) MHD_EVENT_LOOP_INFO_READ x))
    (λ x, fits n x /\ waiting (connections d) MHD_EVENT_LOOP_INFO_WRITE x)
    (λ x, fits n x /\ ∃ i, i ≠ MHD_EVENT_LOOP_INFO_CLEANUP /\ waiting (connections d) i x)
    ((listen_fd d ≠ MHD_INVALID_SOCKET -> was_quiesced d = false -> fits n (listen_fd d))
     /\ forall p, p ∈ connections d -> event_loop_info p ≠ MHD_EVENT_LOOP_INFO_CLEANUP -> fits n (socket_fd p)).
Proof using Type.
  intros Hs. unfold internal_get_fdset2. rewrite Hs. unfold listening.
  assert (holds no_sets (λ _, False) (λ _, False) (λ _, False) True) as H0.
  { exists ∅, ∅, ∅. split_and!; try done; set_solver. }
  destruct (Z.eqb_spec (listen_fd d) MHD_INVALID_SOCKET) as [El|El], (was_quiesced d) eqn:Eq; cbn [negb andb];
    eapply holds_ext; [apply watch_all_holds, H0| | | | |apply watch_all_holds, H0| | | | |apply watch_all_holds, H0| | | |
                      |by apply watch_all_holds, add_read_holds|..].
  all: try (intros x; unfold fits; try rewrite El; intuition congruence).
  all: intuition congruence.
Qed.
End Sets.

(** ** Every connection has its turn *)

Section Run.
Context `{Platform} {App : Type}.
Context (app_ : application (App := App)) (cfg : Z -> idle_config) (io : Z -> nat -> turn_io).

Definition watched_ok (p : watched) : Prop :=
  0 <= read_buffer_offset (con (w_reply p)) /\ info_fits (con (w_reply p)) (event_loop_info p).

Definition connected (p : watched) : Prop := socket_fd p ≠ MHD_INVALID_SOCKET /\ 0 <= read_buffer_offset (con (w_reply p)).

Lemma run_connections_ok rset wset eset ps app pending stay gone app' pending' :
  Forall connected ps -> run_connections app_ cfg io rset wset eset ps app pending = Some (stay, gone, app', pending') ->
  Forall watched_ok stay /\ Forall connected stay /\ (socket_fd <$> ps) ≡ₚ (socket_fd <$> stay) ++ gone.*1
  /\ (pending' = true <-> pending = true \/ ∃ p, p ∈ stay /\ event_loop_info p = MHD_EVENT_LOOP_INFO_BLOCK)
  /\ (forall p, p ∈ ps -> socket_fd p ∈ eset -> socket_fd p ∈ gone.*1) /\ Forall (λ g, ended g.2) gone.
Proof using Type.
  intros Hps. revert app pending stay gone app' pending'. induction Hps as [|p ps [Hfd H0] Hps IH]; intros app pending stay gone app' pending' E.
  { injection E as <- <- <- <-. split_and!; [constructor|constructor|done|set_solver|set_solver|constructor]. }
  cbn [run_connections] in E. destruct (Z.eqb_spec (socket_fd p) MHD_INVALID_SOCKET); [done|].
  apply bind_Some in E as ([t block] & Et & E). apply call_handlers_ended in Et as Hend.
  assert (match t with
          | Going l => link_ok l /\ block = bool_decide (l_info l = MHD_EVENT_LOOP_INFO_BLOCK) /\ socket_fd p ∉ eset
          | Ended _ _ => block = false
          end) as Ht.
  { case_bool_decide as Hx.
    all: destruct (bool_decide (socket_fd p ∈ eset)) eqn:Ex;
      [rewrite forced_close in Et by done; by injection Et as <- <-|apply bool_decide_eq_false in Ex].
    all: destruct t as [l|]; [apply call_handlers_going in Et as (? & -> & _); done|].
    all: apply bind_Some in Et as (t' & _ & Et); by injection Et as -> <-. }
  destruct t as [l|r out].
  - destruct Ht as ([Hl0 Hlf] & -> & Hx). apply bind_Some in E as ([[[stay1 gone1] app1] pending1] & Er & E). injection E as <- <- <- <-.
    destruct (IH _ _ _ _ _ _ Er) as (Hok & Hc & Hperm & Hp & He & Hg). split_and!.
    + by constructor.
    + by constructor.
    + cbn. by constructor.
    + rewrite Hp, orb_true_iff, bool_decide_eq_true. setoid_rewrite elem_of_cons. naive_solver.
    + intros q [->|Hq]%elem_of_cons; [done|by apply He].
    + done.
  - subst block. apply bind_Some in E as ([[[stay1 gone1] app1] pending1] & Er & E). injection E as <- <- <- <-.
    destruct (IH _ _ _ _ _ _ Er) as (Hok & Hc & Hperm & Hp & He & Hg). rewrite orb_false_r in Hp. split_and!; try done.
    + cbn. rewrite Hperm. apply Permutation_middle.
    + intros q [->|Hq]%elem_of_cons; cbn; [left|right; by apply He].
    + constructor; [exact Hend|done].
Qed.

(** The listening socket is watched and was found ready. *)
Definition accepts (d : select_daemon) (rset : fd_set) : bool :=
  negb (listen_fd d =? MHD_INVALID_SOCKET) && negb (was_quiesced d) && bool_decide (listen_fd d ∈ rset).

(** C24: nothing is forgotten between two rounds of the event loop.  After a
    pass over the connections, the newly accepted one included, every one of
    them has had its turn, and is either still there, once, or was ended: it
    is closed and cleaned up (as it is when its socket has an error), handed
    over to the application, or the application broke its contract.  A
    connection that is answered with an error reply is still there.  What is
    still there waits for something that ends the next wait: its socket is in
    the set it is watched for, if it can be, or, when it waits for the
    application, the daemon does not sleep.  A connection that is in no set is
    closed and only waits to be cleaned up.  The next sets hold the listening
    socket and the sockets of the connections and no others, and say truly
    whether all of them fitted. *)
Theorem no_connection_is_forgotten d rset wset eset accepted app stay gone app' pending n :
  Forall connected (connections d ++ option_list accepted) ->
  internal_run_from_select app_ cfg io d rset wset eset accepted app = Some (stay, gone, app', pending) ->
  let next := mkSelect false (listen_fd d) (was_quiesced d) stay in
  ∃ r w e,
    let f := internal_get_fdset2 next n no_sets in
    rs f = Some r /\ ws f = Some w /\ es f = Some e
    /\ (forall p, p ∈ stay -> match event_loop_info p with
        | MHD_EVENT_LOOP_INFO_READ => fits n (socket_fd p) -> socket_fd p ∈ r
        | MHD_EVENT_LOOP_INFO_WRITE => fits n (socket_fd p) -> socket_fd p ∈ w
        | MHD_EVENT_LOOP_INFO_BLOCK => pending = true
        | MHD_EVENT_LOOP_INFO_CLEANUP => state (con (w_reply p)) = MHD_CONNECTION_CLOSED
        end)
    /\ (socket_fd <$> connections d ++ (if accepts d rset then option_list accepted else []))
       ≡ₚ (socket_fd <$> stay) ++ gone.*1
    /\ (forall fd r, (fd, r) ∈ gone -> ended r)
    /\ (forall p, p ∈ connections d -> socket_fd p ∈ eset -> socket_fd p ∈ gone.*1)
    /\ (forall x, x ∈ r <-> fits n x /\ (listening next x \/ waiting stay MHD_EVENT_LOOP_INFO_READ x))
    /\ (forall x, x ∈ w <-> fits n x /\ waiting stay MHD_EVENT_LOOP_INFO_WRITE x)
    /\ (forall x, x ∈ e <-> fits n x /\ ∃ i, i ≠ MHD_EVENT_LOOP_INFO_CLEANUP /\ waiting stay i x)
    /\ (all_fit f = true <->
          (listen_fd d ≠ MHD_INVALID_SOCKET -> was_quiesced d = false -> fits n (listen_fd d))
          /\ forall p, p ∈ stay -> event_loop_info p ≠ MHD_EVENT_LOOP_INFO_CLEANUP -> fits n (socket_fd p)).
Proof using Type.
  intros Hc E next. unfold internal_run_from_select in E.
  destruct (get_fdset2_holds next n eq_refl) as (r & w & e & Er & Ew & Ee & Hr & Hw & He & Hfit).
  fold (accepts d rset) in E. set (ps := if accepts d rset then _ else _) in E.
  assert (ps = connections d ++ (if accepts d rset then option_list accepted else [])) as Eps
    by (unfold ps; destruct (accepts d rset); [done|by rewrite app_nil_r]).
  assert (Forall connected ps /\ connections d ⊆ ps) as [Hps Hsub].
  { rewrite Eps. apply Forall_app in Hc as [? ?]. split; [|set_solver]. apply Forall_app. split; [done|].
    by destruct (accepts d rset). }
  destruct (run_connections_ok _ _ _ _ _ _ _ _ _ _ Hps E) as (Hok & _ & Hperm & Hp & Hx & Hg).
  exists r, w, e. cbv zeta. do 3 (split; [done|]). split.
  { intros p Hin. rewrite Forall_forall in Hok. destruct (Hok p Hin) as [_ Hf].
    destruct (event_loop_info p) eqn:Ei; [intros Hn; apply Hr; split; [done|right; by exists p]
      |intros Hn; apply Hw; split; [done|by exists p]|apply Hp; right; by exists p|exact Hf]. }
  split.
  { by rewrite <- Eps. }
  split; [intros fd r0 Hin; rewrite Forall_forall in Hg; exact (Hg _ Hin)|].
  split; [intros p Hin; by apply Hx, Hsub|]. split; [exact Hr|]. split; [exact Hw|]. split; [exact He|exact Hfit].
Qed.
End Run.

(** ** Concrete runs *)

Definition demo_watched : watched := mkWatched 5 (demo_accepted []) MHD_EVENT_LOOP_INFO_READ [].

Definition demo_select : select_daemon := mkSelect false 3 false [demo_watched].

(** A connection whose request is answered with an error stays, and is watched
    for writing. *)
Lemma no_connection_is_forgotten_witness :
  ∃ p r w e,
    internal_run_from_select (H := LP64) echo_application (λ _, demo_blocking_config) (λ _, demo_io demo_malformed) demo_select {[5]} ∅ ∅ None []
    = Some ([p], [], [], false)
    /\ (let f := internal_get_fdset2 (mkSelect false 3 false [p]) 1024 no_sets in rs f = Some r /\ ws f = Some w /\ es f = Some e)
    /\ socket_fd p = 5 /\ state (con (w_reply p)) = MHD_CONNECTION_HEADERS_SENDING /\ 5 ∈ w.
Proof.
  assert (∃ p, internal_run_from_select (H := LP64) echo_application (λ _, demo_blocking_config) (λ _, demo_io demo_malformed) demo_select {[5]} ∅ ∅ None []
               = Some ([p], [], [], false) /\ socket_fd p = 5 /\ event_loop_info p = MHD_EVENT_LOOP_INFO_WRITE
               /\ state (con (w_reply p)) = MHD_CONNECTION_HEADERS_SENDING) as (p & E & Hfd & Hi & Hs).
  { vm_compute. eexists. split; [reflexivity|done]. }
  destruct (no_connection_is_forgotten (H := LP64) echo_application (λ _, demo_blocking_config) (λ _, demo_io demo_malformed) demo_select {[5]} ∅ ∅ None []
    [p] [] [] false 1024) as (r & w & e & Er & Ew & Ee & Hw & _).
  - apply Forall_singleton. split; [done|]. by vm_compute.
  - exact E.
  - exists p, r, w, e. split; [exact E|]. split; [exact (conj Er (conj Ew Ee))|]. split; [exact Hfd|]. split; [exact Hs|].
    clear E. specialize (Hw p ltac:(left)). rewrite Hi, Hfd in Hw. apply Hw. by split.
Defined.

(** A connection that times out is closed but stays with the others until its
    next turn, and is met when the sets are collected. *)
Theorem timed_out_connection_is_in_no_set :
  let cfg := {| daemon := demo_daemon; response_alloc _ := true; response_struct := 128; header_config := header_config demo_idle_config; pool_increment := 32;
                shutting_down := false; wrong_thread := false; uses_tls := false; internal_polling := true; upgrade_succeeds := true;
                connection_timeout := 1; inactive := 2; sk_nonblck := true |} in
  ∃ p, internal_run_from_select (H := LP64) echo_application (λ _, cfg) (λ _, demo_io []) demo_select ∅ ∅ ∅ None [] = Some ([p], [], [], false)
    /\ event_loop_info p = MHD_EVENT_LOOP_INFO_CLEANUP
    /\ internal_get_fdset2 (mkSelect false 3 false [p]) 1024 no_sets = mkSets (Some {[3]}) (Some ∅) (Some ∅) 3 true.
Proof. vm_compute. eexists. split; [reflexivity|]. done. Qed.
