(* ===== verification/PollLoop.v ===== *)
(** * The poll loop of the daemon (libmicrohttpd/src/microhttpd/daemon.c)

    [MHD_poll_all], the round of the event loop with [poll] instead of
    [select].  The theorem: it watches every connection for the same and gives
    it the same turn as the select loop of [SelectLoop], on any number of
    sockets.

    As there, the connections without those upgraded with TLS are modelled.
    [MHD_get_timeout] and the call of [poll] are arguments. *)

From stdpp Require Import gmap.
From S2P Require Import Prelude MhdStr MemoryPool Internal Headers Connection RequestBody RequestHead HeaderBlock.
From S2P Require Import Response Reply ReplyBody EventLoop ErrorReply Idle IdleEnd IdleTurns SelectLoop.

#[local] Open Scope Z_scope.

(** ** The array *)

(** The events [POLLIN], [POLLOUT] and those for errors and the end of a
    connection. *)
Record poll_events := mkEvents { POLLIN : bool; POLLOUT : bool; ERR_DISC : bool }.

Definition no_events : poll_events := mkEvents false false false.

Record pollfd := mkPollfd { fd : Z; events : poll_events; revents : poll_events }.

Abbreviation INT_MAX := 2147483647.

Section Poll.
Context `{Platform} {App : Type}.

(** What a connection is watched for. *)
Definition events_of (i : MHD_ConnectionEventLoopInfo) : poll_events :=
  match i with
  | MHD_EVENT_LOOP_INFO_READ => mkEvents true false true
  | MHD_EVENT_LOOP_INFO_WRITE => mkEvents false true true
  | MHD_EVENT_LOOP_INFO_BLOCK => mkEvents false false true
  | MHD_EVENT_LOOP_INFO_CLEANUP => no_events
  end.

Definition poll_entry (p : watched) : pollfd := mkPollfd (socket_fd p) (events_of (event_loop_info p)) no_events.

(** What the loop reads of the daemon besides: the number of its connections,
    suspended ones as well, and the end of the channel between threads that is
    read, if there is one. *)
Record poll_daemon := mkPoll {
  polled : select_daemon;
  connection_count : Z;
  count_limit : Z;
  limit_reached : bool;
  itc : option Z;
  thread_per_connection : bool
}.

(** The listening socket is watched below the limit of connections only. *)
Definition poll_listens (d : poll_daemon) : bool :=
  negb (listen_fd (polled d) =? MHD_INVALID_SOCKET) && negb (was_quiesced (polled d))
  && (connection_count d <? count_limit d) && negb (limit_reached d).

Definition poll_server (d : poll_daemon) : list pollfd :=
  (if poll_listens d then [mkPollfd (listen_fd (polled d)) (mkEvents true false false) no_events] else [])
  ++ match itc d with Some c => [mkPollfd c (mkEvents true false false) no_events] | None => [] end.

Definition poll_array (d : poll_daemon) : list pollfd := poll_server d ++ (poll_entry <$> connections (polled d)).

(** [get_timeout] is the result of [MHD_get_timeout]; -1 waits for ever. *)
Definition poll_timeout (may_block : bool) (get_timeout : option Z) (d : poll_daemon) : Z :=
  if existsb (λ p, bool_decide (event_loop_info p = MHD_EVENT_LOOP_INFO_CLEANUP)) (connections (polled d)) then 0
  else if negb may_block then 0
  else if thread_per_connection d then -1
  else match get_timeout with None => -1 | Some t => if t >? INT_MAX then INT_MAX else t end.

(** ** The turns *)

Context (app_ : application (App := App)) (cfg : Z -> idle_config) (io : Z -> nat -> turn_io).

(** [ready] are the entries of the connections from the current one on: when
    none is left the loop ends, and a connection that is not the one of the
    entry is passed over. *)
Fixpoint poll_connections (ready : list pollfd) (ps : list watched) (app : App) (pending : bool) : option pass_result :=
  match ps, ready with
  | [], _ => Some ([], [], app, pending)
  | _, [] => Some (ps, [], app, pending)
  | p :: ps, e :: ready' =>
      let ds := socket_fd p in
      if negb (fd e =? ds) then
        '(stay, gone, app, pending) ← poll_connections ready ps app pending;
        Some (p :: stay, gone, app, pending)
      else
        '(t, block) ← call_handlers app_ (cfg ds) false (POLLIN (revents e)) (POLLOUT (revents e)) (ERR_DISC (revents e))
                        (io ds) (mkLink (w_reply p) app (event_loop_info p) (w_out p));
        let pending := pending || block in
        match t with
        | Going l =>
            '(stay, gone, app, pending) ← poll_connections ready' ps (l_app l) pending;
            Some (mkWatched ds (l_reply l) (l_info l) (l_out l) :: stay, gone, app, pending)
        | Ended r _ =>
            '(stay, gone, app, pending) ← poll_connections ready' ps (app_of r) pending;
            Some (stay, (ds, r) :: gone, app, pending)
        end
  end.

(** A round: [poll] gets the array and the time to wait, and fills in the
    events that happened, or fails; the result begins with what the function
    returns.  [may_block] is false already when connections were resumed.  A
    connection that is accepted behind the turns comes to the front of the
    list. *)
Inductive poll_outcome := Polled (p : list pollfd) | Interrupted | Poll_failed.

Definition MHD_poll_all (d : poll_daemon) (may_block : bool) (get_timeout : option Z)
    (poll : list pollfd -> Z -> poll_outcome) (accepted : option watched) (app : App) (pending : bool)
    : option (bool * pass_result) :=
  let ps := connections (polled d) in
  let p := poll_array d in
  if (length p =? 0)%nat then Some (true, (ps, [], app, pending))
  else
    match poll p (poll_timeout may_block get_timeout d) with
    | Interrupted => Some (true, (ps, [], app, pending))
    | Poll_failed => Some (false, (ps, [], app, pending))
    | Polled p =>
        if shutdown (polled d) then Some (false, (ps, [], app, false))
        else
          '(stay, gone, app, pending) ← poll_connections (drop (length (poll_server d)) p) ps app false;
          let listens := poll_listens d && match p with e :: _ => POLLIN (revents e) | [] => false end in
          Some (true, (if listens then stay ++ option_list accepted else stay, gone, app, pending))
    end.
End Poll.

(** ** The same as with [select] *)

(** A [poll] that finds what a [select] found. *)
Definition found_by_select (rset wset eset : fd_set) (e : pollfd) : pollfd :=
  mkPollfd (fd e) (events e)
    (mkEvents (bool_decide (fd e ∈ rset)) (bool_decide (fd e ∈ wset)) (bool_decide (fd e ∈ eset))).

Section Same.
Context `{Platform} {App : Type}.
Context (app_ : application (App := App)) (cfg : Z -> idle_config) (io : Z -> nat -> turn_io).

Lemma poll_connections_select rset wset eset ps app pending :
  Forall (λ p, socket_fd p ≠ MHD_INVALID_SOCKET) ps ->
  poll_connections app_ cfg io (found_by_select rset wset eset <$> (poll_entry <$> ps)) ps app pending
  = run_connections app_ cfg io rset wset eset ps app pending.
Proof using Type.
  intros Hps. revert app pending. induction Hps as [|p ps Hp Hps IH]; intros app pending; [done|].
  cbn [fmap list_fmap poll_connections run_connections found_by_select poll_entry fd revents POLLIN POLLOUT ERR_DISC].
  apply Z.eqb_neq in Hp. rewrite Z.eqb_refl, Hp. cbn [negb].
  destruct (call_handlers _ _ _ _ _ _ _ _) as [[t block]|]; [|done]. cbn [mbind option_bind].
  destruct t; by rewrite IH.
Qed.

Lemma drop_found_by_select rset wset eset d :
  drop (length (poll_server d)) (found_by_select rset wset eset <$> poll_array d)
  = found_by_select rset wset eset <$> (poll_entry <$> connections (polled d)).
Proof using Type.
  unfold poll_array. rewrite fmap_app, drop_app_length'; [done|]. by rewrite length_fmap.
Qed.

(** The entries of the connections that are watched for a kind of event. *)
Lemma polled_for (f : poll_events -> bool) ps x :
  (∃ e, e ∈ poll_entry <$> ps /\ fd e = x /\ f (events e) = true)
  <-> ∃ i, f (events_of i) = true /\ waiting ps i x.
Proof using Type.
  unfold waiting. setoid_rewrite list_elem_of_fmap. split.
  - intros (e & (p & -> & Hp) & <- & Hf). exists (event_loop_info p). split; [exact Hf|]. by exists p.
  - intros (i & Hf & p & Hp & <- & <-). exists (poll_entry p). split; [by exists p|]. done.
Qed.

Lemma poll_timeout_bounds may_block gt d :
  (forall t, gt = Some t -> 0 <= t) -> -1 <= poll_timeout may_block gt d <= INT_MAX.
Proof using Type.
  intros Hgt. unfold poll_timeout.
  repeat case_match; try lia; specialize (Hgt _ eq_refl); lia.
Qed.
(** C32: the loop with [poll] does what the loop with [select] does, for any
    number of sockets.  Its array watches every connection for what the sets
    of the select loop watch it for, as far as its socket fits there; the time
    to wait is one [poll] takes, and is none when the caller must not wait or a
    connection only waits to be cleaned up.  When [poll] finds what [select]
    finds, the connections have the same turns with the same result, the
    connections that stay and those that were ended, and whether the
    application is waited for; only a connection that is accepted has its first
    turn a round later. *)
Theorem poll_all_is_select (d : poll_daemon) may_block gt poll rset wset eset accepted (app : App) pending :
  let sd := polled d in
  let array := poll_array d in
  let wait := poll_timeout may_block gt d in
  shutdown sd = false -> Forall (λ p, socket_fd p ≠ MHD_INVALID_SOCKET) (connections sd) -> array ≠ [] ->
  (forall t, gt = Some t -> 0 <= t) -> poll array wait = Polled (found_by_select rset wset eset <$> array) ->
  MHD_poll_all app_ cfg io d may_block gt poll accepted app pending
  = ('(stay, gone, app', pending') ← internal_run_from_select app_ cfg io sd rset wset eset None app;
     Some (true, (if poll_listens d && bool_decide (listen_fd sd ∈ rset) then stay ++ option_list accepted else stay,
                  gone, app', pending')))
  /\ (-1 <= wait <= INT_MAX)
  /\ (may_block = false \/ (∃ p, p ∈ connections sd /\ event_loop_info p = MHD_EVENT_LOOP_INFO_CLEANUP) -> wait = 0)
  /\ forall n, ∃ r w e,
       let f := internal_get_fdset2 sd n no_sets in
       let entries := drop (length (poll_server d)) array in
       rs f = Some r /\ ws f = Some w /\ es f = Some e
       /\ forall x, fits n x ->
            (x ∈ r <-> listening sd x \/ ∃ q, q ∈ entries /\ fd q = x /\ POLLIN (events q) = true)
            /\ (x ∈ w <-> ∃ q, q ∈ entries /\ fd q = x /\ POLLOUT (events q) = true)
            /\ (x ∈ e <-> ∃ q, q ∈ entries /\ fd q = x /\ ERR_DISC (events q) = true).
Proof using Type.
  intros sd array wait Hs Hps Hne Hgt Hpoll. split; [|split; [by apply poll_timeout_bounds|split]].
  - unfold MHD_poll_all. fold sd array wait. destruct (Nat.eqb_spec (length array) 0) as [E0|_]; [by apply nil_length_inv in E0|].
    rewrite Hpoll, Hs. unfold array at 1. rewrite drop_found_by_select, poll_connections_select by done.
    unfold internal_run_from_select. rewrite app_nil_r. replace (if _ && _ && _ then _ else _) with (connections sd) by by case_match.
    destruct (run_connections _ _ _ _ _ _ _ _ _) as [[[[stay gone] app'] pending']|]; [|done]. cbn [mbind option_bind].
    do 4 f_equal. unfold array, poll_array, poll_server. by destruct (poll_listens d).
  - unfold wait, poll_timeout. fold sd. intros [->|(p & Hp & Ep)].
    + by case_match.
    + replace (existsb _ _) with true; [done|]. symmetry. apply existsb_exists. exists p.
      split; [by apply list_elem_of_In|by apply bool_decide_eq_true].
  - intros n. destruct (get_fdset2_holds sd n Hs) as (r & w & e & Er & Ew & Ee & Hr & Hw & He & _).
    exists r, w, e. cbv zeta. do 3 (split; [done|]). intros x Hx.
    replace (drop _ _) with (poll_entry <$> connections sd)
      by (unfold array, poll_array; symmetry; apply drop_app_length).
    rewrite Hr, Hw, He, (polled_for POLLIN), (polled_for POLLOUT), (polled_for ERR_DISC). split_and!.
    + split; [intros [_ [?|?]]; [by left|right; by exists MHD_EVENT_LOOP_INFO_READ]|].
      intros [?|([] & ? & ?)]; try discriminate; split; auto.
    + split; [intros [_ ?]; by exists MHD_EVENT_LOOP_INFO_WRITE|]. intros ([] & ? & ?); done.
    + split; [intros [_ (i & ? & ?)]; exists i; by destruct i|].
      intros (i & ? & ?). split; [done|]. exists i. by destruct i.
Qed.
End Same.

(** ** Concrete runs *)

Definition demo_poll : poll_daemon := mkPoll demo_select 1 10 false None false.

Definition demo_poll_call (p : list pollfd) (timeout : Z) : poll_outcome := Polled (found_by_select {[5]} ∅ ∅ <$> p).

Lemma poll_all_is_select_witness :
  MHD_poll_all (H := LP64) echo_application (λ _, demo_idle_config) (λ _, demo_io (str "GET")) demo_poll true (Some 3000)
    demo_poll_call None [] false
  = ('(stay, gone, app', pending') ← internal_run_from_select (H := LP64) echo_application (λ _, demo_idle_config) (λ _, demo_io (str "GET"))
                                        demo_select {[5]} ∅ ∅ None [];
     Some (true, (stay, gone, app', pending')))
  /\ (MHD_poll_all (H := LP64) echo_application (λ _, demo_idle_config) (λ _, demo_io (str "GET")) demo_poll true (Some 3000)
         demo_poll_call None [] false ≠ None).
Proof.
  split; [|by vm_compute].
  destruct (poll_all_is_select (H := LP64) echo_application (λ _, demo_idle_config) (λ _, demo_io (str "GET"))
              demo_poll true (Some 3000) demo_poll_call {[5]} ∅ ∅ None [] false) as [E _].
  - reflexivity.
  - by apply Forall_singleton.
  - discriminate.
  - intros t [= <-]. lia.
  - reflexivity.
  - exact E.
Defined.
