(* ===== verification/DigestAuth.v ===== *)
(** * Digest authentication (libmicrohttpd/src/microhttpd/digestauth.c)

    The digests of RFC 2617 and RFC 7616, the search for a parameter of the
    authorization header, the table of nonces with their counters, the nonces
    the server makes, the check of a request and the reply that asks for
    authentication.

    A [const char *] argument is the object it points to; the outer option of
    an operation is undefined behaviour or a panic.  Local arrays have the
    length the source gives them and arbitrary contents [fresh]; [malloc]
    yields an object or the null pointer.  Arrays whose length is the size of
    a digest are variable-length arrays. *)

From S2P Require Import Prelude MhdStr MemoryPool HashStream Md5 Sha256 Internal Headers Connection RequestHead.
From S2P Require Import Response Reply ReplyBody.

(** ** Digest algorithms *)

Abbreviation TIMESTAMP_BIN_SIZE := 4%nat.
Abbreviation MAX_DIGEST := 32%nat.
Abbreviation MHD_MD5_DIGEST_SIZE := 16%nat.

Definition NONCE_STD_LEN (digest_size : nat) : nat := digest_size * 2 + TIMESTAMP_BIN_SIZE * 2.

Definition colon_ : bytes := str ":".

(** [struct DigestAlgorithm]: the functions with their context, the name, and
    the buffer for a digest in hexadecimal. *)
Record DigestAlgorithm (ctx : Type) := mkDA {
  ops : hash_ops ctx;
  da_ctx : ctx;
  alg : bytes;
  sessionkey : bytes
}.
Arguments mkDA {ctx} _ _ _ _.
Arguments ops {ctx} _.
Arguments da_ctx {ctx} _.
Arguments alg {ctx} _.
Arguments sessionkey {ctx} _.

Definition hex_lower (j : Z) : Z := u8 (if j <=? 9 then j + 48 else j - 10 + 97).

(** The loop of [cvthex], from index [i] on. *)
Fixpoint cvthex_loop (left : nat) (bin : bytes) (i : nat) (hex : bytes) : option bytes :=
  match left with
  | O => Some hex
  | S left' =>
      b ← deref_at bin i;
      let j := Z.land (Z.shiftr b 4) 15 in
      hex ← mem_write hex (Z.of_nat (i * 2)) [hex_lower j];
      b ← deref_at bin i;
      let j := Z.land b 15 in
      hex ← mem_write hex (Z.of_nat (i * 2 + 1)) [hex_lower j];
      cvthex_loop left' bin (S i) hex
  end.

Definition cvthex (bin : bytes) (len : nat) (hex : bytes) : option bytes :=
  hex ← cvthex_loop len bin 0 hex;
  mem_write hex (Z.of_nat (len * 2)) [0].

Section Digests.
Context {ctx : Type}.
#[local] Abbreviation DA := (DigestAlgorithm ctx).

Definition set_ctx (da : DA) c : DA := mkDA (ops da) c (alg da) (sessionkey da).
Definition set_key (da : DA) k : DA := mkDA (ops da) (da_ctx da) (alg da) k.

Definition da_init (da : DA) : DA := set_ctx da (hash_init (ops da) (da_ctx da)).

(** [da->update (da->ctx, data, n)], and the form for a string. *)
Definition da_update (da : DA) (data : bytes) (n : nat) : option DA :=
  bs ← mem_read data 0 (Z.of_nat n);
  c ← hash_update (ops da) (da_ctx da) bs;
  Some (set_ctx da c).

Definition da_update_str (da : DA) (s : bytes) : option DA := n ← strlen s; da_update da s n.

Definition da_colon (da : DA) : option DA := da_update da colon_ 1.

(** [da->digest (da->ctx, dest)] for an array of [digest_size] bytes. *)
Definition da_digest (da : DA) : option (bytes * DA) :=
  '(d, c) ← hash_digest (ops da) (da_ctx da);
  Some (d, set_ctx da c).

(** [VLA_CHECK_LEN_DIGEST]. *)
Definition vla_check (da : DA) : option unit := if (MAX_DIGEST <? digest_size (ops da))%nat then None else Some tt.

Definition digest_calc_ha1_from_digest (alg : bytes) (da : DA) (digest nonce cnonce : bytes) : option DA :=
  md5_sess ← MHD_str_equal_caseless_ alg (cstr (str "md5-sess"));
  sess ← (if (md5_sess : bool) then Some true else MHD_str_equal_caseless_ alg (cstr (str "sha-256-sess")));
  if (sess : bool) then
    _ ← vla_check da;
    let da := da_init da in
    da ← da_update da digest MHD_MD5_DIGEST_SIZE;
    da ← da_colon da;
    da ← da_update_str da nonce;
    da ← da_colon da;
    da ← da_update_str da cnonce;
    '(dig, da) ← da_digest da;
    hex ← cvthex dig (digest_size (ops da)) (sessionkey da);
    Some (set_key da hex)
  else
    hex ← cvthex digest (digest_size (ops da)) (sessionkey da);
    Some (set_key da hex).

Definition digest_calc_ha1_from_user (alg username realm password nonce cnonce : bytes) (da : DA) : option DA :=
  _ ← vla_check da;
  let da := da_init da in
  da ← da_update_str da username;
  da ← da_colon da;
  da ← da_update_str da realm;
  da ← da_colon da;
  da ← da_update_str da password;
  '(ha1, da) ← da_digest da;
  digest_calc_ha1_from_digest alg da ha1 nonce cnonce.

(** [hentity] is not used. *)
Definition digest_calc_response (ha1 nonce noncecount cnonce qop method uri : bytes) (da : DA) : option DA :=
  _ ← vla_check da;
  let da := da_init da in
  da ← da_update_str da method;
  da ← da_colon da;
  da ← da_update_str da uri;
  '(ha2, da) ← da_digest da;
  hex ← cvthex ha2 (digest_size (ops da)) (sessionkey da);
  let da := da_init (set_key da hex) in
  da ← da_update da ha1 (digest_size (ops da) * 2);
  da ← da_colon da;
  da ← da_update_str da nonce;
  da ← da_colon da;
  q ← deref qop;
  da ← (if negb (q =? 0) then
          da ← da_update_str da noncecount;
          da ← da_colon da;
          da ← da_update_str da cnonce;
          da ← da_colon da;
          da ← da_update_str da qop;
          da_colon da
        else Some da);
  da ← da_update da (sessionkey da) (digest_size (ops da) * 2);
  '(resphash, da) ← da_digest da;
  hex ← cvthex resphash (digest_size (ops da)) (sessionkey da);
  Some (set_key da hex).
End Digests.

(** ** Parameters of the authorization header *)

(** [while (' ' == *s) s++]: the number of blanks. *)
Fixpoint skip_spaces (s : bytes) : option nat :=
  match s with
  | [] => None
  | c :: s' => if c =? 32 then n ← skip_spaces s'; Some (S n) else Some O
  end.

(** [strncpy (dest, src, n)]. *)
Definition strncpy (dest src : bytes) (n : nat) : option bytes :=
  s ← cstring src;
  mem_write dest 0 (take n s ++ replicate (n - length s) 0).

(** [q1], [q2] and [qn] for the equals sign at [eq]; [Some None] when the end
    quote is missing. *)
Definition value_bounds (data : bytes) (eq : nat) : option (option (nat * option nat * option nat)) :=
  k ← skip_spaces (drop (S eq) data);
  let q1 := (S eq + k)%nat in
  c ← deref_at data q1;
  if negb (c =? 34) then
    o ← strchr (drop q1 data) 44;
    let q2 := option_map (Nat.add q1) o in
    Some (Some (q1, q2, q2))
  else
    let q1 := S q1 in
    o ← strchr (drop q1 data) 34;
    match o with
    | None => Some None
    | Some n => Some (Some (q1, Some (q1 + n)%nat, Some (S (q1 + n))))
    end.

(** The value from [q1] to [q2], or to the end of the string, is copied. *)
Definition copy_value (dest : bytes) (size : Z) (data : bytes) (q1 : nat) (q2 : option nat) : option (Z * bytes) :=
  match q2 with
  | None =>
      n ← strlen (drop q1 data);
      let len := Z.of_nat n + 1 in
      let size := (if size >? len then len else size) - 1 in
      dest ← strncpy dest (drop q1 data) (Z.to_nat size);
      dest ← mem_write dest size [0];
      Some (size, dest)
  | Some q2 =>
      let size := (if size >? Z.of_nat (q2 - q1) + 1 then Z.of_nat (q2 - q1) + 1 else size) - 1 in
      bs ← mem_read data (Z.of_nat q1) size;
      dest ← mem_write dest 0 bs;
      dest ← mem_write dest size [0];
      Some (size, dest)
  end.

(** [while ('\0' != *ptr)]; every round passes an equals sign. *)
Fixpoint lookup_sub_loop (fuel : nat) (dest : bytes) (size : Z) (data key : bytes) (keylen ptr : nat)
    : option (Z * bytes) :=
  c ← deref_at data ptr;
  if c =? 0 then Some (0, dest)
  else
    match fuel with
    | O => None
    | S fuel' =>
        e ← strchr (drop ptr data) 61;
        match e with
        | None => Some (0, dest)
        | Some e =>
            let eq := (ptr + e)%nat in
            b ← value_bounds data eq;
            match b with
            | None => Some (0, dest)
            | Some (q1, q2, qn) =>
                same ← MHD_str_equal_caseless_n_ (drop ptr data) key keylen;
                if (same : bool) && (eq =? ptr + keylen)%nat then copy_value dest size data q1 q2
                else
                  match qn with
                  | None => Some (0, dest)
                  | Some qn =>
                      p ← strchr (drop qn data) 44;
                      match p with
                      | None => Some (0, dest)
                      | Some p =>
                          let ptr := S (qn + p) in
                          n ← skip_spaces (drop ptr data);
                          lookup_sub_loop fuel' dest size data key keylen (ptr + n)
                      end
                  end
            end
        end
    end.

Definition lookup_sub_value (dest : bytes) (size : Z) (data key : bytes) : option (Z * bytes) :=
  if 0 =? size then Some (0, dest)
  else
    keylen ← strlen key;
    lookup_sub_loop (length data) dest size data key keylen 0.

(** ** The table of nonces *)

Abbreviation MAX_NONCE_LENGTH := 129%nat.

(** [struct MHD_NonceNc]. *)
Record MHD_NonceNc := mkNonce { nc : Z; nmask : Z; nonce : bytes }.

(** A [char] read as a signed number. *)
Definition s8 (c : Z) : Z := if c <? 128 then c else c - 256.

(** The loop that hashes the nonce. *)
Fixpoint nonce_hash (np : bytes) (off : Z) : option Z :=
  match np with
  | [] => None
  | c :: np' =>
      if c =? 0 then Some off
      else nonce_hash np' (u32 (Z.lor (u32 (Z.shiftl off 8)) (Z.lxor (u32 (s8 c)) (Z.shiftr off 24))))
  end.

(** [1LLU << n]. *)
Definition bit64 (n : Z) : option Z := if (0 <=? n) && (n <? 64) then Some (u64 (Z.shiftl 1 n)) else None.

(** What becomes of the entry [nn], and the result. *)
Definition check_counter (nn : MHD_NonceNc) (nonce_ : bytes) (nc_ : Z) : option (bool * MHD_NonceNc) :=
  late ←
    (if (nc_ <? nc nn) && (nc_ <? u64 (nc_ + 64)) && (nc nn <=? u64 (nc_ + 64)) then
       b ← bit64 (u64 (nc nn - nc_ - 1)); Some (0 =? Z.land b (nmask nn))
     else Some false);
  if (late : bool) then
    b ← bit64 (u64 (nc nn - nc_ - 1));
    Some (true, mkNonce (nc nn) (Z.lor (nmask nn) b) (nonce nn))
  else
    stale ← (if nc_ <=? nc nn then Some true else same ← strcmp_eq (nonce nn) nonce_; Some (negb same));
    if (stale : bool) then Some (false, nn)
    else
      let jump := u64 (nc_ - nc nn) in
      Some (true, mkNonce nc_ (if jump <? 64 then u64 (Z.shiftl (nmask nn) jump) else 0) (nonce nn)).

(** An entry that was never written is [None]: the table comes from
    [malloc]. *)
Definition check_nonce_nc (nnc : list (option MHD_NonceNc)) (nonce_ : bytes) (nc_ : Z)
    : option (bool * list (option MHD_NonceNc)) :=
  n ← strlen nonce_;
  let noncelen := (n + 1)%nat in
  if (MAX_NONCE_LENGTH <? noncelen)%nat then Some (false, nnc)
  else
    let mod_ := Z.of_nat (length nnc) in
    if 0 =? mod_ then Some (false, nnc)
    else
      off ← nonce_hash nonce_ 0;
      let off := Z.to_nat (off mod mod_) in
      e ← nnc !! off;
      if 0 =? nc_ then
        bs ← mem_read nonce_ 0 (Z.of_nat noncelen);
        let old := match e with Some nn => nonce nn | None => replicate MAX_NONCE_LENGTH 0 end in
        text ← mem_write old 0 bs;
        Some (true, <[off := Some (mkNonce 0 0 text)]> nnc)
      else
        nn ← e;
        '(ok, nn) ← check_counter nn nonce_ nc_;
        Some (ok, <[off := Some nn]> nnc).

(** ** The header of a request *)

Definition BASE_ : bytes := str "Digest ".
Definition Authorization : bytes := str "Authorization".
Definition WWW_Authenticate : bytes := str "WWW-Authenticate".

Abbreviation MAX_USERNAME_LENGTH := 128%nat.
Abbreviation MAX_REALM_LENGTH := 256%nat.
Abbreviation MAX_AUTH_RESPONSE_LENGTH := 256%nat.

(** The result of an authentication. *)
Inductive auth_result := Auth_yes | Auth_no | Auth_invalid_nonce.

#[export] Instance auth_result_eq_dec : EqDecision auth_result.
Proof. solve_decision. Defined.

Section Auth.
Context `{Platform}.
Variable fresh : nat -> bytes.
Variable malloc : Z -> option bytes.
Variable unescape_callback : bytes -> nat -> option (bytes * nat).

(** [strdup]. *)
Definition strdup (s : bytes) : option (option bytes) :=
  t ← cstring s;
  match malloc (Z.of_nat (length t + 1)) with
  | None => Some None
  | Some m => m ← mem_write m 0 (cstr t); Some (Some m)
  end.

(** The authorization header behind [base], [None] when there is none or
    [strncmp] finds another scheme. *)
Definition scheme_header (c : MHD_Connection) (base : bytes) : option (option bytes) :=
  l ← resolve_all (memory (pool c)) (headers_received (req c));
  h ← MHD_lookup_connection_value (Some l) MHD_HEADER_KIND (Some Authorization);
  Some (match h with
        | None => None
        | Some h => if starts_with base h then Some (cstr (drop (length base) h)) else None
        end).

Definition MHD_digest_auth_get_username (c : MHD_Connection) : option (option bytes) :=
  h ← scheme_header c BASE_;
  match h with
  | None => Some None
  | Some header =>
      '(len, user) ← lookup_sub_value (fresh MAX_USERNAME_LENGTH) (Z.of_nat MAX_USERNAME_LENGTH) header
                       (cstr (str "username"));
      if 0 =? len then Some None else strdup user
  end.

(** ** The nonces of the server *)

(** [strncat (dest, src, n)]. *)
Definition strncat (dest src : bytes) (n : nat) : option bytes :=
  l ← strlen dest;
  s ← cstring src;
  mem_write dest (Z.of_nat l) (cstr (take n s)).

Definition timestamp_bytes (nonce_time : Z) : bytes :=
  [u8 (Z.shiftr (Z.land nonce_time 4278190080) 24); u8 (Z.shiftr (Z.land nonce_time 16711680) 16);
   u8 (Z.shiftr (Z.land nonce_time 65280) 8); u8 (Z.land nonce_time 255)].

Section Algorithm.
Context {ctx : Type}.

(** The array [nonce] is the last argument; the result is its new contents. *)
Definition calculate_nonce (nonce_time : Z) (method rnd uri realm : bytes) (da : DigestAlgorithm ctx) (nonce_ : bytes)
    : option (bytes * DigestAlgorithm ctx) :=
  _ ← vla_check da;
  let da := da_init da in
  let timestamp := timestamp_bytes nonce_time in
  da ← da_update da timestamp TIMESTAMP_BIN_SIZE;
  da ← da_colon da;
  da ← da_update_str da method;
  da ← da_colon da;
  da ← (if (0 <? length rnd)%nat then da_update da rnd (length rnd) else Some da);
  da ← da_colon da;
  da ← da_update_str da uri;
  da ← da_colon da;
  da ← da_update_str da realm;
  '(tmpnonce, da) ← da_digest da;
  nonce_ ← cvthex tmpnonce (digest_size (ops da)) nonce_;
  timestamphex ← cvthex timestamp TIMESTAMP_BIN_SIZE (fresh (TIMESTAMP_BIN_SIZE * 2 + 1));
  nonce_ ← strncat nonce_ timestamphex 8;
  Some (nonce_, da).
End Algorithm.

(** ** The arguments of the URI *)

(** A comparison with a value that may be the null pointer. *)
Definition same_value (a b : option bytes) : option bool :=
  match a, b with
  | None, None => Some true
  | Some a, Some b => strcmp_eq a (cstr b)
  | _, _ => Some false
  end.

Fixpoint test_header_loop (pos : list MHD_HTTP_Header) (key : bytes) (value : option bytes) (k : Z) : option bool :=
  match pos with
  | [] => Some false
  | h :: next =>
      if negb (k =? kind h) then test_header_loop next key value k
      else
        name ← header h;
        same ← strcmp_eq key (cstr name);
        if negb same then test_header_loop next key value k
        else
          v ← same_value value (header_value h);
          if (v : bool) then Some true else test_header_loop next key value k
  end.

Definition test_header (headers : list MHD_HTTP_Header) (key : bytes) (value : option bytes) (k : Z) : option bool :=
  test_header_loop headers key value k.

(** [test_header] as the callback of [MHD_parse_arguments_]: the arguments are
    strings in the parsed buffer; the state is lost at undefined behaviour. *)
Definition test_callback (headers : list MHD_HTTP_Header) (st : option unit) (m : bytes) (key : nat) (value : option nat)
    : option unit * bool :=
  match test_header headers (drop key m) (option_map (λ v, drop v m) value) MHD_GET_ARGUMENT_KIND with
  | None => (None, false)
  | Some ok => (st, ok)
  end.

(** The count of the remaining headers is kept in an [unsigned int]. *)
Fixpoint count_down (pos : list MHD_HTTP_Header) (num_headers : Z) : Z :=
  match pos with
  | [] => num_headers
  | h :: next =>
      if negb (MHD_GET_ARGUMENT_KIND =? kind h) then count_down next num_headers
      else count_down next (u32 (num_headers - 1))
  end.

Definition check_argument_match (headers : list MHD_HTTP_Header) (args : bytes) : option bool :=
  argb ← strdup args;
  match argb with
  | None => Some false
  | Some argb =>
      '(_, st, num_headers, ret) ← MHD_parse_arguments_ unescape_callback (test_callback headers) argb (Some 0%nat) (Some tt);
      _ ← st;
      Some (if negb ret then false else count_down headers num_headers =? 0)
  end.

(** ** The check of a request *)

(** Looking a parameter up in an array of [n] bytes: its length and the
    array. *)
Definition sub_value (n : nat) (hdr key : bytes) : option (Z * bytes) :=
  lookup_sub_value (fresh n) (Z.of_nat n) hdr (cstr key).

(** The blocks for the user name and the realm: the length, or [Some None]
    when the parameter is missing or differs. *)
Definition expect_value (n : nat) (hdr key expected : bytes) : option (option Z) :=
  '(len, v) ← sub_value n hdr key;
  if 0 =? len then Some None
  else same ← strcmp_eq expected v; Some (if (same : bool) then Some len else None).

(** [nonce + len - TIMESTAMP_BIN_SIZE * 2] and the conversion of the time
    stamp found there. *)
Definition nonce_timestamp (nonce_ : bytes) (len : Z) : option (option Z) :=
  let p := len - 8 in
  if p <? 0 then None
  else
    '(n, t) ← MHD_strx_to_uint32_n_ (Some (drop (Z.to_nat p) nonce_)) 8 (Some 0);
    Some (if (n =? 8)%nat then t else None).

(** [qop] is neither "auth" nor empty. *)
Definition qop_unknown (qop : bytes) : option bool :=
  auth ← strcmp_eq qop (cstr (str "auth"));
  if (auth : bool) then Some false else e ← strcmp_eq qop (cstr []); Some (negb e).

(** The parameters [cnonce], [qop], [nc] and [response] with the length of
    the third; [Some None] for an invalid format. *)
Definition client_values (hdr : bytes) : option (option (bytes * bytes * bytes * Z * bytes)) :=
  '(l1, cnonce) ← sub_value MAX_NONCE_LENGTH hdr (str "cnonce");
  if 0 =? l1 then Some None
  else
    '(l2, qop) ← sub_value 15 hdr (str "qop");
    if 0 =? l2 then Some None
    else
      unknown ← qop_unknown qop;
      if (unknown : bool) then Some None
      else
        '(len, nc_) ← sub_value 20 hdr (str "nc");
        if 0 =? len then Some None
        else
          '(l4, response_) ← sub_value MAX_AUTH_RESPONSE_LENGTH hdr (str "response");
          Some (if 0 =? l4 then None else Some (cnonce, qop, nc_, len, response_)).

Section Check.
Context {ctx : Type}.

(** The first level: user, realm, nonce and its age.  Either the result, or
    the nonce, its time and the room left for the URI. *)
Definition check_nonce_age (hdr realm username : bytes) (nonce_timeout t : Z)
    : option (auth_result + (bytes * Z * Z)) :=
  left_ ← strlen hdr;
  let left_ := Z.of_nat left_ in
  u ← expect_value MAX_USERNAME_LENGTH hdr (str "username") username;
  match u with
  | None => Some (inl Auth_no)
  | Some len =>
      let left_ := usize (left_ - (8 + len)) in
      r ← expect_value MAX_REALM_LENGTH hdr (str "realm") realm;
      match r with
      | None => Some (inl Auth_no)
      | Some len =>
          let left_ := usize (left_ - (5 + len)) in
          '(len, nonce_) ← sub_value MAX_NONCE_LENGTH hdr (str "nonce");
          if 0 =? len then Some (inl Auth_no)
          else
            let left_ := usize (left_ - (5 + len)) in
            if left_ >? 32 * 1024 then Some (inl Auth_no)
            else
              time ← nonce_timestamp nonce_ len;
              match time with
              | None => Some (inl Auth_no)
              | Some nonce_time =>
                  Some (if (u32 (nonce_time + nonce_timeout) <? t) || (u32 (nonce_time + nonce_timeout) <? nonce_time)
                        then inl Auth_invalid_nonce else inr (nonce_, nonce_time, left_))
              end
      end
  end.

(** The last part, with the object [uri] of [left_ + 1] bytes: the digest that
    is expected, the comparison of the URI with its arguments, and of the
    digests. *)
Definition check_response (da : DigestAlgorithm ctx) (headers : list MHD_HTTP_Header) (method url : bytes)
    (realm username : bytes) (password digest : option bytes) (nonce_ cnonce qop nc_ response_ uri : bytes)
    : option auth_result :=
  da ← match digest with
       | Some d => digest_calc_ha1_from_digest (alg da) da d nonce_ cnonce
       | None => p ← password; digest_calc_ha1_from_user (alg da) username realm p nonce_ cnonce da
       end;
  ha1 ← mem_read (sessionkey da) 0 (Z.of_nat (digest_size (ops da) * 2 + 1));
  da ← digest_calc_response ha1 nonce_ nc_ cnonce qop method uri da;
  qmark ← strchr uri 63;
  uri ← match qmark with None => Some uri | Some q => mem_write uri (Z.of_nat q) [0] end;
  '(uri, _) ← unescape_callback uri 0;
  same ← strcmp_eq uri url;
  if negb same then Some Auth_no
  else
    let args := match qmark with None => cstr [] | Some q => drop (S q) uri end in
    ok ← check_argument_match headers args;
    if negb ok then Some Auth_no
    else same ← strcmp_eq response_ (sessionkey da); Some (if (same : bool) then Auth_yes else Auth_no).

(** [t] is the clock; the table of nonces is state of the daemon. *)
Definition digest_auth_check_all (rnd : bytes) (t : Z) (nnc : list (option MHD_NonceNc)) (c : MHD_Connection)
    (da : DigestAlgorithm ctx) (realm username : bytes) (password digest : option bytes) (nonce_timeout : Z)
    : option (auth_result * list (option MHD_NonceNc)) :=
  _ ← vla_check da;
  h ← scheme_header c BASE_;
  match h with
  | None => Some (Auth_no, nnc)
  | Some hdr =>
      r ← check_nonce_age hdr realm username nonce_timeout (u32 t);
      match r with
      | inl res => Some (res, nnc)
      | inr (nonce_, nonce_time, left_) =>
          method ← (p ← method (req c); chars (memory (pool c)) p);
          url ← (p ← url (req c); chars (memory (pool c)) p);
          '(noncehashexp, da) ← calculate_nonce nonce_time (cstr method) rnd (cstr url) realm da
                                  (fresh (NONCE_STD_LEN (digest_size (ops da)) + 1));
          same ← strcmp_eq nonce_ noncehashexp;
          if negb same then Some (Auth_invalid_nonce, nnc)
          else
            v ← client_values hdr;
            match v with
            | None => Some (Auth_no, nnc)
            | Some (cnonce, qop, nc_, len, response_) =>
                '(n, nci) ← MHD_strx_to_uint64_n_ (Some nc_) (Z.to_nat len) (Some 0);
                if negb (len =? Z.of_nat n) then Some (Auth_no, nnc)
                else
                  nci ← nci;
                  '(ok, nnc) ← check_nonce_nc nnc nonce_ nci;
                  if negb ok then Some (Auth_no, nnc)
                  else
                    match malloc (usize (left_ + 1)) with
                    | None => Some (Auth_no, nnc)
                    | Some uri =>
                        '(len, uri) ← lookup_sub_value uri (usize (left_ + 1)) hdr (cstr (str "uri"));
                        if 0 =? len then Some (Auth_no, nnc)
                        else
                          l ← resolve_all (memory (pool c)) (headers_received (req c));
                          res ← check_response da l (cstr method) (cstr url) realm username password digest
                                  nonce_ cnonce qop nc_ response_ uri;
                          Some (res, nnc)
                    end
            end
      end
  end.
End Check.

(** ** The interface *)

(** [enum MHD_DigestAuthAlgorithm]. *)
Inductive MHD_DigestAuthAlgorithm := MHD_DIGEST_ALG_AUTO | MHD_DIGEST_ALG_MD5 | MHD_DIGEST_ALG_SHA256.

(** The contexts on the stack, with what they hold before [init]. *)
Variable md5_stack : MD5Context.
Variable sha256_stack : sha256_ctx.

(** [SETUP_DA], for each of its two types of context. *)
Definition md5_da : DigestAlgorithm MD5Context := mkDA md5_ops md5_stack (cstr (str "md5")) (fresh 33).
Definition sha256_da : DigestAlgorithm sha256_ctx := mkDA sha256_ops sha256_stack (cstr (str "sha-256")) (fresh 65).

Section Interface.
Variable rnd : bytes.
Variable t : Z.

Definition MHD_digest_auth_check2 (nnc : list (option MHD_NonceNc)) (c : MHD_Connection) (realm username password : bytes)
    (nonce_timeout : Z) (algo : MHD_DigestAuthAlgorithm) : option (auth_result * list (option MHD_NonceNc)) :=
  match algo with
  | MHD_DIGEST_ALG_MD5 =>
      digest_auth_check_all rnd t nnc c md5_da realm username (Some password) None nonce_timeout
  | MHD_DIGEST_ALG_AUTO | MHD_DIGEST_ALG_SHA256 =>
      digest_auth_check_all rnd t nnc c sha256_da realm username (Some password) None nonce_timeout
  end.

Definition MHD_digest_auth_check (nnc : list (option MHD_NonceNc)) (c : MHD_Connection) (realm username password : bytes)
    (nonce_timeout : Z) : option (auth_result * list (option MHD_NonceNc)) :=
  MHD_digest_auth_check2 nnc c realm username password nonce_timeout MHD_DIGEST_ALG_MD5.

(** A wrong size is a panic. *)
Definition MHD_digest_auth_check_digest2 (nnc : list (option MHD_NonceNc)) (c : MHD_Connection)
    (realm username digest : bytes) (digest_size_ : Z) (nonce_timeout : Z) (algo : MHD_DigestAuthAlgorithm)
    : option (auth_result * list (option MHD_NonceNc)) :=
  match algo with
  | MHD_DIGEST_ALG_MD5 =>
      if negb (16 =? digest_size_) then None
      else digest_auth_check_all rnd t nnc c md5_da realm username None (Some digest) nonce_timeout
  | MHD_DIGEST_ALG_AUTO | MHD_DIGEST_ALG_SHA256 =>
      if negb (32 =? digest_size_) then None
      else digest_auth_check_all rnd t nnc c sha256_da realm username None (Some digest) nonce_timeout
  end.

Definition MHD_digest_auth_check_digest (nnc : list (option MHD_NonceNc)) (c : MHD_Connection)
    (realm username digest : bytes) (nonce_timeout : Z) : option (auth_result * list (option MHD_NonceNc)) :=
  MHD_digest_auth_check_digest2 nnc c realm username digest 16 nonce_timeout MHD_DIGEST_ALG_MD5.

(** ** Asking for authentication *)

Definition alloc_ok (n : Z) : bool := match malloc n with Some _ => true | None => false end.

Definition quoted (name value : bytes) : bytes := name ++ [61; 34] ++ value ++ [34].

(** The text of the two calls of [MHD_snprintf_]. *)
Definition challenge_text (realm nonce_ opaque alg_ : bytes) (signal_stale : bool) : bytes :=
  str "Digest " ++ quoted (str "realm") realm ++ str "," ++ quoted (str "qop") (str "auth") ++ str ","
  ++ quoted (str "nonce") nonce_ ++ str "," ++ quoted (str "opaque") opaque ++ str ",algorithm=" ++ alg_
  ++ (if signal_stale then str "," ++ quoted (str "stale") (str "true") else []).

(** What [MHD_queue_response] depends on besides the connection. *)
Record queue_env := { queue_cfg : reply_config; shutdown : bool; wrong_thread : bool; in_idle : bool; uses_tls : bool }.

Definition queue_unauthorized (env : queue_env) (w : reply) (r : MHD_Response) : option (bool * bool * reply) :=
  MHD_queue_response (queue_cfg env) (shutdown env) (wrong_thread env) (in_idle env) (uses_tls env) w 401 (Some r).

(** With the algorithm set up: the nonce of the challenge is made and
    registered, the header is added to the response, and the response is
    queued.  The result is that of
    [MHD_queue_response], with the response and the table. *)
Definition auth_fail_response {ctx} (da : DigestAlgorithm ctx) (env : queue_env) (nnc : list (option MHD_NonceNc))
    (w : reply) (realm opaque : bytes) (r : MHD_Response) (signal_stale : bool)
    : option (bool * bool * reply * MHD_Response * list (option MHD_NonceNc)) :=
  let c := con w in
  _ ← vla_check da;
  method ← (p ← method (req c); chars (memory (pool c)) p);
  url ← (p ← url (req c); chars (memory (pool c)) p);
  '(nonce_, da) ← calculate_nonce (u32 t) (cstr method) rnd (cstr url) realm da
                    (fresh (NONCE_STD_LEN (digest_size (ops da)) + 1));
  '(registered, nnc) ← check_nonce_nc nnc nonce_ 0;
  if negb registered then Some (false, false, w, r, nnc)
  else
    realm ← cstring realm;
    n ← cstring nonce_;
    opaque ← cstring opaque;
    a ← cstring (alg da);
    let text := challenge_text realm n opaque a signal_stale in
    let hlen := Z.of_nat (length text) in
    if hlen >? 2147483647 then Some (false, false, w, r, nnc)
    else if negb (alloc_ok (hlen + 1)) then Some (false, false, w, r, nnc)
    else
      '(added, r) ← MHD_add_response_header alloc_ok (Some r) (Some (cstr WWW_Authenticate)) (Some (cstr text));
      r ← r;
      if negb added then Some (false, false, w, r, nnc)
      else '(ret, runs_idle, w) ← queue_unauthorized env w r; Some (ret, runs_idle, w, r, nnc).

Definition MHD_queue_auth_fail_response2 (env : queue_env) (nnc : list (option MHD_NonceNc)) (w : reply)
    (realm opaque : bytes) (r : MHD_Response) (signal_stale : bool) (algo : MHD_DigestAuthAlgorithm)
    : option (bool * bool * reply * MHD_Response * list (option MHD_NonceNc)) :=
  match algo with
  | MHD_DIGEST_ALG_MD5 => auth_fail_response md5_da env nnc w realm opaque r signal_stale
  | MHD_DIGEST_ALG_AUTO | MHD_DIGEST_ALG_SHA256 => auth_fail_response sha256_da env nnc w realm opaque r signal_stale
  end.

Definition MHD_queue_auth_fail_response (env : queue_env) (nnc : list (option MHD_NonceNc)) (w : reply)
    (realm opaque : bytes) (r : MHD_Response) (signal_stale : bool)
    : option (bool * bool * reply * MHD_Response * list (option MHD_NonceNc)) :=
  MHD_queue_auth_fail_response2 env nnc w realm opaque r signal_stale MHD_DIGEST_ALG_MD5.
End Interface.
End Auth.
