(* ===== verification/NonceTable.v ===== *)
(** * What the nonce table promises (digestauth.c)

    The counters of one nonce against a specification with a maximum and a set
    of late counters, and the cases in which a request can be replayed. *)

From Stdlib Require Import Sorted.
From stdpp Require Import gmap sets.
From S2P Require Import Prelude MhdStr Headers Response DigestAuth.

#[local] Open Scope Z_scope.

(** ** Specification *)

(** The largest counter accepted so far, and the counters accepted below it. *)
Record counters := mkCounters { largest : Z; late : gset Z }.

(** A counter is accepted when it is the largest so far, or at most 64 below
    the largest one and not yet accepted late.  The counter zero is always
    accepted, and all the others are forgotten. *)
Definition count (k : counters) (c : Z) : bool * counters :=
  if c =? 0 then (true, mkCounters 0 ∅)
  else if largest k <? c then (true, mkCounters c (late k))
  else if (c <? largest k) && (largest k <=? c + 64) && (c + 64 <=? UINT64_MAX) && negb (bool_decide (c ∈ late k))
  then (true, mkCounters (largest k) ({[c]} ∪ late k))
  else (false, k).

Fixpoint counts (k : counters) (cs : list Z) : list bool * counters :=
  match cs with
  | [] => ([], k)
  | c :: cs' => let '(b, k) := count k c in let '(bs, k) := counts k cs' in (b :: bs, k)
  end.

(** The counters accepted in a run. *)
Definition accepted (cs : list Z) (bs : list bool) : list Z := concat (zip_with (λ c (b : bool), if b then [c] else []) cs bs).

(** The requests of a client: one check after the other. *)
Fixpoint check_nonces (nnc : list (option MHD_NonceNc)) (nonce_ : bytes) (cs : list Z)
    : option (list bool * list (option MHD_NonceNc)) :=
  match cs with
  | [] => Some ([], nnc)
  | c :: cs' =>
      '(b, nnc) ← check_nonce_nc nnc nonce_ c;
      '(bs, nnc) ← check_nonces nnc nonce_ cs';
      Some (b :: bs, nnc)
  end.

(** ** One entry *)

(** The entry has the text of the nonce, the largest counter, and a mask that
    remembers the late ones of the last 64. *)
Record entry_is (nn : MHD_NonceNc) (s : bytes) (k : counters) : Prop := {
  is_text : ∃ r, nonce nn = s ++ 0 :: r;
  is_largest : nc nn = largest k;
  is_range : 0 <= largest k <= UINT64_MAX;
  is_mask_range : 0 <= nmask nn < 2 ^ 64;
  is_late : forall c, c ∈ late k -> 0 <= c < largest k;
  is_mask : forall c, c < largest k -> largest k <= c + 64 -> Z.testbit (nmask nn) (largest k - c - 1) = bool_decide (c ∈ late k)
}.

Lemma testbit_high n i : 0 <= n < 2 ^ 64 -> 64 <= i -> Z.testbit n i = false.
Proof. intros. rewrite <- (Z.mod_small n (2 ^ 64)) by done. by apply Z.mod_pow2_bits_high. Qed.

Lemma land_bit n i : 0 <= i -> (0 =? Z.land (2 ^ i) n) = negb (Z.testbit n i).
Proof.
  intros Hi. destruct (Z.testbit n i) eqn:E; cbn [negb].
  - apply Z.eqb_neq. intros E0. pose proof (f_equal (λ z, Z.testbit z i) E0) as Eb. cbn beta in Eb.
    by rewrite Z.land_spec, Z.pow2_bits_true, E, Z.bits_0 in Eb by done.
  - apply Z.eqb_eq. symmetry. apply Z.bits_inj'. intros j Hj. rewrite Z.land_spec, Z.bits_0.
    destruct (decide (i = j)) as [<-|]; [by rewrite E, andb_false_r|]. by rewrite Z.pow2_bits_false.
Qed.

Lemma bit64_spec i : 0 <= i < 64 -> bit64 i = Some (2 ^ i).
Proof.
  intros Hi. unfold bit64. destruct (Z.leb_spec 0 i); [|lia]. destruct (Z.ltb_spec i 64); [|lia]. cbn [andb].
  rewrite Z.shiftl_1_l, wrap_small; [done|]. split; [by apply Z.pow_nonneg|]. apply Z.pow_lt_mono_r; lia.
Qed.

Lemma lor_range a i : 0 <= a < 2 ^ 64 -> 0 <= i < 64 -> 0 <= Z.lor a (2 ^ i) < 2 ^ 64.
Proof.
  intros Ha Hi. split; [apply Z.lor_nonneg; split; [lia|by apply Z.pow_nonneg]|].
  assert (2 ^ i < 2 ^ 64) by (apply Z.pow_lt_mono_r; lia).
  assert (Z.lor a (2 ^ i) = Z.lor a (2 ^ i) mod 2 ^ 64) as ->.
  2:{ apply Z.mod_pos_bound. lia. }
  apply Z.bits_inj'. intros j Hj. destruct (decide (j < 64)); [by rewrite Z.mod_pow2_bits_low|].
  rewrite Z.mod_pow2_bits_high by lia. rewrite Z.lor_spec, testbit_high, Z.pow2_bits_false by lia. done.
Qed.

(** A late counter: below the largest, in the window. *)
Lemma count_late nn s k c :
  entry_is nn s k -> 0 < c <= UINT64_MAX -> c < largest k ->
  ∃ nn', check_counter nn (cstr s) c = Some (fst (count k c), nn') /\ entry_is nn' s (snd (count k c)).
Proof.
  intros Hk Hc Hlt. pose proof Hk as [Ht El Hr Hm Hl Hb]. unfold check_counter, count. rewrite El.
  destruct (Z.eqb_spec c 0) as [E0|_]; [lia|].
  destruct (Z.ltb_spec (largest k) c); [lia|]. destruct (Z.ltb_spec c (largest k)); [|lia]. cbn [andb].
  destruct (Z.leb_spec (c + 64) UINT64_MAX) as [Ho|Ho].
  2:{ assert (u64 (c + 64) < c) as Hw.
      { unfold wrap. rewrite <- (Z.mod_unique (c + 64) (2 ^ 64) 1 (c + 64 - 2 ^ 64)); lia. }
      destruct (Z.ltb_spec c (u64 (c + 64))); [lia|]. rewrite andb_false_r. cbn [andb mbind option_bind].
      destruct (Z.leb_spec c (largest k)); [|lia]. cbn [mbind option_bind]. exists nn. by split. }
  rewrite (u64_small (c + 64)) by lia. destruct (Z.ltb_spec c (c + 64)); [|lia]. cbn [andb].
  destruct (Z.leb_spec (largest k) (c + 64)) as [Hw|Hw]; cbn [andb mbind option_bind fst snd].
  2:{ destruct (Z.leb_spec c (largest k)); [|lia]. cbn [mbind option_bind]. exists nn. by split. }
  rewrite (u64_small (largest k - c - 1)), bit64_spec by lia. cbn [mbind option_bind].
  rewrite land_bit, (Hb c) by lia. destruct (bool_decide_reflect (c ∈ late k)) as [Hin|Hin]; cbn [negb].
  { cbn [mbind option_bind fst snd]. destruct (Z.leb_spec c (largest k)); [|lia]. cbn [mbind option_bind]. exists nn. by split. }
  cbn [mbind option_bind fst snd].
  eexists. split; [done|]. split; cbn [nonce nc nmask largest late]; [done|done|lia|..].
  - apply lor_range; lia.
  - intros d Hd. apply elem_of_union in Hd as [->%elem_of_singleton|]; [lia|auto].
  - intros d Hd Hd2. rewrite Z.lor_spec, Hb by done. destruct (decide (d = c)) as [->|Hne].
    + rewrite Z.pow2_bits_true by lia. rewrite orb_true_r. symmetry. apply bool_decide_eq_true. set_solver.
    + rewrite Z.pow2_bits_false by lia. rewrite orb_false_r. apply bool_decide_ext. set_solver.
Qed.

(** A new largest counter shifts the mask. *)
Lemma count_larger nn s k c :
  entry_is nn s k -> no_nul s -> largest k < c <= UINT64_MAX ->
  ∃ nn', check_counter nn (cstr s) c = Some (fst (count k c), nn') /\ entry_is nn' s (snd (count k c)).
Proof.
  intros [[r Ht] El Hr Hm Hl Hb] Hs Hc. unfold check_counter, count. rewrite El.
  destruct (Z.eqb_spec c 0) as [E0|_]; [lia|].
  destruct (Z.ltb_spec (largest k) c); [|lia]. destruct (Z.ltb_spec c (largest k)); [lia|]. cbn [andb mbind option_bind fst snd].
  destruct (Z.leb_spec c (largest k)); [lia|]. unfold strcmp_eq. rewrite Ht.
  assert (cstring (s ++ 0 :: r) = Some s) as -> by (unfold cstring; rewrite strlen_no_nul by done; cbn [mbind option_bind]; by rewrite take_app_length).
  rewrite cstring_cstr by done. cbn [mbind option_bind]. rewrite bool_decide_eq_true_2 by done. cbn [negb].
  rewrite u64_small by lia. eexists. split; [done|]. split; cbn [nonce nc nmask largest late]; [by exists r|done|lia|..].
  - destruct (Z.ltb_spec (c - largest k) 64); [|lia]. apply wrap_range. lia.
  - intros d Hd. specialize (Hl d Hd). lia.
  - intros d Hd Hd2. destruct (Z.ltb_spec (c - largest k) 64) as [Hj|Hj].
    + unfold wrap. rewrite Z.mod_pow2_bits_low by lia. rewrite Z.shiftl_spec by lia.
      destruct (decide (d < largest k)).
      * rewrite <- Hb by lia. f_equal. lia.
      * rewrite Z.testbit_neg_r by lia. symmetry. apply bool_decide_eq_false. intros Hin. specialize (Hl d Hin). lia.
    + rewrite Z.bits_0. symmetry. apply bool_decide_eq_false. intros Hin. specialize (Hl d Hin). lia.
Qed.

Lemma count_entry nn s k c :
  entry_is nn s k -> no_nul s -> 0 < c <= UINT64_MAX ->
  ∃ nn', check_counter nn (cstr s) c = Some (fst (count k c), nn') /\ entry_is nn' s (snd (count k c)).
Proof.
  intros Hk Hs Hc. destruct (Z.lt_trichotomy c (largest k)) as [Hlt|[->|Hgt]].
  - by apply count_late.
  - exists nn. destruct (Z.eqb_spec (largest k) 0) as [E0|E0]; [lia|]. apply Z.eqb_neq in E0. split; [|unfold count; rewrite E0, Z.ltb_irrefl; done].
    unfold check_counter, count. rewrite E0, (is_largest _ _ _ Hk), Z.ltb_irrefl. cbn [andb mbind option_bind fst].
    by rewrite Z.leb_refl.
  - apply count_larger; [done|done|lia].
Qed.

Lemma check_counter_text nn s c b nn' : check_counter nn s c = Some (b, nn') -> nonce nn' = nonce nn.
Proof.
  unfold check_counter. intros E. apply bind_Some in E as (l & _ & E). destruct (l : bool).
  - apply bind_Some in E as (? & _ & E). by injection E as _ <-.
  - apply bind_Some in E as (st & _ & E). destruct (st : bool); by injection E as _ <-.
Qed.

(** ** The table *)

(** The entry of a nonce. *)
Definition slot (nnc : list (option MHD_NonceNc)) (s : bytes) : nat :=
  match nonce_hash (cstr s) 0 with Some h => Z.to_nat (h mod Z.of_nat (length nnc)) | None => 0%nat end.

(** What a nonce needs to be registered: it fits an entry, and entries that
    were written have their length. *)
Record table_ok (nnc : list (option MHD_NonceNc)) : Prop := {
  table_some : nnc ≠ [];
  table_size : Z.of_nat (length nnc) <= UINT32_MAX;
  table_entries : forall i nn, nnc !! i = Some (Some nn) -> length (nonce nn) = MAX_NONCE_LENGTH
}.

Lemma nonce_hash_total s h : no_nul s -> ∃ h', nonce_hash (cstr s) h = Some h'.
Proof.
  revert h. induction s as [|c s IH]; intros h Hs; cbn [cstr app nonce_hash]; [rewrite Z.eqb_refl; eauto|].
  apply no_nul_cons in Hs as [Hc Hs]. destruct (Z.eqb_spec c 0); [done|]. by apply IH.
Qed.

Lemma slot_lookup nnc s : table_ok nnc -> no_nul s ->
  ∃ h e, nonce_hash (cstr s) 0 = Some h /\ Z.to_nat (h mod Z.of_nat (length nnc)) = slot nnc s /\ nnc !! slot nnc s = Some e.
Proof.
  intros Ht Hs. destruct (nonce_hash_total s 0 Hs) as [h Eh]. unfold slot. rewrite Eh.
  pose proof (table_some _ Ht). assert (0 < length nnc)%nat by (destruct nnc; cbn [length]; [done|lia]).
  pose proof (Z.mod_pos_bound h (Z.of_nat (length nnc)) ltac:(lia)).
  destruct (lookup_lt_is_Some_2 nnc (Z.to_nat (h mod Z.of_nat (length nnc)))) as [e He]; [lia|]. eauto.
Qed.

(** The entry of nonce [s] is in state [k]. *)
Definition registered (nnc : list (option MHD_NonceNc)) (s : bytes) (k : counters) : Prop :=
  table_ok nnc /\ ∃ nn, nnc !! slot nnc s = Some (Some nn) /\ entry_is nn s k.

Lemma slot_insert nnc i e s : slot (<[i := e]> nnc) s = slot nnc s.
Proof. unfold slot. by rewrite length_insert. Qed.

Lemma table_insert nnc i nn : table_ok nnc -> length (nonce nn) = MAX_NONCE_LENGTH -> table_ok (<[i := Some nn]> nnc).
Proof.
  intros [H1 H2 H3] Hl. split; [by destruct nnc, i|by rewrite length_insert|].
  intros j mm. destruct (decide (i = j)) as [<-|Hne].
  - intros E. pose proof (lookup_lt_Some _ _ _ E) as Hj. rewrite length_insert in Hj.
    rewrite list_lookup_insert_eq in E by done. by injection E as <-.
  - rewrite list_lookup_insert_ne by done. apply H3.
Qed.

Lemma register_ok nnc s :
  table_ok nnc -> no_nul s -> (length s < MAX_NONCE_LENGTH)%nat ->
  ∃ nnc', check_nonce_nc nnc (cstr s) 0 = Some (true, nnc') /\ registered nnc' s (mkCounters 0 ∅)
    /\ length nnc' = length nnc.
Proof.
  intros Ht Hs Hl. destruct (slot_lookup nnc s Ht Hs) as (h & e & Eh & Ei & Ee). unfold check_nonce_nc.
  rewrite strlen_cstr by done. cbn [mbind option_bind].
  destruct (Nat.ltb_spec MAX_NONCE_LENGTH (length s + 1)); [lia|].
  destruct (Z.eqb_spec 0 (Z.of_nat (length nnc))) as [E0|_]; [destruct nnc; [by destruct (table_some _ Ht)|done]|].
  rewrite Eh. cbn [mbind option_bind]. rewrite Ei, Ee. cbn [mbind option_bind Z.eqb].
  replace (Z.of_nat (length s + 1)) with (Z.of_nat (length (cstr s))) by (unfold cstr; rewrite length_app; done).
  pose proof (mem_read_app (cstr s) []) as Er. rewrite app_nil_r in Er. rewrite Er. cbn [mbind option_bind].
  set (old := match e with Some nn => nonce nn | None => _ end).
  assert (length old = MAX_NONCE_LENGTH) as Ho.
  { subst old. destruct e as [nn|]; [by apply (table_entries _ Ht (slot nnc s))|by rewrite length_replicate]. }
  rewrite <- (take_drop (length (cstr s)) old).
  rewrite (mem_write_mid [] (take (length (cstr s)) old) (drop (length (cstr s)) old) (cstr s));
    [|done|unfold cstr; rewrite length_take, length_app; cbn [length]; lia].
  cbn [mbind option_bind app]. eexists. split; [done|]. split; [|by rewrite length_insert].
  split.
  - apply table_insert; [done|]. cbn [nonce]. rewrite length_app, length_drop. unfold cstr. rewrite length_app. cbn [length]. lia.
  - rewrite slot_insert. eexists. split; [by apply list_lookup_insert_eq, (lookup_lt_Some _ _ _ Ee)|].
    split; cbn [nc nmask nonce largest late]; try done.
    + eexists. unfold cstr. by rewrite <- app_assoc.
    + intros c Hc _. rewrite Z.bits_0. symmetry. by apply bool_decide_eq_false.
Qed.

Lemma check_ok nnc s k c :
  registered nnc s k -> no_nul s -> (length s < MAX_NONCE_LENGTH)%nat -> 0 <= c <= UINT64_MAX ->
  ∃ nnc', check_nonce_nc nnc (cstr s) c = Some (fst (count k c), nnc') /\ registered nnc' s (snd (count k c)).
Proof.
  intros [Ht (nn & Enn & Hnn)] Hs Hl Hc. destruct (decide (c = 0)) as [->|H0].
  { destruct (register_ok nnc s Ht Hs Hl) as (nnc' & E & Hk & _). by exists nnc'. }
  destruct (slot_lookup nnc s Ht Hs) as (h & e & Eh & Ei & Ee). simplify_eq.
  unfold check_nonce_nc. rewrite strlen_cstr by done. cbn [mbind option_bind].
  destruct (Nat.ltb_spec MAX_NONCE_LENGTH (length s + 1)); [lia|].
  destruct (Z.eqb_spec 0 (Z.of_nat (length nnc))) as [E0|_]; [destruct nnc; [by destruct (table_some _ Ht)|done]|].
  rewrite Eh. cbn [mbind option_bind]. rewrite Ei, Enn. cbn [mbind option_bind].
  destruct (Z.eqb_spec 0 c); [lia|].
  destruct (count_entry nn s k c Hnn Hs ltac:(lia)) as (nn' & E & Hnn'). rewrite E. cbn [mbind option_bind].
  eexists. split; [done|]. split.
  - apply table_insert; [done|]. rewrite (check_counter_text _ _ _ _ _ E). by apply (table_entries _ Ht (slot nnc s)).
  - rewrite slot_insert. exists nn'. split; [by apply list_lookup_insert_eq, (lookup_lt_Some _ _ _ Enn)|done].
Qed.

Lemma checks_ok nnc s k cs :
  registered nnc s k -> no_nul s -> (length s < MAX_NONCE_LENGTH)%nat -> Forall (λ c, 0 <= c <= UINT64_MAX) cs ->
  ∃ nnc', check_nonces nnc (cstr s) cs = Some (fst (counts k cs), nnc') /\ registered nnc' s (snd (counts k cs)).
Proof.
  intros Hk Hs Hl Hcs. revert nnc k Hk. induction Hcs as [|c cs Hc Hcs IH]; intros nnc k Hk; [by exists nnc|].
  cbn [check_nonces counts]. destruct (check_ok nnc s k c Hk Hs Hl Hc) as (nnc1 & E1 & Hk1). rewrite E1.
  cbn [mbind option_bind]. destruct (IH nnc1 _ Hk1) as (nnc2 & E2 & Hk2). rewrite E2. cbn [mbind option_bind].
  destruct (count k c) as [b k1]. cbn [fst snd] in *. destruct (counts k1 cs) as [bs k2]. by exists nnc2.
Qed.

(** ** The specification *)

Definition times (c : Z) (l : list Z) : nat := length (filter (λ d, d = c) l).

(** How often a counter can still be accepted. *)
Definition allowance (k : counters) (c : Z) : nat :=
  ((if (largest k <? c)%Z then 1 else 0) + (if bool_decide (c ∈ late k) then 0 else 1))%nat.

Lemma times_app c l l' : times c (l ++ l') = (times c l + times c l')%nat.
Proof. unfold times. by rewrite filter_app, length_app. Qed.

Lemma allowance_le k c : (allowance k c <= 2)%nat.
Proof. unfold allowance. destruct (_ <? _), (bool_decide _); lia. Qed.

Lemma count_allowance k c d : d ≠ 0 ->
  (times d (if fst (count k c) then [c] else []) + allowance (snd (count k c)) d <= allowance k d + 2 * times 0 [c])%nat.
Proof.
  intros Hd. unfold count. destruct (Z.eqb_spec c 0) as [->|H0]; cbn [fst snd].
  { pose proof (allowance_le (mkCounters 0 ∅) d). unfold times at 1 2. rewrite !filter_cons, !filter_nil.
    rewrite decide_False by done. rewrite decide_True by done. cbn [length]. lia. }
  unfold allowance, times. destruct (Z.ltb_spec (largest k) c) as [Hlt|Hge]; cbn [fst snd largest late].
  - rewrite !filter_cons, !filter_nil. destruct (decide (c = d)) as [->|]; cbn [length].
    + rewrite Z.ltb_irrefl. destruct (Z.ltb_spec (largest k) d); lia.
    + destruct (Z.ltb_spec c d), (Z.ltb_spec (largest k) d); lia.
  - destruct (_ && _) eqn:E; cbn [fst snd largest late length]; [|rewrite filter_nil; cbn [length]; lia].
    apply andb_true_iff in E as [_ E]. apply negb_true_iff, bool_decide_eq_false in E.
    rewrite !filter_cons, !filter_nil. destruct (decide (c = d)) as [->|]; cbn [length].
    + rewrite (bool_decide_eq_true_2 (d ∈ {[d]} ∪ late k)), (bool_decide_eq_false_2 (d ∈ late k)) by set_solver. lia.
    + rewrite (bool_decide_ext (d ∈ {[c]} ∪ late k) (d ∈ late k)) by set_solver. lia.
Qed.

Lemma counts_allowance k cs c : c ≠ 0 ->
  (times c (accepted cs (fst (counts k cs))) <= allowance k c + 2 * times 0 cs)%nat.
Proof.
  intros Hc. revert k. induction cs as [|d cs IH]; intros k; [unfold times; cbn; lia|].
  pose proof (count_allowance k d c Hc) as H1. cbn [counts]. destruct (count k d) as [b k1]. cbn [fst snd] in H1.
  specialize (IH k1). destruct (counts k1 cs) as [bs k2]. cbn [fst] in *. unfold accepted in *.
  cbn [zip_with concat]. change (d :: cs) with ([d] ++ cs). rewrite !times_app. lia.
Qed.

Lemma counts_increasing k cs :
  StronglySorted Z.lt cs -> Forall (λ c, largest k < c \/ c = 0) cs -> 0 <= largest k -> fst (counts k cs) = replicate (length cs) true.
Proof.
  intros Hs. revert k. induction Hs as [|c cs Hs IH Hc]; intros k Hk H0; [done|]. apply Forall_cons in Hk as [Hk _].
  cbn [counts]. unfold count. destruct (Z.eqb_spec c 0) as [->|].
  - specialize (IH (mkCounters 0 ∅)). destruct (counts _ cs) as [bs k2]. cbn [fst length replicate largest] in *. rewrite IH; [done| |done].
    eapply Forall_impl; [exact Hc|]. cbn. auto.
  - destruct Hk as [Hk|]; [|done]. destruct (Z.ltb_spec (largest k) c); [|lia].
    specialize (IH (mkCounters c (late k))). destruct (counts _ cs) as [bs k2]. cbn [fst length replicate largest] in *. rewrite IH; [done| |lia].
    eapply Forall_impl; [exact Hc|]. cbn. auto.
Qed.

(** ** Theorems *)

(** C37: The counters of a nonce are checked as specified: after the server
    has registered a nonce, the answers to any sequence of requests with it,
    the counter zero included (and with none of another nonce in the same place
    in between), are those of the specification with the largest counter and
    the set of late ones, although the table keeps only a mask of 64 bits.
    Counters that only grow are all accepted.  A counter other than zero is
    accepted at most twice, and at most twice more for every request with the
    counter zero, which is always accepted and registers the nonce again. *)
Theorem nonce_counters_refine nnc s cs :
  table_ok nnc -> no_nul s -> (length s < MAX_NONCE_LENGTH)%nat -> Forall (λ c, 0 <= c <= UINT64_MAX) cs ->
  let bs := fst (counts (mkCounters 0 ∅) cs) in
  ∃ nnc0 nnc1, check_nonce_nc nnc (cstr s) 0 = Some (true, nnc0) /\ check_nonces nnc0 (cstr s) cs = Some (bs, nnc1)
    /\ (StronglySorted Z.lt cs -> bs = replicate (length cs) true)
    /\ forall c, c ≠ 0 -> (times c (accepted cs bs) <= 2 * (1 + times 0 cs))%nat.
Proof.
  intros Ht Hs Hl Hcs bs. destruct (register_ok nnc s Ht Hs Hl) as (nnc0 & E0 & Hk & _).
  destruct (checks_ok nnc0 s _ cs Hk Hs Hl Hcs) as (nnc1 & E1 & _). exists nnc0, nnc1. split; [done|]. split; [done|]. split.
  - intros Hsort. apply counts_increasing; [done| |done]. eapply Forall_impl; [exact Hcs|]. cbn [largest]. lia.
  - intros c Hc. etransitivity; [by apply counts_allowance|]. pose proof (allowance_le (mkCounters 0 ∅) c). lia.
Qed.

Definition demo_table : list (option MHD_NonceNc) := replicate 4 None.

Lemma demo_table_ok : table_ok demo_table.
Proof.
  split; [done|cbn; lia|]. intros i nn E. by apply lookup_replicate in E as [? _].
Qed.

Lemma nonce_counters_refine_witness :
  ∃ nnc0 nnc1, check_nonce_nc demo_table (cstr (str "00ff")) 0 = Some (true, nnc0)
    /\ check_nonces nnc0 (cstr (str "00ff")) [1; 3; 2; 2; 70; 5; 6; 0; 2] = Some ([true; true; true; false; true; false; true; true; true], nnc1).
Proof.
  destruct (nonce_counters_refine demo_table (str "00ff") [1; 3; 2; 2; 70; 5; 6; 0; 2] demo_table_ok) as (nnc0 & nnc1 & E0 & E1 & _).
  - apply (bool_decide_unpack _). vm_compute. exact I.
  - cbn [str length]. lia.
  - repeat constructor; lia.
  - exists nnc0, nnc1. split; [exact E0|]. rewrite E1. vm_compute. reflexivity.
Defined.

(** A request can be replayed: when the next counter arrives, the mask is
    shifted but the bit of the counter that was the largest is not set, so
    that this counter is accepted once more. *)
Theorem counter_is_replayed :
  fst <$> check_nonces demo_table (cstr (str "00ff")) [0; 1; 2; 1] = Some [true; true; true; true].
Proof. vm_compute. reflexivity. Qed.

(** A request with the counter zero registers the nonce again, so that all
    requests with it can be replayed. *)
Theorem zero_counter_registers_again :
  fst <$> check_nonces demo_table (cstr (str "00ff")) [0; 1; 2; 3; 0; 1; 2; 3] = Some (replicate 8 true).
Proof. vm_compute. reflexivity. Qed.

(** A late counter is accepted without a look at the nonce: a request whose
    nonce was displaced by another one in the same place is accepted as long
    as its counter is below those of the other nonce. *)
Theorem late_counter_of_a_displaced_nonce :
  let a := cstr (str "00ff") in let b := cstr (str "00fb") in
  slot demo_table (str "00ff") = slot demo_table (str "00fb")
  /\ (('(r1, t) ← check_nonces demo_table a [0; 1]; '(r2, t) ← check_nonces t b [0; 7]; '(r3, _) ← check_nonces t a [1];
       Some (r1 ++ r2 ++ r3)) = Some [true; true; true; true; true]).
Proof. split; vm_compute; reflexivity. Qed.

(** The table is not initialised: a nonce of the server, for instance one of
    an earlier run with the same secret, reads an entry nobody wrote. *)
Theorem table_is_not_initialised : check_nonce_nc demo_table (cstr (str "00ff")) 1 = None.
Proof. vm_compute. reflexivity. Qed.
