(* ===== verification/AuthParams.v ===== *)
(** * The parameters of the authorization header (digestauth.c)

    [lookup_sub_value] on a list of parameters, quoted or not, separated by
    commas and blanks: the first parameter with the wanted name is found and
    its value copied, cut off at the size of the destination. *)

From S2P Require Import Prelude MhdStr Headers Response DigestAuth.

(** ** The text of a list of parameters *)

(** A parameter has a name, a value, whether it is quoted, the number of
    blanks behind its equals sign, and those behind its comma. *)
Record param := mkParam { p_name : bytes; p_value : bytes; p_quoted : bool; p_blanks : nat; p_gap : nat }.

Definition value_text (p : param) : bytes :=
  replicate (p_blanks p) 32 ++ (if p_quoted p then 34 :: p_value p ++ [34] else p_value p).

Definition param_text (p : param) : bytes := p_name p ++ 61 :: value_text p.

Fixpoint params_text (ps : list param) : bytes :=
  match ps with
  | [] => []
  | [p] => param_text p
  | p :: ps' => param_text p ++ 44 :: replicate (p_gap p) 32 ++ params_text ps'
  end.

(** Names have no equals sign and begin with another character than a blank;
    a quoted value has no quotation mark, another one no comma, and it begins
    neither with a blank nor with a quotation mark. *)
Definition param_ok (p : param) : Prop :=
  no_nul (p_name p) /\ no_nul (p_value p) /\ p_name p ≠ [] /\ head (p_name p) ≠ Some 32 /\ 61 ∉ p_name p
  /\ if p_quoted p then 34 ∉ p_value p
     else 44 ∉ p_value p /\ head (p_value p) ≠ Some 32 /\ head (p_value p) ≠ Some 34.

#[export] Instance param_ok_dec p : Decision (param_ok p).
Proof. unfold param_ok, no_nul. destruct (p_quoted p); apply _. Defined.

(** The value of the first parameter with a name. *)
Fixpoint param_value (ps : list param) (name : bytes) : option bytes :=
  match ps with
  | [] => None
  | p :: ps' => if decide (caseless_eq (p_name p) name) then Some (p_value p) else param_value ps' name
  end.

(** What is left of a value in an array of [size] bytes. *)
Definition truncated (size : Z) (v : bytes) : bytes := take (Z.to_nat (size - 1)) v.

(** ** Steps of the search *)

Lemma skip_spaces_run n s : head s ≠ Some 32 -> s ≠ [] -> skip_spaces (replicate n 32 ++ s) = Some n.
Proof.
  intros Hh Hs. induction n as [|n IH]; cbn [replicate app skip_spaces].
  - destruct s as [|c s]; [done|]. cbn [skip_spaces]. cbn [head] in Hh. destruct (Z.eqb_spec c 32); [congruence|done].
  - by rewrite IH.
Qed.

Lemma take_min_length (n : nat) (v : bytes) : take (n `min` length v) v = take n v.
Proof. destruct (decide (n <= length v)%nat); [by rewrite Nat.min_l|]. rewrite Nat.min_r by lia. by rewrite !take_ge by lia. Qed.

Lemma write_value (dest v : bytes) :
  (length v < length dest)%nat ->
  ∃ d, mem_write dest 0 v = Some d /\ mem_write d (Z.of_nat (length v)) [0] = Some (v ++ 0 :: drop (S (length v)) dest).
Proof.
  intros Hl. rewrite <- (take_drop (length v) dest).
  rewrite (mem_write_mid [] (take (length v) dest) (drop (length v) dest) v); [|done|rewrite length_take; lia].
  eexists. split; [done|]. cbn [app].
  destruct (drop (length v) dest) as [|x r] eqn:Er.
  { apply (f_equal length) in Er. rewrite length_drop in Er. cbn [length] in Er. lia. }
  rewrite (mem_write_mid v [x] r [0]) by done. f_equal. cbn [app]. do 2 f_equal.
  replace (S (length v)) with (length v + 1)%nat by lia. rewrite <- drop_drop.
  rewrite drop_app_length' by (rewrite length_take; lia). done.
Qed.

(** What is copied for a value: the end is known, or the value is the rest of
    the string. *)
Lemma copy_bounded dest size (a v b : bytes) q2 :
  0 < size <= Z.of_nat (length dest) -> q2 = (length a + length v)%nat ->
  copy_value dest size (a ++ v ++ b) (length a) (Some q2)
  = Some (Z.of_nat (length (truncated size v)),
          truncated size v ++ 0 :: drop (S (length (truncated size v))) dest).
Proof.
  intros Hs ->. unfold copy_value. replace (length a + length v - length a)%nat with (length v) by lia.
  set (n := (if size >? Z.of_nat (length v) + 1 then Z.of_nat (length v) + 1 else size) - 1).
  assert (n = Z.of_nat (length (truncated size v))) as En.
  { unfold truncated. rewrite length_take. subst n. destruct (Z.gtb_spec size (Z.of_nat (length v) + 1)); lia. }
  assert (mem_read (a ++ v ++ b) (Z.of_nat (length a)) n = Some (truncated size v)) as ->.
  { rewrite En. unfold mem_read. rewrite (proj2 (in_object_true _ _ _)).
    2:{ rewrite !length_app. unfold truncated. rewrite length_take. lia. }
    rewrite !Nat2Z.id, drop_app_length. unfold truncated. rewrite length_take.
    rewrite take_app_le by lia. by rewrite take_min_length. }
  cbn [mbind option_bind].
  destruct (write_value dest (truncated size v)) as (d & E1 & E2).
  { unfold truncated. rewrite length_take. lia. }
  rewrite E1. cbn [mbind option_bind]. rewrite En, E2. done.
Qed.

Lemma copy_rest dest size (a v r : bytes) :
  0 < size <= Z.of_nat (length dest) -> no_nul v ->
  copy_value dest size (a ++ v ++ 0 :: r) (length a) None
  = Some (Z.of_nat (length (truncated size v)),
          truncated size v ++ 0 :: drop (S (length (truncated size v))) dest).
Proof.
  intros Hs Hv. unfold copy_value, strncpy. rewrite drop_app_length, strlen_no_nul by done. cbn [mbind option_bind].
  set (n := (if size >? Z.of_nat (length v) + 1 then Z.of_nat (length v) + 1 else size) - 1).
  assert (n = Z.of_nat (length (truncated size v))) as En.
  { unfold truncated. rewrite length_take. subst n. destruct (Z.gtb_spec size (Z.of_nat (length v) + 1)); lia. }
  assert (cstring (v ++ 0 :: r) = Some v) as ->.
  { unfold cstring. rewrite strlen_no_nul by done. cbn [mbind option_bind]. by rewrite take_app_length. }
  cbn [mbind option_bind].
  assert (take (Z.to_nat n) v ++ replicate (Z.to_nat n - length v) 0 = truncated size v) as ->.
  { rewrite En, Nat2Z.id. unfold truncated. rewrite length_take.
    replace (Z.to_nat (size - 1) `min` length v - length v)%nat with 0%nat by lia. cbn [replicate]. rewrite app_nil_r.
    by rewrite take_min_length. }
  destruct (write_value dest (truncated size v)) as (d & E1 & E2).
  { unfold truncated. rewrite length_take. lia. }
  rewrite E1. cbn [mbind option_bind]. rewrite En, E2. done.
Qed.

(** What follows a parameter. *)
Definition rest_text (gap : nat) (ps : list param) (r : bytes) : bytes :=
  match ps with [] => 0 :: r | _ => 44 :: replicate gap 32 ++ params_text ps ++ 0 :: r end.

Lemma params_text_cons p ps r : params_text (p :: ps) ++ 0 :: r = param_text p ++ rest_text (p_gap p) ps r.
Proof. destruct ps as [|q ps]; [done|]. cbn [params_text rest_text]. by rewrite <- !app_assoc, <- app_comm_cons, <- !app_assoc. Qed.

(** The parameter up to its value, and what closes the value. *)
Definition opening (p : param) : bytes :=
  p_name p ++ 61 :: replicate (p_blanks p) 32 ++ (if p_quoted p then [34] else []).

Definition closing (p : param) : bytes := if p_quoted p then [34] else [].

Lemma param_text_split p : param_text p = opening p ++ p_value p ++ closing p.
Proof.
  unfold param_text, value_text, opening, closing. rewrite <- app_assoc. cbn [app]. do 2 f_equal. rewrite <- app_assoc. f_equal.
  destruct (p_quoted p); [done|]. by rewrite app_nil_r.
Qed.

Lemma params_no_nul ps : Forall param_ok ps -> no_nul (params_text ps).
Proof.
  assert (forall p, param_ok p -> no_nul (param_text p)) as Hone.
  { intros p (Hn & Hv & _). unfold param_text, value_text. apply no_nul_app. split; [done|]. apply no_nul_cons. split; [done|].
    apply no_nul_app. split; [apply Forall_replicate; lia|]. destruct (p_quoted p); [|done].
    apply no_nul_cons. split; [done|]. apply no_nul_app. split; [done|]. by repeat constructor. }
  intros H. induction H as [|p ps Hp Hps IH]; [constructor|]. destruct ps as [|q ps]; [by apply Hone|].
  cbn [params_text]. apply no_nul_app. split; [by apply Hone|]. apply no_nul_cons. split; [done|].
  apply no_nul_app. split; [apply Forall_replicate; lia|done].
Qed.

(** The end of the value, and where the search for the next comma begins. *)
Definition param_value_end (p : param) (ps : list param) (q1 : nat) : option nat :=
  match p_quoted p, ps with false, [] => None | _, _ => Some (q1 + length (p_value p))%nat end.

Definition search_from (p : param) (ps : list param) (q1 : nat) : option nat :=
  if p_quoted p then Some (S (q1 + length (p_value p))) else param_value_end p ps q1.

Lemma deref_at_middle (a : bytes) c b : deref_at (a ++ c :: b) (length a) = Some c.
Proof. unfold deref_at. by apply list_lookup_middle. Qed.

Lemma value_bounds_ok a p ps r :
  param_ok p -> let q1 := length (a ++ opening p) in
  value_bounds (a ++ param_text p ++ rest_text (p_gap p) ps r) (length a + length (p_name p))
  = Some (Some (q1, param_value_end p ps q1, search_from p ps q1)).
Proof.
  intros (Hn & Hv & Hne & Hh & Heq & Hq) q1. unfold value_bounds.
  set (T := rest_text (p_gap p) ps r).
  assert (drop (S (length a + length (p_name p))) (a ++ param_text p ++ T) = value_text p ++ T) as ->.
  { unfold param_text. replace (S (length a + length (p_name p))) with (length (a ++ p_name p) + 1)%nat by (rewrite length_app; lia).
    rewrite <- app_assoc, <- app_comm_cons, app_assoc, <- drop_drop, drop_app_length. done. }
  assert (skip_spaces (value_text p ++ T) = Some (p_blanks p)) as ->.
  { unfold value_text. rewrite <- app_assoc. apply skip_spaces_run.
    - destruct (p_quoted p); [done|]. destruct (p_value p) as [|c v]; [|by destruct Hq as (_ & ? & _)].
      subst T. by destruct ps.
    - destruct (p_quoted p); [done|]. destruct (p_value p); [|done]. subst T. by destruct ps. }
  cbn [mbind option_bind].
  set (A := a ++ p_name p ++ 61 :: replicate (p_blanks p) 32).
  assert (S (length a + length (p_name p)) + p_blanks p = length A)%nat as EA.
  { subst A. rewrite !length_app. cbn [length]. rewrite length_replicate. lia. }
  set (V := if p_quoted p then 34 :: p_value p ++ [34] else p_value p).
  assert (a ++ param_text p ++ T = A ++ V ++ T) as ET.
  { unfold param_text, value_text. subst A V. by rewrite <- !app_assoc, <- !app_comm_cons, <- !app_assoc. }
  rewrite EA, ET. unfold search_from, param_value_end. subst q1. unfold opening.
  destruct (p_quoted p) eqn:Eq; subst V.
  - rewrite <- app_comm_cons, deref_at_middle. cbn [mbind option_bind negb]. replace (34 =? 34) with true by done. cbn [negb].
    replace (S (length A)) with (length (A ++ [34])) by (rewrite length_app; cbn [length]; lia).
    assert (A ++ 34 :: (p_value p ++ [34]) ++ T = (A ++ [34]) ++ p_value p ++ 34 :: T) as ->
      by (rewrite <- !app_assoc; done).
    rewrite drop_app_length, strchr_present by done. cbn [mbind option_bind].
    assert (length (A ++ [34]) = length (a ++ p_name p ++ 61 :: replicate (p_blanks p) 32 ++ [34])) as ->.
    { subst A. rewrite !length_app. cbn [length]. rewrite !length_app. cbn [length]. lia. }
    done.
  - destruct Hq as (Hc & Hsp & Hqu).
    assert (∃ c x, p_value p ++ T = c :: x /\ c ≠ 34) as (c & x & Ec & Hc34).
    { destruct (p_value p) as [|c v]; [|exists c, (v ++ T); split; [done|cbn [head] in Hqu; congruence]].
      subst T. destruct ps; cbn [rest_text app]; eauto. }
    rewrite Ec, deref_at_middle. cbn [mbind option_bind]. destruct (Z.eqb_spec c 34); [done|]. cbn [negb].
    rewrite drop_app_length, <- Ec. rewrite app_nil_r. fold A.
    subst T. destruct ps as [|p' ps]; cbn [rest_text].
    + rewrite strchr_absent by done. done.
    + rewrite strchr_present by done. done.
Qed.

(** ** The search *)

Definition found (dest : bytes) (size : Z) (o : option bytes) : Z * bytes :=
  match o with
  | None => (0, dest)
  | Some v => (Z.of_nat (length (truncated size v)), truncated size v ++ 0 :: drop (S (length (truncated size v))) dest)
  end.

(** The comparison of the name and of the position of the equals sign. *)
Lemma name_test p x r key keylen :
  param_ok p -> no_nul x -> no_nul key -> keylen = length key ->
  ∃ same, MHD_str_equal_caseless_n_ ((p_name p ++ x) ++ 0 :: r) (cstr key) keylen = Some same
    /\ (same && (length (p_name p) =? keylen)%nat = bool_decide (caseless_eq (p_name p) key)).
Proof.
  intros (Hn & _) Hx Hk ->. unfold cstr. rewrite str_equal_caseless_n_spec by (done || by apply no_nul_app).
  eexists. split; [done|]. rewrite (take_ge key) by lia.
  destruct (Nat.eqb_spec (length (p_name p)) (length key)) as [E|E].
  - rewrite andb_true_r, <- E, take_app_length. done.
  - rewrite andb_false_r. symmetry. apply bool_decide_eq_false. intros Hc. by apply caseless_eq_length in Hc.
Qed.

Lemma copy_value_ok dest size a p ps r :
  0 < size <= Z.of_nat (length dest) -> param_ok p ->
  let q1 := length (a ++ opening p) in
  copy_value dest size (a ++ param_text p ++ rest_text (p_gap p) ps r) q1 (param_value_end p ps q1)
  = Some (found dest size (Some (p_value p))).
Proof.
  intros Hs (_ & Hv & _) q1. rewrite param_text_split.
  assert (a ++ (opening p ++ p_value p ++ closing p) ++ rest_text (p_gap p) ps r
    = (a ++ opening p) ++ p_value p ++ closing p ++ rest_text (p_gap p) ps r) as -> by (by rewrite <- !app_assoc).
  unfold param_value_end, closing. destruct (p_quoted p); [by apply copy_bounded|].
  destruct ps as [|p' ps]; [by apply copy_rest|by apply copy_bounded].
Qed.

(** The comma behind a parameter is found, or its end. *)
Lemma next_comma a p ps r q :
  search_from p ps (length (a ++ opening p)) = Some q ->
  ∃ k, drop q (a ++ param_text p ++ rest_text (p_gap p) ps r) = rest_text (p_gap p) ps r
    /\ q = (length a + length (param_text p))%nat
    /\ strchr (rest_text (p_gap p) ps r) 44 = Some k /\ k = match ps with [] => None | _ => Some 0%nat end.
Proof.
  intros Eq. assert (q = (length a + length (param_text p))%nat) as ->.
  { revert Eq. unfold search_from, param_value_end. rewrite param_text_split, !length_app. unfold closing.
    destruct (p_quoted p); cbn [length]; [|destruct ps]; intros [= <-]; lia. }
  eexists. split; [by rewrite app_assoc, <- length_app, drop_app_length|]. split; [done|]. split; [|done]. by destruct ps.
Qed.

Lemma lookup_loop_ok fuel dest size a ps r key keylen :
  0 < size <= Z.of_nat (length dest) -> Forall param_ok ps -> no_nul key -> keylen = length key ->
  (length ps <= fuel)%nat ->
  lookup_sub_loop fuel dest size (a ++ params_text ps ++ 0 :: r) (cstr key) keylen (length a)
  = Some (found dest size (param_value ps key)).
Proof.
  intros Hs Hps Hk El. revert fuel a. induction Hps as [|p ps Hp Hps IH]; intros fuel a Hf.
  { cbn [params_text app]. destruct fuel; cbn [lookup_sub_loop]; rewrite deref_at_middle; done. }
  destruct fuel as [|fuel]; [cbn [length] in Hf; lia|]. cbn [length] in Hf.
  pose proof (params_no_nul (p :: ps) ltac:(by constructor)) as Hnn.
  cbn [lookup_sub_loop]. pose proof Hp as (Hn & Hv & Hne & Hh & Heq & Hq).
  set (data := a ++ params_text (p :: ps) ++ 0 :: r).
  assert (data = a ++ param_text p ++ rest_text (p_gap p) ps r) as Ed by (subst data; by rewrite params_text_cons).
  assert (deref_at data (length a) = head (p_name p)) as ->.
  { rewrite Ed. unfold param_text. destruct (p_name p) as [|c n]; [done|]. cbn [app]. apply deref_at_middle. }
  destruct (p_name p) as [|c n] eqn:En; [done|]. cbn [head mbind option_bind]. rewrite <- En in *.
  assert (c ≠ 0) as Hc0 by (rewrite En in Hn; by apply no_nul_cons in Hn as [? _]).
  destruct (Z.eqb_spec c 0); [done|].
  assert (drop (length a) data = p_name p ++ 61 :: value_text p ++ rest_text (p_gap p) ps r) as Edrop.
  { rewrite Ed, drop_app_length. unfold param_text. by rewrite <- app_assoc. }
  rewrite Edrop, strchr_present by done. cbn [mbind option_bind].
  rewrite Ed, value_bounds_ok by done. cbn [mbind option_bind].
  assert (∃ x, p_name p ++ 61 :: value_text p ++ rest_text (p_gap p) ps r = (p_name p ++ x) ++ 0 :: r /\ no_nul x) as (x & Ex & Hx).
  { assert (∃ x, params_text (p :: ps) = p_name p ++ x) as [x Ex].
    { destruct ps as [|p' ps]; cbn [params_text]; unfold param_text; eexists; [done|]. by rewrite <- app_assoc. }
    exists x. rewrite <- Ex. split; [|rewrite Ex in Hnn; by apply no_nul_app in Hnn as [_ ?]].
    rewrite params_text_cons. unfold param_text. by rewrite <- app_assoc, <- app_comm_cons. }
  rewrite Ex. destruct (name_test p x r key keylen Hp Hx Hk El) as (same & -> & Hsame). cbn [mbind option_bind param_value].
  replace ((length a + length (p_name p) =? length a + keylen)%nat) with ((length (p_name p) =? keylen)%nat)
    by (apply eq_bool_prop_intro; rewrite !Is_true_true, !Nat.eqb_eq; lia).
  rewrite Hsame. case_bool_decide as Hc; [rewrite decide_True by done|rewrite decide_False by done].
  { by rewrite copy_value_ok. }
  destruct (search_from p ps (length (a ++ opening p))) as [q|] eqn:Esf.
  2:{ revert Esf. unfold search_from, param_value_end. destruct (p_quoted p); [done|]. by destruct ps. }
  destruct (next_comma a p ps r q Esf) as (k & Hd & -> & Ek & ->). rewrite Hd, Ek. cbn [mbind option_bind].
  destruct ps as [|p' ps]; [done|]. rewrite Nat.add_0_r.
  set (a' := a ++ param_text p ++ 44 :: replicate (p_gap p) 32).
  assert (a ++ param_text p ++ rest_text (p_gap p) (p' :: ps) r = a' ++ params_text (p' :: ps) ++ 0 :: r) as Ea.
  { subst a'. cbn [rest_text]. by rewrite <- !app_assoc, <- app_comm_cons. }
  assert (drop (S (length a + length (param_text p))) (a ++ param_text p ++ rest_text (p_gap p) (p' :: ps) r)
    = replicate (p_gap p) 32 ++ params_text (p' :: ps) ++ 0 :: r) as ->.
  { replace (S (length a + length (param_text p))) with (length (a ++ param_text p) + 1)%nat by (rewrite length_app; lia).
    by rewrite app_assoc, <- drop_drop, drop_app_length. }
  apply Forall_cons in Hps as Hps'. destruct Hps' as [(Hn' & _ & Hne' & Hh' & _) _].
  rewrite skip_spaces_run.
  2,3: destruct (p_name p') as [|c' n'] eqn:En'; [done|]; destruct ps; cbn [params_text]; unfold param_text; rewrite En'; done.
  cbn [mbind option_bind]. rewrite Ea.
  replace (S (length a + length (param_text p)) + p_gap p)%nat with (length a').
  2:{ subst a'. rewrite !length_app. cbn [length]. rewrite length_replicate. lia. }
  apply IH. cbn [length] in *. lia.
Qed.

Lemma params_text_length ps : Forall param_ok ps -> (length ps <= length (params_text ps))%nat.
Proof.
  intros H. induction H as [|p ps (_ & _ & Hne & _) Hps IH]; [done|].
  assert (1 <= length (param_text p))%nat by (unfold param_text; rewrite length_app; destruct (p_name p); [done|cbn [length]; lia]).
  destruct ps as [|p' ps]; [done|]. cbn [params_text length] in *. rewrite length_app. cbn [length]. rewrite length_app. lia.
Qed.

Lemma lookup_sub_spec dest size ps r key :
  0 < size <= Z.of_nat (length dest) -> Forall param_ok ps -> no_nul key ->
  lookup_sub_value dest size (params_text ps ++ 0 :: r) (cstr key) = Some (found dest size (param_value ps key)).
Proof.
  intros Hs Hps Hk. unfold lookup_sub_value. destruct (Z.eqb_spec 0 size); [lia|].
  rewrite strlen_cstr by done. cbn [mbind option_bind].
  apply (lookup_loop_ok _ _ _ [] ps); [done..|]. pose proof (params_text_length ps Hps). rewrite length_app. lia.
Qed.

(** ** Theorem *)

(** C38: Parameters of the authorization header are found: for every list of
    parameters with their blanks, quoted or not, and every name, the lookup
    stays inside its objects, ends, and delivers the value of the first
    parameter with the name, up to case, cut off where the destination ends,
    with its length and terminated; without such a parameter it reports zero
    and leaves the destination alone. *)
Theorem lookup_sub_value_correct dest size ps r key :
  0 < size <= Z.of_nat (length dest) -> Forall param_ok ps -> no_nul key ->
  lookup_sub_value dest size (params_text ps ++ 0 :: r) (cstr key) = Some (found dest size (param_value ps key)).
Proof. apply lookup_sub_spec. Qed.

Definition demo_params : list param :=
  [mkParam (str "username") (str "Mufasa, the king") true 0 1; mkParam (str "qop") (str "auth") false 1 2;
   mkParam (str "NC") (str "00000001") false 0 0].

Lemma lookup_sub_value_correct_witness :
  lookup_sub_value (replicate 6 7) 6 (params_text demo_params ++ [0]) (cstr (str "UserName"))
  = Some (5, str "Mufas" ++ [0])
  /\ lookup_sub_value (replicate 9 7) 9 (params_text demo_params ++ [0]) (cstr (str "nc")) = Some (8, str "00000001" ++ [0]).
Proof.
  split.
  - rewrite (lookup_sub_value_correct (replicate 6 7) 6 demo_params [] (str "UserName"));
      [vm_compute; reflexivity|cbn; lia|apply (bool_decide_unpack _); vm_compute; exact I..].
  - rewrite (lookup_sub_value_correct (replicate 9 7) 9 demo_params [] (str "nc"));
      [vm_compute; reflexivity|cbn; lia|apply (bool_decide_unpack _); vm_compute; exact I..].
Defined.
