(* ===== verification/AuthDigest.v ===== *)
(** * The digests of digest authentication (digestauth.c)

    For every algorithm that keeps the law of [LawfulHash]: the digests the
    server computes are those of RFC 2617, in hexadecimal, and its nonces are
    made of the time stamp and a digest with the secret of the daemon. *)

From S2P Require Import Prelude MhdStr HashStream Headers Response DigestAuth.

(** ** Hexadecimal *)

Definition hex_digit (d : Z) : Z := if d <? 10 then 48 + d else 87 + d.

Definition hex (bin : bytes) : bytes := concat ((λ b, [hex_digit (b / 16); hex_digit (b mod 16)]) <$> bin).

Lemma hex_app a b : hex (a ++ b) = hex a ++ hex b.
Proof. unfold hex. by rewrite fmap_app, concat_app. Qed.

Lemma length_hex a : length (hex a) = (2 * length a)%nat.
Proof. induction a as [|x a IH]; [done|]. unfold hex in *. cbn [fmap list_fmap concat]. rewrite length_app, IH. cbn [length]. lia. Qed.

Lemma hex_lower_digit d : 0 <= d < 16 -> hex_lower d = hex_digit d.
Proof.
  intros Hd. unfold hex_lower, hex_digit. rewrite wrap_small by bcases. bcases.
Qed.

Lemma hex_digit_byte d : 0 <= d < 16 -> 48 <= hex_digit d < 103.
Proof. intros. unfold hex_digit. bcases. Qed.

Lemma hex_bytes a : Forall is_byte a -> Forall (λ c, 48 <= c < 103) (hex a).
Proof.
  intros H. induction H as [|x a Hx Ha IH]; [constructor|]. unfold hex in *. cbn [fmap list_fmap concat app]. unfold is_byte in Hx.
  pose proof (Z.mod_pos_bound x 16 ltac:(lia)). pose proof (Z.div_pos x 16). pose proof (Z.div_lt_upper_bound x 16 16).
  constructor; [apply hex_digit_byte; lia|]. constructor; [apply hex_digit_byte; lia|done].
Qed.

Lemma hex_no_nul a : Forall is_byte a -> no_nul (hex a).
Proof. intros Ha. eapply Forall_impl; [by apply hex_bytes|]. cbn beta. lia. Qed.

Lemma hex_is_byte a : Forall is_byte a -> Forall is_byte (hex a).
Proof. intros Ha. eapply Forall_impl; [by apply hex_bytes|]. unfold is_byte. lia. Qed.

Lemma nibbles b : is_byte b -> Z.land (Z.shiftr b 4) 15 = b / 16 /\ Z.land b 15 = b mod 16.
Proof.
  intros Hb. unfold is_byte in Hb. change 15 with (Z.ones 4). rewrite !Z.land_ones, Z.shiftr_div_pow2 by lia.
  split; [|done]. apply Z.mod_small. pose proof (Z.div_pos b 16); pose proof (Z.div_lt_upper_bound b 16 16). lia.
Qed.

Lemma cvthex_loop_ok (a b h : bytes) :
  Forall is_byte b -> (2 * length b < length h)%nat ->
  cvthex_loop (length b) (a ++ b) (length a) (hex a ++ h) = Some (hex (a ++ b) ++ drop (2 * length b) h).
Proof.
  intros Hb. revert a h. induction Hb as [|x b Hx Hb IH]; intros a h Hl.
  { cbn [length cvthex_loop]. by rewrite app_nil_r. }
  cbn [length] in *. destruct h as [|h0 [|h1 h]]; [cbn [length] in Hl; lia..|]. cbn [cvthex_loop].
  assert (deref_at (a ++ x :: b) (length a) = Some x) as -> by (unfold deref_at; by apply list_lookup_middle).
  cbn [mbind option_bind]. destruct (nibbles x Hx) as [-> ->]. unfold is_byte in Hx.
  assert (0 <= x / 16 < 16) by (pose proof (Z.div_pos x 16); pose proof (Z.div_lt_upper_bound x 16 16); lia).
  pose proof (Z.mod_pos_bound x 16 ltac:(lia)).
  rewrite !hex_lower_digit by done.
  rewrite (mem_write_mid (hex a) [h0] (h1 :: h) [hex_digit (x / 16)]) by (rewrite ?length_hex; done || lia).
  cbn [mbind option_bind]. rewrite (app_assoc (hex a) [_]).
  rewrite (mem_write_mid (hex a ++ [_]) [h1] h [hex_digit (x mod 16)]) by (rewrite ?length_app, ?length_hex; cbn [length]; done || lia).
  cbn [mbind option_bind]. specialize (IH (a ++ [x]) h ltac:(cbn [length] in Hl; lia)).
  rewrite length_app in IH. cbn [length] in IH. replace (length a + 1)%nat with (S (length a)) in IH by lia.
  assert (((hex a ++ [hex_digit (x / 16)]) ++ [hex_digit (x mod 16)] ++ h) = hex (a ++ [x]) ++ h) as ->.
  { rewrite hex_app, <- !app_assoc. done. }
  rewrite <- app_assoc in IH. cbn [app] in IH. rewrite IH. f_equal.
  replace (2 * S (length b))%nat with (S (S (2 * length b))) by lia. done.
Qed.

Lemma cvthex_ok (b h : bytes) :
  Forall is_byte b -> (2 * length b < length h)%nat ->
  cvthex b (length b) h = Some (hex b ++ 0 :: drop (S (2 * length b)) h).
Proof.
  intros Hb Hl. unfold cvthex. pose proof (cvthex_loop_ok [] b h Hb Hl) as E. cbn [app length] in E.
  change (hex [] ++ h) with h in E. rewrite E. cbn [mbind option_bind].
  destruct (drop (2 * length b) h) as [|x r] eqn:Er.
  { apply (f_equal length) in Er. rewrite length_drop in Er. cbn [length] in Er. lia. }
  rewrite (mem_write_mid (hex b) [x] r [0]) by (rewrite ?length_hex; done || lia). cbn [app].
  replace (S (2 * length b)) with (2 * length b + 1)%nat by lia. by rewrite <- drop_drop, Er.
Qed.

Lemma timestamp_is_byte t : Forall is_byte (timestamp_bytes t).
Proof. unfold timestamp_bytes. repeat constructor; apply wrap_range; lia. Qed.

Lemma strncat_hex (h ts r : bytes) :
  no_nul h -> no_nul ts -> length ts = 8%nat -> length r = 8%nat ->
  strncat (h ++ 0 :: r) (cstr ts) 8 = Some (cstr (h ++ ts)).
Proof.
  intros Hh Ht Lt Lr. unfold strncat. rewrite strlen_no_nul by done. cbn [mbind option_bind].
  rewrite cstring_cstr by done. cbn [mbind option_bind]. rewrite take_ge by lia.
  rewrite <- (app_nil_r (0 :: r)), (mem_write_mid h (0 :: r) [] (cstr ts));
    [|done|unfold cstr; rewrite length_app; cbn [length]; lia].
  unfold cstr. by rewrite app_nil_r, <- app_assoc.
Qed.

(** ** Strings in objects *)

(** A string of bytes, and an object that begins with it. *)
Definition c_string (s : bytes) : Prop := no_nul s /\ Forall is_byte s.

Definition holds (o s : bytes) : Prop := c_string s /\ ∃ r, o = s ++ 0 :: r.

Lemma holds_cstr s : c_string s -> holds (cstr s) s.
Proof. intros Hs. split; [done|]. by exists []. Qed.

Lemma holds_cstring o s : holds o s -> cstring o = Some s.
Proof.
  intros [[Hs _] [r ->]]. unfold cstring. rewrite strlen_no_nul by done. cbn [mbind option_bind]. by rewrite take_app_length.
Qed.

Lemma holds_strcmp a b x y : holds a x -> holds b y -> strcmp_eq a b = Some (bool_decide (x = y)).
Proof. intros Hx Hy. unfold strcmp_eq. rewrite (holds_cstring a x), (holds_cstring b y) by done. done. Qed.

(** ** Feeding a digest *)

Section Lawful.
Context {ctx : Type} (ops0 : hash_ops ctx) (valid : ctx -> Prop) `{!LawfulHash ops0 valid}.
Context (Hsize : (digest_size ops0 <= MAX_DIGEST)%nat).
#[local] Abbreviation DA := (DigestAlgorithm ctx).
#[local] Abbreviation H := (hash_of (ops := ops0) (valid := valid)).
#[local] Abbreviation size := (digest_size ops0).

Lemma digest_is_byte m : Forall is_byte (H m).
Proof. apply hash_of_bytes. Qed.
#[local] Hint Resolve digest_is_byte : core.

(** A [DigestAlgorithm] that is set up: its buffer takes a digest in
    hexadecimal. *)
Record da_ready (da : DA) : Prop := {
  ready_ops : ops da = ops0;
  ready_key : length (sessionkey da) = (2 * size + 1)%nat;
  ready_ctx : valid (da_ctx da)
}.

(** After [init] and the updates [chunks]. *)
Record fed (da0 : DA) (chunks : list bytes) (da : DA) : Prop := {
  fed_ops : ops da = ops0;
  fed_alg : alg da = alg da0;
  fed_key : sessionkey da = sessionkey da0;
  fed_bytes : Forall (Forall is_byte) chunks;
  fed_ctx : ∃ c, valid c /\ hash_updates ops0 (hash_init ops0 c) chunks = Some (da_ctx da)
}.

Lemma hash_updates_snoc c chunks l :
  hash_updates ops0 c (chunks ++ [l]) = (c' ← hash_updates ops0 c chunks; hash_update ops0 c' l).
Proof.
  revert c. induction chunks as [|x chunks IH]; intros c; cbn [app hash_updates mbind option_bind].
  - by destruct (hash_update ops0 c l).
  - destruct (hash_update ops0 c x); cbn [mbind option_bind]; [apply IH|done].
Qed.

Lemma vla_ok da : ops da = ops0 -> vla_check da = Some tt.
Proof using Hsize. intros E. unfold vla_check. rewrite E. destruct (Nat.ltb_spec MAX_DIGEST size); [lia|done]. Qed.

Lemma fed_init da : ops da = ops0 -> valid (da_ctx da) -> fed da [] (da_init da).
Proof. intros E Hv. split; [done..|constructor|]. exists (da_ctx da). by rewrite <- E. Qed.

Lemma fed_update da0 chunks da (l r : bytes) n :
  fed da0 chunks da -> Forall is_byte l -> n = length l ->
  ∃ da', da_update da (l ++ r) n = Some da' /\ fed da0 (chunks ++ [l]) da'.
Proof.
  intros [E1 E2 E3 Hb (c & Hc & Ec)] Hl ->. unfold da_update. rewrite mem_read_app, E1. cbn [mbind option_bind].
  assert (Forall (Forall is_byte) (chunks ++ [l])) as Hb' by (apply Forall_app; by repeat constructor).
  destruct (hash_stream c (chunks ++ [l]) Hc Hb') as (c' & _ & Eu & _ & _). rewrite hash_updates_snoc, Ec in Eu.
  cbn [mbind option_bind] in Eu. rewrite Eu. cbn [mbind option_bind]. eexists. split; [done|].
  split; [done..|]. exists c. split; [done|]. cbn [da_ctx set_ctx]. by rewrite hash_updates_snoc, Ec.
Qed.

Lemma fed_str da0 chunks da o s :
  fed da0 chunks da -> holds o s -> ∃ da', da_update_str da o = Some da' /\ fed da0 (chunks ++ [s]) da'.
Proof.
  intros Hf [[Hs Hb] [r ->]]. unfold da_update_str. rewrite strlen_no_nul by done. cbn [mbind option_bind]. by apply fed_update.
Qed.

Lemma fed_colon da0 chunks da : fed da0 chunks da -> ∃ da', da_colon da = Some da' /\ fed da0 (chunks ++ [colon_]) da'.
Proof.
  intros Hf. pose proof (fed_update da0 chunks da colon_ [] 1 Hf) as Hu. rewrite app_nil_r in Hu.
  apply Hu; [apply (bool_decide_unpack _); vm_compute; exact I|done].
Qed.

(** The digest of everything that was fed. *)
Lemma fed_digest da0 chunks da :
  fed da0 chunks da ->
  ∃ da', da_digest da = Some (H (concat chunks), da') /\ ops da' = ops0 /\ alg da' = alg da0
    /\ sessionkey da' = sessionkey da0 /\ valid (da_ctx da').
Proof.
  intros [E1 E2 E3 Hb (c & Hc & Ec)]. destruct (hash_stream c chunks Hc Hb) as (c' & c'' & Eu & Ed & Hv).
  rewrite Ec in Eu. injection Eu as <-. unfold da_digest. rewrite E1, Ed. cbn [mbind option_bind]. by eexists.
Qed.

(** Writing a digest to the buffer of the algorithm. *)
Lemma key_written (da : DA) d :
  length (sessionkey da) = (2 * size + 1)%nat -> Forall is_byte d -> length d = size ->
  cvthex d size (sessionkey da) = Some (cstr (hex d)).
Proof using Hsize.
  intros Hk Hd El. rewrite <- El. rewrite cvthex_ok by (done || lia). rewrite drop_ge by lia. done.
Qed.

Lemma digest_length m : length (H m) = size.
Proof. apply (hash_of_length (ops := ops0)). Qed.
#[local] Hint Resolve digest_length : core.

(** ** RFC 2617 *)

(** Strings with colons between them. *)
Fixpoint colons (l : list bytes) : bytes :=
  match l with
  | [] => []
  | [x] => x
  | x :: l' => x ++ colon_ ++ colons l'
  end.

Definition ha1_of (user realm password : bytes) : bytes := hex (H (colons [user; realm; password])).

(** The request digest, with and without a quality of protection. *)
Definition request_digest (ha1 nonce_ nc_ cnonce qop method uri : bytes) : bytes :=
  let ha2 := hex (H (colons [method; uri])) in
  hex (H (colons (match qop with [] => [ha1; nonce_; ha2] | _ => [ha1; nonce_; nc_; cnonce; qop; ha2] end))).

(** An algorithm that is not one of the session variants. *)
Definition plain_alg (a : bytes) : Prop :=
  ∃ s, a = cstr s /\ no_nul s /\ ~ caseless_eq s (str "md5-sess") /\ ~ caseless_eq s (str "sha-256-sess").

#[local] Ltac feed lem :=
  let E := fresh in let da := fresh "da" in let F := fresh "F" in
  edestruct lem as (da & E & F); [..|rewrite E; clear E; cbn [mbind option_bind]]; [eassumption|try done..|].

Lemma ha1_from_digest_ok da d nonce_ cnonce :
  plain_alg (alg da) -> ops da = ops0 -> length (sessionkey da) = (2 * size + 1)%nat -> Forall is_byte d -> length d = size ->
  digest_calc_ha1_from_digest (alg da) da d nonce_ cnonce = Some (set_key da (cstr (hex d))).
Proof using Hsize.
  intros (s & Ea & Hs & H1 & H2) Eo Hk Hd Ld. unfold digest_calc_ha1_from_digest. rewrite Ea.
  rewrite !equal_literal by (done || apply (bool_decide_unpack _); vm_compute; exact I).
  rewrite !bool_decide_eq_false_2 by done. cbn [mbind option_bind]. rewrite Eo, key_written by done. done.
Qed.

Lemma ha1_from_user_ok da u r p o1 o2 o3 nonce_ cnonce :
  da_ready da -> plain_alg (alg da) -> holds o1 u -> holds o2 r -> holds o3 p ->
  ∃ da', digest_calc_ha1_from_user (alg da) o1 o2 o3 nonce_ cnonce da = Some da'
    /\ sessionkey da' = cstr (ha1_of u r p) /\ da_ready da' /\ alg da' = alg da.
Proof using Hsize.
  intros [Eo Ek Ev] Ha Hu Hr Hp. unfold digest_calc_ha1_from_user. rewrite vla_ok by done. cbn [mbind option_bind].
  pose proof (fed_init da Eo Ev) as F0.
  feed fed_str. feed fed_colon. feed fed_str. feed fed_colon. feed fed_str.
  edestruct fed_digest as (da' & E & Eo' & Ea' & Ek' & Ev'); [eassumption|]. rewrite E. clear E. cbn [mbind option_bind].
  rewrite <- Ea' in Ha |- *.
  erewrite ha1_from_digest_ok by (done || by rewrite Ek'). eexists. split; [done|]. cbn [sessionkey set_key alg].
  split; [|split; [|done]].
  - cbn [app concat]. unfold ha1_of. cbn [colons]. by rewrite ?app_nil_r, <- ?app_assoc.
  - split; [done| |done]. cbn [sessionkey set_key]. unfold cstr. rewrite length_app, length_hex. cbn [length].
    rewrite digest_length. lia.
Qed.

Lemma response_ok da h nonce_ nc_ cnonce qop method uri o1 o2 o3 o4 o5 o6 :
  da_ready da -> length h = (2 * size)%nat -> Forall is_byte h ->
  holds o1 nonce_ -> holds o2 nc_ -> holds o3 cnonce -> holds o4 qop -> holds o5 method -> holds o6 uri ->
  ∃ da', digest_calc_response (cstr h) o1 o2 o3 o4 o5 o6 da = Some da'
    /\ sessionkey da' = cstr (request_digest h nonce_ nc_ cnonce qop method uri) /\ da_ready da' /\ alg da' = alg da.
Proof using Hsize.
  intros [Eo Ek Ev] Hh Bh Hn Hc Hcn Hq Hm Hu. unfold digest_calc_response.
  rewrite vla_ok by done. cbn [mbind option_bind].
  pose proof (fed_init da Eo Ev) as F0. feed fed_str. feed fed_colon. feed fed_str.
  edestruct fed_digest as (da' & E & Eo' & Ea' & Ek' & Ev'); [eassumption|]. rewrite E. clear E. cbn [mbind option_bind].
  rewrite Eo', key_written by (auto || by rewrite Ek'). cbn [mbind option_bind].
  set (ha2 := hex _).
  assert (hex (H (colons [method; uri])) = ha2) as E2 by (unfold ha2; cbn [app concat colons]; by rewrite ?app_nil_r, <- ?app_assoc).
  set (d1 := set_key da' (cstr ha2)).
  pose proof (fed_init d1 Eo' Ev') as G0. cbn [ops da_init set_ctx d1 set_key]. rewrite Eo'.
  edestruct (fed_update d1 [] (da_init d1) h [0] (size * 2) G0 Bh ltac:(lia)) as (d2 & E & G1).
  fold d1. fold (cstr h) in E. rewrite E. clear E. cbn [mbind option_bind].
  feed fed_colon. feed fed_str. feed fed_colon.
  assert (Forall is_byte ha2) as B2 by (by apply hex_is_byte).
  assert (length ha2 = (2 * size)%nat) as L2 by (unfold ha2; rewrite length_hex, digest_length; lia).
  (* the rest, for the two forms *)
  assert (forall chunks d, fed d1 chunks d ->
    ∃ da', (da ← da_update d (sessionkey d) (digest_size (ops d) * 2);
            '(resphash, da) ← da_digest da;
            hex ← cvthex resphash (digest_size (ops da)) (sessionkey da);
            Some (set_key da hex)) = Some da'
      /\ sessionkey da' = cstr (hex (H (concat (chunks ++ [ha2])))) /\ da_ready da' /\ alg da' = alg da) as Hend.
  { intros chunks d G. rewrite (fed_ops _ _ _ G), (fed_key _ _ _ G). cbn [sessionkey d1 set_key].
    edestruct (fed_update d1 chunks d ha2 [0] (size * 2) G B2 ltac:(lia)) as (d3 & E & G3).
    fold (cstr ha2) in E. rewrite E. clear E. cbn [mbind option_bind].
    edestruct fed_digest as (d4 & E & Eo4 & Ea4 & Ek4 & Ev4); [exact G3|]. rewrite E. clear E. cbn [mbind option_bind].
    assert (length (sessionkey d4) = (2 * size + 1)%nat) as L4 by (rewrite Ek4; cbn [sessionkey d1 set_key]; unfold cstr; rewrite length_app, L2; done).
    rewrite Eo4, key_written by auto. cbn [mbind option_bind]. eexists. split; [done|]. cbn [sessionkey set_key alg].
    split; [done|]. split; [|rewrite Ea4; exact Ea']. split; [done| |done]. cbn [sessionkey set_key]. unfold cstr.
    rewrite length_app, length_hex, digest_length. cbn [length]. lia. }
  unfold request_digest. rewrite E2. clearbody ha2. destruct qop as [|q qop].
  - destruct Hq as [_ [r ->]]. cbn [app deref head mbind option_bind]. rewrite Z.eqb_refl. cbn [negb mbind option_bind].
    edestruct Hend as (d9 & E & Es & Hr & Ha); [eassumption|]. exists d9. split; [exact E|]. split; [|done].
    rewrite Es. cbn [app concat colons]. by rewrite ?app_nil_r, <- ?app_assoc.
  - assert (deref o4 = Some q /\ q ≠ 0) as [-> Hq0].
    { destruct Hq as [[Hq0 _] [r ->]]. by apply no_nul_cons in Hq0 as [? _]. }
    cbn [mbind option_bind]. destruct (Z.eqb_spec q 0); [done|]. cbn [negb].
    feed fed_str. feed fed_colon. feed fed_str. feed fed_colon. feed fed_str. feed fed_colon.
    edestruct Hend as (d9 & E & Es & Hr & Ha); [eassumption|]. exists d9. split; [exact E|]. split; [|done].
    rewrite Es. cbn [app concat colons]. by rewrite ?app_nil_r, <- ?app_assoc.
Qed.

(** ** The nonces of the server *)

(** The text of a nonce: a digest with the secret, and the time. *)
Definition nonce_of (t : Z) (method rnd uri realm : bytes) : bytes :=
  hex (H (colons [timestamp_bytes t; method; rnd; uri; realm])) ++ hex (timestamp_bytes t).

Lemma nonce_of_string t method rnd uri realm : c_string (nonce_of t method rnd uri realm).
Proof using.
  unfold nonce_of. pose proof (timestamp_is_byte t). split.
  - apply no_nul_app. split; by apply hex_no_nul.
  - apply Forall_app. split; by apply hex_is_byte.
Qed.

Lemma fed_random da0 chunks da rnd :
  fed da0 chunks da -> Forall is_byte rnd ->
  ∃ da' chunks', (if (0 <? length rnd)%nat then da_update da rnd (length rnd) else Some da) = Some da'
    /\ fed da0 chunks' da' /\ concat chunks' = concat chunks ++ rnd.
Proof.
  intros F Hr. destruct rnd as [|x rnd]; [exists da, chunks; by rewrite app_nil_r|]. cbn [length Nat.ltb Nat.leb].
  destruct (fed_update da0 chunks da (x :: rnd) [] (S (length rnd)) F Hr eq_refl) as (da' & E & F').
  rewrite app_nil_r in E. exists da', (chunks ++ [x :: rnd]). split; [done|]. split; [done|].
  rewrite concat_app. cbn [concat]. by rewrite app_nil_r.
Qed.

Lemma calculate_nonce_ok fresh da t method rnd uri realm o1 o2 o3 buf :
  da_ready da -> (forall n, length (fresh n) = n) -> holds o1 method -> holds o2 uri -> holds o3 realm -> Forall is_byte rnd ->
  length buf = (NONCE_STD_LEN size + 1)%nat ->
  ∃ da', calculate_nonce fresh t o1 rnd o2 o3 da buf
    = Some (cstr (nonce_of t method rnd uri realm), da') /\ da_ready da' /\ alg da' = alg da.
Proof using Hsize.
  intros [Eo Ek Ev] Hf Hm Hu Hr Hrnd Hbuf. unfold calculate_nonce. rewrite vla_ok by done. cbn [mbind option_bind].
  pose proof (fed_init da Eo Ev) as F0. pose proof (timestamp_is_byte t) as Bt.
  edestruct (fed_update da [] (da_init da) (timestamp_bytes t) [] TIMESTAMP_BIN_SIZE F0 Bt eq_refl) as (d1 & E & K1).
  rewrite app_nil_r in E. rewrite E. clear E. cbn [mbind option_bind].
  feed fed_colon. feed fed_str. feed fed_colon.
  edestruct fed_random as (d2 & chunks & E & K2 & Ec); [eassumption|exact Hrnd|]. rewrite E. clear E. cbn [mbind option_bind].
  feed fed_colon. feed fed_str. feed fed_colon. feed fed_str.
  edestruct fed_digest as (da' & E & Eo' & Ea' & Ek' & Ev'); [eassumption|]. rewrite E. clear E. cbn [mbind option_bind].
  rewrite !concat_app, Ec. cbn [app concat]. rewrite ?app_nil_r, Eo'.
  set (m := _ ++ realm). assert (m = colons [timestamp_bytes t; method; rnd; uri; realm]) as Em.
  { subst m. cbn [colons]. by rewrite <- ?app_assoc. }
  clearbody m. subst m. set (m := colons _).
  assert (length (H m) = size) as Lm by apply digest_length.
  unfold NONCE_STD_LEN in Hbuf. pose proof (cvthex_ok (H m) buf (digest_is_byte m) ltac:(lia)) as E. rewrite Lm in E.
  rewrite E. clear E. cbn [mbind option_bind].
  pose proof (cvthex_ok (timestamp_bytes t) (fresh 9%nat) Bt ltac:(rewrite Hf; cbn; lia)) as E.
  change (length (timestamp_bytes t)) with TIMESTAMP_BIN_SIZE in E. change (TIMESTAMP_BIN_SIZE * 2 + 1)%nat with 9%nat.
  rewrite E. clear E. cbn [mbind option_bind].
  rewrite (drop_ge (fresh _)) by (rewrite Hf; cbn; lia).
  assert (length (hex (timestamp_bytes t)) = 8%nat) as L8 by (by rewrite length_hex).
  rewrite (strncat_hex (hex (H m)) (hex (timestamp_bytes t))); [..|by apply hex_no_nul|by apply hex_no_nul|done|rewrite length_drop; lia].
  cbn [mbind option_bind]. exists da'. split; [done|]. split; [|done]. split; [done|by rewrite Ek'|done].
Qed.
End Lawful.

Lemma toxdigit_hex d : 0 <= d < 16 -> toxdigitvalue (hex_digit d) = d.
Proof.
  intros Hd. assert (d ∈ Z.of_nat <$> seq 0 16) as Hin.
  { apply list_elem_of_fmap. exists (Z.to_nat d). split; [lia|]. apply elem_of_seq. lia. }
  revert d Hd Hin. assert (Forall (λ d, toxdigitvalue (hex_digit d) = d) (Z.of_nat <$> seq 0 16)) as Hf.
  { apply (bool_decide_unpack _). vm_compute. exact I. }
  intros d _ Hin. rewrite Forall_forall in Hf. by apply Hf.
Qed.

Lemma timestamp_spec t : 0 <= t <= UINT32_MAX ->
  timestamp_bytes t = [t / 2 ^ 24; t / 2 ^ 16 mod 256; t / 2 ^ 8 mod 256; t mod 256].
Proof.
  intros Ht. assert (forall k, 0 <= k -> Z.shiftr (Z.land t (Z.shiftl 255 k)) k = t / 2 ^ k mod 256) as Hk.
  { intros k Hk. rewrite <- Z.shiftr_div_pow2 by done. change 256 with (2 ^ 8). rewrite <- Z.land_ones by lia. change (Z.ones 8) with 255.
    rewrite Z.shiftr_land, Z.shiftr_shiftl_l, Z.sub_diag, Z.shiftl_0_r by lia. done. }
  unfold timestamp_bytes. change 4278190080 with (Z.shiftl 255 24). change 16711680 with (Z.shiftl 255 16). change 65280 with (Z.shiftl 255 8).
  rewrite !Hk by lia. assert (Z.land t 255 = t mod 256) as ->.
  { change 255 with (Z.ones 8). by rewrite Z.land_ones by lia. }
  change (2 ^ 8) with 256. unfold wrap. change (2 ^ 8) with 256. rewrite !Z.mod_mod by lia.
  rewrite (Z.mod_small (t / 2 ^ 24)); [done|]. split; [apply Z.div_pos; lia|]. apply Z.div_lt_upper_bound; lia.
Qed.

(** The time is read back from its hexadecimal form. *)
Lemma timestamp_read t c r : 0 <= t <= UINT32_MAX ->
  MHD_strx_to_uint32_n_ (Some (hex (timestamp_bytes t) ++ c :: r)) 8 (Some 0) = Some (8%nat, Some t).
Proof.
  intros Ht. rewrite timestamp_spec by done. set (bs := [_; _; _; _]).
  assert (Forall is_byte bs) as Hb.
  { subst bs. pose proof (Z.div_pos t (2 ^ 24)). pose proof (Z.div_lt_upper_bound t (2 ^ 24) 256).
    repeat constructor; try (apply Z.mod_pos_bound; lia); unfold is_byte; lia. }
  assert (toxdigitvalue <$> hex bs = bs ≫= λ b, [b / 16; b mod 16]) as Ed.
  { clearbody bs. clear Ht. induction Hb as [|b bs Hb Hbs IH]; [done|]. unfold hex in *. unfold is_byte in Hb.
    cbn [fmap list_fmap concat app]. rewrite IH. pose proof (Z.mod_pos_bound b 16 ltac:(lia)).
    pose proof (Z.div_pos b 16). pose proof (Z.div_lt_upper_bound b 16 16). by rewrite !toxdigit_hex by lia. }
  destruct (proj2 (bounded_parsers_spec (hex bs) c r 8 0 ltac:(by rewrite length_hex))) as [-> _].
  - assert (Forall (Z.le 0) (toxdigitvalue <$> hex bs)) as Hx; [|rewrite Forall_fmap in Hx; exact Hx].
    rewrite Ed. clear Ed. clearbody bs.
    induction Hb as [|b bs Hb Hbs IH]; [constructor|]. cbn [mbind list_bind app]. unfold is_byte in Hb.
    pose proof (Z.mod_pos_bound b 16 ltac:(lia)). pose proof (Z.div_pos b 16). repeat constructor; lia || done.
  - by right.
  - rewrite Ed. unfold parse_spec. subst bs. cbn [mbind list_bind app]. unfold value_from. cbn [foldl].
    assert (((((((((0 * 16 + t / 2 ^ 24 / 16) * 16 + (t / 2 ^ 24) mod 16) * 16 + (t / 2 ^ 16 mod 256) / 16) * 16 + (t / 2 ^ 16 mod 256) mod 16) * 16
      + (t / 2 ^ 8 mod 256) / 16) * 16 + (t / 2 ^ 8 mod 256) mod 16) * 16 + t mod 256 / 16) * 16 + (t mod 256) mod 16) = t) as Et.
    { change (2 ^ 24) with 16777216. change (2 ^ 16) with 65536. change (2 ^ 8) with 256. Z.div_mod_to_equations. lia. }
    rewrite Et, decide_True by (split; [done|lia]). done.
Qed.
