(* ===== verification/AuthArguments.v ===== *)
(** * The arguments of the URI in digest authentication (digestauth.c)

    [check_argument_match] compares the arguments of the URI the client signed
    with those the server has stored for the request. *)

From S2P Require Import Prelude MhdStr Internal Headers Response DigestAuth.

(** ** Arguments of the URI *)

(** The arguments the server has stored for the request. *)
Definition get_arguments (l : list MHD_HTTP_Header) : list (bytes * option bytes) :=
  omap (λ h, if MHD_GET_ARGUMENT_KIND =? kind h then n ← header h; Some (n, header_value h) else None) l.

(** A decoded string may contain a terminator; this is what C sees of it. *)
Definition visible (s : bytes) : bytes := take (count_until (λ c, c =? 0) s) s.

Definition seen (a : bytes * option bytes) : bytes * option bytes := (visible a.1, visible <$> a.2).

(** Every argument of the header's URI is one of the request, and there are as
    many of them. *)
Definition arguments_match (l : list MHD_HTTP_Header) (args : list (bytes * option bytes)) : Prop :=
  Forall (λ a, seen a ∈ get_arguments l) args /\ length args = length (get_arguments l).

#[export] Instance arguments_match_dec l args : Decision (arguments_match l args).
Proof. unfold arguments_match. apply _. Defined.

(** Entries with a name. *)
Definition entry_named (h : MHD_HTTP_Header) : Prop := header_wf h /\ header h ≠ None.

Lemma cstring_visible s r : cstring (s ++ 0 :: r) = Some (visible s).
Proof.
  unfold cstring, visible. assert (strlen (s ++ 0 :: r) = Some (count_until (λ c, c =? 0) s)) as ->.
  { induction s as [|c s IH]; [done|]. cbn [app strlen count_until]. destruct (c =? 0); [done|]. by rewrite IH. }
  cbn [mbind option_bind]. f_equal. rewrite take_app_le; [done|].
  induction s as [|c s IH]; cbn [count_until length]; [lia|]. destruct (c =? 0); lia.
Qed.

Lemma visible_no_nul s : no_nul s -> visible s = s.
Proof.
  intros Hs. pose proof (cstring_visible s []) as E. change (s ++ [0]) with (cstr s) in E. rewrite cstring_cstr in E by done. by injection E.
Qed.

Lemma has_string_strcmp m k s t : no_nul t -> has_string m k s -> strcmp_eq (drop k m) (cstr t) = Some (bool_decide (visible s = t)).
Proof.
  intros Ht [_ [x ->]]. unfold strcmp_eq. rewrite cstring_visible, cstring_cstr by done. done.
Qed.

Lemma same_value_ok m v (a w : option bytes) :
  match v, a with None, None => True | Some v, Some s => has_string m v s | _, _ => False end ->
  (forall s, w = Some s -> no_nul s) ->
  same_value (option_map (λ v, drop v m) v) w = Some (bool_decide (visible <$> a = w)).
Proof.
  intros Hv Hw. destruct v as [v|], a as [s|]; try done; destruct w as [t|]; cbn [option_map same_value]; try done.
  rewrite (has_string_strcmp m v s) by auto. f_equal. apply bool_decide_ext. cbn [fmap option_fmap option_map]. split; congruence.
Qed.

Lemma test_header_ok l m k v a :
  Forall entry_named l -> entry_ok m (k, v) a ->
  test_header l (drop k m) (option_map (λ v, drop v m) v) MHD_GET_ARGUMENT_KIND = Some (bool_decide (seen a ∈ get_arguments l)).
Proof.
  intros Hl [Hk Hv]. unfold test_header. induction Hl as [|h l [[Hn Hw] Hne] Hl IH]; [done|].
  cbn [test_header_loop get_arguments omap list_omap]. destruct (MHD_GET_ARGUMENT_KIND =? kind h); cbn [negb]; [|exact IH].
  destruct (header h) as [n|] eqn:En; [|done]. cbn [mbind option_bind].
  rewrite (has_string_strcmp m k a.1) by (done || by apply Hn). cbn [mbind option_bind].
  fold (get_arguments l) in *.
  assert (seen a ≠ (n, header_value h) -> bool_decide (seen a ∈ get_arguments l)
    = bool_decide (seen a ∈ (n, header_value h) :: get_arguments l)) as Hother.
  { intros Ha. apply bool_decide_ext. rewrite elem_of_cons. tauto. }
  destruct (bool_decide_reflect (visible a.1 = n)) as [E1|E1]; cbn [negb].
  - rewrite (same_value_ok m v a.2) by (done || auto). cbn [mbind option_bind].
    destruct (bool_decide_reflect (visible <$> a.2 = header_value h)) as [E2|E2].
    + symmetry. f_equal. apply bool_decide_eq_true_2. unfold seen. rewrite E1, E2. left.
    + rewrite IH. f_equal. apply Hother. unfold seen. congruence.
  - rewrite IH. f_equal. apply Hother. unfold seen. congruence.
Qed.

Lemma count_down_ok l n : Forall entry_named l -> count_down l (u32 n) = u32 (n - Z.of_nat (length (get_arguments l))).
Proof.
  intros Hl. revert n. induction Hl as [|h l [_ Hne] Hl IH]; intros n; cbn [count_down get_arguments omap list_omap length].
  { by rewrite Z.sub_0_r. }
  destruct (MHD_GET_ARGUMENT_KIND =? kind h); cbn [negb]; fold (get_arguments l); [|apply IH].
  destruct (header h); [|done]. cbn [mbind option_bind length].
  assert (u32 (u32 n - 1) = u32 (n - 1)) as -> by (rewrite <- !Z.add_opp_r; apply wrap_add_l). rewrite IH. f_equal. lia.
Qed.

Lemma length_pieces cur s : (length (pieces cur s) <= length s + (if decide (cur = []) then 0 else 1))%nat.
Proof.
  revert cur. induction s as [|c s IH]; intros cur; cbn [pieces length].
  { destruct cur; cbn [length]; [lia|]. rewrite decide_False by done. lia. }
  destruct (c =? 38); cbn [length].
  - specialize (IH []). rewrite decide_True in IH by done. lia.
  - specialize (IH (cur ++ [c])). rewrite decide_False in IH by (by destruct cur). lia.
Qed.

Lemma taken_all (f : bytes * option bytes -> bool) acc args :
  bool_decide (taken (λ _, f) acc args = length args) = forallb f args.
Proof.
  revert acc. induction args as [|a args IH]; intros acc; [done|]. cbn [taken length forallb].
  destruct (f a); cbn [andb]; [|done]. rewrite <- (IH (acc ++ [a])). apply bool_decide_ext. lia.
Qed.

Section Arguments_theorem.
Context (malloc : Z -> option bytes) (Hmalloc : forall n m, malloc n = Some m -> Z.of_nat (length m) = n).
Context (unescape_callback : bytes -> nat -> option (bytes * nat)) `{!UnescapeCallback unescape_callback}.
#[local] Abbreviation arguments := (arguments unescape_callback).

(** The copy of the arguments is compared. *)
Lemma check_argument_match_ok l args r :
  Forall entry_named l -> no_nul args -> Z.of_nat (length args) <= UINT32_MAX -> Z.of_nat (length l) <= UINT32_MAX ->
  check_argument_match malloc unescape_callback l (args ++ 0 :: r)
  = Some (bool_decide (malloc (Z.of_nat (length args + 1)) ≠ None /\ arguments_match l (arguments args))).
Proof.
  intros Hl Ha La Ll. unfold check_argument_match, strdup. rewrite cstring_visible, visible_no_nul by done. cbn [mbind option_bind].
  destruct (malloc _) as [m|] eqn:Em; cbn [mbind option_bind].
  2:{ by rewrite bool_decide_eq_false_2 by tauto. }
  apply Hmalloc in Em. rewrite <- (app_nil_r m).
  rewrite (mem_write_mid [] m [] (cstr args)) by (done || (unfold cstr; rewrite length_app; cbn [length]; lia)).
  cbn [app mbind option_bind]. rewrite app_nil_r. unfold MHD_parse_arguments_.
  edestruct (parse_loop_any unescape_callback (test_callback l) (λ _ a, bool_decide (seen a ∈ get_arguments l))
    (λ _ st _, st = Some tt)) with (p := [] : bytes) (st := Some tt) (acc := @nil (bytes * option bytes)) (j := 0) (s := args) (r := @nil Z)
    (fuel := length (cstr args)) as (x & st' & E & _ & ->); [done| |done| |done|].
  { intros p d rest st acc k v a -> He. unfold test_callback. exists (Some tt). split; [|done].
    rewrite (test_header_ok l _ k v a) by (done || (rewrite app_assoc; by apply entry_ok_app)). done. }
  { unfold cstr. rewrite length_app. lia. }
  cbn [app length] in E. change (u32 0) with 0 in E. unfold cstr at 2. rewrite E. clear E. cbn [mbind option_bind].
  match goal with |- context [bool_decide (taken ?f [] ?as_ = length ?as_)] =>
    pose proof (taken_all (f []) [] as_) as Et end. cbn beta in Et.
  assert (forallb (λ a, bool_decide (seen a ∈ get_arguments l)) (arguments args)
    = bool_decide (Forall (λ a, seen a ∈ get_arguments l) (arguments args))) as Ef.
  { apply Bool.eq_iff_eq_true. rewrite forallb_forall, bool_decide_eq_true, Forall_forall.
    split; intros Hall a Hin; apply list_elem_of_In in Hin || apply list_elem_of_In; specialize (Hall a Hin);
      by apply bool_decide_eq_true in Hall || apply bool_decide_eq_true. }
  rewrite Ef in Et. rewrite Et.
  destruct (bool_decide_reflect (Forall (λ a, seen a ∈ get_arguments l) (arguments args))) as [Hall|Hall]; cbn [negb].
  2:{ rewrite bool_decide_eq_false_2; [done|]. unfold arguments_match. tauto. }
  apply bool_decide_eq_true in Et. rewrite Et, Z.add_0_l, count_down_ok by done. pose proof (length_pieces [] args) as Lp. rewrite decide_True in Lp by done.
  assert (length (arguments args) <= length args)%nat as La' by (unfold Internal.arguments; rewrite length_fmap; lia).
  assert (length (get_arguments l) <= length l)%nat as Lg.
  { clear. induction l as [|h l IH]; [done|]. cbn [get_arguments omap list_omap length]. fold (get_arguments l).
    destruct (MHD_GET_ARGUMENT_KIND =? kind h); [|lia]. destruct (header h); cbn [mbind option_bind length]; lia. }
  f_equal. unfold wrap. destruct (Z.eqb_spec ((Z.of_nat (length (arguments args)) - Z.of_nat (length (get_arguments l))) mod 2 ^ 32) 0) as [E|E].
  - symmetry. apply bool_decide_eq_true_2. split; [done|]. split; [done|]. apply Z.mod_divide in E as [k E]; [|done]. nia.
  - symmetry. apply bool_decide_eq_false_2. intros [_ [_ El]]. apply E. by rewrite El, Z.sub_diag.
Qed.
End Arguments_theorem.

(** The comparison is not one of the lists: for a request with the arguments
    "a=1" and "b=2", a client may sign a URI that repeats the first one. *)
Theorem repeated_argument_accepted :
  check_argument_match (λ n, Some (replicate (Z.to_nat n) 9)) unescape_wrapper
    [mkHeader (Some (str "a")) (Some (str "1")) MHD_GET_ARGUMENT_KIND; mkHeader (Some (str "b")) (Some (str "2")) MHD_GET_ARGUMENT_KIND]
    (cstr (str "a=1&a=1")) = Some true.
Proof. vm_compute. reflexivity. Qed.
