(* ===== verification/AuthCheck.v ===== *)
(** * The check of a request with digest authentication (digestauth.c)

    [digest_auth_check_all] on a request whose authorization header is a list
    of parameters: when the request is authenticated, when its nonce is
    invalid, and that the answer to a challenge of the server is accepted. *)

From S2P Require Import Prelude MhdStr MemoryPool HashStream Md5 Internal Headers Response Connection RequestHead.
From S2P Require Import DigestAuth NonceTable AuthParams AuthDigest AuthArguments.

(** ** Numbers *)

(** A text of hexadecimal digits as a number of at most [max]. *)
Definition hex_number (max : Z) (s : bytes) : option Z :=
  if decide (digit_run toxdigitvalue s /\ value 16 (toxdigitvalue <$> s) <= max)
  then Some (value 16 (toxdigitvalue <$> s)) else None.

Lemma parse_spec_number max cs s :
  (cs = s \/ (length cs < length s)%nat /\ ~ digit_run toxdigitvalue s) -> digit_run toxdigitvalue cs -> s ≠ [] ->
  let '(n, v) := parse_spec 16 max (toxdigitvalue <$> cs) 0 in
  if (n =? length s)%nat then v = hex_number max s /\ v ≠ None else hex_number max s = None.
Proof.
  intros Hcs Hd Hs. unfold parse_spec, hex_number. destruct Hcs as [->|[Hl Hno]].
  - destruct (decide (_ /\ _)) as [[_ Hm]|Hm].
    + rewrite length_fmap, Nat.eqb_refl, decide_True by done. done.
    + assert (0 =? length s = false)%nat as -> by (destruct s; [done|done]). apply decide_False.
      intros [_ Hm']. apply Hm. split; [|done]. by destruct s.
  - rewrite (decide_False (P := digit_run toxdigitvalue s /\ _)) by tauto.
    assert (0 < length s)%nat by (destruct s; [done|cbn [length]; lia]).
    destruct (decide _); [rewrite length_fmap|]; case Nat.eqb_spec; intros; done || lia.
Qed.

(** The digits at the beginning of a string. *)
Lemma digits_split s r :
  ∃ cs c r', s ++ 0 :: r = cs ++ c :: r' /\ digit_run toxdigitvalue cs /\ toxdigitvalue c < 0 /\ (length cs <= length s)%nat
    /\ (cs = s \/ (length cs < length s)%nat /\ ~ digit_run toxdigitvalue s).
Proof.
  induction s as [|x s (cs & c & r' & E & Hd & Hc & Hl & Hs)].
  - exists [], 0, r. split; [done|]. split; [constructor|]. split; [done|]. split; [done|]. by left.
  - destruct (decide (0 <= toxdigitvalue x)) as [Hx|Hx].
    + exists (x :: cs), c, r'. cbn [app length]. rewrite E. split; [done|]. split; [by constructor|]. split; [done|].
      split; [lia|]. destruct Hs as [->|[? Hno]]; [by left|right]. split; [lia|]. intros Hd'. by apply Forall_cons in Hd' as [_ ?].
    + exists [], x, (s ++ 0 :: r). split; [done|]. split; [constructor|]. split; [lia|]. cbn [length]. split; [lia|]. right.
      split; [lia|]. intros Hd'. by apply Forall_cons in Hd' as [? _].
Qed.

Lemma hex_parsers s r : s ≠ [] ->
  ∃ n v m w, MHD_strx_to_uint32_n_ (Some (s ++ 0 :: r)) (length s) (Some 0) = Some (n, v)
    /\ MHD_strx_to_uint64_n_ (Some (s ++ 0 :: r)) (length s) (Some 0) = Some (m, w)
    /\ (if (n =? length s)%nat then v = hex_number UINT32_MAX s /\ v ≠ None else hex_number UINT32_MAX s = None)
    /\ (if (m =? length s)%nat then w = hex_number UINT64_MAX s /\ w ≠ None else hex_number UINT64_MAX s = None).
Proof.
  intros Hne. destruct (digits_split s r) as (cs & c & r' & -> & Hd & Hc & Hl & Hs).
  destruct (proj2 (bounded_parsers_spec cs c r' (length s) 0 Hl) Hd (or_introl Hc)) as [-> ->].
  pose proof (parse_spec_number UINT32_MAX cs s Hs Hd Hne) as H1. pose proof (parse_spec_number UINT64_MAX cs s Hs Hd Hne) as H2.
  destruct (parse_spec 16 UINT32_MAX _ 0) as [n v], (parse_spec 16 UINT64_MAX _ 0) as [m w]. by exists n, v, m, w.
Qed.

(** ** Fields of the header *)

(** A header whose parameters are strings of bytes. *)
Definition params_ok (ps : list param) : Prop := Forall param_ok ps /\ Forall (λ p, Forall is_byte (p_value p)) ps.

(** The value of a parameter in an array of [n] bytes; an empty one is like a
    missing one. *)
Definition field (ps : list param) (n : Z) (key : bytes) : option bytes :=
  match param_value ps key with
  | None => None
  | Some v => if decide (truncated n v = []) then None else Some (truncated n v)
  end.

Lemma param_value_ok ps key v : params_ok ps -> param_value ps key = Some v -> c_string v.
Proof.
  intros [H1 H2]. revert H2. induction H1 as [|p ps (_ & Hv & _) H1 IH]; intros H2; [done|]. apply Forall_cons in H2 as [Hb H2].
  cbn [param_value]. destruct (decide _); [intros [= <-]; done|by apply IH].
Qed.

Lemma c_string_take n s : c_string s -> c_string (take n s).
Proof. intros [H1 H2]. split; by apply Forall_take. Qed.

Lemma field_string ps n key x : params_ok ps -> field ps n key = Some x -> c_string x /\ x ≠ [] /\ (0 < n -> Z.of_nat (length x) < n).
Proof.
  intros Hps. unfold field. destruct (param_value ps key) as [v|] eqn:E; [|done]. destruct (decide _); [done|]. intros [= <-].
  split; [by apply c_string_take, (param_value_ok ps key)|]. split; [done|]. intros Hn. unfold truncated. rewrite length_take. lia.
Qed.

Lemma lookup_field ps key dest size :
  params_ok ps -> no_nul key -> 0 < size <= Z.of_nat (length dest) ->
  ∃ len v, lookup_sub_value dest size (cstr (params_text ps)) (cstr key) = Some (len, v)
    /\ match field ps size key with Some x => len = Z.of_nat (length x) /\ holds v x | None => len = 0 end.
Proof.
  intros Hps Hk Hn. pose proof Hps as [Hp _]. unfold cstr at 1. rewrite (lookup_sub_spec dest size ps [] key) by done.
  eexists _, _. split; [apply (f_equal Some), surjective_pairing|]. unfold field, found.
  destruct (param_value ps key) as [v|] eqn:E; [|done]. destruct (decide _) as [->|]; cbn [fst snd]; [done|].
  split; [done|]. split; [by apply c_string_take, (param_value_ok ps key)|]. by eexists.
Qed.

(** ** The space that is left for the URI *)

Definition cost (ps : list param) (k : bytes) : nat :=
  match param_value ps k with Some v => S (length k + length v) | None => 0%nat end.

Fixpoint costs (ps : list param) (ks : list bytes) : nat :=
  match ks with [] => O | k :: ks' => (cost ps k + costs ps ks')%nat end.

Definition distinct_names (ks : list bytes) : Prop := ForallOrdPairs (λ a b, ~ caseless_eq a b) ks.

Lemma cost_other p ps ks : Forall (λ k, ~ caseless_eq (p_name p) k) ks -> costs (p :: ps) ks = costs ps ks.
Proof.
  intros H. induction H as [|k ks Hk H IH]; [done|]. cbn [costs]. rewrite IH. unfold cost.
  cbn [param_value]. by rewrite decide_False.
Qed.

Lemma param_text_length p : length (param_text p) = (length (p_name p) + 1 + p_blanks p + length (p_value p) + (if p_quoted p then 2 else 0))%nat.
Proof.
  unfold param_text, value_text. rewrite length_app. cbn [length]. rewrite length_app, length_replicate.
  destruct (p_quoted p); cbn [length]; [rewrite length_app; cbn [length]|]; lia.
Qed.

Lemma cost_cons p ps ks : distinct_names ks -> (costs (p :: ps) ks <= length (param_text p) + costs ps ks)%nat.
Proof.
  intros H. induction H as [|k ks Hk H IH]; [cbn; lia|]. cbn [costs].
  destruct (decide (caseless_eq (p_name p) k)) as [E|E].
  - rewrite cost_other.
    2:{ eapply Forall_impl; [exact Hk|]. cbn beta. intros k' Hne E'. apply Hne. by rewrite <- E. }
    assert (cost (p :: ps) k <= length (param_text p))%nat; [|lia]. unfold cost. cbn [param_value]. rewrite decide_True by done.
    rewrite param_text_length. apply caseless_eq_length in E. lia.
  - assert (cost (p :: ps) k = cost ps k) as -> by (unfold cost; cbn [param_value]; by rewrite decide_False). lia.
Qed.

Lemma cost_bound ps ks : distinct_names ks -> (costs ps ks <= length (params_text ps))%nat.
Proof.
  intros Hk. induction ps as [|p ps IH].
  { cbn [params_text length]. induction ks as [|k ks IH]; [done|]. cbn. apply IH. by inversion Hk. }
  pose proof (cost_cons p ps ks Hk). destruct ps as [|q ps].
  - assert (costs [] ks = 0%nat) as E0; [|cbn [params_text]; lia].
    clear. induction ks as [|k ks IH]; [done|]. exact IH.
  - cbn [params_text] in *. rewrite length_app. cbn [length]. rewrite length_app. lia.
Qed.

(** ** The levels of the check *)

Definition room (ps : list param) (u r n : bytes) : Z :=
  Z.of_nat (length (params_text ps)) - (8 + Z.of_nat (length u)) - (5 + Z.of_nat (length r)) - (5 + Z.of_nat (length n)).

(** The time in a nonce: its last eight digits. *)
Definition nonce_time (n : bytes) : option Z := hex_number UINT32_MAX (drop (length n - 8) n).

Definition expired (timeout now t0 : Z) : Prop := u32 (t0 + timeout) < now \/ u32 (t0 + timeout) < t0.

#[export] Instance expired_dec a b c : Decision (expired a b c).
Proof. unfold expired. apply _. Defined.

(** User, realm and age of the nonce. *)
Definition first_level (ps : list param) (realm user : bytes) (timeout now : Z) : auth_result + (bytes * Z * Z) :=
  match field ps 128 (str "username"), field ps 256 (str "realm"), field ps 129 (str "nonce") with
  | Some u, Some r, Some n =>
      if decide (u = user /\ r = realm) then
        if decide (32 * 1024 < room ps u r n) then inl Auth_no
        else
          match nonce_time n with
          | None => inl Auth_no
          | Some t0 => if decide (expired timeout now t0) then inl Auth_invalid_nonce else inr (n, t0, room ps u r n)
          end
      else inl Auth_no
  | _, _, _ => inl Auth_no
  end.

(** What the client sends for its digest. *)
Definition client_fields (ps : list param) : option (bytes * bytes * bytes * bytes) :=
  match field ps 129 (str "cnonce"), field ps 15 (str "qop"), field ps 20 (str "nc"), field ps 256 (str "response") with
  | Some c, Some q, Some k, Some r => if decide (q = str "auth") then Some (c, q, k, r) else None
  | _, _, _, _ => None
  end.

Lemma room_ok ps u r n :
  field ps 128 (str "username") = Some u -> field ps 256 (str "realm") = Some r -> field ps 129 (str "nonce") = Some n ->
  0 <= room ps u r n /\ (forall v, param_value ps (str "uri") = Some v -> Z.of_nat (length v) < room ps u r n).
Proof.
  intros Hu Hr Hn. pose proof (cost_bound ps [str "username"; str "realm"; str "nonce"; str "uri"]) as Hc.
  assert (forall k s x, field ps s k = Some x -> (S (length k + length x) <= cost ps k)%nat) as Hf.
  { intros k s x. unfold field, cost, truncated. destruct (param_value ps k) as [v|]; [|done]. destruct (decide _); [done|]. intros [= <-].
    rewrite length_take. lia. }
  pose proof (Hf _ _ _ Hu) as H1. pose proof (Hf _ _ _ Hr) as H2. pose proof (Hf _ _ _ Hn) as H3. cbn [costs] in Hc.
  assert (distinct_names [str "username"; str "realm"; str "nonce"; str "uri"]) as Hd.
  { unfold distinct_names. repeat constructor; vm_compute; discriminate. }
  specialize (Hc Hd). change (length (str "username")) with 8%nat in H1. change (length (str "realm")) with 5%nat in H2.
  change (length (str "nonce")) with 5%nat in H3. unfold room. split; [lia|].
  intros v Ev. assert (cost ps (str "uri") = S (3 + length v)) as Eu by (unfold cost; by rewrite Ev). lia.
Qed.

Section Levels.
Context `{Platform} (fresh : nat -> bytes) (Hfresh : forall n, length (fresh n) = n).
Context (ps : list param) (Hps : params_ok ps).
#[local] Abbreviation hdr := (cstr (params_text ps)).

Lemma sub_value_ok n key : (0 < n)%nat -> no_nul key ->
  ∃ len v, sub_value fresh n hdr key = Some (len, v)
    /\ match field ps (Z.of_nat n) key with Some x => len = Z.of_nat (length x) /\ len <> 0 /\ holds v x | None => len = 0 end.
Proof using Hfresh Hps.
  intros Hn Hk. destruct (lookup_field ps key (fresh n) (Z.of_nat n) Hps Hk) as (len & v & E & Hf); [rewrite Hfresh; lia|].
  exists len, v. split; [exact E|]. destruct (field ps (Z.of_nat n) key) as [x|] eqn:Ef; [|done].
  destruct Hf as [-> Hh]. split; [done|]. split; [|done]. apply field_string in Ef as (_ & Hne & _); [|done]. by destruct x.
Qed.

Lemma expect_value_ok n key o x0 : (0 < n)%nat -> no_nul key -> holds o x0 ->
  expect_value fresh n hdr key o
  = Some (match field ps (Z.of_nat n) key with
          | Some x => if decide (x0 = x) then Some (Z.of_nat (length x)) else None
          | None => None
          end).
Proof using Hfresh Hps.
  intros Hn Hk Ho. unfold expect_value. destruct (sub_value_ok n key Hn Hk) as (len & v & -> & Hf). cbn [mbind option_bind].
  destruct (field ps (Z.of_nat n) key) as [x|]; [|by rewrite Hf].
  destruct Hf as (-> & Hne & Hh). destruct (Z.eqb_spec 0 (Z.of_nat (length x))); [done|].
  rewrite (holds_strcmp o v x0 x) by done. cbn [mbind option_bind]. by rewrite bool_decide_decide; destruct (decide _).
Qed.

Lemma nonce_timestamp_ok o n : holds o n -> (8 <= length n)%nat -> nonce_timestamp o (Z.of_nat (length n)) = Some (nonce_time n).
Proof using.
  intros [_ [r ->]] Hl. unfold nonce_timestamp, nonce_time. destruct (Z.ltb_spec (Z.of_nat (length n) - 8) 0); [lia|].
  replace (Z.to_nat (Z.of_nat (length n) - 8)) with (length n - 8)%nat by lia. rewrite drop_app_le by lia.
  set (s := drop _ n). assert (length s = 8%nat) as Ls by (subst s; rewrite length_drop; lia).
  destruct (hex_parsers s r) as (k & v & _ & _ & E & _ & Hk & _); [by destruct s|]. rewrite Ls in E, Hk. rewrite E. cbn [mbind option_bind].
  destruct (k =? 8)%nat; [by destruct Hk as [<- _]|by rewrite Hk].
Qed.

(** The nonce is long enough for a time stamp. *)
Definition long_nonce : Prop := forall n, field ps 129 (str "nonce") = Some n -> (8 <= length n)%nat.

Lemma check_nonce_age_ok ro uo realm user timeout now :
  Z.of_nat (length (params_text ps)) <= SIZE_MAX -> long_nonce -> holds ro realm -> holds uo user ->
  ∃ res, check_nonce_age fresh hdr ro uo timeout now = Some res
    /\ match first_level ps realm user timeout now with
       | inl x => res = inl x
       | inr (n, t0, left_) => ∃ o, res = inr (o, t0, left_) /\ holds o n
       end.
Proof using Hfresh Hps.
  intros Hsz Hlong Hro Huo. unfold check_nonce_age, first_level.
  assert (no_nul (params_text ps)) as Hnn by (by apply params_no_nul, Hps). rewrite strlen_cstr by done. cbn [mbind option_bind].
  rewrite (expect_value_ok MAX_USERNAME_LENGTH (str "username") uo user) by (done || lia || apply (bool_decide_unpack _); vm_compute; exact I).
  cbn [mbind option_bind]. change (Z.of_nat MAX_USERNAME_LENGTH) with 128. destruct (field ps 128 (str "username")) as [u|] eqn:Eu; [|by eexists].
  destruct (decide (user = u)) as [<-|Hu].
  2:{ eexists. split; [done|]. destruct (field ps 256 (str "realm")), (field ps 129 (str "nonce")); try done. rewrite decide_False; [done|]. intros [? _]. congruence. }
  rewrite (expect_value_ok MAX_REALM_LENGTH (str "realm") ro realm) by (done || lia || apply (bool_decide_unpack _); vm_compute; exact I).
  cbn [mbind option_bind]. change (Z.of_nat MAX_REALM_LENGTH) with 256. destruct (field ps 256 (str "realm")) as [r|] eqn:Er; [|by eexists].
  destruct (decide (realm = r)) as [<-|Hr].
  2:{ eexists. split; [done|]. destruct (field ps 129 (str "nonce")); try done. rewrite decide_False; [done|]. intros [_ ?]. congruence. }
  destruct (sub_value_ok MAX_NONCE_LENGTH (str "nonce")) as (len & v & -> & Hf); [lia|apply (bool_decide_unpack _); vm_compute; exact I|].
  cbn [mbind option_bind]. change (Z.of_nat MAX_NONCE_LENGTH) with 129 in *. destruct (field ps 129 (str "nonce")) as [n|] eqn:En.
  2:{ subst len. by eexists. }
  destruct Hf as (-> & Hne & Hh). destruct (Z.eqb_spec 0 (Z.of_nat (length n))); [lia|]. rewrite decide_True by done.
  destruct (room_ok ps user realm n Eu Er En) as [Hroom _].
  assert (usize (usize (usize (Z.of_nat (length (params_text ps)) - (8 + Z.of_nat (length user))) - (5 + Z.of_nat (length realm))) - (5 + Z.of_nat (length n)))
    = room ps user realm n) as ->.
  { unfold room in *. rewrite (usize_small (Z.of_nat (length (params_text ps)) - _)) by lia.
    rewrite (usize_small (_ - _ - (5 + Z.of_nat (length realm)))) by lia. by rewrite usize_small by lia. }
  destruct (Z.gtb_spec (room ps user realm n) (32 * 1024)) as [Hg|Hg]; [rewrite decide_True by lia|rewrite decide_False by lia].
  { by eexists. }
  rewrite nonce_timestamp_ok by (done || by apply Hlong). cbn [mbind option_bind].
  destruct (nonce_time n) as [t0|]; [|by eexists]. unfold expired.
  destruct (Z.ltb_spec (u32 (t0 + timeout)) now), (Z.ltb_spec (u32 (t0 + timeout)) t0); cbn [orb];
    [rewrite decide_True by tauto..|rewrite decide_False by lia]; eauto.
Qed.

Lemma client_values_ok :
  ∃ res, client_values fresh hdr = Some res
    /\ match client_fields ps with
       | None => res = None
       | Some (c, q, k, r) =>
           ∃ oc oq ok or_, res = Some (oc, oq, ok, Z.of_nat (length k), or_) /\ k ≠ []
             /\ holds oc c /\ holds oq q /\ holds ok k /\ holds or_ r
       end.
Proof using Hfresh Hps.
  unfold client_values, client_fields.
  destruct (sub_value_ok MAX_NONCE_LENGTH (str "cnonce")) as (l1 & o1 & -> & H1); [lia|apply (bool_decide_unpack _); vm_compute; exact I|].
  cbn [mbind option_bind]. change (Z.of_nat MAX_NONCE_LENGTH) with 129 in *. destruct (field ps 129 (str "cnonce")) as [c|]; [|subst l1; by eexists].
  destruct H1 as (-> & Hne1 & Hh1). destruct (Z.eqb_spec 0 (Z.of_nat (length c))); [lia|].
  destruct (sub_value_ok 15 (str "qop")) as (l2 & o2 & -> & H2); [lia|apply (bool_decide_unpack _); vm_compute; exact I|].
  cbn [mbind option_bind]. change (Z.of_nat 15) with 15 in *. destruct (field ps 15 (str "qop")) as [q|]; [|subst l2; by eexists].
  destruct H2 as (-> & Hne2 & Hh2). destruct (Z.eqb_spec 0 (Z.of_nat (length q))); [lia|].
  assert (qop_unknown o2 = Some (negb (bool_decide (q = str "auth")))) as ->.
  { unfold qop_unknown. rewrite (holds_strcmp o2 (cstr (str "auth")) q (str "auth")), (holds_strcmp o2 (cstr []) q [])
      by (done || apply holds_cstr; split; apply (bool_decide_unpack _); vm_compute; exact I).
    cbn [mbind option_bind]. destruct (bool_decide_reflect (q = str "auth")); [done|].
    rewrite bool_decide_eq_false_2; [done|]. intros Eq. by rewrite Eq in Hne2. }
  cbn [mbind option_bind]. destruct (bool_decide_reflect (q = str "auth")) as [Eq|Eq]; cbn [negb].
  2:{ eexists. split; [done|]. destruct (field ps 20 (str "nc")), (field ps 256 (str "response")); try done. by rewrite decide_False. }
  destruct (sub_value_ok 20 (str "nc")) as (l3 & o3 & -> & H3); [lia|apply (bool_decide_unpack _); vm_compute; exact I|].
  cbn [mbind option_bind]. change (Z.of_nat 20) with 20 in *. destruct (field ps 20 (str "nc")) as [k|]; [|subst l3; by eexists].
  destruct H3 as (-> & Hne3 & Hh3). destruct (Z.eqb_spec 0 (Z.of_nat (length k))); [lia|].
  destruct (sub_value_ok MAX_AUTH_RESPONSE_LENGTH (str "response")) as (l4 & o4 & -> & H4); [lia|apply (bool_decide_unpack _); vm_compute; exact I|].
  cbn [mbind option_bind]. change (Z.of_nat MAX_AUTH_RESPONSE_LENGTH) with 256 in *. destruct (field ps 256 (str "response")) as [r|]; [|subst l4; by eexists].
  destruct H4 as (-> & Hne4 & Hh4). destruct (Z.eqb_spec 0 (Z.of_nat (length r))); [lia|]. rewrite decide_True by done.
  eexists. split; [done|]. exists o1, o2, o3, o4. split; [done|]. split; [by destruct k|]. done.
Qed.
End Levels.

(** ** The digests *)

Section Digest_check.
Context `{Platform} (fresh : nat -> bytes) (Hfresh : forall n, length (fresh n) = n).
Context (malloc : Z -> option bytes) (Hmalloc : forall n m, malloc n = Some m -> Z.of_nat (length m) = n).
Context (unescape_callback : bytes -> nat -> option (bytes * nat)) `{!UnescapeCallback unescape_callback}.
Context {ctx : Type} (ops0 : hash_ops ctx) (valid : ctx -> Prop) `{!LawfulHash ops0 valid}.
Context (Hsize : (digest_size ops0 <= MAX_DIGEST)%nat).
#[local] Abbreviation request_digest := (request_digest ops0 valid).
#[local] Abbreviation da_ready := (da_ready ops0 valid).

(** The hashed password [ha1], from the password or given by the caller. *)
Definition secret (realm user : bytes) (password digest : option bytes) (ha1 : bytes) : Prop :=
  match digest with
  | Some d => Forall is_byte d /\ length d = digest_size ops0 /\ ha1 = hex d
  | None => ∃ o p, password = Some o /\ holds o p /\ ha1 = ha1_of ops0 valid user realm p
  end.

(** The parts of a URI in front of and behind the question mark. *)
Definition uri_path (uri : bytes) : bytes := (span 63 uri).1.

Definition uri_args (uri : bytes) : bytes := default [] (span 63 uri).2.

(** The URI of the header is that of the request, and the response is the
    digest for it. *)
Definition response_accepted (l : list MHD_HTTP_Header) (method url ha1 n cnonce qop nc_ response_ uri : bytes) : Prop :=
  visible (decode unescape_callback (uri_path uri)) = url
  /\ malloc (Z.of_nat (length (uri_args uri) + 1)) ≠ None /\ arguments_match l (arguments unescape_callback (uri_args uri))
  /\ response_ = request_digest ha1 n nc_ cnonce qop method uri.

#[export] Instance response_accepted_dec l m u h n c q k r uri : Decision (response_accepted l m u h n c q k r uri).
Proof. unfold response_accepted. apply _. Defined.

Lemma secret_bytes realm user password digest ha1 :
  secret realm user password digest ha1 -> length ha1 = (2 * digest_size ops0)%nat /\ Forall is_byte ha1.
Proof using.
  unfold secret. destruct digest as [d|].
  - intros (Hb & Hl & ->). rewrite length_hex, Hl. split; [done|by apply hex_is_byte].
  - intros (o & p & _ & _ & ->). unfold ha1_of. rewrite length_hex, digest_length. split; [done|apply hex_is_byte, digest_is_byte].
Qed.

(** The first steps of [check_response]. *)
Lemma secret_ok da ro uo realm user password digest ha1 no cno :
  da_ready da -> plain_alg (alg da) -> holds ro realm -> holds uo user -> secret realm user password digest ha1 ->
  ∃ da', match digest with
         | Some d => digest_calc_ha1_from_digest (alg da) da d no cno
         | None => p ← password; digest_calc_ha1_from_user (alg da) uo ro p no cno da
         end = Some da'
    /\ sessionkey da' = cstr ha1 /\ da_ready da' /\ alg da' = alg da.
Proof using Hsize.
  intros Hda Ha Hro Huo Hs. pose proof (secret_bytes _ _ _ _ _ Hs) as [Hl _]. unfold secret in Hs. destruct digest as [d|].
  - destruct Hs as (Hb & Hd & ->). destruct Hda as [Eo Ek Ev]. erewrite ha1_from_digest_ok by done.
    eexists. split; [done|]. split; [done|]. split; [|done]. split; [done| |done]. cbn [sessionkey set_key]. unfold cstr.
    rewrite length_app, Hl. done.
  - destruct Hs as (o & p & -> & Hp & ->). cbn [mbind option_bind]. by apply ha1_from_user_ok.
Qed.

Lemma uri_ok o uri l :
  holds o uri -> Z.of_nat (length uri) <= UINT32_MAX -> Forall entry_named l -> Z.of_nat (length l) <= UINT32_MAX ->
  ∃ qmark o' g o'' n, strchr o 63 = Some qmark
    /\ (match qmark with None => Some o | Some q => mem_write o (Z.of_nat q) [0] end) = Some o'
    /\ unescape_callback o' 0 = Some (o'', n)
    /\ o'' = decode unescape_callback (uri_path uri) ++ 0 :: g
    /\ check_argument_match malloc unescape_callback l (match qmark with None => cstr [] | Some q => drop (S q) o'' end)
       = Some (bool_decide (malloc (Z.of_nat (length (uri_args uri) + 1)) ≠ None
                            /\ arguments_match l (arguments unescape_callback (uri_args uri)))).
Proof using Hmalloc Hsize.
  intros [[Hn _] [r ->]] Hlen Hl Ll. unfold uri_path, uri_args. destruct (first_occurrence 63 uri) as [Hq|(path & args & -> & Hq)].
  - rewrite span_absent by done. destruct (unescape_in_place unescape_callback [] uri r Hn) as (g & n & E & Hg).
    exists None, (uri ++ 0 :: r), (g ++ r), (decode unescape_callback uri ++ 0 :: g ++ r), n.
    split; [by apply strchr_absent|]. split; [done|]. split; [exact E|]. split; [done|].
    apply (check_argument_match_ok malloc Hmalloc unescape_callback l [] []); [done|constructor|cbn; lia|done].
  - rewrite span_present by done. apply no_nul_app in Hn as [Hp [_ Ha]%no_nul_cons].
    rewrite length_app in Hlen. cbn [length] in Hlen.
    destruct (unescape_in_place unescape_callback [] path (args ++ 0 :: r) Hp) as (g & n & E & Hg).
    exists (Some (length path)), (path ++ 0 :: args ++ 0 :: r), (g ++ args ++ 0 :: r),
      (decode unescape_callback path ++ 0 :: g ++ args ++ 0 :: r), n.
    rewrite <- app_assoc, <- app_comm_cons. split; [by apply strchr_present|]. split.
    { change (63 :: args ++ 0 :: r) with ([63] ++ args ++ 0 :: r). by rewrite mem_write_mid. }
    split; [exact E|]. split; [done|].
    assert (drop (S (length path)) (decode unescape_callback path ++ 0 :: g ++ args ++ 0 :: r) = args ++ 0 :: r) as ->.
    { change (0 :: g ++ args ++ 0 :: r) with ((0 :: g) ++ args ++ 0 :: r). rewrite app_assoc. apply drop_app_at.
      rewrite length_app. cbn [length]. lia. }
    apply (check_argument_match_ok malloc Hmalloc unescape_callback l args r); [done|done|lia|done].
Qed.

Lemma check_response_ok da l method url ro uo realm user password digest ha1 no cno qo nco reso n cnonce qop nc_ response_ o uri :
  da_ready da -> plain_alg (alg da) -> holds ro realm -> holds uo user -> secret realm user password digest ha1 ->
  holds no n -> holds cno cnonce -> holds qo qop -> holds nco nc_ -> holds reso response_ -> holds o uri ->
  c_string method -> c_string url ->
  Z.of_nat (length uri) <= UINT32_MAX -> Forall entry_named l -> Z.of_nat (length l) <= UINT32_MAX ->
  check_response malloc unescape_callback da l (cstr method) (cstr url) ro uo password digest no cno qo nco reso o
  = Some (if decide (response_accepted l method url ha1 n cnonce qop nc_ response_ uri) then Auth_yes else Auth_no).
Proof using Hmalloc Hsize.
  intros Hda Ha Hro Huo Hsec Hno Hcno Hqo Hnco Hreso Ho Hm Hurl Hlen Hl Ll. unfold check_response.
  destruct (secret_ok da ro uo realm user password digest ha1 no cno Hda Ha Hro Huo Hsec) as (d1 & -> & Ek & Hd1 & Ea1).
  cbn [mbind option_bind]. pose proof (secret_bytes _ _ _ _ _ Hsec) as [Lh Bh].
  assert (mem_read (sessionkey d1) 0 (Z.of_nat (digest_size (ops d1) * 2 + 1)) = Some (cstr ha1)) as ->.
  { rewrite (ready_ops _ _ _ Hd1). replace (digest_size ops0 * 2 + 1)%nat with (length (sessionkey d1)) by (rewrite Ek; unfold cstr; rewrite length_app, Lh; cbn [length]; lia).
    pose proof (mem_read_app (sessionkey d1) []) as E. rewrite app_nil_r in E. by rewrite E, Ek. }
  cbn [mbind option_bind].
  destruct (response_ok ops0 valid Hsize d1 ha1 n nc_ cnonce qop method uri no nco cno qo (cstr method) o) as (d2 & -> & Ek2 & _);
    [done..|by apply holds_cstr|done|].
  cbn [mbind option_bind]. pose proof (uri_ok o uri l Ho Hlen Hl Ll) as Huri. unfold response_accepted.
  destruct Huri as (qmark & o' & g & o'' & k & Eq & Ew & Eu & Eo & Ec).
  rewrite Eq. cbn [mbind option_bind]. rewrite Ew. cbn [mbind option_bind]. rewrite Eu. cbn [mbind option_bind].
  assert (strcmp_eq o'' (cstr url) = Some (bool_decide (visible (decode unescape_callback (uri_path uri)) = url))) as ->.
  { unfold strcmp_eq. rewrite Eo, cstring_visible, cstring_cstr by apply Hurl. done. }
  cbn [mbind option_bind]. destruct (bool_decide_reflect (visible (decode unescape_callback (uri_path uri)) = url)) as [Ep|Ep]; cbn [negb].
  2:{ by rewrite decide_False by tauto. }
  rewrite Ec. cbn [mbind option_bind].
  destruct (bool_decide_reflect (malloc (Z.of_nat (length (uri_args uri) + 1)) ≠ None
    /\ arguments_match l (arguments unescape_callback (uri_args uri)))) as [Eg|Eg]; cbn [negb].
  2:{ by rewrite decide_False by tauto. }
  rewrite Ek2, (holds_strcmp reso _ response_ (request_digest ha1 n nc_ cnonce qop method uri)); [|done|].
  2:{ apply holds_cstr. unfold AuthDigest.request_digest. split; [apply hex_no_nul|apply hex_is_byte]; apply digest_is_byte. }
  cbn [mbind option_bind]. f_equal.
  destruct (bool_decide_reflect (response_ = request_digest ha1 n nc_ cnonce qop method uri)); [rewrite decide_True by tauto|rewrite decide_False by tauto]; done.
Qed.
End Digest_check.

(** ** The table of nonces in a check *)

(** An entry that was written holds a string. *)
Definition entry_written (e : option MHD_NonceNc) : Prop :=
  ∃ nn s r, e = Some nn /\ nonce nn = s ++ 0 :: r /\ 0 <= nc nn <= UINT64_MAX.

Definition table_written (nnc : list (option MHD_NonceNc)) : Prop := table_ok nnc /\ Forall entry_written nnc.

(** Only the string in the array of the nonce matters. *)
Lemma check_nonce_string nnc o n i : holds o n -> check_nonce_nc nnc o i = check_nonce_nc nnc (cstr n) i.
Proof.
  intros [[Hn _] [r ->]]. unfold check_nonce_nc. rewrite strlen_no_nul, strlen_cstr by done. cbn [mbind option_bind].
  assert (forall off, nonce_hash (n ++ 0 :: r) off = nonce_hash (cstr n) off) as ->.
  { induction Hn as [|c n Hc Hn IH]; intros off; cbn [cstr app nonce_hash]; [by rewrite Z.eqb_refl|].
    destruct (c =? 0); [done|apply IH]. }
  assert (forall x, mem_read (n ++ 0 :: x) 0 (Z.of_nat (length n + 1)) = Some (cstr n)) as Hr.
  { intros x. replace (length n + 1)%nat with (length (cstr n)) by (unfold cstr; by rewrite length_app).
    change (n ++ 0 :: x) with (n ++ [0] ++ x). rewrite app_assoc. apply mem_read_app. }
  rewrite Hr. change (mem_read (cstr n)) with (mem_read (n ++ 0 :: [])). rewrite Hr.
  assert (forall nn, check_counter nn (n ++ 0 :: r) i = check_counter nn (cstr n) i) as Hc.
  { intros nn. unfold check_counter, strcmp_eq. rewrite cstring_visible. unfold cstr. by rewrite cstring_visible. }
  destruct (_ <? _)%nat; [done|]. destruct (0 =? _); [done|]. destruct (nonce_hash (cstr n) 0); [|done]. cbn [mbind option_bind].
  destruct (nnc !! _) as [[nn|]|]; cbn [mbind option_bind]; [by rewrite Hc|reflexivity..].
Qed.

Lemma check_counter_total nn s r t c : nonce nn = s ++ 0 :: r -> 0 <= nc nn <= UINT64_MAX -> no_nul t -> 0 <= c <= UINT64_MAX ->
  ∃ b nn', check_counter nn (cstr t) c = Some (b, nn').
Proof.
  intros En Hnn Ht Hc. unfold check_counter.
  assert (∃ st, (if c <=? nc nn then Some true else same ← strcmp_eq (nonce nn) (cstr t); Some (negb same)) = Some st) as [st Est].
  { destruct (c <=? nc nn); [eauto|]. unfold strcmp_eq. rewrite En, cstring_visible, cstring_cstr by done. cbn [mbind option_bind]. eauto. }
  rewrite Est. destruct (_ && _) eqn:E; cbn [mbind option_bind]; [|destruct st; eauto].
  apply andb_true_iff in E as [[E1%Z.ltb_lt E2%Z.ltb_lt]%andb_true_iff E3%Z.leb_le].
  assert (c + 64 <= UINT64_MAX) as Hle.
  { destruct (Z.leb_spec (c + 64) UINT64_MAX); [done|]. exfalso. unfold wrap in E2.
    rewrite <- (Z.mod_unique (c + 64) (2 ^ 64) 1 (c + 64 - 2 ^ 64)) in E2 by lia. lia. }
  rewrite (u64_small (c + 64)) in E3 by lia. rewrite (u64_small (nc nn - c - 1)), bit64_spec by lia. cbn [mbind option_bind].
  destruct (0 =? _); cbn [mbind option_bind]; [eauto|]. destruct st; eauto.
Qed.

Lemma check_nonce_total nnc n i : table_written nnc -> no_nul n -> 0 <= i <= UINT64_MAX ->
  ∃ b nnc', check_nonce_nc nnc (cstr n) i = Some (b, nnc').
Proof.
  intros [Ht Hw] Hn Hi. unfold check_nonce_nc. rewrite strlen_cstr by done. cbn [mbind option_bind].
  destruct (Nat.ltb_spec MAX_NONCE_LENGTH (length n + 1)); [eauto|]. destruct (0 =? _); [eauto|].
  destruct (slot_lookup nnc n Ht Hn) as (h & e & -> & Ei & Ee). cbn [mbind option_bind]. rewrite Ei, Ee. cbn [mbind option_bind].
  pose proof (Forall_lookup_1 _ _ _ _ Hw Ee) as (nn & s & r & -> & En & Hnn). destruct (0 =? i).
  - replace (Z.of_nat (length n + 1)) with (Z.of_nat (length (cstr n))) by (unfold cstr; by rewrite length_app).
    pose proof (mem_read_app (cstr n) []) as E. rewrite app_nil_r in E. rewrite E. cbn [mbind option_bind].
    pose proof (table_entries _ Ht _ _ Ee) as Hl. rewrite <- (take_drop (length (cstr n)) (nonce nn)).
    rewrite (mem_write_mid [] (take (length (cstr n)) (nonce nn)) (drop (length (cstr n)) (nonce nn)) (cstr n));
      [eauto|done|unfold cstr; rewrite length_take, length_app; cbn [length]; lia].
  - cbn [mbind option_bind]. destruct (check_counter_total nn s r n i En Hnn Hn Hi) as (b & nn' & ->). eauto.
Qed.

(** The entry of the nonce of a request can be read. *)
Definition nonce_readable (nnc : list (option MHD_NonceNc)) (ps : list param) : Prop :=
  forall n i, field ps 129 (str "nonce") = Some n -> 0 <= i <= UINT64_MAX -> ∃ b nnc', check_nonce_nc nnc (cstr n) i = Some (b, nnc').

Lemma table_readable nnc ps : table_written nnc -> params_ok ps -> nonce_readable nnc ps.
Proof. intros Ht Hps n i Hn Hi. apply check_nonce_total; [done| |done]. by apply (field_string ps 129 (str "nonce") n Hps). Qed.

Lemma hex_number_range max s i : hex_number max s = Some i -> 0 <= i <= max.
Proof.
  unfold hex_number. destruct (decide _) as [[Hd Hm]|]; [|done]. intros [= <-]. split; [|done].
  apply (value_from_le 16); [lia|done|]. apply digit_run_in_base; [|done]. apply toxdigitvalue_range.
Qed.

(** ** The whole check *)

Section Whole.
Context `{Platform} (fresh : nat -> bytes) (Hfresh : forall n, length (fresh n) = n).
Context (malloc : Z -> option bytes) (Hmalloc : forall n m, malloc n = Some m -> Z.of_nat (length m) = n).
Context (unescape_callback : bytes -> nat -> option (bytes * nat)) `{!UnescapeCallback unescape_callback}.
Context {ctx : Type} (ops0 : hash_ops ctx) (valid : ctx -> Prop) `{!LawfulHash ops0 valid}.
Context (Hsize : (digest_size ops0 <= MAX_DIGEST)%nat).

(** A request as the parser leaves it: its headers, the list of parameters in
    its authorization header, the method and the URL. *)
Record request_is (c : MHD_Connection) (l : list MHD_HTTP_Header) (ps : list param) (m u : bytes) : Prop := {
  is_headers : resolve_all (memory (pool c)) (headers_received (req c)) = Some l;
  is_named : Forall entry_named l;
  is_count : Z.of_nat (length l) <= UINT32_MAX;
  is_header : MHD_lookup_connection_value (Some l) MHD_HEADER_KIND (Some Authorization) = Some (Some (BASE_ ++ params_text ps));
  is_params : params_ok ps;
  is_size : Z.of_nat (length (params_text ps)) <= SIZE_MAX;
  is_method : (p ← method (req c); chars (memory (pool c)) p) = Some m;
  is_url : (p ← url (req c); chars (memory (pool c)) p) = Some u;
  is_strings : c_string m /\ c_string u
}.

Definition uri_field (ps : list param) : option bytes :=
  v ← param_value ps (str "uri"); if decide (v = []) then None else Some v.

Section Fixed_request.
Context (l : list MHD_HTTP_Header) (ps : list param) (m u realm user rnd ha1 : bytes) (timeout t : Z).
#[local] Abbreviation accepted_ := (response_accepted malloc unescape_callback ops0 valid).
#[local] Abbreviation nonce_at := (λ t0, nonce_of ops0 valid t0 m rnd u realm).

(** The result as the branches of the code give it. *)
Definition verdict (nnc : list (option MHD_NonceNc)) : option (auth_result * list (option MHD_NonceNc)) :=
  match first_level ps realm user timeout (u32 t) with
  | inl res => Some (res, nnc)
  | inr (n, t0, left_) =>
      if negb (bool_decide (n = nonce_at t0)) then Some (Auth_invalid_nonce, nnc)
      else
        match client_fields ps with
        | None => Some (Auth_no, nnc)
        | Some (cn, q, k, r) =>
            match hex_number UINT64_MAX k with
            | None => Some (Auth_no, nnc)
            | Some i =>
                '(ok, nnc) ← check_nonce_nc nnc (cstr n) i;
                if negb ok then Some (Auth_no, nnc)
                else
                  match malloc (left_ + 1), uri_field ps with
                  | Some _, Some uri => Some (if decide (accepted_ l m u ha1 n cn q k r uri) then Auth_yes else Auth_no, nnc)
                  | _, _ => Some (Auth_no, nnc)
                  end
            end
        end
  end.

(** A request is authentic when all of this holds. *)
Record authentic_with (nnc : list (option MHD_NonceNc)) (n cn k r uri : bytes) (t0 i : Z) : Prop := {
  au_user : field ps 128 (str "username") = Some user;
  au_realm : field ps 256 (str "realm") = Some realm;
  au_nonce : field ps 129 (str "nonce") = Some n;
  au_room : room ps user realm n <= 32 * 1024 /\ malloc (room ps user realm n + 1) ≠ None;
  au_time : nonce_time n = Some t0 /\ ~ expired timeout (u32 t) t0;
  au_own : n = nonce_at t0;
  au_client : client_fields ps = Some (cn, str "auth", k, r);
  au_counter : hex_number UINT64_MAX k = Some i /\ fst <$> check_nonce_nc nnc (cstr n) i = Some true;
  au_uri : uri_field ps = Some uri;
  au_response : accepted_ l m u ha1 n cn (str "auth") k r uri
}.

Definition authentic (nnc : list (option MHD_NonceNc)) : Prop := ∃ n cn k r uri t0 i, authentic_with nnc n cn k r uri t0 i.

(** A nonce of the right user that is too old or not one of the server. *)
Definition invalid_nonce : Prop :=
  ∃ n t0, field ps 128 (str "username") = Some user /\ field ps 256 (str "realm") = Some realm
    /\ field ps 129 (str "nonce") = Some n /\ room ps user realm n <= 32 * 1024 /\ nonce_time n = Some t0
    /\ (expired timeout (u32 t) t0 \/ n ≠ nonce_at t0).

#[local] Ltac unauthentic := intros (? & ? & ? & ? & ? & ? & ? & []); simplify_eq; naive_solver.

Lemma client_qop cn q k r : client_fields ps = Some (cn, q, k, r) -> q = str "auth".
Proof using.
  unfold client_fields. repeat match goal with |- context [field ps ?a ?b] => destruct (field ps a b) end; try done.
  destruct (decide _) as [->|]; [|done]. by intros [= _ <- _ _].
Qed.

Lemma first_level_cases :
  match first_level ps realm user timeout (u32 t) with
  | inl Auth_yes => False
  | inl Auth_no => ~ invalid_nonce /\ forall nnc, ~ authentic nnc
  | inl Auth_invalid_nonce => invalid_nonce /\ forall nnc, ~ authentic nnc
  | inr (n, t0, left_) =>
      field ps 128 (str "username") = Some user /\ field ps 256 (str "realm") = Some realm
      /\ field ps 129 (str "nonce") = Some n /\ nonce_time n = Some t0 /\ ~ expired timeout (u32 t) t0
      /\ left_ = room ps user realm n /\ left_ <= 32 * 1024
  end.
Proof using Hsize.
  unfold first_level, invalid_nonce.
  destruct (field ps 128 _) as [x|] eqn:E1; [|split; [naive_solver|intros nnc; unauthentic]].
  destruct (field ps 256 _) as [y|] eqn:E2; [|split; [naive_solver|intros nnc; unauthentic]].
  destruct (field ps 129 _) as [n|] eqn:E3; [|split; [naive_solver|intros nnc; unauthentic]].
  destruct (decide (_ /\ _)) as [[-> ->]|Hno]; [|split; [naive_solver|intros nnc; unauthentic]].
  destruct (decide (_ < _)) as [Hr|Hr].
  { split; [intros (n' & t0 & _ & _ & [= <-] & ? & _); lia|]. intros nnc (? & ? & ? & ? & ? & ? & ? & []). simplify_eq. lia. }
  destruct (nonce_time n) as [t0|] eqn:Et; [|split; [naive_solver|intros nnc; unauthentic]].
  destruct (decide (expired _ _ _)) as [He|He].
  - split; [|intros nnc; unauthentic]. exists n, t0. split_and!; [done..|lia|done|by left].
  - split_and!; [done..|lia].
Qed.

(** What the result of the branches means. *)
Lemma verdict_cases nnc res nnc' :
  verdict nnc = Some (res, nnc') -> (res = Auth_yes <-> authentic nnc) /\ (res = Auth_invalid_nonce <-> invalid_nonce).
Proof using Hsize.
  unfold verdict. pose proof first_level_cases as Hf. destruct (first_level _ _ _ _ _) as [x|[[n t0] left_]].
  { intros [= <- <-]. destruct x; [done|..]; destruct Hf as [Hi Ha]; specialize (Ha nnc); split; split; done || tauto. }
  destruct Hf as (E1 & E2 & E3 & Et & He & -> & Hr).
  destruct (bool_decide_reflect (n = nonce_at t0)) as [En|En]; cbn [negb].
  2:{ intros [= <- <-]. split; split; try done.
      - unauthentic.
      - intros _. exists n, t0. split_and!; [done..|by right]. }
  assert (~ invalid_nonce) as Hni.
  { intros (n' & t0' & _ & _ & ? & _ & ? & Hx). simplify_eq. by destruct Hx. }
  assert (~ authentic nnc -> res = Auth_no -> (res = Auth_yes <-> authentic nnc) /\ (res = Auth_invalid_nonce <-> invalid_nonce)) as Hno.
  { intros Ha ->. split; split; done || tauto. }
  destruct (client_fields ps) as [[[[cn q] k] r]|] eqn:Ec.
  2:{ intros E. injection E as <- <-. apply Hno; [|done]. unauthentic. }
  pose proof (client_qop _ _ _ _ Ec) as ->. destruct (hex_number UINT64_MAX k) as [i|] eqn:Ek.
  2:{ intros E. injection E as <- <-. apply Hno; [|done]. unauthentic. }
  intros E. apply bind_Some in E as ([ok nnc1] & Etab & E). destruct ok; cbn [negb] in E.
  2:{ injection E as <- <-. apply Hno; [|done]. intros (n' & cn' & k' & r' & uri' & t0' & i' & []).
      assert (n' = n) as -> by congruence. assert (k' = k) as -> by congruence.
      destruct au_counter0 as [Ei Hx]. assert (i' = i) as -> by congruence. by rewrite Etab in Hx. }
  destruct (malloc _) eqn:Em.
  2:{ injection E as <- <-. apply Hno; [|done]. intros (n' & cn' & k' & r' & uri' & t0' & i' & []).
      assert (n' = n) as -> by congruence. tauto. }
  destruct (uri_field ps) as [uri|] eqn:Eu.
  2:{ injection E as <- <-. apply Hno; [|done]. intros (n' & cn' & k' & r' & uri' & t0' & i' & []). congruence. }
  destruct (decide _) as [Ha|Ha].
  - injection E as <- <-. split; split; try done. intros _. exists n, cn, k, r, uri, t0, i. split; try done.
    + by rewrite Em.
    + by rewrite Etab.
  - injection E as <- <-. apply Hno; [|done]. intros (n' & cn' & k' & r' & uri' & t0' & i' & []).
    assert (n' = n) as -> by congruence. assert (uri' = uri) as -> by congruence.
    rewrite Ec in au_client0. injection au_client0 as -> -> ->. by apply Ha.
Qed.
End Fixed_request.

Lemma scheme_header_ok c l ps m u : request_is c l ps m u -> scheme_header c BASE_ = Some (Some (cstr (params_text ps))).
Proof using.
  intros [E1 _ _ E2 _ _ _ _ _]. unfold scheme_header. rewrite E1. cbn [mbind option_bind]. rewrite E2. cbn [mbind option_bind].
  assert (forall s, starts_with BASE_ (BASE_ ++ s) = true) as -> by (intros s; reflexivity). by rewrite drop_app_length.
Qed.

(** The room for the URI is enough. *)
Lemma uri_lookup_ok ps (o : bytes) u r n :
  params_ok ps -> field ps 128 (str "username") = Some u -> field ps 256 (str "realm") = Some r -> field ps 129 (str "nonce") = Some n ->
  Z.of_nat (length o) = room ps u r n + 1 ->
  ∃ len v, lookup_sub_value o (room ps u r n + 1) (cstr (params_text ps)) (cstr (str "uri")) = Some (len, v)
    /\ match uri_field ps with
       | Some x => len ≠ 0 /\ holds v x /\ Z.of_nat (length x) < room ps u r n
       | None => len = 0
       end.
Proof using Hsize.
  intros Hps Hu Hr Hn Ho. destruct (room_ok ps u r n Hu Hr Hn) as [H0 Huri].
  destruct (lookup_field ps (str "uri") o (room ps u r n + 1) Hps) as (len & v & E & Hf);
    [apply (bool_decide_unpack _); vm_compute; exact I|lia|].
  exists len, v. split; [exact E|]. unfold uri_field. unfold field in Hf.
  destruct (param_value ps (str "uri")) as [x|]; cbn [mbind option_bind]; [|done]. specialize (Huri x eq_refl).
  assert (truncated (room ps u r n + 1) x = x) as Ex by (unfold truncated; apply take_ge; lia). rewrite Ex in Hf.
  destruct (decide (x = [])); [done|]. destruct Hf as [-> Hh]. split; [by destruct x|done].
Qed.

Lemma check_all_ok c l ps m u da ro uo realm user password digest ha1 rnd timeout t nnc :
  request_is c l ps m u -> long_nonce ps -> da_ready ops0 valid da -> plain_alg (alg da) ->
  holds ro realm -> holds uo user -> secret ops0 valid realm user password digest ha1 -> Forall is_byte rnd ->
  nonce_readable nnc ps ->
  ∃ res nnc', verdict l ps m u realm user rnd ha1 timeout t nnc = Some (res, nnc')
    /\ digest_auth_check_all fresh malloc unescape_callback rnd t nnc c da ro uo password digest timeout = Some (res, nnc').
Proof using Hfresh Hmalloc Hsize.
  intros Hreq Hlong Hda Ha Hro Huo Hsec Hrnd Htab. unfold digest_auth_check_all, verdict.
  rewrite (vla_ok ops0 Hsize) by apply Hda. cbn [mbind option_bind]. rewrite (scheme_header_ok _ _ _ _ _ Hreq). cbn [mbind option_bind].
  destruct Hreq as [El Hl Ll _ Hps Hsz Em Eu [Hm Hu]].
  destruct (check_nonce_age_ok fresh Hfresh ps Hps ro uo realm user timeout (u32 t) Hsz Hlong Hro Huo) as (res & E & Hres).
  rewrite E. cbn [mbind option_bind]. clear E. pose proof (first_level_cases l ps m u realm user rnd ha1 timeout t) as Hf.
  destruct (first_level ps realm user timeout (u32 t)) as [x|[[n t0] left_]]; [rewrite Hres; eauto|].
  destruct Hf as (E1 & E2 & E3 & _ & _ & -> & Hr). destruct Hres as (o & -> & Ho).
  rewrite Em, Eu. cbn [mbind option_bind].
  destruct (calculate_nonce_ok ops0 valid Hsize fresh da t0 m rnd u realm (cstr m) (cstr u) ro
    (fresh (NONCE_STD_LEN (digest_size (ops da)) + 1))) as (d1 & E & Hd1 & Ea1);
    [done|done|by apply holds_cstr|by apply holds_cstr|done|done|by rewrite Hfresh, (ready_ops _ _ _ Hda)|].
  rewrite E. cbn [mbind option_bind]. clear E. set (no := nonce_of ops0 valid t0 m rnd u realm).
  assert (c_string no) as Hns by apply nonce_of_string.
  rewrite (holds_strcmp o _ n no) by (done || by apply holds_cstr). cbn [mbind option_bind].
  destruct (bool_decide_reflect (n = no)) as [En|En]; cbn [negb]; [|eauto].
  destruct (client_values_ok fresh Hfresh ps Hps) as (cv & E & Hcv). rewrite E. cbn [mbind option_bind]. clear E.
  destruct (client_fields ps) as [[[[cn q] k] r]|]; [|rewrite Hcv; eauto].
  destruct Hcv as (oc & oq & ok & or_ & -> & Hk & Hoc & Hoq & Hok & Hor).
  pose proof Hok as [_ [rk Erk]]. destruct (hex_parsers k rk Hk) as (_ & _ & j & w & _ & E & _ & Hj).
  rewrite Erk, Nat2Z.id, E. cbn [mbind option_bind]. clear E.
  destruct (Nat.eqb_spec j (length k)) as [->|Ejk].
  2:{ rewrite Hj. destruct (Z.eqb_spec (Z.of_nat (length k)) (Z.of_nat j)); [lia|]. cbn [negb]. eauto. }
  rewrite Z.eqb_refl. destruct Hj as [Ew Hw]. destruct w as [i|]; [|done]. rewrite <- Ew. cbn [negb mbind option_bind].
  rewrite (check_nonce_string nnc o n i Ho).
  destruct (Htab n i E3) as (b & nnc' & E); [by apply (hex_number_range UINT64_MAX k)|].
  rewrite E. cbn [mbind option_bind]. destruct b; cbn [negb]; [|eauto].
  assert (0 <= room ps user realm n) as H0 by (by apply room_ok).
  assert (usize (room ps user realm n + 1) = room ps user realm n + 1) as ->.
  { apply usize_small. unfold SIZE_MAX, SIZE_BITS. destruct sizeof_ptr_ok as [-> | ->]; lia. }
  destruct (malloc (room ps user realm n + 1)) as [uo'|] eqn:Emal; [|eauto].
  destruct (uri_lookup_ok ps uo' user realm n Hps E1 E2 E3 (Hmalloc _ _ Emal)) as (len & v & E' & Hv).
  rewrite E'. cbn [mbind option_bind]. clear E'. destruct (uri_field ps) as [uri|]; [|rewrite Hv; eauto].
  destruct Hv as (Hlen & Hv & Huri). destruct (Z.eqb_spec 0 len); [lia|]. rewrite El. cbn [mbind option_bind].
  rewrite <- Erk, (check_response_ok malloc Hmalloc unescape_callback ops0 valid Hsize d1 l m u ro uo realm user password digest ha1
    o oc oq ok or_ n cn q k r v uri) by (done || lia || by rewrite Ea1).
  cbn [mbind option_bind]. eauto.
Qed.
End Whole.

(** ** Theorem *)

(** C14: A request is authenticated exactly when it is authentic.  For every
    digest algorithm that keeps its law and every request with a well-formed
    authorization header whose nonce has room for a time stamp, the check
    stays inside its objects and ends; it answers yes exactly when the user
    and the realm are the expected ones, the nonce is one this server made for
    this method, URL and realm and is not too old, the counter is accepted by
    the table, the URI of the header decodes to the URL of the request and its
    arguments match, and the response is the digest of RFC 2617 over the
    password; it answers that the nonce is invalid exactly when the user and
    the realm are right but the nonce is too old or of somebody else.  Every
    entry of the table of nonces was written before ([table_written]; see
    [table_is_not_initialised] for one that was not), and a nonce shorter than
    its time stamp is left out ([long_nonce]). *)
Theorem digest_auth_check_correct `{Platform} fresh malloc unescape_callback `{!UnescapeCallback unescape_callback}
    {ctx : Type} (ops0 : hash_ops ctx) (valid : ctx -> Prop) `{!LawfulHash ops0 valid}
    c l ps m u da ro uo realm user password digest ha1 rnd timeout t nnc :
  (forall n, length (fresh n) = n) -> (forall n m, malloc n = Some m -> Z.of_nat (length m) = n) ->
  (digest_size ops0 <= MAX_DIGEST)%nat -> da_ready ops0 valid da -> plain_alg (alg da) ->
  request_is c l ps m u -> long_nonce ps -> holds ro realm -> holds uo user ->
  secret ops0 valid realm user password digest ha1 -> Forall is_byte rnd -> table_written nnc ->
  ∃ res nnc', digest_auth_check_all fresh malloc unescape_callback rnd t nnc c da ro uo password digest timeout = Some (res, nnc')
    /\ (res = Auth_yes <-> authentic malloc unescape_callback ops0 valid l ps m u realm user rnd ha1 timeout t nnc)
    /\ (res = Auth_invalid_nonce <-> invalid_nonce ops0 valid ps m u realm user rnd timeout t).
Proof.
  intros Hf Hm Hs Hda Ha Hreq Hlong Hro Huo Hsec Hrnd Htab.
  destruct (check_all_ok fresh Hf malloc Hm unescape_callback ops0 valid Hs c l ps m u da ro uo realm user password digest ha1 rnd timeout t nnc)
    as (res & nnc' & Ev & E); [done..|by apply table_readable, (is_params _ _ _ _ _ Hreq)|].
  exists res, nnc'. split; [exact E|]. by apply (verdict_cases malloc unescape_callback ops0 valid Hs) in Ev.
Qed.

(** ** A concrete request *)

Definition demo_fresh (n : nat) : bytes := replicate n 7.

Definition demo_malloc (n : Z) : option bytes := if n <? 0 then None else Some (replicate (Z.to_nat n) 9).

Lemma demo_fresh_ok n : length (demo_fresh n) = n.
Proof. apply length_replicate. Qed.

Lemma demo_malloc_ok n m : demo_malloc n = Some m -> Z.of_nat (length m) = n.
Proof. unfold demo_malloc. destruct (Z.ltb_spec n 0); [done|]. intros [= <-]. rewrite length_replicate. lia. Qed.

Definition demo_nonce : bytes := str "97ce36a08d1ca32367d332a578bde548000003e8".

Definition demo_auth : list param :=
  [mkParam (str "username") (str "Mufasa") true 0 1; mkParam (str "realm") (str "zoo") true 0 1;
   mkParam (str "nonce") demo_nonce true 0 1; mkParam (str "uri") (str "/dir?a=1") true 0 1;
   mkParam (str "qop") (str "auth") false 0 1; mkParam (str "nc") (str "00000001") false 0 1;
   mkParam (str "cnonce") (str "0a4f") true 0 1; mkParam (str "response") (str "4b122791f37c18cd960005a300fb6488") true 0 0].

Definition demo_auth_refs : list header_ref :=
  [mkRef (Static (str "a")) (Some (Static (str "1"))) MHD_GET_ARGUMENT_KIND;
   mkRef (Static (str "authorization")) (Some (Static (BASE_ ++ params_text demo_auth))) MHD_HEADER_KIND].

Definition demo_auth_headers : list MHD_HTTP_Header :=
  [mkHeader (Some (str "a")) (Some (str "1")) MHD_GET_ARGUMENT_KIND;
   mkHeader (Some (str "authorization")) (Some (BASE_ ++ params_text demo_auth)) MHD_HEADER_KIND].

(** A request for "/dir" with the headers [refs]. *)
Definition demo_asking (refs : list header_ref) : MHD_Connection :=
  mkConn (mkPool (replicate 64 0) 64 0 64 false) None 0 0 MHD_CONNECTION_HEADERS_PROCESSED false None true (mkUpload false 0 0 0)
    (mkRequest (Some (Static (str "GET"))) (Some (Static (str "/dir"))) (Some (Static (str "HTTP/1.1"))) None None refs) [].

Lemma demo_request_is : request_is (H := LP64) (demo_asking demo_auth_refs) demo_auth_headers demo_auth (str "GET") (str "/dir").
Proof.
  split; try (vm_compute; reflexivity).
  - repeat constructor; try done; intros s [= <-]; apply (bool_decide_unpack _); vm_compute; exact I.
  - vm_compute. discriminate.
  - split; apply (bool_decide_unpack _); vm_compute; exact I.
  - vm_compute. discriminate.
  - split; split; apply (bool_decide_unpack _); vm_compute; exact I.
Qed.

Definition demo_da : DigestAlgorithm MD5Context := md5_da demo_fresh (mkMD5 (mkRegs 1 2 3 4) 5 (replicate 64 6)).

Lemma demo_da_ready : da_ready md5_ops md5_valid demo_da.
Proof. by split. Qed.

Lemma demo_alg : plain_alg (alg demo_da).
Proof.
  exists (str "md5"). split; [done|]. split; [apply (bool_decide_unpack _); vm_compute; exact I|]. split; vm_compute; discriminate.
Qed.

Lemma demo_holds s : bool_decide (no_nul s) && bool_decide (Forall is_byte s) = true -> holds (cstr s) s.
Proof. intros [E1%bool_decide_eq_true E2%bool_decide_eq_true]%andb_true_iff. by apply holds_cstr. Qed.

Definition demo_nonces : list (option MHD_NonceNc) := [Some (mkNonce 0 0 (demo_nonce ++ 0 :: replicate 88 7))].

Lemma demo_nonces_written : table_written demo_nonces.
Proof.
  split.
  - split; [done|cbn; lia|]. intros [|i] nn E; [|done]. injection E as <-. vm_compute. reflexivity.
  - constructor; [|constructor]. eexists _, demo_nonce, _. split; [done|]. split; [done|cbn; lia].
Qed.

Lemma digest_auth_check_correct_witness :
  ∃ nnc', digest_auth_check_all (H := LP64) demo_fresh demo_malloc unescape_wrapper (str "secret") 1010 demo_nonces
    (demo_asking demo_auth_refs) demo_da (cstr (str "zoo")) (cstr (str "Mufasa")) (Some (cstr (str "Circle"))) None 300
    = Some (Auth_yes, nnc').
Proof.
  destruct (digest_auth_check_correct (H := LP64) demo_fresh demo_malloc unescape_wrapper md5_ops md5_valid
    (demo_asking demo_auth_refs) demo_auth_headers demo_auth (str "GET") (str "/dir") demo_da (cstr (str "zoo")) (cstr (str "Mufasa"))
    (str "zoo") (str "Mufasa") (Some (cstr (str "Circle"))) None (ha1_of md5_ops md5_valid (str "Mufasa") (str "zoo") (str "Circle"))
    (str "secret") 300 1010 demo_nonces) as (res & nnc' & E & Hyes & _).
  - exact demo_fresh_ok.
  - exact demo_malloc_ok.
  - cbn. lia.
  - exact demo_da_ready.
  - exact demo_alg.
  - exact demo_request_is.
  - intros n [= <-]. vm_compute. lia.
  - by apply demo_holds.
  - by apply demo_holds.
  - exists (cstr (str "Circle")), (str "Circle"). split; [done|]. split; [by apply demo_holds|done].
  - apply (bool_decide_unpack _). vm_compute. exact I.
  - exact demo_nonces_written.
  - exists nnc'. rewrite E. do 2 f_equal. apply Hyes.
    exists demo_nonce, (str "0a4f"), (str "00000001"), (str "4b122791f37c18cd960005a300fb6488"), (str "/dir?a=1"), 1000, 1.
    split; [reflexivity|reflexivity|reflexivity| | | |reflexivity| |reflexivity| ];
      try (split; apply (bool_decide_unpack _); vm_compute; exact I); apply (bool_decide_unpack _); vm_compute; exact I.
Defined.

(** A nonce shorter than a time stamp makes the check read in front of its
    array: the hypothesis on the nonce is needed. *)
Definition demo_short : MHD_Connection :=
  demo_asking [mkRef (Static (str "authorization"))
    (Some (Static (BASE_ ++ params_text [mkParam (str "username") (str "Mufasa") true 0 1; mkParam (str "realm") (str "zoo") true 0 1;
                                         mkParam (str "nonce") (str "0") true 0 0]))) MHD_HEADER_KIND].

Theorem short_nonce_reads_before_the_array :
  digest_auth_check_all (H := LP64) demo_fresh demo_malloc unescape_wrapper (str "secret") 1010 demo_nonces
    demo_short demo_da (cstr (str "zoo")) (cstr (str "Mufasa")) (Some (cstr (str "Circle"))) None 300 = None.
Proof. vm_compute. reflexivity. Qed.
