(* ===== verification/AuthChallenge.v ===== *)
(** * A challenge and its answer (digestauth.c)

    The reply that asks for authentication registers a nonce; a client that
    knows the password and answers with that nonce is let in. *)

From stdpp Require Import gmap.
From S2P Require Import Prelude MhdStr MemoryPool HashStream Md5 Internal Headers Response Connection RequestHead Reply ReplyBody.
From S2P Require Import DigestAuth NonceTable AuthParams AuthDigest AuthArguments AuthCheck.

#[local] Open Scope Z_scope.

(** The time in a nonce of the server. *)
Lemma hex_time_read t : 0 <= t <= UINT32_MAX -> hex_number UINT32_MAX (hex (timestamp_bytes t)) = Some t.
Proof.
  intros Ht. set (s := hex (timestamp_bytes t)). assert (length s = 8%nat) as Ls by (unfold s; by rewrite length_hex).
  destruct (hex_parsers s []) as (n & v & _ & _ & E & _ & Hv & _); [by destruct s|].
  rewrite Ls in E, Hv. unfold s in E. rewrite timestamp_read in E by done. injection E as <- <-. by destruct Hv as [<- _].
Qed.

Section Challenge.
Context `{Platform} (fresh : nat -> bytes) (Hfresh : forall n, length (fresh n) = n).
Context (malloc : Z -> option bytes) (Hmalloc : forall n m, malloc n = Some m -> Z.of_nat (length m) = n).
Context (unescape_callback : bytes -> nat -> option (bytes * nat)) `{!UnescapeCallback unescape_callback}.
Context {ctx : Type} (ops0 : hash_ops ctx) (valid : ctx -> Prop) `{!LawfulHash ops0 valid}.
Context (Hsize : (digest_size ops0 <= MAX_DIGEST)%nat).

Lemma nonce_of_length t m rnd u realm : length (nonce_of ops0 valid t m rnd u realm) = (2 * digest_size ops0 + 8)%nat.
Proof using Hsize. unfold nonce_of. by rewrite length_app, !length_hex, digest_length. Qed.

Lemma nonce_of_time t m rnd u realm : 0 <= t <= UINT32_MAX -> nonce_time (nonce_of ops0 valid t m rnd u realm) = Some t.
Proof using Hsize.
  intros Ht. unfold nonce_time. rewrite nonce_of_length. unfold nonce_of.
  assert (drop (2 * digest_size ops0 + 8 - 8) (hex (hash_of (colons [timestamp_bytes t; m; rnd; u; realm])) ++ hex (timestamp_bytes t))
    = hex (timestamp_bytes t)) as ->; [|by apply hex_time_read].
  apply drop_app_at. rewrite length_hex, digest_length. lia.
Qed.

(** The method and the URL of a request. *)
Definition asked (c : MHD_Connection) (m u : bytes) : Prop :=
  (p ← method (req c); chars (memory (pool c)) p) = Some m /\ (p ← url (req c); chars (memory (pool c)) p) = Some u
  /\ c_string m /\ c_string u.

#[local] Opaque nonce_of.

(** Asking for authentication registers the nonce; when the response is
    queued it has the challenge. *)
Lemma challenge_ok rnd t da env nnc w m u ro realm oo opaque r stale ret idle w' r' nnc' :
  da_ready ops0 valid da -> plain_alg (alg da) -> asked (con w) m u -> holds ro realm -> holds oo opaque -> Forall is_byte rnd ->
  table_ok nnc ->
  auth_fail_response fresh malloc rnd t da env nnc w ro oo r stale = Some (ret, idle, w', r', nnc') ->
  let n := nonce_of ops0 valid (u32 t) m rnd u realm in
  registered nnc' n (mkCounters 0 ∅)
  /\ (ret = true -> ∃ a, alg da = cstr a /\
        mkHeader (Some WWW_Authenticate) (Some (challenge_text realm n opaque a stale)) MHD_HEADER_KIND ∈ first_header r').
Proof using Hfresh Hsize.
  intros Hda Ha (Em & Eu & Hm & Hu) Hro Hoo Hrnd Ht. unfold auth_fail_response.
  rewrite (vla_ok ops0 Hsize) by apply Hda. rewrite Em, Eu. cbn [mbind option_bind].
  destruct (calculate_nonce_ok ops0 valid Hsize fresh da (u32 t) m rnd u realm (cstr m) (cstr u) ro
    (fresh (NONCE_STD_LEN (digest_size (ops da)) + 1))) as (d1 & -> & _ & Ea);
    [done|done|by apply holds_cstr|by apply holds_cstr|done|done|by rewrite Hfresh, (ready_ops _ _ _ Hda)|].
  cbn [mbind option_bind]. set (n := nonce_of ops0 valid (u32 t) m rnd u realm). rewrite Ea.
  assert (c_string n) as Hn by apply nonce_of_string.
  destruct (register_ok nnc n Ht) as (nnc1 & -> & Hreg & _); [apply Hn|unfold n; rewrite nonce_of_length; lia|].
  cbn [mbind option_bind negb]. rewrite (holds_cstring ro realm) by done. cbn [mbind option_bind].
  rewrite cstring_cstr by apply Hn. cbn [mbind option_bind]. rewrite (holds_cstring oo opaque) by done. cbn [mbind option_bind].
  destruct Ha as (a & Ea' & Hna & _). rewrite Ea', cstring_cstr by done. cbn [mbind option_bind].
  set (text := challenge_text realm n opaque a stale).
  destruct (_ >? _); [intros [= <- _ _ _ <-]; by split|]. destruct (negb (alloc_ok malloc _)); [intros [= <- _ _ _ <-]; by split|].
  assert (no_nul text) as Htext.
  { destruct Hro as [[? _] _], Hoo as [[? _] _], Hn as [? _]. unfold text, challenge_text, quoted.
    destruct stale; rewrite !no_nul_app; split_and!; try done; apply (bool_decide_unpack _); vm_compute; exact I. }
  rewrite add_header_spec by (done || apply (bool_decide_unpack _); vm_compute; exact I). cbn [mbind option_bind].
  destruct (_ && _); cbn [mbind option_bind negb]; [|intros [= <- _ _ _ <-]; by split].
  intros E. apply bind_Some in E as ([[ret1 idle1] w1] & _ & E). injection E as _ _ _ <- <-.
  split; [done|]. intros _. exists a. split; [done|]. left.
Qed.
End Challenge.

(** ** Theorem *)

(** The parameters [ps] answer the challenge [n] with the hashed password
    [ha1] for a request of method [m] and URL [u] whose arguments are in
    [l]. *)
Record answers (malloc : Z -> option bytes) unescape_callback `{!UnescapeCallback unescape_callback} {ctx} (ops0 : hash_ops ctx) valid
    `{!LawfulHash ops0 valid} (l : list MHD_HTTP_Header) (ps : list param) (m u realm user n ha1 : bytes) : Prop := {
  an_user : field ps 128 (str "username") = Some user;
  an_realm : field ps 256 (str "realm") = Some realm;
  an_nonce : field ps 129 (str "nonce") = Some n;
  an_room : room ps user realm n <= 32 * 1024 /\ malloc (room ps user realm n + 1) ≠ None;
  an_rest : ∃ cn k i uri,
    client_fields ps = Some (cn, str "auth", k, request_digest ops0 valid ha1 n k cn (str "auth") m uri)
    /\ hex_number UINT64_MAX k = Some i /\ 0 < i /\ uri_field ps = Some uri
    /\ visible (decode unescape_callback (uri_path uri)) = u /\ malloc (Z.of_nat (length (uri_args uri) + 1)) ≠ None
    /\ arguments_match l (arguments unescape_callback (uri_args uri))
}.

(** C15: A client that answers the challenge is let in.  When the server has
    queued a reply that asks for authentication, the reply has a header with
    the nonce, and a request for the same method and URL within the life time
    of the nonce, whose authorization header has that nonce, a counter other
    than zero, and the digest of RFC 2617 over the password, is
    authenticated.  The table of nonces is the one the challenge left: no other
    nonce was registered in the same place in between. *)
Theorem answered_challenge_is_authenticated `{Platform} fresh malloc unescape_callback `{!UnescapeCallback unescape_callback}
    {ctx : Type} (ops0 : hash_ops ctx) (valid : ctx -> Prop) `{!LawfulHash ops0 valid}
    rnd t0 t da env nnc w m u ro uo realm user oo opaque r stale idle w' r' nnc1 c l ps password digest ha1 timeout :
  (forall n, length (fresh n) = n) -> (forall n m, malloc n = Some m -> Z.of_nat (length m) = n) ->
  (digest_size ops0 <= MAX_DIGEST)%nat -> da_ready ops0 valid da -> plain_alg (alg da) -> table_ok nnc ->
  asked (con w) m u -> holds ro realm -> holds uo user -> holds oo opaque -> Forall is_byte rnd ->
  0 <= t0 <= t -> t <= t0 + timeout <= UINT32_MAX ->
  auth_fail_response fresh malloc rnd t0 da env nnc w ro oo r stale = Some (true, idle, w', r', nnc1) ->
  request_is c l ps m u -> secret ops0 valid realm user password digest ha1 ->
  let n := nonce_of ops0 valid t0 m rnd u realm in
  answers malloc unescape_callback ops0 valid l ps m u realm user n ha1 ->
  (∃ a, alg da = cstr a
        /\ mkHeader (Some WWW_Authenticate) (Some (challenge_text realm n opaque a stale)) MHD_HEADER_KIND ∈ first_header r')
  /\ ∃ nnc2, digest_auth_check_all fresh malloc unescape_callback rnd t nnc1 c da ro uo password digest timeout = Some (Auth_yes, nnc2).
Proof.
  intros Hf Hm Hs Hda Ha Ht Hasked Hro Huo Hoo Hrnd Ht0 Htime Efail Hreq Hsec n [A1 A2 A3 A4 (cn & k & i & uri & A5 & A6 & Hi & A7 & A8 & A9 & A10)].
  destruct (challenge_ok fresh Hf malloc ops0 valid Hs rnd t0 da env nnc w m u ro realm oo opaque r stale true idle w' r' nnc1)
    as [Hreg Hch]; [done..|]. rewrite (wrap_small 32 t0) in Hreg, Hch by lia. fold n in Hreg, Hch.
  split; [by apply Hch|].
  assert (no_nul n /\ (length n < MAX_NONCE_LENGTH)%nat) as [Hn Hl].
  { split; [apply nonce_of_string|]. unfold n. rewrite nonce_of_length by done. lia. }
  assert (nonce_readable nnc1 ps) as Hread.
  { intros n' j En Hj. rewrite A3 in En. injection En as <-. destruct (decide (j = 0)) as [->|].
    - destruct (register_ok nnc1 n (proj1 Hreg) Hn Hl) as (nnc2 & E & _). eauto.
    - destruct (check_ok nnc1 n _ j Hreg Hn Hl ltac:(lia)) as (nnc2 & E & _). eauto. }
  assert (long_nonce ps) as Hlong.
  { intros n' En. rewrite A3 in En. injection En as <-. unfold n. rewrite nonce_of_length by done. lia. }
  destruct (check_all_ok fresh Hf malloc Hm unescape_callback ops0 valid Hs c l ps m u da ro uo realm user password digest ha1 rnd timeout t nnc1)
    as (res & nnc2 & Ev & E); [done..|].
  exists nnc2. rewrite E. apply (verdict_cases malloc unescape_callback ops0 valid Hs) in Ev as [Hyes _].
  do 2 f_equal. rewrite (proj2 Hyes); [done|]. exists n, cn, k, (request_digest ops0 valid ha1 n k cn (str "auth") m uri), uri, t0, i.
  split; try done.
  - split; [by apply nonce_of_time; [|lia]|]. unfold expired. rewrite !(wrap_small 32) by lia. lia.
  - split; [done|]. pose proof (hex_number_range _ _ _ A6).
    destruct (check_ok nnc1 n _ i Hreg Hn Hl ltac:(lia)) as (nnc3 & -> & _). cbn [fmap option_fmap option_map fst]. f_equal.
    unfold count. cbn [largest]. destruct (Z.eqb_spec i 0); [done|]. by destruct (Z.ltb_spec 0 i); [|lia].
Qed.

(** ** A concrete exchange *)

Definition demo_reply_asking : reply :=
  mkReply (demo_asking []) None 0 MHD_CONN_KEEPALIVE_UNKOWN None 0 0 0 0 0 false.

Definition demo_denied : MHD_Response := mkResponse [] None None None false 0 0 0 0 0 1 (-1) 0.

Definition demo_env : queue_env :=
  {| queue_cfg := {| suppress_date := true; now := None; allow_upgrade := false |};
     shutdown := false; wrong_thread := false; in_idle := true; uses_tls := false |}.

Definition demo_challenge :=
  auth_fail_response (H := LP64) demo_fresh demo_malloc (str "secret") 1000 demo_da demo_env demo_table demo_reply_asking
    (cstr (str "zoo")) (cstr (str "op")) demo_denied false.

Lemma demo_answers :
  answers demo_malloc unescape_wrapper md5_ops md5_valid demo_auth_headers demo_auth (str "GET") (str "/dir") (str "zoo") (str "Mufasa")
    (nonce_of md5_ops md5_valid 1000 (str "GET") (str "secret") (str "/dir") (str "zoo"))
    (ha1_of md5_ops md5_valid (str "Mufasa") (str "zoo") (str "Circle")).
Proof.
  split; [apply (bool_decide_unpack _); vm_compute; exact I..| |].
  - split; apply (bool_decide_unpack _); vm_compute; exact I.
  - exists (str "0a4f"), (str "00000001"), 1, (str "/dir?a=1"). split_and!; apply (bool_decide_unpack _); vm_compute; exact I.
Qed.

Lemma answered_challenge_is_authenticated_witness :
  ∃ idle w' r' nnc1 nnc2, demo_challenge = Some (true, idle, w', r', nnc1)
    /\ digest_auth_check_all (H := LP64) demo_fresh demo_malloc unescape_wrapper (str "secret") 1010 nnc1
         (demo_asking demo_auth_refs) demo_da (cstr (str "zoo")) (cstr (str "Mufasa")) (Some (cstr (str "Circle"))) None 300
       = Some (Auth_yes, nnc2).
Proof.
  destruct demo_challenge as [[[[[ret idle] w'] r'] nnc1]|] eqn:E; [|by vm_compute in E].
  assert (ret = true) as -> by (vm_compute in E; by injection E as <- _ _ _ _). exists idle, w', r', nnc1.
  destruct (answered_challenge_is_authenticated (H := LP64) demo_fresh demo_malloc unescape_wrapper md5_ops md5_valid
    (str "secret") 1000 1010 demo_da demo_env demo_table demo_reply_asking (str "GET") (str "/dir") (cstr (str "zoo")) (cstr (str "Mufasa"))
    (str "zoo") (str "Mufasa") (cstr (str "op")) (str "op") demo_denied false idle w' r' nnc1
    (demo_asking demo_auth_refs) demo_auth_headers demo_auth (Some (cstr (str "Circle"))) None
    (ha1_of md5_ops md5_valid (str "Mufasa") (str "zoo") (str "Circle")) 300) as [_ [nnc2 Ec]].
  - exact demo_fresh_ok.
  - exact demo_malloc_ok.
  - cbn. lia.
  - exact demo_da_ready.
  - exact demo_alg.
  - exact demo_table_ok.
  - split; [done|]. split; [done|]. split; split; apply (bool_decide_unpack _); vm_compute; exact I.
  - by apply demo_holds.
  - by apply demo_holds.
  - by apply demo_holds.
  - apply (bool_decide_unpack _). vm_compute. exact I.
  - lia.
  - lia.
  - exact E.
  - exact demo_request_is.
  - exists (cstr (str "Circle")), (str "Circle"). split; [done|]. split; [by apply demo_holds|done].
  - exact demo_answers.
  - exists nnc2. split; [reflexivity|exact Ec].
Defined.
