(* ===== verification/BasicAuth.v ===== *)
(** * Basic authentication (libmicrohttpd/src/microhttpd/basicauth.c)

    The user name and the password of a request with basic authentication,
    and the reply that asks for it. *)

From S2P Require Import Prelude Base64 MemoryPool Internal Headers Connection RequestHead.
From S2P Require Import Response Reply ReplyBody DigestAuth AuthDigest AuthArguments.

Definition BASIC_BASE : bytes := str "Basic ".

Section Basic.
Context `{Platform}.
Variable malloc : Z -> option bytes.

(** The user name, and what is stored through [password]: [None] when nothing
    is, [Some None] for the null pointer.  [wants] is whether [password] is
    not null. *)
Definition MHD_basic_auth_get_username_password (c : MHD_Connection) (wants : bool)
    : option (option bytes * option (option bytes)) :=
  h ← scheme_header c BASIC_BASE;
  match h with
  | None => Some (None, None)
  | Some header =>
      decode ← BASE64Decode malloc header;
      match decode with
      | None => Some (None, None)
      | Some decode =>
          separator ← strchr decode 58;
          match separator with
          | None => Some (None, None)
          | Some separator =>
              user ← strdup malloc decode;
              match user with
              | None => Some (None, None)
              | Some user =>
                  user ← mem_write user (Z.of_nat separator) [0];
                  if negb wants then Some (Some user, None)
                  else
                    password ← strdup malloc (drop (S separator) decode);
                    match password with
                    | None => Some (None, Some None)
                    | Some password => Some (Some user, Some (Some password))
                    end
              end
          end
      end
  end.

(** The text of the call of [MHD_snprintf_]. *)
Definition basic_text (realm : bytes) : bytes := str "Basic " ++ quoted (str "realm") realm.

Definition MHD_queue_basic_auth_fail_response (env : queue_env) (w : reply) (realm : bytes) (r : MHD_Response)
    : option (bool * bool * reply * MHD_Response) :=
  realm ← cstring realm;
  let text := basic_text realm in
  let hlen := usize (Z.of_nat (length realm) + 14 + 1) in
  match malloc hlen with
  | None => Some (false, false, w, r)
  | Some _ =>
      let res := Z.of_nat (length text) in
      '(ret, r) ← (if (res <=? 2147483647) && (res <? hlen)
                   then '(ret, r) ← MHD_add_response_header (alloc_ok malloc) (Some r) (Some (cstr WWW_Authenticate)) (Some (cstr text));
                        r ← r; Some (ret, r)
                   else Some (false, r));
      if (ret : bool) then '(ret, runs_idle, w) ← queue_unauthorized env w r; Some (ret, runs_idle, w, r)
      else Some (false, false, w, r)
  end.
End Basic.

(** ** The credentials in a header *)

(** The user name and the password of the text behind the scheme. *)
Definition credentials (s : bytes) : option (bytes * bytes) :=
  if (length s mod 4 =? 0)%nat then
    match span 58 (visible (decoded s)) with (user, Some password) => Some (user, password) | _ => None end
  else None.

Lemma visible_split s : ∃ t, s ++ [0] = visible s ++ 0 :: t /\ no_nul (visible s).
Proof.
  unfold visible. induction s as [|c s (t & E & Hn)]; [by exists []; split; [|constructor]|]. cbn [count_until].
  destruct (Z.eqb_spec c 0) as [->|Hc]; cbn [take app]; [eexists; split; [reflexivity|constructor]|].
  exists t. rewrite E. split; [done|]. by constructor.
Qed.

(** The characters in front of the terminator, and what is behind it. *)
Lemma visible_object s r : ∃ t, s ++ 0 :: r = visible s ++ 0 :: t /\ no_nul (visible s).
Proof.
  destruct (visible_split s) as (t & E & Hn). exists (t ++ r). split; [|done].
  change (0 :: r) with ([0] ++ r). by rewrite app_assoc, E, <- app_assoc.
Qed.

Section Basic_theorem.
Context `{Platform} (malloc : Z -> option bytes) (Hmalloc : malloc_sized malloc).

(** A copy, or a failure of [malloc]. *)
Lemma strdup_ok s r :
  no_nul s -> strdup malloc (s ++ 0 :: r) = Some (Some (cstr s)) \/ strdup malloc (s ++ 0 :: r) = Some None /\ ∃ n, malloc n = None.
Proof using Hmalloc.
  intros Hs. unfold strdup. rewrite cstring_visible, visible_no_nul by done. cbn [mbind option_bind].
  destruct (malloc _) as [m|] eqn:Em; [left|right; eauto]. apply Hmalloc in Em; [|lia]. rewrite <- (app_nil_r m).
  rewrite (mem_write_mid [] m [] (cstr s)) by (done || (unfold cstr; rewrite length_app; cbn [length]; lia)).
  cbn [app mbind option_bind]. by rewrite app_nil_r.
Qed.

(** The header of the request. *)
Definition authorization_is (c : MHD_Connection) (h : bytes) : Prop :=
  ∃ l, resolve_all (memory (pool c)) (headers_received (req c)) = Some l
    /\ MHD_lookup_connection_value (Some l) MHD_HEADER_KIND (Some Authorization) = Some (Some h).

Lemma basic_spec c s :
  authorization_is c (BASIC_BASE ++ s) -> no_nul s -> Forall (λ c, 0 <= c < 255) s ->
  ∃ user password, MHD_basic_auth_get_username_password malloc c true = Some (user, password)
    /\ match credentials s, user with
       | Some (u, p), Some uo => cstring uo = Some u /\ password = Some (Some (cstr p))
       | Some _, None => ∃ n, malloc n = None
       | None, _ => user = None /\ password = None
       end.
Proof using Hmalloc.
  intros (l & El & Eh) Hs Hb. unfold MHD_basic_auth_get_username_password, scheme_header, credentials. rewrite El. cbn [mbind option_bind].
  rewrite Eh. cbn [mbind option_bind]. assert (starts_with BASIC_BASE (BASIC_BASE ++ s) = true) as -> by reflexivity.
  rewrite drop_app_length. unfold cstr at 1. rewrite BASE64Decode_spec by done. cbn [mbind option_bind].
  destruct (_ =? 0)%nat; [|by eexists _, _].
  destruct (malloc _) as [buf|] eqn:Em; cbn [fmap option_fmap option_map].
  2:{ eexists _, _. split; [done|]. destruct (span 58 _) as [u [p|]]; eauto. }
  destruct (visible_object (decoded s) (drop (S (length (decoded s))) buf)) as (t & -> & Hn).
  destruct (first_occurrence 58 (visible (decoded s))) as [Hno|(u & p & E & Hu)].
  { rewrite strchr_absent, span_absent by done. cbn [mbind option_bind]. by eexists _, _. }
  rewrite E in *. rewrite span_present by done.
  destruct (strdup_ok (u ++ 58 :: p) t Hn) as [Ed|[Ed [n En]]].
  2:{ rewrite <- app_assoc, <- app_comm_cons in *. rewrite strchr_present by (done || by apply no_nul_app in Hn as [? _]).
      cbn [mbind option_bind]. rewrite Ed. cbn [mbind option_bind]. eexists _, _. split; [done|]. by exists n. }
  rewrite <- app_assoc, <- app_comm_cons in *. apply no_nul_app in Hn as [Hnu [_ Hnp]%no_nul_cons].
  rewrite strchr_present by done. cbn [mbind option_bind]. rewrite Ed. cbn [mbind option_bind].
  assert (mem_write (cstr (u ++ 58 :: p)) (Z.of_nat (length u)) [0] = Some (u ++ 0 :: p ++ [0])) as ->.
  { unfold cstr. rewrite <- app_assoc. change ((58 :: p) ++ [0]) with ([58] ++ p ++ [0]). by rewrite mem_write_mid. }
  cbn [mbind option_bind negb].
  assert (drop (S (length u)) (u ++ 58 :: p ++ 0 :: t) = p ++ 0 :: t) as ->.
  { change (58 :: p ++ 0 :: t) with ([58] ++ p ++ 0 :: t). rewrite app_assoc. apply drop_app_at. rewrite length_app. cbn [length]. lia. }
  destruct (strdup_ok p t Hnp) as [Ep|[Ep [n En]]]; rewrite Ep; cbn [mbind option_bind]; eexists _, _; (split; [done|]); [|by exists n].
  split; [|done]. by rewrite cstring_visible, visible_no_nul.
Qed.

Lemma credentials_encode u p :
  no_nul u -> no_nul p -> Forall is_byte u -> Forall is_byte p -> 58 ∉ u -> credentials (RFC4648.encode (u ++ 58 :: p)) = Some (u, p).
Proof using.
  intros Hu Hp Bu Bp H58. assert (Forall is_byte (u ++ 58 :: p)) as Hb by (apply Forall_app; split; [done|constructor; [done|done]]).
  destruct (encode_wf _ Hb) as (_ & Hl & _). unfold credentials. rewrite Hl, decoded_encode by done. cbn [Nat.eqb].
  rewrite visible_no_nul by (apply no_nul_app; split; [done|by apply no_nul_cons]). by rewrite span_present.
Qed.
End Basic_theorem.

(** C39: Basic credentials are read as they were sent: for every authorization
    header with the scheme "Basic " and without the byte 255 (which the table
    of the decoder does not have), the user name and the password are the
    parts of the decoded text in front of and behind its first colon, or
    nothing is returned because the text is not base64, has no colon, or an
    allocation failed; in particular the encoding of a user name without a
    colon and a password gives back both. *)
Theorem basic_credentials_read `{Platform} malloc c s :
  malloc_sized malloc -> authorization_is c (BASIC_BASE ++ s) -> no_nul s -> Forall (λ c, 0 <= c < 255) s ->
  ∃ user password, MHD_basic_auth_get_username_password malloc c true = Some (user, password)
    /\ match credentials s, user with
       | Some (u, p), Some uo => cstring uo = Some u /\ password = Some (Some (cstr p))
       | Some _, None => ∃ n, malloc n = None
       | None, _ => user = None /\ password = None
       end
    /\ forall u p, c_string u -> c_string p -> 58 ∉ u -> s = RFC4648.encode (u ++ 58 :: p) -> credentials s = Some (u, p).
Proof.
  intros Hm Hc Hs Hb. destruct (basic_spec malloc Hm c s Hc Hs Hb) as (user & password & E & Hx).
  exists user, password. split; [done|]. split; [done|]. intros u p [? ?] [? ?] ? ->. by apply credentials_encode.
Qed.

Definition demo_basic : MHD_Connection :=
  mkConn (mkPool (replicate 64 0) 64 0 64 false) None 0 0 MHD_CONNECTION_HEADERS_PROCESSED false None true (mkUpload false 0 0 0)
    (mkRequest (Some (Static (str "GET"))) (Some (Static (str "/"))) (Some (Static (str "HTTP/1.1"))) None None
       [mkRef (Static (str "AUTHORIZATION")) (Some (Static (str "Basic QWxhZGRpbjpvcGVuIHNlc2FtZQ=="))) MHD_HEADER_KIND]) [].

Lemma basic_credentials_read_witness :
  ∃ uo, MHD_basic_auth_get_username_password malloc_zeroed demo_basic true = Some (Some uo, Some (Some (cstr (str "open sesame"))))
    /\ cstring uo = Some (str "Aladdin").
Proof.
  destruct (basic_credentials_read (H := LP64) malloc_zeroed demo_basic (str "QWxhZGRpbjpvcGVuIHNlc2FtZQ==") malloc_zeroed_sized)
    as (user & password & E & Hx & _).
  - eexists. split; vm_compute; reflexivity.
  - apply (bool_decide_unpack _). vm_compute. exact I.
  - apply (bool_decide_unpack _). vm_compute. exact I.
  - assert (credentials (str "QWxhZGRpbjpvcGVuIHNlc2FtZQ==") = Some (str "Aladdin", str "open sesame")) as Ec by (vm_compute; reflexivity).
    rewrite Ec in Hx. destruct user as [uo|]; [|by destruct Hx as [n Hn]]. destruct Hx as [Hu ->]. exists uo. split; [exact E|exact Hu].
Defined.
