(* ===== verification/TSearch.v ===== *)
(** * Binary search trees (libmicrohttpd/src/microhttpd/tsearch.c)

    Searching, inserting and deleting in an unbalanced binary search tree of
    pointers to keys, with a comparison function that reads the keys.

    A node is reached by the one link that points to it, so the tree is an
    inductive value and [rootp], the address of a link, the place in it.  The
    comparison may fail, when it reads a key that was freed. *)

From Stdlib Require Import Sorted.
From S2P Require Import Prelude.

Section Tree.
Context {K : Type}.

(** [struct node] and the null pointer. *)
Inductive node := Null | Node (key : K) (llink rlink : node).

Section Operations.
Variable compar : K -> K -> option Z.

(** The loop of [tsearch] with the insertion at its end; [alloc] is whether
    [malloc] delivers a node.  The result is the key of the node that is
    returned. *)
Fixpoint tsearch_loop (alloc : bool) (vkey : K) (t : node) : option (option K * node) :=
  match t with
  | Null => if alloc then Some (Some vkey, Node vkey Null Null) else Some (None, Null)
  | Node key llink rlink =>
      r ← compar vkey key;
      if r =? 0 then Some (Some key, t)
      else if r <? 0 then '(n, llink) ← tsearch_loop alloc vkey llink; Some (n, Node key llink rlink)
      else '(n, rlink) ← tsearch_loop alloc vkey rlink; Some (n, Node key llink rlink)
  end.

Definition tsearch (alloc : bool) (vkey : K) (rootp : option node) : option (option K * option node) :=
  match rootp with
  | None => Some (None, None)
  | Some root => '(n, root) ← tsearch_loop alloc vkey root; Some (n, Some root)
  end.

Fixpoint tfind_loop (vkey : K) (t : node) : option (option K) :=
  match t with
  | Null => Some None
  | Node key llink rlink =>
      r ← compar vkey key;
      if r =? 0 then Some (Some key)
      else if r <? 0 then tfind_loop vkey llink else tfind_loop vkey rlink
  end.

Definition tfind (vkey : K) (rootp : option node) : option (option K) :=
  match rootp with None => Some None | Some root => tfind_loop vkey root end.

(** The loop for the leftmost node of the tree with root [key]: its key, and
    the tree without it. *)
Fixpoint take_leftmost (key : K) (llink rlink : node) : K * node :=
  match llink with
  | Null => (key, rlink)
  | Node k l r => let '(m, llink) := take_leftmost k l r in (m, Node key llink rlink)
  end.

(** What takes the place of a node with these links. *)
Definition replacement (llink rlink : node) : node :=
  match llink, rlink with
  | Null, _ => rlink
  | _, Null => llink
  | _, Node k Null r => Node k llink r
  | _, Node k l r => let '(q, rlink) := take_leftmost k l r in Node q llink rlink
  end.

(** [None] inside when the key is not found. *)
Fixpoint tdelete_loop (vkey : K) (t : node) : option (option node) :=
  match t with
  | Null => Some None
  | Node key llink rlink =>
      cmp ← compar vkey key;
      if cmp =? 0 then Some (Some (replacement llink rlink))
      else if cmp <? 0 then l ← tdelete_loop vkey llink; Some (option_map (λ l, Node key l rlink) l)
      else r ← tdelete_loop vkey rlink; Some (option_map (λ r, Node key llink r) r)
  end.

(** Whether the result is not the null pointer, and the tree. *)
Definition tdelete (vkey : K) (rootp : option node) : option (bool * option node) :=
  match rootp with
  | None => Some (false, None)
  | Some root =>
      t ← tdelete_loop vkey root;
      Some (match t with None => (false, Some root) | Some t => (true, Some t) end)
  end.
End Operations.

(** ** Specification *)

(** The keys in order. *)
Fixpoint keys (t : node) : list K :=
  match t with Null => [] | Node key llink rlink => keys llink ++ key :: keys rlink end.

(** A comparison that does not fail on valid keys and orders them by a
    rank. *)
Class KeyOrder (compar : K -> K -> option Z) (valid : K -> Prop) := {
  rank : K -> Z;
  compar_rank : forall a b, valid a -> valid b ->
    ∃ r, compar a b = Some r /\ (r < 0 <-> rank a < rank b) /\ (r = 0 <-> rank a = rank b)
}.

Lemma sorted_app (R : K -> K -> Prop) a b :
  StronglySorted R (a ++ b) <-> StronglySorted R a /\ StronglySorted R b /\ (forall x y, x ∈ a -> y ∈ b -> R x y).
Proof.
  induction a as [|z a IH]; cbn [app].
  - split; [intros H; split_and!; [constructor|done|]; intros x y Hx; by apply elem_of_nil in Hx|tauto].
  - split.
    + intros H. apply StronglySorted_inv in H as [H Hz]. apply IH in H as (Ha & Hb & Hab).
      apply Forall_app in Hz as [Hza Hzb]. split_and!; [by constructor|done|].
      intros x y [->|Hx]%elem_of_cons Hy; [|by apply Hab]. rewrite Forall_forall in Hzb. by apply Hzb.
    + intros (Ha & Hb & Hab). apply StronglySorted_inv in Ha as [Ha Hz]. constructor.
      * apply IH. split_and!; [done..|]. intros x y Hx Hy. apply Hab; [by right|done].
      * apply Forall_app. split; [done|]. apply Forall_forall. intros y Hy. apply Hab; [left|done].
Qed.

Lemma keys_leftmost k l r : let '(q, t) := take_leftmost k l r in q :: keys t = keys (Node k l r).
Proof.
  revert k r. induction l as [|lk ll IHl lr _]; intros k r; [done|]. cbn [take_leftmost].
  specialize (IHl lk lr). destruct (take_leftmost lk ll lr) as [q t]. cbn [keys] in *. rewrite app_comm_cons, IHl. done.
Qed.

Lemma keys_replacement l r : keys (replacement l r) = keys l ++ keys r.
Proof.
  destruct l as [|lk ll lr]; [done|]. destruct r as [|rk [|k a b] rr]; cbn [replacement].
  - cbn [keys]. by rewrite app_nil_r.
  - done.
  - pose proof (keys_leftmost rk (Node k a b) rr) as Hk. destruct (take_leftmost rk (Node k a b) rr) as [q t].
    cbn [keys] in *. by rewrite Hk.
Qed.

Section Order.
Context (compar : K -> K -> option Z) (valid : K -> Prop) `{!KeyOrder compar valid}.

Definition before (a b : K) : Prop := rank a < rank b.

(** A search tree of valid keys. *)
Definition search_tree (t : node) : Prop := Forall valid (keys t) /\ StronglySorted before (keys t).

(** The key with the rank of [v]. *)
Fixpoint key_of (v : K) (l : list K) : option K :=
  match l with [] => None | k :: l' => if decide (rank v = rank k) then Some k else key_of v l' end.

Lemma key_of_app v a b : key_of v (a ++ b) = match key_of v a with Some k => Some k | None => key_of v b end.
Proof. induction a as [|k a IH]; [done|]. cbn [app key_of]. by destruct (decide _). Qed.

Lemma key_of_none v l : (forall k, k ∈ l -> rank v ≠ rank k) -> key_of v l = None.
Proof.
  induction l as [|k l IH]; intros H; [done|]. cbn [key_of]. rewrite decide_False by (apply H; left). apply IH.
  intros x Hx. apply H. by right.
Qed.

Lemma search_tree_node k l r :
  search_tree (Node k l r) <-> search_tree l /\ search_tree r /\ valid k
    /\ (forall x, x ∈ keys l -> rank x < rank k) /\ (forall x, x ∈ keys r -> rank k < rank x).
Proof.
  unfold search_tree. cbn [keys]. rewrite Forall_app, Forall_cons, sorted_app. split.
  - intros ((H1 & H2 & H3) & H4 & H5 & H6). apply StronglySorted_inv in H5 as [H5 H7]. rewrite Forall_forall in H7.
    split_and!; try done. intros x Hx. apply H6; [done|left].
  - intros ([H1 H2] & [H3 H4] & H5 & H6 & H7). split_and!; try done; [constructor; [done|by apply Forall_forall]|].
    intros x y Hx [->|Hy]%elem_of_cons; [by apply H6|]. unfold before. specialize (H6 x Hx). specialize (H7 y Hy). lia.
Qed.

(** The comparison at a node, as a case distinction. *)
Lemma compar_cases v k l r :
  valid v -> search_tree (Node k l r) ->
  ∃ c, compar v k = Some c
    /\ (c = 0 /\ key_of v (keys (Node k l r)) = Some k
        \/ c < 0 /\ rank v < rank k /\ key_of v (keys (Node k l r)) = key_of v (keys l)
        \/ 0 < c /\ rank k < rank v /\ key_of v (keys (Node k l r)) = key_of v (keys r)).
Proof.
  intros Hv (Hl & Hr & Hk & Hbl & Hbr)%search_tree_node. destruct (compar_rank v k Hv Hk) as (c & E & H1 & H2).
  exists c. split; [done|]. cbn [keys]. rewrite key_of_app. cbn [key_of].
  destruct (Z.lt_trichotomy c 0) as [Hc|[->|Hc]].
  - right. left. split; [done|]. assert (rank v < rank k) as Hlt by tauto. split; [done|].
    destruct (key_of v (keys l)); [done|]. rewrite decide_False by lia. apply key_of_none. intros x Hx. specialize (Hbr x Hx). lia.
  - left. split; [done|]. assert (rank v = rank k) as Heq by tauto.
    rewrite key_of_none by (intros x Hx; specialize (Hbl x Hx); lia). by rewrite decide_True.
  - right. right. split; [done|]. assert (rank k < rank v) as Hlt by lia. split; [done|].
    rewrite key_of_none by (intros x Hx; specialize (Hbl x Hx); lia). by rewrite decide_False by lia.
Qed.

Lemma tfind_spec v t : valid v -> search_tree t -> tfind_loop compar v t = Some (key_of v (keys t)).
Proof.
  intros Hv. induction t as [|k l IHl r IHr]; intros Ht; [done|]. cbn [tfind_loop].
  destruct (compar_cases v k l r Hv Ht) as (c & -> & Hc). apply search_tree_node in Ht as (Hl & Hr & _). cbn [mbind option_bind].
  destruct Hc as [(-> & E)|[(Hc & _ & E)|(Hc & _ & E)]]; rewrite E.
  - done.
  - destruct (Z.eqb_spec c 0); [lia|]. destruct (Z.ltb_spec c 0); [|lia]. by apply IHl.
  - destruct (Z.eqb_spec c 0); [lia|]. destruct (Z.ltb_spec c 0); [lia|]. by apply IHr.
Qed.

(** What [tsearch] does: the key is there, or it is put in its place. *)
Definition searched (alloc : bool) (v : K) (t : node) (res : option K) (t' : node) : Prop :=
  match key_of v (keys t) with
  | Some k => res = Some k /\ t' = t
  | None =>
      if alloc then res = Some v /\ search_tree t' /\ ∃ a b, keys t = a ++ b /\ keys t' = a ++ v :: b
      else res = None /\ t' = t
  end.

Lemma in_keys_around v k l r l' a b :
  keys l = a ++ b -> keys l' = a ++ v :: b -> search_tree (Node k l r) -> search_tree l' -> rank v < rank k -> search_tree (Node k l' r).
Proof.
  intros E E' (Hl & Hr & Hk & Hbl & Hbr)%search_tree_node Hl' Hv. apply search_tree_node. split_and!; try done.
  intros x Hx. rewrite E' in Hx. apply elem_of_app in Hx as [Hx|[->|Hx]%elem_of_cons]; [|done|]; apply Hbl; rewrite E; set_solver.
Qed.

Lemma tsearch_spec alloc v t : valid v -> search_tree t ->
  ∃ res t', tsearch_loop compar alloc v t = Some (res, t') /\ searched alloc v t res t'.
Proof.
  intros Hv. unfold searched. induction t as [|k l IHl r IHr]; intros Ht.
  { cbn [tsearch_loop]. destruct alloc; eexists _, _; (split; [done|]); cbn [keys key_of]; [|done].
    split; [done|]. split; [|by exists [], []]. split; [by repeat constructor|]. by repeat constructor. }
  cbn [tsearch_loop]. destruct (compar_cases v k l r Hv Ht) as (c & -> & Hc). cbn [mbind option_bind].
  pose proof Ht as (Hl & Hr & Hk & Hbl & Hbr)%search_tree_node.
  destruct Hc as [(-> & E)|[(Hc & Hlt & E)|(Hc & Hlt & E)]]; rewrite E.
  - eexists _, _. split; [done|]. done.
  - destruct (Z.eqb_spec c 0); [lia|]. destruct (Z.ltb_spec c 0); [|lia].
    destruct (IHl Hl) as (res & l' & -> & Hs). cbn [mbind option_bind]. eexists _, _. split; [done|].
    destruct (key_of v (keys l)); [by destruct Hs as [-> ->]|]. destruct alloc; [|by destruct Hs as [-> ->]].
    destruct Hs as (-> & Hs & a & b & E1 & E2). split; [done|]. split; [exact (in_keys_around v k l r l' a b E1 E2 Ht Hs Hlt)|].
    exists a, (b ++ k :: keys r). cbn [keys]. rewrite E1, E2, <- !app_assoc. done.
  - destruct (Z.eqb_spec c 0); [lia|]. destruct (Z.ltb_spec c 0); [lia|].
    destruct (IHr Hr) as (res & r' & -> & Hs). cbn [mbind option_bind]. eexists _, _. split; [done|].
    destruct (key_of v (keys r)); [by destruct Hs as [-> ->]|]. destruct alloc; [|by destruct Hs as [-> ->]].
    destruct Hs as (-> & Hs & a & b & E1 & E2). split; [done|]. split.
    + apply search_tree_node. split_and!; try done. intros x Hx. rewrite E2 in Hx.
      apply elem_of_app in Hx as [Hx|[->|Hx]%elem_of_cons]; [|done|]; apply Hbr; rewrite E1; set_solver.
    + exists (keys l ++ k :: a), b. cbn [keys]. rewrite E1, E2, <- !app_assoc. done.
Qed.

(** What [tdelete] does: the key is not there, or it is taken out. *)
Definition deleted (v : K) (t : node) (t' : option node) : Prop :=
  match key_of v (keys t) with
  | None => t' = None
  | Some k => ∃ u a b, t' = Some u /\ search_tree u /\ keys t = a ++ k :: b /\ keys u = a ++ b
  end.

Lemma search_tree_without k t u a b :
  search_tree t -> keys t = a ++ k :: b -> keys u = a ++ b -> search_tree u.
Proof.
  intros [Hv Hs] E E'. unfold search_tree. rewrite E' . rewrite E in *. apply Forall_app in Hv as [Hva Hvb]. apply Forall_cons in Hvb as [_ Hvb].
  split; [by apply Forall_app|]. apply sorted_app in Hs as (Ha & Hb & Hab). apply StronglySorted_inv in Hb as [Hb _].
  apply sorted_app. split_and!; [done..|]. intros x y Hx Hy. apply Hab; [done|by right].
Qed.

Lemma tdelete_spec v t : valid v -> search_tree t -> ∃ t', tdelete_loop compar v t = Some t' /\ deleted v t t'.
Proof.
  intros Hv. unfold deleted. induction t as [|k l IHl r IHr]; intros Ht; [by eexists|]. cbn [tdelete_loop].
  destruct (compar_cases v k l r Hv Ht) as (c & -> & Hc). cbn [mbind option_bind]. pose proof Ht as (Hl & Hr & _)%search_tree_node.
  destruct Hc as [(-> & E)|[(Hc & _ & E)|(Hc & _ & E)]]; rewrite E.
  - eexists. split; [done|]. exists (replacement l r), (keys l), (keys r). pose proof (keys_replacement l r) as Ek.
    split; [done|]. split; [|by split]. exact (search_tree_without k (Node k l r) _ (keys l) (keys r) Ht eq_refl Ek).
  - destruct (Z.eqb_spec c 0); [lia|]. destruct (Z.ltb_spec c 0); [|lia].
    destruct (IHl Hl) as (l' & -> & Hd). cbn [mbind option_bind]. eexists. split; [done|].
    destruct (key_of v (keys l)) as [k'|]; [|by subst]. destruct Hd as (u & a & b & -> & Hu & E1 & E2).
    assert (keys (Node k l r) = a ++ k' :: b ++ k :: keys r) as Ek by (cbn [keys]; by rewrite E1, <- app_assoc).
    assert (keys (Node k u r) = a ++ b ++ k :: keys r) as Eu by (cbn [keys]; by rewrite E2, <- app_assoc).
    exists (Node k u r), a, (b ++ k :: keys r). split; [done|]. split; [exact (search_tree_without k' _ _ _ _ Ht Ek Eu)|by split].
  - destruct (Z.eqb_spec c 0); [lia|]. destruct (Z.ltb_spec c 0); [lia|].
    destruct (IHr Hr) as (r' & -> & Hd). cbn [mbind option_bind]. eexists. split; [done|].
    destruct (key_of v (keys r)) as [k'|]; [|by subst]. destruct Hd as (u & a & b & -> & Hu & E1 & E2).
    assert (keys (Node k l r) = (keys l ++ k :: a) ++ k' :: b) as Ek by (cbn [keys]; by rewrite E1, <- app_assoc).
    assert (keys (Node k l u) = (keys l ++ k :: a) ++ b) as Eu by (cbn [keys]; by rewrite E2, <- app_assoc).
    exists (Node k l u), (keys l ++ k :: a), b. split; [done|]. split; [exact (search_tree_without k' _ _ _ _ Ht Ek Eu)|by split].
Qed.
End Order.
End Tree.
Arguments node : clear implicits.

(** ** Theorem *)

(** C34: The search tree is a sorted set of keys: for every comparison function
    that orders the keys of the tree and the wanted one, searching, inserting
    and deleting never follow a null pointer or fail, keep the tree ordered,
    and on the list of its keys in order they are lookup, insertion in place
    and removal of the key that compares equal. *)
Theorem tsearch_is_a_sorted_set {K} (compar : K -> K -> option Z) (valid : K -> Prop) `{!KeyOrder compar valid} v t alloc :
  valid v -> search_tree compar valid t ->
  tfind compar v (Some t) = Some (key_of compar valid v (keys t))
  /\ (∃ res t', tsearch compar alloc v (Some t) = Some (res, Some t') /\ searched compar valid alloc v t res t')
  /\ (∃ t', tdelete compar v (Some t) = Some (bool_decide (is_Some (key_of compar valid v (keys t))), Some t')
       /\ deleted compar valid v t (if decide (is_Some (key_of compar valid v (keys t))) then Some t' else None)).
Proof.
  intros Hv Ht. split; [by apply tfind_spec|]. split.
  - destruct (tsearch_spec compar valid alloc v t Hv Ht) as (res & t' & E & Hs). exists res, t'. split; [|done].
    unfold tsearch. by rewrite E.
  - destruct (tdelete_spec compar valid v t Hv Ht) as (t' & E & Hd). unfold tdelete. rewrite E. cbn [mbind option_bind].
    unfold deleted in *. destruct (key_of compar valid v (keys t)) as [k|].
    + destruct Hd as (u & a & b & -> & Hu). exists u. split; [done|]. exists u, a, b. done.
    + subst t'. by exists t.
Qed.

(** ** A concrete tree *)

Definition minus (a b : Z) : option Z := Some (a - b).

Definition any_key (a : Z) : Prop := True.

Lemma minus_rank a b : any_key a -> any_key b -> ∃ r, minus a b = Some r /\ (r < 0 <-> a < b) /\ (r = 0 <-> a = b).
Proof. intros _ _. exists (a - b). split; [done|]. lia. Qed.

Definition minus_order : KeyOrder minus any_key := {| rank := id; compar_rank := minus_rank |}.

Definition demo_tree : node Z := Node 4 (Node 2 Null Null) (Node 8 (Node 6 Null (Node 7 Null Null)) (Node 9 Null Null)).

Lemma demo_tree_ok : search_tree (KeyOrder0 := minus_order) minus any_key demo_tree.
Proof. split; [by repeat constructor|]. unfold demo_tree. cbn [keys app]. repeat constructor; unfold before; cbn; lia. Qed.

Lemma tsearch_is_a_sorted_set_witness :
  tfind minus 6 (Some demo_tree) = Some (Some 6)
  /\ tdelete minus 4 (Some demo_tree) = Some (true, Some (Node 6 (Node 2 Null Null) (Node 8 (Node 7 Null Null) (Node 9 Null Null)))).
Proof.
  split.
  - rewrite (proj1 (tsearch_is_a_sorted_set (KeyOrder0 := minus_order) minus any_key 6 demo_tree true I demo_tree_ok)). reflexivity.
  - destruct (tsearch_is_a_sorted_set (KeyOrder0 := minus_order) minus any_key 4 demo_tree true I demo_tree_ok) as (_ & _ & t' & E & _).
    rewrite E. injection E as <-. reflexivity.
Defined.
