(* ===== verification/IpLimit.v ===== *)
(** * Connections per address (libmicrohttpd/src/microhttpd/daemon.c)

    The number of connections of each IP address, kept in a search tree of
    pointers to counters, and the limit on it.

    The counters are objects of a heap: the tree holds their addresses, and
    reading or writing one that was freed is undefined behaviour. *)

From Stdlib Require Import Sorted.
From stdpp Require Import gmap.
From S2P Require Import Prelude TSearch.

#[local] Open Scope Z_scope.

(** ** Addresses *)

(** [struct sockaddr], by the length that comes with it: the address inside a
    [sockaddr_in] or [sockaddr_in6], or anything else. *)
Inductive sockaddr := Sockaddr_in (sin_addr : bytes) | Sockaddr_in6 (sin6_addr : bytes) | Sockaddr_other.

#[export] Instance sockaddr_eq_dec : EqDecision sockaddr.
Proof. solve_decision. Defined.

(** The members have their lengths. *)
Definition sockaddr_ok (a : sockaddr) : Prop :=
  match a with
  | Sockaddr_in x => length x = 4%nat /\ Forall is_byte x
  | Sockaddr_in6 x => length x = 16%nat /\ Forall is_byte x
  | Sockaddr_other => True
  end.

(** [struct MHD_IPCount]: the bytes in front of [count], which are an [int]
    and a union of 16 bytes, and [count]. *)
Record MHD_IPCount := mkIPCount { ip_key : bytes; count : Z }.

Section Addresses.
(** [AF_INET] and [AF_INET6] as the bytes of an [int]. *)
Variables AF_INET AF_INET6 : bytes.

(** With the object cleared first; [None] for another address. *)
Definition MHD_ip_addr_to_key (addr : sockaddr) : option MHD_IPCount :=
  match addr with
  | Sockaddr_in x => Some (mkIPCount (AF_INET ++ x ++ replicate 12 0) 0)
  | Sockaddr_in6 x => Some (mkIPCount (AF_INET6 ++ x) 0)
  | Sockaddr_other => None
  end.
End Addresses.

(** [memcmp] of objects of the same length. *)
Fixpoint memcmp (a b : bytes) : Z :=
  match a, b with
  | x :: a', y :: b' => if x =? y then memcmp a' b' else x - y
  | _, _ => 0
  end.

(** ** The table *)

Abbreviation heap := (gmap positive MHD_IPCount).

Definition MHD_ip_addr_compare (h : heap) (a1 a2 : positive) : option Z :=
  x ← h !! a1; y ← h !! a2; Some (memcmp (ip_key x) (ip_key y)).

(** The members of the master daemon that keep the counts, and the objects
    they point to. *)
Record ip_table := mkIpTable {
  per_ip_connection_limit : Z;
  per_ip_connection_count : node positive;
  objects : heap
}.

Definition set_table (d : ip_table) (t : node positive) (h : heap) : ip_table :=
  mkIpTable (per_ip_connection_limit d) t h.

Section Table.
Variables AF_INET AF_INET6 : bytes.

(** [key] is what [malloc] returns for the counter, [alloc] whether the node
    of the tree can be allocated. *)
Definition MHD_ip_limit_add (key : option positive) (alloc : bool) (d : ip_table) (addr : sockaddr)
    : option (bool * ip_table) :=
  if 0 =? per_ip_connection_limit d then Some (true, d)
  else
    match key with
    | None => Some (false, d)
    | Some key =>
        match MHD_ip_addr_to_key AF_INET AF_INET6 addr with
        | None => Some (true, d)
        | Some k =>
            let h := <[key := k]> (objects d) in
            '(nodep, root) ← tsearch (MHD_ip_addr_compare h) alloc key (Some (per_ip_connection_count d));
            root ← root;
            match nodep with
            | None => Some (false, set_table d root (delete key h))
            | Some node_ =>
                let h := if decide (node_ = key) then h else delete key h in
                k ← h !! node_;
                let result := count k <? per_ip_connection_limit d in
                Some (result, set_table d root
                                (if result then <[node_ := mkIPCount (ip_key k) (u32 (count k + 1))]> h else h))
            end
        end
    end.

(** [search_key] is the address of the local object.  A panic is [None]. *)
Definition MHD_ip_limit_del (search_key : positive) (d : ip_table) (addr : sockaddr) : option ip_table :=
  if 0 =? per_ip_connection_limit d then Some d
  else
    match MHD_ip_addr_to_key AF_INET AF_INET6 addr with
    | None => Some d
    | Some k =>
        nodep ← tfind (MHD_ip_addr_compare (<[search_key := k]> (objects d))) search_key (Some (per_ip_connection_count d));
        found_key ← nodep;
        found ← objects d !! found_key;
        if 0 =? count found then None
        else
          let n := u32 (count found - 1) in
          let h := <[found_key := mkIPCount (ip_key found) n]> (objects d) in
          if 0 =? n then
            '(_, root) ← tdelete (MHD_ip_addr_compare h) found_key (Some (per_ip_connection_count d));
            root ← root;
            Some (set_table d root (delete found_key h))
          else Some (set_table d (per_ip_connection_count d) h)
    end.
End Table.

(** ** The order of the keys *)

Lemma value_from_mono a b r1 r2 :
  length a = length b -> Forall is_byte a -> Forall is_byte b -> r1 < r2 -> value_from 256 r1 a < value_from 256 r2 b.
Proof.
  intros Hl Ha. revert b Hl r1 r2. induction Ha as [|x a Hx Ha IH]; intros [|y b] Hl r1 r2 Hb Hr; try done.
  apply Forall_cons in Hb as [Hy Hb]. injection Hl as Hl. cbn [value_from foldl]. apply (IH b Hl); [done|].
  unfold is_byte in *. lia.
Qed.

Lemma memcmp_value a b r :
  length a = length b -> Forall is_byte a -> Forall is_byte b ->
  (memcmp a b < 0 <-> value_from 256 r a < value_from 256 r b) /\ (memcmp a b = 0 <-> value_from 256 r a = value_from 256 r b)
  /\ (memcmp a b = 0 -> a = b).
Proof.
  intros Hl Ha. revert b Hl r. induction Ha as [|x a Hx Ha IH]; intros [|y b] Hl r Hb; try done; [cbn; split; [lia|]; split; [lia|done]|].
  apply Forall_cons in Hb as [Hy Hb]. injection Hl as Hl. cbn [memcmp value_from foldl]. destruct (Z.eqb_spec x y) as [<-|Hne].
  - destruct (IH b Hl (r * 256 + x) Hb) as (H1 & H2 & H3). split; [done|]. split; [done|]. intros E. by rewrite H3.
  - destruct (Z.lt_total x y) as [Hlt|[?|Hlt]]; [|done|].
    + pose proof (value_from_mono a b (r * 256 + x) (r * 256 + y) Hl Ha Hb ltac:(lia)).
      unfold value_from in *. split; [lia|]. split; [lia|]. intros; lia.
    + pose proof (value_from_mono b a (r * 256 + y) (r * 256 + x) ltac:(done) Hb Ha ltac:(lia)).
      unfold value_from in *. split; [lia|]. split; [lia|]. intros; lia.
Qed.

Definition key_ok (k : bytes) : Prop := length k = 20%nat /\ Forall is_byte k.

Definition pointer_ok (h : heap) (p : positive) : Prop := ∃ c, h !! p = Some c /\ key_ok (ip_key c).

Definition key_rank (h : heap) (p : positive) : Z :=
  match h !! p with Some c => value 256 (ip_key c) | None => 0 end.

Lemma ip_compare_rank h a b : pointer_ok h a -> pointer_ok h b ->
  ∃ r, MHD_ip_addr_compare h a b = Some r /\ (r < 0 <-> key_rank h a < key_rank h b) /\ (r = 0 <-> key_rank h a = key_rank h b).
Proof.
  intros (x & Ex & Lx & Bx) (y & Ey & Ly & By). unfold MHD_ip_addr_compare, key_rank. rewrite Ex, Ey. cbn [mbind option_bind].
  eexists. split; [done|]. destruct (memcmp_value (ip_key x) (ip_key y) 0) as (H1 & H2 & _); [congruence|done|done|]. done.
Qed.

#[export] Instance ip_order h : KeyOrder (MHD_ip_addr_compare h) (pointer_ok h) :=
  {| rank := key_rank h; compar_rank := ip_compare_rank h |}.

#[local] Abbreviation tree_ok h := (search_tree (MHD_ip_addr_compare h) (pointer_ok h)).
#[local] Abbreviation find_key h := (key_of (MHD_ip_addr_compare h) (pointer_ok h)).

Lemma rank_key h a b x y :
  h !! a = Some x -> h !! b = Some y -> key_ok (ip_key x) -> key_ok (ip_key y) -> key_rank h a = key_rank h b -> ip_key x = ip_key y.
Proof.
  intros Ex Ey [Lx Bx] [Ly By]. unfold key_rank. rewrite Ex, Ey.
  destruct (memcmp_value (ip_key x) (ip_key y) 0) as (_ & H2 & H3); [congruence|done|done|]. intros E. by apply H3, H2.
Qed.

(** Only the keys of the objects matter to the tree. *)
Definition same_keys (l : list positive) (h h' : heap) : Prop := forall p, p ∈ l -> ip_key <$> h !! p = ip_key <$> h' !! p.

Lemma same_keys_ok l h h' p : same_keys l h h' -> p ∈ l -> key_rank h p = key_rank h' p /\ (pointer_ok h p -> pointer_ok h' p).
Proof.
  intros Hs Hp. specialize (Hs p Hp). unfold key_rank, pointer_ok. destruct (h !! p) as [x|], (h' !! p) as [y|]; try done.
  - injection Hs as Hs. rewrite Hs. split; [done|]. intros (c & [= <-] & Hc). exists y. split; [done|]. by rewrite <- Hs.
Qed.

Lemma tree_ok_heap t h h' : same_keys (keys t) h h' -> tree_ok h t -> tree_ok h' t.
Proof.
  unfold search_tree. generalize (keys t). intros l Hs [Hv Hso]. split.
  - rewrite Forall_forall in *. intros p Hp. by apply (same_keys_ok l h h' p Hs Hp), Hv.
  - clear Hv. induction Hso as [|p l Hso IH Hp]; [constructor|]. constructor.
    + apply IH. intros q Hq. apply Hs. by right.
    + rewrite Forall_forall in *. intros q Hq. specialize (Hp q Hq). unfold before in *. cbn in *.
      destruct (same_keys_ok _ _ _ p Hs ltac:(left)) as [<- _]. destruct (same_keys_ok _ _ _ q Hs ltac:(by right)) as [<- _]. done.
Qed.

Lemma find_key_some h v l p : find_key h v l = Some p -> p ∈ l /\ key_rank h v = key_rank h p.
Proof.
  induction l as [|k l IH]; [done|]. cbn [key_of]. destruct (decide _) as [E|_]; [intros [= <-]; split; [left|done]|].
  intros Hp. destruct (IH Hp). split; [by right|done].
Qed.

Lemma find_key_none h v l p : find_key h v l = None -> p ∈ l -> key_rank h v ≠ key_rank h p.
Proof.
  induction l as [|k l IH]; [intros _ Hp; by apply elem_of_nil in Hp|]. cbn [key_of]. destruct (decide _) as [|E]; [done|].
  intros Hn [->|Hp]%elem_of_cons; [done|by apply IH].
Qed.

Lemma same_rank_same_pointer h t p q : tree_ok h t -> p ∈ keys t -> q ∈ keys t -> key_rank h p = key_rank h q -> p = q.
Proof.
  intros [_ Hs]. revert Hs. generalize (keys t). intros l Hs Hp Hq E. induction Hs as [|x l Hs IH Hx]; [by apply elem_of_nil in Hp|].
  rewrite Forall_forall in Hx. unfold before in Hx. cbn in Hx.
  apply elem_of_cons in Hp as [->|Hp], Hq as [->|Hq]; [done| | |by apply IH].
  - specialize (Hx q Hq). lia.
  - specialize (Hx p Hp). lia.
Qed.

(** ** The table against the open connections *)

Section Refinement.
Context (AF_INET AF_INET6 : bytes) (Hfour : length AF_INET = 4%nat /\ length AF_INET6 = 4%nat)
  (Hbytes : Forall is_byte AF_INET /\ Forall is_byte AF_INET6) (Hdiff : AF_INET ≠ AF_INET6).

Definition addr_key (a : sockaddr) : option bytes := ip_key <$> MHD_ip_addr_to_key AF_INET AF_INET6 a.

Definition supported (a : sockaddr) : bool := match a with Sockaddr_other => false | _ => true end.

(** How many of the open connections have the address. *)
Definition connected (a : sockaddr) (open : list sockaddr) : nat := length (filter (λ b, b = a) open).

Lemma addr_key_ok a : sockaddr_ok a -> supported a = true -> ∃ k, addr_key a = Some k /\ key_ok k.
Proof using All.
  unfold addr_key, key_ok. destruct a as [x|x|]; cbn; [| |done]; intros [Hl Hb] _; eexists; (split; [done|]).
  - rewrite !length_app. cbn [length]. split; [lia|]. rewrite !Forall_app. split; [tauto|]. split; [done|].
    apply (bool_decide_unpack _). vm_compute. exact I.
  - rewrite length_app, Forall_app. split; [lia|tauto].
Qed.

Lemma addr_key_inj a b k : sockaddr_ok a -> sockaddr_ok b -> addr_key a = Some k -> addr_key b = Some k -> a = b.
Proof using All.
  unfold addr_key. destruct a as [x|x|], b as [y|y|]; cbn; intros Ha Hb [= <-]; try done; intros [= E].
  - apply app_inj_1 in E as [_ E]; [|done]. apply app_inj_1 in E as [-> _]; [done|lia].
  - apply app_inj_1 in E as [E _]; [by destruct Hdiff|lia].
  - apply app_inj_1 in E as [E _]; [by destruct Hdiff|lia].
  - apply app_inj_1 in E as [_ ->]; [done|lia].
Qed.

(** The table counts the open connections: one object for each address that
    has any, and no other object. *)
Record table_is (d : ip_table) (open : list sockaddr) : Prop := {
  ti_limit : 0 < per_ip_connection_limit d <= UINT32_MAX;
  ti_tree : tree_ok (objects d) (per_ip_connection_count d);
  ti_objects : forall p, p ∈ keys (per_ip_connection_count d) <-> is_Some (objects d !! p);
  ti_counts : forall p c, objects d !! p = Some c ->
    ∃ a, sockaddr_ok a /\ addr_key a = Some (ip_key c) /\ count c = Z.of_nat (connected a open) /\ 0 < count c;
  ti_found : forall a k, sockaddr_ok a -> addr_key a = Some k -> (0 < connected a open)%nat -> ∃ p c, objects d !! p = Some c /\ ip_key c = k;
  ti_bound : forall a, sockaddr_ok a -> supported a = true -> Z.of_nat (connected a open) <= per_ip_connection_limit d
}.

Lemma object_of d open p c a : table_is d open -> objects d !! p = Some c -> sockaddr_ok a -> addr_key a = Some (ip_key c) ->
  count c = Z.of_nat (connected a open) /\ 0 < count c.
Proof using All.
  intros Ht Ec Ha Ek. destruct (ti_counts _ _ Ht p c Ec) as (b & Hb & Ekb & En & Hn).
  by rewrite (addr_key_inj a b (ip_key c) Ha Hb Ek Ekb).
Qed.

(** With another object in the heap, a local one or one just allocated. *)
Lemma tree_with_key d open p k : table_is d open -> objects d !! p = None -> key_ok (ip_key k) ->
  let h := <[p := k]> (objects d) in
  tree_ok h (per_ip_connection_count d) /\ pointer_ok h p
  /\ match find_key h p (keys (per_ip_connection_count d)) with
     | Some q => q ≠ p /\ ∃ c, objects d !! q = Some c /\ ip_key c = ip_key k
     | None => forall q c, objects d !! q = Some c -> ip_key c ≠ ip_key k
     end.
Proof using All.
  intros Ht Hp Hk h. assert (forall q, q ∈ keys (per_ip_connection_count d) -> q ≠ p) as Hne.
  { intros q Hq ->. apply (ti_objects _ _ Ht) in Hq as [? Hq]. congruence. }
  assert (tree_ok h (per_ip_connection_count d)) as Htree.
  { eapply tree_ok_heap; [|exact (ti_tree _ _ Ht)]. intros q Hq. unfold h. rewrite lookup_insert_ne by (specialize (Hne q Hq); congruence). done. }
  assert (h !! p = Some k) as Ep by (unfold h; by rewrite lookup_insert_eq).
  split; [done|]. split; [by exists k|]. destruct (find_key h p _) as [q|] eqn:Ef.
  - apply find_key_some in Ef as [Hq Er]. specialize (Hne q Hq). split; [done|].
    pose proof Htree as [Hv _]. rewrite Forall_forall in Hv. destruct (Hv q Hq) as (c & Ec & Hc). exists c.
    assert (objects d !! q = Some c) as Eq by (unfold h in Ec; by rewrite lookup_insert_ne in Ec by congruence).
    split; [done|]. symmetry. by apply (rank_key h p q k c).
  - intros q c Ec Ek. assert (q ∈ keys (per_ip_connection_count d)) as Hq by (apply (ti_objects _ _ Ht); eauto).
    specialize (Hne q Hq). apply (find_key_none h p _ q Ef Hq). unfold key_rank. rewrite Ep.
    unfold h. rewrite lookup_insert_ne by congruence. by rewrite Ec, Ek.
Qed.

Lemma connected_cons a b open : connected a (b :: open) = ((if decide (b = a) then 1 else 0) + connected a open)%nat.
Proof. unfold connected. rewrite filter_cons. by destruct (decide (b = a)). Qed.

(** Counting one more connection of the object [p]. *)
Lemma count_up d open a p c : table_is d open -> objects d !! p = Some c -> sockaddr_ok a -> addr_key a = Some (ip_key c) ->
  count c < per_ip_connection_limit d ->
  table_is (set_table d (per_ip_connection_count d) (<[p := mkIPCount (ip_key c) (u32 (count c + 1))]> (objects d))) (a :: open).
Proof using All.
  intros Ht Ec Ha Ek Hlt. destruct (object_of d open p c a Ht Ec Ha Ek) as [En Hn]. pose proof (ti_limit _ _ Ht) as Hlim.
  rewrite (wrap_small 32) by lia. set (h' := <[p := _]> _).
  assert (forall q, ip_key <$> objects d !! q = ip_key <$> h' !! q) as Hsame.
  { intros q. unfold h'. destruct (decide (p = q)) as [<-|]; [by rewrite Ec, lookup_insert_eq|by rewrite lookup_insert_ne]. }
  split; cbn [set_table per_ip_connection_limit per_ip_connection_count objects].
  - done.
  - eapply tree_ok_heap; [|exact (ti_tree _ _ Ht)]. intros q _. apply Hsame.
  - intros q. rewrite (ti_objects _ _ Ht q). specialize (Hsame q). destruct (objects d !! q), (h' !! q); done.
  - intros q x Ex. unfold h' in Ex. destruct (decide (p = q)) as [<-|Hne].
    + rewrite lookup_insert_eq in Ex. injection Ex as <-. exists a. split; [done|]. split; [done|]. cbn [count].
      rewrite connected_cons, decide_True by done. lia.
    + rewrite lookup_insert_ne in Ex by done. destruct (ti_counts _ _ Ht q x Ex) as (b & Hb & Ekb & Enb & Hnb). exists b.
      split; [done|]. split; [done|]. rewrite connected_cons, decide_False; [done|]. intros ->.
      apply Hne. apply (same_rank_same_pointer _ _ p q (ti_tree _ _ Ht)); [apply (ti_objects _ _ Ht); eauto..|].
      unfold key_rank. rewrite Ec, Ex. congruence.
  - intros b k Hb Ekb Hcb. rewrite connected_cons in Hcb. destruct (decide (a = b)) as [<-|Hne].
    + exists p, (mkIPCount (ip_key c) (count c + 1)). unfold h'. rewrite lookup_insert_eq. split; [done|]. cbn [ip_key]. congruence.
    + destruct (ti_found _ _ Ht b k Hb Ekb) as (q & x & Eq & Ex); [lia|]. specialize (Hsame q). rewrite Eq in Hsame.
      destruct (h' !! q) as [y|] eqn:Ey; [|done]. injection Hsame as Hsame. exists q, y. split; [done|]. congruence.
  - intros b Hb Hs. rewrite connected_cons. destruct (decide (a = b)) as [<-|]; [lia|]. by apply (ti_bound _ _ Ht).
Qed.

#[export] Instance connected_perm a : Proper ((≡ₚ) ==> (=)) (connected a).
Proof. intros x y E. unfold connected. by rewrite E. Qed.

#[export] Instance table_is_perm d : Proper ((≡ₚ) ==> iff) (table_is d).
Proof.
  assert (forall x y, x ≡ₚ y -> table_is d x -> table_is d y) as H.
  { intros x y E [H1 H2 H3 H4 H5 H6]. split; try done.
    - intros p c Ec. destruct (H4 p c Ec) as (a & Ha & Ek & En & Hn). exists a. by rewrite <- E.
    - intros a k Ha Ek Hc. rewrite <- E in Hc. by apply (H5 a k).
    - intros a Ha Hs. rewrite <- E. by apply H6. }
  intros x y E. split; apply H; [done|by symmetry].
Qed.

Lemma not_connected d open a k : table_is d open -> sockaddr_ok a -> addr_key a = Some k ->
  (forall q c, objects d !! q = Some c -> ip_key c ≠ k) -> connected a open = 0%nat.
Proof using All.
  intros Ht Ha Ek Hno. destruct (decide (0 < connected a open)%nat) as [Hc|]; [|lia].
  destruct (ti_found _ _ Ht a k Ha Ek Hc) as (q & c & Eq & Ec). by destruct (Hno q c Eq).
Qed.

(** The first connection of an address. *)
Lemma count_first d open a k p t l1 l2 : table_is d open -> objects d !! p = None -> sockaddr_ok a -> addr_key a = Some k ->
  (forall q c, objects d !! q = Some c -> ip_key c ≠ k) ->
  tree_ok (<[p := mkIPCount k 0]> (objects d)) t -> keys (per_ip_connection_count d) = l1 ++ l2 -> keys t = l1 ++ p :: l2 ->
  table_is (set_table d t (<[p := mkIPCount k 1]> (<[p := mkIPCount k 0]> (objects d)))) (a :: open).
Proof using All.
  intros Ht Hp Ha Ek Hno Htree E1 E2. pose proof (ti_limit _ _ Ht) as Hlim. pose proof (not_connected d open a k Ht Ha Ek Hno) as H0.
  rewrite insert_insert_eq. split; cbn [set_table per_ip_connection_limit per_ip_connection_count objects].
  - done.
  - eapply tree_ok_heap; [|exact Htree]. intros q _. destruct (decide (p = q)) as [<-|]; [by rewrite !lookup_insert_eq|by rewrite !lookup_insert_ne].
  - intros q. pose proof (ti_objects _ _ Ht q) as Hq. rewrite E1 in Hq. rewrite E2. destruct (decide (p = q)) as [<-|Hne].
    + rewrite lookup_insert_eq. split; [eauto|]. intros _. apply elem_of_app. right. left.
    + rewrite lookup_insert_ne by done. rewrite <- Hq. rewrite !elem_of_app, elem_of_cons. naive_solver.
  - intros q c Ec. destruct (decide (p = q)) as [<-|Hne].
    + rewrite lookup_insert_eq in Ec. injection Ec as <-. exists a. split; [done|]. split; [done|]. cbn [count].
      rewrite connected_cons, decide_True, H0 by done. lia.
    + rewrite lookup_insert_ne in Ec by done. destruct (ti_counts _ _ Ht q c Ec) as (b & Hb & Ekb & Enb & Hnb). exists b.
      split; [done|]. split; [done|]. rewrite connected_cons, decide_False; [done|]. intros ->. apply (Hno q c Ec). congruence.
  - intros b k' Hb Ekb Hcb. rewrite connected_cons in Hcb. destruct (decide (a = b)) as [<-|Hne].
    + exists p, (mkIPCount k 1). rewrite lookup_insert_eq. split; [done|]. cbn [ip_key]. congruence.
    + destruct (ti_found _ _ Ht b k' Hb Ekb) as (q & c & Eq & Ec); [lia|]. exists q, c. split; [|done].
      rewrite lookup_insert_ne by congruence. done.
  - intros b Hb Hs. rewrite connected_cons. destruct (decide (a = b)) as [<-|]; [lia|]. by apply (ti_bound _ _ Ht).
Qed.

(** [MHD_ip_limit_add] accepts below the limit and counts. *)
Lemma ip_limit_add_ok d open key alloc a : table_is d open -> sockaddr_ok a -> (forall p, key = Some p -> objects d !! p = None) ->
  ∃ ok d', MHD_ip_limit_add AF_INET AF_INET6 key alloc d a = Some (ok, d')
    /\ per_ip_connection_limit d' = per_ip_connection_limit d
    /\ (if ok then table_is d' (if supported a then a :: open else open)
                   /\ (supported a = true -> Z.of_nat (connected a open) < per_ip_connection_limit d)
        else table_is d' open
             /\ (Z.of_nat (connected a open) = per_ip_connection_limit d \/ key = None \/ alloc = false)).
Proof using All.
  intros Ht Ha Hkey. unfold MHD_ip_limit_add. pose proof (ti_limit _ _ Ht) as Hlim.
  destruct (Z.eqb_spec 0 (per_ip_connection_limit d)); [lia|]. destruct key as [p|].
  2:{ exists false, d. split; [done|]. split; [done|]. split; [done|]. right. by left. }
  specialize (Hkey p eq_refl). destruct (MHD_ip_addr_to_key AF_INET AF_INET6 a) as [k|] eqn:Ek.
  2:{ exists true, d. destruct a; try done. }
  assert (supported a = true) as Hsup by (by destruct a). rewrite Hsup.
  assert (count k = 0) as Hk0 by (destruct a; cbn in Ek; by simplify_eq).
  assert (addr_key a = Some (ip_key k)) as Eka by (unfold addr_key; by rewrite Ek).
  destruct (addr_key_ok a Ha Hsup) as (kb & Ekb & Hkb). assert (kb = ip_key k) as -> by congruence.
  destruct (tree_with_key d open p k Ht Hkey Hkb) as (Htree & Hpv & Hfind). set (h := <[p := k]> (objects d)) in *.
  destruct (tsearch_spec _ _ alloc p _ Hpv Htree) as (res & t' & E & Hs). unfold tsearch. rewrite E. cbn [mbind option_bind].
  assert (delete p h = objects d) as Edel by (unfold h; by rewrite delete_insert_id).
  unfold searched in Hs. destruct (find_key h p (keys (per_ip_connection_count d))) as [q|] eqn:Ef.
  - destruct Hs as [-> ->]. destruct Hfind as (Hqp & c & Ec & Ekc). rewrite decide_False by done. rewrite Edel, Ec. cbn [mbind option_bind].
    rewrite <- Ekc in Eka. destruct (object_of d open q c a Ht Ec Ha Eka) as [En Hn].
    eexists _, _. split; [done|]. split; [done|]. destruct (Z.ltb_spec (count c) (per_ip_connection_limit d)) as [Hlt|Hge].
    + split; [by apply count_up|]. intros _. lia.
    + split; [by destruct d|]. left. pose proof (ti_bound _ _ Ht a Ha Hsup). lia.
  - destruct alloc.
    + destruct Hs as (-> & Ht' & l1 & l2 & E1 & E2). rewrite decide_True by done.
      unfold h. rewrite lookup_insert_eq. cbn [mbind option_bind]. rewrite Hk0.
      destruct (Z.ltb_spec 0 (per_ip_connection_limit d)); [|lia]. eexists _, _. split; [done|]. split; [done|].
      assert (k = mkIPCount (ip_key k) 0) as -> by (destruct k; cbn in *; by subst). cbn [ip_key].
      split; [|rewrite (not_connected d open a (ip_key k)) by done; lia].
      replace (u32 (0 + 1)) with 1 by reflexivity. eapply count_first; try done.
      unfold h in Ht'. destruct k as [kk kc]. cbn in *. by subst kc.
    + destruct Hs as [-> ->]. eexists _, _. split; [done|]. split; [done|]. rewrite Edel. split; [by destruct d|]. by right; right.
Qed.

(** One connection less, and others remain. *)
Lemma count_less d open a p c : table_is d (a :: open) -> objects d !! p = Some c -> sockaddr_ok a -> addr_key a = Some (ip_key c) ->
  1 < count c ->
  table_is (set_table d (per_ip_connection_count d) (<[p := mkIPCount (ip_key c) (count c - 1)]> (objects d))) open.
Proof using All.
  intros Ht Ec Ha Ek Hlt. destruct (object_of d (a :: open) p c a Ht Ec Ha Ek) as [En Hn]. rewrite connected_cons, decide_True in En by done.
  set (h' := <[p := _]> _).
  assert (forall q, ip_key <$> objects d !! q = ip_key <$> h' !! q) as Hsame.
  { intros q. unfold h'. destruct (decide (p = q)) as [<-|]; [by rewrite Ec, lookup_insert_eq|by rewrite lookup_insert_ne]. }
  split; cbn [set_table per_ip_connection_limit per_ip_connection_count objects].
  - by apply Ht.
  - eapply tree_ok_heap; [|exact (ti_tree _ _ Ht)]. intros q _. apply Hsame.
  - intros q. rewrite (ti_objects _ _ Ht q). specialize (Hsame q). destruct (objects d !! q), (h' !! q); done.
  - intros q x Ex. unfold h' in Ex. destruct (decide (p = q)) as [<-|Hne].
    + rewrite lookup_insert_eq in Ex. injection Ex as <-. exists a. split; [done|]. split; [done|]. cbn [count]. lia.
    + rewrite lookup_insert_ne in Ex by done. destruct (ti_counts _ _ Ht q x Ex) as (b & Hb & Ekb & Enb & Hnb). exists b.
      rewrite connected_cons, decide_False in Enb; [done|]. intros ->.
      apply Hne. apply (same_rank_same_pointer _ _ p q (ti_tree _ _ Ht)); [apply (ti_objects _ _ Ht); eauto..|].
      unfold key_rank. rewrite Ec, Ex. congruence.
  - intros b k Hb Ekb Hcb. destruct (ti_found _ _ Ht b k Hb Ekb) as (q & x & Eq & Ex); [rewrite connected_cons; lia|].
    specialize (Hsame q). rewrite Eq in Hsame. destruct (h' !! q) as [y|] eqn:Ey; [|done]. injection Hsame as Hsame. exists q, y.
    split; [done|]. congruence.
  - intros b Hb Hs. pose proof (ti_bound _ _ Ht b Hb Hs) as Hle. rewrite connected_cons in Hle. lia.
Qed.

(** The last connection of an address. *)
Lemma count_last d open a p c t l1 l2 : table_is d (a :: open) -> objects d !! p = Some c -> sockaddr_ok a -> addr_key a = Some (ip_key c) ->
  count c = 1 -> search_tree (MHD_ip_addr_compare (objects d)) (pointer_ok (objects d)) t ->
  keys (per_ip_connection_count d) = l1 ++ p :: l2 -> keys t = l1 ++ l2 ->
  table_is (set_table d t (delete p (objects d))) open.
Proof using All.
  intros Ht Ec Ha Ek H1 Htree E1 E2. destruct (object_of d (a :: open) p c a Ht Ec Ha Ek) as [En Hn].
  rewrite connected_cons, decide_True in En by done. assert (connected a open = 0%nat) as H0 by lia.
  assert (p ∉ l1 ++ l2) as Hnot.
  { destruct (ti_tree _ _ Ht) as [_ Hs]. rewrite E1 in Hs. apply sorted_app in Hs as (_ & Hb & Hab).
    apply StronglySorted_inv in Hb as [_ Hb]. rewrite Forall_forall in Hb. unfold before in *. intros [Hp|Hp]%elem_of_app.
    - specialize (Hab p p Hp ltac:(left)). lia.
    - specialize (Hb p Hp). lia. }
  split; cbn [set_table per_ip_connection_limit per_ip_connection_count objects].
  - by apply Ht.
  - eapply tree_ok_heap; [|exact Htree]. intros q Hq. rewrite lookup_delete_ne; [done|]. intros <-. apply Hnot. by rewrite <- E2.
  - intros q. pose proof (ti_objects _ _ Ht q) as Hq. rewrite E1 in Hq. rewrite E2. destruct (decide (p = q)) as [<-|Hne].
    + rewrite lookup_delete_eq. split; [done|]. by intros [? ?].
    + rewrite lookup_delete_ne by done. rewrite <- Hq. rewrite !elem_of_app, elem_of_cons. naive_solver.
  - intros q x Ex. apply lookup_delete_Some in Ex as [Hne Ex]. destruct (ti_counts _ _ Ht q x Ex) as (b & Hb & Ekb & Enb & Hnb). exists b.
    rewrite connected_cons, decide_False in Enb; [done|]. intros ->.
    apply Hne. apply (same_rank_same_pointer _ _ p q (ti_tree _ _ Ht)); [apply (ti_objects _ _ Ht); eauto..|].
    unfold key_rank. rewrite Ec, Ex. congruence.
  - intros b k Hb Ekb Hcb. destruct (ti_found _ _ Ht b k Hb Ekb) as (q & x & Eq & Ex); [rewrite connected_cons; lia|].
    exists q, x. split; [|done]. rewrite lookup_delete_ne; [done|]. intros <-. rewrite Ec in Eq. injection Eq as ->.
    assert (b = a) as -> by (apply (addr_key_inj b a k); [done..|congruence]). lia.
  - intros b Hb Hs. pose proof (ti_bound _ _ Ht b Hb Hs) as Hle. rewrite connected_cons in Hle. lia.
Qed.

(** [MHD_ip_limit_del] finds the object of an open connection. *)
Lemma ip_limit_del_ok d open sk a : table_is d (if supported a then a :: open else open) -> sockaddr_ok a -> objects d !! sk = None ->
  ∃ d', MHD_ip_limit_del AF_INET AF_INET6 sk d a = Some d' /\ per_ip_connection_limit d' = per_ip_connection_limit d /\ table_is d' open.
Proof using All.
  intros Ht Ha Hsk. unfold MHD_ip_limit_del. pose proof (ti_limit _ _ Ht) as Hlim.
  destruct (Z.eqb_spec 0 (per_ip_connection_limit d)); [lia|].
  destruct (MHD_ip_addr_to_key AF_INET AF_INET6 a) as [k|] eqn:Ek.
  2:{ exists d. by destruct a. }
  assert (supported a = true) as Hsup by (by destruct a). rewrite Hsup in Ht.
  assert (addr_key a = Some (ip_key k)) as Eka by (unfold addr_key; by rewrite Ek).
  destruct (addr_key_ok a Ha Hsup) as (kb & Ekb & Hkb). assert (kb = ip_key k) as -> by congruence.
  destruct (tree_with_key d (a :: open) sk k Ht Hsk Hkb) as (Htree & Hpv & Hfind). set (h := <[sk := k]> (objects d)) in *.
  unfold tfind. rewrite (tfind_spec _ (pointer_ok h)) by done. cbn [mbind option_bind].
  destruct (find_key h sk (keys (per_ip_connection_count d))) as [q|] eqn:Ef.
  2:{ destruct (ti_found _ _ Ht a (ip_key k) Ha Eka) as (q & c & Eq & Ec); [rewrite connected_cons, decide_True by done; lia|].
      by destruct (Hfind q c Eq). }
  destruct Hfind as (Hqp & c & Ec & Ekc). cbn [mbind option_bind]. rewrite Ec. cbn [mbind option_bind]. rewrite <- Ekc in Eka.
  destruct (object_of d (a :: open) q c a Ht Ec Ha Eka) as [En Hn]. pose proof (ti_bound _ _ Ht a Ha Hsup).
  destruct (Z.eqb_spec 0 (count c)); [lia|]. rewrite (wrap_small 32) by lia.
  destruct (Z.eqb_spec 0 (count c - 1)) as [E1|E1].
  2:{ eexists. split; [done|]. split; [done|]. apply (count_less d open a); [done..|lia]. }
  set (h' := <[q := _]> (objects d)).
  assert (same_keys (keys (per_ip_connection_count d)) (objects d) h') as Hsame.
  { intros p _. unfold h'. destruct (decide (q = p)) as [<-|]; [by rewrite Ec, lookup_insert_eq|by rewrite lookup_insert_ne]. }
  assert (tree_ok h' (per_ip_connection_count d)) as Ht' by (eapply tree_ok_heap; [exact Hsame|apply Ht]).
  assert (q ∈ keys (per_ip_connection_count d)) as Hq by (apply (ti_objects _ _ Ht); eauto).
  assert (pointer_ok h' q) as Hqv by (destruct Ht' as [Hv _]; rewrite Forall_forall in Hv; by apply Hv).
  destruct (tdelete_spec _ _ q _ Hqv Ht') as (t' & E & Hd). unfold tdelete. rewrite E. cbn [mbind option_bind]. unfold deleted in Hd.
  destruct (find_key h' q (keys (per_ip_connection_count d))) as [p|] eqn:Ef'.
  2:{ by destruct (find_key_none _ _ _ _ Ef' Hq). }
  apply find_key_some in Ef' as [Hp Er]. assert (p = q) as -> by (by apply (same_rank_same_pointer h' (per_ip_connection_count d))).
  destruct Hd as (u & l1 & l2 & -> & Hu & El & Eu). cbn [mbind option_bind]. eexists. split; [done|]. split; [done|].
  assert (delete q h' = delete q (objects d)) as -> by (unfold h'; by rewrite delete_insert_eq).
  apply (count_last d open a q c u l1 l2); try done; [lia|].
  eapply tree_ok_heap; [|exact Hu]. intros p Hp'. symmetry. apply Hsame. rewrite El. rewrite Eu in Hp'. set_solver.
Qed.

Lemma table_closed d : table_is d [] -> objects d = ∅ /\ per_ip_connection_count d = Null.
Proof using All.
  intros Ht. assert (objects d = ∅) as E.
  { apply map_empty. intros p. destruct (objects d !! p) as [c|] eqn:Ec; [|done].
    destruct (ti_counts _ _ Ht p c Ec) as (a & _ & _ & En & Hn). cbn in En. lia. }
  split; [done|]. destruct (per_ip_connection_count d) as [|k l r] eqn:Et; [done|].
  pose proof (proj1 (ti_objects _ _ Ht k)) as Hk. rewrite Et, E in Hk. destruct Hk as [? Hk]; [|done].
  cbn [keys]. apply elem_of_app. right. left.
Qed.

Lemma table_fresh limit : 0 < limit <= UINT32_MAX -> table_is (mkIpTable limit Null ∅) [].
Proof using All.
  intros Hl. split; cbn [per_ip_connection_limit per_ip_connection_count objects].
  - done.
  - split; constructor.
  - intros p. rewrite lookup_empty. split; [intros Hp; by apply elem_of_nil in Hp|by intros [? ?]].
  - intros p c. by rewrite lookup_empty.
  - intros a k _ _ Hc. unfold connected in Hc. cbn in Hc. lia.
  - intros a _ _. cbn. lia.
Qed.
End Refinement.

(** ** Connections that come and go *)

(** A connection from an address arrives, with the outcomes of the two
    allocations; or one of the open connections is closed. *)
Inductive ip_event := Ip_add (a : sockaddr) (key_alloc node_alloc : bool) | Ip_close (i : nat).

(** An object that is not in use. *)
Definition fresh_object (d : ip_table) : positive := fresh (dom (objects d) : gset positive).

Lemma fresh_object_ok d : objects d !! fresh_object d = None.
Proof. apply (not_elem_of_dom (D := gset positive)). unfold fresh_object. apply is_fresh. Qed.

Section Run.
Variables AF_INET AF_INET6 : bytes.

(** The table and the addresses of the open connections after a sequence of
    events. *)
Fixpoint ip_run (d : ip_table) (open : list sockaddr) (evs : list ip_event) : option (ip_table * list sockaddr) :=
  match evs with
  | [] => Some (d, open)
  | Ip_add a k n :: evs' =>
      '(ok, d) ← MHD_ip_limit_add AF_INET AF_INET6 (if k then Some (fresh_object d) else None) n d a;
      ip_run d (if (ok : bool) then a :: open else open) evs'
  | Ip_close i :: evs' =>
      match open !! i with
      | None => ip_run d open evs'
      | Some a => d ← MHD_ip_limit_del AF_INET AF_INET6 (fresh_object d) d a; ip_run d (delete i open) evs'
      end
  end.
End Run.

Definition event_ok (e : ip_event) : Prop := match e with Ip_add a _ _ => sockaddr_ok a | Ip_close _ => True end.

Definition counted (open : list sockaddr) : list sockaddr := filter (λ a, supported a = true) open.

Lemma counted_cons a open : counted (a :: open) = if supported a then a :: counted open else counted open.
Proof. unfold counted. rewrite filter_cons. by destruct (supported a). Qed.

Lemma connected_counted a open : supported a = true -> connected a (counted open) = connected a open.
Proof.
  intros Ha. induction open as [|b open IH]; [done|]. rewrite counted_cons, connected_cons, <- IH. destruct (supported b) eqn:Hb.
  - by rewrite connected_cons.
  - rewrite decide_False; [done|]. intros ->. congruence.
Qed.

Lemma ip_run_ok AF_INET AF_INET6 d open evs :
  length AF_INET = 4%nat /\ length AF_INET6 = 4%nat -> Forall is_byte AF_INET /\ Forall is_byte AF_INET6 -> AF_INET ≠ AF_INET6 ->
  table_is AF_INET AF_INET6 d (counted open) -> Forall sockaddr_ok open -> Forall event_ok evs ->
  ∃ d' open', ip_run AF_INET AF_INET6 d open evs = Some (d', open') /\ per_ip_connection_limit d' = per_ip_connection_limit d
    /\ table_is AF_INET AF_INET6 d' (counted open').
Proof.
  intros H4 Hb Hd Ht Ho Hevs. revert d open Ht Ho. induction Hevs as [|e evs He Hevs IH]; intros d open Ht Ho; [by exists d, open|].
  destruct e as [a k n|i]; cbn [ip_run].
  - destruct (ip_limit_add_ok AF_INET AF_INET6 H4 Hb Hd d (counted open) (if k then Some (fresh_object d) else None) n a Ht He)
      as (ok & d1 & -> & El & Hok).
    { intros p. destruct k; [intros [= <-]; apply fresh_object_ok|done]. }
    cbn [mbind option_bind]. rewrite <- El. destruct ok; destruct Hok as [Ht1 _]; [|by apply IH].
    apply IH; [by rewrite counted_cons|by constructor].
  - destruct (open !! i) as [a|] eqn:Ea; [|by apply IH].
    assert (open ≡ₚ a :: delete i open) as Ep by (by apply delete_Permutation).
    assert (sockaddr_ok a) as Ha by (by apply (Forall_lookup_1 _ _ _ _ Ho Ea)).
    assert (counted open ≡ₚ if supported a then a :: counted (delete i open) else counted (delete i open)) as Ec.
    { rewrite <- counted_cons. unfold counted. by rewrite Ep at 1. }
    rewrite Ec in Ht. destruct (ip_limit_del_ok AF_INET AF_INET6 H4 Hb Hd d _ (fresh_object d) a Ht Ha (fresh_object_ok d)) as (d1 & -> & El & Ht1).
    cbn [mbind option_bind]. rewrite <- El. apply IH; [done|]. by apply Forall_delete.
Qed.

(** C33: The table of addresses counts the open connections.  From an empty
    table, over every sequence of arriving and closing connections and every
    failure of an allocation, the operations never read a freed object, never
    panic and leave no address with more connections than the limit; in every
    state that is reached, a connection from an address is accepted exactly
    when the address has fewer connections than the limit, and when all
    connections are closed no object is left. *)
Theorem ip_limit_counts AF_INET AF_INET6 limit evs :
  length AF_INET = 4%nat /\ length AF_INET6 = 4%nat -> Forall is_byte AF_INET /\ Forall is_byte AF_INET6 -> AF_INET ≠ AF_INET6 ->
  0 < limit <= UINT32_MAX -> Forall event_ok evs ->
  ∃ d open, ip_run AF_INET AF_INET6 (mkIpTable limit Null ∅) [] evs = Some (d, open)
    /\ (forall a, sockaddr_ok a -> supported a = true -> Z.of_nat (connected a open) <= limit)
    /\ (forall a, sockaddr_ok a -> supported a = true ->
          ∃ d', MHD_ip_limit_add AF_INET AF_INET6 (Some (fresh_object d)) true d a
            = Some (bool_decide (Z.of_nat (connected a open) < limit), d'))
    /\ (open = [] -> objects d = ∅ /\ per_ip_connection_count d = Null).
Proof.
  intros H4 Hb Hd Hl Hevs.
  destruct (ip_run_ok AF_INET AF_INET6 (mkIpTable limit Null ∅) [] evs H4 Hb Hd) as (d & open & E & El & Ht);
    [by apply table_fresh|done..|].
  exists d, open. split; [done|]. cbn in El. split; [|split].
  - intros a Ha Hs. rewrite <- (connected_counted a open Hs), <- El. by apply (ti_bound _ _ _ _ Ht).
  - intros a Ha Hs. destruct (ip_limit_add_ok AF_INET AF_INET6 H4 Hb Hd d (counted open) (Some (fresh_object d)) true a Ht Ha)
      as (ok & d1 & Ea & _ & Hok); [intros p [= <-]; apply fresh_object_ok|].
    exists d1. rewrite Ea. do 2 f_equal. rewrite (connected_counted a open Hs), El in Hok. destruct ok; symmetry.
    + apply bool_decide_eq_true_2. by apply Hok.
    + apply bool_decide_eq_false_2. destruct Hok as [_ [?|[?|?]]]; [lia|done|done].
  - intros ->. by apply (table_closed AF_INET AF_INET6 H4 Hb Hd).
Qed.

Definition demo_addresses : list ip_event :=
  [Ip_add (Sockaddr_in [10; 0; 0; 1]) true true; Ip_add (Sockaddr_in [10; 0; 0; 2]) true true;
   Ip_add (Sockaddr_in [10; 0; 0; 1]) true true; Ip_add (Sockaddr_in [10; 0; 0; 1]) true true; Ip_close 1; Ip_add Sockaddr_other true true].

Lemma ip_limit_counts_witness :
  ∃ d, ip_run [2; 0; 0; 0] [23; 0; 0; 0] (mkIpTable 2 Null ∅) [] demo_addresses
    = Some (d, [Sockaddr_other; Sockaddr_in [10; 0; 0; 1]; Sockaddr_in [10; 0; 0; 1]])
    /\ ∃ d', MHD_ip_limit_add [2; 0; 0; 0] [23; 0; 0; 0] (Some (fresh_object d)) true d (Sockaddr_in [10; 0; 0; 1]) = Some (false, d').
Proof.
  destruct (ip_limit_counts [2; 0; 0; 0] [23; 0; 0; 0] 2 demo_addresses) as (d & open & E & _ & Hadd & _).
  - done.
  - split; apply (bool_decide_unpack _); vm_compute; exact I.
  - done.
  - lia.
  - repeat constructor; unfold is_byte; lia.
  - assert (open = [Sockaddr_other; Sockaddr_in [10; 0; 0; 1]; Sockaddr_in [10; 0; 0; 1]]) as -> by (vm_compute in E; congruence).
    exists d. split; [exact E|]. apply (Hadd (Sockaddr_in [10; 0; 0; 1])); [|done]. split; [done|]. repeat constructor; unfold is_byte; lia.
Defined.
