(* ===== verification/Dll.v ===== *)
(** * Doubly linked lists (libmicrohttpd/src/microhttpd/internal.h)

    The macros that insert into and remove from a doubly linked list whose
    links are members of its elements.  The same element is on lists of two
    kinds of links; each kind is one heap of links, and the lists of the same
    kind share it. *)

From stdpp Require Import functions gmap.
From S2P Require Import Prelude.

#[local] Open Scope Z_scope.

(** ** The macros *)

Abbreviation cid := positive.

(** The members [next] and [prev] of an element, or [nextX] and [prevX]. *)
Record links := mkLinks { next : option cid; prev : option cid }.

#[export] Instance links_eq_dec : EqDecision links.
Proof. solve_decision. Defined.

Abbreviation link_heap := (gmap cid links).

(** Head and tail of a list. *)
Record ends := mkEnds { head_ : option cid; tail_ : option cid }.

#[export] Instance ends_eq_dec : EqDecision ends.
Proof. solve_decision. Defined.

(** The assertions of the macros are compiled out of a release build. *)
Definition DLL_insert (L : link_heap) (e : ends) (element : cid) : option (link_heap * ends) :=
  _ ← L !! element;
  let L := <[element := mkLinks (head_ e) None]> L in
  match tail_ e with
  | None => Some (L, mkEnds (Some element) (Some element))
  | Some _ =>
      h ← head_ e;
      l ← L !! h;
      Some (<[h := mkLinks (next l) (Some element)]> L, mkEnds (Some element) (tail_ e))
  end.

Definition DLL_remove (L : link_heap) (e : ends) (element : cid) : option (link_heap * ends) :=
  l ← L !! element;
  '(L, head) ← match prev l with
               | None => Some (L, next l)
               | Some p => pl ← L !! p; Some (<[p := mkLinks (next l) (prev pl)]> L, head_ e)
               end;
  l ← L !! element;
  '(L, tail) ← match next l with
               | None => Some (L, prev l)
               | Some n => nl ← L !! n; Some (<[n := mkLinks (next nl) (prev l)]> L, tail_ e)
               end;
  Some (<[element := mkLinks None None]> L, mkEnds head tail).

(** ** Lists in a heap *)

Definition first_or (xs : list cid) (n : option cid) : option cid := match xs with [] => n | x :: _ => Some x end.

Definition last_or (p : option cid) (xs : list cid) : option cid := match last xs with None => p | Some x => Some x end.

(** The elements [xs] are linked in this order, between [p] and [n]. *)
Fixpoint segment (L : link_heap) (p : option cid) (xs : list cid) (n : option cid) : Prop :=
  match xs with
  | [] => True
  | x :: xs' => L !! x = Some (mkLinks (first_or xs' n) p) /\ segment L (Some x) xs' n
  end.

(** A whole list. *)
Definition dll (L : link_heap) (e : ends) (xs : list cid) : Prop :=
  e = mkEnds (first_or xs None) (last_or None xs) /\ NoDup xs /\ segment L None xs None.

Lemma segment_app L p xs ys n :
  segment L p (xs ++ ys) n <-> segment L p xs (first_or ys n) /\ segment L (last_or p xs) ys n.
Proof.
  revert p. induction xs as [|x xs IH]; intros p; cbn [app segment].
  { unfold last_or. cbn. tauto. }
  rewrite IH. assert (first_or (xs ++ ys) n = first_or xs (first_or ys n)) as -> by (by destruct xs).
  assert (last_or (Some x) xs = last_or p (x :: xs)) as ->; [|tauto].
  unfold last_or. rewrite last_cons. by destruct (last xs).
Qed.

Lemma segment_frame L L' p xs n : (forall x, x ∈ xs -> L' !! x = L !! x) -> segment L p xs n -> segment L' p xs n.
Proof.
  revert p. induction xs as [|x xs IH]; intros p Hf; [done|]. cbn [segment]. intros [Hx Hs].
  split; [rewrite Hf by left; done|]. apply IH; [|done]. intros y Hy. apply Hf. by right.
Qed.

Lemma dll_frame L L' e xs : (forall x, x ∈ xs -> L' !! x = L !! x) -> dll L e xs -> dll L' e xs.
Proof. intros Hf (He & Hn & Hs). split; [done|]. split; [done|]. by apply (segment_frame L). Qed.

Lemma segment_elem L p xs n x : segment L p xs n -> x ∈ xs -> is_Some (L !! x).
Proof.
  revert p. induction xs as [|y xs IH]; intros p; [intros _ Hx; by apply elem_of_nil in Hx|]. cbn [segment].
  intros [Hy Hs] [->|Hx]%elem_of_cons; [eauto|by apply (IH (Some y))].
Qed.

Lemma dll_elem L e xs x : dll L e xs -> x ∈ xs -> is_Some (L !! x).
Proof. intros (_ & _ & Hs). by apply segment_elem with None None. Qed.

Lemma dll_nil L : dll L (mkEnds None None) [].
Proof. split; [done|]. split; [constructor|done]. Qed.

Lemma last_or_snoc p xs x : last_or p (xs ++ [x]) = Some x.
Proof. unfold last_or. by rewrite last_snoc. Qed.

Lemma last_or_app p xs y ys : last_or p (xs ++ y :: ys) = last_or p (y :: ys).
Proof. unfold last_or. by rewrite last_app_cons. Qed.

(** The heap determines the list. *)
Lemma segment_unique L p xs ys : segment L p xs None -> segment L p ys None -> first_or xs None = first_or ys None -> xs = ys.
Proof.
  revert p ys. induction xs as [|x xs IH]; intros p [|y ys]; try done. cbn [segment first_or]. intros [Hx Hxs] [Hy Hys] [= <-].
  rewrite Hx in Hy. injection Hy as Hy. f_equal. by apply (IH (Some x)).
Qed.

Lemma dll_unique L e xs ys : dll L e xs -> dll L e ys -> xs = ys.
Proof. intros (E & _ & Hx) (E' & _ & Hy). rewrite E in E'. injection E' as E' _. by apply (segment_unique L None). Qed.

Lemma last_or_reverse xs : last_or None (reverse xs) = head xs.
Proof. unfold last_or. rewrite last_reverse. by destruct (head xs). Qed.

Lemma last_or_head xs : last_or None xs = head (reverse xs).
Proof. by rewrite <- last_or_reverse, reverse_involutive. Qed.

Lemma dll_head L e xs x : dll L e xs -> head_ e = Some x -> x ∈ xs.
Proof. intros (-> & _). cbn. destruct xs; [done|]. intros [= ->]. left. Qed.

(** Insertion puts the element in front of the others. *)
Lemma dll_insert L e xs x : dll L e xs -> x ∉ xs -> is_Some (L !! x) ->
  ∃ L' e', DLL_insert L e x = Some (L', e') /\ dll L' e' (x :: xs) /\ dom L' = dom L
    /\ forall y, y ∉ x :: xs -> L' !! y = L !! y.
Proof.
  intros (-> & Hnd & Hs) Hx HL. unfold DLL_insert. cbn [head_ tail_]. 
  destruct HL as [l0 El]. rewrite El. cbn [mbind option_bind].
  assert (dom (<[x:=mkLinks (first_or xs None) None]> L) = dom L) as Hd by (apply dom_insert_lookup_L; eauto).
  destruct xs as [|h xs].
  - cbn. eexists _, _. split; [done|]. split; [|split; [done|]].
    + split; [done|]. split; [by apply NoDup_singleton|]. cbn. by rewrite lookup_insert_eq.
    + intros y Hy. rewrite lookup_insert_ne; [done|]. intros ->. apply Hy. left.
  - assert (∃ z, last_or None (h :: xs) = Some z) as [z Ez].
    { unfold last_or. destruct (last (h :: xs)) eqn:E; [eauto|]. by apply last_None in E. }
    destruct Hs as [Hh Hs]. assert (x ≠ h) by (intros ->; apply Hx; left). rewrite Ez. cbn [first_or mbind option_bind].
    rewrite lookup_insert_ne, Hh by done. cbn [mbind option_bind next]. eexists _, _. split; [done|]. split; [|split].
    + split; [cbn; f_equal; unfold last_or in *; by rewrite last_cons_cons|]. split; [by constructor|]. cbn [segment first_or].
      split; [by rewrite lookup_insert_ne, lookup_insert_eq|]. split; [by rewrite lookup_insert_eq|].
      apply (segment_frame L); [|done]. intros y Hy. apply NoDup_cons in Hnd as [Hnd _].
      rewrite !lookup_insert_ne; [done|by intros ->; apply Hx; right|by intros ->].
    + rewrite dom_insert_lookup_L; [done|]. rewrite lookup_insert_ne, Hh by done. eauto.
    + intros y Hy. rewrite !lookup_insert_ne; [done|intros ->; apply Hy; [left]|intros ->; apply Hy; right; left].
Qed.

Lemma segment_relink L L' p xs z n n' : segment L p (xs ++ [z]) n -> (forall y, y ∈ xs -> L' !! y = L !! y) ->
  L' !! z = Some (mkLinks n' (last_or p xs)) -> segment L' p (xs ++ [z]) n'.
Proof.
  rewrite !segment_app. cbn [segment first_or]. intros [Hs _] Hf Hz. split; [|done]. by apply (segment_frame L).
Qed.

(** Removal takes the element out and clears its links. *)
Lemma dll_remove L e a x b : dll L e (a ++ x :: b) ->
  ∃ L' e', DLL_remove L e x = Some (L', e') /\ dll L' e' (a ++ b) /\ dom L' = dom L /\ L' !! x = Some (mkLinks None None)
    /\ forall y, y ∉ a ++ x :: b -> L' !! y = L !! y.
Proof.
  intros (-> & Hnd & Hs). assert (Hs' := Hs). apply segment_app in Hs as [Ha [Hx Hb]]. cbn [first_or] in Ha.
  apply NoDup_app in Hnd as (Hna & Hab & Hnb). apply NoDup_cons in Hnb as [Hxb Hnb].
  assert (x ∉ a) as Hxa by (intros Hx'; apply (Hab x Hx'); left).
  assert (forall y, y ∈ a -> y ∉ b) as Hab' by (intros y Hy Hy'; apply (Hab y Hy); by right).
  unfold DLL_remove. rewrite Hx. cbn [mbind option_bind prev next].
  (* the part in front *)
  assert (∃ L1, (match last_or None a with
    | None => Some (L, first_or b None)
    | Some p => pl ← L !! p; Some (<[p := mkLinks (first_or b None) (prev pl)]> L, head_ (mkEnds (first_or (a ++ x :: b) None) (last_or None (a ++ x :: b))))
    end) = Some (L1, first_or (a ++ b) None) /\ segment L1 None a (first_or b None) /\ dom L1 = dom L
    /\ (forall y, y ∉ a -> L1 !! y = L !! y)) as (L1 & E1 & S1 & D1 & F1).
  { destruct (decide (a = [])) as [->|Hne]; [by exists L|].
    destruct (exists_last Hne) as (a' & p & ->). rewrite last_or_snoc. pose proof Ha as Ha'. apply segment_app in Ha' as [_ [Hp _]].
    rewrite Hp. cbn [mbind option_bind prev]. eexists. split; [by destruct a'|]. apply NoDup_app in Hna as (_ & Hpa & _).
    split; [|split].
    - eapply segment_relink; [exact Ha| |by rewrite lookup_insert_eq]. intros y Hy. rewrite lookup_insert_ne; [done|].
      intros ->. by apply (Hpa y Hy), list_elem_of_singleton.
    - apply dom_insert_lookup_L. eauto.
    - intros y Hy. rewrite lookup_insert_ne; [done|]. intros ->. apply Hy, elem_of_app. right. left. }
  cbn [head_ tail_] in E1 |- *. rewrite E1. cbn [mbind option_bind]. rewrite (F1 x Hxa), Hx. cbn [mbind option_bind prev next].
  assert (∃ L2, (match first_or b None with
    | None => Some (L1, last_or None a)
    | Some n => nl ← L1 !! n; Some (<[n := mkLinks (next nl) (last_or None a)]> L1, last_or None (a ++ x :: b))
    end) = Some (L2, last_or None (a ++ b)) /\ segment L2 (last_or None a) b None /\ dom L2 = dom L
    /\ (forall y, y ∉ b -> L2 !! y = L1 !! y)) as (L2 & E2 & S2 & D2 & F2).
  { destruct b as [|n b]; [exists L1; rewrite app_nil_r; done|]. destruct Hb as [Hn Hb]. cbn [first_or].
    assert (forall y, y ∈ n :: b -> L1 !! y = L !! y) as Fb by (intros y Hy; apply F1; intros Hy'; by apply (Hab' y Hy')).
    rewrite (Fb n) by left. rewrite Hn. cbn [mbind option_bind next]. eexists. split; [|split; [|split]].
    - do 2 f_equal. rewrite !last_or_app. unfold last_or. by rewrite last_cons_cons.
    - cbn [segment]. split; [by rewrite lookup_insert_eq|]. apply (segment_frame L); [|done]. intros y Hy.
      apply NoDup_cons in Hnb as [Hnb _]. rewrite lookup_insert_ne by (by intros ->). apply Fb. by right.
    - rewrite dom_insert_lookup_L; [done|]. rewrite (Fb n) by left. eauto.
    - intros y Hy. rewrite lookup_insert_ne; [done|]. intros ->. apply Hy. left. }
  rewrite E2. cbn [mbind option_bind]. eexists _, _. split; [done|].
  assert (forall y, y ∈ a ++ b -> <[x:=mkLinks None None]> L2 !! y = L2 !! y) as Fx.
  { intros y Hy. rewrite lookup_insert_ne; [done|]. intros ->. by apply elem_of_app in Hy as [?|?]. }
  split; [|split; [|split]].
  - split; [done|]. split; [by apply NoDup_app|]. apply segment_app. split.
    + apply (segment_frame L1); [|done]. intros y Hy. rewrite Fx by (apply elem_of_app; by left). apply F2. by apply Hab'.
    + apply (segment_frame L2); [|done]. intros y Hy. apply Fx. apply elem_of_app. by right.
  - rewrite dom_insert_lookup_L; [done|]. rewrite F2, F1, Hx by done. eauto.
  - by rewrite lookup_insert_eq.
  - intros y Hy. rewrite lookup_insert_ne by (intros ->; apply Hy, elem_of_app; right; left).
    rewrite F2 by (intros Hy'; apply Hy, elem_of_app; right; by right).
    by rewrite F1 by (intros Hy'; apply Hy, elem_of_app; by left).
Qed.

(** ** Several lists that share their links *)

(** The lists that share one pair of members: the links of all elements, and
    the ends of each list. *)
Record family (K : Type) := mkFamily { links_of : link_heap; ends_of : K -> ends }.
Arguments mkFamily {K}. Arguments links_of {K}. Arguments ends_of {K}.

Section Family.
Context {K : Type} `{!EqDecision K}.

Definition family_insert (f : family K) (i : K) (x : cid) : option (family K) :=
  '(L, e) ← DLL_insert (links_of f) (ends_of f i) x; Some (mkFamily L (<[i := e]> (ends_of f))).

Definition family_remove (f : family K) (i : K) (x : cid) : option (family K) :=
  '(L, e) ← DLL_remove (links_of f) (ends_of f i) x; Some (mkFamily L (<[i := e]> (ends_of f))).

(** The lists are [xs]; no element is on two of them, and an element on none
    has no links. *)
Record family_is (f : family K) (xs : K -> list cid) : Prop := {
  fi_dll : forall i, dll (links_of f) (ends_of f i) (xs i);
  fi_disjoint : forall i j x, x ∈ xs i -> x ∈ xs j -> i = j;
  fi_free : forall x l, links_of f !! x = Some l -> (forall i, x ∉ xs i) -> l = mkLinks None None
}.

Definition without (x : cid) (xs : list cid) : list cid := filter (.≠ x) xs.

Lemma elem_of_without x y xs : y ∈ without x xs <-> y ≠ x /\ y ∈ xs.
Proof. unfold without. by rewrite list_elem_of_filter. Qed.

Lemma without_notin x xs : x ∉ xs -> without x xs = xs.
Proof.
  unfold without. induction xs as [|y xs IH]; [done|]. intros [Hne Hx]%not_elem_of_cons. rewrite filter_cons_True by done. by rewrite IH.
Qed.

Lemma without_split x a b : x ∉ a -> x ∉ b -> without x (a ++ x :: b) = a ++ b.
Proof.
  intros Ha Hb. unfold without. rewrite filter_app, filter_cons_False by naive_solver. f_equal; by apply without_notin.
Qed.

Lemma without_perm x xs : NoDup xs -> x ∈ xs -> xs ≡ₚ x :: without x xs.
Proof.
  intros Hn Hx. apply list_elem_of_split in Hx as (a & b & ->). apply NoDup_app in Hn as (_ & Hab & Hb).
  apply NoDup_cons in Hb as [Hxb _]. rewrite without_split; [by rewrite Permutation_middle| |done].
  intros Hx. apply (Hab x Hx). left.
Qed.

Definition pushed (i : K) (x : cid) (xs : K -> list cid) : K -> list cid := <[i := x :: xs i]> xs.

Definition dropped (i : K) (x : cid) (xs : K -> list cid) : K -> list cid := <[i := without x (xs i)]> xs.

#[global] Arguments pushed : simpl never.
#[global] Arguments dropped : simpl never.

Lemma elem_of_pushed i j x y xs : y ∈ pushed i x xs j <-> (j = i /\ y = x) \/ y ∈ xs j.
Proof.
  unfold pushed. destruct (decide (i = j)) as [<-|Hne]; [rewrite fn_lookup_insert, elem_of_cons|rewrite fn_lookup_insert_ne by done]; naive_solver.
Qed.

Lemma elem_of_dropped i j x y xs : y ∈ dropped i x xs j <-> y ∈ xs j /\ ~ (j = i /\ y = x).
Proof.
  unfold dropped. destruct (decide (i = j)) as [<-|Hne]; [rewrite fn_lookup_insert, elem_of_without|rewrite fn_lookup_insert_ne by done]; naive_solver.
Qed.

Lemma family_insert_ok f xs i x : family_is f xs -> is_Some (links_of f !! x) -> (forall j, x ∉ xs j) ->
  ∃ f', family_insert f i x = Some f' /\ family_is f' (pushed i x xs) /\ dom (links_of f') = dom (links_of f).
Proof.
  intros Hf HL Hx. unfold family_insert.
  destruct (dll_insert _ _ _ x (fi_dll _ _ Hf i) (Hx i) HL) as (L & e & -> & Hd & HD & HF).
  cbn [mbind option_bind]. eexists. split; [done|]. split; [|done]. unfold pushed. split; cbn [links_of ends_of].
  - intros j. destruct (decide (i = j)) as [<-|Hne]; [by rewrite !fn_lookup_insert|]. rewrite !fn_lookup_insert_ne by done.
    apply (dll_frame (links_of f)); [|apply Hf]. intros y Hy. apply HF. intros [->|Hy']%elem_of_cons; [by apply (Hx j)|].
    by apply Hne, (fi_disjoint _ _ Hf i j y).
  - intros j k y. destruct (decide (i = j)) as [<-|Hj], (decide (i = k)) as [<-|Hk]; rewrite ?fn_lookup_insert, ?fn_lookup_insert_ne by done.
    + done.
    + intros [->|Hy]%elem_of_cons Hy'; [by destruct (Hx k)|]. by apply (fi_disjoint _ _ Hf i k y).
    + intros Hy [->|Hy']%elem_of_cons; [by destruct (Hx j)|]. by apply (fi_disjoint _ _ Hf j i y).
    + apply (fi_disjoint _ _ Hf).
  - intros y l El Hy. pose proof (Hy i) as Hyi. rewrite fn_lookup_insert in Hyi. rewrite HF in El by done.
    apply (fi_free _ _ Hf y l El). intros j. specialize (Hy j). destruct (decide (i = j)) as [<-|Hj].
    + intros Hy'. apply Hyi. by right.
    + by rewrite fn_lookup_insert_ne in Hy.
Qed.

Lemma family_remove_ok f xs i x : family_is f xs -> x ∈ xs i ->
  ∃ f', family_remove f i x = Some f' /\ family_is f' (dropped i x xs) /\ dom (links_of f') = dom (links_of f).
Proof.
  intros Hf Hx. unfold family_remove. pose proof (fi_dll _ _ Hf i) as Hd.
  apply list_elem_of_split in Hx as (a & b & Ex). rewrite Ex in Hd. assert (NoDup (a ++ x :: b)) as Hn by apply Hd.
  destruct (dll_remove _ _ a x b Hd) as (L & e & -> & Hd' & HD & HX & HF). rewrite <- Ex in HF.
  apply NoDup_app in Hn as (_ & Hab & Hb). apply NoDup_cons in Hb as [Hxb _].
  assert (without x (xs i) = a ++ b) as Ew by (rewrite Ex; apply without_split; [intros Hx; by apply (Hab x Hx); left|done]).
  cbn [mbind option_bind]. eexists. split; [done|]. split; [|done]. unfold dropped. split; cbn [links_of ends_of].
  - intros j. destruct (decide (i = j)) as [<-|Hne]; [by rewrite !fn_lookup_insert, Ew|]. rewrite !fn_lookup_insert_ne by done.
    apply (dll_frame (links_of f)); [|apply Hf]. intros y Hy. apply HF. intros Hy'. by apply Hne, (fi_disjoint _ _ Hf i j y).
  - intros j k y. destruct (decide (i = j)) as [<-|Hj], (decide (i = k)) as [<-|Hk]; rewrite ?fn_lookup_insert, ?fn_lookup_insert_ne by done.
    + done.
    + rewrite elem_of_without. intros [_ Hy]. by apply (fi_disjoint _ _ Hf i k y).
    + rewrite elem_of_without. intros Hy [_ Hy']. by apply (fi_disjoint _ _ Hf j i y).
    + apply (fi_disjoint _ _ Hf).
  - intros y l El Hy. destruct (decide (y = x)) as [->|Hne]; [congruence|]. pose proof (Hy i) as Hyi.
    rewrite fn_lookup_insert, elem_of_without in Hyi. rewrite HF in El by naive_solver.
    apply (fi_free _ _ Hf y l El). intros j. specialize (Hy j). destruct (decide (i = j)) as [<-|Hj]; [naive_solver|].
    by rewrite fn_lookup_insert_ne in Hy.
Qed.

(** An element that is on no list may come and go. *)
Lemma family_change f xs x l : family_is f xs -> (forall i, x ∉ xs i) -> l = None \/ l = Some (mkLinks None None) ->
  family_is (mkFamily (partial_alter (λ _, l) x (links_of f)) (ends_of f)) xs.
Proof.
  intros Hf Hx Hl. split; cbn [links_of ends_of].
  - intros i. apply (dll_frame (links_of f)); [|apply Hf]. intros y Hy. rewrite lookup_partial_alter_ne; [done|]. intros ->. by apply (Hx i).
  - apply Hf.
  - intros y l' El Hy. destruct (decide (x = y)) as [<-|Hne].
    + rewrite lookup_partial_alter_eq in El. destruct Hl; simplify_eq. done.
    + rewrite lookup_partial_alter_ne in El by done. by apply (fi_free _ _ Hf y).
Qed.

Lemma family_is_ext f xs ys : (forall i, xs i = ys i) -> family_is f xs -> family_is f ys.
Proof.
  intros E [H1 H2 H3]. split.
  - intros i. by rewrite <- E.
  - intros i j x. rewrite <- !E. apply H2.
  - intros x l El Hx. apply (H3 x l El). intros i. rewrite E. apply Hx.
Qed.

Lemma dropped_pushed i x xs j : x ∉ xs i -> dropped i x (pushed i x xs) j = xs j.
Proof.
  intros Hx. unfold dropped, pushed. destruct (decide (i = j)) as [<-|Hne]; [|by rewrite !fn_lookup_insert_ne].
  rewrite !fn_lookup_insert. unfold without. rewrite filter_cons_False by naive_solver. by apply without_notin.
Qed.
End Family.
