(* ===== verification/Daemon.v ===== *)
(** * The connections of a daemon (libmicrohttpd/src/microhttpd/daemon.c)

    The lists on which the daemon keeps its connections, with their time-outs,
    the limit on their number, and the functions that move a connection from
    one list to another: accepting, suspending, resuming, closing and cleaning
    up.  A connection is an object of a heap, and the lists go through links
    inside the objects.

    Every function takes [d], the daemon, and returns [None] where the code
    panics or its behaviour is undefined.  What happens inside the mutex is one
    step.  The build is one without epoll and TLS, the daemon is no worker of a
    pool, and the application has installed both callbacks, [notify_connection]
    and [notify_completed]. *)

From stdpp Require Import functions gmap.
From S2P Require Import Prelude TSearch IpLimit Dll.

#[local] Open Scope Z_scope.

(** ** State *)

(** The lists linked by [next] and [prev]. *)
Inductive list_id := Connections | Suspended | Cleanup.

(** The lists linked by [nextX] and [prevX]. *)
Inductive timeout_id := Normal | Manual.

#[export] Instance list_id_eq_dec : EqDecision list_id.
Proof. solve_decision. Defined.

#[export] Instance timeout_id_eq_dec : EqDecision timeout_id.
Proof. solve_decision. Defined.

(** [struct MHD_UpgradeResponseHandle] of a connection without TLS. *)
Record upgrade_handle := mkUrh { was_closed : bool; clean_ready : bool }.

(** [struct MHD_Connection]: what the lists depend on. *)
Record connection := mkConnection {
  connection_timeout : Z;
  last_activity : Z;
  suspended : bool;
  resuming : bool;
  in_cleanup : bool;
  client_aware : bool;
  addr : sockaddr;
  urh : option upgrade_handle
}.

(** The calls of [notify_connection] and [notify_completed]. *)
Inductive notification := Notify_started | Notify_closed | Notify_completed.

#[export] Instance notification_eq_dec : EqDecision notification.
Proof. solve_decision. Defined.

(** The members of [struct MHD_Daemon] that are set when it is started. *)
Record settings := mkSettings {
  thread_per_connection : bool;
  allow_suspend_resume : bool;
  allow_upgrade : bool;
  daemon_timeout : Z;
  connection_limit : Z
}.

(** [struct MHD_Daemon].  [resume_pending] is its member [resuming];
    [notified] is what the application was told, last call first. *)
Record daemon := mkDaemon {
  options : settings;
  lists : family list_id;
  timeouts : family timeout_id;
  objs : gmap cid connection;
  connections : Z;
  resume_pending : bool;
  at_limit : bool;
  ips : ip_table;
  notified : list (cid * notification)
}.

Definition set_lists (f : family list_id) (d : daemon) : daemon :=
  mkDaemon (options d) f (timeouts d) (objs d) (connections d) (resume_pending d) (at_limit d) (ips d) (notified d).
Definition set_timeouts (f : family timeout_id) (d : daemon) : daemon :=
  mkDaemon (options d) (lists d) f (objs d) (connections d) (resume_pending d) (at_limit d) (ips d) (notified d).
Definition set_obj (c : cid) (co : connection) (d : daemon) : daemon :=
  mkDaemon (options d) (lists d) (timeouts d) (<[c := co]> (objs d)) (connections d) (resume_pending d) (at_limit d) (ips d) (notified d).
Definition set_connections (n : Z) (d : daemon) : daemon :=
  mkDaemon (options d) (lists d) (timeouts d) (objs d) n (resume_pending d) (at_limit d) (ips d) (notified d).
Definition set_resume_pending (b : bool) (d : daemon) : daemon :=
  mkDaemon (options d) (lists d) (timeouts d) (objs d) (connections d) b (at_limit d) (ips d) (notified d).
Definition set_at_limit (b : bool) (d : daemon) : daemon :=
  mkDaemon (options d) (lists d) (timeouts d) (objs d) (connections d) (resume_pending d) b (ips d) (notified d).
Definition set_ips (t : ip_table) (d : daemon) : daemon :=
  mkDaemon (options d) (lists d) (timeouts d) (objs d) (connections d) (resume_pending d) (at_limit d) t (notified d).
Definition notify (c : cid) (n : notification) (d : daemon) : daemon :=
  mkDaemon (options d) (lists d) (timeouts d) (objs d) (connections d) (resume_pending d) (at_limit d) (ips d) ((c, n) :: notified d).

Definition set_last_activity (t : Z) (co : connection) : connection :=
  mkConnection (connection_timeout co) t (suspended co) (resuming co) (in_cleanup co) (client_aware co) (addr co) (urh co).
Definition set_connection_timeout (t : Z) (co : connection) : connection :=
  mkConnection t (last_activity co) (suspended co) (resuming co) (in_cleanup co) (client_aware co) (addr co) (urh co).
Definition set_suspended (b : bool) (co : connection) : connection :=
  mkConnection (connection_timeout co) (last_activity co) b (resuming co) (in_cleanup co) (client_aware co) (addr co) (urh co).
Definition set_resuming (b : bool) (co : connection) : connection :=
  mkConnection (connection_timeout co) (last_activity co) (suspended co) b (in_cleanup co) (client_aware co) (addr co) (urh co).
Definition set_in_cleanup (b : bool) (co : connection) : connection :=
  mkConnection (connection_timeout co) (last_activity co) (suspended co) (resuming co) b (client_aware co) (addr co) (urh co).
Definition set_client_aware (b : bool) (co : connection) : connection :=
  mkConnection (connection_timeout co) (last_activity co) (suspended co) (resuming co) (in_cleanup co) b (addr co) (urh co).
Definition set_urh (u : option upgrade_handle) (co : connection) : connection :=
  mkConnection (connection_timeout co) (last_activity co) (suspended co) (resuming co) (in_cleanup co) (client_aware co) (addr co) u.

(** ** Lists *)

Definition list_insert (i : list_id) (c : cid) (d : daemon) : option daemon :=
  f ← family_insert (lists d) i c; Some (set_lists f d).

Definition list_remove (i : list_id) (c : cid) (d : daemon) : option daemon :=
  f ← family_remove (lists d) i c; Some (set_lists f d).

(** The list for the time-out of a connection. *)
Definition timeout_list (s : settings) (co : connection) : timeout_id :=
  if connection_timeout co =? daemon_timeout s then Normal else Manual.

Definition timeout_insert (c : cid) (d : daemon) : option daemon :=
  co ← objs d !! c; f ← family_insert (timeouts d) (timeout_list (options d) co) c; Some (set_timeouts f d).

Definition timeout_remove (c : cid) (d : daemon) : option daemon :=
  co ← objs d !! c; f ← family_remove (timeouts d) (timeout_list (options d) co) c; Some (set_timeouts f d).

Definition modify (c : cid) (f : connection -> connection) (d : daemon) : option daemon :=
  co ← objs d !! c; Some (set_obj c (f co) d).

(** [free] of a connection, whose links go with it. *)
Definition free_connection (c : cid) (d : daemon) : daemon :=
  mkDaemon (options d) (mkFamily (delete c (links_of (lists d))) (ends_of (lists d)))
    (mkFamily (delete c (links_of (timeouts d))) (ends_of (timeouts d)))
    (delete c (objs d)) (connections d) (resume_pending d) (at_limit d) (ips d) (notified d).

(** [calloc] of a connection and the assignments to it. *)
Definition alloc_connection (c : cid) (co : connection) (d : daemon) : daemon :=
  mkDaemon (options d) (mkFamily (<[c := mkLinks None None]> (links_of (lists d))) (ends_of (lists d)))
    (mkFamily (<[c := mkLinks None None]> (links_of (timeouts d))) (ends_of (timeouts d)))
    (<[c := co]> (objs d)) (connections d) (resume_pending d) (at_limit d) (ips d) (notified d).

(** ** New connections *)

(** The outcomes of the calls that accepting a connection makes: whether the
    socket can be used at all (its number fits a set of descriptors, and its
    signals can be turned off), the allocations of the counter for its address,
    the policy of the application, the allocations for the connection, and the
    start of its thread. *)
Record accept_env := mkAcceptEnv {
  ae_socket : bool;
  ae_key : bool;
  ae_node : bool;
  ae_policy : bool;
  ae_connection : option cid;
  ae_pool : bool;
  ae_addr : bool;
  ae_thread : bool
}.

Section Addresses.
Variables AF_INET AF_INET6 : bytes.

Definition ip_add (e : accept_env) (a : sockaddr) (d : daemon) : option (bool * daemon) :=
  '(ok, t) ← MHD_ip_limit_add AF_INET AF_INET6 (if ae_key e then Some (fresh_object (ips d)) else None) (ae_node e) (ips d) a;
  Some (ok, set_ips t d).

Definition ip_del (a : sockaddr) (d : daemon) : option daemon :=
  t ← MHD_ip_limit_del AF_INET AF_INET6 (fresh_object (ips d)) (ips d) a; Some (set_ips t d).

(** [internal_add_connection] up to the mutex: the new connection, which is on
    no list yet, or none. *)
Definition add_connection_prepare (e : accept_env) (a : sockaddr) (now : Z) (d : daemon) : option (option cid * daemon) :=
  if connections d =? connection_limit (options d) then Some (None, d)
  else
    '(ok, d) ← ip_add e a d;
    if negb ok then Some (None, d)
    else if negb (ae_policy e) then d ← ip_del a d; Some (None, d)
    else
        match ae_connection e with
        | None => d ← ip_del a d; Some (None, d)
        | Some c =>
            if negb (ae_pool e) then d ← ip_del a d; Some (None, d)
            else if negb (ae_addr e) then d ← ip_del a d; Some (None, d)
            else Some (Some c, alloc_connection c (mkConnection (daemon_timeout (options d)) now false false false false a None) d)
        end.

(** The label [cleanup]. *)
Definition add_connection_cleanup (c : cid) (d : daemon) : option daemon :=
  let d := notify c Notify_closed d in
  co ← objs d !! c;
  d ← ip_del (addr co) d;
  d ← (if thread_per_connection (options d) then Some d
       else f ← family_remove (timeouts d) Normal c; Some (set_timeouts f d));
  d ← list_remove Connections c d;
  Some (free_connection c d).

(** A new connection is put on its lists. *)
Definition add_connection_lists (c : cid) (d : daemon) : option daemon :=
  d ← (if thread_per_connection (options d) then Some d
       else f ← family_insert (timeouts d) Normal c; Some (set_timeouts f d));
  list_insert Connections c d.

(** The rest of [internal_add_connection]. *)
Definition add_connection_insert (e : accept_env) (c : cid) (d : daemon) : option (bool * daemon) :=
  if connection_limit (options d) <=? connections d then d ← add_connection_cleanup c d; Some (false, d)
  else
    d ← add_connection_lists c (set_connections (u32 (connections d + 1)) d);
    let d := notify c Notify_started d in
    if thread_per_connection (options d) && negb (ae_thread e) then d ← add_connection_cleanup c d; Some (false, d)
    else Some (true, d).

Definition internal_add_connection (e : accept_env) (a : sockaddr) (now : Z) (d : daemon) : option (bool * daemon) :=
  if negb (ae_socket e) then Some (false, d)
  else
    '(c, d) ← add_connection_prepare e a now d;
    match c with
    | None => Some (false, d)
    | Some c => add_connection_insert e c d
    end.

(** ** Suspending and resuming *)

Definition internal_suspend_connection_ (c : cid) (d : daemon) : option daemon :=
  co ← objs d !! c;
  if resuming co then modify c (set_resuming false) d
  else
    d ← (if thread_per_connection (options d) then Some d else timeout_remove c d);
    d ← list_remove Connections c d;
    d ← list_insert Suspended c d;
    modify c (set_suspended true) d.

Definition MHD_suspend_connection (c : cid) (d : daemon) : option daemon :=
  if negb (allow_suspend_resume (options d)) then None
  else
    co ← objs d !! c;
    match urh co with
    | Some _ => Some d
    | None => internal_suspend_connection_ c d
    end.

Definition MHD_resume_connection (c : cid) (d : daemon) : option daemon :=
  if negb (allow_suspend_resume (options d)) then None
  else d ← modify c (set_resuming true) d; Some (set_resume_pending true d).

(** Whether [resume_suspended_connections] leaves a connection that is to be
    resumed where it is. *)
Definition upgrade_in_use (co : connection) : bool :=
  match urh co with None => false | Some u => negb (was_closed u) || negb (clean_ready u) end.

(** The body of the loop behind its [continue]; [now] is the clock. *)
Definition resume_one (now : Z) (c : cid) (d : daemon) : option daemon :=
  d ← list_remove Suspended c d;
  d ← modify c (set_suspended false) d;
  co ← objs d !! c;
  d ← (match urh co with
       | None =>
           d ← list_insert Connections c d;
           if thread_per_connection (options d) then Some d
           else
             d ← (if negb (connection_timeout co =? 0) then modify c (set_last_activity now) d else Some d);
             timeout_insert c d
       | Some _ =>
           d ← (if negb (thread_per_connection (options d)) && client_aware co
                then modify c (set_client_aware false) (notify c Notify_completed d)
                else Some d);
           list_insert Cleanup c d
       end);
  modify c (set_resuming false) d.

(** [now k] is the clock when it is read for the [k]-th connection. *)
Fixpoint resume_loop (fuel : nat) (now : nat -> Z) (pos : option cid) (ret : bool) (d : daemon) : option (bool * daemon) :=
  match fuel, pos with
  | _, None => Some (ret, d)
  | O, Some _ => None
  | S fuel, Some c =>
      l ← links_of (lists d) !! c;
      co ← objs d !! c;
      if negb (resuming co) || upgrade_in_use co then resume_loop fuel now (prev l) ret d
      else d' ← resume_one (now 0%nat) c d; resume_loop fuel (λ k, now (S k)) (prev l) true d'
  end.

Definition resume_suspended_connections (now : nat -> Z) (d : daemon) : option (bool * daemon) :=
  let pos := if resume_pending d then tail_ (ends_of (lists d) Suspended) else None in
  resume_loop (size (objs d)) now pos false (set_resume_pending false d).

(** The end of [MHD_response_execute_upgrade_]. *)
Definition execute_upgrade (c : cid) (d : daemon) : option daemon :=
  d ← modify c (set_urh (Some (mkUrh false true))) d;
  internal_suspend_connection_ c d.

(** [MHD_upgrade_action] for [MHD_UPGRADE_ACTION_CLOSE]. *)
Definition MHD_upgrade_action_close (c : cid) (d : daemon) : option (bool * daemon) :=
  co ← objs d !! c;
  u ← urh co;
  if was_closed u then Some (false, d)
  else
    d ← modify c (set_urh (Some (mkUrh true (clean_ready u)))) d;
    d ← MHD_resume_connection c d;
    Some (true, d).

(** ** Closing *)

(** [MHD_connection_close_]: the application is told that the request ended. *)
Definition announce_close (c : cid) (d : daemon) : option daemon :=
  co ← objs d !! c;
  modify c (set_client_aware false) (if client_aware co then notify c Notify_completed d else d).

Definition close_connection (c : cid) (d : daemon) : option daemon :=
  if thread_per_connection (options d) then Some d
  else
    d ← announce_close c d;
    d ← timeout_remove c d;
    d ← list_remove Connections c d;
    list_insert Cleanup c d.

Definition cleanup_connection (c : cid) (d : daemon) : option daemon :=
  co ← objs d !! c;
  if in_cleanup co then Some d
  else
    d ← modify c (set_in_cleanup true) d;
    d ← (if suspended co then d ← list_remove Suspended c d; modify c (set_suspended false) d
         else
           d ← (if thread_per_connection (options d) then Some d else timeout_remove c d);
           list_remove Connections c d);
    d ← list_insert Cleanup c d;
    modify c (set_resuming false) d.

Definition cleanup_one (c : cid) (d : daemon) : option daemon :=
  d ← list_remove Cleanup c d;
  let d := notify c Notify_closed d in
  co ← objs d !! c;
  d ← ip_del (addr co) d;
  let d := free_connection c d in
  Some (set_at_limit false (set_connections (u32 (connections d - 1)) d)).

Fixpoint cleanup_loop (fuel : nat) (d : daemon) : option daemon :=
  match fuel, tail_ (ends_of (lists d) Cleanup) with
  | _, None => Some d
  | O, Some _ => None
  | S fuel, Some c => d ← cleanup_one c d; cleanup_loop fuel d
  end.

Definition MHD_cleanup_connections (d : daemon) : option daemon := cleanup_loop (size (objs d)) d.

(** ** Time-outs *)

Definition MHD_update_last_activity_ (now : Z) (c : cid) (d : daemon) : option daemon :=
  co ← objs d !! c;
  if connection_timeout co =? 0 then Some d
  else if suspended co then Some d
  else
    d ← modify c (set_last_activity now) d;
    if thread_per_connection (options d) then Some d
    else if negb (connection_timeout co =? daemon_timeout (options d)) then Some d
    else
      f ← family_remove (timeouts d) Normal c;
      f ← family_insert f Normal c;
      Some (set_timeouts f d).

(** [MHD_set_connection_option] for [MHD_CONNECTION_OPTION_TIMEOUT]. *)
Definition MHD_set_connection_timeout (now : Z) (c : cid) (timeout : Z) (d : daemon) : option daemon :=
  co ← objs d !! c;
  d ← (if connection_timeout co =? 0 then modify c (set_last_activity now) d else Some d);
  let listed := negb (thread_per_connection (options d)) && negb (suspended co) in
  d ← (if listed then timeout_remove c d else Some d);
  d ← modify c (set_connection_timeout timeout) d;
  if listed then timeout_insert c d else Some d.

(** The test at the end of [MHD_connection_handle_idle]. *)
Definition timed_out (now : Z) (co : connection) : bool :=
  negb (suspended co) && negb (connection_timeout co =? 0) && (connection_timeout co <? now - last_activity co).

(** The loop of [MHD_get_timeout] over the connections with a time-out of
    their own; [None] as the deadline is [! have_timeout]. *)
Fixpoint manual_deadline (fuel : nat) (d : daemon) (pos : option cid) (earliest : option Z) : option (option Z) :=
  match fuel, pos with
  | _, None => Some earliest
  | O, Some _ => None
  | S fuel, Some c =>
      co ← objs d !! c;
      l ← links_of (timeouts d) !! c;
      let deadline := last_activity co + connection_timeout co in
      manual_deadline fuel d (prev l)
        (if connection_timeout co =? 0 then earliest
         else match earliest with
              | None => Some deadline
              | Some e => if connection_timeout co <? e - last_activity co then Some deadline else Some e
              end)
  end.

(** The result is [MHD_NO], or the number of milliseconds. *)
Definition MHD_get_timeout (data_already_pending : bool) (now : Z) (d : daemon) : option (option Z) :=
  if thread_per_connection (options d) then Some None
  else if data_already_pending then Some (Some 0)
  else
    earliest ← manual_deadline (size (objs d)) d (tail_ (ends_of (timeouts d) Manual)) None;
    earliest ← match tail_ (ends_of (timeouts d) Normal) with
               | None => Some earliest
               | Some c =>
                   co ← objs d !! c;
                   let deadline := last_activity co + connection_timeout co in
                   Some (if connection_timeout co =? 0 then earliest
                         else match earliest with
                              | None => Some deadline
                              | Some e => if last_activity co <? e - connection_timeout co then Some deadline else Some e
                              end)
               end;
    Some (match earliest with
          | None => None
          | Some e =>
              Some (if e <? now then 0
                    else if UINT64_MAX / 1000 <? e - now then UINT64_MAX
                    else 1000 * (e - now))
          end).

(** ** Stopping *)

(** The connections that are still suspended, from the last one: a panic when
    one was not upgraded. *)
Fixpoint stop_suspended (fuel : nat) (pos : option cid) (d : daemon) : option daemon :=
  match fuel, pos with
  | _, None => Some d
  | O, Some _ => None
  | S fuel, Some c =>
      co ← objs d !! c;
      u ← urh co;
      d ← modify c (λ co, set_resuming true (set_urh (Some (mkUrh true (clean_ready u))) co)) d;
      let d := set_resume_pending true d in
      l ← links_of (lists d) !! c;
      stop_suspended fuel (prev l) d
  end.

Fixpoint close_loop (fuel : nat) (d : daemon) : option daemon :=
  match fuel, tail_ (ends_of (lists d) Connections) with
  | _, None => Some d
  | O, Some _ => None
  | S fuel, Some c => d ← close_connection c d; close_loop fuel d
  end.

(** For a daemon without a thread per connection. *)
Definition close_all_connections (now1 now2 : nat -> Z) (d : daemon) : option daemon :=
  d ← (if allow_suspend_resume (options d)
       then snd <$> resume_suspended_connections now1 (set_resume_pending true d)
       else Some d);
  d ← (if allow_upgrade (options d) then stop_suspended (size (objs d)) (tail_ (ends_of (lists d) Suspended)) d
       else match head_ (ends_of (lists d) Suspended) with None => Some d | Some _ => None end);
  d ← (if allow_upgrade (options d)
       then snd <$> resume_suspended_connections now2 (set_resume_pending true d)
       else Some d);
  d ← close_loop (size (objs d)) d;
  MHD_cleanup_connections d.
End Addresses.
