(* ===== verification/DaemonSpec.v ===== *)
(** * The connections of a daemon, without pointers

    What the functions of [Daemon] do to the lists of connections, with a list
    of the heap as a list of Rocq, and the events that happen to a daemon as a
    step relation.  [DaemonLists] proves that the functions implement it. *)

From stdpp Require Import functions gmap.
From S2P Require Import Prelude IpLimit Dll Daemon.

#[local] Open Scope Z_scope.

(** ** States *)

(** [w_failed] is the number of connections whose thread could not be
    started, which the daemon goes on counting. *)
Record world := mkWorld {
  w_lists : list_id -> list cid;
  w_timeouts : timeout_id -> list cid;
  w_objs : gmap cid connection;
  w_pending : bool;
  w_failed : nat;
  w_notified : list (cid * notification)
}.

Definition on_lists (f : (list_id -> list cid) -> list_id -> list cid) (w : world) : world :=
  mkWorld (f (w_lists w)) (w_timeouts w) (w_objs w) (w_pending w) (w_failed w) (w_notified w).
Definition on_timeouts (f : (timeout_id -> list cid) -> timeout_id -> list cid) (w : world) : world :=
  mkWorld (w_lists w) (f (w_timeouts w)) (w_objs w) (w_pending w) (w_failed w) (w_notified w).
Definition on_objs (f : gmap cid connection -> gmap cid connection) (w : world) : world :=
  mkWorld (w_lists w) (w_timeouts w) (f (w_objs w)) (w_pending w) (w_failed w) (w_notified w).
Definition w_set_pending (b : bool) (w : world) : world :=
  mkWorld (w_lists w) (w_timeouts w) (w_objs w) b (w_failed w) (w_notified w).
Definition w_notify (c : cid) (n : notification) (w : world) : world :=
  mkWorld (w_lists w) (w_timeouts w) (w_objs w) (w_pending w) (w_failed w) ((c, n) :: w_notified w).
Definition w_fail (w : world) : world :=
  mkWorld (w_lists w) (w_timeouts w) (w_objs w) (w_pending w) (S (w_failed w)) (w_notified w).

Definition w_modify (c : cid) (f : connection -> connection) : world -> world := on_objs (alter f c).

Definition w_move (i j : list_id) (c : cid) : world -> world := on_lists (λ ls, pushed j c (dropped i c ls)).

(** ** What the functions do *)

Section Spec.
Context (s : settings).

(** The connection leaves or enters the list for its time-out. *)
Definition w_untimed (c : cid) (w : world) : world :=
  if thread_per_connection s then w
  else match w_objs w !! c with None => w | Some co => on_timeouts (dropped (timeout_list s co) c) w end.

Definition w_timed (c : cid) (w : world) : world :=
  if thread_per_connection s then w
  else match w_objs w !! c with None => w | Some co => on_timeouts (pushed (timeout_list s co) c) w end.

Definition w_with (c : cid) (f : connection -> world -> world) (w : world) : world :=
  match w_objs w !! c with None => w | Some co => f co w end.

Definition new_connection (a : sockaddr) (now : Z) : connection :=
  mkConnection (daemon_timeout s) now false false false false a None.

Definition w_accept (c : cid) (a : sockaddr) (now : Z) (w : world) : world :=
  w_notify c Notify_started (on_lists (pushed Connections c) (w_timed c (on_objs <[c := new_connection a now]> w))).

Definition w_suspend (c : cid) : world -> world := w_with c (λ co w,
  if resuming co then w_modify c (set_resuming false) w
  else w_modify c (set_suspended true) (w_move Connections Suspended c (w_untimed c w))).

Definition w_resume (c : cid) (w : world) : world := w_set_pending true (w_modify c (set_resuming true) w).

(** A suspended connection goes back, or to the end of its life when it was
    upgraded. *)
Definition w_resumed (now : Z) (c : cid) : world -> world := w_with c (λ co w,
  let awake := set_resuming false ∘ set_suspended false in
  match urh co with
  | None =>
      let f := if negb (thread_per_connection s) && negb (connection_timeout co =? 0) then set_last_activity now else id in
      w_timed c (w_modify c (awake ∘ f) (w_move Suspended Connections c w))
  | Some _ =>
      w_move Suspended Cleanup c
        (if negb (thread_per_connection s) && client_aware co
         then w_notify c Notify_completed (w_modify c (awake ∘ set_client_aware false) w) else w_modify c awake w)
  end).

(** Whether the daemon is to take a connection from the suspended ones. *)
Definition to_resume (co : connection) : bool := resuming co && negb (upgrade_in_use co).

(** From the last of the suspended connections. *)
Fixpoint w_resume_all (now : nat -> Z) (cs : list cid) (w : world) : world :=
  match cs with
  | [] => w
  | c :: cs' =>
      match w_objs w !! c with
      | Some co => if to_resume co then w_resume_all (λ k, now (S k)) cs' (w_resumed (now 0%nat) c w) else w_resume_all now cs' w
      | None => w
      end
  end.

Definition w_resume_suspended (now : nat -> Z) (w : world) : world :=
  let cs := if w_pending w then reverse (w_lists w Suspended) else [] in w_resume_all now cs (w_set_pending false w).

Definition w_upgrade (c : cid) (w : world) : world := w_suspend c (w_modify c (set_urh (Some (mkUrh false true))) w).

Definition w_upgrade_close (c : cid) : world -> world := w_with c (λ co w,
  match urh co with
  | Some u => if was_closed u then w else w_resume c (w_modify c (set_urh (Some (mkUrh true (clean_ready u)))) w)
  | None => w
  end).

Definition w_closed (c : cid) : world -> world := w_with c (λ co w,
  w_modify c (set_client_aware false) (if client_aware co then w_notify c Notify_completed w else w)).

Definition w_close (c : cid) (w : world) : world :=
  if thread_per_connection s then w else w_move Connections Cleanup c (w_untimed c (w_closed c w)).

Definition w_cleanup (c : cid) : world -> world := w_with c (λ co w,
  if in_cleanup co then w
  else
    w_modify c (set_resuming false ∘ (if suspended co then set_suspended false else id) ∘ set_in_cleanup true)
      (if suspended co then w_move Suspended Cleanup c w else w_move Connections Cleanup c (w_untimed c w))).

Definition w_free (c : cid) (w : world) : world :=
  on_objs (delete c) (on_lists (dropped Cleanup c) (w_notify c Notify_closed w)).

Definition w_cleanup_all (w : world) : world := foldl (λ w c, w_free c w) w (reverse (w_lists w Cleanup)).

Definition w_activity (now : Z) (c : cid) : world -> world := w_with c (λ co w,
  if (connection_timeout co =? 0) || suspended co then w
  else
    let w := w_modify c (set_last_activity now) w in
    if connection_timeout co =? daemon_timeout s then w_timed c (w_untimed c w) else w).

Definition w_set_timeout (now : Z) (c : cid) (timeout : Z) : world -> world := w_with c (λ co w,
  let f := if connection_timeout co =? 0 then set_last_activity now else id in
  if suspended co then w_modify c (set_connection_timeout timeout ∘ f) w
  else w_timed c (w_modify c (set_connection_timeout timeout ∘ f) (w_untimed c w))).

(** ** Events *)

Inductive event :=
  | Accept (e : accept_env) (a : sockaddr) (now : Z)
  | Suspend (c : cid)
  | Resume (c : cid)
  | Resume_suspended (now : nat -> Z)
  | Aware (c : cid)
  | Upgrade (c : cid)
  | Upgrade_close (c : cid)
  | Close (c : cid)
  | Cleanup_connection (c : cid)
  | Cleanup_connections
  | Activity (now : Z) (c : cid)
  | Set_timeout (now : Z) (c : cid) (timeout : Z).

(** The limit for one address; 0 is no limit. *)
Context (ip_limit : Z).

Definition addresses (m : gmap cid connection) : list sockaddr := (map_to_list (addr <$> m)).*2.

(** There is room for a connection from the address. *)
Definition room (w : world) (a : sockaddr) : Prop :=
  Z.of_nat (size (w_objs w) + w_failed w) < connection_limit s
  /\ (ip_limit ≠ 0 -> supported a = true -> Z.of_nat (connected a (addresses (w_objs w))) < ip_limit).

(** Every allocation succeeds and the application agrees. *)
Definition admitted (e : accept_env) : bool :=
  ae_socket e && ae_key e && ae_node e && ae_policy e && bool_decide (is_Some (ae_connection e)) && ae_pool e && ae_addr e.

Definition thread_starts (e : accept_env) : bool := negb (thread_per_connection s) || ae_thread e.

(** What may happen, and what it does. *)
Inductive steps_to (w : world) : event -> world -> Prop :=
  | Accepted e a now c : ae_connection e = Some c -> room w a -> thread_starts e = true ->
      steps_to w (Accept e a now) (w_accept c a now w)
  | Refused e a now : ~ (room w a /\ admitted e = true) -> steps_to w (Accept e a now) w
  | Thread_failed e a now c : ae_connection e = Some c -> room w a -> thread_starts e = false ->
      steps_to w (Accept e a now) (w_fail (w_notify c Notify_closed (w_notify c Notify_started w)))
  | Suspends c : steps_to w (Suspend c) (w_with c (λ co w, match urh co with None => w_suspend c w | Some _ => w end) w)
  | Resumes c : steps_to w (Resume c) (w_resume c w)
  | Resumes_suspended now : steps_to w (Resume_suspended now) (w_resume_suspended now w)
  | Becomes_aware c : steps_to w (Aware c) (w_modify c (set_client_aware true) w)
  | Upgrades c : steps_to w (Upgrade c) (w_upgrade c w)
  | Upgrade_closes c : steps_to w (Upgrade_close c) (w_upgrade_close c w)
  | Closes c : steps_to w (Close c) (w_close c w)
  | Cleans_up c : steps_to w (Cleanup_connection c) (w_cleanup c w)
  | Cleans_up_all : steps_to w Cleanup_connections (w_cleanup_all w)
  | Is_active now c : steps_to w (Activity now c) (w_activity now c w)
  | Sets_timeout now c t : steps_to w (Set_timeout now c t) (w_set_timeout now c t w).

(** When the functions may be called. *)
Definition allowed (w : world) (e : event) : Prop :=
  match e with
  | Accept e a _ => sockaddr_ok a /\ forall c, ae_connection e = Some c -> w_objs w !! c = None
  | Suspend c =>
      allow_suspend_resume s = true /\ (c ∈ w_lists w Connections \/ ∃ co, w_objs w !! c = Some co /\ resuming co = true)
  | Resume c => allow_suspend_resume s = true /\ c ∈ w_lists w Suspended
  | Resume_suspended _ | Cleanup_connections => True
  | Aware c => is_Some (w_objs w !! c)
  | Upgrade c => allow_suspend_resume s = true /\ c ∈ w_lists w Connections
  | Upgrade_close c => allow_suspend_resume s = true /\ c ∈ w_lists w Suspended /\ ∃ co u, w_objs w !! c = Some co /\ urh co = Some u
  | Close c => c ∈ w_lists w Connections
  | Cleanup_connection c =>
      ∃ co, w_objs w !! c = Some co /\ (in_cleanup co = true \/ c ∈ w_lists w Connections \/ c ∈ w_lists w Suspended)
  | Activity _ c => c ∈ w_lists w Connections \/ c ∈ w_lists w Suspended
  | Set_timeout _ c t => (c ∈ w_lists w Connections \/ c ∈ w_lists w Suspended) /\ 0 <= t <= UINT32_MAX
  end.
End Spec.

(** The function of an event. *)
Definition step (AF_INET AF_INET6 : bytes) (e : event) (d : daemon) : option daemon :=
  match e with
  | Accept e a now => snd <$> internal_add_connection AF_INET AF_INET6 e a now d
  | Suspend c => MHD_suspend_connection c d
  | Resume c => MHD_resume_connection c d
  | Resume_suspended now => snd <$> resume_suspended_connections now d
  | Aware c => modify c (set_client_aware true) d
  | Upgrade c => execute_upgrade c d
  | Upgrade_close c => snd <$> MHD_upgrade_action_close c d
  | Close c => close_connection c d
  | Cleanup_connection c => cleanup_connection c d
  | Cleanup_connections => MHD_cleanup_connections AF_INET AF_INET6 d
  | Activity now c => MHD_update_last_activity_ now c d
  | Set_timeout now c t => MHD_set_connection_timeout now c t d
  end.
