(* ===== verification/DaemonLists.v ===== *)
(** * The lists of connections are kept (libmicrohttpd/src/microhttpd/daemon.c)

    The functions of [Daemon] implement the steps of [DaemonSpec], and keep the
    invariant of the daemon: every connection is on exactly one of the three
    lists, an active one on the list for its time-out as well, the daemon
    counts its connections and the table of addresses counts their
    addresses. *)

From stdpp Require Import functions gmap.
From S2P Require Import Prelude TSearch IpLimit Dll Daemon DaemonSpec.

#[local] Open Scope Z_scope.

(** ** A daemon and its lists *)

Section Lists.
Context (s : settings).

(** The heap of the daemon represents the lists. *)
Record shape (d : daemon) (w : world) : Prop := {
  sh_lists : family_is (lists d) (w_lists w);
  sh_timeouts : family_is (timeouts d) (w_timeouts w);
  sh_links : dom (links_of (lists d)) = dom (w_objs w);
  sh_xlinks : dom (links_of (timeouts d)) = dom (w_objs w);
  sh_objs : objs d = w_objs w;
  sh_pending : resume_pending d = w_pending w;
  sh_notified : notified d = w_notified w;
  sh_options : options d = s
}.

(** The members the lists do not represent. *)
Definition rest (d : daemon) : Z * ip_table := (connections d, ips d).

(** A function succeeds, with the lists of [w] as the result. *)
Definition sim (o : option daemon) (w : world) (r : Z * ip_table) : Prop := ∃ d, o = Some d /\ shape d w /\ rest d = r.

Lemma sim_ret d w : shape d w -> sim (Some d) w (rest d).
Proof. by exists d. Qed.

Lemma sim_ret' d w r : shape d w -> rest d = r -> sim (Some d) w r.
Proof. by exists d. Qed.

Lemma sim_then o k w1 w2 r : sim o w1 r -> (forall d, shape d w1 -> rest d = r -> sim (k d) w2 r) -> sim (o ≫= k) w2 r.
Proof. intros (d & -> & Hd & Hr) Hk. by apply Hk. Qed.

Lemma sim_eq o w w' r : sim o w r -> w = w' -> sim o w' r.
Proof. by intros ? <-. Qed.

Lemma linked d w c : shape d w -> is_Some (w_objs w !! c) -> is_Some (links_of (lists d) !! c) /\ is_Some (links_of (timeouts d) !! c).
Proof. intros Hd Hc. rewrite <- !elem_of_dom, (sh_links _ _ Hd), (sh_xlinks _ _ Hd), elem_of_dom. done. Qed.

Lemma list_insert_sim d w i c : shape d w -> is_Some (w_objs w !! c) -> (forall j, c ∉ w_lists w j) ->
  sim (list_insert i c d) (on_lists (pushed i c) w) (rest d).
Proof.
  intros Hd Hc Hn. unfold list_insert.
  destruct (family_insert_ok (lists d) _ i c (sh_lists _ _ Hd) (proj1 (linked _ _ _ Hd Hc)) Hn) as (f & -> & Hf & Ef).
  cbn [mbind option_bind]. eexists. split; [done|]. split; [|done]. destruct Hd. by split; cbn; [..|congruence| | | | |].
Qed.

Lemma list_remove_sim d w i c : shape d w -> c ∈ w_lists w i -> sim (list_remove i c d) (on_lists (dropped i c) w) (rest d).
Proof.
  intros Hd Hc. unfold list_remove. destruct (family_remove_ok (lists d) _ i c (sh_lists _ _ Hd) Hc) as (f & -> & Hf & Ef).
  cbn [mbind option_bind]. eexists. split; [done|]. split; [|done]. destruct Hd. by split; cbn; [..|congruence| | | | |].
Qed.

Lemma xinsert_sim d w k c : shape d w -> is_Some (w_objs w !! c) -> (forall j, c ∉ w_timeouts w j) ->
  sim (f ← family_insert (timeouts d) k c; Some (set_timeouts f d)) (on_timeouts (pushed k c) w) (rest d).
Proof.
  intros Hd Hc Hn.
  destruct (family_insert_ok (timeouts d) _ k c (sh_timeouts _ _ Hd) (proj2 (linked _ _ _ Hd Hc)) Hn) as (f & -> & Hf & Ef).
  cbn [mbind option_bind]. eexists. split; [done|]. split; [|done]. destruct Hd. by split; cbn; [..|congruence| | | |].
Qed.

Lemma xremove_sim d w k c : shape d w -> c ∈ w_timeouts w k ->
  sim (f ← family_remove (timeouts d) k c; Some (set_timeouts f d)) (on_timeouts (dropped k c) w) (rest d).
Proof.
  intros Hd Hc. destruct (family_remove_ok (timeouts d) _ k c (sh_timeouts _ _ Hd) Hc) as (f & -> & Hf & Ef).
  cbn [mbind option_bind]. eexists. split; [done|]. split; [|done]. destruct Hd. by split; cbn; [..|congruence| | | |].
Qed.

Lemma modify_sim d w c f : shape d w -> is_Some (w_objs w !! c) -> sim (modify c f d) (w_modify c f w) (rest d).
Proof.
  intros Hd [co Hc]. unfold modify. rewrite (sh_objs _ _ Hd), Hc. cbn [mbind option_bind]. eexists. split; [done|].
  split; [|done]. destruct Hd as [H1 H2 H3 H4 H5 H6 H7 H8]. split; cbn; try done.
  - by rewrite dom_alter_L.
  - by rewrite dom_alter_L.
  - rewrite H5. apply map_eq. intros c'. destruct (decide (c = c')) as [<-|Hne].
    + by rewrite lookup_insert_eq, lookup_alter_eq, Hc.
    + by rewrite lookup_insert_ne, lookup_alter_ne.
Qed.

Lemma notify_shape d w c n : shape d w -> shape (notify c n d) (w_notify c n w).
Proof. intros []. split; cbn; congruence. Qed.

Lemma pending_shape d w b : shape d w -> shape (set_resume_pending b d) (w_set_pending b w).
Proof. intros []. by split. Qed.

(** [timeout_insert] and [timeout_remove], in a daemon without a thread per
    connection. *)
Lemma timeout_insert_sim d w c co : shape d w -> thread_per_connection s = false -> w_objs w !! c = Some co ->
  (forall j, c ∉ w_timeouts w j) -> sim (timeout_insert c d) (w_timed s c w) (rest d).
Proof.
  intros Hd Ht Hc Hn. unfold timeout_insert, w_timed. rewrite (sh_objs _ _ Hd), (sh_options _ _ Hd), Hc, Ht. cbn [mbind option_bind].
  apply xinsert_sim; eauto.
Qed.

Lemma timeout_remove_sim d w c co : shape d w -> thread_per_connection s = false -> w_objs w !! c = Some co ->
  c ∈ w_timeouts w (timeout_list s co) -> sim (timeout_remove c d) (w_untimed s c w) (rest d).
Proof.
  intros Hd Ht Hc Hn. unfold timeout_remove, w_untimed. rewrite (sh_objs _ _ Hd), (sh_options _ _ Hd), Hc, Ht. cbn [mbind option_bind].
  by apply xremove_sim.
Qed.

(** ** Where a connection is *)

Record present (w : world) (c : cid) (co : connection) : Prop := {
  pr_somewhere : ∃ i, c ∈ w_lists w i;
  pr_timeout : forall k, c ∈ w_timeouts w k <->
    thread_per_connection s = false /\ c ∈ w_lists w Connections /\ timeout_list s co = k;
  pr_suspended : suspended co = true <-> c ∈ w_lists w Suspended;
  pr_resuming : resuming co = true -> c ∈ w_lists w Suspended;
  pr_pending : to_resume co = true -> w_pending w = true;
  pr_in_cleanup : in_cleanup co = true -> c ∈ w_lists w Cleanup;
  pr_addr : sockaddr_ok (addr co)
}.

Definition absent (w : world) (c : cid) : Prop := (forall i, c ∉ w_lists w i) /\ (forall k, c ∉ w_timeouts w k).

Definition place_ok (w : world) (c : cid) : Prop :=
  match w_objs w !! c with None => absent w c | Some co => present w c co end.

Definition one_list (w : world) : Prop := forall i j c, c ∈ w_lists w i -> c ∈ w_lists w j -> i = j.

(** A step that concerns one connection leaves the others where they are. *)
Lemma place_frame w w' c0 : (forall c, place_ok w c) -> (w_pending w = true -> w_pending w' = true) ->
  (forall c, c ≠ c0 -> w_objs w' !! c = w_objs w !! c /\ (forall i, c ∈ w_lists w' i <-> c ∈ w_lists w i)
                       /\ (forall k, c ∈ w_timeouts w' k <-> c ∈ w_timeouts w k)) ->
  place_ok w' c0 -> forall c, place_ok w' c.
Proof.
  intros Hp Hpend Hf H0 c. destruct (decide (c = c0)) as [->|Hne]; [done|]. destruct (Hf c Hne) as (Eo & El & Ex).
  specialize (Hp c). unfold place_ok in *. rewrite Eo. destruct (w_objs w !! c) as [co|].
  - destruct Hp as [[i Hi] H2 H3 H4 H5 H6 H7]. split.
    + exists i. by apply El.
    + intros k. by rewrite Ex, El.
    + by rewrite El.
    + by rewrite El.
    + auto.
    + by rewrite El.
    + done.
  - destruct Hp as [H1 H2]. split; intros; rewrite ?El, ?Ex; auto.
Qed.

Lemma shape_one_list d w : shape d w -> one_list w.
Proof. intros Hd i j c. apply (fi_disjoint _ _ (sh_lists _ _ Hd)). Qed.

Lemma present_at w c co : (forall c, place_ok w c) -> w_objs w !! c = Some co -> present w c co.
Proof. intros Hp Hc. specialize (Hp c). unfold place_ok in Hp. by rewrite Hc in Hp. Qed.

Lemma on_list_present w c i : (forall c, place_ok w c) -> c ∈ w_lists w i -> ∃ co, w_objs w !! c = Some co /\ present w c co.
Proof.
  intros Hp Hi. specialize (Hp c). unfold place_ok in Hp. destruct (w_objs w !! c) as [co|]; [eauto|]. by destruct (proj1 Hp i).
Qed.

Lemma untimed_sim d w c co : shape d w -> w_objs w !! c = Some co ->
  (thread_per_connection s = false -> c ∈ w_timeouts w (timeout_list s co)) ->
  sim (if thread_per_connection (options d) then Some d else timeout_remove c d) (w_untimed s c w) (rest d).
Proof.
  intros Hd Hc Ha. rewrite (sh_options _ _ Hd). destruct (thread_per_connection s) eqn:Et.
  - unfold w_untimed. rewrite Et. by apply sim_ret.
  - eapply timeout_remove_sim; eauto.
Qed.

Lemma active_timeout w c co : present w c co -> c ∈ w_lists w Connections -> thread_per_connection s = false ->
  c ∈ w_timeouts w (timeout_list s co).
Proof. intros Hp Ha Et. by apply (pr_timeout _ _ _ Hp). Qed.

(** The two lists after a connection was taken off them. *)
Lemma untimed_none w c co k : present w c co -> w_objs w !! c = Some co -> c ∉ w_timeouts (w_untimed s c w) k.
Proof.
  intros Hp Hc. unfold w_untimed. pose proof (pr_timeout _ _ _ Hp k) as Hk. destruct (thread_per_connection s) eqn:Et; [naive_solver|].
  rewrite Hc. cbn [on_timeouts w_timeouts]. rewrite elem_of_dropped. naive_solver.
Qed.

Lemma untimed_other w c c' k : c' ≠ c -> c' ∈ w_timeouts (w_untimed s c w) k <-> c' ∈ w_timeouts w k.
Proof.
  intros Hne. unfold w_untimed. destruct (thread_per_connection s); [done|]. destruct (w_objs w !! c); [|done].
  cbn [on_timeouts w_timeouts]. rewrite elem_of_dropped. naive_solver.
Qed.

Lemma timed_at w c co k : w_objs w !! c = Some co -> (forall k, c ∉ w_timeouts w k) ->
  c ∈ w_timeouts (w_timed s c w) k <-> thread_per_connection s = false /\ timeout_list s co = k.
Proof.
  intros Hc Hn. unfold w_timed. specialize (Hn k). destruct (thread_per_connection s); [naive_solver|]. rewrite Hc.
  cbn [on_timeouts w_timeouts]. rewrite elem_of_pushed. naive_solver.
Qed.

Lemma timed_other w c c' k : c' ≠ c -> c' ∈ w_timeouts (w_timed s c w) k <-> c' ∈ w_timeouts w k.
Proof.
  intros Hne. unfold w_timed. destruct (thread_per_connection s); [done|]. destruct (w_objs w !! c); [|done].
  cbn [on_timeouts w_timeouts]. rewrite elem_of_pushed. naive_solver.
Qed.

Lemma untimed_rest w c : w_lists (w_untimed s c w) = w_lists w /\ w_objs (w_untimed s c w) = w_objs w
  /\ w_pending (w_untimed s c w) = w_pending w /\ w_failed (w_untimed s c w) = w_failed w /\ w_notified (w_untimed s c w) = w_notified w.
Proof. unfold w_untimed. destruct (thread_per_connection s); [done|]. by destruct (w_objs w !! c). Qed.

Lemma timed_rest w c : w_lists (w_timed s c w) = w_lists w /\ w_objs (w_timed s c w) = w_objs w
  /\ w_pending (w_timed s c w) = w_pending w /\ w_failed (w_timed s c w) = w_failed w /\ w_notified (w_timed s c w) = w_notified w.
Proof. unfold w_timed. destruct (thread_per_connection s); [done|]. by destruct (w_objs w !! c). Qed.

End Lists.

(** ** Automation *)

(** The lists after a step, by the lists before it. *)
Ltac at_world := cbn [w_modify w_move on_lists on_timeouts on_objs w_set_pending w_notify w_fail w_lists w_timeouts w_objs w_pending compose].

Ltac at_lists := at_world;
  repeat (match goal with
  | |- context [w_lists (w_untimed ?s ?c ?w)] => rewrite (proj1 (untimed_rest s w c))
  | |- context [w_objs (w_untimed ?s ?c ?w)] => rewrite (proj1 (proj2 (untimed_rest s w c)))
  | |- context [w_pending (w_untimed ?s ?c ?w)] => rewrite (proj1 (proj2 (proj2 (untimed_rest s w c))))
  | |- context [w_lists (w_timed ?s ?c ?w)] => rewrite (proj1 (timed_rest s w c))
  | |- context [w_objs (w_timed ?s ?c ?w)] => rewrite (proj1 (proj2 (timed_rest s w c)))
  | |- context [w_pending (w_timed ?s ?c ?w)] => rewrite (proj1 (proj2 (proj2 (timed_rest s w c))))
  end; at_world).

(** The connections a step does not concern. *)
Ltac elsewhere := let c' := fresh in let Hne := fresh in let i := fresh in
  intros c' Hne; at_lists; rewrite ?lookup_alter_ne by done; split; [done|]; split; intros i;
  rewrite ?timed_other, ?untimed_other by done; at_lists;
  rewrite ?timed_other, ?untimed_other by done; at_lists; rewrite ?elem_of_pushed, ?elem_of_dropped; naive_solver.

(** The connection it concerns. *)
Ltac here Hc := unfold place_ok; at_lists; rewrite ?lookup_alter_eq, Hc; cbn [fmap option_fmap option_map]; split; at_lists; cbn.
