(* ===== verification/DaemonSteps.v ===== *)
(** * The functions that move connections (libmicrohttpd/src/microhttpd/daemon.c)

    One function of [Daemon] after the other: it succeeds, the heap represents
    the lists of its specification, and every connection is on the lists it
    belongs to. *)

From stdpp Require Import functions gmap.
From S2P Require Import Prelude TSearch IpLimit Dll Daemon DaemonSpec DaemonLists.

#[local] Open Scope Z_scope.

Section Functions.
Context (s : settings).

#[local] Abbreviation shape := (shape s).
#[local] Abbreviation sim := (sim s).
#[local] Abbreviation present := (present s).
#[local] Abbreviation place_ok := (place_ok s).

(** ** Suspending *)

Lemma suspend_sim d w c co : shape d w -> (forall c, place_ok w c) -> w_objs w !! c = Some co ->
  c ∈ w_lists w Connections \/ resuming co = true -> sim (internal_suspend_connection_ c d) (w_suspend s c w) (rest d).
Proof.
  intros Hd Hp Hc Hw. pose proof (present_at s _ _ _ Hp Hc) as Hpr. unfold internal_suspend_connection_, w_suspend, w_with.
  rewrite (sh_objs s _ _ Hd), Hc. cbn [mbind option_bind]. destruct (resuming co) eqn:Er; [apply modify_sim; eauto|].
  destruct Hw as [Ha|?]; [|done]. destruct (untimed_rest s w c) as (El & Eo & _). pose proof (shape_one_list s _ _ Hd) as H1.
  eapply sim_then; [eapply untimed_sim; [done..|by apply active_timeout]|]. intros d1 H1d <-.
  eapply sim_then; [apply list_remove_sim; [done|by rewrite El]|]. intros d2 Hd2 <-.
  eapply sim_then; [apply list_insert_sim; [done|cbn; rewrite Eo; eauto|]|].
  { intros j. cbn. rewrite El, elem_of_dropped. intros [Hj Hn]. apply Hn. split; [|done]. by apply (H1 j Connections c). }
  intros d3 Hd3 <-. apply modify_sim; [done|]. cbn. rewrite Eo. eauto.
Qed.

Lemma suspend_places w c co : one_list w -> (forall c, place_ok w c) -> w_objs w !! c = Some co ->
  c ∈ w_lists w Connections \/ resuming co = true -> forall c', place_ok (w_suspend s c w) c'.
Proof.
  intros H1 Hp Hc Hw. pose proof (present_at s _ _ _ Hp Hc) as Hpr. unfold w_suspend, w_with. rewrite Hc.
  destruct (resuming co) eqn:Er.
  - apply (place_frame s w _ c); [done|done|..].
    + intros c' Hne. cbn. by rewrite lookup_alter_ne.
    + unfold place_ok. cbn. rewrite lookup_alter_eq, Hc. destruct Hpr. by split.
  - destruct Hw as [Ha|?]; [|done]. apply (place_frame s w _ c); [done|by at_lists|..].
    + elsewhere.
    + here Hc.
      * exists Suspended. rewrite elem_of_pushed. naive_solver.
      * intros k. rewrite elem_of_pushed, elem_of_dropped. pose proof (untimed_none s _ _ _ k Hpr Hc). naive_solver.
      * rewrite elem_of_pushed. naive_solver.
      * rewrite elem_of_pushed. naive_solver.
      * apply Hpr.
      * intros Hi. apply (pr_in_cleanup s _ _ _ Hpr) in Hi. by specialize (H1 _ _ _ Ha Hi).
      * apply Hpr.
Qed.

Lemma resume_sim d w c : shape d w -> is_Some (w_objs w !! c) -> allow_suspend_resume s = true ->
  sim (MHD_resume_connection c d) (w_resume c w) (rest d).
Proof.
  intros Hd Hc Ha. unfold MHD_resume_connection. rewrite (sh_options s _ _ Hd), Ha. cbn [negb].
  eapply sim_then; [by apply modify_sim|]. intros d1 Hd1 <-. apply sim_ret'; [by apply pending_shape|done].
Qed.

Lemma resume_places w c : (forall c, place_ok w c) -> c ∈ w_lists w Suspended -> forall c', place_ok (w_resume c w) c'.
Proof.
  intros Hp Hs. destruct (on_list_present s _ _ _ Hp Hs) as (co & Hc & Hpr). apply (place_frame s w _ c); [done|done|..].
  - unfold w_resume. elsewhere.
  - unfold w_resume. here Hc; try apply Hpr; done.
Qed.

Lemma w_modify_modify c f g w : w_modify c f (w_modify c g w) = w_modify c (f ∘ g) w.
Proof. unfold w_modify, on_objs. cbn. by rewrite alter_alter_eq. Qed.

Lemma w_modify_timed c f w : (forall co, connection_timeout (f co) = connection_timeout co) ->
  w_modify c f (w_timed s c w) = w_timed s c (w_modify c f w).
Proof.
  intros Hf. unfold w_timed. destruct (thread_per_connection s); [done|]. cbn. rewrite lookup_alter_eq.
  destruct (w_objs w !! c) as [co|]; [|done]. cbn. unfold timeout_list. by rewrite Hf.
Qed.

Lemma modify_if_sim d w c f (b : bool) : shape d w -> is_Some (w_objs w !! c) ->
  sim (if b then modify c f d else Some d) (w_modify c (if b then f else id) w) (rest d).
Proof.
  intros Hd Hc. destruct b; [by apply modify_sim|]. eapply sim_eq; [by apply sim_ret|]. destruct w as [? ? m ? ? ?].
  unfold w_modify, on_objs. cbn. f_equal. symmetry. apply map_eq. intros i.
  destruct (decide (c = i)) as [<-|?]; [rewrite lookup_alter_eq; by destruct (m !! c)|by rewrite lookup_alter_ne].
Qed.

Lemma resumed_sim d w c co now : shape d w -> (forall c, place_ok (w_set_pending true w) c) -> w_objs w !! c = Some co ->
  c ∈ w_lists w Suspended -> sim (resume_one now c d) (w_resumed s now c w) (rest d).
Proof.
  intros Hd Hp Hc Hs. pose proof (present_at s _ _ _ Hp Hc) as Hpr. pose proof (shape_one_list s _ _ Hd) as H1.
  assert (forall k, c ∉ w_timeouts w k) as Hnt.
  { intros k Hk. apply (pr_timeout s _ _ _ Hpr k) in Hk as (_ & Hk & _). cbn in Hk. by specialize (H1 _ _ _ Hs Hk). }
  assert (forall j, c ∉ dropped Suspended c (w_lists w) j) as Hnl.
  { intros j. rewrite elem_of_dropped. intros [Hj Hn]. apply Hn. split; [|done]. by apply (H1 j Suspended c). }
  unfold resume_one. eapply sim_then; [by apply list_remove_sim|]. intros d1 Hd1 <-.
  eapply sim_then; [apply modify_sim; [done|cbn; eauto]|]. intros d2 Hd2 <-.
  rewrite (sh_objs s _ _ Hd2). cbn [w_modify on_objs on_lists w_objs]. rewrite lookup_alter_eq, Hc. cbn [mbind option_bind fmap option_fmap option_map].
  unfold w_resumed, w_with. rewrite Hc. cbn [set_suspended urh client_aware connection_timeout].
  assert (is_Some (alter (set_suspended false) c (w_objs w) !! c)) as Hcs by (rewrite lookup_alter_eq, Hc; cbn; eauto).
  rewrite (sh_options s _ _ Hd2). destruct (urh co) as [u|] eqn:Eu.
  - eapply sim_then with (w1 := w_move Suspended Cleanup c (if negb (thread_per_connection s) && client_aware co
      then w_notify c Notify_completed (w_modify c (set_suspended false ∘ set_client_aware false) w) else w_modify c (set_suspended false) w)).
    + destruct (negb (thread_per_connection s) && client_aware co).
      * eapply sim_then; [apply (modify_sim s (notify c Notify_completed d2)); [by apply notify_shape|done]|]. intros d3 Hd3 <-.
        eapply sim_eq; [apply list_insert_sim; [done| |done]|]; [cbn; rewrite lookup_alter_eq; destruct Hcs as [? ->]; cbn; eauto|].
        rewrite <- w_modify_modify. unfold w_move, w_modify, on_objs, on_lists, w_notify. cbn. f_equal.
        rewrite !alter_alter_eq. done.
      * cbn [mbind option_bind]. eapply sim_eq; [by apply list_insert_sim|]. done.
    + intros d3 Hd3 <-. eapply sim_eq; [apply modify_sim; [done|]|].
      * destruct (negb (thread_per_connection s) && client_aware co); cbn; rewrite lookup_alter_eq, Hc; cbn; eauto.
      * destruct (negb (thread_per_connection s) && client_aware co); unfold w_modify, w_move, on_objs, on_lists, w_notify; cbn; by rewrite !alter_alter_eq.
  - eapply sim_then with (w1 := w_timed s c (w_modify c (set_suspended false ∘
      (if negb (thread_per_connection s) && negb (connection_timeout co =? 0) then set_last_activity now else id)) (w_move Suspended Connections c w))).
    + eapply sim_then; [by apply list_insert_sim|]. intros d3 Hd3 <-. rewrite (sh_options s _ _ Hd3).
      destruct (thread_per_connection s) eqn:Et.
      * eapply sim_eq; [by apply sim_ret|]. unfold w_timed. rewrite Et. cbn [negb andb]. done.
      * eapply sim_then; [by apply modify_if_sim|]. intros d4 Hd4 <-.
        eapply sim_eq; [eapply timeout_insert_sim; [done..|cbn; by rewrite !lookup_alter_eq, Hc|done]|].
        cbn [negb andb]. rewrite <- w_modify_modify. f_equal. unfold w_modify, w_move, on_objs, on_lists. cbn. f_equal.
        rewrite !alter_alter_eq. apply alter_ext. by destruct (connection_timeout co =? 0).
    + intros d3 Hd3 <-. eapply sim_eq; [apply modify_sim; [done|]|].
      * at_lists. rewrite lookup_alter_eq, Hc. cbn. eauto.
      * by rewrite w_modify_timed, w_modify_modify.
Qed.

(** ** Resuming *)

Lemma resumed_pending now c b w : w_resumed s now c (w_set_pending b w) = w_set_pending b (w_resumed s now c w).
Proof.
  unfold w_resumed, w_with. cbn [w_set_pending w_objs]. destruct (w_objs w !! c) as [co|] eqn:Hc; [|done]. destruct (urh co).
  - by destruct (negb (thread_per_connection s) && client_aware co).
  - unfold w_timed. destruct (thread_per_connection s); [done|]. cbn. by destruct (alter _ _ _ !! c).
Qed.

Lemma resumed_places w c co now : one_list w -> (forall c, place_ok w c) -> w_objs w !! c = Some co -> c ∈ w_lists w Suspended ->
  forall c', place_ok (w_resumed s now c w) c'.
Proof.
  intros H1 Hp Hc Hs. pose proof (present_at s _ _ _ Hp Hc) as Hpr.
  assert (c ∉ w_lists w Connections) as Hna by (intros Ha; by specialize (H1 _ _ _ Ha Hs)).
  assert (forall k, c ∉ w_timeouts w k) as Hnt by (intros k Hk; by apply (pr_timeout s _ _ _ Hpr k) in Hk as (_ & Hk & _)).
  assert (in_cleanup co = false) as Hic.
  { destruct (in_cleanup co) eqn:Hi; [|done]. apply (pr_in_cleanup s _ _ _ Hpr) in Hi. by specialize (H1 _ _ _ Hi Hs). }
  unfold w_resumed, w_with. rewrite Hc. destruct (urh co) as [u|] eqn:Eu.
  - set (w0 := if negb (thread_per_connection s) && client_aware co then _ else _ : world). assert (w_lists w0 = w_lists w /\ w_timeouts w0 = w_timeouts w /\ w_pending w0 = w_pending w) as (E1 & E2 & E3)
      by (unfold w0; by destruct (_ && _)).
    apply (place_frame s w _ c); [done|at_lists; by rewrite E3|..].
    + intros c' Hne. at_lists. rewrite E1, E2. split.
      { unfold w0. destruct (_ && _); cbn; by rewrite lookup_alter_ne. }
      split; [|done]. intros i. rewrite elem_of_pushed, elem_of_dropped. naive_solver.
    + assert (∃ co', w_objs w0 !! c = Some co' /\ suspended co' = false /\ resuming co' = false /\ in_cleanup co' = false /\ addr co' = addr co) as
        (co' & Hc' & X1 & X2 & X3 & X4) by (unfold w0; destruct (_ && _); cbn; rewrite lookup_alter_eq, Hc; cbn; eauto 10).
      unfold place_ok. at_lists. rewrite Hc'. split; at_lists; rewrite ?E1, ?E2, ?X1, ?X2, ?X3, ?X4; unfold to_resume; rewrite ?X2.
      * exists Cleanup. rewrite elem_of_pushed. naive_solver.
      * intros k. rewrite elem_of_pushed, elem_of_dropped. specialize (Hnt k). naive_solver.
      * rewrite elem_of_pushed, elem_of_dropped. naive_solver.
      * done.
      * done.
      * done.
      * apply Hpr.
  - set (f := if negb (thread_per_connection s) && negb (connection_timeout co =? 0) then set_last_activity now else id). assert (∃ co', alter ((set_resuming false ∘ set_suspended false) ∘ f) c (w_objs w) !! c = Some co' /\ suspended co' = false
        /\ resuming co' = false /\ in_cleanup co' = false /\ addr co' = addr co /\ connection_timeout co' = connection_timeout co) as (co' & Hc' & X1 & X2 & X3 & X4 & X5).
    { unfold f. rewrite lookup_alter_eq, Hc. cbn. destruct (_ && _); cbn; eauto 10. }
    apply (place_frame s w _ c); [done|by at_lists|..].
    + elsewhere.
    + unfold place_ok. at_lists. rewrite Hc'. split; rewrite ?X1, ?X2, ?X3, ?X4; unfold to_resume; rewrite ?X2.
      * exists Connections. at_lists. rewrite elem_of_pushed. naive_solver.
      * intros k. rewrite (timed_at s _ c co' k) by done. at_lists. rewrite elem_of_pushed. naive_solver.
      * at_lists. rewrite elem_of_pushed, elem_of_dropped. naive_solver.
      * done.
      * done.
      * done.
      * apply Hpr.
Qed.

Lemma resumed_frame w c co now : w_objs w !! c = Some co -> w_lists (w_resumed s now c w) Suspended = without c (w_lists w Suspended)
  /\ forall c', c' ≠ c -> w_objs (w_resumed s now c w) !! c' = w_objs w !! c'.
Proof.
  intros Hc. unfold w_resumed, w_with. rewrite Hc. destruct (urh co).
  - destruct (negb (thread_per_connection s) && client_aware co); (split; [done|]); intros c' Hne; cbn; by rewrite lookup_alter_ne.
  - at_lists. split; [done|]. intros c' Hne. by rewrite lookup_alter_ne.
Qed.

(** No connection is left behind that is to be resumed. *)
Definition none_to_resume (w : world) (cs : list cid) : Prop :=
  forall c co, c ∈ cs -> w_objs w !! c = Some co -> to_resume co = false.

Lemma resume_loop_sim cs : forall fuel now ret d w post,
  shape d w -> (forall c, place_ok (w_set_pending true w) c) -> w_lists w Suspended = reverse cs ++ post -> none_to_resume w post ->
  (length cs <= fuel)%nat ->
  ∃ ret' d', resume_loop fuel now (head cs) ret d = Some (ret', d') /\ shape d' (w_resume_all s now cs w) /\ rest d' = rest d
    /\ (forall c, place_ok (w_set_pending true (w_resume_all s now cs w)) c)
    /\ none_to_resume (w_resume_all s now cs w) (w_lists (w_resume_all s now cs w) Suspended).
Proof.
  induction cs as [|c cs IH]; intros fuel now ret d w post Hd Hp El Hpost Hf.
  { exists ret, d. cbn [head w_resume_all]. split; [by destruct fuel|]. split; [done|]. split; [done|]. split; [done|]. by rewrite El. }
  destruct fuel as [|fuel]; [cbn in Hf; lia|]. cbn [head resume_loop w_resume_all]. rewrite reverse_cons, <- (assoc_L (++)) in El. cbn [app] in El.
  pose proof (fi_dll _ _ (sh_lists s _ _ Hd) Suspended) as (_ & Hnd & Hs). rewrite El in Hnd, Hs.
  apply segment_app in Hs as [_ [Hl _]]. rewrite Hl. cbn [mbind option_bind prev].
  rewrite last_or_reverse.
  assert (c ∈ w_lists w Suspended) as Hcs by (rewrite El; apply elem_of_app; right; left).
  destruct (on_list_present s (w_set_pending true w) c Suspended Hp Hcs) as (co & Hc & _). cbn in Hc.
  rewrite (sh_objs s _ _ Hd), Hc. cbn [mbind option_bind]. unfold to_resume. rewrite <- (negb_involutive (resuming co)), <- negb_orb, negb_involutive.
  destruct (negb (resuming co) || upgrade_in_use co) eqn:Er; cbn [negb].
  - apply (IH fuel now ret d w (c :: post)); try done; [|cbn in Hf; lia]. intros c' co' [->|Hc']%elem_of_cons Ho; [|by apply (Hpost c')].
    assert (co' = co) as -> by congruence. unfold to_resume. by destruct (resuming co), (upgrade_in_use co).
  - destruct (resumed_sim d w c co (now 0%nat) Hd Hp Hc Hcs) as (d1 & -> & Hd1 & <-). cbn [mbind option_bind].
    destruct (resumed_frame w c co (now 0%nat) Hc) as [El1 Ho1]. apply NoDup_app in Hnd as (_ & Hab & Hn). apply NoDup_cons in Hn as [Hcp _].
    apply (IH fuel (λ k, now (S k)) true d1 _ post); [done| | | |cbn in Hf; lia].
    + rewrite <- resumed_pending. by apply (resumed_places _ _ co); [apply (shape_one_list s _ _ Hd)|..].
    + rewrite El1, El. apply without_split; [|done]. intros Hx. apply (Hab c Hx). left.
    + intros c' co' Hc' Ho. rewrite Ho1 in Ho by (by intros ->). by apply (Hpost c').
Qed.

Lemma list_size d w i : shape d w -> (forall c, place_ok w c) -> (length (w_lists w i) <= size (w_objs w))%nat.
Proof.
  intros Hd Hp. pose proof (fi_dll _ _ (sh_lists s _ _ Hd) i) as (_ & Hn & _).
  rewrite <- (size_list_to_set (C := gset cid) _ Hn), <- (size_dom (D := gset cid)). apply subseteq_size. intros c Hc.
  apply elem_of_list_to_set in Hc. apply elem_of_dom. destruct (on_list_present s w c i Hp Hc) as (co & -> & _). eauto.
Qed.

Lemma places_pending w : (forall c, place_ok w c) -> forall c, place_ok (w_set_pending true w) c.
Proof.
  intros Hp c. specialize (Hp c). unfold place_ok in *. cbn. destruct (w_objs w !! c); [|done]. destruct Hp. by split.
Qed.

Lemma places_settled w : (forall c, place_ok (w_set_pending true w) c) -> none_to_resume w (w_lists w Suspended) ->
  forall c, place_ok w c.
Proof.
  intros Hp Hn c. specialize (Hp c). unfold place_ok in *. cbn in Hp. destruct (w_objs w !! c) as [co|] eqn:Hc; [|done].
  destruct Hp as [H1 H2 H3 H4 H5 H6 H7]. split; try done. intros Ht. assert (c ∈ w_lists w Suspended) as Hs.
  { apply H4. unfold to_resume in Ht. by apply andb_prop in Ht as [-> _]. }
  by rewrite (Hn c co Hs Hc) in Ht.
Qed.

Lemma resume_suspended_sim d w now : shape d w -> (forall c, place_ok w c) ->
  sim (snd <$> resume_suspended_connections now d) (w_resume_suspended s now w) (rest d)
  /\ (forall c, place_ok (w_resume_suspended s now w) c)
  /\ none_to_resume (w_resume_suspended s now w) (w_lists (w_resume_suspended s now w) Suspended).
Proof.
  intros Hd Hp. unfold resume_suspended_connections, w_resume_suspended.
  pose proof (pending_shape s _ _ false Hd) as Hd0. pose proof (places_pending _ Hp) as Hp0.
  set (cs := if w_pending w then reverse (w_lists w Suspended) else []). pose proof (list_size _ _ Suspended Hd Hp) as Hlen.
  assert ((if resume_pending d then tail_ (ends_of (lists d) Suspended) else None) = head cs) as ->.
  { rewrite (sh_pending s _ _ Hd). unfold cs. destruct (w_pending w); [|done]. destruct (fi_dll _ _ (sh_lists s _ _ Hd) Suspended) as (-> & _).
    by rewrite <- last_or_head. }
  destruct (resume_loop_sim cs (size (objs d)) now false _ _ (if w_pending w then [] else w_lists w Suspended) Hd0)
    as (ret & d' & -> & Hd' & Hr & Hp' & Hn).
  - exact Hp0.
  - unfold cs. cbn. destruct (w_pending w); [by rewrite reverse_involutive, app_nil_r|done].
  - destruct (w_pending w) eqn:Ew; intros c co Hc Ho; [by apply elem_of_nil in Hc|]. cbn in Ho.
    pose proof (pr_pending s _ _ _ (present_at s _ _ _ Hp Ho)) as Hx. rewrite Ew in Hx. destruct (to_resume co); [by specialize (Hx eq_refl)|done].
  - unfold cs. rewrite (sh_objs s _ _ Hd). destruct (w_pending w); [by rewrite length_reverse|cbn; lia].
  - split; [|split; [by apply places_settled|done]]. by exists d'.
Qed.

(** ** Upgrading *)

Lemma modify_places w c co f : (forall c, place_ok w c) -> w_objs w !! c = Some co -> suspended (f co) = suspended co ->
  resuming (f co) = resuming co -> in_cleanup (f co) = in_cleanup co -> addr (f co) = addr co -> connection_timeout (f co) = connection_timeout co ->
  (to_resume (f co) = true -> to_resume co = true) -> forall c', place_ok (w_modify c f w) c'.
Proof.
  intros Hp Hc X1 X2 X3 X4 X5 X6. pose proof (present_at s _ _ _ Hp Hc) as Hpr. apply (place_frame s w _ c); [done|done|elsewhere|].
  here Hc; rewrite ?X1, ?X2, ?X3, ?X4; try apply Hpr.
  - intros k. unfold timeout_list. rewrite X5. apply Hpr.
  - intros Ht. by apply Hpr, X6.
Qed.

Lemma upgrade_sim d w c : shape d w -> (forall c, place_ok w c) -> c ∈ w_lists w Connections ->
  sim (execute_upgrade c d) (w_upgrade s c w) (rest d) /\ (forall c', place_ok (w_upgrade s c w) c').
Proof.
  intros Hd Hp Ha. destruct (on_list_present s w c _ Hp Ha) as (co & Hc & Hpr). unfold execute_upgrade, w_upgrade.
  set (f := set_urh _). assert (forall c', place_ok (w_modify c f w) c') as Hp1.
  { apply (modify_places _ _ co); try done. cbn. unfold to_resume. cbn. by rewrite andb_false_r. }
  assert (w_objs (w_modify c f w) !! c = Some (f co)) as Hc1 by (cbn; by rewrite lookup_alter_eq, Hc).
  split; [|apply (suspend_places _ _ (f co)); try done; [apply (shape_one_list s _ _ Hd)|by left]].
  eapply sim_then; [by apply modify_sim|]. intros d1 Hd1 <-. apply (suspend_sim _ _ _ (f co)); try done. by left.
Qed.

Lemma upgrade_close_sim d w c co u : shape d w -> (forall c, place_ok w c) -> c ∈ w_lists w Suspended -> allow_suspend_resume s = true ->
  w_objs w !! c = Some co -> urh co = Some u ->
  sim (snd <$> MHD_upgrade_action_close c d) (w_upgrade_close c w) (rest d) /\ (forall c', place_ok (w_upgrade_close c w) c').
Proof.
  intros Hd Hp Hs Hal Hc Hu. unfold MHD_upgrade_action_close, w_upgrade_close, w_with. rewrite (sh_objs s _ _ Hd), Hc. cbn [mbind option_bind].
  rewrite Hu. cbn [mbind option_bind]. destruct (was_closed u); [split; [by apply sim_ret|done]|]. set (f := set_urh _).
  assert (is_Some (w_objs (w_modify c f w) !! c)) as Hc1 by (cbn; rewrite lookup_alter_eq, Hc; cbn; eauto).
  split.
  - destruct (modify_sim s d w c f Hd) as (d1 & -> & Hd1 & <-); [eauto|]. cbn [mbind option_bind].
    destruct (resume_sim d1 _ c Hd1 Hc1 Hal) as (d2 & -> & Hd2 & <-). by exists d2.
  - pose proof (present_at s _ _ _ Hp Hc) as Hpr. apply (place_frame s w _ c); [done|done|unfold w_resume; elsewhere|].
    unfold w_resume. unfold place_ok. at_lists. rewrite !lookup_alter_eq, Hc. cbn [fmap option_fmap option_map]. split; at_lists; cbn; try apply Hpr; done.
Qed.

(** ** Closing *)

Lemma w_modify_untimed c f w : (forall co, connection_timeout (f co) = connection_timeout co) ->
  w_modify c f (w_untimed s c w) = w_untimed s c (w_modify c f w).
Proof.
  intros Hf. unfold w_untimed. destruct (thread_per_connection s); [done|]. cbn. rewrite lookup_alter_eq.
  destruct (w_objs w !! c) as [co|]; [|done]. cbn. unfold timeout_list. by rewrite Hf.
Qed.

(** A connection leaves the active ones, and enters the closed ones. *)
Lemma leave_sim d w c co : shape d w -> w_objs w !! c = Some co -> c ∈ w_lists w Connections ->
  (thread_per_connection s = false -> c ∈ w_timeouts w (timeout_list s co)) ->
  sim (d ← (if thread_per_connection (options d) then Some d else timeout_remove c d); list_remove Connections c d)
    (on_lists (dropped Connections c) (w_untimed s c w)) (rest d).
Proof.
  intros Hd Hc Ha Ht. destruct (untimed_rest s w c) as (El & _).
  eapply sim_then; [by eapply untimed_sim|]. intros d1 Hd1 <-. apply list_remove_sim; [done|by rewrite El].
Qed.

Lemma enter_cleanup_sim d w w0 c i : shape d w -> one_list w0 -> c ∈ w_lists w0 i -> w_lists w = dropped i c (w_lists w0) ->
  is_Some (w_objs w !! c) -> sim (list_insert Cleanup c d) (on_lists (pushed Cleanup c) w) (rest d).
Proof.
  intros Hd H1 Hi El Hc. apply list_insert_sim; [done|done|]. intros j. rewrite El, elem_of_dropped. intros [Hj Hn]. apply Hn.
  split; [|done]. by apply (H1 j i c).
Qed.

Lemma close_sim d w c : shape d w -> (forall c, place_ok w c) -> c ∈ w_lists w Connections ->
  sim (close_connection c d) (w_close s c w) (rest d) /\ (forall c', place_ok (w_close s c w) c').
Proof.
  intros Hd Hp Ha. unfold close_connection, w_close. rewrite (sh_options s _ _ Hd). destruct (thread_per_connection s) eqn:Et.
  { split; [by apply sim_ret|done]. }
  destruct (on_list_present s w c _ Hp Ha) as (co & Hc & Hpr). pose proof (shape_one_list s _ _ Hd) as H1.
  unfold w_closed, w_with. rewrite Hc. set (w1 := w_modify c _ _).
  assert (w_objs w1 !! c = Some (set_client_aware false co)) as Hc1 by (unfold w1; destruct (client_aware co); cbn; by rewrite lookup_alter_eq, Hc).
  assert (w_lists w1 = w_lists w /\ w_timeouts w1 = w_timeouts w) as [El Ex] by (unfold w1; by destruct (client_aware co)).
  assert (forall c', place_ok w1 c') as Hp1.
  { assert (forall c', place_ok (if client_aware co then w_notify c Notify_completed w else w) c') as Hp0.
    { destruct (client_aware co); [|done]. intros c'. specialize (Hp c'). unfold place_ok in *. cbn. destruct (w_objs w !! c'); [|done].
      destruct Hp. by split. }
    apply (modify_places _ _ co); try done. by destruct (client_aware co). }
  assert (present w1 c (set_client_aware false co)) as Hpr1 by (by apply present_at). split.
  - unfold announce_close. eapply sim_then with (w1 := w1).
    + rewrite (sh_objs s _ _ Hd), Hc. cbn [mbind option_bind]. unfold w1. destruct (client_aware co).
      * apply (modify_sim s (notify c Notify_completed d)); [by apply notify_shape|cbn; eauto].
      * apply modify_sim; eauto.
    + intros d1 Hd1 <-. destruct (untimed_rest s w1 c) as (El1 & Eo1 & _). assert (c ∈ w_lists w1 Connections) as Ha1 by (by rewrite El).
      eapply sim_then; [eapply timeout_remove_sim; [done..|]; by apply active_timeout|]. intros d2 Hd2 <-.
      eapply sim_then; [apply list_remove_sim; [done|by rewrite El1]|]. intros d3 Hd3 <-.
      apply (enter_cleanup_sim d3 (on_lists (dropped Connections c) (w_untimed s c w1)) w1 c Connections);
        [done|by apply (shape_one_list s d1)|done|cbn; by rewrite El1|cbn; rewrite Eo1; eauto].
  - apply (place_frame s w1 _ c); [done|by at_lists|elsewhere|]. here Hc1.
    + exists Cleanup. rewrite elem_of_pushed. naive_solver.
    + intros k. rewrite elem_of_pushed, elem_of_dropped. pose proof (untimed_none s w1 c _ k Hpr1 Hc1). naive_solver.
    + rewrite elem_of_pushed, elem_of_dropped. pose proof (pr_suspended s _ _ _ Hpr1). naive_solver.
    + rewrite elem_of_pushed, elem_of_dropped. intros Hr. apply (pr_resuming s _ _ _ Hpr1) in Hr. naive_solver.
    + apply Hpr1.
    + rewrite elem_of_pushed. naive_solver.
    + apply Hpr1.
Qed.

Lemma cleanup_sim d w c co : shape d w -> (forall c, place_ok w c) -> w_objs w !! c = Some co ->
  in_cleanup co = true \/ c ∈ w_lists w Connections \/ c ∈ w_lists w Suspended -> sim (cleanup_connection c d) (w_cleanup s c w) (rest d).
Proof.
  intros Hd Hp Hc Hw. pose proof (present_at s _ _ _ Hp Hc) as Hpr. pose proof (shape_one_list s _ _ Hd) as H1.
  unfold cleanup_connection, w_cleanup, w_with. rewrite (sh_objs s _ _ Hd), Hc. cbn [mbind option_bind].
  destruct (in_cleanup co); [by apply sim_ret|]. destruct Hw as [?|Hw]; [done|].
  assert (w_objs (w_modify c (set_in_cleanup true) w) !! c = Some (set_in_cleanup true co)) as Hc1 by (cbn; by rewrite lookup_alter_eq, Hc).
  eapply sim_then; [apply modify_sim; eauto|]. intros d1 Hd1 <-. destruct (suspended co) eqn:Es.
  - assert (c ∈ w_lists w Suspended) as Hs by (by apply (pr_suspended s _ _ _ Hpr)).
    eapply sim_then; [eapply sim_then; [by apply list_remove_sim|]; intros d2 Hd2 <-; apply modify_sim; [done|cbn; rewrite lookup_alter_eq, Hc; cbn; eauto]|].
    intros d2 Hd2 <-. assert (is_Some (alter (set_suspended false) c (alter (set_in_cleanup true) c (w_objs w)) !! c)) as Hc2
      by (rewrite !lookup_alter_eq, Hc; cbn; eauto).
    eapply sim_then; [by eapply (enter_cleanup_sim _ _ w c Suspended)|]. intros d3 Hd3 <-.
    eapply sim_eq; [apply modify_sim; [done|exact Hc2]|]. unfold w_modify, w_move, on_objs, on_lists. cbn. by rewrite !alter_alter_eq.
  - assert (c ∈ w_lists w Connections) as Ha by (destruct Hw as [?|Hs]; [done|]; apply (pr_suspended s _ _ _ Hpr) in Hs; congruence).
    eapply sim_then; [apply (leave_sim d1 _ c _ Hd1 Hc1 Ha); exact (active_timeout s w c co Hpr Ha)|]. intros d2 Hd2 <-.
    eapply sim_then; [eapply (enter_cleanup_sim _ _ w c Connections); [done..|by at_lists|at_lists; rewrite lookup_alter_eq, Hc; cbn; eauto]|].
    intros d3 Hd3 <-. eapply sim_eq; [apply modify_sim; [done|at_lists; rewrite lookup_alter_eq, Hc; cbn; eauto]|].
    rewrite <- w_modify_untimed by done. unfold w_modify, w_move, on_objs, on_lists. cbn. by rewrite alter_alter_eq.
Qed.

Lemma cleanup_places w c co : one_list w -> (forall c, place_ok w c) -> w_objs w !! c = Some co ->
  in_cleanup co = true \/ c ∈ w_lists w Connections \/ c ∈ w_lists w Suspended -> forall c', place_ok (w_cleanup s c w) c'.
Proof.
  intros H1 Hp Hc Hw. pose proof (present_at s _ _ _ Hp Hc) as Hpr. unfold w_cleanup, w_with. rewrite Hc.
  destruct (in_cleanup co); [done|]. destruct Hw as [?|Hw]; [done|]. destruct (suspended co) eqn:Es.
  - assert (c ∈ w_lists w Suspended) as Hs by (by apply (pr_suspended s _ _ _ Hpr)).
    assert (c ∉ w_lists w Connections) as Hna by (intros Ha; by specialize (H1 _ _ _ Ha Hs)).
    apply (place_frame s w _ c); [done|done|elsewhere|]. here Hc; try done.
    + exists Cleanup. rewrite elem_of_pushed. naive_solver.
    + intros k. rewrite elem_of_pushed, elem_of_dropped. pose proof (pr_timeout s _ _ _ Hpr k). naive_solver.
    + rewrite elem_of_pushed, elem_of_dropped. naive_solver.
    + rewrite elem_of_pushed. naive_solver.
    + apply Hpr.
  - assert (c ∉ w_lists w Suspended) as Hns by (intros Hs; apply (pr_suspended s _ _ _ Hpr) in Hs; congruence).
    destruct Hw as [Ha|]; [|done]. apply (place_frame s w _ c); [done|by at_lists|elsewhere|]. here Hc; try done.
    + exists Cleanup. rewrite elem_of_pushed. naive_solver.
    + intros k. rewrite elem_of_pushed, elem_of_dropped. pose proof (untimed_none s w c _ k Hpr Hc). naive_solver.
    + rewrite elem_of_pushed, elem_of_dropped, Es. naive_solver.
    + rewrite elem_of_pushed. naive_solver.
    + apply Hpr.
Qed.

(** ** Time-outs *)

(** A connection goes to the head of the list for its time-out. *)
Lemma refreshed_sim d w c co : shape d w -> present w c co -> w_objs w !! c = Some co -> c ∈ w_lists w Connections ->
  thread_per_connection s = false -> timeout_list s co = Normal ->
  sim (f ← family_remove (timeouts d) Normal c; f ← family_insert f Normal c; Some (set_timeouts f d))
    (w_timed s c (w_untimed s c w)) (rest d).
Proof.
  intros Hd Hpr Hc Ha Et El. pose proof (active_timeout s w c co Hpr Ha Et) as Hx. rewrite El in Hx.
  destruct (xremove_sim s d w Normal c Hd Hx) as (d1 & E1 & Hd1 & Hr1). destruct (family_remove _ _ _) as [f|]; [|done].
  injection E1 as <-. cbn [mbind option_bind]. pose proof (untimed_none s w c co) as Hn.
  unfold w_untimed in Hn |- *. rewrite Et, Hc, El in Hn |- *. unfold w_timed. rewrite Et. cbn [on_timeouts w_objs]. rewrite Hc, El.
  destruct (xinsert_sim s _ _ Normal c Hd1) as (d2 & E2 & Hd2 & Hr2); [cbn; eauto|by intros j; apply Hn|]. exists d2. done.
Qed.

Lemma activity_sim d w now c : shape d w -> (forall c, place_ok w c) -> c ∈ w_lists w Connections \/ c ∈ w_lists w Suspended ->
  sim (MHD_update_last_activity_ now c d) (w_activity s now c w) (rest d) /\ (forall c', place_ok (w_activity s now c w) c').
Proof.
  intros Hd Hp Hw. assert (∃ co, w_objs w !! c = Some co /\ present w c co) as (co & Hc & Hpr)
    by (destruct Hw as [Hw|Hw]; by eapply on_list_present).
  unfold MHD_update_last_activity_, w_activity, w_with. rewrite (sh_objs s _ _ Hd), Hc. cbn [mbind option_bind].
  destruct (connection_timeout co =? 0); cbn [orb]; [split; [by apply sim_ret|done]|].
  destruct (suspended co) eqn:Es; [split; [by apply sim_ret|done]|].
  assert (c ∈ w_lists w Connections) as Ha by (destruct Hw as [?|Hs]; [done|]; apply (pr_suspended s _ _ _ Hpr) in Hs; congruence).
  set (f := set_last_activity now). set (w1 := w_modify c f w).
  assert (forall c', place_ok w1 c') as Hp1 by (by apply (modify_places _ _ co)).
  assert (w_objs w1 !! c = Some (f co)) as Hc1 by (cbn; by rewrite lookup_alter_eq, Hc).
  assert (present w1 c (f co)) as Hpr1 by (by apply present_at). split.
  - eapply sim_then; [apply modify_sim; eauto|]. intros d1 Hd1 <-. rewrite (sh_options s _ _ Hd1). destruct (thread_per_connection s) eqn:Et.
    + eapply sim_eq; [by apply sim_ret|]. unfold w_timed, w_untimed. rewrite Et. by destruct (_ =? _).
    + destruct (connection_timeout co =? daemon_timeout s) eqn:El; cbn [negb]; [|by apply sim_ret].
      eapply refreshed_sim; try done. unfold timeout_list. cbn. by rewrite El.
  - destruct (connection_timeout co =? daemon_timeout s); [|done]. apply (place_frame s w1 _ c); [done|by at_lists| |].
    + intros c' Hne. at_lists. split; [done|]. split; [done|]. intros k. by rewrite timed_other, untimed_other.
    + unfold place_ok. at_lists. rewrite Hc1. split; at_lists; try apply Hpr1.
      intros k. rewrite (timed_at s _ c (f co)); [|at_lists; exact Hc1|by intros k'; apply (untimed_none s w1 c (f co))].
      pose proof (pr_timeout s _ _ _ Hpr1 k). cbn in *. naive_solver.
Qed.

Lemma set_timeout_sim d w now c t : shape d w -> (forall c, place_ok w c) -> c ∈ w_lists w Connections \/ c ∈ w_lists w Suspended ->
  sim (MHD_set_connection_timeout now c t d) (w_set_timeout s now c t w) (rest d) /\ (forall c', place_ok (w_set_timeout s now c t w) c').
Proof.
  intros Hd Hp Hw. assert (∃ co, w_objs w !! c = Some co /\ present w c co) as (co & Hc & Hpr)
    by (destruct Hw as [Hw|Hw]; by eapply on_list_present).
  unfold MHD_set_connection_timeout, w_set_timeout, w_with. rewrite (sh_objs s _ _ Hd), Hc. cbn [mbind option_bind].
  set (f := if connection_timeout co =? 0 then set_last_activity now else id).
  assert (connection_timeout (f co) = connection_timeout co /\ suspended (f co) = suspended co /\ resuming (f co) = resuming co
    /\ in_cleanup (f co) = in_cleanup co /\ addr (f co) = addr co /\ urh (f co) = urh co) as (X1 & X2 & X3 & X4 & X5 & X6)
    by (unfold f; by destruct (connection_timeout co =? 0)).
  assert (w_objs (w_modify c f w) !! c = Some (f co)) as Hc1 by (cbn; by rewrite lookup_alter_eq, Hc).
  assert (connection_timeout co = connection_timeout co -> to_resume (set_connection_timeout t (f co)) = to_resume co) as X7
    by (intros _; unfold to_resume, upgrade_in_use; cbn; by rewrite X3, X6).
  destruct (suspended co) eqn:Es.
  - assert (c ∈ w_lists w Suspended) as Hs by (by apply (pr_suspended s _ _ _ Hpr)). split.
    + eapply sim_then; [apply modify_if_sim; eauto|]. intros d1 Hd1 <-. cbn [negb]. rewrite andb_false_r. cbn [mbind option_bind].
      eapply sim_then; [apply modify_sim; [done|fold f; rewrite Hc1; eauto]|]. intros d2 Hd2 <-. eapply sim_ret'; [|done].
      by rewrite <- w_modify_modify.
    + apply (place_frame s w _ c); [done|done|elsewhere|]. here Hc; rewrite ?X2, ?X3, ?X4, ?X5; try apply Hpr; try done.
      * intros k. pose proof (pr_timeout s _ _ _ Hpr k). split; [|intros (_ & Ha & _)].
        -- intros Hk. assert (c ∈ w_lists w Connections) as Ha by naive_solver. by apply (fi_disjoint _ _ (sh_lists s _ _ Hd) _ _ _ Ha) in Hs.
        -- by apply (fi_disjoint _ _ (sh_lists s _ _ Hd) _ _ _ Ha) in Hs.
      * rewrite X7 by done. apply Hpr.
  - assert (c ∈ w_lists w Connections) as Ha by (destruct Hw as [?|Hs]; [done|]; apply (pr_suspended s _ _ _ Hpr) in Hs; congruence).
    assert (forall k, c ∉ w_timeouts (w_untimed s c w) k) as Hn by (intros k; by apply (untimed_none s w c co)). split.
    + eapply sim_then; [apply modify_if_sim; eauto|]. intros d1 Hd1 <-. cbn [negb]. rewrite andb_true_r, (sh_options s _ _ Hd1).
      fold f in Hd1 |- *. destruct (thread_per_connection s) eqn:Et; cbn [negb].
      * eapply sim_then; [by apply sim_ret|]. intros d2 Hd2 <-. eapply sim_then; [apply modify_sim; [done|rewrite Hc1; eauto]|].
        intros d3 Hd3 <-. eapply sim_eq; [by apply sim_ret|]. unfold w_timed, w_untimed. rewrite Et. by rewrite <- w_modify_modify.
      * eapply sim_then; [apply (timeout_remove_sim s d1 (w_modify c f w) c (f co) Hd1 Et Hc1)|].
        { pose proof (active_timeout s w c co Hpr Ha Et) as Hx. unfold timeout_list in *. by rewrite X1. }
        intros d2 Hd2 <-. rewrite <- w_modify_untimed in Hd2 by (unfold f; by destruct (connection_timeout co =? 0)).
        eapply sim_then; [apply modify_sim; [done|at_lists; rewrite lookup_alter_eq, Hc; cbn; eauto]|]. intros d3 Hd3 <-.
        rewrite w_modify_modify in Hd3. eapply timeout_insert_sim; [done..|at_lists; by rewrite lookup_alter_eq, Hc|done].
    + apply (place_frame s w _ c); [done|by at_lists|elsewhere|].
      unfold place_ok. at_lists. rewrite lookup_alter_eq, Hc. cbn [fmap option_fmap option_map]. split; at_lists; cbn; rewrite ?X2, ?X3, ?X4, ?X5; try apply Hpr.
      * intros k. rewrite (timed_at s _ c (set_connection_timeout t (f co))); [|at_lists; by rewrite lookup_alter_eq, Hc|done]. naive_solver.
      * rewrite <- Es. apply Hpr.
      * rewrite X7 by done. apply Hpr.
Qed.
End Functions.
