(* ===== verification/DaemonRun.v ===== *)
(** * Everything a daemon does with its connections

    The counters of the daemon, the functions that change them, and the
    theorems about all functions together. *)

From stdpp Require Import functions gmap.
From S2P Require Import Prelude TSearch IpLimit Dll Daemon DaemonSpec DaemonLists DaemonSteps.

#[local] Open Scope Z_scope.

(** ** Addresses *)

Lemma addresses_insert c co m : m !! c = None -> addresses (<[c := co]> m) ≡ₚ addr co :: addresses m.
Proof.
  intros Hc. unfold addresses. rewrite fmap_insert, map_to_list_insert by (by rewrite lookup_fmap, Hc). done.
Qed.

Lemma addresses_delete c co m : m !! c = Some co -> addresses m ≡ₚ addr co :: addresses (delete c m).
Proof. intros Hc. rewrite <- addresses_insert by apply lookup_delete_eq. by rewrite insert_delete_id. Qed.

(** ** Announcements *)

(** What the application was told about a connection, last call first: whether
    it is open; [None] when a call is out of order. *)
Fixpoint announced (c : cid) (log : list (cid * notification)) : option bool :=
  match log with
  | [] => Some false
  | (c', n) :: log' =>
      open ← announced c log';
      if decide (c' = c) then
        match n, open with
        | Notify_started, false => Some true
        | Notify_completed, true => Some true
        | Notify_closed, true => Some false
        | _, _ => None
        end
      else Some open
  end.

(** Exactly the connections that exist were announced and not yet closed. *)
Definition log_ok (w : world) : Prop := forall c, announced c (w_notified w) = Some (bool_decide (is_Some (w_objs w !! c))).

(** Steps that accept and free no connection. *)
Record same_counts (w w' : world) : Prop := {
  sc_addr : addr <$> w_objs w' = addr <$> w_objs w;
  sc_failed : w_failed w' = w_failed w;
  sc_log : log_ok w -> log_ok w'
}.

Lemma same_counts_refl w : same_counts w w.
Proof. done. Qed.

Lemma same_counts_trans w1 w2 w3 : same_counts w1 w2 -> same_counts w2 w3 -> same_counts w1 w3.
Proof. intros [E1 F1 L1] [E2 F2 L2]. split; [congruence|congruence|auto]. Qed.

Lemma same_counts_size w w' : same_counts w w' -> size (w_objs w') = size (w_objs w) /\ addresses (w_objs w') = addresses (w_objs w).
Proof.
  intros [E _ _]. split; [|unfold addresses; by rewrite E]. rewrite <- (map_size_fmap addr (w_objs w')), E. apply map_size_fmap.
Qed.

Lemma same_counts_modify c f w : (forall co, addr (f co) = addr co) -> same_counts w (w_modify c f w).
Proof.
  intros Hf. split; [|done|].
  - apply map_eq. intros i. cbn. rewrite !lookup_fmap. destruct (decide (c = i)) as [<-|Hne].
    + rewrite lookup_alter_eq. destruct (w_objs w !! c); [|done]. cbn. by rewrite Hf.
    + by rewrite lookup_alter_ne.
  - intros Hl i. cbn. rewrite (Hl i). f_equal. apply bool_decide_ext. destruct (decide (c = i)) as [<-|Hne].
    + by rewrite lookup_alter_eq, fmap_is_Some.
    + by rewrite lookup_alter_ne.
Qed.

Lemma same_counts_notify c w : is_Some (w_objs w !! c) -> same_counts w (w_notify c Notify_completed w).
Proof.
  intros Hc. split; [done|done|]. intros Hl i. cbn. rewrite (Hl i). cbn [mbind option_bind]. destruct (decide (c = i)) as [<-|]; [|done].
  by rewrite bool_decide_eq_true_2.
Qed.

(** Steps that leave the connections and what was announced as they are. *)
Lemma same_counts_lists w w' : w_objs w' = w_objs w -> w_failed w' = w_failed w -> w_notified w' = w_notified w -> same_counts w w'.
Proof. intros E F N. split; [by rewrite E|done|]. intros Hl i. by rewrite N, E. Qed.

Section Counts.
Context (s : settings).

Lemma same_counts_untimed c w : same_counts w (w_untimed s c w).
Proof. destruct (untimed_rest s w c) as (_ & E & _ & F & N). by apply same_counts_lists. Qed.

Lemma same_counts_timed c w : same_counts w (w_timed s c w).
Proof. destruct (timed_rest s w c) as (_ & E & _ & F & N). by apply same_counts_lists. Qed.

#[local] Ltac counts := repeat match goal with
  | |- same_counts ?w ?w => apply same_counts_refl
  | |- same_counts _ (w_timed _ _ _) => eapply same_counts_trans; [|apply same_counts_timed]
  | |- same_counts _ (w_untimed _ _ _) => eapply same_counts_trans; [|apply same_counts_untimed]
  | |- same_counts _ (w_modify _ _ _) => eapply same_counts_trans; [|apply same_counts_modify; intros ?; cbn]
  | |- same_counts _ (w_move _ _ _ ?w) => apply (same_counts_trans _ w); [|by apply same_counts_lists]
  | |- same_counts _ (w_notify _ _ _) => eapply same_counts_trans; [|apply same_counts_notify; cbn; rewrite ?lookup_alter_eq, ?fmap_is_Some; by eauto]
  | |- same_counts _ (w_set_pending _ ?w) => apply (same_counts_trans _ w); [|by apply same_counts_lists]
  | |- context [match ?x with _ => _ end] => destruct x eqn:?
  | |- _ => reflexivity
  end.

Lemma same_counts_suspend c w : same_counts w (w_suspend s c w).
Proof. unfold w_suspend, w_with. counts. Qed.

Lemma same_counts_resume c w : same_counts w (w_resume c w).
Proof. unfold w_resume. counts. Qed.

Lemma same_counts_resumed now c w : same_counts w (w_resumed s now c w).
Proof. unfold w_resumed, w_with. counts. Qed.

Lemma same_counts_resume_all now cs w : same_counts w (w_resume_all s now cs w).
Proof.
  revert now w. induction cs as [|c cs IH]; intros now w; cbn [w_resume_all]; [counts|]. destruct (w_objs w !! c) as [co|]; [|counts].
  destruct (to_resume co); [|done]. eapply same_counts_trans; [|apply IH]. apply same_counts_resumed.
Qed.

Lemma same_counts_resume_suspended now w : same_counts w (w_resume_suspended s now w).
Proof. unfold w_resume_suspended. by eapply same_counts_trans; [|apply same_counts_resume_all]; apply same_counts_lists. Qed.

Lemma same_counts_upgrade c w : same_counts w (w_upgrade s c w).
Proof. unfold w_upgrade. eapply same_counts_trans; [|apply same_counts_suspend]. counts. Qed.

Lemma same_counts_upgrade_close c w : same_counts w (w_upgrade_close c w).
Proof. unfold w_upgrade_close, w_resume, w_with. counts. Qed.

Lemma same_counts_close c w : same_counts w (w_close s c w).
Proof. unfold w_close, w_closed, w_with. counts. Qed.

Lemma same_counts_cleanup c w : same_counts w (w_cleanup s c w).
Proof. unfold w_cleanup, w_with. counts. Qed.

Lemma same_counts_activity now c w : same_counts w (w_activity s now c w).
Proof. unfold w_activity, w_with. counts. Qed.

Lemma same_counts_set_timeout now c t w : same_counts w (w_set_timeout s now c t w).
Proof. unfold w_set_timeout, w_with. counts. Qed.
End Counts.

(** ** New and freed connections *)

Section Shapes.
Context (s : settings).

Lemma shape_alloc d w c co : shape s d w -> absent w c -> shape s (alloc_connection c co d) (on_objs <[c := co]> w).
Proof.
  intros [H1 H2 H3 H4 H5 H6 H7 H8] [Hl Hx]. split; cbn; try done.
  - by apply (family_change _ _ _ (Some (mkLinks None None)) H1 Hl); right.
  - by apply (family_change _ _ _ (Some (mkLinks None None)) H2 Hx); right.
  - rewrite !dom_insert_L. by rewrite H3.
  - rewrite !dom_insert_L. by rewrite H4.
  - by rewrite H5.
Qed.

Lemma shape_free d w c : shape s d w -> absent w c -> shape s (free_connection c d) (on_objs (delete c) w).
Proof.
  intros [H1 H2 H3 H4 H5 H6 H7 H8] [Hl Hx]. split; cbn; try done.
  - by apply (family_change _ _ _ None H1 Hl); left.
  - by apply (family_change _ _ _ None H2 Hx); left.
  - rewrite !dom_delete_L. by rewrite H3.
  - rewrite !dom_delete_L. by rewrite H4.
  - by rewrite H5.
Qed.

Lemma shape_rest d w n t : shape s d w -> shape s (set_ips t (set_connections n d)) w.
Proof. intros []. by split. Qed.

Lemma shape_same d w w' : shape s d w -> (forall i, w_lists w i = w_lists w' i) -> (forall k, w_timeouts w k = w_timeouts w' k) ->
  w_objs w = w_objs w' -> w_pending w = w_pending w' -> w_notified w = w_notified w' -> shape s d w'.
Proof.
  intros [H1 H2 H3 H4 H5 H6 H7 H8] El Ex Eo Ep En. split; rewrite <- ?Eo, <- ?Ep, <- ?En; try done.
  - by apply (family_is_ext _ (w_lists w)).
  - by apply (family_is_ext _ (w_timeouts w)).
Qed.

Lemma place_fresh w c : (forall c, place_ok s w c) -> w_objs w !! c = None -> absent w c.
Proof. intros Hp Hc. specialize (Hp c). unfold place_ok in Hp. by rewrite Hc in Hp. Qed.

Lemma accept_places w c a now : (forall c, place_ok s w c) -> w_objs w !! c = None -> sockaddr_ok a ->
  forall c', place_ok s (w_accept s c a now w) c'.
Proof.
  intros Hp Hc Ha. destruct (place_fresh _ _ Hp Hc) as [Hl Hx]. unfold w_accept.
  apply (place_frame s w _ c); [done|by at_lists|..].
  - intros c' Hne. at_lists. rewrite lookup_insert_ne by done. split; [done|]. split; intros i.
    + rewrite elem_of_pushed. naive_solver.
    + by rewrite timed_other.
  - unfold place_ok. at_lists. rewrite lookup_insert_eq. split; at_lists; cbn; try done.
    + exists Connections. rewrite elem_of_pushed. naive_solver.
    + intros k. rewrite (timed_at s _ c (new_connection s a now)); [|cbn; by rewrite lookup_insert_eq|done].
      rewrite elem_of_pushed. naive_solver.
    + rewrite elem_of_pushed. specialize (Hl Suspended). naive_solver.
Qed.


Lemma log_accept w c a now : log_ok w -> w_objs w !! c = None -> log_ok (w_accept s c a now w).
Proof.
  intros Hl Hc i. destruct (timed_rest s (on_objs <[c := new_connection s a now]> w) c) as (_ & E & _ & _ & N).
  unfold w_accept. cbn [w_notify on_lists w_notified w_objs announced]. rewrite N, E. cbn [w_notified w_objs on_objs]. rewrite (Hl i). cbn [mbind option_bind]. destruct (decide (c = i)) as [<-|Hne].
  - by rewrite Hc, lookup_insert_eq.
  - by rewrite lookup_insert_ne.
Qed.

Lemma log_failed w c : log_ok w -> w_objs w !! c = None -> log_ok (w_fail (w_notify c Notify_closed (w_notify c Notify_started w))).
Proof.
  intros Hl Hc i. cbn. rewrite (Hl i). cbn [mbind option_bind]. destruct (decide (c = i)) as [<-|]; [|done].
  by rewrite Hc.
Qed.

Lemma log_free w c : log_ok w -> is_Some (w_objs w !! c) -> log_ok (w_free c w).
Proof.
  intros Hl Hc i. cbn. rewrite (Hl i). cbn [mbind option_bind]. destruct (decide (c = i)) as [<-|Hne].
  - rewrite (bool_decide_eq_true_2 (is_Some (w_objs w !! c))) by done. by rewrite lookup_delete_eq.
  - by rewrite lookup_delete_ne.
Qed.
End Shapes.

(** ** The invariant *)

Section Daemon.
Context (AF_INET AF_INET6 : bytes) (Hfour : length AF_INET = 4%nat /\ length AF_INET6 = 4%nat)
  (Hbytes : Forall is_byte AF_INET /\ Forall is_byte AF_INET6) (Hdiff : AF_INET ≠ AF_INET6).
Context (s : settings) (ip_limit : Z) (Hlimit : 0 <= connection_limit s <= UINT32_MAX).

(** The table of addresses counts the connections of each address. *)
Definition ips_ok (t : ip_table) (open : list sockaddr) : Prop :=
  per_ip_connection_limit t = ip_limit /\ (ip_limit ≠ 0 -> table_is AF_INET AF_INET6 t (counted open)).

Record daemon_is (d : daemon) (w : world) : Prop := {
  di_shape : shape s d w;
  di_places : forall c, place_ok s w c;
  di_count : connections d = Z.of_nat (size (w_objs w) + w_failed w);
  di_limit : connections d <= connection_limit s;
  di_ips : ips_ok (ips d) (addresses (w_objs w));
  di_log : log_ok w
}.

Lemma ips_ok_perm t o1 o2 : o1 ≡ₚ o2 -> ips_ok t o1 -> ips_ok t o2.
Proof using Type. intros E [H1 H2]. split; [done|]. intros Hl. specialize (H2 Hl). unfold counted in *. by rewrite <- E. Qed.

(** A step that accepts and frees no connection. *)
Lemma daemon_is_kept d w o w' : daemon_is d w -> sim s o w' (rest d) -> (forall c, place_ok s w' c) -> same_counts w w' ->
  ∃ d', o = Some d' /\ daemon_is d' w'.
Proof using Type.
  intros Hd (d' & -> & Hs & Hr) Hp Hsame. exists d'. split; [done|]. injection Hr as Ec Ei.
  destruct (same_counts_size _ _ Hsame) as [E1 E2]. destruct Hsame as [_ E3 E4]. split; [done|done|..].
  - rewrite Ec, E1, E3. apply Hd.
  - rewrite Ec. apply Hd.
  - rewrite Ei, E2. apply Hd.
  - apply E4, Hd.
Qed.

Lemma ip_del_ok a d open : sockaddr_ok a -> ips_ok (ips d) (a :: open) -> ∃ t, ip_del AF_INET AF_INET6 a d = Some (set_ips t d) /\ ips_ok t open.
Proof using Hfour Hbytes Hdiff.
  intros Ha [El Ht]. unfold ip_del. destruct (decide (ip_limit = 0)) as [E0|Hne].
  - exists (ips d). unfold MHD_ip_limit_del. rewrite El, E0, Z.eqb_refl. split; [done|]. by split.
  - specialize (Ht Hne). rewrite counted_cons in Ht.
    destruct (ip_limit_del_ok AF_INET AF_INET6 Hfour Hbytes Hdiff (ips d) (counted open) (fresh_object (ips d)) a Ht Ha (fresh_object_ok _))
      as (t & -> & El' & Ht'). exists t. split; [done|]. split; [congruence|done].
Qed.

Lemma ip_add_ok e a d open : sockaddr_ok a -> ips_ok (ips d) open ->
  ∃ ok t, ip_add AF_INET AF_INET6 e a d = Some (ok, set_ips t d)
    /\ if ok then ips_ok t (a :: open) /\ (ip_limit ≠ 0 -> supported a = true -> Z.of_nat (connected a open) < ip_limit)
       else ips_ok t open /\ ~ ((ip_limit ≠ 0 -> supported a = true -> Z.of_nat (connected a open) < ip_limit) /\ admitted e = true).
Proof using Hfour Hbytes Hdiff.
  intros Ha [El Ht]. unfold ip_add. destruct (decide (ip_limit = 0)) as [E0|Hne].
  - exists true, (ips d). unfold MHD_ip_limit_add. rewrite El, E0, Z.eqb_refl. split; [done|]. split; [by split|done].
  - specialize (Ht Hne).
    destruct (ip_limit_add_ok AF_INET AF_INET6 Hfour Hbytes Hdiff (ips d) (counted open) (if ae_key e then Some (fresh_object (ips d)) else None)
      (ae_node e) a Ht Ha) as (ok & t & -> & El' & Hok); [intros p; destruct (ae_key e); [intros [= <-]; apply fresh_object_ok|done]|].
    exists ok, t. split; [done|]. destruct ok; destruct Hok as [Ht' Hc]; (split; [split; [congruence|]|]).
    + intros _. by rewrite counted_cons.
    + intros _ Hs. rewrite <- El, <- (connected_counted a open Hs). by apply Hc.
    + done.
    + intros [Hroom Had]. unfold admitted in Had. destruct Hc as [Hc|[Hc|Hc]].
      * destruct (supported a) eqn:Hs; [rewrite (connected_counted a open Hs) in Hc; specialize (Hroom Hne eq_refl); lia|].
        assert (connected a (counted open) = 0%nat) as H0; [|pose proof (ti_limit _ _ _ _ Ht); lia].
        clear -Hs. induction open as [|b open IH]; [done|]. rewrite counted_cons. destruct (supported b) eqn:Hb; [|done].
        rewrite connected_cons, decide_False; [done|]. intros ->. congruence.
      * destruct (ae_key e); [done|]. by rewrite andb_false_r in Had.
      * rewrite Hc in Had. by rewrite andb_false_r in Had.
Qed.

(** ** Accepting *)

#[local] Abbreviation listed c a now w := (on_lists (pushed Connections c) (w_timed s c (on_objs <[c := new_connection s a now]> w))).

Lemma add_lists_sim c a now d w : shape s d (on_objs <[c := new_connection s a now]> w) -> absent w c ->
  sim s (add_connection_lists c d) (listed c a now w) (rest d).
Proof using Type.
  intros Hd [Hl Hx]. set (co := new_connection s a now) in *. set (w1 := on_objs _ w) in *.
  assert (w_objs w1 !! c = Some co) as Hc by (by apply lookup_insert_eq).
  unfold add_connection_lists. rewrite (sh_options s _ _ Hd). eapply sim_then with (w1 := w_timed s c w1).
  - unfold w_timed. rewrite Hc. destruct (thread_per_connection s); [by apply sim_ret|].
    assert (timeout_list s co = Normal) as -> by (unfold timeout_list; cbn; by rewrite Z.eqb_refl). apply xinsert_sim; eauto.
  - intros d1 Hd1 <-. apply list_insert_sim; [done|at_lists; eauto|by at_lists].
Qed.

(** The thread of a connection did not start: the connection is gone. *)
Lemma add_cleanup_ok c a now d w : shape s d (listed c a now w) -> absent w c -> w_objs w !! c = None -> sockaddr_ok a ->
  thread_per_connection s = true -> ips_ok (ips d) (a :: addresses (w_objs w)) ->
  ∃ d', add_connection_cleanup AF_INET AF_INET6 c d = Some d' /\ shape s d' (w_notify c Notify_closed w)
    /\ connections d' = connections d /\ ips_ok (ips d') (addresses (w_objs w)).
Proof using Hfour Hbytes Hdiff Hlimit.
  intros Hd [Hl Hx] Hc Ha Et Hip. unfold add_connection_cleanup. cbn [notify objs]. rewrite (sh_objs s _ _ Hd).
  assert (w_objs (listed c a now w) !! c = Some (new_connection s a now)) as -> by (at_lists; apply lookup_insert_eq).
  cbn [mbind option_bind]. set (d1 := notify c Notify_closed d). destruct (ip_del_ok a d1 (addresses (w_objs w)) Ha Hip) as (t & Ed & Ht).
  cbn [new_connection addr]. rewrite Ed. cbn [mbind option_bind]. pose proof (notify_shape s _ _ c Notify_closed Hd) as Hd1.
  pose proof (shape_rest s _ _ (connections d) t Hd1) as Hd2. cbn [set_ips options]. assert (options d1 = s) as -> by apply Hd.
  rewrite Et. cbn [mbind option_bind].
  destruct (list_remove_sim s _ _ Connections c Hd2) as (d3 & E3 & Hd3 & Hr3); [at_lists; rewrite elem_of_pushed; naive_solver|].
  assert (list_remove Connections c (set_ips t d1) = Some d3) as -> by exact E3. cbn [mbind option_bind]. injection Hr3 as Ec Ei.
  assert (forall w, w_timed s c w = w) as Etw by (intros; unfold w_timed; by rewrite Et). rewrite Etw in Hd3.
  assert (forall i, dropped Connections c (pushed Connections c (w_lists w)) i = w_lists w i) as Elw by (intros; by apply dropped_pushed).
  eexists. split; [done|]. split; [|split; [exact Ec|cbn; by rewrite Ei]].
  eapply shape_same; [apply (shape_free s d3 _ c Hd3)|..]; try done; cbn.
  - split; cbn; intros i; [by rewrite Elw|apply Hx].
  - by rewrite delete_insert_id.
Qed.

(** The part of [internal_add_connection] inside the mutex, for a connection
    that was just allocated. *)
Lemma add_insert_ok e c a now d w : shape s d w -> (forall c, place_ok s w c) -> w_objs w !! c = None -> sockaddr_ok a ->
  connections d = Z.of_nat (size (w_objs w) + w_failed w) -> connections d < connection_limit s -> ips_ok (ips d) (a :: addresses (w_objs w)) -> log_ok w ->
  ∃ r d', add_connection_insert AF_INET AF_INET6 e c (alloc_connection c (new_connection s a now) d) = Some (r, d')
    /\ daemon_is d' (if thread_starts s e then w_accept s c a now w else w_fail (w_notify c Notify_closed (w_notify c Notify_started w))).
Proof using Hfour Hbytes Hdiff Hlimit.
  intros Hd Hp Hc Ha Hn Hlt Hip Hlog. pose proof (place_fresh s _ _ Hp Hc) as Habs.
  unfold add_connection_insert. cbn [alloc_connection options connections]. rewrite (sh_options s _ _ Hd).
  destruct (Z.leb_spec (connection_limit s) (connections d)); [lia|]. rewrite (wrap_small 32) by lia.
  pose proof (shape_rest s _ _ (connections d + 1) (ips d) (shape_alloc s d w c (new_connection s a now) Hd Habs)) as Hd1.
  destruct (add_lists_sim c a now _ w Hd1 Habs) as (d2 & E2 & Hd2 & Hr2). injection Hr2 as Ec Ei.
  assert (add_connection_lists c (set_connections (connections d + 1) (alloc_connection c (new_connection s a now) d)) = Some d2) as -> by exact E2.
  cbn [mbind option_bind]. set (d3 := notify c Notify_started d2). pose proof (notify_shape s _ _ c Notify_started Hd2) as Hd3. fold d3 in Hd3.
  rewrite (sh_options s _ _ Hd3). unfold thread_starts. destruct (negb (thread_per_connection s) || ae_thread e) eqn:Eth.
  - assert (thread_per_connection s && negb (ae_thread e) = false) as -> by (by destruct (thread_per_connection s), (ae_thread e)).
    eexists _, _. split; [done|]. split; [exact Hd3|by apply accept_places| | | |by apply log_accept]; cbn.
    + rewrite Ec. at_lists. rewrite map_size_insert_None by done. destruct (timed_rest s (on_objs <[c := new_connection s a now]> w) c) as (_ & _ & _ & F & _).
      rewrite F. cbn. lia.
    + rewrite Ec. cbn. lia.
    + rewrite Ei. at_lists. eapply ips_ok_perm; [symmetry; by apply addresses_insert|done].
  - apply orb_false_iff in Eth as [Et Eth]. apply negb_false_iff in Et. rewrite Et, Eth. cbn [andb negb].
    destruct (add_cleanup_ok c a now d3 (w_notify c Notify_started w)) as (d4 & -> & Hd4 & Ec4 & Hip4); try done.
    { eapply shape_same; [exact Hd3|..]; try done; unfold w_timed; by rewrite Et. }
    { unfold d3. cbn. by rewrite Ei. }
    cbn [mbind option_bind]. eexists _, _. split; [done|]. split; cbn.
    + destruct Hd4. by split.
    + intros c'. specialize (Hp c'). unfold place_ok in *. cbn. destruct (w_objs w !! c'); [|done]. destruct Hp. by split.
    + rewrite Ec4. cbn. rewrite Ec. cbn. lia.
    + rewrite Ec4. cbn. rewrite Ec. cbn. lia.
    + done.
    + by apply log_failed.
Qed.

Lemma daemon_is_ips d w t : daemon_is d w -> ips_ok t (addresses (w_objs w)) -> daemon_is (set_ips t d) w.
Proof using Type. intros [H1 H2 H3 H4 H5 H6] Ht. split; try done. destruct H1. by split. Qed.

Lemma accept_ok d w e a now : daemon_is d w -> allowed s w (Accept e a now) ->
  ∃ w' r d', internal_add_connection AF_INET AF_INET6 e a now d = Some (r, d') /\ steps_to s ip_limit w (Accept e a now) w' /\ daemon_is d' w'.
Proof using Hfour Hbytes Hdiff Hlimit.
  intros Hd [Ha Hfresh]. pose proof (di_shape _ _ Hd) as Hs. pose proof (di_limit _ _ Hd) as Hlim. pose proof (di_count _ _ Hd) as Hn.
  unfold internal_add_connection, add_connection_prepare. destruct (ae_socket e) eqn:Esock; cbn [negb].
  2:{ exists w. do 2 eexists. split; [done|]. split; [|done]. apply Refused. unfold admitted. rewrite Esock. by intros [_ ?]. }
  rewrite (sh_options s _ _ Hs).
  destruct (Z.eqb_spec (connections d) (connection_limit s)) as [Efull|Hne].
  { cbn. exists w. do 2 eexists. split; [done|]. split; [|done]. apply Refused. intros [[Hroom _] _]. lia. }
  destruct (ip_add_ok e a d _ Ha (di_ips _ _ Hd)) as (ok & t & -> & Hok). cbn [mbind option_bind]. destruct ok; cbn [negb].
  2:{ destruct Hok as [Ht Hno]. exists w. do 2 eexists. split; [done|]. split; [|by apply daemon_is_ips]. apply Refused. intros [[_ ?] ?]. by apply Hno. }
  destruct Hok as [Ht Hroom]. assert (room s ip_limit w a) as Hr by (split; [lia|done]).
  destruct (ip_del_ok a (set_ips t d) (addresses (w_objs w)) Ha Ht) as (t' & Edel & Ht').
  assert (forall P : bool, admitted e = P -> P = false -> ∃ w' r d', ('(c, d) ← (d ← ip_del AF_INET AF_INET6 a (set_ips t d); Some (@None cid, d));
    match c with None => Some (false, d) | Some c => add_connection_insert AF_INET AF_INET6 e c d end) = Some (r, d')
    /\ steps_to s ip_limit w (Accept e a now) w' /\ daemon_is d' w') as Hrefuse.
  { intros P EP HP. rewrite Edel. cbn. exists w. do 2 eexists. split; [done|]. split; [apply Refused; intros [_ ?]; congruence|].
    by apply (daemon_is_ips d w t'). }
  unfold admitted in Hrefuse. destruct (ae_policy e); cbn [negb]; [|eapply Hrefuse; [done|by rewrite !andb_false_r]].
  destruct (ae_connection e) as [c|] eqn:Ec; [|eapply Hrefuse; [done|by rewrite andb_true_r, andb_false_r]].
  destruct (ae_pool e); cbn [negb]; [|eapply Hrefuse; [done|by rewrite andb_false_r]].
  destruct (ae_addr e); cbn [negb]; [|eapply Hrefuse; [done|by rewrite andb_false_r]].
  cbn [mbind option_bind]. assert (mkConnection (daemon_timeout (options (set_ips t d))) now false false false false a None = new_connection s a now) as ->
    by (unfold new_connection; cbn; by rewrite (sh_options s _ _ Hs)).
  destruct (add_insert_ok e c a now (set_ips t d) w) as (r & d' & -> & Hd'); try done.
  - by apply (shape_rest s d w (connections d) t).
  - apply Hd.
  - by apply Hfresh.
  - cbn. lia.
  - apply Hd.
  - destruct (thread_starts s e) eqn:Eth; do 3 eexists; (split; [done|]); (split; [|exact Hd']).
    + by apply Accepted.
    + by eapply Thread_failed.
Qed.

(** ** Freeing *)

Lemma free_ok d w c : daemon_is d w -> c ∈ w_lists w Cleanup ->
  ∃ d', cleanup_one AF_INET AF_INET6 c d = Some d' /\ daemon_is d' (w_free c w).
Proof using Hfour Hbytes Hdiff Hlimit.
  intros Hd Hcl. pose proof (di_shape _ _ Hd) as Hs. destruct (on_list_present s w c _ (di_places _ _ Hd) Hcl) as (co & Hc & Hpr).
  pose proof (shape_one_list s _ _ Hs) as H1. unfold cleanup_one.
  destruct (list_remove_sim s d w Cleanup c Hs Hcl) as (d1 & -> & Hd1 & Hr1). injection Hr1 as Ec Ei. cbn [mbind option_bind].
  cbn [notify objs]. rewrite (sh_objs s _ _ Hd1). cbn [on_lists w_objs]. rewrite Hc. cbn [mbind option_bind].
  pose proof (notify_shape s _ _ c Notify_closed Hd1) as Hd2. set (d2 := notify c Notify_closed d1) in *.
  destruct (ip_del_ok (addr co) d2 (addresses (delete c (w_objs w)))) as (t & -> & Ht).
  { apply Hpr. } { cbn. rewrite Ei. eapply ips_ok_perm; [by apply addresses_delete|apply Hd]. }
  cbn [mbind option_bind free_connection connections set_ips]. assert (connections d2 = connections d) as -> by exact Ec.
  pose proof (di_count _ _ Hd) as Hn. pose proof (di_limit _ _ Hd) as Hlim.
  assert (size (w_objs w) = S (size (delete c (w_objs w)))) as Hsz.
  { rewrite map_size_delete_Some by eauto. assert (size (w_objs w) ≠ 0%nat); [|lia]. rewrite map_size_ne_0_lookup. eauto. }
  rewrite (wrap_small 32) by lia. eexists. split; [done|].
  assert (absent (w_notify c Notify_closed (on_lists (dropped Cleanup c) w)) c) as Habs.
  { split; cbn; [intros i; rewrite elem_of_dropped; intros [Hi Hni]; apply Hni; split; [by apply (H1 i Cleanup c)|done]|].
    intros k Hk. apply (pr_timeout s _ _ _ Hpr k) in Hk as (_ & Hk & _). by specialize (H1 _ _ _ Hk Hcl). }
  split; cbn.
  - pose proof (shape_rest s _ _ (connections d - 1) t (shape_free s d2 _ c Hd2 Habs)) as Hf. destruct Hf. by split.
  - intros c'. destruct (decide (c = c')) as [<-|Hne].
    { unfold place_ok. cbn. by rewrite lookup_delete_eq. }
    assert (w_objs (w_free c w) !! c' = w_objs w !! c') as Eo by (cbn; by rewrite lookup_delete_ne).
    pose proof (di_places _ _ Hd c') as Hp. unfold place_ok in *. rewrite Eo. destruct (w_objs w !! c') as [co'|].
    + destruct Hp as [[i Hi] K2 K3 K4 K5 K6 K7]. unfold w_free. split; at_world; try done.
      * exists i. rewrite elem_of_dropped. naive_solver.
      * rewrite elem_of_dropped. naive_solver.
    + destruct Hp as [K1 K2]. split; cbn; [intros i; rewrite elem_of_dropped; naive_solver|done].
  - lia.
  - lia.
  - done.
  - apply log_free; [apply Hd|eauto].
Qed.

Lemma cleanup_loop_ok cs fuel d w : daemon_is d w -> w_lists w Cleanup = reverse cs -> (length cs <= fuel)%nat ->
  ∃ d', cleanup_loop AF_INET AF_INET6 fuel d = Some d' /\ daemon_is d' (foldl (λ w c, w_free c w) w cs).
Proof using Hfour Hbytes Hdiff Hlimit.
  revert fuel d w. induction cs as [|c cs IH]; intros fuel d w Hd El Hf;
    destruct (fi_dll _ _ (sh_lists s _ _ (di_shape _ _ Hd)) Cleanup) as (Et & Hnd & _); rewrite El in Et, Hnd.
  { exists d. split; [|done]. destruct fuel; cbn [cleanup_loop]; by rewrite Et. }
  destruct fuel as [|fuel]; [cbn in Hf; lia|]. cbn [cleanup_loop foldl]. rewrite Et. cbn [tail_]. rewrite reverse_cons, last_or_snoc.
  destruct (free_ok d w c Hd) as (d1 & -> & Hd1); [rewrite El, reverse_cons; apply elem_of_app; right; left|]. cbn [mbind option_bind].
  apply IH; [done| |cbn in Hf; lia]. cbn. unfold dropped. rewrite fn_lookup_insert, El, reverse_cons. rewrite reverse_cons in Hnd.
  apply NoDup_app in Hnd as (_ & Hab & _). rewrite without_split; [by rewrite app_nil_r| |apply not_elem_of_nil].
  intros Hc. apply (Hab c Hc). left.
Qed.

Lemma cleanup_all_ok d w : daemon_is d w -> ∃ d', MHD_cleanup_connections AF_INET AF_INET6 d = Some d' /\ daemon_is d' (w_cleanup_all w).
Proof using Hfour Hbytes Hdiff Hlimit.
  intros Hd. pose proof (di_shape _ _ Hd) as Hs. apply cleanup_loop_ok; [done|by rewrite reverse_involutive|].
  rewrite length_reverse, (sh_objs s _ _ Hs). apply (list_size s d); [done|apply Hd].
Qed.

(** ** Every event *)

(** The function of an allowed event succeeds, and does what the event means. *)
Lemma daemon_step_ok d w e : daemon_is d w -> allowed s w e ->
  ∃ d' w', step AF_INET AF_INET6 e d = Some d' /\ steps_to s ip_limit w e w' /\ daemon_is d' w'.
Proof using Hfour Hbytes Hdiff Hlimit.
  intros Hd Hall. pose proof (di_shape _ _ Hd) as Hs. pose proof (di_places _ _ Hd) as Hp. pose proof (shape_one_list s _ _ Hs) as H1.
  assert (forall w', steps_to s ip_limit w e w' -> sim s (step AF_INET AF_INET6 e d) w' (rest d) -> (forall c, place_ok s w' c) -> same_counts w w' ->
    ∃ d' w', step AF_INET AF_INET6 e d = Some d' /\ steps_to s ip_limit w e w' /\ daemon_is d' w') as Hkeep.
  { intros w' Hst Hsim Hpl Hsame. destruct (daemon_is_kept d w _ w' Hd Hsim Hpl Hsame) as (d' & E & Hd'). by exists d', w'. }
  destruct e as [e a now|c|c|now|c|c|c|c|c| |now c|now c t]; cbn [step allowed] in *.
  - destruct (accept_ok d w e a now Hd Hall) as (w' & r & d' & -> & Hst & Hd'). by exists d', w'.
  - destruct Hall as [Hal Hw]. assert (∃ co, w_objs w !! c = Some co) as [co Hc]
      by (destruct Hw as [Ha|(co & Hc & _)]; [destruct (on_list_present s w c _ Hp Ha) as (co & ? & _)|]; eauto).
    assert (c ∈ w_lists w Connections \/ resuming co = true) as Hw' by (destruct Hw as [?|(co' & Hc' & Hr)]; [by left|right; congruence]).
    unfold MHD_suspend_connection in *. rewrite (sh_options s _ _ Hs), Hal in *. cbn [negb] in *. rewrite (sh_objs s _ _ Hs), Hc in *.
    cbn [mbind option_bind] in *. eapply Hkeep; [apply Suspends|..]; unfold w_with; rewrite Hc; destruct (urh co).
    + by apply sim_ret. + by eapply suspend_sim. + done. + by eapply suspend_places. + done. + apply same_counts_suspend.
  - destruct Hall as [Hal Hw]. destruct (on_list_present s w c _ Hp Hw) as (co & Hc & _).
    eapply Hkeep; [apply Resumes|apply resume_sim; eauto|by apply resume_places|apply same_counts_resume].
  - destruct (resume_suspended_sim s d w now Hs Hp) as (Hsim & Hpl & _).
    eapply Hkeep; [apply Resumes_suspended|done|done|apply same_counts_resume_suspended].
  - destruct Hall as [co Hc]. eapply Hkeep; [apply Becomes_aware|apply modify_sim; eauto|by apply (modify_places s _ _ co)|by apply same_counts_modify].
  - destruct Hall as [Hal Hw]. destruct (upgrade_sim s d w c Hs Hp Hw) as [Hsim Hpl].
    eapply Hkeep; [apply Upgrades|done|done|apply same_counts_upgrade].
  - destruct Hall as (Hal & Hw & co & u & Hc & Hu). destruct (upgrade_close_sim s d w c co u Hs Hp Hw Hal Hc Hu) as [Hsim Hpl].
    eapply Hkeep; [apply Upgrade_closes|done|done|apply same_counts_upgrade_close].
  - destruct (close_sim s d w c Hs Hp Hall) as [Hsim Hpl]. eapply Hkeep; [apply Closes|done|done|apply same_counts_close].
  - destruct Hall as (co & Hc & Hw). eapply Hkeep; [apply Cleans_up|by eapply cleanup_sim|by eapply cleanup_places|apply same_counts_cleanup].
  - destruct (cleanup_all_ok d w Hd) as (d' & E & Hd'). exists d', (w_cleanup_all w). split; [done|]. split; [apply Cleans_up_all|done].
  - destruct (activity_sim s d w now c Hs Hp Hall) as [Hsim Hpl]. eapply Hkeep; [apply Is_active|done|done|apply same_counts_activity].
  - destruct Hall as [Hw _]. destruct (set_timeout_sim s d w now c t Hs Hp Hw) as [Hsim Hpl].
    eapply Hkeep; [apply Sets_timeout|done|done|apply same_counts_set_timeout].
Qed.
End Daemon.
