(* ===== verification/DaemonLife.v ===== *)
(** * The life of a daemon

    The daemons that are reached from a started one, and the theorems about
    every one of them: the heap always holds well-formed lists, no function is
    ever called in a state it cannot handle, no resumed connection is left
    behind, and stopping frees everything. *)

From stdpp Require Import functions gmap.
From S2P Require Import Prelude TSearch IpLimit Dll Daemon DaemonSpec DaemonLists DaemonSteps DaemonRun.

#[local] Open Scope Z_scope.

(** ** Reachable daemons *)

(** The daemon after [MHD_start_daemon]. *)
Definition start (s : settings) (ip_limit : Z) : daemon :=
  mkDaemon s (mkFamily ∅ (λ _, mkEnds None None)) (mkFamily ∅ (λ _, mkEnds None None)) ∅ 0 false false
    (mkIpTable ip_limit Null ∅) [].

Definition start_world : world := mkWorld (λ _, []) (λ _, []) ∅ false 0 [].

(** The constants of the platform. *)
Definition families_ok (AF_INET AF_INET6 : bytes) : Prop :=
  length AF_INET = 4%nat /\ length AF_INET6 = 4%nat /\ Forall is_byte AF_INET /\ Forall is_byte AF_INET6 /\ AF_INET ≠ AF_INET6.

Definition limits_ok (s : settings) (ip_limit : Z) : Prop := 0 <= connection_limit s <= UINT32_MAX /\ 0 <= ip_limit <= UINT32_MAX.

Section Life.
Context (AF_INET AF_INET6 : bytes) (s : settings) (ip_limit : Z).

(** Functions are called one after the other, each when it may be called. *)
Inductive reachable : daemon -> Prop :=
  | Started : reachable (start s ip_limit)
  | Stepped d w e d' : reachable d -> shape s d w -> allowed s w e -> step AF_INET AF_INET6 e d = Some d' -> reachable d'.

Lemma daemon_is_start : families_ok AF_INET AF_INET6 -> limits_ok s ip_limit -> daemon_is AF_INET AF_INET6 s ip_limit (start s ip_limit) start_world.
Proof.
  intros (H4 & H6 & Hb & Hb6 & Hneq) [Hl Hi]. split.
  - split; try done; (split; [intros i; apply dll_nil| |done]); intros i j x Hx; by apply elem_of_nil in Hx.
  - intros c. unfold place_ok. cbn. rewrite lookup_empty. split; intros; apply not_elem_of_nil.
  - cbn. by rewrite map_size_empty.
  - cbn. lia.
  - split; [done|]. intros Hne. apply (table_fresh _ _ (conj H4 H6) (conj Hb Hb6) Hneq). lia.
  - intros c. cbn. by rewrite lookup_empty.
Qed.

(** What may be called depends on the heap alone. *)
Lemma shape_allowed d w w' e : shape s d w -> shape s d w' -> allowed s w e -> allowed s w' e.
Proof.
  intros H H' Ha. assert (w_objs w' = w_objs w) as Eo by (by rewrite <- (sh_objs _ _ _ H'), (sh_objs _ _ _ H)).
  assert (forall i, w_lists w' i = w_lists w i) as El.
  { intros i. eapply dll_unique; [apply (sh_lists _ _ _ H')|apply (sh_lists _ _ _ H)]. }
  destruct e; cbn in *; rewrite ?El, ?Eo; done.
Qed.

Lemma reachable_is d : families_ok AF_INET AF_INET6 -> limits_ok s ip_limit -> reachable d ->
  ∃ w, daemon_is AF_INET AF_INET6 s ip_limit d w.
Proof.
  intros Hf Hl Hr. induction Hr as [|d w e d' Hr [w0 Hd] Hw Hall E]; [eexists; by apply daemon_is_start|].
  destruct Hf as (H4 & H6 & Hb & Hb6 & Hne).
  destruct (daemon_step_ok AF_INET AF_INET6 (conj H4 H6) (conj Hb Hb6) Hne s ip_limit (proj1 Hl) d w0 e Hd) as (d1 & w1 & E1 & _ & Hd1).
  { eapply shape_allowed; [exact Hw|apply Hd|done]. }
  exists w1. congruence.
Qed.

Lemma reachable_step d w e : families_ok AF_INET AF_INET6 -> limits_ok s ip_limit -> reachable d -> shape s d w -> allowed s w e ->
  ∃ d', step AF_INET AF_INET6 e d = Some d' /\ reachable d'.
Proof.
  intros Hf Hl Hr Hw Ha. destruct (reachable_is d Hf Hl Hr) as [w0 Hd]. destruct Hf as (H4 & H6 & Hb & Hb6 & Hne).
  destruct (daemon_step_ok AF_INET AF_INET6 (conj H4 H6) (conj Hb Hb6) Hne s ip_limit (proj1 Hl) d w0 e Hd) as (d1 & w1 & E1 & _ & _).
  { eapply shape_allowed; [exact Hw|apply Hd|done]. }
  exists d1. split; [done|]. by eapply Stepped.
Qed.

(** ** Counting *)

(** The call accepted a connection and gave it up, as its thread could not be
    started: the application was told in the one call that the connection
    started and that it is closed. *)
Definition given_up (e : event) (d d' : daemon) : bool :=
  match e with
  | Accept _ _ _ => (length (notified d') =? length (notified d) + 2)%nat
  | _ => false
  end.

(** The same sequences of calls, with the number of connections given up. *)
Inductive history : daemon -> nat -> Prop :=
  | At_start : history (start s ip_limit) 0
  | Next d n w e d' : history d n -> shape s d w -> allowed s w e -> step AF_INET AF_INET6 e d = Some d' ->
      history d' (if given_up e d d' then S n else n).

Lemma history_reachable d n : history d n -> reachable d.
Proof using Type. induction 1; [constructor|by eapply Stepped]. Qed.

Lemma reachable_history d : reachable d -> ∃ n, history d n.
Proof using Type. induction 1 as [|d w e d' _ [n Hn] Hw Ha E]; [by exists 0%nat; constructor|]. eexists. by eapply Next. Qed.

(** The ghost counter of the specification is that number. *)
Lemma given_up_steps d w e d' w' : daemon_is AF_INET AF_INET6 s ip_limit d w -> shape s d' w' ->
  steps_to s ip_limit w e w' -> w_failed w' = (if given_up e d d' then S (w_failed w) else w_failed w)
    /\ (given_up e d d' = true -> thread_per_connection s = true).
Proof using Type.
  intros Hd Hw Hst. pose proof (di_shape _ _ _ _ _ _ Hd) as Hs. unfold given_up.
  rewrite (sh_notified _ _ _ Hw), (sh_notified _ _ _ Hs).
  destruct Hst as [ev a now c Ec Hroom Ht|ev a now Hno|ev a now c Ec Hroom Ht|c|c|now|c|c|c|c|c| |now c|now c t].
  - destruct (timed_rest s (on_objs <[c:=new_connection s a now]> w) c) as (_ & _ & _ & F & N).
    unfold w_accept. cbn [w_notify on_lists w_notified w_failed length]. rewrite F, N. cbn [on_objs w_notified w_failed].
    destruct (Nat.eqb_spec (S (length (w_notified w))) (length (w_notified w) + 2)); [lia|done].
  - destruct (Nat.eqb_spec (length (w_notified w)) (length (w_notified w) + 2)); [lia|done].
  - cbn [w_fail w_notify w_notified w_failed length].
    destruct (Nat.eqb_spec (S (S (length (w_notified w)))) (length (w_notified w) + 2)); [|lia]. split; [done|]. intros _.
    unfold thread_starts in Ht. by destruct (thread_per_connection s).
  - split; [|done]. unfold w_with. destruct (w_objs w !! c) as [co|]; [|done]. destruct (urh co); [done|]. apply sc_failed, same_counts_suspend.
  - split; [|done]. apply sc_failed, same_counts_resume.
  - split; [|done]. apply sc_failed, same_counts_resume_suspended.
  - done.
  - split; [|done]. apply sc_failed, same_counts_upgrade.
  - split; [|done]. apply sc_failed, same_counts_upgrade_close.
  - split; [|done]. apply sc_failed, same_counts_close.
  - split; [|done]. apply sc_failed, same_counts_cleanup.
  - split; [|done]. unfold w_cleanup_all. generalize (reverse (w_lists w Cleanup)). intros cs. clear. revert w.
    induction cs as [|c cs IH]; intros w; [done|]. cbn [foldl]. by rewrite IH.
  - split; [|done]. apply sc_failed, same_counts_activity.
  - split; [|done]. apply sc_failed, same_counts_set_timeout.
Qed.

Lemma history_is d n : families_ok AF_INET AF_INET6 -> limits_ok s ip_limit -> history d n ->
  ∃ w, daemon_is AF_INET AF_INET6 s ip_limit d w /\ w_failed w = n.
Proof using Type.
  intros Hf Hl Hr. induction Hr as [|d n w e d' Hr (w0 & Hd & <-) Hw Hall E]; [eexists; split; [by apply daemon_is_start|done]|].
  destruct Hf as (H4 & H6 & Hb & Hb6 & Hne).
  destruct (daemon_step_ok AF_INET AF_INET6 (conj H4 H6) (conj Hb Hb6) Hne s ip_limit (proj1 Hl) d w0 e Hd) as (d1 & w1 & E1 & Hst & Hd1).
  { eapply shape_allowed; [exact Hw|apply Hd|done]. }
  assert (d1 = d') as -> by congruence. exists w1. split; [done|]. eapply given_up_steps; [exact Hd|apply Hd1|exact Hst].
Qed.

(** Only the thread of a connection can fail in this way. *)
Lemma no_thread_no_failure d n : families_ok AF_INET AF_INET6 -> limits_ok s ip_limit -> history d n ->
  thread_per_connection s = false -> n = 0%nat.
Proof using Type.
  intros Hf Hl Hr Ht. induction Hr as [|d n w e d' Hr IH Hw Hall E]; [done|]. subst n.
  destruct (history_is d 0 Hf Hl Hr) as (w0 & Hd & Hf0). destruct Hf as (H4 & H6 & Hb & Hb6 & Hne).
  destruct (daemon_step_ok AF_INET AF_INET6 (conj H4 H6) (conj Hb Hb6) Hne s ip_limit (proj1 Hl) d w0 e Hd) as (d1 & w1 & E1 & Hst & Hd1).
  { eapply shape_allowed; [exact Hw|apply Hd|done]. }
  assert (d1 = d') as -> by congruence. destruct (given_up_steps d w0 e d' w1 Hd (di_shape _ _ _ _ _ _ Hd1) Hst) as [_ Hg].
  destruct (given_up e d d'); [|done]. by rewrite Ht in Hg; discriminate Hg.
Qed.

Lemma lists_partition d w : shape s d w -> (forall c, place_ok s w c) ->
  (size (w_objs w) = length (w_lists w Connections) + length (w_lists w Suspended) + length (w_lists w Cleanup))%nat.
Proof.
  intros Hs Hp. pose proof (shape_one_list s _ _ Hs) as H1. set (l := w_lists w Connections ++ w_lists w Suspended ++ w_lists w Cleanup).
  assert (NoDup l) as Hn.
  { unfold l. assert (forall i, NoDup (w_lists w i)) as Hi by (intros i; apply (fi_dll _ _ (sh_lists s _ _ Hs) i)).
    apply NoDup_app. split; [done|]. split.
    - intros c Ha [Hc|Hc]%elem_of_app; by specialize (H1 _ _ _ Ha Hc).
    - apply NoDup_app. split; [done|]. split; [|done]. intros c Ha Hc. by specialize (H1 _ _ _ Ha Hc). }
  assert (dom (w_objs w) = list_to_set (C := gset cid) l) as Ed.
  { apply set_eq. intros c. rewrite elem_of_dom, elem_of_list_to_set. unfold l. rewrite !elem_of_app. specialize (Hp c). unfold place_ok in Hp.
    destruct (w_objs w !! c) as [co|].
    - destruct (pr_somewhere s _ _ _ Hp) as [[] Hi]; split; eauto.
    - destruct Hp as [Ha _]. split; [by intros [? ?]|]. intros [Hc|[Hc|Hc]]; by destruct (Ha _ Hc). }
  rewrite <- size_dom, Ed, size_list_to_set by done. unfold l. rewrite !length_app. lia.
Qed.
End Life.

(** ** A daemon with a few connections *)

Definition run (AF_INET AF_INET6 : bytes) (es : list event) (d : daemon) : option daemon :=
  foldl (λ o e, d ← o; step AF_INET AF_INET6 e d) (Some d) es.

Definition demo_settings : settings := mkSettings false true true 30 4.

Definition demo_accept_env (c : cid) : accept_env := mkAcceptEnv true true true true (Some c) true true true.

Definition demo_inet : bytes := [2; 0; 0; 0].
Definition demo_inet6 : bytes := [23; 0; 0; 0].

(** Three connections are accepted; the last is suspended and resumed, the
    one before upgraded. *)
Definition demo_connections : list event :=
  [Accept (demo_accept_env 1) (Sockaddr_in [10; 0; 0; 1]) 100; Accept (demo_accept_env 2) (Sockaddr_in [10; 0; 0; 1]) 101;
   Accept (demo_accept_env 3) (Sockaddr_in [10; 0; 0; 2]) 102; Suspend 3; Resume 3; Upgrade 2].

Definition demo_start : daemon := start demo_settings 2.

(** The daemon after the first events, and after all of them. *)
Definition demo (n : nat) : daemon := default demo_start (run demo_inet demo_inet6 (take n demo_connections) demo_start).

Lemma demo_families : families_ok demo_inet demo_inet6.
Proof. split; [done|]. split; [done|]. split; [|split; [|done]]; apply (bool_decide_unpack _); vm_compute; exact I. Qed.

Lemma demo_limits : limits_ok demo_settings 2.
Proof. by split. Qed.

#[local] Abbreviation demo_reachable := (reachable demo_inet demo_inet6 demo_settings 2).

Lemma shape_head s d w i c : shape s d w -> head_ (ends_of (lists d) i) = Some c -> c ∈ w_lists w i.
Proof. intros H. apply (dll_head (links_of (lists d))). apply H. Qed.

Lemma sockaddr_in_ok a b c d : is_byte a -> is_byte b -> is_byte c -> is_byte d -> sockaddr_ok (Sockaddr_in [a; b; c; d]).
Proof. intros. split; [done|]. by rewrite !Forall_cons, Forall_nil. Qed.

#[local] Ltac demo_accept :=
  intros w Hw; split; [apply sockaddr_in_ok; unfold is_byte; lia|]; intros c [= <-]; rewrite <- (sh_objs _ _ _ Hw); vm_compute; reflexivity.

#[local] Ltac demo_listed i := intros w Hw; (split; [done|]); first [left|idtac]; apply (shape_head _ _ _ i _ Hw); vm_compute; reflexivity.

(** Every event of the example may happen. *)
Lemma demo_event n e : demo_connections !! n = Some e ->
  (forall w, shape demo_settings (demo n) w -> allowed demo_settings w e) /\ step demo_inet demo_inet6 e (demo n) = Some (demo (S n)).
Proof.
  intros He. destruct n as [|[|[|[|[|[|n]]]]]]; [..|done]; injection He as <-; (split; [|vm_compute; reflexivity]).
  1-3: demo_accept.
  - demo_listed Connections.
  - demo_listed Suspended.
  - demo_listed Connections.
Qed.

Lemma demo_is_reachable : reachable demo_inet demo_inet6 demo_settings 2 (demo 6).
Proof.
  assert (forall n, (n <= 6)%nat -> reachable demo_inet demo_inet6 demo_settings 2 (demo n)) as H; [|by apply H].
  induction n as [|n IH]; intros Hn; [apply Started|]. destruct (lookup_lt_is_Some_2 demo_connections n) as [e He]; [cbn; lia|].
  destruct (demo_event n e He) as [Ha E]. assert (reachable demo_inet demo_inet6 demo_settings 2 (demo n)) as Hr by (apply IH; lia).
  destruct (reachable_is demo_inet demo_inet6 demo_settings 2 _ demo_families demo_limits Hr) as [w Hd].
  eapply Stepped; [exact Hr|apply Hd|apply Ha, Hd|exact E].
Qed.

(** ** The theorems *)

(** C6: The linked lists of the daemon are always well formed, and every
    function does to them what it does to a list.  In every state that is
    reached from a started daemon by any sequence of accepted, suspended,
    resumed, upgraded, closed and freed connections, with every failure of an
    allocation or a thread, each function that may be called succeeds, without
    undefined behaviour and without a panic, and the heap then represents the
    lists of its specification, in their order. *)
Theorem daemon_refines_lists AF_INET AF_INET6 s ip_limit d :
  families_ok AF_INET AF_INET6 -> limits_ok s ip_limit -> reachable AF_INET AF_INET6 s ip_limit d ->
  ∃ w, shape s d w /\ forall e, allowed s w e ->
    ∃ d' w', step AF_INET AF_INET6 e d = Some d' /\ steps_to s ip_limit w e w' /\ shape s d' w'.
Proof.
  intros Hf Hl Hr. destruct (reachable_is AF_INET AF_INET6 s ip_limit d Hf Hl Hr) as [w Hd]. exists w. split; [apply Hd|].
  intros e Ha. destruct Hf as (H4 & H6 & Hb & Hb6 & Hne).
  destruct (daemon_step_ok AF_INET AF_INET6 (conj H4 H6) (conj Hb Hb6) Hne s ip_limit (proj1 Hl) d w e Hd Ha) as (d' & w' & E & Hst & Hd').
  exists d', w'. split; [done|]. split; [done|apply Hd'].
Qed.

Lemma daemon_refines_lists_witness : ∃ w, shape demo_settings (demo 6) w
  /\ forall e, allowed demo_settings w e ->
      ∃ d' w', step demo_inet demo_inet6 e (demo 6) = Some d' /\ steps_to demo_settings 2 w e w' /\ shape demo_settings d' w'.
Proof. apply daemon_refines_lists; [exact demo_families|exact demo_limits|exact demo_is_reachable]. Defined.

(** The table of addresses holds [n] for the address [a]: every object with its
    key counts [n], which is positive, and is in the tree; there is one unless
    [n] is 0. *)
Definition counts_address (AF_INET AF_INET6 : bytes) (t : ip_table) (a : sockaddr) (n : nat) : Prop :=
  forall k, addr_key AF_INET AF_INET6 a = Some k ->
    (forall p c, objects t !! p = Some c -> ip_key c = k ->
       count c = Z.of_nat n /\ (0 < n)%nat /\ p ∈ keys (per_ip_connection_count t))
    /\ ((0 < n)%nat -> ∃ p c, objects t !! p = Some c /\ ip_key c = k).

Lemma table_counts AF_INET AF_INET6 t open a : families_ok AF_INET AF_INET6 ->
  table_is AF_INET AF_INET6 t (counted open) -> sockaddr_ok a -> supported a = true ->
  counts_address AF_INET AF_INET6 t a (connected a open).
Proof.
  intros (H4 & H6 & Hb & Hb6 & Hne) Ht Ha Hs k Hk. rewrite <- (connected_counted a open Hs). split.
  - intros p c Hp Hkc. destruct (object_of AF_INET AF_INET6 (conj H4 H6) (conj Hb Hb6) Hne t (counted open) p c a Ht Hp Ha) as [Hc H0]; [congruence|].
    split; [done|]. split; [lia|]. apply (ti_objects _ _ _ _ Ht). eauto.
  - intros H0. exact (ti_found _ _ _ _ Ht a k Ha Hk H0).
Qed.

(** C7: The state of a daemon is well typed, and it counts its connections.
    After every sequence of calls a connection that exists is on exactly one
    of the three lists, and on a time-out list exactly when it is active, the
    one for its time-out; it says of itself whether it is suspended.  The
    daemon's counter is the number of connections on the lists and of those it
    gave up because their thread could not be started, which it goes on
    counting; without a thread per connection there are none, and the counter
    is exact.  It is within the limit.  The table of addresses holds for each
    address the number of the connections from it, at most its limit; and the
    application was told of exactly the connections that exist. *)
Theorem daemon_invariant AF_INET AF_INET6 s ip_limit d failed :
  families_ok AF_INET AF_INET6 -> limits_ok s ip_limit -> history AF_INET AF_INET6 s ip_limit d failed ->
  ∃ w, shape s d w
    /\ (forall c, is_Some (objs d !! c) <-> ∃ i, c ∈ w_lists w i)
    /\ (forall c i j, c ∈ w_lists w i -> c ∈ w_lists w j -> i = j)
    /\ (forall c co k, objs d !! c = Some co ->
          c ∈ w_timeouts w k <-> thread_per_connection s = false /\ c ∈ w_lists w Connections /\ timeout_list s co = k)
    /\ (forall c co, objs d !! c = Some co -> suspended co = true <-> c ∈ w_lists w Suspended)
    /\ connections d = Z.of_nat (length (w_lists w Connections) + length (w_lists w Suspended) + length (w_lists w Cleanup) + failed)
    /\ (thread_per_connection s = false -> failed = 0%nat)
    /\ connections d <= connection_limit s
    /\ (ip_limit ≠ 0 -> forall a, sockaddr_ok a -> supported a = true ->
          counts_address AF_INET AF_INET6 (ips d) a (connected a (addresses (objs d)))
          /\ Z.of_nat (connected a (addresses (objs d))) <= ip_limit)
    /\ (forall c, announced c (notified d) = Some (bool_decide (is_Some (objs d !! c)))).
Proof.
  intros Hf Hl Hr. destruct (history_is AF_INET AF_INET6 s ip_limit d failed Hf Hl Hr) as (w & Hd & Hfail). exists w.
  pose proof (di_shape _ _ _ _ _ _ Hd) as Hs. pose proof (di_places _ _ _ _ _ _ Hd) as Hp. rewrite (sh_objs _ _ _ Hs), (sh_notified _ _ _ Hs).
  split; [done|]. split; [|split; [|split; [|split; [|split; [|split; [|split; [|split]]]]]]].
  - intros c. specialize (Hp c). unfold place_ok in Hp. destruct (w_objs w !! c) as [co|].
    + split; [intros _; apply Hp|eauto].
    + destruct Hp as [Ha _]. split; [by intros [? ?]|]. intros [i Hi]. by destruct (Ha i).
  - intros c i j. apply (shape_one_list s _ _ Hs).
  - intros c co k Hc. apply (pr_timeout s _ _ _ (present_at s _ _ _ Hp Hc)).
  - intros c co Hc. apply (pr_suspended s _ _ _ (present_at s _ _ _ Hp Hc)).
  - rewrite <- (lists_partition s d w Hs Hp), <- Hfail. apply Hd.
  - by apply (no_thread_no_failure AF_INET AF_INET6 s ip_limit d).
  - apply Hd.
  - intros Hne a Ha Hsup. destruct (di_ips _ _ _ _ _ _ Hd) as [El Ht]. specialize (Ht Hne). split.
    + by apply table_counts.
    + rewrite <- (connected_counted a _ Hsup), <- El. by apply (ti_bound _ _ _ _ Ht).
  - apply Hd.
Qed.

Lemma daemon_invariant_witness : connections (demo 6) = 3 /\ ∃ w, shape demo_settings (demo 6) w
  /\ (length (w_lists w Connections) + length (w_lists w Suspended) + length (w_lists w Cleanup))%nat = 3%nat
  /\ counts_address demo_inet demo_inet6 (ips (demo 6)) (Sockaddr_in [10; 0; 0; 1]) 2.
Proof.
  split; [vm_compute; reflexivity|]. destruct (reachable_history _ _ _ _ _ demo_is_reachable) as [n Hn].
  destruct (daemon_invariant demo_inet demo_inet6 demo_settings 2 (demo 6) n demo_families demo_limits Hn)
    as (w & Hw & _ & _ & _ & _ & Hc & Hf & _ & Ha & _).
  exists w. split; [exact Hw|]. split.
  - rewrite (Hf eq_refl) in Hc. assert (connections (demo 6) = 3) as E by (vm_compute; reflexivity). lia.
  - apply (Ha ltac:(done) (Sockaddr_in [10; 0; 0; 1]) ltac:(apply sockaddr_in_ok; unfold is_byte; lia) eq_refl).
Defined.

(** ** Two ways to lose count *)

(** Two connections that were both allocated when the daemon had room for one:
    the second is turned away inside the mutex, and is removed from lists it
    is not on.  The first connection is then on no list any more. *)
Definition narrow_settings : settings := mkSettings false false false 30 1.

Definition race : option daemon :=
  let a := Sockaddr_in [10; 0; 0; 1] in
  '(c1, d) ← add_connection_prepare demo_inet demo_inet6 (demo_accept_env 1) a 100 (start narrow_settings 0);
  '(c2, d) ← add_connection_prepare demo_inet demo_inet6 (demo_accept_env 2) a 100 d;
  c1 ← c1; c2 ← c2;
  '(_, d) ← add_connection_insert demo_inet demo_inet6 (demo_accept_env 1) c1 d;
  snd <$> add_connection_insert demo_inet demo_inet6 (demo_accept_env 2) c2 d.

Lemma race_loses_a_connection : ∃ d, race = Some d /\ is_Some (objs d !! 1%positive) /\ connections d = 1
  /\ ends_of (lists d) Connections = mkEnds None None /\ ends_of (timeouts d) Normal = mkEnds None None
  /\ announced 2 (notified d) = None.
Proof. eexists. split; [vm_compute; reflexivity|]. vm_compute. by eauto 10. Qed.

(** A connection whose thread does not start is freed but stays counted: a
    daemon with room for one connection has none and refuses all. *)
Definition threaded_settings : settings := mkSettings true false false 30 1.

Lemma failed_thread_stays_counted : ∃ d,
  internal_add_connection demo_inet demo_inet6 (mkAcceptEnv true true true true (Some 1%positive) true true false) (Sockaddr_in [10; 0; 0; 1]) 100
    (start threaded_settings 0) = Some (false, d)
  /\ objs d = ∅ /\ connections d = 1
  /\ forall e a now, internal_add_connection demo_inet demo_inet6 e a now d = Some (false, d).
Proof. eexists. split; [vm_compute; reflexivity|]. split; [done|]. split; [done|]. intros e a now. unfold internal_add_connection. by destruct (ae_socket e). Qed.
