(* ===== verification/DaemonStop.v ===== *)
(** * Resuming and stopping

    No connection that is to be resumed is left behind, and stopping a daemon
    frees every connection. *)

From stdpp Require Import functions gmap.
From S2P Require Import Prelude TSearch IpLimit Dll Daemon DaemonSpec DaemonLists DaemonSteps DaemonRun DaemonLife.

#[local] Open Scope Z_scope.

(** ** Where the resumed connections go *)

(** Back to the active ones, or to their end after an upgrade. *)
Definition resume_target (co : connection) : list_id := match urh co with None => Connections | Some _ => Cleanup end.

Section Resume.
Context (s : settings).

Lemma resumed_lists now c w co : w_objs w !! c = Some co ->
  w_lists (w_resumed s now c w) = pushed (resume_target co) c (dropped Suspended c (w_lists w)).
Proof.
  intros Hc. unfold w_resumed, w_with, resume_target. rewrite Hc. destruct (urh co); [|by at_lists].
  by destruct (negb (thread_per_connection s) && client_aware co).
Qed.

(** The connections that are not taken from the suspended ones stay as they are. *)
Lemma resume_all_frame cs : forall now w c, c ∉ cs ->
  w_objs (w_resume_all s now cs w) !! c = w_objs w !! c /\ forall i, c ∈ w_lists (w_resume_all s now cs w) i <-> c ∈ w_lists w i.
Proof.
  induction cs as [|c0 cs IH]; intros now w c Hc; [done|]. apply not_elem_of_cons in Hc as [Hne Hc]. cbn [w_resume_all].
  destruct (w_objs w !! c0) as [co|] eqn:E; [|done]. destruct (to_resume co); [|by apply IH].
  destruct (IH (λ k, now (S k)) (w_resumed s (now 0%nat) c0 w) c Hc) as [-> Hl]. split; [by eapply resumed_frame|].
  intros i. rewrite Hl, (resumed_lists _ _ _ co) by done. rewrite elem_of_pushed, elem_of_dropped. naive_solver.
Qed.

Lemma resume_all_taken cs : forall now w c co, NoDup cs -> (forall c, c ∈ cs -> is_Some (w_objs w !! c)) -> c ∈ cs -> w_objs w !! c = Some co ->
  to_resume co = true -> c ∈ w_lists (w_resume_all s now cs w) (resume_target co).
Proof.
  induction cs as [|c0 cs IH]; intros now w c co Hn Hcs Hc Ho Ht; [by apply elem_of_nil in Hc|].
  apply NoDup_cons in Hn as [Hn0 Hn]. cbn [w_resume_all]. destruct (Hcs c0) as [co0 E0]; [left|]. rewrite E0.
  apply elem_of_cons in Hc as [->|Hc].
  - assert (co0 = co) as -> by congruence. rewrite Ht. apply resume_all_frame; [done|]. rewrite (resumed_lists _ _ _ co) by done.
    rewrite elem_of_pushed. by left.
  - assert (c ≠ c0) as Hne by (by intros ->). destruct (to_resume co0).
    + apply IH; [done| |done| |done].
      * intros c' Hc'. rewrite (proj2 (resumed_frame s w c0 co0 (now 0%nat) E0)) by (by intros ->). apply Hcs. by right.
      * by rewrite (proj2 (resumed_frame s w c0 co0 (now 0%nat) E0)).
    + apply IH; try done. intros c' Hc'. apply Hcs. by right.
Qed.

Lemma resume_all_left cs : forall now w c co, NoDup cs -> (forall c, c ∈ cs -> is_Some (w_objs w !! c)) -> w_objs w !! c = Some co ->
  to_resume co = false -> w_objs (w_resume_all s now cs w) !! c = Some co.
Proof.
  induction cs as [|c0 cs IH]; intros now w c co Hn Hcs Ho Ht; [done|].
  apply NoDup_cons in Hn as [Hn0 Hn]. cbn [w_resume_all]. destruct (Hcs c0) as [co0 E0]; [left|]. rewrite E0.
  destruct (to_resume co0) eqn:Et.
  - assert (c ≠ c0) as Hne by (intros ->; congruence). apply IH; [done| | |done].
    + intros c' Hc'. rewrite (proj2 (resumed_frame s w c0 co0 (now 0%nat) E0)) by (by intros ->). apply Hcs. by right.
    + by rewrite (proj2 (resumed_frame s w c0 co0 (now 0%nat) E0)).
  - apply IH; try done. intros c' Hc'. apply Hcs. by right.
Qed.

Lemma suspended_list d w : shape s d w -> (forall c, place_ok s w c) ->
  NoDup (reverse (w_lists w Suspended)) /\ forall c, c ∈ reverse (w_lists w Suspended) -> is_Some (w_objs w !! c).
Proof.
  intros Hd Hp. split.
  - rewrite reverse_Permutation. apply (fi_dll _ _ (sh_lists s _ _ Hd) Suspended).
  - intros c Hc. rewrite elem_of_reverse in Hc. destruct (on_list_present s w c _ Hp Hc) as (co & -> & _). eauto.
Qed.

(** The connections that are still suspended afterwards. *)
Lemma still_suspended d w now c : shape s d w -> (forall c, place_ok s w c) -> c ∈ w_lists (w_resume_suspended s now w) Suspended ->
  c ∈ w_lists w Suspended /\ w_objs (w_resume_suspended s now w) !! c = w_objs w !! c.
Proof.
  intros Hd Hp Hc. destruct (resume_suspended_sim s d w now Hd Hp) as ((d' & _ & Hs' & _) & Hp' & Hn). apply (shape_one_list s) in Hs'.
  destruct (on_list_present s _ c _ Hp' Hc) as (co & Ho & _). pose proof (Hn c co Hc Ho) as Hto. unfold w_resume_suspended in *.
  destruct (suspended_list d w Hd Hp) as [Hnd Hall]. destruct (w_pending w); [|done].
  set (w0 := w_set_pending false w) in *. set (cs := reverse (w_lists w Suspended)) in *.
  destruct (decide (c ∈ cs)) as [Hin|Hout].
  - split; [unfold cs in Hin; by rewrite elem_of_reverse in Hin|]. destruct (Hall c Hin) as [co0 E0].
    destruct (to_resume co0) eqn:Et.
    + exfalso. pose proof (resume_all_taken cs now w0 c co0 Hnd Hall Hin E0 Et) as Htk.
      specialize (Hs' _ _ _ Hc Htk). unfold resume_target in Hs'. by destruct (urh co0).
    + rewrite E0. by apply (resume_all_left cs now w0 c co0).
  - destruct (resume_all_frame cs now w0 c Hout) as [Eo El]. split; [by apply El|done].
Qed.
End Resume.

(** ** Stopping *)

Section Stop.
Context (AF_INET AF_INET6 : bytes) (s : settings) (ip_limit : Z).
Context (Hf : families_ok AF_INET AF_INET6) (Hl : limits_ok s ip_limit) (Hthread : thread_per_connection s = false).

#[local] Abbreviation daemon_is := (daemon_is AF_INET AF_INET6 s ip_limit).

Lemma daemon_is_step d w e : daemon_is d w -> allowed s w e ->
  ∃ d' w', step AF_INET AF_INET6 e d = Some d' /\ steps_to s ip_limit w e w' /\ daemon_is d' w'.
Proof using Hf Hl.
  destruct Hf as (H4 & H6 & Hb & Hb6 & Hne). apply (daemon_step_ok AF_INET AF_INET6 (conj H4 H6) (conj Hb Hb6) Hne s ip_limit (proj1 Hl)).
Qed.

Lemma daemon_is_pending d w : daemon_is d w -> daemon_is (set_resume_pending true d) (w_set_pending true w).
Proof using Type.
  intros [H1 H2 H3 H4 H5 H6]. split; try done; [by apply pending_shape|by apply places_pending].
Qed.

(** A pass over the suspended connections. *)
Lemma resume_pass d w now : daemon_is d w -> ∃ d' w', snd <$> resume_suspended_connections now (set_resume_pending true d) = Some d' /\ daemon_is d' w'
  /\ (forall c, c ∈ w_lists w' Suspended -> c ∈ w_lists w Suspended /\ w_objs w' !! c = w_objs w !! c)
  /\ none_to_resume w' (w_lists w' Suspended).
Proof using Type.
  intros Hd. apply daemon_is_pending in Hd. pose proof (di_shape _ _ _ _ _ _ Hd) as Hs. pose proof (di_places _ _ _ _ _ _ Hd) as Hp.
  destruct (resume_suspended_sim s _ _ now Hs Hp) as (Hsim & Hp' & Hn).
  destruct (daemon_is_kept AF_INET AF_INET6 s ip_limit _ _ _ _ Hd Hsim Hp' (same_counts_resume_suspended s now _)) as (d' & E & Hd').
  exists d', (w_resume_suspended s now (w_set_pending true w)). split; [done|]. split; [done|]. split; [|done].
  intros c Hc. by apply (still_suspended s _ (w_set_pending true w) now c Hs Hp).
Qed.

(** Upgraded connections that the application did not close. *)
Definition upgraded (w : world) (c : cid) : Prop := ∃ co u, w_objs w !! c = Some co /\ urh co = Some u /\ clean_ready u = true.

Lemma stop_one d w c co u : daemon_is d w -> c ∈ w_lists w Suspended -> w_objs w !! c = Some co -> urh co = Some u -> clean_ready u = true ->
  let f := λ co, set_resuming true (set_urh (Some (mkUrh true (clean_ready u))) co) in
  ∃ d', modify c f d = Some d' /\ daemon_is (set_resume_pending true d') (w_set_pending true (w_modify c f w)).
Proof using Type.
  intros Hd Hc Ho Hu Hcl f. pose proof (di_shape _ _ _ _ _ _ Hd) as Hs. pose proof (di_places _ _ _ _ _ _ Hd) as Hp.
  pose proof (present_at s _ _ _ Hp Ho) as Hpr.
  destruct (modify_sim s d w c f Hs) as (d' & E & Hs' & Hr); [eauto|]. exists d'. split; [done|].
  destruct (daemon_is_kept AF_INET AF_INET6 s ip_limit d w (Some (set_resume_pending true d')) (w_set_pending true (w_modify c f w)) Hd) as (d1 & [= <-] & Hd1).
  - apply sim_ret'; [by apply pending_shape|done].
  - apply (place_frame s w _ c); [done|done|elsewhere|]. here Ho; try apply Hpr; done.
  - apply (same_counts_trans _ (w_modify c f w)); [by apply same_counts_modify|by apply same_counts_lists].
  - done.
Qed.

Lemma stop_loop_ok cs : forall fuel d w post, daemon_is d w -> w_lists w Suspended = reverse cs ++ post -> (forall c, c ∈ cs -> upgraded w c) ->
  (forall c, c ∈ post -> ∃ co, w_objs w !! c = Some co /\ to_resume co = true) -> (length cs <= fuel)%nat ->
  ∃ d' w', stop_suspended fuel (head cs) d = Some d' /\ daemon_is d' w' /\ (forall i, w_lists w' i = w_lists w i)
    /\ forall c, c ∈ w_lists w Suspended -> ∃ co, w_objs w' !! c = Some co /\ to_resume co = true.
Proof using Type.
  induction cs as [|c cs IH]; intros fuel d w post Hd El Hup Hpost Hfl.
  { exists d, w. split; [by destruct fuel|]. split; [done|]. split; [done|]. by rewrite El. }
  destruct fuel as [|fuel]; [cbn in Hfl; lia|]. cbn [head stop_suspended]. rewrite reverse_cons, <- (assoc_L (++)) in El. cbn [app] in El.
  pose proof (di_shape _ _ _ _ _ _ Hd) as Hs. destruct (Hup c) as (co & u & Ho & Hu & Hcl); [left|].
  rewrite (sh_objs s _ _ Hs), Ho. cbn [mbind option_bind]. rewrite Hu. cbn [mbind option_bind].
  destruct (stop_one d w c co u Hd) as (d1 & -> & Hd1); [rewrite El; apply elem_of_app; right; left|done..|]. cbn [mbind option_bind].
  pose proof (fi_dll _ _ (sh_lists s _ _ (di_shape _ _ _ _ _ _ Hd1)) Suspended) as (_ & Hnd & Hseg). cbn [w_set_pending w_modify on_objs w_lists] in Hnd, Hseg.
  rewrite El in Hnd, Hseg. apply segment_app in Hseg as [_ [Hlk _]]. rewrite Hlk. cbn [mbind option_bind prev].
  rewrite last_or_reverse.
  apply NoDup_app in Hnd as (_ & Hab & Hn). apply NoDup_cons in Hn as [Hcp _].
  destruct (IH fuel _ _ (c :: post) Hd1) as (d' & w' & E & Hd' & Elw & Hall).
  - done.
  - intros c' Hc'. destruct (Hup c') as (co' & u' & Ho' & Hu'); [by right|]. exists co', u'. split; [|done]. cbn.
    rewrite lookup_alter_ne; [done|]. intros <-. apply (Hab c); [by rewrite elem_of_reverse|left].
  - intros c' [->|Hc']%elem_of_cons.
    + eexists. cbn. rewrite lookup_alter_eq, Ho. split; [done|]. unfold to_resume, upgrade_in_use. cbn. by rewrite Hcl.
    + cbn. rewrite lookup_alter_ne by (by intros ->). by apply Hpost.
  - cbn in Hfl. lia.
  - exists d', w'. done.
Qed.

(** The active connections are closed from the last one on. *)
Lemma close_loop_ok cs : forall fuel d w, daemon_is d w -> w_lists w Connections = reverse cs -> (length cs <= fuel)%nat ->
  ∃ d' w', close_loop fuel d = Some d' /\ daemon_is d' w' /\ w_lists w' Connections = [] /\ w_lists w' Suspended = w_lists w Suspended.
Proof using Hf Hl Hthread.
  induction cs as [|c cs IH]; intros fuel d w Hd El Hfl; pose proof (di_shape _ _ _ _ _ _ Hd) as Hs;
    destruct (fi_dll _ _ (sh_lists s _ _ Hs) Connections) as (Et & Hnd & _); rewrite El in Et, Hnd.
  { exists d, w. split; [|done]. destruct fuel; cbn [close_loop]; by rewrite Et. }
  destruct fuel as [|fuel]; [cbn in Hfl; lia|]. cbn [close_loop]. rewrite Et. cbn [tail_]. rewrite reverse_cons, last_or_snoc.
  assert (c ∈ w_lists w Connections) as Hc by (rewrite El, reverse_cons; apply elem_of_app; right; left).
  destruct (daemon_is_step d w (Close c) Hd Hc) as (d1 & w1 & E1 & Hst & Hd1). cbn [step] in E1. rewrite E1. cbn [mbind option_bind].
  inversion Hst; subst. rewrite reverse_cons in Hnd. apply NoDup_app in Hnd as (_ & Hab & _).
  assert (forall w', w_lists (w_closed c w') = w_lists w') as Ecl.
  { intros w'. unfold w_closed, w_with. destruct (w_objs w' !! c) as [co|]; [|done]. by destruct (client_aware co). }
  assert (w_lists (w_close s c w) Connections = reverse cs /\ w_lists (w_close s c w) Suspended = w_lists w Suspended) as [Ec Es].
  { unfold w_close. rewrite Hthread. at_lists. rewrite Ecl. split; [|done]. change (without c (w_lists w Connections) = reverse cs).
    rewrite El, reverse_cons, without_split; [by rewrite app_nil_r| |apply not_elem_of_nil]. intros Hi. apply (Hab c Hi). left. }
  destruct (IH fuel d1 _ Hd1 Ec) as (d' & w' & E & Hd' & Ec' & Es'); [cbn in Hfl; lia|]. exists d', w'. split; [done|]. split; [done|].
  split; [done|congruence].
Qed.

#[local] Ltac rest_nil := let c := fresh in intros c Hc; by apply elem_of_nil in Hc.

(** The three passes over the suspended connections, one after the other. *)
Lemma first_pass d w now : daemon_is d w -> allow_suspend_resume s = true \/ w_lists w Suspended = [] ->
  (forall c, c ∈ w_lists w Suspended -> ∃ co, w_objs w !! c = Some co /\ (to_resume co = true \/ (allow_upgrade s = true /\ upgraded w c))) ->
  ∃ d' w', (if allow_suspend_resume (options d) then snd <$> resume_suspended_connections now (set_resume_pending true d) else Some d) = Some d'
    /\ daemon_is d' w' /\ forall c, c ∈ w_lists w' Suspended -> allow_upgrade s = true /\ upgraded w' c.
Proof using Type.
  intros Hd Hsus Hall. rewrite (sh_options s _ _ (di_shape _ _ _ _ _ _ Hd)). destruct (allow_suspend_resume s).
  - destruct (resume_pass d w now Hd) as (d1 & w1 & E & Hd1 & Hst & Hn). exists d1, w1.
    split; [done|]. split; [done|]. intros c Hc. destruct (Hst c Hc) as [Hc0 Ec].
    destruct (Hall c Hc0) as (co & Hco & [Hto|[Hu1 (co' & u & Hu2)]]).
    + rewrite Hco in Ec. by rewrite (Hn c co Hc Ec) in Hto.
    + split; [done|]. exists co', u. by rewrite Ec.
  - exists d, w. split; [done|]. split; [done|]. destruct Hsus as [?|E]; [done|]. rewrite E. rest_nil.
Qed.

Lemma second_pass d w : daemon_is d w -> (forall c, c ∈ w_lists w Suspended -> allow_upgrade s = true /\ upgraded w c) ->
  ∃ d' w', (if allow_upgrade (options d) then stop_suspended (size (objs d)) (tail_ (ends_of (lists d) Suspended)) d
      else match head_ (ends_of (lists d) Suspended) with None => Some d | Some _ => None end) = Some d'
    /\ daemon_is d' w' /\ forall c, c ∈ w_lists w' Suspended -> allow_upgrade s = true /\ ∃ co, w_objs w' !! c = Some co /\ to_resume co = true.
Proof using Type.
  intros Hd Hup. pose proof (di_shape _ _ _ _ _ _ Hd) as Hs. rewrite (sh_options s _ _ Hs).
  destruct (fi_dll _ _ (sh_lists s _ _ Hs) Suspended) as (-> & _). cbn [tail_ head_]. destruct (allow_upgrade s) eqn:Eu.
  - rewrite last_or_head.
    destruct (stop_loop_ok (reverse (w_lists w Suspended)) (size (objs d)) d w [] Hd) as (d2 & w2 & E2 & Hd2 & El2 & Hto).
    + by rewrite reverse_involutive, app_nil_r.
    + intros c Hc. rewrite elem_of_reverse in Hc. by apply Hup.
    + rest_nil.
    + rewrite length_reverse, (sh_objs s _ _ Hs). apply (list_size s d w Suspended Hs), Hd.
    + exists d2, w2. split; [done|]. split; [done|]. intros c Hc. rewrite El2 in Hc. split; [done|]. by apply Hto.
  - exists d, w. destruct (w_lists w Suspended) as [|c l]; [|destruct (Hup c ltac:(left)); congruence]. split; [done|]. split; [done|]. rest_nil.
Qed.

Lemma third_pass d w now : daemon_is d w ->
  (forall c, c ∈ w_lists w Suspended -> allow_upgrade s = true /\ ∃ co, w_objs w !! c = Some co /\ to_resume co = true) ->
  ∃ d' w', (if allow_upgrade (options d) then snd <$> resume_suspended_connections now (set_resume_pending true d) else Some d) = Some d'
    /\ daemon_is d' w' /\ w_lists w' Suspended = [].
Proof using Type.
  intros Hd Hall. rewrite (sh_options s _ _ (di_shape _ _ _ _ _ _ Hd)). destruct (allow_upgrade s).
  - destruct (resume_pass d w now Hd) as (d1 & w1 & E & Hd1 & Hst & Hn). exists d1, w1. split; [done|]. split; [done|].
    destruct (w_lists w1 Suspended) as [|c l]; [done|]. destruct (Hst c) as [Hc Ec]; [left|]. destruct (Hall c Hc) as (_ & co & Hco & Ht).
    rewrite Hco in Ec. by rewrite (Hn c co ltac:(left) Ec) in Ht.
  - exists d, w. split; [done|]. split; [done|]. destruct (w_lists w Suspended) as [|c l]; [done|]. by destruct (Hall c ltac:(left)).
Qed.

(** Every connection is on the list to clean up. *)
Lemma cleanup_rest d w : daemon_is d w -> w_lists w Connections = [] -> w_lists w Suspended = [] ->
  ∃ d', MHD_cleanup_connections AF_INET AF_INET6 d = Some d' /\ ∃ w', daemon_is d' w' /\ w_objs w' = ∅.
Proof using Hf Hl.
  intros Hd Ec Es. destruct (daemon_is_step d w Cleanup_connections Hd I) as (d' & w' & E & Hst & Hd'). exists d'. split; [done|].
  exists w'. split; [done|]. inversion Hst; subst. unfold w_cleanup_all in *. set (cs := reverse (w_lists w Cleanup)) in *.
  apply map_empty. intros c. destruct (_ !! c) as [co|] eqn:Ho; [|done]. exfalso.
  assert (forall cs w0, w_objs (foldl (λ w c, w_free c w) w0 cs) !! c = Some co -> c ∉ cs /\ w_objs w0 !! c = Some co) as Hfr.
  { clear. induction cs as [|c0 cs IH]; intros w0 H; [split; [apply not_elem_of_nil|done]|]. cbn in H. apply IH in H as [H1 H2].
    cbn in H2. apply lookup_delete_Some in H2 as [H2 H3]. split; [|done]. by apply not_elem_of_cons. }
  destruct (Hfr cs w Ho) as [Hn Hc]. destruct (pr_somewhere s _ _ _ (present_at s _ _ _ (di_places _ _ _ _ _ _ Hd) Hc)) as [[] Hi].
  - rewrite Ec in Hi. by apply elem_of_nil in Hi.
  - rewrite Es in Hi. by apply elem_of_nil in Hi.
  - apply Hn. unfold cs. by rewrite elem_of_reverse.
Qed.

Lemma no_connections d w : daemon_is d w -> w_objs w = ∅ -> (forall i, ends_of (lists d) i = mkEnds None None)
  /\ (forall k, ends_of (timeouts d) k = mkEnds None None) /\ (ip_limit ≠ 0 -> objects (ips d) = ∅)
  /\ (forall c, announced c (notified d) = Some false).
Proof using Hf.
  intros Hd Ho. pose proof (di_shape _ _ _ _ _ _ Hd) as Hs. assert (forall c, absent w c) as Ha.
  { intros c. pose proof (di_places _ _ _ _ _ _ Hd c) as Hp. unfold place_ok in Hp. by rewrite Ho, lookup_empty in Hp. }
  split; [|split; [|split]].
  - intros i. destruct (fi_dll _ _ (sh_lists s _ _ Hs) i) as (-> & _). destruct (w_lists w i) as [|c l] eqn:E; [done|].
    destruct (proj1 (Ha c) i). rewrite E. left.
  - intros i. destruct (fi_dll _ _ (sh_timeouts s _ _ Hs) i) as (-> & _). destruct (w_timeouts w i) as [|c l] eqn:E; [done|].
    destruct (proj2 (Ha c) i). rewrite E. left.
  - intros Hne. destruct (di_ips _ _ _ _ _ _ Hd) as [_ Ht]. specialize (Ht Hne). rewrite Ho in Ht. destruct Hf as (H4 & H6 & Hb & Hb6 & Hn).
    apply (table_closed AF_INET AF_INET6 (conj H4 H6) (conj Hb Hb6) Hn (ips d)). exact Ht.
  - intros c. rewrite (sh_notified s _ _ Hs), (di_log _ _ _ _ _ _ Hd c), Ho. by rewrite lookup_empty.
Qed.
End Stop.


(** ** The theorems *)

(** C16: No resumed connection is left behind.  In every reachable state, a
    suspended connection that was resumed, by the application or by the end of
    its upgrade, is taken off the suspended ones by the next call of
    [resume_suspended_connections], whatever happened in between: to the active
    connections, or to the ones to clean up when it was upgraded.  No
    suspended connection that is to be resumed remains. *)
Theorem resumed_connections_are_woken AF_INET AF_INET6 s ip_limit d now :
  families_ok AF_INET AF_INET6 -> limits_ok s ip_limit -> reachable AF_INET AF_INET6 s ip_limit d ->
  ∃ ret d' w', resume_suspended_connections now d = Some (ret, d') /\ shape s d' w'
    /\ (forall c co, objs d !! c = Some co -> to_resume co = true -> c ∈ w_lists w' (resume_target co))
    /\ (forall c co, c ∈ w_lists w' Suspended -> objs d' !! c = Some co -> to_resume co = false).
Proof.
  intros Hf Hl Hr. destruct (reachable_is AF_INET AF_INET6 s ip_limit d Hf Hl Hr) as [w Hd].
  pose proof (di_shape _ _ _ _ _ _ Hd) as Hs. pose proof (di_places _ _ _ _ _ _ Hd) as Hp.
  destruct (resume_suspended_sim s d w now Hs Hp) as ((d' & E & Hs' & _) & _ & Hn).
  destruct (resume_suspended_connections now d) as [[ret d0]|]; [|done]. injection E as ->.
  exists ret, d', (w_resume_suspended s now w). split; [done|]. split; [done|]. split.
  - intros c co Ho Ht. rewrite (sh_objs s _ _ Hs) in Ho. pose proof (present_at s _ _ _ Hp Ho) as Hpr.
    unfold w_resume_suspended. rewrite (pr_pending s _ _ _ Hpr Ht). destruct (suspended_list s d w Hs Hp) as [Hnd Hall].
    apply resume_all_taken; try done. rewrite elem_of_reverse. apply (pr_resuming s _ _ _ Hpr). unfold to_resume in Ht. by destruct (resuming co).
  - intros c co Hc Ho. rewrite (sh_objs s _ _ Hs') in Ho. by apply (Hn c co).
Qed.

Lemma resumed_connections_are_woken_witness : ∃ ret d' w', resume_suspended_connections (λ _, 110) (demo 6) = Some (ret, d')
  /\ shape demo_settings d' w' /\ 3%positive ∈ w_lists w' Connections.
Proof.
  destruct (resumed_connections_are_woken demo_inet demo_inet6 demo_settings 2 (demo 6) (λ _, 110) demo_families demo_limits demo_is_reachable)
    as (ret & d' & w' & E & Hs & H & _).
  exists ret, d', w'. split; [exact E|]. split; [exact Hs|].
  destruct (objs (demo 6) !! 3%positive) as [co|] eqn:Ho; [|vm_compute in Ho; discriminate Ho].
  assert (co = mkConnection 30 102 true true false false (Sockaddr_in [10; 0; 0; 2]) None) as -> by (vm_compute in Ho; congruence).
  exact (H _ _ Ho eq_refl).
Defined.

(** C18: Stopping a daemon frees every connection.  For every reachable daemon
    without a thread per connection whose suspended connections were all
    resumed or upgraded, [close_all_connections] does not panic and ends with
    no connection, with all lists empty, with no address counted, and with the
    end of every connection announced. *)
Theorem stop_frees_everything AF_INET AF_INET6 s ip_limit d w now1 now2 :
  families_ok AF_INET AF_INET6 -> limits_ok s ip_limit -> thread_per_connection s = false ->
  reachable AF_INET AF_INET6 s ip_limit d -> shape s d w -> allow_suspend_resume s = true \/ w_lists w Suspended = [] ->
  (forall c, c ∈ w_lists w Suspended -> ∃ co, w_objs w !! c = Some co /\ (to_resume co = true \/ (allow_upgrade s = true /\ upgraded w c))) ->
  ∃ d', close_all_connections AF_INET AF_INET6 now1 now2 d = Some d' /\ objs d' = ∅
    /\ (forall i, ends_of (lists d') i = mkEnds None None) /\ (forall k, ends_of (timeouts d') k = mkEnds None None)
    /\ (ip_limit ≠ 0 -> objects (ips d') = ∅) /\ (forall c, announced c (notified d') = Some false).
Proof.
  intros Hf Hl Ht Hr Hsh Hsus Hall. destruct (reachable_is AF_INET AF_INET6 s ip_limit d Hf Hl Hr) as [w0 Hd].
  pose proof (di_shape _ _ _ _ _ _ Hd) as Hs. unfold close_all_connections.
  assert (w_objs w0 = w_objs w /\ w_lists w0 Suspended = w_lists w Suspended) as [Eo El].
  { split; [by rewrite <- (sh_objs _ _ _ Hs), (sh_objs _ _ _ Hsh)|]. eapply dll_unique; [apply (sh_lists _ _ _ Hs)|apply (sh_lists _ _ _ Hsh)]. }
  unfold upgraded in Hall. rewrite <- El, <- Eo in *.
  destruct (first_pass AF_INET AF_INET6 s ip_limit d w0 now1 Hd Hsus Hall) as (d1 & w1 & -> & Hd1 & H1). cbn [mbind option_bind].
  destruct (second_pass AF_INET AF_INET6 s ip_limit d1 w1 Hd1 H1) as (d2 & w2 & -> & Hd2 & H2). cbn [mbind option_bind].
  destruct (third_pass AF_INET AF_INET6 s ip_limit d2 w2 now2 Hd2 H2) as (d3 & w3 & -> & Hd3 & H3). cbn [mbind option_bind].
  destruct (close_loop_ok AF_INET AF_INET6 s ip_limit Hf Hl Ht (reverse (w_lists w3 Connections)) (size (objs d3)) d3 w3 Hd3)
    as (d4 & w4 & -> & Hd4 & Hc4 & Hs4); [by rewrite reverse_involutive| |].
  { rewrite length_reverse, (sh_objs s _ _ (di_shape _ _ _ _ _ _ Hd3)). apply (list_size s d3); apply Hd3. }
  cbn [mbind option_bind]. destruct (cleanup_rest AF_INET AF_INET6 s ip_limit Hf Hl d4 w4 Hd4 Hc4) as (d5 & -> & w5 & Hd5 & Ho5); [congruence|].
  exists d5. split; [done|]. split; [by rewrite (sh_objs s _ _ (di_shape _ _ _ _ _ _ Hd5))|]. by apply (no_connections AF_INET AF_INET6 s ip_limit Hf d5 w5).
Qed.

(** Every suspended connection of the example was resumed or upgraded. *)
Definition may_stop (co : connection) : bool :=
  negb (suspended co) || to_resume co || match urh co with Some u => clean_ready u | None => false end.

Lemma stop_frees_everything_witness :
  ∃ d', close_all_connections demo_inet demo_inet6 (λ _, 110) (λ _, 111) (demo 6) = Some d' /\ objs d' = ∅.
Proof.
  destruct (reachable_is demo_inet demo_inet6 demo_settings 2 _ demo_families demo_limits demo_is_reachable) as [w Hd].
  pose proof (di_shape _ _ _ _ _ _ Hd) as Hs.
  destruct (stop_frees_everything demo_inet demo_inet6 demo_settings 2 (demo 6) w (λ _, 110) (λ _, 111) demo_families demo_limits eq_refl
    demo_is_reachable Hs) as (d' & E & Ho & _).
  - left. reflexivity.
  - intros c Hc. destruct (on_list_present demo_settings w c _ (di_places _ _ _ _ _ _ Hd) Hc) as (co & Ho & Hpr). exists co. split; [exact Ho|].
    assert (map_Forall (λ _ co, may_stop co = true) (objs (demo 6))) as Hall by (apply (bool_decide_unpack _); vm_compute; exact I).
    rewrite (sh_objs _ _ _ Hs) in Hall. specialize (Hall c co Ho). unfold may_stop in Hall.
    rewrite (proj2 (pr_suspended _ _ _ _ Hpr) Hc) in Hall. destruct (to_resume co); [left; reflexivity|]. right. split; [reflexivity|].
    destruct (urh co) as [u|] eqn:Eu; [|discriminate Hall]. exists co, u. split; [exact Ho|]. split; [exact Eu|exact Hall].
  - exists d'. split; [exact E|exact Ho].
Defined.
