(* ===== verification/DaemonTime.v ===== *)
(** * Time-outs of connections

    The list of the connections with the default time-out is in the order of
    their last activity, which is what [MHD_get_timeout] builds on. *)

From Stdlib Require Import Sorted.
From stdpp Require Import functions gmap.
From S2P Require Import Prelude TSearch IpLimit Dll Daemon DaemonSpec DaemonLists DaemonSteps DaemonRun DaemonLife DaemonStop.

#[local] Open Scope Z_scope.

(** ** Lists in order *)

Definition activity (m : gmap cid connection) (c : cid) : Z :=
  match m !! c with Some co => last_activity co | None => 0 end.

(** The last connection was idle for the longest time; [t] is the clock. *)
Definition ordered (m : gmap cid connection) (l : list cid) (t : Z) : Prop :=
  StronglySorted (λ a b, activity m b <= activity m a) l /\ forall c, c ∈ l -> activity m c <= t.

Lemma ordered_same m m' l t t' : (forall c, c ∈ l -> activity m' c = activity m c) -> t <= t' -> ordered m l t -> ordered m' l t'.
Proof.
  intros He Ht [Hs Hb]. split; [|intros c Hc; rewrite He by done; specialize (Hb c Hc); lia]. clear Hb.
  induction Hs as [|a l Hs IH Ha]; [constructor|]. constructor.
  - apply IH. intros c Hc. apply He. by right.
  - rewrite Forall_forall in *. intros b Hb. rewrite !He by (try left; by right). by apply Ha.
Qed.

Lemma ordered_without m c l t : ordered m l t -> ordered m (without c l) t.
Proof.
  intros [Hs Hb]. split; [|intros a; rewrite elem_of_without; intros [_ Ha]; by apply Hb]. clear Hb. unfold without.
  induction Hs as [|a l Hs IH Ha]; [constructor|]. rewrite filter_cons. destruct (decide (a ≠ c)); [|done]. constructor; [done|].
  rewrite Forall_forall in *. intros b Hbl. apply Ha. by apply list_elem_of_filter in Hbl as [_ ?].
Qed.

Lemma ordered_push m c l t t' : ordered m l t -> t <= activity m c <= t' -> ordered m (c :: l) t'.
Proof.
  intros [Hs Hb] Hc. split.
  - constructor; [done|]. apply Forall_forall. intros b Hbl. specialize (Hb b Hbl). lia.
  - intros b [->|Hbl]%elem_of_cons; [lia|]. specialize (Hb b Hbl). lia.
Qed.

Lemma ordered_last m l c t x : ordered m l t -> last l = Some x -> c ∈ l -> activity m x <= activity m c.
Proof.
  intros [Hs _] Hx Hc. induction Hs as [|a l Hs IH Ha]; [by apply elem_of_nil in Hc|]. rewrite Forall_forall in Ha.
  destruct l as [|b l]; [cbn in Hx; simplify_eq; by apply list_elem_of_singleton in Hc as ->|]. rewrite last_cons_cons in Hx.
  apply elem_of_cons in Hc as [->|Hc]; [|by apply IH]. apply Ha. by apply last_Some_elem_of.
Qed.

(** ** Steps of a clock *)

Section Time.
Context (AF_INET AF_INET6 : bytes) (s : settings) (ip_limit : Z).

(** The clock does not go back between [t] and [t'], and no active connection
    that has a time-out is given the default one by an option. *)
Definition timely (w : world) (t : Z) (e : event) (t' : Z) : Prop :=
  match e with
  | Accept _ _ now | Activity now _ => t <= now /\ t' = now
  | Resume_suspended now => t <= t' /\ (forall k, t <= now k <= t') /\ (forall j k, (j <= k)%nat -> now j <= now k)
  | Set_timeout now c timeout =>
      t <= now /\ t' = now /\ forall co, w_objs w !! c = Some co ->
        suspended co = true \/ connection_timeout co = 0 \/ timeout ≠ daemon_timeout s
  | _ => t' = t
  end.

Inductive timed : daemon -> Z -> Prop :=
  | Timed_start t : timed (start s ip_limit) t
  | Timed_step d t w e d' t' : timed d t -> shape s d w -> allowed s w e -> timely w t e t' ->
      step AF_INET AF_INET6 e d = Some d' -> timed d' t'.

Lemma timed_reachable d t : timed d t -> reachable AF_INET AF_INET6 s ip_limit d.
Proof. induction 1; [apply Started|by eapply Stepped]. Qed.

Context (Hthread : thread_per_connection s = false) (Hdt : daemon_timeout s ≠ 0).

Definition in_order (w : world) (t : Z) : Prop := ordered (w_objs w) (w_timeouts w Normal) t.

Lemma activity_modify c f w c' : (c' = c -> forall co, last_activity (f co) = last_activity co) ->
  activity (w_objs (w_modify c f w)) c' = activity (w_objs w) c'.
Proof using Type.
  intros Hf. unfold activity. cbn. destruct (decide (c = c')) as [<-|Hne]; [|by rewrite lookup_alter_ne].
  rewrite lookup_alter_eq. destruct (w_objs w !! c); [|done]. cbn. by apply Hf.
Qed.

Lemma in_order_modify c f w t : (forall co, last_activity (f co) = last_activity co) -> in_order w t -> in_order (w_modify c f w) t.
Proof using Type. intros Hf. apply ordered_same; [|done]. intros c' _. apply activity_modify. auto. Qed.

(** A connection that is not on the list. *)
Lemma in_order_modify_other c f w t : c ∉ w_timeouts w Normal -> in_order w t -> in_order (w_modify c f w) t.
Proof using Type. intros Hc. apply ordered_same; [|done]. intros c' Hc'. apply activity_modify. by intros ->. Qed.

Lemma normal_untimed c w co : present s w c co -> w_objs w !! c = Some co ->
  w_timeouts (w_untimed s c w) Normal = without c (w_timeouts w Normal).
Proof using Hthread.
  intros Hpr Hc. unfold w_untimed. rewrite Hthread, Hc. cbn [on_timeouts w_timeouts]. unfold dropped.
  destruct (timeout_list s co) eqn:E; [by rewrite fn_lookup_insert|]. rewrite fn_lookup_insert_ne by done. symmetry. apply without_notin.
  intros Hn. apply (pr_timeout _ _ _ _ Hpr) in Hn as (_ & _ & Hn). congruence.
Qed.

Lemma in_order_untimed c w co t : present s w c co -> w_objs w !! c = Some co -> in_order w t -> in_order (w_untimed s c w) t.
Proof using Hthread.
  intros Hpr Hc Ho. unfold in_order. rewrite (normal_untimed c w co), (proj1 (proj2 (untimed_rest s w c))) by done. by apply ordered_without.
Qed.

Lemma in_order_timed c w co t t' : w_objs w !! c = Some co -> in_order w t -> t <= t' ->
  (timeout_list s co = Normal -> t <= last_activity co <= t') -> in_order (w_timed s c w) t'.
Proof using Hthread.
  intros Hc Ho Ht Hla. unfold in_order. rewrite (proj1 (proj2 (timed_rest s w c))). unfold w_timed. rewrite Hthread, Hc.
  cbn [on_timeouts w_timeouts]. unfold pushed. destruct (timeout_list s co).
  - rewrite fn_lookup_insert. apply (ordered_push _ _ _ t); [done|]. unfold activity. rewrite Hc. by apply Hla.
  - rewrite fn_lookup_insert_ne by done. by apply (ordered_same (w_objs w) _ _ t).
Qed.

Lemma in_order_lists w w' t : w_objs w' = w_objs w -> w_timeouts w' = w_timeouts w -> in_order w t -> in_order w' t.
Proof using Type. unfold in_order. by intros -> ->. Qed.

Lemma in_order_le w t t' : t <= t' -> in_order w t -> in_order w t'.
Proof using Type. intros Ht. by apply ordered_same. Qed.

(** ** Every event keeps the order *)

Lemma in_order_resumed c w co now t t' : w_objs w !! c = Some co -> c ∉ w_timeouts w Normal -> t <= now <= t' -> in_order w t ->
  in_order (w_resumed s now c w) t' /\ forall c', c' ≠ c -> c' ∈ w_timeouts (w_resumed s now c w) Normal <-> c' ∈ w_timeouts w Normal.
Proof using Hthread Hdt.
  intros Hc Hn Ht Ho. unfold w_resumed, w_with. rewrite Hc. destruct (urh co).
  - split; [|by destruct (negb (thread_per_connection s) && client_aware co)]. apply (in_order_le _ t); [lia|].
    eapply in_order_lists; [done..|]. destruct (negb (thread_per_connection s) && client_aware co).
    + eapply in_order_lists; [done..|]. by apply in_order_modify.
    + by apply in_order_modify.
  - set (f := if negb (thread_per_connection s) && negb (connection_timeout co =? 0) then set_last_activity now else id).
    split; [|intros c' Hne; by rewrite timed_other].
    eapply (in_order_timed c _ (((set_resuming false ∘ set_suspended false) ∘ f) co) t); [at_lists; by rewrite lookup_alter_eq, Hc| |lia|].
    + apply in_order_modify_other; [done|]. by eapply in_order_lists.
    + unfold timeout_list, f. rewrite Hthread. cbn [negb andb]. destruct (Z.eqb_spec (connection_timeout co) 0) as [E|E]; cbn.
      * destruct (Z.eqb_spec (connection_timeout co) (daemon_timeout s)); [congruence|done].
      * done.
Qed.

Lemma in_order_resume_all cs : forall now w t t', NoDup cs -> (forall c, c ∈ cs -> c ∉ w_timeouts w Normal) -> in_order w t -> t <= t' ->
  (forall k, t <= now k <= t') -> (forall j k, (j <= k)%nat -> now j <= now k) -> in_order (w_resume_all s now cs w) t'.
Proof using Hthread Hdt.
  induction cs as [|c cs IH]; intros now w t t' Hnd Hcs Ho Ht Hnow Hmono; [by apply (in_order_le _ t)|]. cbn [w_resume_all].
  apply NoDup_cons in Hnd as [Hc0 Hnd]. destruct (w_objs w !! c) as [co|] eqn:Hc; [|by apply (in_order_le _ t)].
  destruct (to_resume co); [|apply (IH now w t); try done; intros c' Hc'; apply Hcs; by right].
  destruct (in_order_resumed c w co (now 0%nat) t (now 0%nat) Hc) as [Ho1 Hfr]; [apply Hcs; left|specialize (Hnow 0%nat); lia|done|].
  apply (IH _ _ (now 0%nat)); try done.
  - intros c' Hc'. rewrite Hfr by (by intros ->). apply Hcs. by right.
  - apply Hnow.
  - intros k. split; [apply Hmono; lia|apply Hnow].
  - intros j k Hjk. apply Hmono. lia.
Qed.

Lemma in_order_suspend d w c t : shape s d w -> (forall c, place_ok s w c) -> in_order w t -> in_order (w_suspend s c w) t.
Proof using Hthread.
  intros Hs Hp Ho. unfold w_suspend, w_with. destruct (w_objs w !! c) as [co|] eqn:Hc; [|done].
  destruct (resuming co); [by apply in_order_modify|]. apply in_order_modify; [done|]. eapply in_order_lists; [done..|].
  apply (in_order_untimed c w co); [by apply present_at|done|done].
Qed.

Lemma in_order_set_timeout w now c x t co : (forall c, place_ok s w c) -> w_objs w !! c = Some co -> in_order w t -> t <= now ->
  suspended co = true \/ connection_timeout co = 0 \/ x ≠ daemon_timeout s -> in_order (w_set_timeout s now c x w) now.
Proof using Hthread Hdt.
  intros Hp Hc Ho Hnow Hx. pose proof (present_at s _ _ _ Hp Hc) as Hpr. unfold w_set_timeout, w_with. rewrite Hc.
  set (f := if connection_timeout co =? 0 then set_last_activity now else id). destruct (suspended co) eqn:Es.
  - apply (in_order_le _ t); [done|]. unfold f. destruct (Z.eqb_spec (connection_timeout co) 0) as [E|E]; [|by apply in_order_modify].
    apply in_order_modify_other; [|done]. intros Hn. apply (pr_timeout _ _ _ _ Hpr) in Hn as (_ & _ & Hn). unfold timeout_list in Hn.
    destruct (Z.eqb_spec (connection_timeout co) (daemon_timeout s)); [congruence|done].
  - eapply (in_order_timed c _ (set_connection_timeout x (f co)) t); [at_lists; by rewrite lookup_alter_eq, Hc| |done|].
    + apply in_order_modify_other; [by apply (untimed_none s w c co)|]. by apply (in_order_untimed c w co).
    + unfold timeout_list, f. cbn. destruct (Z.eqb_spec x (daemon_timeout s)) as [E|E]; [|done]. destruct Hx as [|[Hx|]]; [congruence| |done].
      rewrite Hx, Z.eqb_refl. cbn. lia.
Qed.

Lemma in_order_activity w now c t : (forall c, place_ok s w c) -> in_order w t -> t <= now -> in_order (w_activity s now c w) now.
Proof using Hthread Hdt.
  intros Hp Ho Hnow. unfold w_activity, w_with. destruct (w_objs w !! c) as [co|] eqn:Hc; [|by apply (in_order_le _ t)].
  pose proof (present_at s _ _ _ Hp Hc) as Hpr. destruct (_ || _); [by apply (in_order_le _ t)|].
  set (f := set_last_activity now). set (w1 := w_modify c f w).
  assert (w_objs w1 !! c = Some (f co)) as Hc1 by (cbn; by rewrite lookup_alter_eq, Hc).
  destruct (Z.eqb_spec (connection_timeout co) (daemon_timeout s)) as [E|E].
  - eapply (in_order_timed c _ (f co) t); [at_lists; exact Hc1| |done|intros _; cbn; lia].
    unfold w1. rewrite <- w_modify_untimed by done. apply in_order_modify_other; [by apply (untimed_none s w c co)|].
    by apply (in_order_untimed c w co).
  - apply (in_order_le _ t); [done|]. apply in_order_modify_other; [|done]. intros Hn.
    apply (pr_timeout _ _ _ _ Hpr) in Hn as (_ & _ & Hn). unfold timeout_list in Hn.
    by destruct (Z.eqb_spec (connection_timeout co) (daemon_timeout s)).
Qed.

Lemma cleanup_all_frame cs : forall w c co, w_objs (foldl (λ w c, w_free c w) w cs) !! c = Some co -> w_objs w !! c = Some co.
Proof using Type.
  induction cs as [|c0 cs IH]; intros w c co; [done|]. cbn. intros H. apply IH in H. cbn in H. by apply lookup_delete_Some in H as [_ ?].
Qed.

Lemma cleanup_all_timeouts cs : forall w, w_timeouts (foldl (λ w c, w_free c w) w cs) = w_timeouts w.
Proof using Type. induction cs as [|c0 cs IH]; intros w; [done|]. cbn. by rewrite IH. Qed.

Lemma in_order_step d w e t t' d' w' : daemon_is AF_INET AF_INET6 s ip_limit d w -> daemon_is AF_INET AF_INET6 s ip_limit d' w' ->
  allowed s w e -> timely w t e t' -> steps_to s ip_limit w e w' -> in_order w t -> in_order w' t'.
Proof using Hthread Hdt.
  intros Hd Hd' Ha Ht Hst Ho. pose proof (di_shape _ _ _ _ _ _ Hd) as Hs. pose proof (di_places _ _ _ _ _ _ Hd) as Hp.
  destruct Hst as [e a now c Hc Hr|e a now|e a now c|c|c|now|c|c|c|c|c| |now c|now c x]; cbn [timely allowed] in *; try subst t'; try done.
  - destruct Ht as [Ht ->]. destruct Ha as [_ Hfr]. pose proof (place_fresh s _ _ Hp (Hfr c Hc)) as [_ Hx]. unfold w_accept.
    eapply in_order_lists; [done..|]. eapply (in_order_timed c _ (new_connection s a now) t); [cbn; apply lookup_insert_eq| |done|done].
    apply (ordered_same (w_objs w) _ _ t); [|done|done]. intros c' Hc'. unfold activity. cbn. rewrite lookup_insert_ne; [done|].
    intros ->. by apply (Hx Normal).
  - destruct Ht as [Ht ->]. by apply (in_order_le _ t).
  - destruct Ht as [Ht ->]. apply (in_order_le _ t); [done|]. by apply (in_order_lists w).
  - unfold w_with. destruct (w_objs w !! c) as [co|]; [|done]. destruct (urh co); [done|]. by apply (in_order_suspend d).
  - unfold w_resume. eapply in_order_lists; [done..|]. by apply in_order_modify.
  - destruct Ht as (Ht & Hnow & Hmono). unfold w_resume_suspended. destruct (suspended_list s d w Hs Hp) as [Hnd _].
    apply (in_order_resume_all _ now _ t); try done; [by destruct (w_pending w); [|constructor]|].
    intros c Hc Hn. cbn in Hn. destruct (w_pending w); [|by apply elem_of_nil in Hc]. rewrite elem_of_reverse in Hc.
    destruct (on_list_present s w c _ Hp Hc) as (co & _ & Hpr). destruct (proj1 (pr_timeout _ _ _ _ Hpr Normal) Hn) as (_ & Hac & _).
    by pose proof (shape_one_list s d w Hs _ _ _ Hc Hac).
  - by apply in_order_modify.
  - assert (in_order (w_modify c (set_urh (Some (mkUrh false true))) w) t) as Ho1 by (by apply in_order_modify).
    destruct Ha as [_ Ha]. destruct (on_list_present s w c _ Hp Ha) as (co & Hc & Hpr). unfold w_upgrade, w_suspend, w_with. cbn.
    rewrite lookup_alter_eq, Hc. cbn [fmap option_fmap option_map]. destruct (resuming _); [by apply in_order_modify|].
    apply in_order_modify; [done|]. eapply in_order_lists; [done..|]. rewrite <- w_modify_untimed by done. apply in_order_modify; [done|].
    by apply (in_order_untimed c w co).
  - unfold w_upgrade_close, w_with. destruct (w_objs w !! c) as [co|]; [|done]. destruct (urh co) as [u|]; [|done].
    destruct (was_closed u); [done|]. unfold w_resume. eapply in_order_lists; [done..|]. apply in_order_modify; [done|]. by apply in_order_modify.
  - unfold w_close. rewrite Hthread. destruct (on_list_present s w c _ Hp Ha) as (co & Hc & Hpr). eapply in_order_lists; [done..|].
    unfold w_closed, w_with. rewrite Hc. rewrite <- w_modify_untimed by done. apply in_order_modify; [done|].
    destruct (client_aware co); [|by apply (in_order_untimed c w co)].
    apply (in_order_lists (w_untimed s c w)); [|by unfold w_untimed; rewrite Hthread; cbn; rewrite Hc|by apply (in_order_untimed c w co)].
    by rewrite !(proj1 (proj2 (untimed_rest s _ c))).
  - unfold w_cleanup, w_with. destruct (w_objs w !! c) as [co|] eqn:Hc; [|done]. destruct (in_cleanup co); [done|].
    apply in_order_modify; [by destruct (suspended co)|]. destruct (suspended co); [by eapply in_order_lists|].
    eapply in_order_lists; [done..|]. apply (in_order_untimed c w co); [by apply present_at|done|done].
  - unfold w_cleanup_all in *. unfold in_order. rewrite cleanup_all_timeouts. apply (ordered_same (w_objs w) _ _ t); [|done|done].
    intros c Hc. destruct (w_objs (foldl (λ w c, w_free c w) w (reverse (w_lists w Cleanup))) !! c) as [co|] eqn:Hc'.
    + unfold activity. by rewrite Hc', (cleanup_all_frame _ _ _ _ Hc').
    + pose proof (place_fresh s _ _ (di_places _ _ _ _ _ _ Hd') Hc') as [_ Hx]. destruct (Hx Normal). by rewrite cleanup_all_timeouts.
  - destruct Ht as [Ht ->]. by apply (in_order_activity _ _ _ t).
  - destruct Ht as (Ht & -> & Hx). destruct Ha as [Hw _]. assert (∃ co, w_objs w !! c = Some co) as [co Hc]
      by (destruct Hw as [Hw|Hw]; destruct (on_list_present s w c _ Hp Hw) as (co & ? & _); eauto).
    apply (in_order_set_timeout _ _ _ _ t co); auto.
Qed.

Lemma timed_in_order d t : families_ok AF_INET AF_INET6 -> limits_ok s ip_limit -> timed d t ->
  ∃ w, daemon_is AF_INET AF_INET6 s ip_limit d w /\ in_order w t.
Proof using Hthread Hdt.
  intros Hf Hl Ht. induction Ht as [t|d t w e d' t' Ht [w0 [Hd Ho]] Hw Ha Hti E].
  { exists start_world. split; [by apply daemon_is_start|]. split; [constructor|]. intros c Hc. by apply elem_of_nil in Hc. }
  pose proof (di_shape _ _ _ _ _ _ Hd) as Hs. assert (allowed s w0 e) as Ha0 by (by eapply shape_allowed; [exact Hw|..]).
  destruct (daemon_is_step AF_INET AF_INET6 s ip_limit Hf Hl d w0 e Hd Ha0) as (d1 & w1 & E1 & Hst & Hd1).
  assert (d1 = d') as -> by congruence. exists w1. split; [done|]. apply (in_order_step d w0 e t t' d' w1); try done.
  assert (w_objs w0 = w_objs w) as Eo by (by rewrite <- (sh_objs _ _ _ Hs), (sh_objs _ _ _ Hw)). destruct e; cbn in *; rewrite ?Eo; done.
Qed.
End Time.

(** ** The earliest deadline *)

(** [o] is the least of the numbers with [P], if there is one. *)
Definition soonest (P : Z -> Prop) (o : option Z) : Prop :=
  match o with None => forall z, ~ P z | Some e => P e /\ forall z, P z -> e <= z end.

Lemma soonest_iff P Q o : (forall z, P z <-> Q z) -> soonest P o -> soonest Q o.
Proof. intros E. destruct o as [e|]; cbn; [intros [H1 H2]; split; [by apply E|intros z Hz; by apply H2, E]|intros H z Hz; by apply (H z), E]. Qed.

Lemma soonest_add P o d : soonest P o -> soonest (λ z, P z \/ z = d) (Some (match o with None => d | Some e => if d <? e then d else e end)).
Proof.
  intros H. destruct o as [e|]; cbn in *.
  - destruct H as [H1 H2]. destruct (Z.ltb_spec d e); (split; [tauto|]); intros z [Hz| ->]; try lia; specialize (H2 z Hz); lia.
  - split; [tauto|]. intros z [Hz| ->]; [by apply H in Hz|lia].
Qed.

(** The deadlines of some connections, those without a time-out aside. *)
Definition deadline_of (m : gmap cid connection) (cs : list cid) (z : Z) : Prop :=
  ∃ c co, c ∈ cs /\ m !! c = Some co /\ connection_timeout co ≠ 0 /\ z = last_activity co + connection_timeout co.

(** How long a wait may be: the milliseconds until the deadline. *)
Definition wait (now : Z) (earliest : option Z) : option Z :=
  match earliest with
  | None => None
  | Some e => Some (if e <? now then 0 else if UINT64_MAX / 1000 <? e - now then UINT64_MAX else 1000 * (e - now))
  end.

Section Timeout.
Context (s : settings).

Lemma manual_deadline_ok cs : forall fuel d w post acc, shape s d w -> (forall c, place_ok s w c) -> w_timeouts w Manual = reverse cs ++ post ->
  (length cs <= fuel)%nat -> soonest (deadline_of (w_objs w) post) acc ->
  ∃ acc', manual_deadline fuel d (head cs) acc = Some acc' /\ soonest (deadline_of (w_objs w) (w_timeouts w Manual)) acc'.
Proof.
  induction cs as [|c cs IH]; intros fuel d w post acc Hs Hp El Hf Hacc.
  { exists acc. rewrite El. split; [by destruct fuel|done]. }
  destruct fuel as [|fuel]; [cbn in Hf; lia|]. cbn [head manual_deadline]. rewrite reverse_cons, <- (assoc_L (++)) in El. cbn [app] in El.
  assert (c ∈ w_timeouts w Manual) as Hc by (rewrite El; apply elem_of_app; right; left).
  assert (∃ co, w_objs w !! c = Some co) as [co Hco].
  { specialize (Hp c). unfold place_ok in Hp. destruct (w_objs w !! c); [eauto|]. by destruct (proj2 Hp Manual). }
  rewrite (sh_objs s _ _ Hs), Hco. cbn [mbind option_bind]. pose proof (fi_dll _ _ (sh_timeouts s _ _ Hs) Manual) as (_ & _ & Hseg).
  rewrite El in Hseg. apply segment_app in Hseg as [_ [Hlk _]]. rewrite Hlk. cbn [mbind option_bind prev]. rewrite last_or_reverse.
  apply (IH fuel d w (c :: post)); try done; [cbn in Hf; lia|]. set (dl := last_activity co + connection_timeout co).
  assert (connection_timeout co ≠ 0 -> forall z, (deadline_of (w_objs w) post z \/ z = dl) <-> deadline_of (w_objs w) (c :: post) z) as Hadd.
  { intros Hne z. unfold deadline_of. split.
    - intros [(c' & co' & Hin & Hz)| ->]; [exists c', co'; split; [by right|done]|exists c, co; split; [left|done]].
    - intros (c' & co' & Hin & Ho & Hz). apply elem_of_cons in Hin as [->|Hin]; [right; rewrite Hco in Ho; by simplify_eq; apply Hz|left; by exists c', co']. }
  destruct (Z.eqb_spec (connection_timeout co) 0) as [E|E].
  - eapply soonest_iff; [|exact Hacc]. intros z. unfold deadline_of. split; intros (c' & co' & Hin & Ho & Hz); exists c', co'; (split; [|done]).
    + by right.
    + apply elem_of_cons in Hin as [->|Hin]; [|done]. rewrite Hco in Ho. simplify_eq. tauto.
  - pose proof (soonest_iff _ _ _ (Hadd E) (soonest_add _ _ dl Hacc)) as Hs'. destruct acc as [e|]; [|exact Hs'].
    destruct (Z.ltb_spec dl e), (Z.ltb_spec (connection_timeout co) (e - last_activity co)); unfold dl in *; try lia; exact Hs'.
Qed.

(** Of the connections with the default time-out only the last is looked at. *)
Lemma normal_deadline_ok d w acc P : shape s d w -> (forall c, place_ok s w c) -> soonest P acc ->
  ∃ acc', match tail_ (ends_of (timeouts d) Normal) with
    | None => Some acc
    | Some c =>
        co ← objs d !! c;
        let deadline := last_activity co + connection_timeout co in
        Some (if connection_timeout co =? 0 then acc
              else match acc with
                   | None => Some deadline
                   | Some e => if last_activity co <? e - connection_timeout co then Some deadline else Some e
                   end)
    end = Some acc' /\ soonest (λ z, P z \/ deadline_of (w_objs w) (option_list (last (w_timeouts w Normal))) z) acc'.
Proof.
  intros Hs Hp Hacc. destruct (fi_dll _ _ (sh_timeouts s _ _ Hs) Normal) as (-> & _). cbn [tail_].
  unfold last_or. destruct (last (w_timeouts w Normal)) as [x|] eqn:El; cbn [option_list].
  2:{ exists acc. split; [done|]. eapply soonest_iff; [|exact Hacc]. intros z. split; [by left|].
      intros [?|(c & co & Hc & _)]; [done|by apply elem_of_nil in Hc]. }
  assert (∃ co, w_objs w !! x = Some co) as [co Hco].
  { assert (x ∈ w_timeouts w Normal) as Hx by (by apply last_Some_elem_of). specialize (Hp x). unfold place_ok in Hp.
    destruct (w_objs w !! x); [eauto|]. by destruct (proj2 Hp Normal). }
  rewrite (sh_objs s _ _ Hs), Hco. cbn [mbind option_bind]. eexists. split; [done|].
  assert (forall z, deadline_of (w_objs w) [x] z <-> connection_timeout co ≠ 0 /\ z = last_activity co + connection_timeout co) as Hone.
  { intros z. unfold deadline_of. split; [|intros [? ->]; exists x, co; split; [left|done]].
    intros (c & co' & Hc & Ho & ? & ->). apply list_elem_of_singleton in Hc as ->. rewrite Hco in Ho. by simplify_eq. }
  set (dl := last_activity co + connection_timeout co) in *.
  destruct (Z.eqb_spec (connection_timeout co) 0) as [E|E].
  { eapply soonest_iff; [|exact Hacc]. intros z. rewrite Hone. tauto. }
  assert (soonest (λ z, P z \/ deadline_of (w_objs w) [x] z)
    (Some (match acc with None => dl | Some e => if dl <? e then dl else e end))) as Hall.
  { eapply soonest_iff; [|exact (soonest_add _ _ dl Hacc)]. intros z. rewrite Hone. tauto. }
  destruct acc as [e|]; [|exact Hall].
  destruct (Z.ltb_spec dl e), (Z.ltb_spec (last_activity co) (e - connection_timeout co)); unfold dl in *; try lia; exact Hall.
Qed.

(** In a list in order it is the first to time out. *)
Lemma last_is_first d w t e P : shape s d w -> (forall c, place_ok s w c) -> (daemon_timeout s ≠ 0 -> in_order w t) ->
  soonest (λ z, P z \/ deadline_of (w_objs w) (option_list (last (w_timeouts w Normal))) z) e ->
  soonest (λ z, P z \/ deadline_of (w_objs w) (w_timeouts w Normal) z) e.
Proof.
  intros Hs Hp Hord He.
  assert (forall c, c ∈ w_timeouts w Normal -> ∃ co, w_objs w !! c = Some co /\ connection_timeout co = daemon_timeout s) as Hin.
  { intros c Hc. specialize (Hp c). unfold place_ok in Hp. destruct (w_objs w !! c) as [co|]; [|by destruct (proj2 Hp Normal)].
    exists co. split; [done|]. apply (pr_timeout s _ _ _ Hp) in Hc as (_ & _ & Hc). unfold timeout_list in Hc.
    by destruct (Z.eqb_spec (connection_timeout co) (daemon_timeout s)). }
  assert (forall z, deadline_of (w_objs w) (w_timeouts w Normal) z ->
    ∃ z', z' <= z /\ deadline_of (w_objs w) (option_list (last (w_timeouts w Normal))) z') as Hless.
  { intros z (c & co & Hc & Ho & Hne & ->). destruct (Hin c Hc) as (co1 & Ho1 & Et). rewrite Ho in Ho1. injection Ho1 as <-.
    destruct (last (w_timeouts w Normal)) as [x|] eqn:El; [|apply last_None in El; rewrite El in Hc; by apply elem_of_nil in Hc].
    assert (x ∈ w_timeouts w Normal) as Hx by (by apply last_Some_elem_of). destruct (Hin x Hx) as (cx & Hox & Ex).
    pose proof (ordered_last _ _ c t x (Hord ltac:(congruence)) El Hc) as Hle. unfold activity in Hle. rewrite Ho, Hox in Hle.
    exists (last_activity cx + connection_timeout cx). split; [lia|]. exists x, cx. cbn [option_list]. split; [left|]. split; [done|].
    split; [congruence|done]. }
  assert (forall z, deadline_of (w_objs w) (option_list (last (w_timeouts w Normal))) z -> deadline_of (w_objs w) (w_timeouts w Normal) z) as Hsub.
  { intros z (c & co & Hc & Hz). exists c, co. split; [|done]. destruct (last (w_timeouts w Normal)) as [x|] eqn:El; cbn in Hc; [|by apply elem_of_nil in Hc].
    apply list_elem_of_singleton in Hc as ->. by apply last_Some_elem_of. }
  destruct e as [e|]; cbn in *.
  - destruct He as [H1 H2]. split; [destruct H1 as [?|?]; [by left|right; by apply Hsub]|].
    intros z [Hz|Hz]; [by apply H2; left|]. destruct (Hless z Hz) as (z' & Hz' & Hd). specialize (H2 z' (or_intror Hd)). lia.
  - intros z [Hz|Hz]; [by apply (He z); left|]. destruct (Hless z Hz) as (z' & Hz' & Hd). by apply (He z'); right.
Qed.
End Timeout.

(** ** The theorem *)

(** Where the deadlines of the active connections are found. *)
Lemma active_deadlines s d w z : shape s d w -> (forall c, place_ok s w c) -> thread_per_connection s = false ->
  deadline_of (w_objs w) (w_timeouts w Manual) z \/ deadline_of (w_objs w) (w_timeouts w Normal) z
  <-> deadline_of (w_objs w) (w_lists w Connections) z.
Proof.
  intros Hs Hp Hth. split.
  - intros [(c & co & Hc & Ho & Hz)|(c & co & Hc & Ho & Hz)]; exists c, co; (split; [|done]);
      apply (pr_timeout s _ _ _ (present_at s _ _ _ Hp Ho)) in Hc; tauto.
  - intros (c & co & Hc & Ho & Hz). pose proof (pr_timeout s _ _ _ (present_at s _ _ _ Hp Ho)) as Hk.
    destruct (timeout_list s co) eqn:Ek; [right|left]; exists c, co; (split; [by apply Hk|done]).
Qed.

(** A wait for the soonest deadline is over when a connection times out. *)
Lemma wait_is_short m cs now e c co later :
  soonest (deadline_of m cs) e -> c ∈ cs -> m !! c = Some co -> timed_out later co = true ->
  ∃ ms, wait now e = Some ms /\ ms <= 1000 * Z.max 0 (later - now).
Proof.
  intros Hs Hc Ho Hto. unfold timed_out in Hto. apply andb_prop in Hto as [Hto Hlt]. apply andb_prop in Hto as [_ Hne].
  apply negb_true_iff, Z.eqb_neq in Hne. apply Z.ltb_lt in Hlt.
  assert (deadline_of m cs (last_activity co + connection_timeout co)) as Hdl by (by exists c, co).
  destruct e as [e|]; [|by destruct (Hs _ Hdl)]. destruct Hs as [_ Hmin]. specialize (Hmin _ Hdl). eexists. split; [done|].
  destruct (Z.ltb_spec e now); [lia|]. destruct (Z.ltb_spec (UINT64_MAX / 1000) (e - now)) as [Hbig|]; [|lia].
  pose proof (Z.div_mod UINT64_MAX 1000 ltac:(lia)). pose proof (Z.mod_pos_bound UINT64_MAX 1000 ltac:(lia)). lia.
Qed.

(** The result in any state that is reached. *)
Lemma get_timeout_spec AF_INET AF_INET6 s ip_limit d w now :
  daemon_is AF_INET AF_INET6 s ip_limit d w -> thread_per_connection s = false ->
  ∃ e, MHD_get_timeout false now d = Some (wait now e)
    /\ soonest (λ z, deadline_of (w_objs w) (w_timeouts w Manual) z
                     \/ deadline_of (w_objs w) (option_list (last (w_timeouts w Normal))) z) e.
Proof.
  intros Hd Hth. pose proof (di_shape _ _ _ _ _ _ Hd) as Hs. pose proof (di_places _ _ _ _ _ _ Hd) as Hp. unfold MHD_get_timeout.
  rewrite (sh_options s _ _ Hs), Hth. destruct (fi_dll _ _ (sh_timeouts s _ _ Hs) Manual) as (Em & Hnd & _). rewrite Em. cbn [tail_].
  rewrite last_or_head.
  destruct (manual_deadline_ok s (reverse (w_timeouts w Manual)) (size (objs d)) d w [] None Hs Hp) as (e1 & -> & H1).
  { by rewrite reverse_involutive, app_nil_r. }
  { rewrite length_reverse, (sh_objs s _ _ Hs), <- (size_list_to_set (C := gset cid) _ Hnd), <- (size_dom (D := gset cid)).
    apply subseteq_size. intros c Hc. apply elem_of_list_to_set in Hc. apply elem_of_dom. specialize (Hp c). unfold place_ok in Hp.
    destruct (w_objs w !! c); [eauto|]. by destruct (proj2 Hp Manual). }
  { intros z (c & co & Hc & _). by apply elem_of_nil in Hc. }
  destruct (normal_deadline_ok s d w e1 _ Hs Hp H1) as (e2 & E2 & H2). cbn [mbind option_bind] in E2 |- *. rewrite E2. cbn [mbind option_bind].
  by exists e2.
Qed.

(** C17: [MHD_get_timeout] waits for the earliest deadline.  In every state
    that is reached by a daemon without a thread per connection, the result is
    the time, in milliseconds and cut to the range of the type, until the
    first of the deadlines of the connections with a time-out of their own and
    of the last one on the list of those with the default; 0 when it is over,
    and [MHD_NO] exactly when none of them has a time-out.  When the clock did
    not go back and no active connection that had a time-out was given the
    default one by an option, this is the first deadline of all active
    connections, so no connection times out while a wait of that length goes
    on.  An option that does so breaks the order of the list, and the wait can
    then be longer than the deadline of the connection:
    [default_timeout_delays]. *)
Theorem get_timeout_is_earliest AF_INET AF_INET6 s ip_limit d now :
  families_ok AF_INET AF_INET6 -> limits_ok s ip_limit -> thread_per_connection s = false -> reachable AF_INET AF_INET6 s ip_limit d ->
  ∃ w earliest, shape s d w /\ MHD_get_timeout false now d = Some (wait now earliest)
    /\ soonest (λ z, deadline_of (objs d) (w_timeouts w Manual) z
                     \/ deadline_of (objs d) (option_list (last (w_timeouts w Normal))) z) earliest
    /\ forall t, timed AF_INET AF_INET6 s ip_limit d t ->
         soonest (deadline_of (objs d) (w_lists w Connections)) earliest
         /\ forall c co later, c ∈ w_lists w Connections -> objs d !! c = Some co -> timed_out later co = true ->
              ∃ ms, wait now earliest = Some ms /\ ms <= 1000 * Z.max 0 (later - now).
Proof.
  intros Hf Hl Hth Hr. destruct (reachable_is AF_INET AF_INET6 s ip_limit d Hf Hl Hr) as [w Hd].
  pose proof (di_shape _ _ _ _ _ _ Hd) as Hs. pose proof (di_places _ _ _ _ _ _ Hd) as Hp.
  destruct (get_timeout_spec AF_INET AF_INET6 s ip_limit d w now Hd Hth) as (e & E & He). rewrite (sh_objs s _ _ Hs).
  exists w, e. split; [done|]. split; [done|]. split; [done|]. intros t Ht.
  assert (daemon_timeout s ≠ 0 -> in_order w t) as Hord.
  { intros Hdt. destruct (timed_in_order AF_INET AF_INET6 s ip_limit Hth Hdt d t Hf Hl Ht) as (w1 & Hd1 & Ho).
    pose proof (di_shape _ _ _ _ _ _ Hd1) as Hs1. unfold in_order in *.
    rewrite <- (sh_objs s _ _ Hs), (sh_objs s _ _ Hs1).
    by rewrite (dll_unique _ _ _ _ (fi_dll _ _ (sh_timeouts s _ _ Hs) Normal) (fi_dll _ _ (sh_timeouts s _ _ Hs1) Normal)). }
  pose proof (last_is_first s d w t e _ Hs Hp Hord He) as Hall.
  assert (soonest (deadline_of (w_objs w) (w_lists w Connections)) e) as Hsoon.
  { eapply soonest_iff; [|exact Hall]. intros z. by apply (active_deadlines s d). }
  split; [done|]. intros c co later. by apply wait_is_short.
Qed.

Lemma demo_is_timed : timed demo_inet demo_inet6 demo_settings 2 (demo 6) 102.
Proof.
  assert (forall n, (n <= 6)%nat -> timed demo_inet demo_inet6 demo_settings 2 (demo n) (99 + Z.min 3 (Z.of_nat n))) as H; [|by apply (H 6%nat)].
  induction n as [|n IH]; intros Hn; [apply Timed_start|]. destruct (lookup_lt_is_Some_2 demo_connections n) as [e He]; [cbn; lia|].
  destruct (demo_event n e He) as [Ha E]. assert (timed demo_inet demo_inet6 demo_settings 2 (demo n) (99 + Z.min 3 (Z.of_nat n))) as Hr by (apply IH; lia).
  destruct (reachable_is demo_inet demo_inet6 demo_settings 2 (demo n) demo_families demo_limits) as [w Hd]; [by eapply timed_reachable|].
  eapply Timed_step; [exact Hr|apply Hd|apply Ha, Hd| |exact E].
  destruct n as [|[|[|[|[|[|n]]]]]]; [..|done]; injection He as <-; cbn; lia.
Qed.

Lemma get_timeout_is_earliest_witness : MHD_get_timeout false 110 (demo 6) = Some (Some 20000)
  /\ ∃ w earliest, shape demo_settings (demo 6) w /\ wait 110 earliest = Some 20000
     /\ soonest (deadline_of (objs (demo 6)) (w_lists w Connections)) earliest.
Proof.
  assert (MHD_get_timeout false 110 (demo 6) = Some (Some 20000)) as E by (vm_compute; reflexivity). split; [exact E|].
  destruct (get_timeout_is_earliest demo_inet demo_inet6 demo_settings 2 (demo 6) 110 demo_families demo_limits eq_refl demo_is_reachable)
    as (w & e & Hs & E' & _ & He).
  exists w, e. split; [exact Hs|]. split; [|exact (proj1 (He 102 demo_is_timed))]. rewrite E in E'. by injection E'.
Defined.

(** ** What the order and the deadline do not cover *)

(** Setting the time-out of a connection to the default puts it at the head of
    the list with its old last activity: the list is then not in order, and
    the wait is longer than the time to its deadline. *)
Definition late_events : list event :=
  [Accept (demo_accept_env 1) (Sockaddr_in [10; 0; 0; 1]) 100; Accept (demo_accept_env 2) (Sockaddr_in [10; 0; 0; 1]) 120; Set_timeout 125 1 30].

Lemma default_timeout_delays : ∃ d co, run demo_inet demo_inet6 late_events demo_start = Some d /\ objs d !! 1%positive = Some co
  /\ last_activity co + connection_timeout co = 130 /\ MHD_get_timeout false 125 d = Some (Some 25000).
Proof. do 2 eexists. split; [vm_compute; reflexivity|]. split; [vm_compute; reflexivity|]. by split. Qed.

(** In the second of the deadline the wait is 0 and the connection has not
    timed out. *)
Lemma deadline_second_is_busy co e : connection_timeout co ≠ 0 -> e = last_activity co + connection_timeout co ->
  wait e (Some e) = Some 0 /\ timed_out e co = false.
Proof.
  intros Hne ->. unfold wait, timed_out. rewrite Z.ltb_irrefl, Z.sub_diag. split; [done|].
  destruct (Z.ltb_spec (connection_timeout co) (last_activity co + connection_timeout co - last_activity co)); [lia|]. by rewrite andb_false_r.
Qed.
