(* ===== verification/Forward.v ===== *)
(** * Forwarding of an upgraded connection (libmicrohttpd/src/microhttpd/daemon.c, response.c)

    An upgraded connection with TLS has a pair of sockets between the library
    and the application, and two buffers, one for each direction, which are
    the halves of one block.  [process_urh] moves bytes between the TLS
    session, the buffers and the socket pair, as far as the sockets are ready.

    The results of the system calls are inputs; the bytes they took and gave
    are recorded in the state. *)

From S2P Require Import Prelude.

(** ** State *)

(** [enum MHD_EpollState]. *)
Definition MHD_EPOLL_STATE_UNREADY : Z := 0.
Definition MHD_EPOLL_STATE_READ_READY : Z := 1.
Definition MHD_EPOLL_STATE_WRITE_READY : Z := 2.
Definition MHD_EPOLL_STATE_ERROR : Z := 128.

(** [0 != (bits & s)], [s |= bits] and [s &= ~bits]. *)
Definition has (bits s : Z) : bool := negb (Z.land bits s =? 0).
Definition mark (bits s : Z) : Z := Z.lor s bits.
Definition unmark (bits s : Z) : Z := Z.ldiff s bits.

(** One direction: [in_buffer], [in_buffer_size] and [in_buffer_used], or
    those of [out_buffer]; [taken] and [given] are the bytes that were read
    into and written from the buffer so far. *)
Record direction := mkDirection {
  buffer : Z;
  buffer_size : Z;
  buffer_used : Z;
  taken : bytes;
  given : bytes
}.

(** [struct MHD_UpgradeResponseHandle] with the [tls_read_ready] of its
    connection.  [app_celi] is the state of the socket of the connection and
    [mhd_celi] that of the library's end of the socket pair. *)
Record forward := mkForward {
  buf : bytes;
  in_ : direction;
  out_ : direction;
  app_celi : Z;
  mhd_celi : Z;
  was_closed : bool;
  tls_read_ready : bool
}.

Definition with_buf (b : bytes) (u : forward) : forward :=
  mkForward b (in_ u) (out_ u) (app_celi u) (mhd_celi u) (was_closed u) (tls_read_ready u).
Definition set_in (d : direction) (u : forward) : forward :=
  mkForward (buf u) d (out_ u) (app_celi u) (mhd_celi u) (was_closed u) (tls_read_ready u).
Definition set_out (d : direction) (u : forward) : forward :=
  mkForward (buf u) (in_ u) d (app_celi u) (mhd_celi u) (was_closed u) (tls_read_ready u).
Definition set_app_celi (s : Z) (u : forward) : forward :=
  mkForward (buf u) (in_ u) (out_ u) s (mhd_celi u) (was_closed u) (tls_read_ready u).
Definition set_mhd_celi (s : Z) (u : forward) : forward :=
  mkForward (buf u) (in_ u) (out_ u) (app_celi u) s (was_closed u) (tls_read_ready u).
Definition set_was_closed (b : bool) (u : forward) : forward :=
  mkForward (buf u) (in_ u) (out_ u) (app_celi u) (mhd_celi u) b (tls_read_ready u).
Definition set_tls_read_ready (b : bool) (u : forward) : forward :=
  mkForward (buf u) (in_ u) (out_ u) (app_celi u) (mhd_celi u) (was_closed u) b.

Definition set_size (n : Z) (d : direction) : direction := mkDirection (buffer d) n (buffer_used d) (taken d) (given d).
Definition set_used (n : Z) (d : direction) : direction := mkDirection (buffer d) (buffer_size d) n (taken d) (given d).
Definition set_taken (bs : bytes) (d : direction) : direction := mkDirection (buffer d) (buffer_size d) (buffer_used d) (taken d ++ bs) (given d).
Definition set_given (bs : bytes) (d : direction) : direction := mkDirection (buffer d) (buffer_size d) (buffer_used d) (taken d) (given d ++ bs).

(** ** System calls *)

(** A result of [gnutls_record_recv]: data, one of the two errors that pass,
    or the end of the stream or another error. *)
Inductive tls_received := Tls_data (bs : bytes) | Tls_recv_again | Tls_recv_interrupted | Tls_recv_failed.

Inductive tls_sent := Tls_count (n : Z) | Tls_send_again | Tls_send_interrupted | Tls_send_failed.

(** An error of a socket: [MHD_SCKT_ERR_IS_EINTR_] or
    [MHD_SCKT_ERR_IS_LOW_RESOURCES_], [MHD_SCKT_ERR_IS_EAGAIN_], or another. *)
Inductive socket_error := Err_retry | Err_again | Err_other.

Inductive received := Received (bs : bytes) | Received_nothing | Receive_error (e : socket_error).

Inductive sent := Sent (n : Z) | Send_error (e : socket_error).

Record calls := mkCalls {
  gnutls_record_recv : Z -> tls_received;
  gnutls_record_check_pending : bool;
  MHD_recv_ : Z -> received;
  gnutls_record_send : bytes -> tls_sent;
  MHD_send_ : bytes -> sent
}.

(** ** [process_urh] *)

Section Process.
Context `{Platform} (MHD_SCKT_SEND_MAX_SIZE_ : Z).

(** The application closed the socket: nothing is forwarded to it. *)
Definition forward_closed (u : forward) : forward :=
  let u := if negb (buffer_size (out_ u) =? 0) then set_mhd_celi (mark MHD_EPOLL_STATE_READ_READY (mhd_celi u)) u else u in
  let u := set_in (set_used 0 (in_ u)) u in
  let u := set_mhd_celi (unmark MHD_EPOLL_STATE_WRITE_READY (mhd_celi u)) u in
  let u := set_in (set_size 0 (in_ u)) u in
  let u := set_app_celi (unmark MHD_EPOLL_STATE_READ_READY (app_celi u)) u in
  set_tls_read_ready false u.

(** Reading from a socket with an error. *)
Definition forward_errors (u : forward) : forward :=
  let u := if has MHD_EPOLL_STATE_ERROR (app_celi u) then set_app_celi (mark MHD_EPOLL_STATE_READ_READY (app_celi u)) u else u in
  if has MHD_EPOLL_STATE_ERROR (mhd_celi u) then set_mhd_celi (mark MHD_EPOLL_STATE_READ_READY (mhd_celi u)) u else u.

(** Reading from the remote TLS client. *)
Definition read_remote (e : calls) (u : forward) : option forward :=
  if (has MHD_EPOLL_STATE_READ_READY (app_celi u) || tls_read_ready u) && (buffer_used (in_ u) <? buffer_size (in_ u)) then
    let buf_size := Z.min (usize (buffer_size (in_ u) - buffer_used (in_ u))) SSIZE_MAX in
    let u := set_tls_read_ready false u in
    u ← match gnutls_record_recv e buf_size with
        | Tls_data bs =>
            b ← mem_write (buf u) (buffer (in_ u) + buffer_used (in_ u)) bs;
            let u := with_buf b (set_in (set_taken bs (set_used (usize (buffer_used (in_ u) + Z.of_nat (length bs))) (in_ u))) u) in
            Some (if buf_size >? Z.of_nat (length bs) then set_app_celi (unmark MHD_EPOLL_STATE_READ_READY (app_celi u)) u
                  else if gnutls_record_check_pending e then set_tls_read_ready true u else u)
        | Tls_recv_interrupted => Some u
        | Tls_recv_again => Some (set_app_celi (unmark MHD_EPOLL_STATE_READ_READY (app_celi u)) u)
        | Tls_recv_failed => Some (set_in (set_size 0 (in_ u)) (set_app_celi (unmark MHD_EPOLL_STATE_READ_READY (app_celi u)) u))
        end;
    Some (if Z.land (Z.lor MHD_EPOLL_STATE_ERROR MHD_EPOLL_STATE_READ_READY) (app_celi u) =? MHD_EPOLL_STATE_ERROR
          then set_in (set_size 0 (in_ u)) u else u)
  else Some u.

(** Reading from the application; [closed] is the value of [was_closed] at the
    start. *)
Definition read_app (e : calls) (closed : bool) (u : forward) : option forward :=
  if has MHD_EPOLL_STATE_READ_READY (mhd_celi u) && (buffer_used (out_ u) <? buffer_size (out_ u)) then
    let buf_size := Z.min (usize (buffer_size (out_ u) - buffer_used (out_ u))) MHD_SCKT_SEND_MAX_SIZE_ in
    let not_ready := set_mhd_celi (unmark MHD_EPOLL_STATE_READ_READY (mhd_celi u)) u in
    u ← match MHD_recv_ e buf_size with
        | Received bs =>
            b ← mem_write (buf u) (buffer (out_ u) + buffer_used (out_ u)) bs;
            let u := with_buf b (set_out (set_taken bs (set_used (usize (buffer_used (out_ u) + Z.of_nat (length bs))) (out_ u))) u) in
            Some (if buf_size >? Z.of_nat (length bs) then set_mhd_celi (unmark MHD_EPOLL_STATE_READ_READY (mhd_celi u)) u else u)
        | Received_nothing => Some (set_out (set_size 0 (out_ u)) not_ready)
        | Receive_error Err_retry => Some u
        | Receive_error err =>
            Some (if closed || has MHD_EPOLL_STATE_ERROR (mhd_celi not_ready) || match err with Err_again => false | _ => true end
                  then set_out (set_size 0 (out_ u)) not_ready else not_ready)
        end;
    Some (if negb (has MHD_EPOLL_STATE_READ_READY (mhd_celi u)) && (has MHD_EPOLL_STATE_ERROR (mhd_celi u) || closed)
          then set_out (set_size 0 (out_ u)) u else u)
  else Some u.

(** The bytes behind the written ones move to the front of the buffer. *)
Definition advance (b : bytes) (d : direction) (data : bytes) (n : Z) : option (bytes * direction) :=
  let next := usize (buffer_used d - n) in
  b ← (if negb (next =? 0) then memmove b (buffer d) (buffer d + n) next else Some b);
  Some (b, set_given (take (Z.to_nat n) data) (set_used next d)).

(** Nothing more goes from the application to the remote client. *)
Definition stop_out (u : forward) : forward :=
  set_mhd_celi (unmark MHD_EPOLL_STATE_READ_READY (mhd_celi u)) (set_out (set_size 0 (out_ u)) u).

(** Nothing more goes from the remote client to the application. *)
Definition stop_in (u : forward) : forward :=
  set_tls_read_ready false (set_app_celi (unmark MHD_EPOLL_STATE_READ_READY (app_celi u)) (set_in (set_size 0 (in_ u)) u)).

(** Writing to the remote TLS client. *)
Definition write_remote (e : calls) (u : forward) : option forward :=
  if has MHD_EPOLL_STATE_WRITE_READY (app_celi u) && (buffer_used (out_ u) >? 0) then
    let data_size := Z.min (buffer_used (out_ u)) SSIZE_MAX in
    data ← mem_read (buf u) (buffer (out_ u)) data_size;
    let not_ready := set_app_celi (unmark MHD_EPOLL_STATE_WRITE_READY (app_celi u)) u in
    u ← match gnutls_record_send e data with
        | Tls_count n =>
            '(b, d) ← advance (buf u) (out_ u) data n;
            let u := with_buf b (set_out d u) in
            Some (if negb (buffer_used d =? 0) && (data_size >? n) then set_app_celi (unmark MHD_EPOLL_STATE_WRITE_READY (app_celi u)) u else u)
        | Tls_send_interrupted => Some u
        | Tls_send_again => Some not_ready
        | Tls_send_failed => Some (stop_out (set_out (set_used 0 (out_ not_ready)) not_ready))
        end;
    Some (if (buffer_used (out_ u) =? 0) && has MHD_EPOLL_STATE_ERROR (app_celi u)
          then stop_out (set_app_celi (unmark MHD_EPOLL_STATE_WRITE_READY (app_celi u)) u) else u)
  else Some u.

(** Writing to the application. *)
Definition write_app (e : calls) (u : forward) : option forward :=
  if has MHD_EPOLL_STATE_WRITE_READY (mhd_celi u) && (buffer_used (in_ u) >? 0) then
    let data_size := Z.min (buffer_used (in_ u)) MHD_SCKT_SEND_MAX_SIZE_ in
    data ← mem_read (buf u) (buffer (in_ u)) data_size;
    let not_ready := set_mhd_celi (unmark MHD_EPOLL_STATE_WRITE_READY (mhd_celi u)) u in
    u ← match MHD_send_ e data with
        | Sent n =>
            '(b, d) ← advance (buf u) (in_ u) data n;
            let u := with_buf b (set_in d u) in
            Some (if negb (buffer_used d =? 0) && (data_size >? n) then set_mhd_celi (unmark MHD_EPOLL_STATE_WRITE_READY (mhd_celi u)) u else u)
        | Send_error Err_retry => Some u
        | Send_error Err_again => Some not_ready
        | Send_error Err_other => Some (stop_in (set_in (set_used 0 (in_ not_ready)) not_ready))
        end;
    Some (if (buffer_used (in_ u) =? 0) && has MHD_EPOLL_STATE_ERROR (mhd_celi u)
          then stop_in (set_mhd_celi (unmark MHD_EPOLL_STATE_WRITE_READY (mhd_celi u)) u) else u)
  else Some u.

(** The daemon is stopping: nothing more goes to the remote client. *)
Definition forward_shutdown (u : forward) : forward :=
  if negb (buffer_size (out_ u) =? 0) || negb (buffer_used (out_ u) =? 0) then
    let u := set_out (set_used 0 (out_ u)) u in
    let u := set_app_celi (unmark MHD_EPOLL_STATE_WRITE_READY (app_celi u)) u in
    stop_out u
  else u.

(** The result has the new [data_already_pending] of the daemon when it is
    set. *)
Definition process_urh (shutdown thread_per_connection : bool) (e : calls) (u : forward) : option (forward * bool) :=
  let u := if shutdown then set_was_closed true u else u in
  let closed := was_closed u in
  let u := if closed then forward_closed u else u in
  let u := forward_errors u in
  u ← read_remote e u;
  u ← read_app e closed u;
  u ← write_remote e u;
  u ← write_app e u;
  let pending := tls_read_ready u && (buffer_used (in_ u) <? buffer_size (in_ u)) && negb thread_per_connection in
  Some (if shutdown then forward_shutdown u else u, pending).
End Process.

(** ** Readiness *)

(** The buffers for a connection whose pool has [avail] bytes left, or the
    eight bytes of the handle. *)
Definition RESERVE_EBUF_SIZE : Z := 8.

Definition forward_start (avail : Z) (contents : bytes) : forward :=
  let avail := if avail <? RESERVE_EBUF_SIZE then RESERVE_EBUF_SIZE else avail in
  let in_size := avail / 2 in
  mkForward contents (mkDirection 0 in_size 0 [] []) (mkDirection in_size (avail - in_size) 0 [] [])
    MHD_EPOLL_STATE_UNREADY MHD_EPOLL_STATE_UNREADY false false.

(** For which events the sockets are watched: reading, writing, errors. *)
Record watched := mkWatched { w_read : bool; w_write : bool; w_error : bool }.

(** [urh_to_fdset] for the socket of the connection and that of the pair. *)
Definition urh_to_fdset (u : forward) : watched * watched :=
  (mkWatched (buffer_used (in_ u) <? buffer_size (in_ u)) (negb (buffer_used (out_ u) =? 0))
     (negb (has MHD_EPOLL_STATE_ERROR (app_celi u))
      && (negb (buffer_size (in_ u) =? 0) || negb (buffer_size (out_ u) =? 0) || negb (buffer_used (out_ u) =? 0))),
   mkWatched (buffer_used (out_ u) <? buffer_size (out_ u)) (negb (buffer_used (in_ u) =? 0))
     (negb (has MHD_EPOLL_STATE_ERROR (mhd_celi u))
      && (negb (buffer_size (out_ u) =? 0) || negb (buffer_size (in_ u) =? 0) || negb (buffer_used (in_ u) =? 0)))).

(** [urh_to_pollfd] and [urh_update_pollfd] ask for the same events. *)
Definition urh_update_pollfd (u : forward) : watched * watched := urh_to_fdset u.

Definition reset_ready (s : Z) : Z := unmark MHD_EPOLL_STATE_WRITE_READY (unmark MHD_EPOLL_STATE_READ_READY s).

Definition mark_if (b : bool) (bits s : Z) : Z := if b then mark bits s else s.

(** [urh_from_fdset]: what [select] found. *)
Definition urh_from_fdset (conn mhd : watched) (u : forward) : forward :=
  let ready r s := mark_if (w_error r) MHD_EPOLL_STATE_ERROR (mark_if (w_write r) MHD_EPOLL_STATE_WRITE_READY
                     (mark_if (w_read r) MHD_EPOLL_STATE_READ_READY (reset_ready s))) in
  set_mhd_celi (ready mhd (mhd_celi u)) (set_app_celi (ready conn (app_celi u)) u).

(** The [revents] of [poll]. *)
Record revents := mkRevents { pollin : bool; pollout : bool; pollhup : bool; pollerr : bool }.

Definition READ_WRITE : Z := Z.lor MHD_EPOLL_STATE_READ_READY MHD_EPOLL_STATE_WRITE_READY.

Definition urh_from_pollfd (p0 p1 : revents) (u : forward) : forward :=
  let ready hup err r s := mark_if (pollerr r) err (mark_if (pollhup r) hup (mark_if (pollout r) MHD_EPOLL_STATE_WRITE_READY
                             (mark_if (pollin r) MHD_EPOLL_STATE_READ_READY (reset_ready s)))) in
  set_mhd_celi (ready MHD_EPOLL_STATE_ERROR READ_WRITE p1 (mhd_celi u))
    (set_app_celi (ready READ_WRITE MHD_EPOLL_STATE_ERROR p0 (app_celi u)) u).

(** [is_urh_ready]. *)
Definition forward_done (u : forward) : bool :=
  (buffer_size (in_ u) =? 0) && (buffer_size (out_ u) =? 0) && (buffer_used (in_ u) =? 0) && (buffer_used (out_ u) =? 0).

Definition is_urh_ready (shutdown : bool) (u : forward) : bool :=
  if forward_done u then false
  else
    shutdown
    || ((has MHD_EPOLL_STATE_READ_READY (app_celi u) || tls_read_ready u) && (buffer_used (in_ u) <? buffer_size (in_ u)))
    || (has MHD_EPOLL_STATE_READ_READY (mhd_celi u) && (buffer_used (out_ u) <? buffer_size (out_ u)))
    || (has MHD_EPOLL_STATE_WRITE_READY (app_celi u) && (buffer_used (out_ u) >? 0))
    || (has MHD_EPOLL_STATE_WRITE_READY (mhd_celi u) && (buffer_used (in_ u) >? 0)).

(** An event of [epoll] for one of the two sockets, which adds to what is
    known (the sockets are watched edge-triggered); the flag says that a new
    error was found. *)
Definition epoll_ready (r : revents) (s : Z) : Z * bool :=
  let s := mark_if (pollhup r) READ_WRITE (mark_if (pollout r) MHD_EPOLL_STATE_WRITE_READY
             (mark_if (pollin r) MHD_EPOLL_STATE_READ_READY s)) in
  if negb (has MHD_EPOLL_STATE_ERROR s) && pollerr r then (mark MHD_EPOLL_STATE_ERROR s, true) else (s, false).

(** The handle after the event, and if it goes to the list of ready ones. *)
Definition urh_epoll_event (conn_socket shutdown : bool) (r : revents) (u : forward) : forward * bool :=
  let '(s, new_err_state) := epoll_ready r (if conn_socket then app_celi u else mhd_celi u) in
  let u := if conn_socket then set_app_celi s u else set_mhd_celi s u in
  (u, new_err_state || is_urh_ready shutdown u).

(** ** A thread for the connection

    One round of [thread_main_connection_upgrade]: no room in the sets of
    [select], or the wait was interrupted or failed, or the sockets that are
    ready, the shutdown flag and the calls of [process_urh]. *)
Inductive thread_round :=
  | No_room
  | Wait_interrupted
  | Wait_failed
  | Select_ready (conn mhd : watched) (shutdown : bool) (e : calls)
  | Poll_ready (p0 p1 : revents) (shutdown : bool) (e : calls).

(** The state after the given rounds; the flag says that the loop was left. *)
Fixpoint thread_main_connection_upgrade `{Platform} (max : Z) (rounds : list thread_round) (u : forward) : option (forward * bool) :=
  if forward_done u then Some (u, true)
  else
    match rounds with
    | [] => Some (u, false)
    | No_room :: _ | Wait_failed :: _ => Some (u, true)
    | Wait_interrupted :: rounds => thread_main_connection_upgrade max rounds u
    | Select_ready conn mhd shutdown e :: rounds =>
        '(u, _) ← process_urh max shutdown true e (urh_from_fdset conn mhd u);
        thread_main_connection_upgrade max rounds u
    | Poll_ready p0 p1 shutdown e :: rounds =>
        '(u, _) ← process_urh max shutdown true e (urh_from_pollfd p0 p1 u);
        thread_main_connection_upgrade max rounds u
    end.
