(* ===== verification/ForwardRun.v ===== *)
(** * Forwarding of an upgraded connection: what arrives (libmicrohttpd/src/microhttpd/daemon.c)

    The events of a forwarding as a function on the state, the invariant of
    the two buffers, and the theorems: the bytes that leave a direction are
    those that entered it, in their order; none is dropped without a reason;
    and no direction is forgotten. *)

From S2P Require Import Prelude Forward.

(** ** Events *)

Inductive forward_input :=
  | Select (conn mhd : watched)
  | Poll (p0 p1 : revents)
  | Epoll (conn_socket : bool) (r : revents)
  | Close
  | Process (shutdown thread_per_connection : bool) (e : calls).

Section Run.
Context `{Platform} (max : Z).

(** [max] is [MHD_SCKT_SEND_MAX_SIZE_]. *)
Definition forward_event (u : forward) (ev : forward_input) : option forward :=
  match ev with
  | Select conn mhd => Some (urh_from_fdset conn mhd u)
  | Poll p0 p1 => Some (urh_from_pollfd p0 p1 u)
  | Epoll side r => Some (urh_epoll_event side false r u).1
  | Close => Some (set_was_closed true u)
  | Process shutdown tpc e => '(u', _) ← process_urh max shutdown tpc e u; Some u'
  end.

Fixpoint forward_run (u : forward) (evs : list forward_input) : option forward :=
  match evs with
  | [] => Some u
  | ev :: evs => u' ← forward_event u ev; forward_run u' evs
  end.
End Run.

(** The contracts of the calls: a read gives at least one byte and no more
    than asked for, a write takes at least one and no more than given. *)
Record obeys (e : calls) : Prop := {
  tls_recv_obeys : forall n bs, 0 < n -> gnutls_record_recv e n = Tls_data bs -> 0 < Z.of_nat (length bs) <= n;
  recv_obeys : forall n bs, 0 < n -> MHD_recv_ e n = Received bs -> 0 < Z.of_nat (length bs) <= n;
  tls_send_obeys : forall data n, data ≠ [] -> gnutls_record_send e data = Tls_count n -> 0 < n <= Z.of_nat (length data);
  send_obeys : forall data n, data ≠ [] -> MHD_send_ e data = Sent n -> 0 < n <= Z.of_nat (length data)
}.

(** No call was interrupted or short of memory. *)
Record uninterrupted (e : calls) : Prop := {
  tls_recv_unint : forall n, gnutls_record_recv e n ≠ Tls_recv_interrupted;
  recv_unint : forall n, MHD_recv_ e n ≠ Receive_error Err_retry;
  tls_send_unint : forall data, gnutls_record_send e data ≠ Tls_send_interrupted;
  send_unint : forall data, MHD_send_ e data ≠ Send_error Err_retry
}.

Definition input_obeys (ev : forward_input) : Prop :=
  match ev with Process _ _ e => obeys e | _ => True end.

(** The reasons for which bytes for the application, and for the remote
    client, may be dropped. *)
Definition drops_in (ev : forward_input) : Prop :=
  match ev with
  | Close => True
  | Process shutdown _ e => shutdown = true \/ ∃ data, MHD_send_ e data = Send_error Err_other
  | _ => False
  end.

Definition drops_out (ev : forward_input) : Prop :=
  match ev with
  | Process shutdown _ e => shutdown = true \/ ∃ data, gnutls_record_send e data = Tls_send_failed
  | _ => False
  end.

(** ** The invariant *)

(** A direction with a buffer of [cap] bytes: what was taken is what was
    given, what is in the buffer, and what was dropped, the latter only for
    one of the reasons [l] and when the direction has ended. *)
Definition relayed (l : Prop) (cap : Z) (b : bytes) (d : direction) : Prop :=
  (buffer_size d = cap \/ buffer_size d = 0) /\ 0 <= buffer_used d <= cap
  /\ ∃ queue dropped, mem_read b (buffer d) (buffer_used d) = Some queue
     /\ taken d = given d ++ queue ++ dropped
     /\ (dropped = [] \/ l /\ buffer_size d = 0 /\ buffer_used d = 0).

Record forwarding `{Platform} (li lo : Prop) (cin cout : Z) (u : forward) : Prop := {
  in_at : buffer (in_ u) = 0;
  out_at : buffer (out_ u) = cin;
  caps : 0 < cin /\ 0 < cout /\ cin + cout = Z.of_nat (length (buf u)) /\ cin + cout <= SIZE_MAX;
  in_relayed : relayed li cin (buf u) (in_ u);
  out_relayed : relayed lo cout (buf u) (out_ u);
  closed_reason : was_closed u = true -> li
}.

Section Directions.
Context `{Platform}.

Lemma relayed_weaken (l l' : Prop) cap b d : (l -> l') -> relayed l cap b d -> relayed l' cap b d.
Proof. intros Hl (Hs & Hu & q & r & Hq & Ht & Hr). split_and!; [done|lia..|]. exists q, r. split_and!; [done..|]. tauto. Qed.

Lemma relayed_same l cap b b' d :
  relayed l cap b d -> mem_read b' (buffer d) (buffer_used d) = mem_read b (buffer d) (buffer_used d) ->
  relayed l cap b' d.
Proof. intros (Hs & Hu & q & r & Hq & Hrest) E. split_and!; [done|lia..|]. exists q, r. rewrite E. by split. Qed.

Lemma relayed_stop l cap b d : relayed l cap b d -> relayed l cap b (set_size 0 d).
Proof. intros (Hs & Hu & q & r & Hq & Ht & Hr). split_and!; simpl; [tauto|lia..|]. exists q, r. split_and!; [done..|]. tauto. Qed.

Lemma relayed_drop (l : Prop) cap b d :
  l -> 0 <= buffer d -> buffer d + cap <= Z.of_nat (length b) -> relayed l cap b d -> relayed l cap b (set_size 0 (set_used 0 d)).
Proof.
  intros Hl Hb Hc (Hs & Hu & q & r & Hq & Ht & Hr). split_and!; simpl; [tauto|lia..|].
  destruct (mem_read_Some b (buffer d) 0) as ([|] & E & Hz); [lia..| |simpl in Hz; lia].
  exists [], (q ++ r). split_and!; [done|done|]. tauto.
Qed.

(** Reading into the buffer behind the bytes it has. *)
Lemma relayed_receive l cap b d bs :
  0 <= buffer d -> buffer d + cap <= Z.of_nat (length b) -> cap <= SIZE_MAX ->
  relayed l cap b d -> buffer_used d < buffer_size d -> Z.of_nat (length bs) <= buffer_size d - buffer_used d ->
  ∃ b', mem_write b (buffer d + buffer_used d) bs = Some b' /\ length b' = length b
    /\ relayed l cap b' (set_taken bs (set_used (usize (buffer_used d + Z.of_nat (length bs))) d))
    /\ (forall o n, o + n <= buffer d \/ buffer d + cap <= o -> mem_read b' o n = mem_read b o n).
Proof.
  intros Hb Hc Hm (Hs & Hu & q & r & Hq & Ht & Hr) Hlt Hl.
  destruct (mem_write_Some b (buffer d + buffer_used d) bs) as (b' & E & Hl'); [lia..|].
  exists b'. split_and!; [done|done| |].
  2:{ intros o n Ho. apply (mem_write_other _ _ _ _ _ _ E). lia. }
  destruct Hr as [->|Hr]; [|lia].
  split_and!; simpl; rewrite ?usize_small by lia; [done|lia..|].
  exists (q ++ bs), []. split_and!; [|by rewrite Ht, !app_nil_r, app_assoc|by left].
  apply mem_read_append; [|by apply (mem_write_read b)].
  rewrite (mem_write_other _ _ _ _ _ _ E) by lia. done.
Qed.

(** The bytes that were sent leave the front of the buffer. *)
Lemma relayed_advance l cap b d k data n :
  0 <= buffer d -> buffer d + cap <= Z.of_nat (length b) -> cap <= SIZE_MAX ->
  relayed l cap b d -> k <= buffer_used d -> mem_read b (buffer d) k = Some data -> 0 < n <= k ->
  ∃ b' d', advance b d data n = Some (b', d') /\ length b' = length b /\ relayed l cap b' d'
    /\ buffer d' = buffer d /\ buffer_size d' = buffer_size d /\ taken d' = taken d
    /\ given d' = given d ++ take (Z.to_nat n) data
    /\ (forall o m, o + m <= buffer d \/ buffer d + cap <= o -> mem_read b' o m = mem_read b o m).
Proof.
  intros Hb Hc Hm (Hs & Hu & q & r & Hq & Ht & Hr) Hk Hd Hn.
  destruct Hr as [->|Hr]; [|lia]. rewrite app_nil_r in Ht. pose proof (mem_read_length _ _ _ _ Hq) as Lq.
  assert (take (Z.to_nat n) data = take (Z.to_nat n) q) as Ed.
  { assert (data = take (Z.to_nat k) q) as ->.
    { unfold mem_read in Hd, Hq. destruct (in_object b (buffer d) k), (in_object b (buffer d) (buffer_used d)); try done.
      injection Hd as <-. injection Hq as <-. rewrite take_take. f_equal. lia. }
    rewrite take_take. f_equal. lia. }
  pose proof (mem_read_drop _ _ _ _ (Z.to_nat n) Hq ltac:(lia)) as Hrest. rewrite Z2Nat.id in Hrest by lia.
  unfold advance. rewrite usize_small by lia.
  assert (∃ b', (if negb (buffer_used d - n =? 0) then memmove b (buffer d) (buffer d + n) (buffer_used d - n) else Some b) = Some b'
    /\ length b' = length b /\ mem_read b' (buffer d) (buffer_used d - n) = Some (drop (Z.to_nat n) q)
    /\ forall o m, o + m <= buffer d \/ buffer d + cap <= o -> mem_read b' o m = mem_read b o m) as (b' & E & Lb & Rb & Ob).
  { destruct (Z.eqb_spec (buffer_used d - n) 0) as [Ez|]; simpl.
    - exists b. split_and!; [done..| |done]. rewrite Ez. destruct (mem_read_Some b (buffer d) 0) as ([|] & -> & Hz); [lia..| |simpl in Hz; lia].
      f_equal. symmetry. apply drop_ge. lia.
    - destruct (memmove_Some b (buffer d) (buffer d + n) (buffer_used d - n)) as (b' & E & Lb & Rb & Ob); [lia..|].
      exists b'. split_and!; [done|done|by rewrite Rb|]. intros o m Hom. apply Ob. lia. }
  rewrite E. cbn [mbind option_bind]. eexists _, _. split_and!; [done|done| |done..|done].
  split_and!; simpl; [done|lia..|]. exists (drop (Z.to_nat n) q), []. split_and!; [done| |by left].
  by rewrite Ht, Ed, <- app_assoc, app_nil_r, take_drop.
Qed.
End Directions.

(** ** One call of [process_urh] *)

(** The number of bytes moved so far. *)
Definition moved (u : forward) : nat :=
  (length (taken (in_ u)) + length (given (in_ u)) + length (taken (out_ u)) + length (given (out_ u)))%nat.

(** The four things that may be left to do. *)
Definition to_read_remote (u : forward) : bool :=
  (has MHD_EPOLL_STATE_READ_READY (app_celi u) || tls_read_ready u) && (buffer_used (in_ u) <? buffer_size (in_ u)).
Definition to_read_app (u : forward) : bool :=
  has MHD_EPOLL_STATE_READ_READY (mhd_celi u) && (buffer_used (out_ u) <? buffer_size (out_ u)).
Definition to_write_remote (u : forward) : bool :=
  has MHD_EPOLL_STATE_WRITE_READY (app_celi u) && (buffer_used (out_ u) >? 0).
Definition to_write_app (u : forward) : bool :=
  has MHD_EPOLL_STATE_WRITE_READY (mhd_celi u) && (buffer_used (in_ u) >? 0).

(** No more is to do than before. *)
Definition calmer (u u' : forward) : Prop :=
  (to_read_remote u' = true -> to_read_remote u = true) /\ (to_read_app u' = true -> to_read_app u = true)
  /\ (to_write_remote u' = true -> to_write_remote u = true) /\ (to_write_app u' = true -> to_write_app u = true).

Lemma calmer_trans u v w : calmer u v -> calmer v w -> calmer u w.
Proof. unfold calmer. tauto. Qed.

Lemma has_unmark_other a b s : Z.land a b = 0 -> has a (unmark b s) = has a s.
Proof.
  intros E. unfold has, unmark. do 2 f_equal. apply Z.bits_inj'. intros i Hi. rewrite !Z.land_spec, Z.ldiff_spec.
  apply (f_equal (λ z, Z.testbit z i)) in E. rewrite Z.land_spec, Z.bits_0 in E.
  by destruct (Z.testbit a i), (Z.testbit b i), (Z.testbit s i).
Qed.

Lemma has_unmark_same a s : has a (unmark a s) = false.
Proof.
  unfold has, unmark. replace (Z.land a (Z.ldiff s a)) with 0; [done|]. apply Z.bits_inj'. intros i Hi.
  rewrite Z.land_spec, Z.ldiff_spec, Z.bits_0. by destruct (Z.testbit a i), (Z.testbit s i).
Qed.

Section Phases.
Context `{Platform} (max : Z) (Hmax : 0 < max) (li lo : Prop) (cin cout : Z).

Abbreviation forwarding := (forwarding li lo cin cout).

(** What a part of [process_urh] guarantees, with the thing it is to do. *)
Definition phase (left : forward -> bool) (calm : Prop) (u u' : forward) : Prop :=
  forwarding u' /\ was_closed u' = was_closed u /\ (moved u <= moved u')%nat
  /\ (calm -> (moved u < moved u')%nat \/ calmer u u' /\ left u' = false).

Lemma forwarding_in u u' b' d' :
  forwarding u -> length b' = length (buf u) -> relayed li cin b' d' -> buffer d' = buffer (in_ u) ->
  (forall o n, o + n <= buffer (in_ u) \/ buffer (in_ u) + cin <= o -> mem_read b' o n = mem_read (buf u) o n) ->
  buf u' = b' -> in_ u' = d' -> out_ u' = out_ u -> was_closed u' = was_closed u -> forwarding u'.
Proof.
  intros [Hi Ho Hc Hin Hout Hw] Hl Hd Hbd Hother Eb Ed Eo Ew.
  constructor; rewrite ?Eb, ?Ed, ?Eo, ?Ew, ?Hl; [congruence|done..| |done].
  apply (relayed_same _ _ (buf u)); [done|]. apply Hother. lia.
Qed.

Lemma forwarding_out u u' b' d' :
  forwarding u -> length b' = length (buf u) -> relayed lo cout b' d' -> buffer d' = buffer (out_ u) ->
  (forall o n, o + n <= buffer (out_ u) \/ buffer (out_ u) + cout <= o -> mem_read b' o n = mem_read (buf u) o n) ->
  buf u' = b' -> in_ u' = in_ u -> out_ u' = d' -> was_closed u' = was_closed u -> forwarding u'.
Proof.
  intros [Hi Ho Hc Hin Hout Hw] Hl Hd Hbd Hother Eb Ed Eo Ew.
  constructor; rewrite ?Eb, ?Ed, ?Eo, ?Ew, ?Hl; [done|congruence|done| |done..].
  apply (relayed_same _ _ (buf u)); [done|]. apply Hother. destruct Hin as (_ & Hu & _). lia.
Qed.

(** What is left to do depends on few members, whose marks are known. *)
Lemma forwarding_bounds u :
  forwarding u ->
  0 <= buffer_used (in_ u) <= cin /\ 0 <= buffer_used (out_ u) <= cout
  /\ 0 <= buffer_size (in_ u) <= SIZE_MAX /\ 0 <= buffer_size (out_ u) <= SIZE_MAX.
Proof. intros [? ? Hc (Hi & ? & _) (Ho & ? & _) _]. lia. Qed.

Lemma forwarding_same u u' :
  forwarding u -> buf u' = buf u -> in_ u' = in_ u -> out_ u' = out_ u -> was_closed u' = was_closed u -> forwarding u'.
Proof. intros [Hi Ho Hc Hin Hout Hw] E1 E2 E3 E4. constructor; rewrite ?E1, ?E2, ?E3, ?E4; done. Qed.

Lemma forwarding_stop_in u u' :
  forwarding u -> buf u' = buf u -> in_ u' = set_size 0 (in_ u) -> out_ u' = out_ u -> was_closed u' = was_closed u -> forwarding u'.
Proof. intros Hf E1 E2 E3 E4. eapply (forwarding_in u u' (buf u) (set_size 0 (in_ u))); try done. apply relayed_stop, (in_relayed _ _ _ _ _ Hf). Qed.

Lemma forwarding_stop_out u u' :
  forwarding u -> buf u' = buf u -> in_ u' = in_ u -> out_ u' = set_size 0 (out_ u) -> was_closed u' = was_closed u -> forwarding u'.
Proof. intros Hf E1 E2 E3 E4. eapply (forwarding_out u u' (buf u) (set_size 0 (out_ u))); try done. apply relayed_stop, (out_relayed _ _ _ _ _ Hf). Qed.

Lemma forwarding_drop_in u u' :
  forwarding u -> li -> buf u' = buf u -> in_ u' = set_size 0 (set_used 0 (in_ u)) -> out_ u' = out_ u ->
  was_closed u' = was_closed u -> forwarding u'.
Proof.
  intros Hf Hl E1 E2 E3 E4. eapply (forwarding_in u u' (buf u) (set_size 0 (set_used 0 (in_ u)))); try done.
  destruct Hf as [? ? Hc ? _ _]. apply relayed_drop; [done|lia..|done].
Qed.

Lemma forwarding_drop_out u u' :
  forwarding u -> lo -> buf u' = buf u -> in_ u' = in_ u -> out_ u' = set_size 0 (set_used 0 (out_ u)) ->
  was_closed u' = was_closed u -> forwarding u'.
Proof.
  intros Hf Hl E1 E2 E3 E4. eapply (forwarding_out u u' (buf u) (set_size 0 (set_used 0 (out_ u)))); try done.
  destruct Hf as [? ? Hc _ ? _]. apply relayed_drop; [done|lia..|done].
Qed.
End Phases.

(** Solves goals on what is left to do after marks were changed. *)
Ltac left_to_do :=
  unfold calmer, to_read_remote, to_read_app, to_write_remote, to_write_app, set_size, set_used; simpl;
  repeat first [rewrite has_unmark_same | rewrite has_unmark_other by reflexivity];
  rewrite ?andb_true_iff, ?andb_false_iff, ?orb_true_iff, ?orb_false_iff, ?Z.gtb_ltb, ?Z.ltb_lt, ?Z.ltb_ge;
  intuition (try done; try lia).

Ltac moves := unfold moved; simpl; rewrite ?length_app; lia.

Section Process.
Context `{Platform} (max : Z) (Hmax : 0 < max) (li lo : Prop) (cin cout : Z).

Abbreviation forwarding := (forwarding li lo cin cout).
Abbreviation phase := (phase li lo cin cout).

Lemma read_remote_ok e u :
  forwarding u -> obeys e -> ∃ u', read_remote e u = Some u' /\ phase to_read_remote (uninterrupted e) u u'.
Proof using Type.
  intros Hf He. pose proof (forwarding_bounds _ _ _ _ _ Hf) as Hb. unfold read_remote. fold (to_read_remote u).
  destruct (to_read_remote u) eqn:Ew; [|by eexists; split; [done|]; split_and!; [done..|right; split; [split_and!; done|done]]].
  assert (buffer_used (in_ u) < buffer_size (in_ u)) as Hlt.
  { unfold to_read_remote in Ew. rewrite andb_true_iff, Z.ltb_lt in Ew. tauto. }
  rewrite usize_small by lia. set (n := Z.min _ _).
  assert (0 < n <= buffer_size (in_ u) - buffer_used (in_ u)) as Hn.
  { pose proof SSIZE_MAX_pos. lia. }
  destruct (gnutls_record_recv e n) as [bs| | |] eqn:Er; cbn [mbind option_bind].
  - pose proof (tls_recv_obeys e He n bs ltac:(lia) Er) as Hbs.
    destruct (relayed_receive li cin (buf u) (in_ u) bs) as (b' & Ew' & Lb & Hr & Ho);
      [destruct Hf; lia..|apply Hf|lia|lia|].
    simpl in Ew' |- *. rewrite Ew'. cbn [mbind option_bind]. eexists; split; [done|].
    match goal with |- phase _ _ _ (if ?c then _ else _) => set (stop := c); clearbody stop end.
    destruct (n >? _), (gnutls_record_check_pending e), stop; (split_and!;
      [eapply (forwarding_in _ _ _ _ u _ b'); [done|done| | |done|reflexivity..]; [try apply relayed_stop; done|done]
      |reflexivity|moves|left; moves]).
  - eexists; split; [done|]. match goal with |- phase _ _ _ (if ?c then _ else _) => destruct c end;
      (split_and!; [first [by eapply forwarding_stop_in|by eapply forwarding_same]|done|moves|right; split; left_to_do]).
  - eexists; split; [done|]. match goal with |- phase _ _ _ (if ?c then _ else _) => destruct c end;
      (split_and!; [first [by eapply forwarding_stop_in|by eapply forwarding_same]|done|moves|intros Hc; by destruct (tls_recv_unint e Hc n)]).
  - eexists; split; [done|]. match goal with |- phase _ _ _ (if ?c then _ else _) => destruct c end;
      (split_and!; [by eapply forwarding_stop_in|done|moves|right; split; left_to_do]).
Qed.

Lemma read_app_ok e closed u :
  forwarding u -> obeys e -> ∃ u', read_app max e closed u = Some u' /\ phase to_read_app (uninterrupted e) u u'.
Proof using Hmax.
  intros Hf He. pose proof (forwarding_bounds _ _ _ _ _ Hf) as Hb. unfold read_app. fold (to_read_app u).
  destruct (to_read_app u) eqn:Ew; [|by eexists; split; [done|]; split_and!; [done..|right; split; [split_and!; done|done]]].
  assert (buffer_used (out_ u) < buffer_size (out_ u)) as Hlt.
  { unfold to_read_app in Ew. rewrite andb_true_iff, Z.ltb_lt in Ew. tauto. }
  rewrite usize_small by lia. set (n := Z.min _ _).
  assert (0 < n <= buffer_size (out_ u) - buffer_used (out_ u)) as Hn by lia.
  destruct (MHD_recv_ e n) as [bs| |err] eqn:Er; cbn [mbind option_bind].
  - pose proof (recv_obeys e He n bs ltac:(lia) Er) as Hbs.
    destruct (relayed_receive lo cout (buf u) (out_ u) bs) as (b' & Ew' & Lb & Hr & Ho);
      [destruct Hf; lia..|apply Hf|lia|lia|].
    rewrite Ew'. cbn [mbind option_bind]. eexists; split; [done|].
    match goal with |- phase _ _ _ (if ?c then _ else _) => set (stop := c); clearbody stop end.
    destruct (n >? _), stop; (split_and!;
      [eapply (forwarding_out _ _ _ _ u _ b'); [done|done| | |done|reflexivity..]; [try apply relayed_stop; done|done]
      |reflexivity|moves|left; moves]).
  - eexists; split; [done|]. match goal with |- phase _ _ _ (if ?c then _ else _) => destruct c end;
      (split_and!; [by eapply forwarding_stop_out|done|moves|right; split; left_to_do]).
  - destruct err; cbn [mbind option_bind]; (eexists; split; [done|]);
      repeat match goal with |- context [if ?c then _ else _] => destruct c end;
      (split_and!; [first [by eapply forwarding_stop_out|by eapply forwarding_same]|done|moves
         |first [intros Hc; by destruct (recv_unint e Hc n)|right; split; left_to_do]]).
Qed.

Lemma write_remote_ok e u :
  forwarding u -> obeys e -> ((∃ data, gnutls_record_send e data = Tls_send_failed) -> lo) ->
  ∃ u', write_remote e u = Some u' /\ phase to_write_remote (uninterrupted e) u u'.
Proof using Type.
  intros Hf He Hlo. pose proof (forwarding_bounds _ _ _ _ _ Hf) as Hb. unfold write_remote. fold (to_write_remote u).
  destruct (to_write_remote u) eqn:Ew; [|by eexists; split; [done|]; split_and!; [done..|right; split; [split_and!; done|done]]].
  assert (0 < buffer_used (out_ u)) as Hlt.
  { unfold to_write_remote in Ew. rewrite andb_true_iff, Z.gtb_ltb, Z.ltb_lt in Ew. tauto. }
  pose proof SSIZE_MAX_pos. set (k := Z.min _ _). assert (0 < k <= buffer_used (out_ u)) as Hk by lia.
  destruct (mem_read_Some (buf u) (buffer (out_ u)) k) as (data & Ed & Ld); [destruct Hf; lia..|].
  rewrite Ed. cbn [mbind option_bind].
  destruct (gnutls_record_send e data) as [n| | |] eqn:Er; cbn [mbind option_bind].
  - pose proof (tls_send_obeys e He data n ltac:(intros ->; simpl in Ld; lia) Er) as Hn.
    destruct (relayed_advance lo cout (buf u) (out_ u) k data n) as (b' & d' & Ea & Lb & Hr & Eb & Es & Et & Eg & Ho);
      [destruct Hf; lia..|apply Hf|lia|done|lia|].
    rewrite Ea. cbn [mbind option_bind]. eexists; split; [done|].
    assert (length (given d') = (length (given (out_ u)) + Z.to_nat n)%nat) as Lg by (rewrite Eg, length_app, length_take; lia).
    match goal with |- phase _ _ _ (if ?c then _ else _) => set (stop := c); clearbody stop end.
    assert (forall u' d'', in_ u' = in_ u -> out_ u' = d'' -> taken d'' = taken d' -> given d'' = given d' -> (moved u < moved u')%nat)
      as Hmv by (intros u' ? E1 E2 E3 E4; unfold moved; rewrite E1, E2, E3, E4, Lg, Et; lia).
    destruct (negb _ && _), stop; (split_and!;
      [eapply (forwarding_out _ _ _ _ u _ b'); [done|done| | |done|reflexivity..]; [try apply relayed_stop; done|done]
      |reflexivity|apply Nat.lt_le_incl; by eapply Hmv|left; by eapply Hmv]).
  - eexists; split; [done|]. match goal with |- phase _ _ _ (if ?c then _ else _) => destruct c end;
      (split_and!; [first [by eapply forwarding_stop_out|by eapply forwarding_same]|done|moves|right; split; left_to_do]).
  - eexists; split; [done|]. match goal with |- phase _ _ _ (if ?c then _ else _) => destruct c end;
      (split_and!; [first [by eapply forwarding_stop_out|by eapply forwarding_same]|done|moves|intros Hc; by destruct (tls_send_unint e Hc data)]).
  - assert lo by eauto. eexists; split; [done|]. match goal with |- phase _ _ _ (if ?c then _ else _) => destruct c end;
      (split_and!; [by eapply forwarding_drop_out|done|moves|right; split; left_to_do]).
Qed.

Lemma write_app_ok e u :
  forwarding u -> obeys e -> ((∃ data, MHD_send_ e data = Send_error Err_other) -> li) ->
  ∃ u', write_app max e u = Some u' /\ phase to_write_app (uninterrupted e) u u'.
Proof using Hmax.
  intros Hf He Hli. pose proof (forwarding_bounds _ _ _ _ _ Hf) as Hb. unfold write_app. fold (to_write_app u).
  destruct (to_write_app u) eqn:Ew; [|by eexists; split; [done|]; split_and!; [done..|right; split; [split_and!; done|done]]].
  assert (0 < buffer_used (in_ u)) as Hlt.
  { unfold to_write_app in Ew. rewrite andb_true_iff, Z.gtb_ltb, Z.ltb_lt in Ew. tauto. }
  set (k := Z.min _ _). assert (0 < k <= buffer_used (in_ u)) as Hk by lia.
  destruct (mem_read_Some (buf u) (buffer (in_ u)) k) as (data & Ed & Ld); [destruct Hf; lia..|].
  rewrite Ed. cbn [mbind option_bind].
  destruct (MHD_send_ e data) as [n|err] eqn:Er; cbn [mbind option_bind].
  - pose proof (send_obeys e He data n ltac:(intros ->; simpl in Ld; lia) Er) as Hn.
    destruct (relayed_advance li cin (buf u) (in_ u) k data n) as (b' & d' & Ea & Lb & Hr & Eb & Es & Et & Eg & Ho);
      [destruct Hf; lia..|apply Hf|lia|done|lia|].
    rewrite Ea. cbn [mbind option_bind]. eexists; split; [done|].
    assert (length (given d') = (length (given (in_ u)) + Z.to_nat n)%nat) as Lg by (rewrite Eg, length_app, length_take; lia).
    match goal with |- phase _ _ _ (if ?c then _ else _) => set (stop := c); clearbody stop end.
    assert (forall u' d'', out_ u' = out_ u -> in_ u' = d'' -> taken d'' = taken d' -> given d'' = given d' -> (moved u < moved u')%nat)
      as Hmv by (intros u' ? E1 E2 E3 E4; unfold moved; rewrite E1, E2, E3, E4, Lg, Et; lia).
    destruct (negb _ && _), stop; (split_and!;
      [eapply (forwarding_in _ _ _ _ u _ b'); [done|done| | |done|reflexivity..]; [try apply relayed_stop; done|done]
      |reflexivity|apply Nat.lt_le_incl; by eapply Hmv|left; by eapply Hmv]).
  - assert (err = Err_other -> li) by (intros ->; eauto).
    destruct err; cbn [mbind option_bind]; (eexists; split; [done|]);
      match goal with |- phase _ _ _ (if ?c then _ else _) => destruct c end;
      (split_and!; [first [by eapply forwarding_stop_in|by eapply forwarding_same|by eapply forwarding_drop_in; eauto]|done|moves
         |first [intros Hc; by destruct (send_unint e Hc data)|right; split; left_to_do]]).
Qed.

(** *** The parts at both ends *)

Lemma forward_closed_ok u :
  forwarding u -> li ->
  forwarding (forward_closed u) /\ moved (forward_closed u) = moved u
  /\ buffer_size (in_ (forward_closed u)) = 0 /\ buffer_used (in_ (forward_closed u)) = 0.
Proof using Type.
  intros Hf Hl. unfold forward_closed. destruct (negb (buffer_size (out_ u) =? 0)); (split_and!; [|done..]); by eapply forwarding_drop_in.
Qed.

Lemma forward_errors_ok u :
  forwarding u -> forwarding (forward_errors u) /\ moved (forward_errors u) = moved u /\ in_ (forward_errors u) = in_ u.
Proof using Type.
  intros Hf. unfold forward_errors. destruct (has MHD_EPOLL_STATE_ERROR (app_celi u)); simpl;
    match goal with |- context [if ?c then _ else _] => destruct c end; (split_and!; [|done..]); by eapply forwarding_same.
Qed.

Lemma forward_shutdown_ok u :
  forwarding u -> lo ->
  forwarding (forward_shutdown u) /\ moved (forward_shutdown u) = moved u /\ calmer u (forward_shutdown u)
  /\ in_ (forward_shutdown u) = in_ u
  /\ buffer_size (out_ (forward_shutdown u)) = 0 /\ buffer_used (out_ (forward_shutdown u)) = 0.
Proof using Type.
  intros Hf Hl. pose proof (forwarding_bounds _ _ _ _ _ Hf). unfold forward_shutdown.
  destruct (Z.eqb_spec (buffer_size (out_ u)) 0), (Z.eqb_spec (buffer_used (out_ u)) 0); simpl;
    (split_and!; [first [done|by eapply forwarding_drop_out]|first [done|moves]|left_to_do|done|done|done]).
Qed.

(** What goes to the remote client does not touch the other direction. *)
Lemma read_app_in e closed u u' : read_app max e closed u = Some u' -> in_ u' = in_ u.
Proof using Type.
  unfold read_app. destruct (_ && _); [|by intros [= <-]]. intros E. inv_bind.
  match goal with |- context [if ?c then _ else _] => destruct c end;
    repeat case_match; inv_bind; repeat case_match; done.
Qed.

Lemma write_remote_in e u u' : write_remote e u = Some u' -> in_ u' = in_ u.
Proof using Type.
  unfold write_remote. destruct (_ && _); [|by intros [= <-]]. intros E. inv_bind.
  match goal with |- context [if ?c then _ else _] => destruct c end;
    repeat case_match; inv_bind; repeat case_match; inv_bind; done.
Qed.

Lemma is_urh_ready_calm u :
  to_read_remote u = false -> to_read_app u = false -> to_write_remote u = false -> to_write_app u = false ->
  is_urh_ready false u = false.
Proof using Type.
  unfold is_urh_ready. intros E1 E2 E3 E4.
  fold (to_read_remote u) (to_read_app u) (to_write_remote u) (to_write_app u). rewrite E1, E2, E3, E4. by destruct (forward_done u).
Qed.

(** *** The four parts in their order *)

Lemma forward_parts_ok e closed u :
  forwarding u -> obeys e ->
  ((∃ data, MHD_send_ e data = Send_error Err_other) -> li) ->
  ((∃ data, gnutls_record_send e data = Tls_send_failed) -> lo) ->
  ∃ u1 u2 u3 u4, read_remote e u = Some u1 /\ read_app max e closed u1 = Some u2
    /\ write_remote e u2 = Some u3 /\ write_app max e u3 = Some u4
    /\ forwarding u4 /\ (moved u <= moved u4)%nat
    /\ (uninterrupted e -> (moved u < moved u4)%nat
         \/ to_read_remote u4 = false /\ to_read_app u4 = false /\ to_write_remote u4 = false /\ to_write_app u4 = false).
Proof using Hmax.
  intros Hf He Hli Hlo.
  destruct (read_remote_ok e u Hf He) as (u1 & E1 & F1 & _ & M1 & C1).
  destruct (read_app_ok e closed u1 F1 He) as (u2 & E2 & F2 & _ & M2 & C2).
  destruct (write_remote_ok e u2 F2 He Hlo) as (u3 & E3 & F3 & _ & M3 & C3).
  destruct (write_app_ok e u3 F3 He Hli) as (u4 & E4 & F4 & _ & M4 & C4).
  exists u1, u2, u3, u4. split_and!; [done..|lia|]. intros Hc.
  destruct (C1 Hc) as [|[Q1 Z1]]; [left; lia|]. destruct (C2 Hc) as [|[Q2 Z2]]; [left; lia|].
  destruct (C3 Hc) as [|[Q3 Z3]]; [left; lia|]. destruct (C4 Hc) as [|[Q4 Z4]]; [left; lia|].
  right. unfold calmer in *. rewrite <- !not_true_iff_false in *. tauto.
Qed.

(** An ended direction is left alone. *)
Lemma forward_parts_in e closed u u1 u2 u3 u4 :
  buffer_size (in_ u) = 0 -> buffer_used (in_ u) = 0 ->
  read_remote e u = Some u1 -> read_app max e closed u1 = Some u2 -> write_remote e u2 = Some u3 -> write_app max e u3 = Some u4 ->
  in_ u4 = in_ u.
Proof using Type.
  intros Hs Hu E1 E2 E3 E4. unfold read_remote in E1. rewrite Hs, Hu, andb_false_r in E1. injection E1 as <-.
  pose proof (read_app_in _ _ _ _ E2) as I2. pose proof (write_remote_in _ _ _ E3) as I3.
  unfold write_app in E4. rewrite I3, I2, Hu, andb_false_r in E4. injection E4 as <-. congruence.
Qed.

Lemma process_urh_ok shutdown tpc e u :
  forwarding u -> obeys e ->
  (shutdown = true \/ (∃ data, MHD_send_ e data = Send_error Err_other) -> li) ->
  (shutdown = true \/ (∃ data, gnutls_record_send e data = Tls_send_failed) -> lo) ->
  ∃ u' pending, process_urh max shutdown tpc e u = Some (u', pending)
    /\ forwarding u' /\ (moved u <= moved u')%nat
    /\ (uninterrupted e -> (moved u < moved u')%nat \/ is_urh_ready false u' = false /\ pending = false)
    /\ (shutdown = true -> forward_done u' = true).
Proof using Hmax.
  intros Hf He Hli Hlo. unfold process_urh.
  set (u0 := if shutdown then set_was_closed true u else u).
  assert (forwarding u0 /\ moved u0 = moved u) as [F0 M0].
  { unfold u0. destruct shutdown; [|done]. split; [|done]. destruct Hf. constructor; simpl; [done..|by auto]. }
  assert (was_closed u0 = true -> li) as Hcl by apply (closed_reason _ _ _ _ _ F0).
  set (v0 := if was_closed u0 then forward_closed u0 else u0).
  assert (forwarding v0 /\ moved v0 = moved u
    /\ (was_closed u0 = true -> buffer_size (in_ v0) = 0 /\ buffer_used (in_ v0) = 0)) as (F1 & M1 & Z1).
  { unfold v0. destruct (was_closed u0) eqn:Ec; [|by split_and!].
    destruct (forward_closed_ok u0 F0 ltac:(auto)) as (? & ? & ? & ?). split_and!; [done|congruence|done]. }
  destruct (forward_errors_ok v0 F1) as (F2 & M2 & I2).
  destruct (forward_parts_ok e (was_closed u0) (forward_errors v0) F2 He ltac:(auto) ltac:(auto))
    as (u1 & u2 & u3 & u4 & E1 & E2 & E3 & E4 & F4 & M4 & C4).
  rewrite E1. cbn [mbind option_bind]. rewrite E2. cbn [mbind option_bind]. rewrite E3. cbn [mbind option_bind].
  rewrite E4. cbn [mbind option_bind]. eexists _, _. split; [done|].
  assert (uninterrupted e -> (moved u < moved u4)%nat \/
    is_urh_ready false u4 = false /\ tls_read_ready u4 && (buffer_used (in_ u4) <? buffer_size (in_ u4)) = false
    /\ to_read_remote u4 = false /\ to_read_app u4 = false /\ to_write_remote u4 = false /\ to_write_app u4 = false) as C5.
  { intros Hc. destruct (C4 Hc) as [|(A & B & C & D)]; [left; lia|]. right. split_and!; [by apply is_urh_ready_calm| |done..].
    unfold to_read_remote in A. by destruct (has _ (app_celi u4)), (tls_read_ready u4), (_ <? _). }
  destruct shutdown eqn:Es.
  - destruct (forward_shutdown_ok u4 F4 ltac:(auto)) as (F5 & M5 & Q5 & I5 & S5 & U5). split_and!; [done|lia| |].
    + intros Hc. destruct (C5 Hc) as [|(_ & P & A & B & C & D)]; [left; lia|]. right. split; [|by rewrite P].
      unfold calmer in Q5. rewrite <- not_true_iff_false in A, B, C, D. apply is_urh_ready_calm; rewrite <- not_true_iff_false; tauto.
    + intros _. destruct (Z1 eq_refl) as [Sz Us]. unfold forward_done. rewrite S5, U5, I5.
      rewrite (forward_parts_in _ _ _ _ _ _ _ ltac:(by rewrite I2) ltac:(by rewrite I2) E1 E2 E3 E4), I2. by rewrite Sz, Us.
  - split_and!; [done|lia| |done]. intros Hc. destruct (C5 Hc) as [|(R & P & _)]; [left; lia|]. right. by rewrite P.
Qed.
End Process.

(** ** Runs *)

Section Theorems.
Context `{Platform} (max : Z) (Hmax : 0 < max).

Lemma forwarding_weaken (li li' lo lo' : Prop) cin cout u :
  (li -> li') -> (lo -> lo') -> forwarding li lo cin cout u -> forwarding li' lo' cin cout u.
Proof using Type.
  intros Hi Ho []. constructor; [done..| | |by auto]; (eapply relayed_weaken; [|done]); done.
Qed.

Lemma forward_event_ok li lo cin cout u ev :
  forwarding li lo cin cout u -> input_obeys ev ->
  ∃ u', forward_event max u ev = Some u' /\ forwarding (li \/ drops_in ev) (lo \/ drops_out ev) cin cout u'.
Proof using Hmax.
  intros Hf He. apply (forwarding_weaken _ (li \/ drops_in ev) _ (lo \/ drops_out ev)) in Hf; [|by left..].
  destruct ev as [conn mhd|p0 p1|side r| |sd tpc e]; simpl.
  - eexists; split; [done|]. by eapply forwarding_same.
  - eexists; split; [done|]. by eapply forwarding_same.
  - eexists; split; [done|]. unfold urh_epoll_event. destruct (epoll_ready r _), side; by eapply forwarding_same.
  - eexists; split; [done|]. destruct Hf. constructor; simpl; [done..|by right].
  - destruct (process_urh_ok max Hmax _ _ cin cout sd tpc e u Hf He) as (u' & p & E & F & _); [by right|by right|].
    rewrite E. by eexists.
Qed.

Lemma forward_run_ok li lo cin cout u evs :
  forwarding li lo cin cout u -> Forall input_obeys evs ->
  ∃ u', forward_run max u evs = Some u' /\ forwarding (li \/ Exists drops_in evs) (lo \/ Exists drops_out evs) cin cout u'.
Proof using Hmax.
  revert li lo u. induction evs as [|ev evs IH]; intros li lo u Hf Hall.
  - eexists; split; [done|]. eapply forwarding_weaken; [..|done]; by left.
  - apply Forall_cons in Hall as [He Hall]. destruct (forward_event_ok _ _ _ _ _ _ Hf He) as (u1 & E & F1).
    destruct (IH _ _ _ F1 Hall) as (u2 & E2 & F2). exists u2. simpl. rewrite E. split; [done|].
    eapply forwarding_weaken; [..|done]; rewrite Exists_cons; tauto.
Qed.

Lemma forward_start_ok avail contents :
  0 <= avail -> Z.of_nat (length contents) = Z.max avail RESERVE_EBUF_SIZE -> Z.max avail RESERVE_EBUF_SIZE <= SIZE_MAX ->
  ∃ cin cout, forwarding False False cin cout (forward_start avail contents).
Proof using Type.
  intros Ha Hl Hm. unfold RESERVE_EBUF_SIZE in *. set (n := Z.max avail 8).
  assert ((if avail <? 8 then 8 else avail) = n) as En by (destruct (Z.ltb_spec avail 8); lia).
  unfold forward_start, RESERVE_EBUF_SIZE. rewrite En. pose proof (Z.div_mod n 2 ltac:(lia)). pose proof (Z.mod_pos_bound n 2 ltac:(lia)).
  exists (n / 2), (n - n / 2).
  destruct (mem_read_Some contents 0 0) as ([|] & E1 & L1); [lia..| |simpl in L1; lia].
  destruct (mem_read_Some contents (n / 2) 0) as ([|] & E2 & L2); [lia..| |simpl in L2; lia].
  constructor; simpl; [done|done|lia| | |done]; (split_and!; simpl; [by left|lia..|]); exists [], []; split_and!; try done; by left.
Qed.

(** C19: Whatever the sockets do, as long as the calls obey their contracts,
    the forwarding of an upgraded connection never leaves its two buffers,
    and in each direction the bytes that were taken are, in this order, those
    that were given on, those in the buffer and those that were dropped.
    Bytes for the application are dropped only after it closed the
    connection, at a shutdown or after its socket failed, and bytes for the
    remote client only at a shutdown or after the TLS session failed; the
    direction has ended then. *)
Theorem forwarding_relays_the_bytes avail contents evs :
  0 <= avail -> Z.of_nat (length contents) = Z.max avail RESERVE_EBUF_SIZE -> Z.max avail RESERVE_EBUF_SIZE <= SIZE_MAX ->
  Forall input_obeys evs ->
  ∃ u to_app lost_in to_remote lost_out,
    forward_run max (forward_start avail contents) evs = Some u
    /\ mem_read (buf u) (buffer (in_ u)) (buffer_used (in_ u)) = Some to_app
    /\ taken (in_ u) = given (in_ u) ++ to_app ++ lost_in
    /\ (lost_in ≠ [] -> Exists drops_in evs /\ buffer_size (in_ u) = 0 /\ buffer_used (in_ u) = 0)
    /\ mem_read (buf u) (buffer (out_ u)) (buffer_used (out_ u)) = Some to_remote
    /\ taken (out_ u) = given (out_ u) ++ to_remote ++ lost_out
    /\ (lost_out ≠ [] -> Exists drops_out evs /\ buffer_size (out_ u) = 0 /\ buffer_used (out_ u) = 0).
Proof using Hmax.
  intros Ha Hl Hm Hall. destruct (forward_start_ok avail contents Ha Hl Hm) as (cin & cout & F0).
  destruct (forward_run_ok _ _ _ _ _ evs F0 Hall) as (u & E & [_ _ _ Hi Ho _]).
  destruct Hi as (_ & _ & q & r & Hq & Ht & Hr). destruct Ho as (_ & _ & q' & r' & Hq' & Ht' & Hr').
  exists u, q, r, q', r'. split_and!; [done..| |done|done|]; intros Hne; tauto.
Qed.

(** C20: A forwarding never stalls.  In every state that is reached, a
    direction that has not ended is watched: the socket it comes from for
    reading or the one it goes to for writing.  And a call of [process_urh]
    in which no system call is interrupted moves bytes, or leaves nothing
    that is ready, so that waiting is right; at a shutdown it finishes. *)
Theorem forwarding_never_stalls avail contents evs u :
  0 <= avail -> Z.of_nat (length contents) = Z.max avail RESERVE_EBUF_SIZE -> Z.max avail RESERVE_EBUF_SIZE <= SIZE_MAX ->
  Forall input_obeys evs -> forward_run max (forward_start avail contents) evs = Some u ->
  (let '(conn, mhd) := urh_to_fdset u in
   (buffer_size (in_ u) ≠ 0 \/ buffer_used (in_ u) ≠ 0 -> w_read conn || w_write mhd = true)
   /\ (buffer_size (out_ u) ≠ 0 \/ buffer_used (out_ u) ≠ 0 -> w_read mhd || w_write conn = true))
  /\ forall shutdown tpc e, obeys e -> uninterrupted e ->
      ∃ u' pending, process_urh max shutdown tpc e u = Some (u', pending)
        /\ ((moved u < moved u')%nat \/ is_urh_ready false u' = false /\ pending = false)
        /\ (shutdown = true -> forward_done u' = true).
Proof using Hmax.
  intros Ha Hl Hm Hall E. destruct (forward_start_ok avail contents Ha Hl Hm) as (cin & cout & F0).
  destruct (forward_run_ok _ _ _ _ _ evs F0 Hall) as (u' & E' & F). rewrite E in E'. injection E' as <-.
  split.
  - destruct F as [_ _ Hc (Hi & ? & _) (Ho & ? & _) _]. simpl.
    rewrite !orb_true_iff, !negb_true_iff, !Z.ltb_lt, !Z.eqb_neq. lia.
  - intros sd tpc e He Hu. apply (forwarding_weaken _ True _ True) in F; [|done..].
    destruct (process_urh_ok max Hmax _ _ _ _ sd tpc e u F He ltac:(done) ltac:(done)) as (u' & p & Ep & _ & _ & Hp & Hs).
    exists u', p. auto.
Qed.
(** *** The thread of a connection *)

Definition round_obeys (r : thread_round) : Prop :=
  match r with Select_ready _ _ _ e | Poll_ready _ _ _ e => obeys e | _ => True end.

Definition round_shutdown (r : thread_round) : Prop :=
  match r with Select_ready _ _ shutdown _ | Poll_ready _ _ shutdown _ => shutdown = true | _ => False end.

Definition round_fails (r : thread_round) : Prop :=
  match r with No_room | Wait_failed => True | _ => False end.

Lemma upgrade_thread_ok cin cout rounds u :
  forwarding True True cin cout u -> Forall round_obeys rounds ->
  ∃ u' left, thread_main_connection_upgrade max rounds u = Some (u', left)
    /\ forwarding True True cin cout u' /\ (Exists round_shutdown rounds -> left = true)
    /\ (left = true -> forward_done u' = true \/ Exists round_fails rounds).
Proof using Hmax.
  revert u. induction rounds as [|r rounds IH]; intros u Hf Hall; simpl; destruct (forward_done u) eqn:Ed;
    try (eexists _, _; split_and!; [done..|by intros _; left]).
  - eexists _, _. split_and!; [done|done|by intros ?%Exists_nil|done].
  - apply Forall_cons in Hall as [He Hall]. setoid_rewrite Exists_cons.
    assert (forall u0 sd e, forwarding True True cin cout u0 -> obeys e ->
      ∃ u' left, ('(v, _) ← process_urh max sd true e u0; thread_main_connection_upgrade max rounds v) = Some (u', left)
        /\ forwarding True True cin cout u' /\ (sd = true \/ Exists round_shutdown rounds -> left = true)
        /\ (left = true -> forward_done u' = true \/ False \/ Exists round_fails rounds)) as Hround.
    { intros u0 sd e F0 Ho.
      destruct (process_urh_ok max Hmax _ _ _ _ sd true e u0 F0 Ho ltac:(done) ltac:(done)) as (u1 & p & E & F1 & _ & _ & Hs).
      rewrite E. cbn [mbind option_bind]. destruct (IH u1 F1 Hall) as (u' & left & Et & F' & Hl & Hd).
      exists u', left. split_and!; [done|done| |tauto]. intros [Hsd|]; [|auto].
      specialize (Hs Hsd). destruct rounds; cbn [thread_main_connection_upgrade] in Et; rewrite Hs in Et; by injection Et. }
    destruct r as [| | |conn mhd sd e|p0 p1 sd e]; [..|by apply Hround; [by eapply forwarding_same|]|by apply Hround; [by eapply forwarding_same|]].
    + eexists _, _. split_and!; [done|done|done|by right; left].
    + destruct (IH u Hf Hall) as (u' & left & Et & F' & Hl & Hd). exists u', left. simpl. split_and!; [done|done| |]; tauto.
    + eexists _, _. split_and!; [done|done|done|by right; left].
Qed.

(** The thread of an upgraded connection leaves its loop at the latest at the
    shutdown of the daemon, and when it leaves it without an error of the
    wait, nothing is left to forward. *)
Theorem upgrade_thread_ends avail contents rounds :
  0 <= avail -> Z.of_nat (length contents) = Z.max avail RESERVE_EBUF_SIZE -> Z.max avail RESERVE_EBUF_SIZE <= SIZE_MAX ->
  Forall round_obeys rounds ->
  ∃ u left, thread_main_connection_upgrade max rounds (forward_start avail contents) = Some (u, left)
    /\ (Exists round_shutdown rounds -> left = true)
    /\ (left = true -> forward_done u = true \/ Exists round_fails rounds).
Proof using Hmax.
  intros Ha Hl Hm Hall. destruct (forward_start_ok avail contents Ha Hl Hm) as (cin & cout & F0).
  destruct (upgrade_thread_ok cin cout rounds (forward_start avail contents)) as (u & left & E & _ & ? & ?); [|done|by eauto].
  eapply forwarding_weaken; [..|done]; done.
Qed.
End Theorems.

(** ** Instances *)

(** Both sides send, the remote client takes everything and the application a
    byte at a time. *)
Definition example_calls : calls := {|
  gnutls_record_recv n := Tls_data (take (Z.to_nat n) [1; 2; 3]);
  gnutls_record_check_pending := false;
  MHD_recv_ n := Received (take (Z.to_nat n) [7; 8]);
  gnutls_record_send data := Tls_count (Z.of_nat (length data));
  MHD_send_ data := Sent 1
|}.

Lemma example_obeys : obeys example_calls.
Proof.
  constructor; simpl.
  1,2: intros n bs Hn [= <-]; rewrite length_take; simpl; lia.
  all: intros data n Hd [= <-]; destruct data; [done|]; simpl; lia.
Qed.

Lemma example_uninterrupted : uninterrupted example_calls.
Proof. by constructor. Qed.

(** Ten bytes of buffer; two rounds, then the application closes the
    connection and bytes for it are lost. *)
Definition example_events : list forward_input :=
  let all := mkWatched true true false in
  [Select all all; Process false false example_calls; Epoll true (mkRevents true false false false);
   Process false false example_calls; Close; Process false false example_calls].

Lemma example_events_obey : Forall input_obeys example_events.
Proof. repeat (apply Forall_cons; split; [try exact example_obeys; exact Logic.I|]). by apply Forall_nil. Qed.

Lemma forwarding_relays_the_bytes_witness :
  let run := @forward_run LP64 2147483647 (forward_start 10 (replicate 10 0)) example_events in
  (λ u, (given (in_ u), given (out_ u), taken (in_ u), buffer_used (in_ u))) <$> run = Some ([1], [7; 8; 7; 8], [1; 2; 3; 1; 2; 3], 0)
  /\ ∃ u to_app lost_in to_remote lost_out,
    run = Some u
    /\ mem_read (buf u) (buffer (in_ u)) (buffer_used (in_ u)) = Some to_app
    /\ taken (in_ u) = given (in_ u) ++ to_app ++ lost_in
    /\ (lost_in ≠ [] -> Exists drops_in example_events /\ buffer_size (in_ u) = 0 /\ buffer_used (in_ u) = 0)
    /\ mem_read (buf u) (buffer (out_ u)) (buffer_used (out_ u)) = Some to_remote
    /\ taken (out_ u) = given (out_ u) ++ to_remote ++ lost_out
    /\ (lost_out ≠ [] -> Exists drops_out example_events /\ buffer_size (out_ u) = 0 /\ buffer_used (out_ u) = 0).
Proof.
  split; [by vm_compute|].
  apply (@forwarding_relays_the_bytes LP64 2147483647 ltac:(done) 10 (replicate 10 0) example_events);
    [done|done|by vm_compute|exact example_events_obey].
Defined.

Definition example_state : forward :=
  default (forward_start 10 (replicate 10 0))
    (@forward_run LP64 2147483647 (forward_start 10 (replicate 10 0)) (take 3 example_events)).

Lemma forwarding_never_stalls_witness :
  (let '(conn, mhd) := urh_to_fdset example_state in
   (buffer_size (in_ example_state) ≠ 0 \/ buffer_used (in_ example_state) ≠ 0 -> w_read conn || w_write mhd = true)
   /\ (buffer_size (out_ example_state) ≠ 0 \/ buffer_used (out_ example_state) ≠ 0 -> w_read mhd || w_write conn = true))
  /\ ∃ u' pending, @process_urh LP64 2147483647 true false example_calls example_state = Some (u', pending) /\ forward_done u' = true.
Proof.
  destruct (@forwarding_never_stalls LP64 2147483647 ltac:(done) 10 (replicate 10 0) (take 3 example_events) example_state
    ltac:(done) ltac:(done) ltac:(by vm_compute) ltac:(apply Forall_take, example_events_obey) ltac:(by vm_compute)) as [Hw Hp].
  split; [exact Hw|]. destruct (Hp true false example_calls example_obeys example_uninterrupted) as (u' & p & E & _ & Hs).
  exists u', p. split; [exact E|exact (Hs eq_refl)].
Defined.

(** [poll] tells that a socket was hung up or failed: the socket of the
    connection is ready after the first and in error after the second, that of
    the pair the other way round. *)
Theorem poll_swaps_hangup_and_error u :
  app_celi u = MHD_EPOLL_STATE_UNREADY -> mhd_celi u = MHD_EPOLL_STATE_UNREADY ->
  let hup := mkRevents false false true false in let err := mkRevents false false false true in
  app_celi (urh_from_pollfd hup hup u) = READ_WRITE /\ mhd_celi (urh_from_pollfd hup hup u) = MHD_EPOLL_STATE_ERROR
  /\ app_celi (urh_from_pollfd err err u) = MHD_EPOLL_STATE_ERROR /\ mhd_celi (urh_from_pollfd err err u) = READ_WRITE.
Proof. intros Ea Em. simpl. unfold urh_from_pollfd. simpl. by rewrite Ea, Em. Qed.
